(* ===== verification/_CoqProject ===== *)
-Q . S2P
Prelude.v
Proto.v
Externals.v
ToyExternals.v
Binary.v
StreamId.v
Types.v
SdkUtils.v
MembershipState.v
Solicitations.v
Usernames.v
LiveEvents.v
DisplayNames.v
EnsAddresses.v
Nfts.v
UserMetadata.v
Members.v
Migrations.v
ChannelMetadata.v
Content.v
Channel.v
DMChannel.v
GDMChannel.v
Space.v
User.v
UserInbox.v
UserSettings.v
UserDeviceKeys.v
Media.v
UnknownContent.v
StreamStateView.v
Timeline.v
StreamView.v
Confirmation.v
Sign.v
Envelopes.v
SyncedStreams.v
SyncLoop.v
Persistence.v
SyncedStream.v
Restore.v
SyncedStreamsExtension.v
StreamLoading.v
DecryptionQueues.v
DecryptionExtensions.v
Decryption.v
Payloads.v
RpcClient.v
Async.v
ClientState.v
ClientSend.v
ClientStreams.v
ClientOps.v
Sending.v
Fetching.v
ClientProperties.v
ClientDecryption.v
Entitlement.v
EntitlementEval.v
SpaceDapp.v
CryptoStore.v
Olm.v
EncryptionDevice.v
GroupEncryption.v
GroupMessages.v
DeviceKeys.v
UnauthenticatedClient.v
WalletLink.v
ContractShims.v
DappCalls.v
Dlog.v
RpcLogging.v
StreamWait.v
ClientLifecycle.v
RiverConfig.v
MessageTravel.v
TestGatingNFT.v
StressUtils.v
StressChat.v
StressProperties.v
