(* ===== verification/Prelude.v ===== *)
(** * River client: verification of the streams of the SDK

    River is a chat protocol: the nodes keep append-only streams of signed events,
    grouped in miniblocks, and the TypeScript SDK (core/sdk) turns the events of a
    stream into the state an application shows. This library models how the SDK
    signs and checks events, receives them and builds the state of a stream, method
    by method from the TypeScript sources, and proves what makes it correct.

    ** The program and its model

    One [StreamStateView] exists per stream. It owns the timeline, the events by
    hash and the range of known miniblocks, dispatches every event to the members
    component or to the content object of the stream's kind, and applies an event in
    two phases: when it is appended, and when a miniblock header confirms it. The
    components, their files here and their sources under src/core/sdk/src (others
    are named):

    - [Prelude]: the effect monad, JavaScript values, generic lemmas, tactics.
    - [Proto]: the wire messages (src/protocol/protocol.proto, payloads.proto).
    - [Externals], [ToyExternals]: the third-party functions as the operations of a
      type class, their documented behaviour as law classes, and a concrete
      instance that satisfies the laws and evaluates. The sets of OpenZeppelin the
      contracts use are the class [EnumerableSet].
    - [Binary]: check.ts and binary.ts of src/core/dlog, check.ts of the SDK.
    - [StreamId]: id.ts and the hashing of utils.ts. [SdkUtils]: removeCommon and other
      helpers of utils.ts.
    - [Types]: types.ts (data), encryptedContentTypes.ts, streamEvents.ts.
    - [MembershipState]: streamStateView_Members_Membership.ts.
    - [Solicitations]: streamStateView_Members_Solicitations.ts.
    - [Usernames], [DisplayNames], [EnsAddresses], [Nfts]: userMetadata_*.ts;
      [LiveEvents] holds the invariant the last three share.
    - [UserMetadata]: streamStateView_UserMetadata.ts.
    - [Members]: streamStateView_Members.ts.
    - [Migrations]: migrations/*.ts.
    - [ChannelMetadata]: streamStateView_ChannelMetadata.ts.
    - [Content]: streamStateView_AbstractContent.ts, the interface between the view
      and the content of a stream: a class of operations and a class of laws.
    - [Channel], [DMChannel], [GDMChannel], [Space], [User], [UserInbox],
      [UserSettings], [UserDeviceKeys], [Media], [UnknownContent]: the content
      classes streamStateView_*.ts, each an instance of both classes.
    - [StreamStateView]: streamStateView.ts. [Timeline], [StreamView] and
      [Confirmation] hold its theorems.
    - [Sign]: sign.ts and signerContext.ts, how events are hashed, signed, packed
      and unpacked; the cryptography, the wallets and the protobuf coding are the
      class [Crypto] and two records. [Envelopes] holds the documented behaviour of
      these parameters, an instance of it, and the theorems.
    - [SyncedStreams]: syncedStreams.ts, the loop that keeps the subscription to a
      node alive and feeds its responses to the streams, which are the class
      [SyncTarget]. [SyncLoop] holds its theorems.
    - [Persistence]: persistenceStore.ts and the conversions of streamUtils.ts.
      [SyncedStream]: stream.ts and syncedStream.ts, a view with its persisted copy.
      [Restore] holds the theorems of both.
    - [SyncedStreamsExtension]: syncedStreamsExtension.ts, the order in which the
      streams are loaded, as a state machine. [StreamLoading] holds its theorems.
    - [DecryptionQueues], [DecryptionExtensions]: decryptionExtensions.ts of
      src/core/encryption, the queues of content, keys and requests and the ticks
      that work on them. [Decryption] holds the theorems.
    - [Payloads]: the payload makers and accessors of types.ts.
    - [RpcClient], [RpcLogging]: makeStreamRpcClient.ts, how requests are retried and
      errors read; how they are counted and their streams wrapped.
    - [Async]: programs that await answers of the outside world, and a logic for
      them. [ClientState], [ClientSend], [ClientStreams], [ClientOps]: client.ts, its
      fields; sending events; fetching, creating and scrolling back streams; names,
      settings, memberships, devices and keys. [Sending], [Fetching] and
      [ClientProperties] hold their theorems. [ClientLifecycle]: starting and stopping
      the sync, over the loader of streams. [ClientDecryption]:
      clientDecryptionExtensions.ts, the client as the delegate of the decryption.
    - [StreamWait]: the waits of stream.ts, for an event and for a membership.
    - [CryptoStore], [EncryptionDevice], [GroupEncryption]: cryptoStore.ts,
      encryptionDevice.ts with encryptionDelegate.ts, and groupEncryption.ts,
      groupDecryption.ts, groupEncryptionCrypto.ts of src/core/encryption: the keys of
      this device and the sessions of its streams. [Olm] is the Olm library as a class
      of operations, its documented behaviour as laws, and an instance of them.
      [GroupMessages] and [DeviceKeys] hold the theorems.
    - [MessageTravel]: a message from the sender's device to the receiver's timeline,
      the theorem that puts these components together.
    - [UnauthenticatedClient]: unauthenticatedClient.ts, reading without a signer.
    - [Entitlement], [EntitlementEval]: entitlement.ts of src/core/web3, the rules
      that gate a space, as trees and in the flat form of the contract, and their
      evaluation. [SpaceDapp]: SpaceDapp.ts, Space.ts and RiverRegistry.ts of
      src/core/web3/src/v3 with the converters, what is read from the contracts of a
      space; its module [ChannelService] is the contract that keeps the channels and
      their roles (src/contracts, spaces/facets/channels). [DappCalls]: the transactions the methods of SpaceDapp.ts send, joining a
      space, and how transactions are submitted. [TestGatingNFT]: TestGatingNFT.ts, the
      contracts that tests deploy, behind a lock. [ContractShims]:
      BaseContractShim.ts, SpaceRegistrar.ts, how the errors and logs of contracts are
      read, with the listener of IMembershipShim.ts. [WalletLink]: WalletLink.ts and the
      contract behind it (src/contracts, facets/wallet-link).
    - [Dlog]: dlog.ts of src/core/dlog, the logger. [RiverConfig]: riverConfig.ts, the
      contracts and urls that are used.
    - [StressUtils], [StressChat]: the load test of src/core/stress/src: how a process
      is configured (root_chat.ts, start.ts, utils/), what its clients do
      (stressClient.ts, mode/chat/) and the phases it runs them through. The programs
      of the clients are written against the interface [scall], which the methods of
      [ClientSend], [ClientStreams] and [ClientOps] implement ([perform]).
      [StressProperties] holds the theorems.

    A response of the node reaches a stream through [SyncedStreams.onUpdate], which
    unpacks it with [Sign.unpackStream] or [Sign.unpackStreamAndCookie]; the parsed
    events are those that [StreamStateView.initialize], [appendEvents] and
    [prependEvents] take. [SyncedStream] is the instance of [SyncTarget]; the client
    holds one per stream, fills it from the store or the node ([ClientStreams]) and
    puts what the user sends into it before the node has answered ([ClientSend]).

    ** How code becomes definitions

    A class is a record of its fields and its methods are functions in the monad
    [JS]: they read and write the object's state, emit events and may throw, and as
    in JavaScript what was written and emitted before a throw stays. An emitter
    that may be undefined is a boolean. [try]/[catch] is [js_try], [for .. of] is
    [js_for], a loop with an index is a structural [Fixpoint] over what is left of
    the array. Two loops take fuel: the one that writes a number in bytes, where
    four rounds are proved to be enough for every number, and the outer loop of the
    sync, whose body suspends or returns in its first round. Further definitions
    take a number: [fnReadRetryer] and [retry_loop] the attempts that are made (the
    theorems say when the first never ends and bound the second),
    [leaveStream] and [removeUser] the depth of their recursion, which is two (a
    space and its channels), [scrollbackUntilContentFound] the rounds, and the
    retries of [makeEventWithHashAndAddToStream] are the three of the code;
    [pair_loop] takes as many rounds as there are checks, [wrapTransaction] 202 polls and
    3 submissions, both proved to be enough; the polling loops of the load test take
    their rounds, and [waitFor_ends] says how many end a wait with a timeout; the depth limit of the logger bounds
    [_cloneAndFormat] as it does in the code. An [async] method runs
    to its end at once where nothing it awaits can interleave with a modelled
    component; the sync loop is a coroutine whose state is the [await] it waits at,
    and its environment a set of events. The methods of the client are programs of
    the free monad [Async.async]: reads and writes of the client's state, and calls
    to the node, the store and the cryptography. [Async.run] runs a program against
    moments, each the answer of a call and the state the client is in when it
    arrives, so that any handler may have run during an [await]; theorems assume of
    these states no more than a relation to the state left behind, named in their
    statements. [Async.history] is the calls of a run with their answers and these
    states, for the theorems that tie a call to what the client knew at that time. A method of an owned
    component runs through a lens. A [Map] whose order can be observed is an
    association list in insertion order, other maps and sets, and objects used as
    records by key, are [gmap] and [gset]. Timeline events are shared objects: they
    live in a heap of the view, and the timeline, the map and the emitted changes
    hold references. Bigints and numbers are [Z]; truthiness is written out where
    the code uses it ([truthy_str], [truthy_bigint]). Protobuf enums are open and a
    [oneof] may be unset. Strings are sequences of code units below 256. Random ids
    and the clock are arguments. What the code only logs is left out.

    ** What is proved

    - The view: from an initialized view, under any sequence of appends, scrollback
      whose answers do not repeat an event, local sends with fresh ids and decryption
      results, the timeline and the map by hash agree and no event is shown twice; what each operation adds and where; the merge of
      a local event with its echo; the numbers a miniblock header gives, the
      rejection of stale headers and the growth of the known range.
    - Members: the confirmed memberships are, per user, an automaton driven by the
      user's own events; the member map runs ahead of them by exactly the queue of
      unconfirmed events; guards and two-phase life cycles.
    - Key exchange: one open request per device, and fulfilled session ids are
      subtracted as multisets.
    - Names: a username is held by one user at most, a snapshot gives it to the
      first claimant, what is decrypted is shown only with the right checksum; the
      life cycles of display names, ENS addresses and NFTs.
    - Content kinds: space channels follow their last event, media chunks in any
      order put the file together and never leave the array, key shares are held
      back until they are confirmed, block history, device keys.
    - Stream ids: made ids are valid, of one kind, and name their user.
    - Migrations: the in-place duplicate removal equals its specification.
    - Envelopes: what is signed is accepted, with or without a delegated device key;
      what is accepted has the hash of its bytes and a signature that speaks for its
      creator; the id of an event determines its bytes up to a collision of
      Keccak-256; what is signed to delegate determines key and expiry; when a
      stream is unpacked and what it then contains.
    - Sync loop: the documented meaning of its states for every sequence of events in
      which it is not started while it runs, the node does not end the responses early,
      and the timer of a stop fires only during that stop; announced states along
      the allowed transitions only, a stop that ends the loop and all streams, growing
      retry delays.
    - Persistence: a stream that was saved and is read again is the same stream;
      the scrollback from the cache has no gaps.
    - Loading: every stream is tried, by priority, every run ends, a requested start of
      the sync is announced, and when the client reports that everything is loaded.
    - Decryption: no content is lost or done twice between the queues; keys are
      given only to members who ask for them and asked only of members; imported
      keys bring back what failed for lack of them.
    - Client: a message that is reported sent was accepted by the node under the
      hash it is shown with, over the miniblock hash the view had; miniblocks are fetched in
      order and scrollback from an honest node leaves no gap, also when the view changes
      meanwhile; keys of another stream are refused, each device gets those that were
      encrypted for it, and a failure for one user does not stop the others; blocks of
      a user are numbered upwards.
    - Key exchange: the delegate says yes only to members, and in channels only with
      the Read permission on the chain.
    - Entitlements: a rule survives the contract; rules made from checks require
      exactly these; in whatever order the chains answer, the evaluation ends with
      the right answer; a wallet may join exactly when every evaluated rule holds.
    - Contracts: the calls that update a channel lead to the wanted flag, name and roles,
      or revert as a whole, and when they do; a submitted transaction is confirmed or
      given up in bounded time, after the submissions it may make.
    - Requests: retries are bounded and paused, and the property the node puts in
      an error message is read back; the logging interceptor changes no answer, no
      error and no stream, and its statistics add up.
    - Encryption: what is stored is well formed at all times; what a device encrypts for
      a stream it can read later, and so can every device that imports the exported
      key; importing never loses what a session could read, and replaces it only by a
      session of the same id that is known from an earlier message on or better trusted; concurrent imports of
      different sessions are as good as imports in turn; messages between devices
      arrive; a restarted device has its old keys; device keys are cached until they
      expire.
    - End to end: a channel message that is encrypted and signed is accepted, appended,
      announced as encrypted, and shown with the right text and author.
    - Waiting and stopping: the wait for a membership ends when it is reached, or what
      keeps it from noticing; the sync
      is started once per request and not again after it was stopped.
    - Unauthenticated client: history grows without gaps, scrolling to a date ends.
    - Wallet links: the links form a forest of depth one whoever calls the contract; a
      link that may be made is made and cannot be replayed.
    - Contract errors are named by the first contract that knows them; the membership
      listener resolves with what happens first.
    - Logger: what is logged is bounded by the size of the graph, long hex texts are
      never shown, and graphs without sharing are shown whole. Configuration: where it
      comes from, and which variable is reported missing.
    - Load test: no client chats before every client of its process has checked in to
      every channel and reacted to the announcement; the processes divide the wallets among them and the names of their
      clients differ; a wait with a timeout ends; joining completes when the node
      answers; the summary counts every client once per channel; a program does on the
      SDK's client what it does on the interface.
    - Contracts of tests: calls take turns, none is left behind, and one contract is
      deployed for a name however they interleave.
    - Helpers: the clients of the node have transports with different numbers, the cache
      of entitlement modules does not change what is read, what a shim encodes it
      decodes, and the store that keeps nothing reads as an empty one.

    Behaviour that differs from what the code means to do is stated as it is, by
    [join_announced_again], [cached_cleartext_unchecked],
    [prepended_zero_keeps_min], [string_address_refused], [unpackStream_exact] (the
    event ids), [early_end_deserts], [restart_reported_as_failed],
    [insertSorted_sorted_iff], [remote_loaded_iff], [stop_leaves_ticking],
    [read_retried_without_bound], [unencrypted_message_stuck],
    [accepted_event_reported_failed], [failed_read_reverses], [failed_request_kept],
    [unreadable_stream_blocks], [node_error_hidden], [created_stream_not_rejoined],
    [failed_rename_loses_name], [last_requirement_ignored],
    [third_token_not_required], [mock_rules_refused], [no_users_taken_for_rule],
    [device_message_delivery] (the limit on the receiver's side),
    [duplicate_keys_race], [failed_import_hidden], [date_taken_for_age],
    [link_signatures_reused], [small_letters_missed], [aborted_controller_ignored],
    [join_reports_token], [decode_failure_hides_message], [failed_call_counted_twice],
    [received_key_not_id], [shared_object_called_circular], [shortened_keys_collide],
    [namespace_options_replaced], [no_timeout_polls_on], [repeated_answer_shown_twice],
    [stale_timer_deserts], [wait_ends_when_reached] (a stopped or reset stream),
    [channel_roles_updated] (an update that disables the channel),
    [own_role_replaced_reverts] and [retry_count_ignored].

    ** What is not modelled

    The Go node and the contracts other than the wallet links and the changes of channels and
    their roles (not their creation and removal, nor the entitlements), the transport, the ABI
    coding and the cryptography (Olm, signatures and hashes are parameters with laws).
    Of the client: the forwarding of events to listeners, the calls that debug a node,
    logging; the promises of one [Promise.all] run one after another, except in
    [importSessionKeys] and in the evaluation of rules, where the interleaving matters.
    The methods of the encryption device run to their end at once. The device summaries
    and block lists taken from a snapshot are copied, while the code shares the objects
    with the snapshot it keeps; object keys that are names of [Object.prototype] are not
    treated specially. Of core/web3: the shims that only name an ABI. Of the load test:
    index.ts, a script that tries the library by hand, the dump of the heap (perf.ts),
    and what Node reports about the host, which is a parameter; the clients of a phase
    are interleaved at their calls. The examples and the generated code
    (packages/generated, the ABI typings, core/proto, MockERC721A.ts), which is most of
    the lines of the repository, have no logic of their own to verify. *)

From Stdlib Require Export ZArith Lia Init.Byte.
From Stdlib Require Strings.Byte.
From stdpp Require Export sorting.
From stdpp Require Export prelude gmap strings.

#[global] Open Scope string_scope.
#[global] Open Scope Z_scope.
#[global] Open Scope list_scope.

(** ** Errors and results *)

(** A thrown JavaScript error: [CodeException] is the class of
    core/dlog/src/check.ts, [JsError] a plain [Error]. *)
Inductive js_error :=
| CodeException (message : string) (code : Z)
| JsError (message : string).

(** The completion of a call: a value or a thrown error. *)
Inductive result (A : Type) :=
| Ok (a : A)
| Throw (e : js_error).
Arguments Ok {_} _.
Arguments Throw {_} _.

#[global] Instance result_mret : MRet result := @Ok.
#[global] Instance result_mbind : MBind result := fun A B k m =>
  match m with
  | Ok a => k a
  | Throw e => Throw e
  end.

(** Run the binds of the result monad whose first call is known. *)
Ltac res_simpl := cbn [mbind result_mbind mret result_mret].
Ltac res_simpl_in Hx := cbn [mbind result_mbind mret result_mret] in Hx.

(** A bind that returned: its first call did. *)
Lemma result_bind_Ok {A B} (m : result A) (k : A -> result B) b :
  m ≫= k = Ok b <-> exists a, m = Ok a /\ k a = Ok b.
Proof. destruct m; res_simpl; naive_solver. Qed.

(** Split an equation [m ≫= k = Ok b] at all its binds. *)
Ltac split_Ok Hx :=
  lazymatch type of Hx with
  | _ ≫= _ = Ok _ =>
      let a := fresh "a" in let Ha := fresh "Ha" in
      apply result_bind_Ok in Hx as (a & Ha & Hx);
      lazymatch type of a with unit => destruct a | _ => idtac end; split_Ok Hx
  | _ => idtac
  end.

(** ** The effect monad: mutable state, emitted events, exceptions

    A method runs on the object's state, may emit events and may throw. As in
    JavaScript the writes and emissions made before a [throw] stay. *)
Record outcome (E S A : Type) := Outcome {
  res : result A;
  post : S;
  emits : list E;
}.
Arguments Outcome {_ _ _} _ _ _.
Arguments res {_ _ _} _.
Arguments post {_ _ _} _.
Arguments emits {_ _ _} _.

Definition JS (E S A : Type) : Type := S -> outcome E S A.

Definition js_ret {E S A} (a : A) : JS E S A := fun s => Outcome (Ok a) s [].

Definition js_bind {E S A B} (k : A -> JS E S B) (m : JS E S A) : JS E S B :=
  fun s =>
    match m s with
    | Outcome (Ok a) s1 w1 =>
        match k a s1 with
        | Outcome r s2 w2 => Outcome r s2 (w1 ++ w2)
        end
    | Outcome (Throw e) s1 w1 => Outcome (Throw e) s1 w1
    end.

#[global] Instance JS_mret {E S} : MRet (JS E S) := @js_ret E S.
#[global] Instance JS_mbind {E S} : MBind (JS E S) := @js_bind E S.

Definition js_throw {E S A} (e : js_error) : JS E S A := fun s => Outcome (Throw e) s [].

Definition js_get {E S} : JS E S S := fun s => Outcome (Ok s) s [].

Definition js_modify {E S} (f : S -> S) : JS E S unit := fun s => Outcome (Ok tt) (f s) [].

(** Lift a pure fallible call. *)
Definition js_lift {E S A} (r : result A) : JS E S A := fun s => Outcome r s [].

(** [emitter?.emit(...)]: an undefined emitter drops the event. *)
Definition js_emit {E S} (emitter : bool) (e : E) : JS E S unit :=
  fun s => Outcome (Ok tt) s (if emitter then [e] else []).

(** [try { m } catch (e) { h(e) }]. *)
Definition js_try {E S A} (m : JS E S A) (h : js_error -> JS E S A) : JS E S A :=
  fun s =>
    match m s with
    | Outcome (Ok a) s1 w1 => Outcome (Ok a) s1 w1
    | Outcome (Throw e) s1 w1 =>
        match h e s1 with
        | Outcome r s2 w2 => Outcome r s2 (w1 ++ w2)
        end
    end.

(** [for (const x of xs) { f(x) }]. *)
Fixpoint js_for {E S A} (xs : list A) (f : A -> JS E S unit) : JS E S unit :=
  match xs with
  | [] => js_ret tt
  | x :: xs => _ ← f x; js_for xs f
  end.

(** Run a method of a component: [view] reads the component's state out of the
    owner's, [update] writes it back. *)
Record lens (S T : Type) := Lens {
  view : S -> T;
  update : T -> S -> S;
}.
Arguments Lens {_ _} _ _.
Arguments view {_ _} _ _.
Arguments update {_ _} _ _ _.

Definition js_zoom {E S T A} (l : lens S T) (m : JS E T A) : JS E S A :=
  fun s =>
    match m (view l s) with
    | Outcome r t w => Outcome r (update l t s) w
    end.

(** An early [return] in the middle of a [void] method. *)
Definition js_return {E S} : JS E S unit := js_ret tt.

Definition js_when {E S} (b : bool) (m : JS E S unit) : JS E S unit :=
  if b then m else js_return.

(** ** JavaScript values *)

Definition bytes : Type := list byte.

(** Truthiness of an optional string: [undefined] and [''] are falsy. *)
Definition truthy_str (o : option string) : option string :=
  match o with
  | Some s => if String.eqb s "" then None else Some s
  | None => None
  end.

(** Truthiness of an optional bigint: [undefined] and [0n] are falsy. *)
Definition truthy_bigint (o : option Z) : option Z :=
  match o with
  | Some z => if Z.eqb z 0 then None else Some z
  | None => None
  end.

Definition is_defined {A} (o : option A) : bool :=
  match o with Some _ => true | None => false end.

Definition byte_of_Z (z : Z) : byte :=
  match Byte.of_N (Z.to_N (z mod 256)) with
  | Some b => b
  | None => x00
  end.

Definition Z_of_byte (b : byte) : Z := Z.of_N (Byte.to_N b).

(** ** Strings: sequences of code units below 256 *)

Definition startsWith (s p : string) : bool := String.prefix p s.

(** [s.slice(a)] and [s.slice(a, b)] for [0 <= a <= b]. *)
Definition slice_from (a : nat) (s : string) : string :=
  String.substring a (String.length s - a) s.
Definition slice (a b : nat) (s : string) : string := String.substring a (b - a) s.

Fixpoint str_repeat (s : string) (n : nat) : string :=
  match n with
  | O => ""
  | S n => s +:+ str_repeat s n
  end.

Definition endsWith (s p : string) : bool :=
  Nat.leb (String.length p) (String.length s) &&
  String.eqb (slice_from (String.length s - String.length p) s) p.

(** [s.padEnd(n, c)] for a one-unit pad. *)
Definition padEnd (s : string) (n : nat) (c : string) : string :=
  s +:+ str_repeat c (n - String.length s).

Fixpoint str_forallb (f : Ascii.ascii -> bool) (s : string) : bool :=
  match s with
  | EmptyString => true
  | String c s => f c && str_forallb f s
  end.

Fixpoint str_map (f : Ascii.ascii -> Ascii.ascii) (s : string) : string :=
  match s with
  | EmptyString => EmptyString
  | String c s => String (f c) (str_map f s)
  end.

(** Lower-casing of the Latin-1 code units: A-Z, and 0xC0-0xDE except 0xD7. *)
Definition lower_char (c : Ascii.ascii) : Ascii.ascii :=
  let n := Ascii.nat_of_ascii c in
  if ((65 <=? n) && (n <=? 90) || (192 <=? n) && (n <=? 222) && negb (n =? 215))%nat
  then Ascii.ascii_of_nat (n + 32) else c.
Definition toLowerCase (s : string) : string := str_map lower_char s.

(** [/^[0-9a-f]*$/.test(s)]. *)
Definition is_lower_hex_char (c : Ascii.ascii) : bool :=
  let n := Ascii.nat_of_ascii c in
  ((48 <=? n) && (n <=? 57) || (97 <=? n) && (n <=? 102))%nat.
Definition is_lower_hex (s : string) : bool := str_forallb is_lower_hex_char s.

(** ** [Array.prototype.sort]: stable *)

Fixpoint sort_insert {A} (le : A -> A -> bool) (x : A) (l : list A) : list A :=
  match l with
  | [] => [x]
  | y :: l' => if le x y then x :: y :: l' else y :: sort_insert le x l'
  end.

Fixpoint js_sort {A} (le : A -> A -> bool) (l : list A) : list A :=
  match l with
  | [] => []
  | x :: l => sort_insert le x (js_sort le l)
  end.

(** ** [Map] with its insertion order *)

Definition jsmap (V : Type) : Type := list (string * V).

Fixpoint jm_get {V} (k : string) (m : jsmap V) : option V :=
  match m with
  | [] => None
  | (k', v) :: m => if String.eqb k k' then Some v else jm_get k m
  end.

Definition jm_has {V} (k : string) (m : jsmap V) : bool := is_defined (jm_get k m).

(** [set] keeps the position of a key that is present, else appends. *)
Fixpoint jm_set {V} (k : string) (v : V) (m : jsmap V) : jsmap V :=
  match m with
  | [] => [(k, v)]
  | (k', v') :: m => if String.eqb k k' then (k, v) :: m else (k', v') :: jm_set k v m
  end.

Fixpoint jm_delete {V} (k : string) (m : jsmap V) : jsmap V :=
  match m with
  | [] => []
  | (k', v') :: m => if String.eqb k k' then m else (k', v') :: jm_delete k m
  end.

Definition jm_values {V} (m : jsmap V) : list V := map snd m.
Definition jm_keys {V} (m : jsmap V) : list string := map fst m.

(** ** Invariants of effectful methods *)

(** Whatever a method does, and whether or not it throws, [I] still holds. *)
Definition preserves {E S A} (I : S -> Prop) (m : JS E S A) : Prop :=
  forall s, I s -> I (post (m s)).

(** The method never throws. *)
Definition total {E S A} (m : JS E S A) : Prop :=
  forall s, exists a, res (m s) = Ok a.

Create HintDb js.

Section Effects.
Context {E S : Type}.
Implicit Types (I : S -> Prop).

Lemma preserves_ret {A} I (a : A) : preserves I (js_ret a : JS E S A).
Proof. by intros s H. Qed.

Lemma preserves_mret {A} I (a : A) : preserves I (mret a : JS E S A).
Proof. by intros s H. Qed.

Lemma preserves_return I : preserves I (js_return : JS E S unit).
Proof. by intros s H. Qed.

Lemma preserves_throw {A} I e : preserves I (js_throw e : JS E S A).
Proof. by intros s H. Qed.

Lemma preserves_lift {A} I (r : result A) : preserves I (js_lift r : JS E S A).
Proof. by intros s H. Qed.

Lemma preserves_get I : preserves I (js_get : JS E S S).
Proof. by intros s H. Qed.

Lemma preserves_emit I b (e : E) : preserves I (js_emit b e : JS E S unit).
Proof. by intros s H. Qed.

Lemma preserves_modify I (f : S -> S) :
  (forall s, I s -> I (f s)) -> preserves I (js_modify f : JS E S unit).
Proof. intros Hf s H. by apply Hf. Qed.

Lemma preserves_bind {A B} I (m : JS E S A) (k : A -> JS E S B) :
  preserves I m -> (forall a, preserves I (k a)) -> preserves I (m ≫= k).
Proof.
  intros Hm Hk s H. unfold mbind, JS_mbind, js_bind.
  specialize (Hm s H). destruct (m s) as [[a|e] s1 w1]; simpl in *; [|done].
  specialize (Hk a s1 Hm). by destruct (k a s1).
Qed.

(** After reading the state the continuation may use what was read. *)
Lemma preserves_get_bind {B} I (k : S -> JS E S B) :
  (forall s, I s -> I (post (k s s))) -> preserves I (js_get ≫= k).
Proof.
  intros Hk s H. specialize (Hk s H). unfold mbind, JS_mbind, js_bind, js_get.
  by destruct (k s s).
Qed.

Lemma preserves_when I b (m : JS E S unit) :
  (b = true -> preserves I m) -> preserves I (js_when b m).
Proof. intros Hm. destruct b; [by apply Hm|apply preserves_return]. Qed.

Lemma preserves_try {A} I (m : JS E S A) h :
  preserves I m -> (forall e, preserves I (h e)) -> preserves I (js_try m h).
Proof.
  intros Hm Hh s H. unfold js_try. specialize (Hm s H).
  destruct (m s) as [[a|e] s1 w1]; simpl in *; [done|].
  specialize (Hh e s1 Hm). by destruct (h e s1).
Qed.

Lemma preserves_for {A} I (xs : list A) (f : A -> JS E S unit) :
  (forall x, x ∈ xs -> preserves I (f x)) -> preserves I (js_for xs f).
Proof.
  induction xs as [|x xs IH]; intros Hf; simpl; [apply preserves_ret|].
  apply preserves_bind; [apply Hf; left|intros _; apply IH].
  intros y Hy. apply Hf. by right.
Qed.

Lemma preserves_zoom {T A} I (J : T -> Prop) (l : lens S T) (m : JS E T A) :
  preserves J m -> (forall s, I s -> J (view l s)) ->
  (forall s t, I s -> J t -> I (update l t s)) ->
  preserves I (js_zoom l m).
Proof.
  intros Hm Hv Hu s H. unfold js_zoom. specialize (Hm (view l s) (Hv s H)).
  destruct (m (view l s)); simpl in *. by apply Hu.
Qed.

Lemma preserves_and {A} I1 I2 (m : JS E S A) :
  preserves I1 m -> preserves I2 m -> preserves (fun s => I1 s /\ I2 s) m.
Proof. intros H1 H2 s [? ?]. split; auto. Qed.

Lemma total_bind {A B} (m : JS E S A) (k : A -> JS E S B) :
  total m -> (forall a, total (k a)) -> total (m ≫= k).
Proof.
  intros Hm Hk s. unfold mbind, JS_mbind, js_bind. destruct (Hm s) as [a Ha].
  destruct (m s) as [r s1 w1]; simpl in *; subst r.
  destruct (Hk a s1) as [b Hb]. destruct (k a s1); simpl in *; eauto.
Qed.

Lemma total_for {A} (xs : list A) (f : A -> JS E S unit) :
  (forall x, total (f x)) -> total (js_for xs f).
Proof.
  intros Hf. induction xs as [|x xs IH]; simpl; [by exists tt|].
  apply total_bind; auto.
Qed.

(** Running a bind, by the completion of its first part. *)
Lemma bind_Ok {A B} (m : JS E S A) (k : A -> JS E S B) s a s1 w1 :
  m s = Outcome (Ok a) s1 w1 ->
  (m ≫= k) s = Outcome (res (k a s1)) (post (k a s1)) (w1 ++ emits (k a s1)).
Proof.
  intros H. unfold mbind, JS_mbind, js_bind. rewrite H. by destruct (k a s1).
Qed.

Lemma bind_Throw {A B} (m : JS E S A) (k : A -> JS E S B) s e s1 w1 :
  m s = Outcome (Throw e) s1 w1 -> (m ≫= k) s = Outcome (Throw e) s1 w1.
Proof. intros H. unfold mbind, JS_mbind, js_bind. by rewrite H. Qed.

Lemma for_app {A} (xs ys : list A) (f : A -> JS E S unit) s :
  js_for (xs ++ ys) f s = (js_for xs f ≫= fun _ => js_for ys f) s.
Proof.
  revert s. induction xs as [|x xs IH]; intros s; simpl.
  - unfold mbind, JS_mbind, js_bind, js_ret. by destruct (js_for ys f s).
  - unfold mbind, JS_mbind, js_bind in *. destruct (f x s) as [[a|e] s1 w1]; [|done].
    rewrite IH. destruct (js_for xs f s1) as [[b|e] s2 w2]; [|done].
    destruct (js_for ys f s2). by rewrite app_assoc.
Qed.
End Effects.

(** Emitted events of a sequence of calls that cannot throw. *)
Lemma emits_bind_total {E S A B} (m : JS E S A) (k : A -> JS E S B) s a :
  res (m s) = Ok a ->
  (m ≫= k) s = Outcome (res (k a (post (m s)))) (post (k a (post (m s))))
                 (emits (m s) ++ emits (k a (post (m s)))).
Proof.
  intros H. destruct (m s) as [r s1 w1] eqn:Hm. simpl in *. subst r.
  by apply bind_Ok.
Qed.

#[export] Hint Resolve preserves_ret preserves_mret preserves_return preserves_throw
  preserves_lift preserves_get preserves_emit preserves_bind preserves_try
  preserves_for preserves_modify : js.

(** Unfold the monad's plumbing on a concrete method body. *)
Ltac js_unfold :=
  unfold js_when, js_return, mbind, JS_mbind, mret, JS_mret, js_bind, js_ret, js_get, js_modify,
    js_emit, js_throw, js_lift, js_zoom in *.
Ltac js_simpl := js_unfold; simpl in *.

(** ** Stable sort *)

Section Sorting.
Context {A : Type} (le : A -> A -> bool).

Lemma sort_insert_perm x l : sort_insert le x l ≡ₚ x :: l.
Proof.
  induction l as [|y l IH]; simpl; [done|]. destruct (le x y); [done|].
  rewrite IH. apply Permutation_swap.
Qed.

Lemma js_sort_perm l : js_sort le l ≡ₚ l.
Proof. induction l as [|x l IH]; simpl; [done|]. by rewrite sort_insert_perm, IH. Qed.

Lemma js_sort_elem x l : x ∈ js_sort le l <-> x ∈ l.
Proof. by rewrite js_sort_perm. Qed.

Hypothesis le_total : forall x y, le x y = true \/ le y x = true.

Lemma sort_insert_sorted x l :
  Sorted (fun a b => le a b = true) l -> Sorted (fun a b => le a b = true) (sort_insert le x l).
Proof.
  induction 1 as [|y l Hl IH Hhd]; simpl; [by repeat constructor|].
  destruct (le x y) eqn:Hxy; [by repeat constructor|].
  constructor; [done|]. destruct Hhd as [|z l' Hyz]; simpl.
  - constructor. destruct (le_total x y); congruence.
  - destruct (le x z); constructor; [|done]. destruct (le_total x y); congruence.
Qed.

Lemma js_sort_sorted l : Sorted (fun a b => le a b = true) (js_sort le l).
Proof. induction l; simpl; [constructor|by apply sort_insert_sorted]. Qed.
End Sorting.

(** A sort on an integer key keeps the order of the elements with equal keys. *)
Section SortKey.
Context {A : Type} (key : A -> Z).

Lemma sort_insert_filter_key k x l :
  filter (fun y => key y = k) (sort_insert (fun a b => key a <=? key b) x l)
  = filter (fun y => key y = k) (x :: l).
Proof.
  induction l as [|y l IH]; [done|]. simpl sort_insert.
  destruct (Z.leb_spec (key x) (key y)); [done|].
  rewrite !filter_cons in *. rewrite IH.
  repeat case_decide; try done; lia.
Qed.

Lemma js_sort_stable k l :
  filter (fun y => key y = k) (js_sort (fun a b => key a <=? key b) l)
  = filter (fun y => key y = k) l.
Proof.
  induction l as [|x l IH]; [done|]. simpl js_sort.
  rewrite sort_insert_filter_key, !filter_cons, IH. done.
Qed.
End SortKey.

(** ** Ordered maps *)

Section JsMap.
Context {V : Type}.
Implicit Types (m : jsmap V).

Lemma jm_get_set k k' v m :
  jm_get k' (jm_set k v m) = if decide (k = k') then Some v else jm_get k' m.
Proof.
  induction m as [|[k0 v0] m IH]; simpl.
  - destruct (String.eqb_spec k' k); case_decide; congruence.
  - destruct (String.eqb_spec k k0); simpl.
    + subst. destruct (String.eqb_spec k' k0); case_decide; congruence.
    + rewrite IH. destruct (String.eqb_spec k' k0); case_decide; congruence.
Qed.

Lemma jm_get_set_eq k v m : jm_get k (jm_set k v m) = Some v.
Proof. rewrite jm_get_set. by case_decide. Qed.

Lemma jm_get_set_ne k k' v m : k <> k' -> jm_get k' (jm_set k v m) = jm_get k' m.
Proof. intros. rewrite jm_get_set. by case_decide. Qed.

Lemma jm_get_None k m : jm_get k m = None <-> k ∉ jm_keys m.
Proof.
  induction m as [|[k0 v0] m IH]; simpl.
  - split; [intros _; apply not_elem_of_nil|done].
  - rewrite not_elem_of_cons, <- IH. destruct (String.eqb_spec k k0); naive_solver.
Qed.

Lemma jm_get_delete k k' m :
  NoDup (jm_keys m) ->
  jm_get k' (jm_delete k m) = if decide (k = k') then None else jm_get k' m.
Proof.
  induction m as [|[k0 v0] m IH]; simpl; intros Hnd; [by case_decide|].
  apply NoDup_cons in Hnd as [Hk0 Hnd].
  destruct (String.eqb_spec k k0); simpl.
  - subst. destruct (String.eqb_spec k' k0); case_decide; try congruence.
    subst. by apply jm_get_None.
  - rewrite IH by done. destruct (String.eqb_spec k' k0); case_decide; congruence.
Qed.

Lemma jm_keys_set k v m :
  jm_keys (jm_set k v m) = if decide (k ∈ jm_keys m) then jm_keys m else jm_keys m ++ [k].
Proof.
  induction m as [|[k0 v0] m IH].
  - rewrite decide_False; [done|apply not_elem_of_nil].
  - change (jm_keys ((k0, v0) :: m)) with (k0 :: jm_keys m).
    cbn [jm_set]. destruct (String.eqb_spec k k0) as [->|Hne].
    + rewrite decide_True; [done|left].
    + change (jm_keys ((k0, v0) :: jm_set k v m)) with (k0 :: jm_keys (jm_set k v m)).
      rewrite IH. destruct (decide (k ∈ jm_keys m)).
      * rewrite decide_True; [done|by right].
      * rewrite decide_False; [done|]. by intros [?|?]%elem_of_cons.
Qed.

Lemma jm_set_NoDup k v m : NoDup (jm_keys m) -> NoDup (jm_keys (jm_set k v m)).
Proof.
  intros. rewrite jm_keys_set. case_decide; [done|].
  apply NoDup_app; repeat split; [done|set_solver|apply NoDup_singleton].
Qed.

Lemma jm_keys_delete_subset k k' m : k' ∈ jm_keys (jm_delete k m) -> k' ∈ jm_keys m.
Proof.
  induction m as [|[k0 v0] m IH]; simpl; [done|].
  destruct (String.eqb_spec k k0); set_solver.
Qed.

Lemma jm_delete_NoDup k m : NoDup (jm_keys m) -> NoDup (jm_keys (jm_delete k m)).
Proof.
  induction m as [|[k0 v0] m IH]; simpl; intros Hnd; [done|].
  apply NoDup_cons in Hnd as [Hk0 Hnd]. destruct (String.eqb_spec k k0); [done|].
  simpl. apply NoDup_cons. split; [|auto]. eauto using jm_keys_delete_subset.
Qed.

Lemma jm_has_get k m : jm_has k m = true <-> is_Some (jm_get k m).
Proof.
  unfold jm_has, is_defined. rewrite is_Some_alt. by destruct (jm_get k m).
Qed.
End JsMap.

#[export] Hint Resolve jm_set_NoDup jm_delete_NoDup : js.

(** ** Strings *)

Lemma substring_full s : String.substring 0 (String.length s) s = s.
Proof. induction s as [|c s IH]; [done|]. cbn [String.length String.substring]. by rewrite IH. Qed.

Lemma str_length_app a b : String.length (a +:+ b) = (String.length a + String.length b)%nat.
Proof. induction a as [|c a IH]; [done|]. change (S (String.length (a +:+ b)) = S (String.length a + String.length b)). by rewrite IH. Qed.

Lemma substring_app_r a b n :
  String.substring (String.length a) n (a +:+ b) = String.substring 0 n b.
Proof. induction a as [|c a IH]; [done|]. exact IH. Qed.

Lemma substring_app_l a b : String.substring 0 (String.length a) (a +:+ b) = a.
Proof.
  induction a as [|c a IH]; [by destruct b|].
  change (String c (String.substring 0 (String.length a) (a +:+ b)) = String c a). by rewrite IH.
Qed.

Lemma slice_from_app a b : slice_from (String.length a) (a +:+ b) = b.
Proof.
  unfold slice_from. rewrite substring_app_r, str_length_app.
  replace (String.length a + String.length b - String.length a)%nat with (String.length b) by lia.
  apply substring_full.
Qed.

Lemma slice_app a b : slice 0 (String.length a) (a +:+ b) = a.
Proof. unfold slice. rewrite Nat.sub_0_r. apply substring_app_l. Qed.

(** [slice i j] of a string split in three at [i] and [j]. *)
Lemma slice_mid a b c :
  slice (String.length a) (String.length a + String.length b) (a +:+ b +:+ c) = b.
Proof.
  unfold slice. rewrite substring_app_r.
  replace (String.length a + String.length b - String.length a)%nat with (String.length b) by lia.
  apply substring_app_l.
Qed.

Lemma str_forallb_app f a b : str_forallb f (a +:+ b) = str_forallb f a && str_forallb f b.
Proof.
  induction a as [|c a IH]; [done|].
  change (f c && str_forallb f (a +:+ b) = (f c && str_forallb f a) && str_forallb f b).
  by rewrite IH, andb_assoc.
Qed.

Lemma str_app_assoc (a b c : string) : (a +:+ b) +:+ c = a +:+ (b +:+ c).
Proof. induction a as [|x a IH]; [done|]. exact (f_equal (String x) IH). Qed.

Lemma str_app_nil_r (a : string) : a +:+ "" = a.
Proof. induction a as [|x a IH]; [done|]. exact (f_equal (String x) IH). Qed.

Lemma str_repeat_length s n : String.length (str_repeat s n) = (n * String.length s)%nat.
Proof. induction n as [|n IH]; [done|]. cbn [str_repeat]. rewrite str_length_app, IH. lia. Qed.

Lemma str_forallb_repeat f s n : str_forallb f s = true -> str_forallb f (str_repeat s n) = true.
Proof. intros H. induction n as [|n IH]; [done|]. cbn [str_repeat]. by rewrite str_forallb_app, H, IH. Qed.

Lemma startsWith_inv p s : startsWith s p = true -> exists t, s = p +:+ t.
Proof.
  unfold startsWith. revert s. induction p as [|c p IH]; intros s; [by exists s|].
  destruct s as [|d s]; cbn [String.prefix]; [done|].
  destruct (Ascii.ascii_dec c d) as [->|]; [|done]. intros [t ->]%IH. by exists t.
Qed.

Lemma startsWith_app p s : startsWith (p +:+ s) p = true.
Proof.
  unfold startsWith. induction p as [|c p IH]; [by destruct s|].
  change ((if Ascii.ascii_dec c c then String.prefix p (p +:+ s) else false) = true).
  by destruct (Ascii.ascii_dec c c).
Qed.

Lemma str_map_length f s : String.length (str_map f s) = String.length s.
Proof. induction s as [|c s IH]; [done|]. cbn. by rewrite IH. Qed.

Lemma lower_of_lower_hex s : is_lower_hex s = true -> toLowerCase s = s.
Proof.
  unfold is_lower_hex, toLowerCase. induction s as [|c s IH]; [done|]. cbn [str_forallb str_map].
  intros [Hc Hs]%andb_true_iff. rewrite IH by done. f_equal.
  unfold is_lower_hex_char, lower_char in *. rewrite orb_true_iff, !andb_true_iff, !Nat.leb_le in Hc.
  destruct (_ || _) eqn:Hb; [|done].
  rewrite orb_true_iff, !andb_true_iff, !Nat.leb_le in Hb. lia.
Qed.
