(* ===== verification/Proto.v ===== *)
(** * Wire messages

    The protobuf messages the client reads and writes, field by field from
    protocol/protocol.proto and protocol/payloads.proto. [bytes] fields are
    byte lists, [int64] and [int32] fields integers, [optional] and message
    fields options, [repeated] fields lists, [map] fields finite maps. A [oneof]
    is an inductive type, with [None] for [{ case: undefined }]. Enums are open,
    as in proto3: an unknown number is kept. *)

From S2P Require Import Prelude.

(** ** Enums *)

Inductive MembershipOp :=
| SO_UNSPECIFIED | SO_INVITE | SO_JOIN | SO_LEAVE
| SO_UNRECOGNIZED (n : Z).

Inductive ChannelOp :=
| CO_UNSPECIFIED | CO_CREATED | CO_DELETED | CO_UPDATED
| CO_UNRECOGNIZED (n : Z).

#[global] Instance MembershipOp_eq_dec : EqDecision MembershipOp.
Proof. solve_decision. Defined.
#[global] Instance ChannelOp_eq_dec : EqDecision ChannelOp.
Proof. solve_decision. Defined.

(** Error codes of [enum Err] that the client throws. *)
Definition Err_ERR_UNSPECIFIED : Z := 0.
Definition Err_INTERNAL_ERROR_SWITCH : Z := 20.
Definition Err_BAD_EVENT_ID : Z := 21.
Definition Err_BAD_EVENT_SIGNATURE : Z := 22.
Definition Err_BAD_HASH_FORMAT : Z := 23.
Definition Err_BAD_EVENT : Z := 26.
Definition Err_STREAM_EMPTY : Z := 29.
Definition Err_STREAM_BAD_EVENT : Z := 30.
Definition Err_BAD_DELEGATE_SIG : Z := 31.
Definition Err_BAD_PUBLIC_KEY : Z := 32.
Definition Err_BAD_PAYLOAD : Z := 33.

(** ** Shared messages *)

Record StreamSettings := mkStreamSettings { disableMiniblockCreation : bool }.

Record EncryptedData := mkEncryptedData {
  ed_ciphertext : string;
  ed_algorithm : string;
  ed_senderKey : string;
  ed_sessionId : string;
  ed_checksum : option string;
  ed_refEventId : option string;
}.
#[global] Instance EncryptedData_eq_dec : EqDecision EncryptedData.
Proof. solve_decision. Defined.

Record WrappedEncryptedData := mkWrappedEncryptedData {
  wed_data : option EncryptedData;
  wed_eventNum : Z;
  wed_eventHash : bytes;
}.

Record EventRef := mkEventRef {
  er_streamId : bytes;
  er_hash : bytes;
  er_signature : bytes;
}.

Record SyncCookie := mkSyncCookie {
  sc_nodeAddress : bytes;
  sc_streamId : bytes;
  sc_minipoolGen : Z;
  sc_minipoolSlot : Z;
  sc_prevMiniblockHash : bytes;
}.

(** The inception message shared by the stream types that only carry an id. *)
Record Inception := mkInception {
  inc_streamId : bytes;
  inc_settings : option StreamSettings;
}.

(** ** MemberPayload *)

Record KeySolicitation := mkKeySolicitation {
  ks_deviceKey : string;
  ks_fallbackKey : string;
  ks_isNewDevice : bool;
  ks_sessionIds : list string;
}.

Record KeyFulfillment := mkKeyFulfillment {
  kf_userAddress : bytes;
  kf_deviceKey : string;
  kf_sessionIds : list string;
}.

Record Nft := mkNft {
  nft_chainId : Z;
  nft_contractAddress : bytes;
  nft_tokenId : bytes;
}.

Record Membership := mkMembership {
  ms_op : MembershipOp;
  ms_userAddress : bytes;
  ms_initiatorAddress : bytes;
  ms_streamParentId : option bytes;
}.

Record Snapshot_Member := mkSnapshot_Member {
  sm_userAddress : bytes;
  sm_miniblockNum : Z;
  sm_eventNum : Z;
  sm_solicitations : list KeySolicitation;
  sm_username : option WrappedEncryptedData;
  sm_displayName : option WrappedEncryptedData;
  sm_ensAddress : bytes;
  sm_nft : option Nft;
}.

Inductive MemberPayload_content :=
| MemberPayload_membership (v : Membership)
| MemberPayload_keySolicitation (v : KeySolicitation)
| MemberPayload_keyFulfillment (v : KeyFulfillment)
| MemberPayload_username (v : EncryptedData)
| MemberPayload_displayName (v : EncryptedData)
| MemberPayload_ensAddress (v : bytes)
| MemberPayload_nft (v : Nft).

(** ** Stream payloads *)

Record SpaceChannel := mkSpaceChannel {
  spc_op : ChannelOp;
  spc_channelId : bytes;
  spc_originEvent : option EventRef;
}.
Record SpaceSnapshot := mkSpaceSnapshot {
  sps_inception : option Inception;
  sps_channels : list SpaceChannel;
}.
Inductive SpacePayload_content :=
| SpacePayload_inception (v : Inception)
| SpacePayload_channel (v : SpaceChannel).

Record ChannelInception := mkChannelInception {
  ci_streamId : bytes;
  ci_spaceId : bytes;
  ci_settings : option StreamSettings;
}.
Record ChannelSnapshot := mkChannelSnapshot { chs_inception : option ChannelInception }.
Inductive ChannelPayload_content :=
| ChannelPayload_inception (v : ChannelInception)
| ChannelPayload_message (v : EncryptedData)
| ChannelPayload_redaction (eventId : bytes).

Record DmChannelInception := mkDmChannelInception {
  dmi_streamId : bytes;
  dmi_firstPartyAddress : bytes;
  dmi_secondPartyAddress : bytes;
  dmi_settings : option StreamSettings;
}.
Record DmChannelSnapshot := mkDmChannelSnapshot { dms_inception : option DmChannelInception }.
Inductive DmChannelPayload_content :=
| DmChannelPayload_inception (v : DmChannelInception)
| DmChannelPayload_message (v : EncryptedData).

Record GdmChannelInception := mkGdmChannelInception {
  gdi_streamId : bytes;
  gdi_channelProperties : option EncryptedData;
  gdi_settings : option StreamSettings;
}.
Record GdmChannelSnapshot := mkGdmChannelSnapshot {
  gds_inception : option GdmChannelInception;
  gds_channelProperties : option WrappedEncryptedData;
}.
Inductive GdmChannelPayload_content :=
| GdmChannelPayload_inception (v : GdmChannelInception)
| GdmChannelPayload_message (v : EncryptedData)
| GdmChannelPayload_channelProperties (v : EncryptedData).

Record UserMembership := mkUserMembership {
  um_streamId : bytes;
  um_op : MembershipOp;
  um_inviter : option bytes;
  um_streamParentId : option bytes;
}.
Record UserMembershipAction := mkUserMembershipAction {
  uma_streamId : bytes;
  uma_userId : bytes;
  uma_op : MembershipOp;
  uma_streamParentId : option bytes;
}.
Record UserSnapshot := mkUserSnapshot {
  us_inception : option Inception;
  us_memberships : list UserMembership;
}.
Inductive UserPayload_content :=
| UserPayload_inception (v : Inception)
| UserPayload_userMembership (v : UserMembership)
| UserPayload_userMembershipAction (v : UserMembershipAction).

Record DeviceSummary := mkDeviceSummary { ds_lowerBound : Z; ds_upperBound : Z }.
Record GroupEncryptionSessions := mkGroupEncryptionSessions {
  ges_streamId : bytes;
  ges_senderKey : string;
  ges_sessionIds : list string;
  ges_ciphertexts : gmap string string;
}.
Record UserInboxAck := mkUserInboxAck { ack_deviceKey : string; ack_miniblockNum : Z }.
Record UserInboxSnapshot := mkUserInboxSnapshot {
  uis_inception : option Inception;
  uis_deviceSummary : gmap string DeviceSummary;
}.
Inductive UserInboxPayload_content :=
| UserInboxPayload_inception (v : Inception)
| UserInboxPayload_ack (v : UserInboxAck)
| UserInboxPayload_groupEncryptionSessions (v : GroupEncryptionSessions).

Record Block := mkBlock { blk_isBlocked : bool; blk_eventNum : Z }.
Record UserBlocks := mkUserBlocks { ub_userId : bytes; ub_blocks : list Block }.
Record MarkerContent := mkMarkerContent { mc_data : string }.
Record SettingsFullyReadMarkers := mkSettingsFullyReadMarkers {
  frm_streamId : bytes;
  frm_content : option MarkerContent;
}.
Record UserBlock := mkUserBlock { ublk_userId : bytes; ublk_isBlocked : bool; ublk_eventNum : Z }.
Record UserSettingsSnapshot := mkUserSettingsSnapshot {
  uss_inception : option Inception;
  uss_fullyReadMarkers : list SettingsFullyReadMarkers;
  uss_userBlocksList : list UserBlocks;
}.
Inductive UserSettingsPayload_content :=
| UserSettingsPayload_inception (v : Inception)
| UserSettingsPayload_fullyReadMarkers (v : SettingsFullyReadMarkers)
| UserSettingsPayload_userBlock (v : UserBlock).

Record EncryptionDevice := mkEncryptionDevice { edv_deviceKey : string; edv_fallbackKey : string }.
Record UserDeviceKeySnapshot := mkUserDeviceKeySnapshot {
  uds_inception : option Inception;
  uds_encryptionDevices : list EncryptionDevice;
}.
Inductive UserDeviceKeyPayload_content :=
| UserDeviceKeyPayload_inception (v : Inception)
| UserDeviceKeyPayload_encryptionDevice (v : EncryptionDevice).

Record MediaInception := mkMediaInception {
  mi_streamId : bytes;
  mi_channelId : bytes;
  mi_chunkCount : Z;
  mi_settings : option StreamSettings;
  mi_spaceId : option bytes;
}.
Record MediaSnapshot := mkMediaSnapshot { mds_inception : option MediaInception }.
Record MediaChunk := mkMediaChunk { mch_data : bytes; mch_chunkIndex : Z }.
Inductive MediaPayload_content :=
| MediaPayload_inception (v : MediaInception)
| MediaPayload_chunk (v : MediaChunk).

(** ** Snapshot *)

Inductive Snapshot_content :=
| Snapshot_spaceContent (v : SpaceSnapshot)
| Snapshot_channelContent (v : ChannelSnapshot)
| Snapshot_userContent (v : UserSnapshot)
| Snapshot_userSettingsContent (v : UserSettingsSnapshot)
| Snapshot_userDeviceKeyContent (v : UserDeviceKeySnapshot)
| Snapshot_mediaContent (v : MediaSnapshot)
| Snapshot_dmChannelContent (v : DmChannelSnapshot)
| Snapshot_gdmChannelContent (v : GdmChannelSnapshot)
| Snapshot_userInboxContent (v : UserInboxSnapshot).

Record Snapshot := mkSnapshot {
  snap_members : option (list Snapshot_Member);
  snap_snapshotVersion : Z;
  snap_content : option Snapshot_content;
}.

(** ** Events and miniblocks *)

Record MiniblockHeader := mkMiniblockHeader {
  mh_miniblockNum : Z;
  mh_prevMiniblockHash : bytes;
  mh_timestamp : option (Z * Z);
  mh_eventHashes : list bytes;
  mh_snapshot : option Snapshot;
  mh_eventNumOffset : Z;
  mh_prevSnapshotMiniblockNum : Z;
  mh_none : bool; (* the [none] case of the content oneof is set *)
}.

Inductive StreamEvent_payload :=
| Payload_miniblockHeader (v : MiniblockHeader)
| Payload_memberPayload (v : option MemberPayload_content)
| Payload_spacePayload (v : option SpacePayload_content)
| Payload_channelPayload (v : option ChannelPayload_content)
| Payload_userPayload (v : option UserPayload_content)
| Payload_userSettingsPayload (v : option UserSettingsPayload_content)
| Payload_userDeviceKeyPayload (v : option UserDeviceKeyPayload_content)
| Payload_userInboxPayload (v : option UserInboxPayload_content)
| Payload_mediaPayload (v : option MediaPayload_content)
| Payload_dmChannelPayload (v : option DmChannelPayload_content)
| Payload_gdmChannelPayload (v : option GdmChannelPayload_content).

Record StreamEvent := mkStreamEvent {
  se_creatorAddress : bytes;
  se_delegateSig : bytes;
  se_salt : bytes;
  se_prevMiniblockHash : option bytes;
  se_createdAtEpochMs : Z;
  se_delegateExpiryEpochMs : Z;
  se_payload : option StreamEvent_payload;
}.

Record Envelope := mkEnvelope { env_hash : bytes; env_signature : bytes; env_event : bytes }.

Record Miniblock := mkMiniblock { mb_events : list Envelope; mb_header : option Envelope }.

Record StreamAndCookie := mkStreamAndCookie {
  sac_events : list Envelope;
  sac_nextSyncCookie : option SyncCookie;
  sac_miniblocks : list Miniblock;
  sac_syncReset : bool;
}.

(** ** Decrypted payloads (payloads.proto) *)

Record ImageInfo := mkImageInfo {
  ii_url : string;
  ii_mimetype : string;
  ii_size : option Z;
  ii_width : option Z;
  ii_height : option Z;
}.
Record Image := mkImage {
  img_title : string;
  img_info : option ImageInfo;
  img_thumbnail : option ImageInfo;
}.
Record MediaInfo := mkMediaInfo {
  min_mimetype : string;
  min_sizeBytes : Z;
  min_widthPixels : Z;
  min_heightPixels : Z;
  min_filename : string;
}.
Record EmbeddedMedia := mkEmbeddedMedia { em_info : option MediaInfo; em_content : bytes }.
Record AESGCM := mkAESGCM { aes_iv : bytes; aes_secretKey : bytes }.
Record ChunkedMedia := mkChunkedMedia {
  cm_info : option MediaInfo;
  cm_streamId : string;
  cm_thumbnail : option EmbeddedMedia;
  cm_encryption : option AESGCM;
}.
Record EmbeddedMessageInfo := mkEmbeddedMessageInfo {
  emi_userId : string;
  emi_createdAtEpochMs : Z;
  emi_spaceId : string;
  emi_channelId : string;
  emi_messageId : string;
  emi_replyId : option string;
}.
Record EmbeddedMessageStaticInfo := mkEmbeddedMessageStaticInfo {
  ems_userName : option string;
  ems_displayName : option string;
  ems_channelName : option string;
  ems_spaceName : option string;
}.
Record UnfurledURL := mkUnfurledURL {
  uu_url : string;
  uu_description : string;
  uu_title : string;
  uu_image : option (Z * Z * string);
}.
Inductive MentionBehavior :=
| MentionBehavior_atChannel
| MentionBehavior_atRole (roleId : Z).
Record Mention := mkMention {
  mn_userId : string;
  mn_displayName : string;
  mn_mentionBehavior : option MentionBehavior;
}.

Inductive Post :=
| mkPost (threadId threadPreview replyId replyPreview : option string)
    (content : option PostContent)
with PostContent :=
| PostContent_text (body : string) (mentions : list Mention) (attachments : list Attachment)
| PostContent_image (v : Image)
| PostContent_gm (typeUrl : string) (value : option bytes)
with Attachment :=
| Attachment_image (v : Image)
| Attachment_embeddedMedia (v : EmbeddedMedia)
| Attachment_chunkedMedia (v : ChunkedMedia)
| Attachment_embeddedMessage (url : string) (post : option Post)
    (info : option EmbeddedMessageInfo) (staticInfo : option EmbeddedMessageStaticInfo)
| Attachment_unfurledUrl (v : UnfurledURL)
| Attachment_undefined.

Inductive ChannelMessage_payload :=
| ChannelMessage_post (v : Post)
| ChannelMessage_reaction (refEventId reaction : string)
| ChannelMessage_edit (refEventId : string) (post : option Post)
| ChannelMessage_redaction (refEventId : string) (reason : option string).

Record ChannelMessage := mkChannelMessage { cmsg_payload : option ChannelMessage_payload }.

Record ChannelProperties := mkChannelProperties { cp_name : string; cp_topic : string }.

Record FullyReadMarker := mkFullyReadMarker {
  mk_channelId : string;
  mk_threadParentId : option string;
  mk_eventId : string;
  mk_eventNum : Z;
  mk_beginUnreadWindow : Z;
  mk_endUnreadWindow : Z;
  mk_isUnread : bool;
  mk_markedReadAtTs : Z;
  mk_mentions : Z;
}.
Record FullyReadMarkers := mkFullyReadMarkers { frms_markers : gmap string FullyReadMarker }.
