(* ===== verification/Externals.v ===== *)
(** * Third-party code

    The functions the sources import from packages outside the repository are
    the fields of one operational class; every definition that calls one takes
    the class as a parameter. What the proofs rely on of their documented
    behaviour is stated by the law classes below, each with an instance in
    [ToyExternals], so that the laws are known to be satisfiable together. *)

From S2P Require Import Prelude Proto.

Class Externals := {
  (** ethereum-cryptography/utils *)
  bytesToHex : bytes -> string;
  hexToBytes : string -> result bytes;
  bytesToUtf8 : bytes -> string;
  utf8ToBytes : string -> bytes;
  equalsBytes : bytes -> bytes -> bool;
  (** ethereum-cryptography/keccak *)
  keccak256 : bytes -> bytes;
  (** ethers utils *)
  getAddress : string -> result string;
  isAddress : string -> bool;
  arrayify : string -> result bytes;
  (** @bufbuild/protobuf *)
  protoBase64_enc : bytes -> string;
  protoBase64_dec : string -> result bytes;
  (** generated protobuf code *)
  ChannelMessage_fromJsonString : string -> result ChannelMessage;
  ChannelProperties_fromJsonString : string -> result ChannelProperties;
  FullyReadMarkers_fromJsonString : string -> result FullyReadMarkers;
}.

(** [bytesToHex] writes two lower-case hex digits per byte and [hexToBytes]
    reads them back. *)
Class HexLaws `{Externals} : Prop := {
  hex_roundtrip : forall b, hexToBytes (bytesToHex b) = Ok b;
  hex_lower : forall b, is_lower_hex (bytesToHex b) = true;
  hex_length : forall b, String.length (bytesToHex b) = (2 * length b)%nat;
}.

(** [equalsBytes] decides equality. *)
Class EqualsBytesLaws `{Externals} : Prop := {
  equalsBytes_spec : forall a b, equalsBytes a b = true <-> a = b;
}.

(** A Keccak-256 digest has 32 bytes. *)
Class KeccakLaws `{Externals} : Prop := {
  keccak256_length : forall b, length (keccak256 b) = 32%nat;
}.

(** On the lower-case hex of 20 bytes, with or without [0x], [getAddress] returns
    [0x] and the same digits in checksum case, which [isAddress] accepts,
    [getAddress] keeps and [arrayify] decodes; on the lower-case hex of any other
    number of bytes it throws. *)
Class AddressLaws `{Externals} : Prop := {
  getAddress_hex : forall a, length a = 20%nat ->
    exists s, getAddress (bytesToHex a) = Ok s
      /\ toLowerCase s = "0x" +:+ bytesToHex a
      /\ isAddress s = true
      /\ getAddress s = Ok s
      /\ arrayify s = Ok a;
  getAddress_0x_hex : forall a, length a = 20%nat ->
    getAddress ("0x" +:+ bytesToHex a) = getAddress (bytesToHex a);
  getAddress_length : forall a s, getAddress (bytesToHex a) = Ok s -> length a = 20%nat;
}.

(** ** Sets of the contracts *)

(** OpenZeppelin's [EnumerableSet], as what it does to the values a set lists; the order
    in which they are listed is not specified. *)
Class EnumerableSet (A : Type) := {
  es_add : A -> list A -> list A;
  es_remove : A -> list A -> list A;
}.

Class EnumerableSetLaws (A : Type) `{EqDecision A, !EnumerableSet A} : Prop := {
  es_add_values (x : A) l : NoDup l -> es_add x l ≡ₚ (if decide (x ∈ l) then l else x :: l);
  es_remove_values (x : A) l : NoDup l -> es_remove x l ≡ₚ filter (fun y => y <> x) l;
}.

Section Sets.
Context {A : Type} `{EnumerableSetLaws A}.

Lemma es_add_elem x y l : NoDup l -> y ∈ es_add x l <-> y = x \/ y ∈ l.
Proof. intros Hl. rewrite es_add_values by done. case_decide; set_solver. Qed.

Lemma es_add_NoDup x l : NoDup l -> NoDup (es_add x l).
Proof. intros Hl. rewrite es_add_values by done. case_decide; [done|]. by apply NoDup_cons. Qed.

Lemma es_remove_elem x y l : NoDup l -> y ∈ es_remove x l <-> y ∈ l /\ y <> x.
Proof. intros Hl. rewrite es_remove_values by done. rewrite list_elem_of_filter. tauto. Qed.

Lemma es_remove_NoDup x l : NoDup l -> NoDup (es_remove x l).
Proof. intros Hl. rewrite es_remove_values by done. by apply NoDup_filter. Qed.
End Sets.
