(* ===== verification/ToyExternals.v ===== *)
(** * A concrete instance of the third-party functions

    Used by the concrete runs below only: real hex coding, an address format
    without checksum case, a digest that pads or cuts to 32 bytes. It satisfies
    the law classes, which are therefore consistent. *)

From S2P Require Import Prelude Proto Externals.

Definition hex_digit (n : N) : Ascii.ascii :=
  Ascii.ascii_of_N (if (n <? 10)%N then 48 + n else 87 + n)%N.

Fixpoint toy_bytesToHex (b : bytes) : string :=
  match b with
  | [] => ""
  | x :: b =>
      let n := Byte.to_N x in
      String (hex_digit (n / 16)) (String (hex_digit (n mod 16)) (toy_bytesToHex b))
  end.

Definition hex_value (c : Ascii.ascii) : option N :=
  let n := Ascii.N_of_ascii c in
  if ((48 <=? n) && (n <=? 57))%N then Some (n - 48)%N
  else if ((97 <=? n) && (n <=? 102))%N then Some (n - 87)%N
  else if ((65 <=? n) && (n <=? 70))%N then Some (n - 55)%N
  else None.

Fixpoint hex_pairs (s : string) : result bytes :=
  match s with
  | EmptyString => Ok []
  | String c (String d s) =>
      match hex_value c, hex_value d, hex_pairs s with
      | Some h, Some l, Ok b =>
          match Byte.of_N (16 * h + l) with
          | Some x => Ok (x :: b)
          | None => Throw (JsError "bad hex")
          end
      | _, _, _ => Throw (JsError "bad hex")
      end
  | _ => Throw (JsError "bad hex")
  end.

Definition strip_0x (s : string) : string := if startsWith s "0x" then slice_from 2 s else s.

Definition toy_hexToBytes (s : string) : result bytes := hex_pairs (strip_0x s).

Definition toy_getAddress (s : string) : result string :=
  let h := toLowerCase (strip_0x s) in
  if ((String.length h =? 40)%nat && is_lower_hex h)%bool then Ok ("0x" +:+ h)
  else Throw (JsError "invalid address").

Definition toy_isAddress (s : string) : bool :=
  match toy_getAddress s with Ok _ => true | Throw _ => false end.

#[export] Instance toy : Externals := {|
  bytesToHex := toy_bytesToHex;
  hexToBytes := toy_hexToBytes;
  bytesToUtf8 := fold_right (fun x s => String (Ascii.ascii_of_byte x) s) "";
  utf8ToBytes := fun s => map Ascii.byte_of_ascii (String.list_ascii_of_string s);
  equalsBytes := fun a b => bool_decide (map Byte.to_N a = map Byte.to_N b);
  keccak256 := fun b => take 32 (b ++ replicate 32 x00);
  getAddress := toy_getAddress;
  isAddress := toy_isAddress;
  arrayify := toy_hexToBytes;
  protoBase64_enc := toy_bytesToHex;
  protoBase64_dec := toy_hexToBytes;
  ChannelMessage_fromJsonString := fun s =>
    if startsWith s "!" then Throw (JsError "bad json")
    else Ok (mkChannelMessage (Some (ChannelMessage_post
           (mkPost None None None None (Some (PostContent_text s [] []))))));
  ChannelProperties_fromJsonString := fun s => Ok (mkChannelProperties s "");
  FullyReadMarkers_fromJsonString := fun s =>
    if startsWith s "!" then Throw (JsError "bad json") else Ok (mkFullyReadMarkers ∅);
|}.

(** ** The laws *)

Lemma toy_hex_pairs b : hex_pairs (toy_bytesToHex b) = Ok b.
Proof.
  induction b as [|x b IH]; [done|]. cbn [toy_bytesToHex hex_pairs]. rewrite IH.
  by destruct x.
Qed.

Lemma toy_hex_no_prefix b : startsWith (toy_bytesToHex b) "0x" = false.
Proof. destruct b as [|[] b]; done. Qed.

Lemma toy_hex_lower b : is_lower_hex (toy_bytesToHex b) = true.
Proof.
  unfold is_lower_hex. induction b as [|x b IH]; [done|]. cbn [toy_bytesToHex str_forallb].
  rewrite IH. by destruct x.
Qed.

Lemma toy_hex_length b : String.length (toy_bytesToHex b) = (2 * length b)%nat.
Proof. induction b as [|x b IH]; [done|]. simpl. rewrite IH. lia. Qed.

#[export] Instance toy_HexLaws : HexLaws.
Proof.
  split; simpl; [|exact toy_hex_lower|exact toy_hex_length].
  intros b. unfold toy_hexToBytes, strip_0x. by rewrite toy_hex_no_prefix, toy_hex_pairs.
Qed.

#[export] Instance toy_EqualsBytesLaws : EqualsBytesLaws.
Proof.
  split. intros a b. simpl. rewrite bool_decide_eq_true. split; [|congruence].
  revert b. induction a as [|x a IH]; intros [|y b]; simpl; try done.
  intros [= Hxy Hab]. f_equal; [|auto].
  apply (f_equal Byte.of_N) in Hxy. rewrite !Byte.of_to_N in Hxy. congruence.
Qed.

#[export] Instance toy_KeccakLaws : KeccakLaws.
Proof.
  split. intros b. cbn [keccak256 toy]. rewrite length_take, length_app, length_replicate. lia.
Qed.

Lemma slice_from_0x s : slice_from 2 ("0x" +:+ s) = s.
Proof. exact (slice_from_app "0x" s). Qed.

#[export] Instance toy_AddressLaws : AddressLaws.
Proof.
  assert (Hok : forall a, length a = 20%nat ->
    toy_getAddress (toy_bytesToHex a) = Ok ("0x" +:+ toy_bytesToHex a)
    /\ toy_getAddress ("0x" +:+ toy_bytesToHex a) = Ok ("0x" +:+ toy_bytesToHex a)).
  { intros a Ha. unfold toy_getAddress, strip_0x. rewrite toy_hex_no_prefix.
    rewrite startsWith_app, slice_from_0x, lower_of_lower_hex, toy_hex_length, Ha, toy_hex_lower by apply toy_hex_lower.
    by split. }
  split; simpl.
  - intros a Ha. destruct (Hok a Ha) as [H1 H2]. eexists. split_and!; [done| | | |].
    + change ("0x" +:+ toLowerCase (toy_bytesToHex a) = "0x" +:+ toy_bytesToHex a).
      by rewrite lower_of_lower_hex by apply toy_hex_lower.
    + unfold toy_isAddress. by rewrite H2.
    + done.
    + unfold toy_hexToBytes, strip_0x. by rewrite startsWith_app, slice_from_0x, toy_hex_pairs.
  - intros a Ha. destruct (Hok a Ha) as [H1 H2]. by rewrite H1, H2.
  - intros a s. unfold toy_getAddress, strip_0x. rewrite toy_hex_no_prefix.
    rewrite lower_of_lower_hex, toy_hex_length by apply toy_hex_lower.
    destruct (Nat.eqb_spec (2 * length a) 40); [intros _; lia|done].
Qed.

(** ** Sets of the contracts *)

Section Sets.
Context {A : Type} `{EqDecision A}.
Implicit Types (x y : A) (l : list A).

(** The implementation of the library: removing puts the last value in the gap. *)
Definition push_add x l : list A := if decide (x ∈ l) then l else l ++ [x].
Definition swap_remove x l : list A :=
  match list_find (x =.) l, last l with
  | Some (i, _), Some y => take (length l - 1) (<[i := y]> l)
  | _, _ => l
  end.

Lemma swap_remove_perm x l : x ∈ l -> x :: swap_remove x l ≡ₚ l.
Proof.
  intros Hx. unfold swap_remove. destruct (list_find (x =.) l) as [[i z]|] eqn:Hf.
  - apply list_find_Some in Hf as (Hi & <- & _).
    destruct l as [|y l'] using rev_ind; [done|]. clear IHl'. rewrite last_snoc, length_app, Nat.add_sub. simpl.
    destruct (decide (i < length l')%nat) as [Hlt|Hge].
    + rewrite insert_app_l by done. rewrite take_app_le by (rewrite length_insert; lia).
      rewrite take_ge by (rewrite length_insert; lia). rewrite lookup_app_l in Hi by done.
      rewrite insert_take_drop by done. rewrite <- (take_drop_middle l' i x Hi) at 3.
      solve_Permutation.
    + assert (i = length l') as ->.
      { apply lookup_lt_Some in Hi. rewrite length_app in Hi. simpl in Hi. lia. }
      rewrite lookup_app_r, Nat.sub_diag in Hi by done. injection Hi as <-.
      rewrite list_insert_id by (rewrite lookup_app_r, Nat.sub_diag by done; done).
      rewrite take_app_le by lia. rewrite take_ge by lia. solve_Permutation.
  - apply list_find_None in Hf. rewrite Forall_forall in Hf. by destruct (Hf x Hx).
Qed.

#[export] Instance array_EnumerableSet : EnumerableSet A := {| es_add := push_add; es_remove := swap_remove |}.

#[export] Instance array_EnumerableSetLaws : EnumerableSetLaws A.
Proof.
  split; cbn [es_add es_remove array_EnumerableSet].
  - intros x l _. unfold push_add. case_decide; [done|]. by rewrite Permutation_app_comm.
  - intros x l Hnd. destruct (decide (x ∈ l)) as [Hx|Hx].
    + pose proof (swap_remove_perm x l Hx) as Hp. pose proof Hnd as Hnd'. rewrite <- Hp in Hnd'.
      apply NoDup_cons in Hnd' as [Hn Hnd'].
      apply NoDup_Permutation; [done|by apply NoDup_filter|]. intros y. rewrite list_elem_of_filter.
      assert (y ∈ l <-> y = x \/ y ∈ swap_remove x l) as -> by (rewrite <- elem_of_cons; by rewrite Hp). set_solver.
    + replace (swap_remove x l) with l; [apply NoDup_Permutation; [done|by apply NoDup_filter|]; intros y; rewrite list_elem_of_filter; set_solver|].
      unfold swap_remove. destruct (list_find (x =.) l) as [[i z]|] eqn:Hf; [|done].
      apply list_find_Some in Hf as (Hi & -> & _). by destruct Hx; eapply list_elem_of_lookup_2.
Qed.
End Sets.
