(* ===== verification/Binary.v ===== *)
(** * Checks and byte strings

    core/dlog/src/check.ts, core/sdk/src/check.ts and core/dlog/src/binary.ts. *)

From S2P Require Import Prelude Proto Externals.

(** ** check.ts *)

Definition throwWithCode {A} (message : option string) (code : option Z) : result A :=
  Throw (CodeException (default "Unknown" message) (default Err_ERR_UNSPECIFIED code)).

Definition check (value : bool) (message : option string) (code : option Z) : result unit :=
  if value then Ok tt else throwWithCode message code.

Definition checkNever {A} (message : string) (code : option Z) : result A :=
  throwWithCode (Some message) (Some (default Err_INTERNAL_ERROR_SWITCH code)).

Definition assert (condition : bool) (message : string) : result unit :=
  if condition then Ok tt else Throw (JsError message).

Definition isDefined {A} (value : option A) : bool := is_defined value.

Definition hasElements {A} (value : option (list A)) : bool :=
  match value with
  | Some l => (0 <? length l)%nat
  | None => false
  end.

(** The check as a step of a method. *)
Definition js_check {E S} (value : bool) (message : string) : JS E S unit :=
  js_lift (check value (Some message) None).
Definition js_check_code {E S} (value : bool) (message : string) (code : Z) : JS E S unit :=
  js_lift (check value (Some message) (Some code)).
Definition js_check_bare {E S} (value : bool) : JS E S unit :=
  js_lift (check value None None).

(** ** binary.ts *)

Section Binary.
Context `{Externals}.

Definition bin_fromBase64 (base64String : string) : result bytes := protoBase64_dec base64String.
Definition bin_toBase64 (uint8Array : bytes) : string := protoBase64_enc uint8Array.
Definition bin_fromHexString (hexString : string) : result bytes := hexToBytes hexString.
Definition bin_toHexString (uint8Array : bytes) : string := bytesToHex uint8Array.
Definition bin_fromString (str : string) : bytes := utf8ToBytes str.
Definition bin_toString (buf : bytes) : string := bytesToUtf8 buf.

(** [undefined], [null] and the empty array are one class for [bin_equal]. *)
Definition bin_absent (a : option bytes) : bool :=
  match a with
  | None => true
  | Some a => (length a =? 0)%nat
  end.

Definition bin_equal (a b : option bytes) : bool :=
  if bin_absent a && bin_absent b then true
  else match a, b with
       | Some a, Some b => equalsBytes a b
       | _, _ => false
       end.
End Binary.

Definition shortenHexString (s : string) : string :=
  let n := String.length s in
  if startsWith s "0x"
  then if (12 <? n)%nat then slice 0 6 s +:+ ".." +:+ slice_from (n - 4) s else s
  else if (10 <? n)%nat then slice 0 4 s +:+ ".." +:+ slice_from (n - 4) s else s.

Definition is_hex_char (c : Ascii.ascii) : bool :=
  is_lower_hex_char c ||
  let n := Ascii.nat_of_ascii c in ((65 <=? n) && (n <=? 70))%nat.

(** [/^(0x)?[0-9a-fA-F]+$/] on a string of even length. *)
Definition isHexString (value : string) : bool :=
  if ((String.length value =? 0) || negb (Nat.even (String.length value)))%nat then false
  else
    let digits := fun s => negb (String.eqb s "") && str_forallb is_hex_char s in
    digits value || startsWith value "0x" && digits (slice_from 2 value).

(** ** Lemmas *)

Section BinaryLemmas.
Context `{EqualsBytesLaws}.

Lemma bin_equal_Some a b : bin_equal (Some a) (Some b) = true <-> a = b.
Proof.
  unfold bin_equal, bin_absent. destruct a as [|x a], b as [|y b]; simpl.
  - by split.
  - rewrite equalsBytes_spec. by split.
  - rewrite equalsBytes_spec. by split.
  - by rewrite equalsBytes_spec.
Qed.
End BinaryLemmas.
