(* ===== verification/StreamId.v ===== *)
(** * Stream identifiers (core/sdk/src/id.ts, the hashing of utils.ts)

    A stream id is 64 lower-case hex digits: two digits of type prefix, then an
    identity padded with zeros. *)

From S2P Require Import Prelude Proto Externals ToyExternals Binary.

(** ** utils.ts *)

(** [new TextEncoder().encode(s)]: UTF-8 of code units below 256. *)
Fixpoint utf8_encode (s : string) : bytes :=
  match s with
  | EmptyString => []
  | String c s =>
      let n := Z.of_nat (Ascii.nat_of_ascii c) in
      (if n <? 128 then [byte_of_Z n]
       else [byte_of_Z (Z.lor 192 (Z.shiftr n 6)); byte_of_Z (Z.lor 128 (Z.land n 63))])
      ++ utf8_encode s
  end.

Section Hashing.
Context `{Externals}.

Definition hashString (string : string) : String.string :=
  bin_toHexString (keccak256 (utf8_encode string)).

Definition usernameChecksum (username streamId : string) : string :=
  hashString (toLowerCase username +:+ ":" +:+ streamId).
End Hashing.

(** ** id.ts *)

Definition STREAM_ID_BYTES_LENGTH : nat := 32.
Definition STREAM_ID_STRING_LENGTH : nat := STREAM_ID_BYTES_LENGTH * 2.

(** An argument of type [string | Uint8Array]. *)
Inductive id_arg :=
| IdString (s : string)
| IdBytes (b : bytes).

Definition StreamPrefix_Channel : string := "20".
Definition StreamPrefix_DM : string := "88".
Definition StreamPrefix_GDM : string := "77".
Definition StreamPrefix_Media : string := "ff".
Definition StreamPrefix_Space : string := "10".
Definition StreamPrefix_User : string := "a8".
Definition StreamPrefix_UserDevice : string := "ad".
Definition StreamPrefix_UserInbox : string := "a1".
Definition StreamPrefix_UserSettings : string := "a5".

Definition allowedStreamPrefixes : list string :=
  [StreamPrefix_Channel; StreamPrefix_DM; StreamPrefix_GDM; StreamPrefix_Media;
   StreamPrefix_Space; StreamPrefix_User; StreamPrefix_UserDevice; StreamPrefix_UserInbox;
   StreamPrefix_UserSettings].

(** The table is only read for an allowed prefix. *)
Definition expectedIdentityLenByPrefix (prefix : string) : nat :=
  if existsb (String.eqb prefix)
       [StreamPrefix_User; StreamPrefix_UserDevice; StreamPrefix_UserSettings;
        StreamPrefix_UserInbox; StreamPrefix_Space]
  then 40 else 62.

Definition isLowercaseHex (input : string) : bool := is_lower_hex input.

(** The loop of [areValidStreamIdParts] over the padding. *)
Definition all_zero (s : string) : bool := str_forallb (Ascii.eqb (Ascii.ascii_of_nat 48)) s.

Definition areValidStreamIdParts (prefix identity : string) : bool :=
  if negb (existsb (String.eqb prefix) allowedStreamPrefixes) then false
  else if negb (is_lower_hex identity) then false
  else if negb (String.length identity =? expectedIdentityLenByPrefix prefix)%nat
       then if negb (String.length identity =? 62)%nat then false
            else all_zero (slice_from (expectedIdentityLenByPrefix prefix) identity)
       else true.

Definition isValidStreamId (streamId : string) : bool :=
  areValidStreamIdParts (slice 0 2 streamId) (slice_from 2 streamId).

Definition checkStreamId (streamId : string) : result unit :=
  check (isValidStreamId streamId) (Some ("Invalid stream id: " +:+ streamId)) None.

Definition makeStreamId (prefix identity : string) : result string :=
  let identity := toLowerCase identity in
  let identity := if startsWith identity "0x" then slice_from 2 identity else identity in
  match check (areValidStreamIdParts prefix identity)
          (Some ("Invalid stream id parts: " +:+ prefix +:+ " " +:+ identity)) None with
  | Throw e => Throw e
  | Ok _ => Ok (padEnd (prefix +:+ identity) STREAM_ID_STRING_LENGTH "0")
  end.

Section Ids.
Context `{Externals}.

Definition userIdFromAddress (address : bytes) : result string :=
  getAddress (bin_toHexString address).

Definition addressFromUserId (userId : string) : result bytes :=
  match getAddress userId with
  | Throw e => Throw e
  | Ok normalizedAddress => arrayify normalizedAddress
  end.

Definition streamIdToBytes (streamId : string) : result bytes := bin_fromHexString streamId.
Definition streamIdFromBytes (b : bytes) : string := bin_toHexString b.

Definition streamIdAsString (streamId : id_arg) : string :=
  match streamId with
  | IdString s => s
  | IdBytes b => streamIdFromBytes b
  end.

Definition streamIdAsBytes (streamId : id_arg) : result bytes :=
  match streamId with
  | IdString s => streamIdToBytes s
  | IdBytes b => Ok b
  end.

Definition isUserId (userId : id_arg) : bool :=
  match userId with
  | IdBytes b => (length b =? 20)%nat
  | IdString s => isAddress s
  end.

(** The common body of the four [makeUser*StreamId]; [shown] is
    [userId.toString()] in the error message. *)
Definition makeStreamIdOfUser (prefix : string) (userId : id_arg) (shown : string)
    : result string :=
  match check (isUserId userId) (Some ("Invalid user id: " +:+ shown)) None with
  | Throw e => Throw e
  | Ok _ =>
      match userId with
      | IdBytes b =>
          match userIdFromAddress b with
          | Throw e => Throw e
          | Ok u => makeStreamId prefix u
          end
      | IdString u => makeStreamId prefix u
      end
  end.

Definition makeUserStreamId := makeStreamIdOfUser StreamPrefix_User.
Definition makeUserSettingsStreamId := makeStreamIdOfUser StreamPrefix_UserSettings.
Definition makeUserDeviceKeyStreamId := makeStreamIdOfUser StreamPrefix_UserDevice.
Definition makeUserInboxStreamId := makeStreamIdOfUser StreamPrefix_UserInbox.

Definition makeSpaceStreamId (spaceContractAddress : string) : result string :=
  makeStreamId StreamPrefix_Space spaceContractAddress.

(** [random] is the digits [genId(22)] returned. *)
Definition makeUniqueChannelStreamId (spaceId random : string) : result string :=
  makeStreamId StreamPrefix_Channel (slice 2 42 spaceId +:+ random).

Definition makeDefaultChannelStreamId (spaceContractAddressOrId : string) : result string :=
  if startsWith spaceContractAddressOrId StreamPrefix_Space
  then Ok (StreamPrefix_Channel +:+ slice_from 2 spaceContractAddressOrId)
  else makeStreamId StreamPrefix_Channel (spaceContractAddressOrId +:+ str_repeat "0" 22).

Definition isDefaultChannelId (streamId : string) : bool :=
  if negb (String.eqb (slice 0 2 streamId) StreamPrefix_Channel) then false
  else endsWith streamId (str_repeat "0" 22).

(** [random] is the digits [genId()] returned. *)
Definition makeUniqueGDMChannelStreamId (random : string) : result string :=
  makeStreamId StreamPrefix_GDM random.
Definition makeUniqueMediaStreamId (random : string) : result string :=
  makeStreamId StreamPrefix_Media random.

Definition makeDMStreamId (userIdA userIdB : string) : result string :=
  let ids := js_sort String.leb (map toLowerCase [userIdA; userIdB]) in
  let concatenated := String.concat "-" ids in
  let hashed := hashString concatenated in
  makeStreamId StreamPrefix_DM (slice 0 62 hashed).

Definition isUserStreamId (i : id_arg) : bool := startsWith (streamIdAsString i) StreamPrefix_User.
Definition isSpaceStreamId (i : id_arg) : bool := startsWith (streamIdAsString i) StreamPrefix_Space.
Definition isChannelStreamId (i : id_arg) : bool := startsWith (streamIdAsString i) StreamPrefix_Channel.
Definition isDMChannelStreamId (i : id_arg) : bool := startsWith (streamIdAsString i) StreamPrefix_DM.
Definition isUserDeviceStreamId (i : id_arg) : bool := startsWith (streamIdAsString i) StreamPrefix_UserDevice.
Definition isUserSettingsStreamId (i : id_arg) : bool := startsWith (streamIdAsString i) StreamPrefix_UserSettings.
Definition isMediaStreamId (i : id_arg) : bool := startsWith (streamIdAsString i) StreamPrefix_Media.
Definition isGDMChannelStreamId (i : id_arg) : bool := startsWith (streamIdAsString i) StreamPrefix_GDM.
Definition isUserInboxStreamId (i : id_arg) : bool := startsWith (streamIdAsString i) StreamPrefix_UserInbox.

Definition getUserAddressFromStreamId (streamId : string) : result bytes :=
  let prefix := slice 0 2 streamId in
  if negb (String.eqb prefix StreamPrefix_User) && negb (String.eqb prefix StreamPrefix_UserDevice) &&
     negb (String.eqb prefix StreamPrefix_UserSettings) && negb (String.eqb prefix StreamPrefix_UserInbox)
  then Throw (JsError ("Invalid stream id: " +:+ streamId))
  else if negb (String.length streamId =? STREAM_ID_STRING_LENGTH)%nat || negb (isLowercaseHex streamId)
  then Throw (JsError ("Invalid stream id format: " +:+ streamId))
  else
    let addressPart := slice 2 42 streamId in
    let paddingPart := slice_from 42 streamId in
    if negb (String.eqb paddingPart (str_repeat "0" 22))
    then Throw (JsError ("Invalid stream id padding: " +:+ streamId))
    else addressFromUserId ("0x" +:+ addressPart).

Definition getUserIdFromStreamId (streamId : string) : result string :=
  match getUserAddressFromStreamId streamId with
  | Throw e => Throw e
  | Ok a => userIdFromAddress a
  end.
End Ids.

(** ** Lemmas *)

Lemma existsb_eqb s l : existsb (String.eqb s) l = true <-> s ∈ l.
Proof.
  rewrite existsb_exists. split.
  - intros (x & Hx & ->%String.eqb_eq). by apply list_elem_of_In.
  - intros Hs. exists s. split; [by apply list_elem_of_In|apply String.eqb_refl].
Qed.

Lemma prefix_length p : existsb (String.eqb p) allowedStreamPrefixes = true ->
  String.length p = 2%nat /\ is_lower_hex p = true /\ (expectedIdentityLenByPrefix p = 40%nat \/ expectedIdentityLenByPrefix p = 62%nat).
Proof.
  rewrite existsb_eqb. unfold allowedStreamPrefixes. intros Hp.
  repeat (apply elem_of_cons in Hp as [->|Hp]; [vm_compute; auto|]). by apply elem_of_nil in Hp.
Qed.

Lemma str_split n s : (n <= String.length s)%nat ->
  exists a b, s = a +:+ b /\ String.length a = n.
Proof.
  revert s. induction n as [|n IH]; intros s Hn; [by exists "", s|].
  destruct s as [|c s]; simpl in Hn; [lia|].
  destruct (IH s) as (a & b & -> & Ha); [lia|]. exists (String c a), b. simpl. by rewrite Ha.
Qed.

Lemma all_zero_repeat n : all_zero (str_repeat "0" n) = true.
Proof. by apply str_forallb_repeat. Qed.

Lemma str_forallb_inv f a b : str_forallb f (a +:+ b) = true -> str_forallb f a = true /\ str_forallb f b = true.
Proof. rewrite str_forallb_app. apply andb_true_iff. Qed.

(** A string of zeros is determined by its length. *)
Lemma all_zero_eq s : all_zero s = true -> s = str_repeat "0" (String.length s).
Proof.
  unfold all_zero. induction s as [|c s IH]; [done|]. cbn [str_forallb String.length str_repeat].
  intros [Hc Hs]%andb_true_iff. apply Ascii.eqb_eq in Hc. subst c. by rewrite <- IH.
Qed.

Lemma makeStreamId_Ok prefix identity s :
  makeStreamId prefix identity = Ok s ->
  exists h, s = prefix +:+ h +:+ str_repeat "0" (62 - String.length h)
    /\ areValidStreamIdParts prefix h = true /\ String.length prefix = 2%nat
    /\ (String.length h <= 62)%nat.
Proof.
  unfold makeStreamId, check, throwWithCode. cbv zeta.
  set (h := if startsWith _ _ then _ else _). destruct (areValidStreamIdParts prefix h) eqn:Hv; [|done].
  intros [= <-]. exists h. pose proof Hv as Hv'. unfold areValidStreamIdParts in Hv'.
  destruct (existsb _ _) eqn:Hp; simpl in Hv'; [|done].
  destruct (prefix_length _ Hp) as (Hl & _ & Hexp).
  unfold padEnd, STREAM_ID_STRING_LENGTH, STREAM_ID_BYTES_LENGTH. rewrite str_length_app, Hl, str_app_assoc.
  split_and!; [by replace (32 * 2 - (2 + String.length h))%nat with (62 - String.length h)%nat by lia|done|done|].
  destruct (is_lower_hex h); simpl in Hv'; [|done].
  destruct (Nat.eqb_spec (String.length h) (expectedIdentityLenByPrefix prefix)); simpl in Hv'; [lia|].
  destruct (Nat.eqb_spec (String.length h) 62); [lia|done].
Qed.

(** Padding keeps the parts of an id valid. *)
Lemma padded_valid prefix h :
  areValidStreamIdParts prefix h = true -> (String.length h <= 62)%nat ->
  areValidStreamIdParts prefix (h +:+ str_repeat "0" (62 - String.length h)) = true.
Proof.
  unfold areValidStreamIdParts. destruct (existsb _ _) eqn:Hp; simpl; [|done].
  destruct (prefix_length _ Hp) as (_ & _ & Hexp).
  destruct (is_lower_hex h) eqn:Hh; simpl; [|done]. intros Hv Hle.
  assert (Hz : is_lower_hex (h +:+ str_repeat "0" (62 - String.length h)) = true).
  { unfold is_lower_hex in *. rewrite str_forallb_app, Hh. by apply str_forallb_repeat. }
  rewrite Hz. simpl. rewrite str_length_app, str_repeat_length. simpl String.length.
  replace (String.length h + (62 - String.length h) * 1)%nat with 62%nat by lia.
  destruct (Nat.eqb_spec 62 (expectedIdentityLenByPrefix prefix)); simpl; [done|].
  assert (He : expectedIdentityLenByPrefix prefix = 40%nat) by lia. rewrite He in *.
  destruct (Nat.eqb_spec (String.length h) 40) as [H40|H40]; simpl in Hv.
  - rewrite <- H40 at 1. rewrite slice_from_app. apply all_zero_repeat.
  - destruct (Nat.eqb_spec (String.length h) 62) as [H62|]; simpl in Hv; [|done].
    rewrite H62. simpl. by rewrite str_app_nil_r.
Qed.

Lemma slice_0_2 p h : String.length p = 2%nat -> slice 0 2 (p +:+ h) = p /\ slice_from 2 (p +:+ h) = h.
Proof. intros <-. split; [apply slice_app|apply slice_from_app]. Qed.

Lemma valid_parts prefix h :
  areValidStreamIdParts prefix h = true ->
  existsb (String.eqb prefix) allowedStreamPrefixes = true /\ is_lower_hex h = true.
Proof. unfold areValidStreamIdParts. destruct (existsb _ _); [|done]. by destruct (is_lower_hex h). Qed.

(** Every id [makeStreamId] returns is a valid stream id of 64 lower-case hex
    digits that starts with the prefix it was made for. *)
Theorem makeStreamId_valid prefix identity s :
  makeStreamId prefix identity = Ok s ->
  isValidStreamId s = true /\ String.length s = STREAM_ID_STRING_LENGTH /\ is_lower_hex s = true
  /\ startsWith s prefix = true /\ slice 0 2 s = prefix.
Proof.
  intros (h & -> & Hv & Hl & Hle)%makeStreamId_Ok.
  set (z := str_repeat "0" (62 - String.length h)).
  destruct (slice_0_2 prefix (h +:+ z) Hl) as [H1 H2].
  destruct (valid_parts _ _ Hv) as [Hp Hh]. destruct (prefix_length _ Hp) as (_ & Hph & _).
  split_and!; [|rewrite !str_length_app| | |done].
  - unfold isValidStreamId. rewrite H1, H2. by apply padded_valid.
  - unfold z. rewrite str_repeat_length, Hl. unfold STREAM_ID_STRING_LENGTH, STREAM_ID_BYTES_LENGTH. simpl. lia.
  - unfold is_lower_hex in *. rewrite !str_forallb_app, Hph, Hh. by apply str_forallb_repeat.
  - apply startsWith_app.
Qed.

(** The kind predicates, as one list. *)
Definition kinds `{Externals} (s : string) : list bool :=
  map (fun f => f (IdString s))
    [isUserStreamId; isSpaceStreamId; isChannelStreamId; isDMChannelStreamId; isUserDeviceStreamId;
     isUserSettingsStreamId; isMediaStreamId; isGDMChannelStreamId; isUserInboxStreamId].

(** A valid stream id is of exactly one of the nine kinds. *)
Theorem stream_kind_unique `{Externals} s :
  isValidStreamId s = true -> length (List.filter id (kinds s)) = 1%nat.
Proof.
  intros Hv. unfold isValidStreamId in Hv. apply valid_parts in Hv as [Hp _].
  rewrite existsb_eqb in Hp. destruct (prefix_length (slice 0 2 s)) as [Hl _]; [by apply existsb_eqb|].
  destruct s as [|c1 [|c2 s]]; try discriminate Hl.
  change (slice 0 2 (String c1 (String c2 s))) with (String c1 (String c2 (String.substring 0 0 s))) in Hp.
  replace (String.substring 0 0 s) with "" in Hp by (by destruct s).
  unfold allowedStreamPrefixes in Hp.
  repeat (apply elem_of_cons in Hp as [[= -> ->]|Hp]; [destruct s; reflexivity|]).
  by apply elem_of_nil in Hp.
Qed.

Section Users.
Context `{Externals} `{!HexLaws} `{!AddressLaws}.

Lemma strip_of_address a s :
  toLowerCase s = "0x" +:+ bytesToHex a ->
  (if startsWith (toLowerCase s) "0x" then slice_from 2 (toLowerCase s) else toLowerCase s) = bytesToHex a.
Proof. intros ->. rewrite startsWith_app. exact (slice_from_app "0x" _). Qed.

Lemma user_parts_valid prefix a :
  prefix ∈ [StreamPrefix_User; StreamPrefix_UserDevice; StreamPrefix_UserSettings; StreamPrefix_UserInbox] ->
  length a = 20%nat -> areValidStreamIdParts prefix (bytesToHex a) = true.
Proof.
  intros Hp Ha. unfold areValidStreamIdParts. rewrite hex_lower, hex_length, Ha.
  repeat (apply elem_of_cons in Hp as [->|Hp]; [reflexivity|]). by apply elem_of_nil in Hp.
Qed.

(** The id of each of a user's four streams names the user: it can be made for
    every address of 20 bytes, from the bytes or from the user id, and both the
    address and the user id are read back from it. *)
Theorem user_stream_id_roundtrip prefix a shown :
  prefix ∈ [StreamPrefix_User; StreamPrefix_UserDevice; StreamPrefix_UserSettings; StreamPrefix_UserInbox] ->
  length a = 20%nat ->
  exists u s, userIdFromAddress a = Ok u
    /\ makeStreamIdOfUser prefix (IdBytes a) shown = Ok s
    /\ makeStreamIdOfUser prefix (IdString u) shown = Ok s
    /\ getUserAddressFromStreamId s = Ok a /\ getUserIdFromStreamId s = Ok u.
Proof.
  intros Hp Ha. destruct (getAddress_hex a Ha) as (u & Hu & Hlow & Haddr & Hidem & Harr).
  assert (Hmk : makeStreamId prefix u = Ok (prefix +:+ bytesToHex a +:+ str_repeat "0" 22)).
  { unfold makeStreamId. rewrite (strip_of_address a u Hlow). unfold check.
    rewrite (user_parts_valid prefix a Hp Ha). f_equal. unfold padEnd.
    rewrite str_length_app, hex_length, Ha, str_app_assoc. do 3 f_equal.
    destruct (prefix_length prefix) as [-> _]; [|done]. apply existsb_eqb. set_solver. }
  assert (Hget : getUserAddressFromStreamId (prefix +:+ bytesToHex a +:+ str_repeat "0" 22) = Ok a).
  { assert (Hl : String.length prefix = 2%nat)
      by (destruct (prefix_length prefix) as [? _]; [apply existsb_eqb; set_solver|done]).
    assert (Hlh : is_lower_hex prefix = true)
      by (destruct (prefix_length prefix) as (_ & ? & _); [apply existsb_eqb; set_solver|done]).
    unfold getUserAddressFromStreamId. rewrite (proj1 (slice_0_2 _ _ Hl)).
    assert (Hk : negb (String.eqb prefix StreamPrefix_User) && negb (String.eqb prefix StreamPrefix_UserDevice) &&
      negb (String.eqb prefix StreamPrefix_UserSettings) && negb (String.eqb prefix StreamPrefix_UserInbox) = false).
    { repeat (apply elem_of_cons in Hp as [->|Hp]; [reflexivity|]). by apply elem_of_nil in Hp. }
    rewrite Hk, !str_length_app, Hl, hex_length, Ha. unfold isLowercaseHex, is_lower_hex in *.
    rewrite !str_forallb_app, Hlh. pose proof (hex_lower a) as Hx. unfold is_lower_hex in Hx. rewrite Hx.
    cbn [negb andb orb Nat.eqb].
    pose proof (slice_mid prefix (bytesToHex a) (str_repeat "0" 22)) as Hs. rewrite Hl, hex_length, Ha in Hs.
    simpl Nat.add in Hs. rewrite Hs.
    assert (Hpad : slice_from 42 (prefix +:+ bytesToHex a +:+ str_repeat "0" 22) = str_repeat "0" 22).
    { rewrite <- str_app_assoc. replace 42%nat with (String.length (prefix +:+ bytesToHex a))
        by (rewrite str_length_app, hex_length, Hl, Ha; done). apply slice_from_app. }
    rewrite Hpad. cbn. unfold addressFromUserId. by rewrite getAddress_0x_hex, Hu, Harr. }
  exists u, (prefix +:+ bytesToHex a +:+ str_repeat "0" 22). unfold makeStreamIdOfUser, getUserIdFromStreamId.
  rewrite Hget. unfold isUserId, userIdFromAddress, bin_toHexString. rewrite Ha, Hu, Haddr, Hmk. done.
Qed.
End Users.

(** The id of a direct message stream does not depend on the order of the two
    users or on the case of their addresses. *)
Theorem dm_stream_id_symmetric `{Externals} a b :
  makeDMStreamId a b = makeDMStreamId b a
  /\ makeDMStreamId (toLowerCase a) b = makeDMStreamId a b.
Proof.
  assert (Hlow : forall s, toLowerCase (toLowerCase s) = toLowerCase s).
  { intros s. unfold toLowerCase. induction s as [|c s IH]; [done|]. cbn [str_map]. rewrite IH. f_equal.
    destruct c as [[] [] [] [] [] [] [] []]; reflexivity. }
  unfold makeDMStreamId. cbn [map]. rewrite Hlow. split; [|done].
  assert (Hs : forall x y, js_sort String.leb [x; y] = js_sort String.leb [y; x]).
  { intros x y. simpl. destruct (String.leb x y) eqn:H1, (String.leb y x) eqn:H2; try done.
    - by rewrite (String.leb_antisym x y H1 H2).
    - destruct (String.leb_total x y); congruence. }
  by rewrite Hs.
Qed.

Lemma makeStreamId_valid_witness : isValidStreamId ("10" +:+ str_repeat "ab" 20 +:+ str_repeat "0" 22) = true.
Proof.
  destruct (makeStreamId_valid StreamPrefix_Space ("0x" +:+ str_repeat "AB" 20)
    ("10" +:+ str_repeat "ab" 20 +:+ str_repeat "0" 22) eq_refl) as [H _]. exact H.
Defined.

Lemma stream_kind_unique_witness :
  length (List.filter id (kinds ("20" +:+ str_repeat "ab" 31))) = 1%nat.
Proof. exact (stream_kind_unique ("20" +:+ str_repeat "ab" 31) eq_refl). Defined.

Lemma user_stream_id_roundtrip_witness :
  exists u s, userIdFromAddress (replicate 20 x0b) = Ok u
    /\ makeStreamIdOfUser StreamPrefix_UserInbox (IdBytes (replicate 20 x0b)) "" = Ok s
    /\ getUserAddressFromStreamId s = Ok (replicate 20 x0b).
Proof.
  destruct (user_stream_id_roundtrip StreamPrefix_UserInbox (replicate 20 x0b) "") as (u & s & H1 & H2 & _ & H3 & _).
  - set_solver.
  - reflexivity.
  - exists u, s. split; [exact H1|split; [exact H2|exact H3]].
Defined.

(** ** Random ids

    [nanoid] draws letters of an alphabet; [seed] stands for what is drawn. *)

Class Nanoid := {
  hexNanoId : nat -> Z -> string;
  nanoid : nat -> Z -> string;
}.
(** [customAlphabet('0123456789abcdef', 62)] gives that many letters of its alphabet. *)
Class NanoidLaws `{Nanoid} := {
  hexNanoId_length n seed : String.length (hexNanoId n seed) = n;
  hexNanoId_hex n seed : is_lower_hex (hexNanoId n seed) = true;
}.

Section RandomIds.
Context `{Externals, Nanoid}.

Definition genId (size : option nat) (seed : Z) : string := hexNanoId (default 62%nat size) seed.
Definition genShortId (seed : Z) : string := nanoid 12 seed.
Definition genLocalId (seed : Z) : string := "~" +:+ nanoid 11 seed.
Definition genIdBlob (seed : Z) : result bytes := bin_fromHexString (hexNanoId 32 seed).
End RandomIds.

Lemma lower_hex_char c : is_lower_hex_char c = true -> lower_char c = c.
Proof. destruct c as [[] [] [] [] [] [] [] []]; vm_compute; congruence. Qed.

Lemma toLowerCase_hex s : is_lower_hex s = true -> toLowerCase s = s.
Proof.
  unfold is_lower_hex, toLowerCase. induction s as [|c s IH]; [done|]. cbn [str_forallb str_map].
  intros [Hc Hs]%andb_true_iff. by rewrite IH, lower_hex_char.
Qed.

Lemma hex_not_0x s : is_lower_hex s = true -> startsWith s "0x" = false.
Proof.
  intros Hs. destruct (startsWith s "0x") eqn:Hx; [|done]. exfalso. unfold startsWith in Hx.
  destruct s as [|c1 [|c2 s]]; [done| |].
  - cbn [String.prefix] in Hx. by destruct (Ascii.ascii_dec _ c1).
  - cbn [String.prefix] in Hx. destruct (Ascii.ascii_dec _ c1) as [<-|]; [|done].
    destruct (Ascii.ascii_dec _ c2) as [<-|]; [|done]. unfold is_lower_hex in Hs. by cbn in Hs.
Qed.

Lemma makeStreamId_hex prefix h : areValidStreamIdParts prefix h = true ->
  makeStreamId prefix h = Ok (padEnd (prefix +:+ h) STREAM_ID_STRING_LENGTH "0").
Proof.
  intros Hv. destruct (valid_parts _ _ Hv) as [_ Hh]. unfold makeStreamId.
  by rewrite (toLowerCase_hex h Hh), (hex_not_0x h Hh), Hv.
Qed.

Section Unique.
Context `{Externals, Nanoid, !NanoidLaws}.

(** Every random id of a new channel, of a group or of a media stream can be made, is a
    valid id of its kind, and the id of a channel names its space. *)
Theorem unique_ids_valid spaceId seed :
  is_lower_hex (slice 2 42 spaceId) = true -> String.length (slice 2 42 spaceId) = 40%nat ->
  (exists s, makeUniqueChannelStreamId spaceId (genId (Some 22%nat) seed) = Ok s
     /\ isValidStreamId s = true /\ isChannelStreamId (IdString s) = true /\ slice 2 42 s = slice 2 42 spaceId)
  /\ (exists s, makeUniqueGDMChannelStreamId (genId None seed) = Ok s
        /\ isValidStreamId s = true /\ isGDMChannelStreamId (IdString s) = true)
  /\ (exists s, makeUniqueMediaStreamId (genId None seed) = Ok s
        /\ isValidStreamId s = true /\ isMediaStreamId (IdString s) = true).
Proof.
  intros Hh Hl.
  assert (Hmade : forall prefix h, prefix ∈ [StreamPrefix_Channel; StreamPrefix_GDM; StreamPrefix_Media] ->
    is_lower_hex h = true -> String.length h = 62%nat ->
    makeStreamId prefix h = Ok (prefix +:+ h) /\ isValidStreamId (prefix +:+ h) = true /\ startsWith (prefix +:+ h) prefix = true).
  { intros prefix h Hp Hhex Hlen.
    assert (Hv : areValidStreamIdParts prefix h = true).
    { unfold areValidStreamIdParts. rewrite Hhex, Hlen.
      repeat (apply elem_of_cons in Hp as [->|Hp]; [reflexivity|]). by apply elem_of_nil in Hp. }
    destruct (valid_parts _ _ Hv) as [Hpre _]. destruct (prefix_length _ Hpre) as [Hpl _].
    assert (Hpad : padEnd (prefix +:+ h) STREAM_ID_STRING_LENGTH "0" = prefix +:+ h).
    { unfold padEnd. rewrite str_length_app, Hpl, Hlen. cbn. apply str_app_nil_r. }
    pose proof (makeStreamId_hex prefix h Hv) as Hok. rewrite Hpad in Hok.
    destruct (makeStreamId_valid _ _ _ Hok) as (Hval & _ & _ & Hst & _). by split_and!. }
  split_and!.
  - assert (Hall : is_lower_hex (slice 2 42 spaceId +:+ genId (Some 22%nat) seed) = true
      /\ String.length (slice 2 42 spaceId +:+ genId (Some 22%nat) seed) = 62%nat).
    { unfold genId. split; [|by rewrite str_length_app, Hl, hexNanoId_length].
      unfold is_lower_hex in *. rewrite str_forallb_app, Hh. apply hexNanoId_hex. }
    destruct Hall as [Ha1 Ha2]. destruct (Hmade StreamPrefix_Channel _ ltac:(set_solver) Ha1 Ha2) as (Hok & Hv & Hs).
    exists (StreamPrefix_Channel +:+ slice 2 42 spaceId +:+ genId (Some 22%nat) seed).
    split_and!; [exact Hok|exact Hv|exact Hs|].
    transitivity (slice (String.length StreamPrefix_Channel) (String.length StreamPrefix_Channel + String.length (slice 2 42 spaceId))
      (StreamPrefix_Channel +:+ slice 2 42 spaceId +:+ genId (Some 22%nat) seed)); [by rewrite Hl|apply slice_mid].
  - destruct (Hmade StreamPrefix_GDM (genId None seed) ltac:(set_solver) (hexNanoId_hex _ _) (hexNanoId_length _ _)) as (Hok & Hv & Hs).
    by eexists.
  - destruct (Hmade StreamPrefix_Media (genId None seed) ltac:(set_solver) (hexNanoId_hex _ _) (hexNanoId_length _ _)) as (Hok & Hv & Hs).
    by eexists.
Qed.
End Unique.

(** Letters that repeat the seed. *)
#[local] Instance toy_Nanoid : Nanoid := {| hexNanoId n _ := str_repeat "a" n; nanoid n _ := str_repeat "Z" n |}.
#[local] Instance toy_NanoidLaws : NanoidLaws.
Proof.
  split.
  - intros n seed. cbn. rewrite str_repeat_length. cbn. lia.
  - intros n seed. by apply str_forallb_repeat.
Qed.

Lemma unique_ids_valid_witness :
  exists s, makeUniqueChannelStreamId ("10" +:+ str_repeat "ab" 31) (genId (Some 22%nat) 0) = Ok s /\ isValidStreamId s = true.
Proof.
  destruct (unique_ids_valid ("10" +:+ str_repeat "ab" 31) 0) as [(s & Hs & Hv & _) _]; [reflexivity|reflexivity|].
  by exists s.
Defined.
