(* ===== verification/Types.v ===== *)
(** * Timeline events, decrypted content and emitted events

    core/sdk/src/types.ts (data), encryptedContentTypes.ts, streamEvents.ts. *)

From S2P Require Import Prelude Proto Externals Binary.

(** ** encryptedContentTypes.ts *)

Inductive content_kind := Kind_text | Kind_channelMessage | Kind_channelProperties.

Record EncryptedContent := mkEncryptedContent {
  ec_kind : content_kind;
  ec_content : EncryptedData;
}.

Definition isEncryptedContentKind (kind : string) : bool :=
  String.eqb kind "text" || String.eqb kind "channelMessage" || String.eqb kind "channelProperties".

Inductive DecryptedContent :=
| DecryptedContent_Text (content : string)
| DecryptedContent_ChannelMessage (content : ChannelMessage)
| DecryptedContent_ChannelProperties (content : ChannelProperties).

Definition decrypted_kind (c : DecryptedContent) : content_kind :=
  match c with
  | DecryptedContent_Text _ => Kind_text
  | DecryptedContent_ChannelMessage _ => Kind_channelMessage
  | DecryptedContent_ChannelProperties _ => Kind_channelProperties
  end.

Definition toDecryptedContent `{Externals} (kind : content_kind) (content : string)
    : result DecryptedContent :=
  match kind with
  | Kind_text => Ok (DecryptedContent_Text content)
  | Kind_channelMessage =>
      match ChannelMessage_fromJsonString content with
      | Ok m => Ok (DecryptedContent_ChannelMessage m)
      | Throw e => Throw e
      end
  | Kind_channelProperties =>
      match ChannelProperties_fromJsonString content with
      | Ok p => Ok (DecryptedContent_ChannelProperties p)
      | Throw e => Throw e
      end
  end.

(** ** Data of @river-build/encryption used here *)

Record KeySolicitationContent := mkKeySolicitationContent {
  ksc_deviceKey : string;
  ksc_fallbackKey : string;
  ksc_isNewDevice : bool;
  ksc_sessionIds : list string;
}.

Record UserDevice := mkUserDevice { ud_deviceKey : string; ud_fallbackKey : string }.

Record DecryptionSessionError := mkDecryptionSessionError {
  dse_missingSession : bool;
  dse_kind : string;
  dse_encryptedData : EncryptedData;
  dse_error : option string;
}.
#[global] Instance DecryptionSessionError_eq_dec : EqDecision DecryptionSessionError.
Proof. solve_decision. Defined.

(** ** types.ts *)

Inductive LocalEventStatus := Status_sending | Status_sent | Status_failed.

Record LocalEvent := mkLocalEvent {
  le_localId : string;
  le_channelMessage : ChannelMessage;
  le_status : LocalEventStatus;
}.

Record ParsedEvent := mkParsedEvent {
  pe_event : StreamEvent;
  pe_hash : bytes;
  pe_hashStr : string;
  pe_prevMiniblockHashStr : option string;
  pe_creatorUserId : string;
}.

Record StreamTimelineEvent := mkStreamTimelineEvent {
  te_hashStr : string;
  te_creatorUserId : string;
  te_eventNum : Z;
  te_createdAtEpochMs : Z;
  te_localEvent : option LocalEvent;
  te_remoteEvent : option ParsedEvent;
  te_decryptedContent : option DecryptedContent;
  te_decryptedContentError : option DecryptionSessionError;
  te_miniblockNum : option Z;
  te_confirmedEventNum : option Z;
}.

(** Assignments to one property of a timeline event object. *)
Definition te_set_hashStr (v : string) (e : StreamTimelineEvent) : StreamTimelineEvent :=
  mkStreamTimelineEvent v (te_creatorUserId e) (te_eventNum e) (te_createdAtEpochMs e)
    (te_localEvent e) (te_remoteEvent e) (te_decryptedContent e) (te_decryptedContentError e)
    (te_miniblockNum e) (te_confirmedEventNum e).
Definition te_set_eventNum (v : Z) (e : StreamTimelineEvent) : StreamTimelineEvent :=
  mkStreamTimelineEvent (te_hashStr e) (te_creatorUserId e) v (te_createdAtEpochMs e)
    (te_localEvent e) (te_remoteEvent e) (te_decryptedContent e) (te_decryptedContentError e)
    (te_miniblockNum e) (te_confirmedEventNum e).
Definition te_set_localEvent (v : option LocalEvent) (e : StreamTimelineEvent) : StreamTimelineEvent :=
  mkStreamTimelineEvent (te_hashStr e) (te_creatorUserId e) (te_eventNum e) (te_createdAtEpochMs e)
    v (te_remoteEvent e) (te_decryptedContent e) (te_decryptedContentError e)
    (te_miniblockNum e) (te_confirmedEventNum e).
Definition te_set_remoteEvent (v : option ParsedEvent) (e : StreamTimelineEvent) : StreamTimelineEvent :=
  mkStreamTimelineEvent (te_hashStr e) (te_creatorUserId e) (te_eventNum e) (te_createdAtEpochMs e)
    (te_localEvent e) v (te_decryptedContent e) (te_decryptedContentError e)
    (te_miniblockNum e) (te_confirmedEventNum e).
Definition te_set_decryptedContent (v : option DecryptedContent) (e : StreamTimelineEvent) : StreamTimelineEvent :=
  mkStreamTimelineEvent (te_hashStr e) (te_creatorUserId e) (te_eventNum e) (te_createdAtEpochMs e)
    (te_localEvent e) (te_remoteEvent e) v (te_decryptedContentError e)
    (te_miniblockNum e) (te_confirmedEventNum e).
Definition te_set_decryptedContentError (v : option DecryptionSessionError) (e : StreamTimelineEvent) : StreamTimelineEvent :=
  mkStreamTimelineEvent (te_hashStr e) (te_creatorUserId e) (te_eventNum e) (te_createdAtEpochMs e)
    (te_localEvent e) (te_remoteEvent e) (te_decryptedContent e) v
    (te_miniblockNum e) (te_confirmedEventNum e).
Definition te_set_miniblockNum (v : option Z) (e : StreamTimelineEvent) : StreamTimelineEvent :=
  mkStreamTimelineEvent (te_hashStr e) (te_creatorUserId e) (te_eventNum e) (te_createdAtEpochMs e)
    (te_localEvent e) (te_remoteEvent e) (te_decryptedContent e) (te_decryptedContentError e)
    v (te_confirmedEventNum e).
Definition te_set_confirmedEventNum (v : option Z) (e : StreamTimelineEvent) : StreamTimelineEvent :=
  mkStreamTimelineEvent (te_hashStr e) (te_creatorUserId e) (te_eventNum e) (te_createdAtEpochMs e)
    (te_localEvent e) (te_remoteEvent e) (te_decryptedContent e) (te_decryptedContentError e)
    (te_miniblockNum e) v.

Definition isLocalEvent (event : StreamTimelineEvent) : bool := is_defined (te_localEvent event).
Definition isRemoteEvent (event : StreamTimelineEvent) : bool := is_defined (te_remoteEvent event).
Definition isDecryptedEvent (event : StreamTimelineEvent) : bool :=
  is_defined (te_decryptedContent event) && is_defined (te_remoteEvent event).
Definition isConfirmedEvent (event : StreamTimelineEvent) : bool :=
  isRemoteEvent event && is_defined (te_confirmedEventNum event)
  && is_defined (te_miniblockNum event).

Definition makeRemoteTimelineEvent (parsedEvent : ParsedEvent) (eventNum : Z)
    (miniblockNum confirmedEventNum : option Z) : StreamTimelineEvent :=
  {| te_hashStr := pe_hashStr parsedEvent;
     te_creatorUserId := pe_creatorUserId parsedEvent;
     te_eventNum := eventNum;
     te_createdAtEpochMs := se_createdAtEpochMs (pe_event parsedEvent);
     te_localEvent := None;
     te_remoteEvent := Some parsedEvent;
     te_decryptedContent := None;
     te_decryptedContentError := None;
     te_miniblockNum := miniblockNum;
     te_confirmedEventNum := confirmedEventNum |}.

(** The payload of a remote timeline event. *)
Definition event_payload (event : StreamTimelineEvent) : option StreamEvent_payload :=
  match te_remoteEvent event with
  | Some parsed => se_payload (pe_event parsed)
  | None => None
  end.

Record ParsedMiniblock := mkParsedMiniblock {
  pmb_hash : bytes;
  pmb_header : MiniblockHeader;
  pmb_events : list ParsedEvent;
}.

Record ParsedStreamAndCookie := mkParsedStreamAndCookie {
  psc_nextSyncCookie : SyncCookie;
  psc_miniblocks : list ParsedMiniblock;
  psc_events : list ParsedEvent;
}.

Record ParsedStreamResponse := mkParsedStreamResponse {
  psr_snapshot : Snapshot;
  psr_streamAndCookie : ParsedStreamAndCookie;
  psr_prevSnapshotMiniblockNum : Z;
  psr_eventIds : list string;
}.

(** ** streamEvents.ts *)

(** Timeline event objects are shared by reference between the timeline array,
    the [events] map and the emitted changes; [ref] is an object identity. *)
Definition ref : Type := nat.

Inductive SnapshotCase :=
| spaceContent | channelContent | userContent | userSettingsContent | userDeviceKeyContent
| mediaContent | dmChannelContent | gdmChannelContent | userInboxContent.
#[global] Instance SnapshotCase_eq_dec : EqDecision SnapshotCase.
Proof. solve_decision. Defined.

Record StreamChange := mkStreamChange {
  chg_prepended : option (list ref);
  chg_appended : option (list ref);
  chg_updated : option (list ref);
  chg_confirmed : option (list ref);
}.

(** [StreamEvents]: the encryption events, then the state events. *)
Inductive StreamEvents :=
| newGroupSessions (sessions : GroupEncryptionSessions) (senderId : string)
| newEncryptedContent (streamId eventId : string) (content : EncryptedContent)
| newKeySolicitation (streamId fromUserId : string) (fromUserAddress : bytes)
    (event : KeySolicitationContent)
| updatedKeySolicitation (streamId fromUserId : string) (fromUserAddress : bytes)
    (event : KeySolicitationContent)
| userDeviceKeyMessage (streamId userId : string) (userDevice : UserDevice)
| streamNewUserJoined (streamId userId : string)
| streamNewUserInvited (streamId userId : string)
| streamUserLeft (streamId userId : string)
| streamMembershipUpdated (streamId userId : string)
| streamPendingMembershipUpdated (streamId userId : string)
| userJoinedStream (streamId : string)
| userInvitedToStream (streamId : string)
| userLeftStream (streamId : string)
| userStreamMembershipChanged (streamId : string)
| spaceChannelCreated (spaceId channelId : string)
| spaceChannelUpdated (spaceId channelId : string)
| spaceChannelDeleted (spaceId channelId : string)
| fullyReadMarkersUpdated (channelId : string) (markers : gmap string FullyReadMarker)
| userBlockUpdated (userBlock : UserBlock)
| eventDecrypted (streamId : string) (contentKind : SnapshotCase) (event : ref)
| streamInitialized (streamId : string) (contentKind : SnapshotCase)
| streamUpToDate (streamId : string)
| streamUpdated (streamId : string) (contentKind : SnapshotCase) (change : StreamChange)
| streamLocalEventUpdated (streamId : string) (contentKind : SnapshotCase)
    (localEventId : string) (event : ref)
| streamLatestTimestampUpdated (streamId : string)
| streamUsernameUpdated (streamId userId : string)
| streamDisplayNameUpdated (streamId userId : string)
| streamPendingUsernameUpdated (streamId userId : string)
| streamPendingDisplayNameUpdated (streamId userId : string)
| streamEnsAddressUpdated (streamId userId : string)
| streamNftUpdated (streamId userId : string)
| streamChannelPropertiesUpdated (streamId : string).

(** A method of a stream component with state [S]. *)
Abbreviation SM S := (JS StreamEvents S).

(** ** Lemmas *)

Lemma toDecryptedContent_kind `{Externals} kind s c :
  toDecryptedContent kind s = Ok c -> decrypted_kind c = kind.
Proof.
  destruct kind; simpl; intros Hc; repeat case_match; by simplify_eq.
Qed.

Lemma makeRemote_confirmed pe n m c :
  isConfirmedEvent (makeRemoteTimelineEvent pe n (Some m) (Some c)) = true.
Proof. done. Qed.
