(* ===== verification/SdkUtils.v ===== *)
(** * Helpers of the SDK (core/sdk/src/utils.ts)

    The difference of sorted lists, with its lemmas, and the small helpers. *)

From S2P Require Import Prelude.

(** The two indices of the loop only move forward, so the loop state is the pair
    of suffixes still to be read. *)
Fixpoint removeCommon (x : list string) : list string -> list string :=
  fix go (y : list string) : list string :=
    match x, y with
    | [], _ => []
    | _, [] => x
    | a :: x', b :: y' =>
        if String.ltb a b then a :: removeCommon x' y
        else if String.ltb b a then go y'
        else removeCommon x' y'
    end.

(** *** The rest of utils.ts *)

Definition unsafeProp (prop : string) : bool :=
  String.eqb prop "__proto__" || String.eqb prop "prototype" || String.eqb prop "constructor".

Definition safeSet {V} (obj : jsmap V) (prop : string) (value : V) : result (jsmap V) :=
  if unsafeProp prop then Throw (JsError "Trying to modify prototype or constructor") else Ok (jm_set prop value obj).

(** Where the code runs, and what it finds there. *)
Record host := mkHost {
  isNode : bool;
  isJest : bool;
  isBrowser : bool;
  process_env : string -> option string;
  localStorage : option (string -> option string);
  userAgent : option string;
}.

Definition getEnvVar (h : host) (key defaultValue : string) : string :=
  if isNode h || isJest h then default defaultValue (process_env h key)
  else if isBrowser h then
    match localStorage h with
    | Some items => default defaultValue (items key)
    | None => defaultValue
    end
  else defaultValue.

(** [/iPad|iPhone|iPod/.test(navigator.userAgent)] *)
Fixpoint mentions_ios (s : string) : bool :=
  startsWith s "iPad" || startsWith s "iPhone" || startsWith s "iPod"
  || match s with EmptyString => false | String _ s => mentions_ios s end.
Definition isMobileSafari (isNodeEnv : bool) (h : host) : bool :=
  if isNodeEnv then false
  else match truthy_str (userAgent h) with
       | None => false
       | Some agent => mentions_ios agent
       end.

(** [['b', 'a'].sort()]: by code units. *)
Definition sort_strings (l : list string) : list string := js_sort String.leb l.

Definition str_le (a b : string) : Prop := String.leb a b = true.

(** How often an id occurs. *)
Definition count (z : string) (l : list string) : nat := length (filter (eq z) l).

(** ** Lemmas *)

Lemma ascii_compare_trans (a b c : Ascii.ascii) (o : comparison) :
  Ascii.compare a b = o -> Ascii.compare b c = o -> Ascii.compare a c = o.
Proof.
  unfold Ascii.compare. destruct o.
  - rewrite !N.compare_eq_iff. congruence.
  - rewrite !N.compare_lt_iff. lia.
  - rewrite !N.compare_gt_iff. lia.
Qed.

Lemma ascii_compare_eq (a b : Ascii.ascii) : Ascii.compare a b = Eq -> a = b.
Proof. apply Ascii.compare_eq_iff. Qed.

Lemma string_compare_refl a : String.compare a a = Eq.
Proof.
  induction a as [|x a IH]; [done|]. simpl. unfold Ascii.compare. by rewrite N.compare_refl.
Qed.

Lemma string_compare_eq a b : String.compare a b = Eq <-> a = b.
Proof. split; [apply String.compare_eq_iff|]. intros ->. apply string_compare_refl. Qed.

Lemma string_lt_trans a b c :
  String.compare a b = Lt -> String.compare b c = Lt -> String.compare a c = Lt.
Proof.
  revert b c. induction a as [|x a IH]; intros [|y b] [|z c]; simpl; try done.
  destruct (Ascii.compare x y) eqn:Hxy; try done; destruct (Ascii.compare y z) eqn:Hyz; try done; intros.
  - by rewrite (ascii_compare_trans _ _ _ _ Hxy Hyz), (IH b c).
  - by rewrite (ascii_compare_eq _ _ Hxy), Hyz.
  - by rewrite <- (ascii_compare_eq _ _ Hyz), Hxy.
  - by rewrite (ascii_compare_trans _ _ _ _ Hxy Hyz).
Qed.

Lemma str_ltb_lt a b : String.ltb a b = true <-> String.compare a b = Lt.
Proof. unfold String.ltb. by destruct (String.compare a b). Qed.

Lemma str_le_alt a b : str_le a b <-> String.compare a b = Lt \/ a = b.
Proof.
  unfold str_le, String.leb. rewrite <- (string_compare_eq a b).
  destruct (String.compare a b); naive_solver.
Qed.

Lemma str_ltb_antisym a b : String.compare a b = Lt -> String.compare b a = Lt -> False.
Proof.
  intros H1 H2. pose proof (string_lt_trans _ _ _ H1 H2) as H.
  by rewrite string_compare_refl in H.
Qed.

Lemma str_leb_total a b : String.leb a b = true \/ String.leb b a = true.
Proof.
  unfold String.leb. rewrite (String.compare_antisym a b).
  destruct (String.compare b a); simpl; auto.
Qed.

#[global] Instance str_le_trans : Transitive str_le.
Proof.
  intros a b c. rewrite !str_le_alt. intros [?| ->] [?| ->]; eauto using string_lt_trans.
Qed.

Lemma sort_strings_sorted l : Sorted str_le (sort_strings l).
Proof. apply js_sort_sorted, str_leb_total. Qed.

Lemma sort_strings_elem z l : z ∈ sort_strings l <-> z ∈ l.
Proof. apply js_sort_elem. Qed.

Lemma count_cons z a l : count z (a :: l) = ((if decide (z = a) then 1 else 0) + count z l)%nat.
Proof. unfold count. rewrite filter_cons. by case_decide. Qed.

Lemma count_not_elem z l : z ∉ l -> count z l = 0%nat.
Proof.
  intros H. induction l as [|a l IH]; [done|]. rewrite count_cons.
  apply not_elem_of_cons in H as [Hne H]. rewrite decide_False by done. auto.
Qed.

(** The head of a sorted list bounds it from below. *)
Lemma sorted_count_lt z a l :
  Sorted str_le (a :: l) -> String.compare z a = Lt -> count z (a :: l) = 0%nat.
Proof.
  intros Hs Hz. apply count_not_elem.
  apply Sorted_StronglySorted in Hs; [|apply _].
  apply StronglySorted_inv in Hs as [_ Hall]. rewrite Forall_forall in Hall.
  intros [->|Hin]%elem_of_cons; [by rewrite string_compare_refl in Hz|].
  apply Hall, str_le_alt in Hin as [Hlt| ->]; eauto using str_ltb_antisym.
Qed.

Lemma removeCommon_count x y z :
  Sorted str_le x -> Sorted str_le y ->
  count z (removeCommon x y) = (count z x - count z y)%nat.
Proof.
  revert y. induction x as [|a x IHx]; intros y; [by destruct y|].
  induction y as [|b y IHy]; intros Hx Hy.
  { simpl. change (count z []) with 0%nat. lia. }
  simpl. destruct (String.ltb a b) eqn:Hab.
  { apply str_ltb_lt in Hab. inversion Hx; subst. rewrite !count_cons, IHx by done.
    rewrite <- (count_cons z b y). case_decide; [|lia]. subst.
    rewrite (sorted_count_lt a b y) by done. lia. }
  destruct (String.ltb b a) eqn:Hba.
  { apply str_ltb_lt in Hba. inversion Hy; subst. simpl in IHy. rewrite IHy by done.
    rewrite (count_cons z b y). case_decide; [|lia]. subst.
    rewrite (sorted_count_lt b a x) by done. lia. }
  assert (a = b) as ->.
  { destruct (str_leb_total a b) as [H|H]; apply str_le_alt in H as [H|H]; try done;
      apply str_ltb_lt in H; congruence. }
  inversion Hx; inversion Hy; subst. rewrite IHx, !count_cons by done. lia.
Qed.

Lemma removeCommon_head x y a l :
  removeCommon x y = a :: l -> a ∈ x.
Proof.
  revert y a l. induction x as [|b x IHx]; intros y a l; [by destruct y|].
  induction y as [|c y IHy]; simpl; [intros [= -> _]; left|].
  destruct (String.ltb b c); [intros [= -> _]; left|].
  destruct (String.ltb c b); [apply IHy|]. intros H. right. eauto.
Qed.

Lemma removeCommon_sorted x y : Sorted str_le x -> Sorted str_le (removeCommon x y).
Proof.
  revert y. induction x as [|a x IHx]; intros y Hx; [by destruct y|].
  induction y as [|b y IHy]; [done|]. inversion Hx as [|? ? Hx' Hhd]; subst. simpl.
  destruct (String.ltb a b); [|by destruct (String.ltb b a); auto].
  constructor; [auto|]. destruct (removeCommon x (b :: y)) as [|c l] eqn:Hr; constructor.
  apply removeCommon_head in Hr. apply Sorted_StronglySorted in Hx; [|apply _].
  apply StronglySorted_inv in Hx as [_ Hall]. rewrite Forall_forall in Hall. auto.
Qed.

Lemma count_sort z l : count z (sort_strings l) = count z l.
Proof.
  unfold count, sort_strings. apply Permutation_length. by rewrite js_sort_perm.
Qed.

(** [safeSet] sets what it is asked to and nothing else, and never the keys that reach
    the prototype of an object. *)
Lemma safeSet_spec {V} (obj obj' : jsmap V) prop value : safeSet obj prop value = Ok obj' ->
  unsafeProp prop = false /\ jm_get prop obj' = Some value /\ forall k, k <> prop -> jm_get k obj' = jm_get k obj.
Proof.
  unfold safeSet. destruct (unsafeProp prop); [done|]. intros [= <-]. split_and!; [done|apply jm_get_set_eq|].
  intros k Hk. by apply jm_get_set_ne.
Qed.
