(* ===== verification/MembershipState.v ===== *)
(** * Confirmed and pending memberships
    (core/sdk/src/streamStateView_Members_Membership.ts) *)

From S2P Require Import Prelude Proto Types.

Record t := mk {
  streamId : string;
  joinedUsers : gset string;
  invitedUsers : gset string;
  leftUsers : gset string;
  pendingJoinedUsers : gset string;
  pendingInvitedUsers : gset string;
  pendingLeftUsers : gset string;
  pendingMembershipEvents : gmap string Membership;
}.

Definition new (streamId : string) : t := mk streamId ∅ ∅ ∅ ∅ ∅ ∅ ∅.

Definition set_joinedUsers f s := mk (streamId s) (f (joinedUsers s)) (invitedUsers s) (leftUsers s)
  (pendingJoinedUsers s) (pendingInvitedUsers s) (pendingLeftUsers s) (pendingMembershipEvents s).
Definition set_invitedUsers f s := mk (streamId s) (joinedUsers s) (f (invitedUsers s)) (leftUsers s)
  (pendingJoinedUsers s) (pendingInvitedUsers s) (pendingLeftUsers s) (pendingMembershipEvents s).
Definition set_leftUsers f s := mk (streamId s) (joinedUsers s) (invitedUsers s) (f (leftUsers s))
  (pendingJoinedUsers s) (pendingInvitedUsers s) (pendingLeftUsers s) (pendingMembershipEvents s).
Definition set_pendingJoinedUsers f s := mk (streamId s) (joinedUsers s) (invitedUsers s) (leftUsers s)
  (f (pendingJoinedUsers s)) (pendingInvitedUsers s) (pendingLeftUsers s) (pendingMembershipEvents s).
Definition set_pendingInvitedUsers f s := mk (streamId s) (joinedUsers s) (invitedUsers s) (leftUsers s)
  (pendingJoinedUsers s) (f (pendingInvitedUsers s)) (pendingLeftUsers s) (pendingMembershipEvents s).
Definition set_pendingLeftUsers f s := mk (streamId s) (joinedUsers s) (invitedUsers s) (leftUsers s)
  (pendingJoinedUsers s) (pendingInvitedUsers s) (f (pendingLeftUsers s)) (pendingMembershipEvents s).
Definition set_pendingMembershipEvents f s := mk (streamId s) (joinedUsers s) (invitedUsers s)
  (leftUsers s) (pendingJoinedUsers s) (pendingInvitedUsers s) (pendingLeftUsers s)
  (f (pendingMembershipEvents s)).

Definition isMemberJoined (s : t) (userId : string) : bool := bool_decide (userId ∈ joinedUsers s).

Definition isMember (s : t) (membership : MembershipOp) (userId : string) : bool :=
  match membership with
  | SO_INVITE => bool_decide (userId ∈ invitedUsers s)
  | SO_JOIN => bool_decide (userId ∈ joinedUsers s)
  | SO_LEAVE => negb (bool_decide (userId ∈ invitedUsers s)) && negb (bool_decide (userId ∈ joinedUsers s))
  | SO_UNSPECIFIED => false
  | SO_UNRECOGNIZED _ => false
  end.

Definition participants (s : t) : gset string := joinedUsers s ∪ invitedUsers s ∪ leftUsers s.
Definition joinedParticipants (s : t) : gset string := joinedUsers s.
Definition joinedOrInvitedParticipants (s : t) : gset string := joinedUsers s ∪ invitedUsers s.

Definition emitMembershipChange (userId : string) (stateEmitter : bool) (streamId : string) : SM t unit :=
  js_emit stateEmitter (streamMembershipUpdated streamId userId).

Inductive apply_type := Apply_pending | Apply_confirmed.

(** [Set.prototype.add] returns the set, which is truthy, so the branches
    guarded by [add] always run. *)
Definition applyMembershipEvent (userId : string) (op : MembershipOp) (type : apply_type)
    (stateEmitter : bool) : SM t unit :=
  self ← js_get;
  match op with
  | SO_INVITE =>
      match type with
      | Apply_confirmed =>
          js_modify (set_pendingInvitedUsers (.∖ {[userId]}));;
          js_modify (set_invitedUsers ({[userId]} ∪.));;
          js_emit stateEmitter (streamNewUserInvited (streamId self) userId);;
          emitMembershipChange userId stateEmitter (streamId self)
      | Apply_pending =>
          js_modify (set_pendingInvitedUsers ({[userId]} ∪.));;
          js_emit stateEmitter (streamPendingMembershipUpdated (streamId self) userId)
      end
  | SO_JOIN =>
      match type with
      | Apply_confirmed =>
          js_modify (set_pendingJoinedUsers (.∖ {[userId]}));;
          js_modify (set_joinedUsers ({[userId]} ∪.));;
          js_emit stateEmitter (streamNewUserJoined (streamId self) userId);;
          emitMembershipChange userId stateEmitter (streamId self)
      | Apply_pending =>
          js_modify (set_pendingJoinedUsers ({[userId]} ∪.));;
          js_emit stateEmitter (streamPendingMembershipUpdated (streamId self) userId)
      end
  | SO_LEAVE =>
      match type with
      | Apply_confirmed =>
          let wasJoined := bool_decide (userId ∈ joinedUsers self) in
          let wasInvited := bool_decide (userId ∈ invitedUsers self) in
          js_modify (set_joinedUsers (.∖ {[userId]}));;
          js_modify (set_invitedUsers (.∖ {[userId]}));;
          js_modify (set_pendingLeftUsers (.∖ {[userId]}));;
          js_modify (set_leftUsers ({[userId]} ∪.));;
          js_when (wasJoined || wasInvited)
            (js_emit stateEmitter (streamUserLeft (streamId self) userId);;
             emitMembershipChange userId stateEmitter (streamId self))
      | Apply_pending =>
          js_modify (set_pendingLeftUsers ({[userId]} ∪.));;
          js_emit stateEmitter (streamPendingMembershipUpdated (streamId self) userId)
      end
  | SO_UNSPECIFIED => js_return
  | SO_UNRECOGNIZED _ => js_return
  end.

(** ** Abstract specification: one small automaton per user *)

Record status := mkStatus { st_joined : bool; st_invited : bool; st_left : bool }.

Definition status_step (st : status) (op : MembershipOp) : status :=
  match op with
  | SO_INVITE => mkStatus (st_joined st) true (st_left st)
  | SO_JOIN => mkStatus true (st_invited st) (st_left st)
  | SO_LEAVE => mkStatus false false true
  | _ => st
  end.

Definition status_of (s : t) (u : string) : status :=
  mkStatus (bool_decide (u ∈ joinedUsers s)) (bool_decide (u ∈ invitedUsers s))
    (bool_decide (u ∈ leftUsers s)).

(** The operations of [u] in a log of confirmed membership events. *)
Definition ops_of (u : string) (log : list (string * MembershipOp)) : list MembershipOp :=
  map snd (filter (fun p => p.1 = u) log).

Definition apply_log (log : list (string * MembershipOp)) (stateEmitter : bool) : SM t unit :=
  js_for log (fun p => applyMembershipEvent p.1 p.2 Apply_confirmed stateEmitter).

(** The last JOIN or LEAVE decides whether a user is joined. *)
Fixpoint last_join_leave (ops : list MembershipOp) (before : bool) : bool :=
  match ops with
  | [] => before
  | SO_JOIN :: ops => last_join_leave ops true
  | SO_LEAVE :: ops => last_join_leave ops false
  | _ :: ops => last_join_leave ops before
  end.

(** ** Lemmas *)

Ltac decide_sets :=
  repeat match goal with
  | |- context [bool_decide ?P] => destruct (decide P); [rewrite (bool_decide_true P) by done
                                                        |rewrite (bool_decide_false P) by done]
  end.

Lemma applyMembershipEvent_total userId op type em :
  total (applyMembershipEvent userId op type em).
Proof.
  intros s. destruct op, type; unfold applyMembershipEvent, emitMembershipChange; js_simpl; eauto.
  destruct (_ || _); simpl; eauto.
Qed.

Lemma status_of_confirmed s u v op em :
  status_of (post (applyMembershipEvent u op Apply_confirmed em s)) v
  = if decide (u = v) then status_step (status_of s v) op else status_of s v.
Proof.
  unfold status_of, applyMembershipEvent, emitMembershipChange.
  destruct op; js_simpl; try (by case_decide).
  3: destruct (_ || _); simpl.
  all: case_decide; subst; unfold status_step; simpl; f_equal;
    (apply bool_decide_ext || (apply bool_decide_eq_true; set_solver)
     || (apply bool_decide_eq_false; set_solver)); set_solver.
Qed.

Lemma confirmed_pending s u op em :
  let s' := post (applyMembershipEvent u op Apply_confirmed em s) in
  pendingMembershipEvents s' = pendingMembershipEvents s
  /\ match op with
     | SO_INVITE => u ∉ pendingInvitedUsers s'
     | SO_JOIN => u ∉ pendingJoinedUsers s'
     | SO_LEAVE => u ∉ pendingLeftUsers s'
     | _ => True
     end.
Proof.
  unfold applyMembershipEvent, emitMembershipChange.
  destruct op; js_simpl; try done.
  3: destruct (_ || _); simpl.
  all: split; [done|set_solver].
Qed.

Lemma joined_fold ops st :
  st_joined (fold_left status_step ops st) = last_join_leave ops (st_joined st).
Proof. revert st. induction ops as [|[] ops IH]; intros st; simpl; by rewrite ?IH. Qed.

Lemma apply_log_status log em s u :
  status_of (post (apply_log log em s)) u = fold_left status_step (ops_of u log) (status_of s u).
Proof.
  revert s. induction log as [|[v op] log IH]; intros s; [done|].
  unfold apply_log. simpl js_for.
  destruct (applyMembershipEvent_total v op Apply_confirmed em s) as [[] Hr].
  rewrite (emits_bind_total _ _ _ _ Hr). simpl.
  fold (apply_log log em). rewrite IH, status_of_confirmed.
  unfold ops_of. rewrite filter_cons. simpl. by repeat case_decide.
Qed.

(** C10: applying any log of confirmed membership events to any membership state
    completes without throwing and takes every user exactly through that user's
    own automaton, whatever the interleaving with the events of other users. *)
Theorem apply_log_refines log em s u :
  res (apply_log log em s) = Ok tt
  /\ status_of (post (apply_log log em s)) u
     = fold_left status_step (ops_of u log) (status_of s u).
Proof.
  split; [|apply apply_log_status].
  destruct (total_for log (fun p => applyMembershipEvent p.1 p.2 Apply_confirmed em)
    (fun p => applyMembershipEvent_total _ _ _ _) s) as [[] H]. exact H.
Qed.

(** After a log of confirmed events a user counts as joined exactly when the
    last JOIN or LEAVE of that user is a JOIN (or, with neither in the log, when
    the user was joined before). *)
Theorem joined_iff_last_join_leave log em s u :
  isMember (post (apply_log log em s)) SO_JOIN u
  = last_join_leave (ops_of u log) (isMember s SO_JOIN u).
Proof.
  pose proof (apply_log_status log em s u) as H.
  apply (f_equal st_joined) in H. by rewrite joined_fold in H.
Qed.

(** A repeated confirmed JOIN of a user that is already joined announces the
    user as new again, and the membership as changed. *)
Theorem join_announced_again s u :
  emits (applyMembershipEvent u SO_JOIN Apply_confirmed true s)
  = [streamNewUserJoined (streamId s) u; streamMembershipUpdated (streamId s) u].
Proof. done. Qed.
