(* ===== verification/Solicitations.v ===== *)
(** * Key solicitations of a member
    (core/sdk/src/streamStateView_Members_Solicitations.ts, and the [StreamMember]
    object of streamStateView_Members.ts that its methods update) *)

From S2P Require Import Prelude Proto Externals Types SdkUtils.

Record StreamMember := mkStreamMember {
  userId : string;
  userAddress : bytes;
  miniblockNum : option Z;
  eventNum : option Z;
  solicitations : list KeySolicitationContent;
  encryptedUsername : option WrappedEncryptedData;
  encryptedDisplayName : option WrappedEncryptedData;
  ensAddress : option bytes;
  nft : option Nft;
}.

Definition set_solicitations (v : list KeySolicitationContent) (m : StreamMember) : StreamMember :=
  mkStreamMember (userId m) (userAddress m) (miniblockNum m) (eventNum m) v
    (encryptedUsername m) (encryptedDisplayName m) (ensAddress m) (nft m).
Definition set_encryptedUsername (v : option WrappedEncryptedData) (m : StreamMember) : StreamMember :=
  mkStreamMember (userId m) (userAddress m) (miniblockNum m) (eventNum m) (solicitations m)
    v (encryptedDisplayName m) (ensAddress m) (nft m).
Definition set_encryptedDisplayName (v : option WrappedEncryptedData) (m : StreamMember) : StreamMember :=
  mkStreamMember (userId m) (userAddress m) (miniblockNum m) (eventNum m) (solicitations m)
    (encryptedUsername m) v (ensAddress m) (nft m).
Definition set_position (mbNum evNum : option Z) (m : StreamMember) : StreamMember :=
  mkStreamMember (userId m) (userAddress m) mbNum evNum (solicitations m)
    (encryptedUsername m) (encryptedDisplayName m) (ensAddress m) (nft m).

Definition content_of_solicitation (s : KeySolicitation) : KeySolicitationContent :=
  mkKeySolicitationContent (ks_deviceKey s) (ks_fallbackKey s) (ks_isNewDevice s) (ks_sessionIds s).

Definition initSolicitations {S} (streamId : string) (members : list StreamMember)
    (encryptionEmitter : bool) : SM S unit :=
  js_for members (fun member =>
    js_for (solicitations member) (fun event =>
      js_emit encryptionEmitter
        (newKeySolicitation streamId (userId member) (userAddress member) event))).

(** [sessionIds.sort()] sorts the array of the received message in place: the
    message as it is left is the result. *)
Definition applySolicitation (streamId : string) (solicitation : KeySolicitation)
    (encryptionEmitter : bool) : SM StreamMember KeySolicitation :=
  js_modify (fun user => set_solicitations
    (List.filter (fun x => negb (String.eqb (ksc_deviceKey x) (ks_deviceKey solicitation)))
       (solicitations user)) user);;
  let solicitation := mkKeySolicitation (ks_deviceKey solicitation) (ks_fallbackKey solicitation)
    (ks_isNewDevice solicitation) (sort_strings (ks_sessionIds solicitation)) in
  js_modify (fun user => set_solicitations
    (solicitations user ++ [content_of_solicitation solicitation]) user);;
  user ← js_get;
  js_emit encryptionEmitter
    (newKeySolicitation streamId (userId user) (userAddress user)
       (content_of_solicitation solicitation));;
  mret solicitation.

(** [arr.findIndex(f)]; [None] is [-1]. *)
Fixpoint findIndex {A} (f : A -> bool) (l : list A) : option nat :=
  match l with
  | [] => None
  | x :: l => if f x then Some 0%nat else S <$> findIndex f l
  end.

Definition applyFulfillment (streamId : string) (fulfillment : KeyFulfillment)
    (encryptionEmitter : bool) : SM StreamMember KeyFulfillment :=
  user ← js_get;
  match findIndex (fun x => String.eqb (ksc_deviceKey x) (kf_deviceKey fulfillment))
          (solicitations user) with
  | None => mret fulfillment
  | Some index =>
      match solicitations user !! index with
      | None => mret fulfillment
      | Some prev =>
          let fulfillment := mkKeyFulfillment (kf_userAddress fulfillment)
            (kf_deviceKey fulfillment) (sort_strings (kf_sessionIds fulfillment)) in
          let newEvent := mkKeySolicitationContent (ksc_deviceKey prev) (ksc_fallbackKey prev)
            false (removeCommon (ksc_sessionIds prev) (kf_sessionIds fulfillment)) in
          js_modify (set_solicitations (<[index := newEvent]> (solicitations user)));;
          js_emit encryptionEmitter
            (updatedKeySolicitation streamId (userId user) (userAddress user) newEvent);;
          mret fulfillment
      end
  end.

(** ** Specification *)

(** The solicitation a member has open for a device. *)
Definition open_solicitation (deviceKey : string) (m : StreamMember) : option KeySolicitationContent :=
  List.find (fun x => String.eqb (ksc_deviceKey x) deviceKey) (solicitations m).

(** At most one solicitation per device, session ids sorted. *)
Definition solicitations_wf (m : StreamMember) : Prop :=
  NoDup (map ksc_deviceKey (solicitations m))
  /\ Forall (fun x => Sorted str_le (ksc_sessionIds x)) (solicitations m).

(** ** Lemmas *)

Lemma findIndex_lookup {A} (f : A -> bool) l i :
  findIndex f l = Some i -> exists x, l !! i = Some x /\ f x = true /\ List.find f l = Some x.
Proof.
  revert i. induction l as [|y l IH]; intros i; simpl; [done|].
  destruct (f y) eqn:Hy; [intros [= <-]; eauto|].
  destruct (findIndex f l) as [j|]; simpl; [|done]. intros [= <-]. by apply IH.
Qed.

Lemma findIndex_None {A} (f : A -> bool) l : findIndex f l = None <-> List.find f l = None.
Proof.
  induction l as [|y l IH]; simpl; [done|]. destruct (f y); [done|].
  rewrite <- IH. by destruct (findIndex f l).
Qed.

(** What [findIndex] found, replaced by an element with the same key. *)
Lemma find_insert {A} (key : A -> string) k l i (y : A) :
  findIndex (fun x => String.eqb (key x) k) l = Some i -> key y = k ->
  forall d, List.find (fun x => String.eqb (key x) d) (<[i := y]> l)
    = if decide (d = k) then Some y else List.find (fun x => String.eqb (key x) d) l.
Proof.
  intros Hi Hy d. revert i Hi. induction l as [|x l IH]; intros i; simpl; [done|].
  destruct (String.eqb_spec (key x) k) as [Hx|Hx].
  - intros [= <-]. simpl. rewrite Hy, Hx. rewrite String.eqb_sym. 
    destruct (String.eqb_spec d k); case_decide; congruence.
  - destruct (findIndex _ l) as [j|] eqn:Hj; simpl; [|done]. intros [= <-]. simpl.
    destruct (String.eqb_spec (key x) d) as [Hd|Hd].
    + rewrite decide_False; [done|congruence].
    + by apply IH.
Qed.

Lemma map_insert_same {A B} (f : A -> B) (l : list A) i y x :
  l !! i = Some x -> f y = f x -> map f (<[i := y]> l) = map f l.
Proof.
  revert i. induction l as [|z l IH]; intros [|i]; simpl; try done.
  - intros [= ->] ->. done.
  - intros Hi Hf. f_equal. by apply IH.
Qed.

Lemma find_filter_other {A} (key : A -> string) k d l :
  d <> k ->
  List.find (fun x => String.eqb (key x) d)
    (List.filter (fun x => negb (String.eqb (key x) k)) l)
  = List.find (fun x => String.eqb (key x) d) l.
Proof.
  intros Hne. induction l as [|x l IH]; simpl; [done|].
  destruct (String.eqb_spec (key x) k) as [Hk|Hk]; simpl; rewrite IH; [|done].
  destruct (String.eqb_spec (key x) d); congruence.
Qed.

Lemma find_filter_same {A} (key : A -> string) k l :
  List.find (fun x => String.eqb (key x) k)
    (List.filter (fun x => negb (String.eqb (key x) k)) l) = None.
Proof.
  induction l as [|x l IH]; simpl; [done|].
  destruct (String.eqb (key x) k) eqn:Hk; simpl; [done|]. by rewrite Hk.
Qed.

Lemma find_app {A} (f : A -> bool) l1 l2 :
  List.find f (l1 ++ l2) = match List.find f l1 with Some x => Some x | None => List.find f l2 end.
Proof. induction l1 as [|x l1 IH]; simpl; [done|]. by destruct (f x). Qed.

Lemma list_filter_elem {A} (f : A -> bool) l x : x ∈ List.filter f l <-> x ∈ l /\ f x = true.
Proof. rewrite !list_elem_of_In. apply filter_In. Qed.

Lemma filter_keys_NoDup {A} (key : A -> string) f (l : list A) :
  NoDup (map key l) -> NoDup (map key (List.filter f l)).
Proof.
  induction l as [|x l IH]; simpl; [done|]. intros [Hx Hl]%NoDup_cons.
  destruct (f x); simpl; [|auto]. apply NoDup_cons. split; [|auto].
  intros Hin. apply Hx. apply list_elem_of_fmap in Hin as (y & Hy & Hin).
  apply list_filter_elem in Hin as [Hin _]. rewrite Hy. by apply list_elem_of_fmap_2.
Qed.

(** A solicitation replaces whatever the device had asked for before with the
    sorted new request, leaves the requests of the other devices alone, keeps one
    request per device, and announces exactly the request it stored. *)
Theorem applySolicitation_spec streamId sol m :
  solicitations_wf m ->
  let o := applySolicitation streamId sol true m in
  let stored := mkKeySolicitationContent (ks_deviceKey sol) (ks_fallbackKey sol)
                  (ks_isNewDevice sol) (sort_strings (ks_sessionIds sol)) in
  solicitations_wf (post o)
  /\ emits o = [newKeySolicitation streamId (userId m) (userAddress m) stored]
  /\ forall d, open_solicitation d (post o)
       = if decide (d = ks_deviceKey sol) then Some stored else open_solicitation d m.
Proof.
  intros [Hnd Hs]. unfold applySolicitation. js_simpl. repeat split.
  - simpl. rewrite map_app. apply NoDup_app. repeat split; [by apply filter_keys_NoDup| |apply NoDup_singleton].
    intros k Hk [Heq|[]%elem_of_nil]%elem_of_cons. simpl in Heq. subst.
    apply list_elem_of_fmap in Hk as (y & Hy & Hin). apply list_filter_elem in Hin as [_ Hne].
    rewrite <- Hy, String.eqb_refl in Hne. done.
  - simpl. apply Forall_app. split; [|repeat constructor; apply sort_strings_sorted].
    apply Forall_forall. intros x [Hx _]%list_filter_elem. rewrite Forall_forall in Hs. auto.
  - intros d. unfold open_solicitation. simpl. rewrite find_app. case_decide; subst.
    + rewrite find_filter_same. simpl. by rewrite String.eqb_refl.
    + rewrite find_filter_other by done. simpl. destruct (List.find _ _); [done|].
      destruct (String.eqb_spec (ks_deviceKey sol) d); congruence.
Qed.

(** A fulfillment takes from the open request of its device each fulfilled
    session id as often as it was fulfilled, clears the new-device flag and keeps
    the other devices and the sorting; without an open request nothing changes. *)
Theorem applyFulfillment_spec streamId ful m :
  solicitations_wf m ->
  let o := applyFulfillment streamId ful true m in
  solicitations_wf (post o)
  /\ (forall d, d <> kf_deviceKey ful -> open_solicitation d (post o) = open_solicitation d m)
  /\ match open_solicitation (kf_deviceKey ful) m with
     | None => post o = m /\ emits o = []
     | Some prev => exists new,
         open_solicitation (kf_deviceKey ful) (post o) = Some new
         /\ emits o = [updatedKeySolicitation streamId (userId m) (userAddress m) new]
         /\ ksc_isNewDevice new = false /\ ksc_fallbackKey new = ksc_fallbackKey prev
         /\ forall z, count z (ksc_sessionIds new)
                      = (count z (ksc_sessionIds prev) - count z (kf_sessionIds ful))%nat
     end.
Proof.
  intros [Hnd Hs]. unfold applyFulfillment, open_solicitation. js_simpl.
  destruct (findIndex _ _) as [i|] eqn:Hi; simpl.
  2: { apply findIndex_None in Hi. rewrite Hi. by repeat split. }
  destruct (findIndex_lookup _ _ _ Hi) as (prev & Hl & Hk & Hf). rewrite Hf, Hl. simpl.
  apply String.eqb_eq in Hk.
  set (new := mkKeySolicitationContent _ _ _ _).
  pose proof (find_insert ksc_deviceKey _ _ _ new Hi Hk) as Hfind.
  rewrite Forall_forall in Hs. pose proof (Hs prev (list_elem_of_lookup_2 _ _ _ Hl)) as Hsp.
  repeat split.
  - simpl. by erewrite map_insert_same.
  - simpl. apply Forall_insert; [by apply Forall_forall|]. by apply removeCommon_sorted.
  - intros d Hd. rewrite Hfind. by rewrite decide_False.
  - exists new. rewrite Hfind, decide_True by done. repeat split. intros z. simpl.
    rewrite removeCommon_count by (done || apply sort_strings_sorted).
    by rewrite count_sort.
Qed.

Definition demo_member (ids : list string) : StreamMember :=
  mkStreamMember "alice" [] None None [mkKeySolicitationContent "dev" "fb" true ids] None None None None.

Lemma demo_member_wf : solicitations_wf (demo_member ["a"; "b"; "b"]).
Proof.
  split; [apply NoDup_singleton|]. repeat constructor; apply (bool_decide_unpack _); vm_compute; done.
Qed.

Lemma applySolicitation_spec_witness :
  open_solicitation "dev" (post (applySolicitation "s" (mkKeySolicitation "dev" "fb2" false ["z"; "y"]) true
    (demo_member ["a"; "b"; "b"])))
  = Some (mkKeySolicitationContent "dev" "fb2" false ["y"; "z"]).
Proof.
  destruct (applySolicitation_spec "s" (mkKeySolicitation "dev" "fb2" false ["z"; "y"])
    (demo_member ["a"; "b"; "b"]) demo_member_wf) as (_ & _ & Hd).
  exact (Hd "dev").
Defined.

Lemma applyFulfillment_spec_witness :
  exists new, open_solicitation "dev" (post (applyFulfillment "s"
      (mkKeyFulfillment [] "dev" ["c"; "b"]) true (demo_member ["a"; "b"; "b"]))) = Some new
    /\ forall z, count z (ksc_sessionIds new) = (count z ["a"; "b"; "b"] - count z ["c"; "b"])%nat.
Proof.
  destruct (applyFulfillment_spec "s" (mkKeyFulfillment [] "dev" ["c"; "b"])
    (demo_member ["a"; "b"; "b"]) demo_member_wf) as (_ & _ & new & H1 & _ & _ & _ & H2).
  exists new. split; [exact H1|exact H2].
Defined.
