(* ===== verification/Usernames.v ===== *)
(** * Usernames of a stream (core/sdk/src/userMetadata_Usernames.ts)

    A user claims a username by the checksum of its text; a checksum that is
    taken cannot be claimed by anyone else. *)

From S2P Require Import Prelude Proto Externals ToyExternals Binary StreamId Types.

Record entry := mkEntry {
  encryptedData : EncryptedData;
  userId : string;
  pending : bool;
}.

Record t := mk {
  streamId : string;
  plaintextUsernames : gmap string string;
  userIdToEventId : gmap string string;
  confirmedUserIds : gset string;
  usernameEvents : gmap string entry;
  checksums : gset string;
}.

Definition new (streamId : string) : t := mk streamId ∅ ∅ ∅ ∅ ∅.

Definition set_plaintextUsernames f s := mk (streamId s) (f (plaintextUsernames s))
  (userIdToEventId s) (confirmedUserIds s) (usernameEvents s) (checksums s).
Definition set_userIdToEventId f s := mk (streamId s) (plaintextUsernames s)
  (f (userIdToEventId s)) (confirmedUserIds s) (usernameEvents s) (checksums s).
Definition set_confirmedUserIds f s := mk (streamId s) (plaintextUsernames s)
  (userIdToEventId s) (f (confirmedUserIds s)) (usernameEvents s) (checksums s).
Definition set_usernameEvents f s := mk (streamId s) (plaintextUsernames s)
  (userIdToEventId s) (confirmedUserIds s) (f (usernameEvents s)) (checksums s).
Definition set_checksums f s := mk (streamId s) (plaintextUsernames s)
  (userIdToEventId s) (confirmedUserIds s) (usernameEvents s) (f (checksums s)).

Definition setLocalUsername (userId username : string) (emitter : bool) : SM t unit :=
  self ← js_get;
  js_modify (set_plaintextUsernames (insert userId username));;
  js_emit emitter (streamPendingUsernameUpdated (streamId self) userId).

Definition resetLocalUsername (userId : string) (emitter : bool) : SM t unit :=
  self ← js_get;
  js_modify (set_plaintextUsernames (delete userId));;
  js_emit emitter (streamPendingUsernameUpdated (streamId self) userId).

Definition usernameAvailable (s : t) (checksum : string) : bool :=
  negb (bool_decide (checksum ∈ checksums s)).

Definition emitUsernameUpdated (eventId : string) (emitter : bool) : SM t unit :=
  self ← js_get;
  match usernameEvents self !! eventId with
  | None => js_return
  | Some event =>
      if negb (is_defined (plaintextUsernames self !! userId event)) then js_return
      else js_emit emitter
             (if pending event
              then streamPendingUsernameUpdated (streamId self) (userId event)
              else streamUsernameUpdated (streamId self) (userId event))
  end.

Definition removeUsernameEventForUserId (userId : string) : SM t unit :=
  self ← js_get;
  match truthy_str (userIdToEventId self !! userId) with
  | None => js_return
  | Some eventId =>
      match usernameEvents self !! eventId with
      | None => js_return
      | Some event =>
          js_modify (set_checksums (.∖ {[default "" (ed_checksum (encryptedData event))]}));;
          js_modify (set_usernameEvents (delete eventId))
      end
  end.

Definition addUsernameEventForUserId (userId eventId : string) (encryptedData : EncryptedData)
    (pending : bool) : SM t unit :=
  match truthy_str (ed_checksum encryptedData) with
  | None => js_return
  | Some checksum =>
      js_modify (set_userIdToEventId (insert userId eventId));;
      js_modify (set_checksums ({[checksum]} ∪.));;
      js_modify (set_usernameEvents (insert eventId (mkEntry encryptedData userId pending)))
  end.

Definition addEncryptedData (eventId : string) (encryptedData : EncryptedData) (userId : string)
    (pending : bool) (cleartext : option string) (encryptionEmitter stateEmitter : bool)
    : SM t unit :=
  self ← js_get;
  match truthy_str (ed_checksum encryptedData) with
  | None => js_return
  | Some checksum =>
      if negb (usernameAvailable self checksum) then js_return
      else
        removeUsernameEventForUserId userId;;
        addUsernameEventForUserId userId eventId encryptedData pending;;
        match truthy_str cleartext with
        | Some cleartext => js_modify (set_plaintextUsernames (insert userId cleartext))
        | None =>
            js_modify (set_plaintextUsernames (delete userId));;
            js_emit encryptionEmitter (newEncryptedContent (streamId self) eventId
              (mkEncryptedContent Kind_text encryptedData))
        end;;
        js_when (negb pending) (js_modify (set_confirmedUserIds ({[userId]} ∪.)));;
        emitUsernameUpdated eventId stateEmitter
  end.

Definition onConfirmEvent (eventId : string) (emitter : bool) : SM t unit :=
  self ← js_get;
  match usernameEvents self !! eventId with
  | None => js_return
  | Some event =>
      js_modify (set_usernameEvents
        (insert eventId (mkEntry (encryptedData event) (userId event) false)));;
      js_modify (set_confirmedUserIds ({[userId event]} ∪.));;
      js_when (is_defined (plaintextUsernames self !! userId event))
        (emitUsernameUpdated eventId emitter)
  end.

Definition onDecryptedContent `{Externals} (eventId content : string) (emitter : bool) : SM t unit :=
  self ← js_get;
  match usernameEvents self !! eventId with
  | None => js_return
  | Some event =>
      match truthy_str (ed_checksum (encryptedData event)) with
      | None => js_return
      | Some checksum =>
          let calculatedChecksum := usernameChecksum content (streamId self) in
          if negb (String.eqb checksum calculatedChecksum) then js_return
          else
            js_modify (set_plaintextUsernames (insert (userId event) content));;
            emitUsernameUpdated eventId emitter
      end
  end.

Definition cleartextUsernameAvailable `{Externals} (s : t) (username : string) : bool :=
  usernameAvailable s (usernameChecksum username (streamId s)).

Record usernameInfo := mkInfo {
  username : string;
  usernameConfirmed : bool;
  usernameEncrypted : bool;
}.

Definition info (s : t) (userId : string) : usernameInfo :=
  let name := default "" (plaintextUsernames s !! userId) in
  match truthy_str (userIdToEventId s !! userId) with
  | None => mkInfo name false false
  | Some eventId =>
      let encrypted := is_defined (usernameEvents s !! eventId)
                       && negb (is_defined (plaintextUsernames s !! userId)) in
      mkInfo name (bool_decide (userId ∈ confirmedUserIds s)) encrypted
  end.

(** ** Invariant *)

(** [user_event u e c] : the username event [e] of user [u] claims checksum [c]. *)
Definition claims (s : t) (u e c : string) : Prop :=
  exists ent, usernameEvents s !! e = Some ent /\ userId ent = u
    /\ ed_checksum (encryptedData ent) = Some c.

Record wf (s : t) : Prop := {
  wf_event : forall e ent, usernameEvents s !! e = Some ent ->
    e <> "" /\ userIdToEventId s !! userId ent = Some e
    /\ exists c, ed_checksum (encryptedData ent) = Some c /\ c <> "" /\ c ∈ checksums s;
  wf_user : forall u e, userIdToEventId s !! u = Some e ->
    exists ent, usernameEvents s !! e = Some ent /\ userId ent = u;
  wf_checksum : forall c, c ∈ checksums s -> exists u e, claims s u e c;
  wf_unique : forall u1 e1 u2 e2 c, claims s u1 e1 c -> claims s u2 e2 c -> e1 = e2;
}.

(** One call of a method from outside. A claim comes with the hash of a username
    event that is not in the state yet. *)
Inductive step `{Externals} : t -> t -> Prop :=
| step_addEncryptedData s eventId ed u pend cleartext em1 em2 :
    eventId <> "" -> usernameEvents s !! eventId = None ->
    step s (post (addEncryptedData eventId ed u pend cleartext em1 em2 s))
| step_onConfirmEvent s eventId em : step s (post (onConfirmEvent eventId em s))
| step_onDecryptedContent s eventId content em :
    step s (post (onDecryptedContent eventId content em s))
| step_setLocalUsername s u name em : step s (post (setLocalUsername u name em s))
| step_resetLocalUsername s u em : step s (post (resetLocalUsername u em s)).

(** ** Lemmas *)

Lemma truthy_str_Some o s : truthy_str o = Some s <-> o = Some s /\ s <> "".
Proof.
  destruct o as [x|]; simpl; [|naive_solver].
  destruct (String.eqb_spec x ""); naive_solver.
Qed.

Lemma emitUsernameUpdated_post e em s : post (emitUsernameUpdated e em s) = s.
Proof.
  unfold emitUsernameUpdated. js_simpl. destruct (usernameEvents s !! e); simpl; [|done].
  by destruct (negb _).
Qed.

Lemma wf_new sid : wf (new sid).
Proof.
  split; unfold claims; simpl; try set_solver; intros *; by rewrite ?lookup_empty.
Qed.

(** What [removeUsernameEventForUserId] does to a well-formed state. *)
Lemma remove_spec s u :
  wf s ->
  (userIdToEventId s !! u = None /\ post (removeUsernameEventForUserId u s) = s)
  \/ exists e ent c,
       userIdToEventId s !! u = Some e /\ usernameEvents s !! e = Some ent /\ userId ent = u
       /\ ed_checksum (encryptedData ent) = Some c
       /\ post (removeUsernameEventForUserId u s)
          = set_usernameEvents (delete e) (set_checksums (.∖ {[c]}) s).
Proof.
  intros Hwf. unfold removeUsernameEventForUserId. js_simpl.
  destruct (userIdToEventId s !! u) as [e|] eqn:He; [right|by left].
  destruct (wf_user s Hwf u e He) as (ent & Hent & Hu).
  destruct (wf_event s Hwf e ent Hent) as (Hne & _ & c & Hc & _).
  exists e, ent, c. split_and!; try done. simpl.
  destruct (String.eqb_spec e ""); [done|]. rewrite Hent. simpl. by rewrite Hc.
Qed.

(** The state after a claim: the user's old event and checksum are gone, the new
    ones are in. *)
Definition claimed (s : t) (u e c : string) (ed : EncryptedData) (pend : bool) : t :=
  set_usernameEvents (insert e (mkEntry ed u pend))
    (set_checksums ({[c]} ∪.)
       (set_userIdToEventId (insert u e) (post (removeUsernameEventForUserId u s)))).

Lemma claimed_events s u e c ed pend e' ent' :
  wf s -> usernameEvents (claimed s u e c ed pend) !! e' = Some ent' ->
  (e' = e /\ ent' = mkEntry ed u pend)
  \/ (e' <> e /\ usernameEvents s !! e' = Some ent' /\ userId ent' <> u).
Proof.
  intros Hwf. unfold claimed. simpl. rewrite lookup_insert. case_decide as Hd.
  { intros [= <-]. by left. }
  destruct (remove_spec s u Hwf) as [[Hu ->]|(e0 & ent0 & c0 & Hu & He0 & Hu0 & Hc0 & ->)]; simpl.
  - intros He'. right. split_and!; try done. intros <-.
    destruct (wf_event s Hwf _ _ He') as (_ & Hue & _). congruence.
  - rewrite lookup_delete. case_decide; [done|]. intros He'. right. split_and!; try done.
    intros <-. destruct (wf_event s Hwf _ _ He') as (_ & Hue & _). congruence.
Qed.

Lemma claimed_checksums s u e c ed pend :
  wf s -> forall x, x ∈ checksums (claimed s u e c ed pend) <->
    x = c \/ exists u' e', claims s u' e' x /\ u' <> u.
Proof.
  intros Hwf x. unfold claimed. simpl. rewrite elem_of_union, elem_of_singleton.
  apply or_iff_compat_l.
  destruct (remove_spec s u Hwf) as [[Hu ->]|(e0 & ent0 & c0 & Hu & He0 & Hu0 & Hc0 & ->)]; simpl.
  - split; [|intros (u' & e' & (ent & Hent & ? & Hx) & _)].
    + intros (u' & e' & Hcl)%(wf_checksum s Hwf). exists u', e'. split; [done|]. intros ->.
      destruct Hcl as (ent & Hent & <- & _). destruct (wf_event s Hwf _ _ Hent) as (_ & ? & _). congruence.
    + destruct (wf_event s Hwf _ _ Hent) as (_ & _ & c' & Hc' & _ & Hin). congruence.
  - rewrite elem_of_difference, elem_of_singleton. split.
    + intros [(u' & e' & Hcl)%(wf_checksum s Hwf) Hne]. exists u', e'. split; [done|]. intros ->.
      destruct Hcl as (ent & Hent & Hue & Hx). destruct (wf_event s Hwf _ _ Hent) as (_ & Hq & _).
      rewrite Hue in Hq. congruence.
    + intros (u' & e' & Hcl & Hne). split.
      * destruct Hcl as (ent & Hent & ? & Hx).
        destruct (wf_event s Hwf _ _ Hent) as (_ & _ & c' & Hc' & _ & Hin). congruence.
      * intros ->. assert (e' = e0) as -> by (eapply (wf_unique s Hwf); [done|by exists ent0]).
        destruct Hcl as (ent & Hent & ? & _). congruence.
Qed.

Lemma claimed_wf s u e c ed pend :
  wf s -> e <> "" -> ed_checksum ed = Some c -> c <> "" -> c ∉ checksums s ->
  (forall ent, usernameEvents s !! e = Some ent -> userId ent = u) ->
  wf (claimed s u e c ed pend).
Proof.
  intros Hwf Hne Hc Hcne Hfree Hown.
  assert (Hself : usernameEvents (claimed s u e c ed pend) !! e = Some (mkEntry ed u pend))
    by (unfold claimed; simpl; by rewrite lookup_insert_eq).
  assert (Huser : forall v, userIdToEventId (claimed s u e c ed pend) !! v
                            = if decide (u = v) then Some e else userIdToEventId s !! v).
  { intros v. unfold claimed. simpl. rewrite lookup_insert.
    destruct (remove_spec s u Hwf) as [[_ ->]|(? & ? & ? & _ & _ & _ & _ & ->)]; done. }
  assert (Hother : forall e' ent', e' <> e -> usernameEvents s !! e' = Some ent' -> userId ent' <> u ->
            usernameEvents (claimed s u e c ed pend) !! e' = Some ent').
  { intros e' ent' He' Hent' Hu'. unfold claimed. simpl. rewrite lookup_insert_ne by done.
    destruct (remove_spec s u Hwf) as [[_ ->]|(e0 & ent0 & c0 & Hu & He0 & Hu0 & Hc0 & ->)]; simpl; [done|].
    rewrite lookup_delete_ne; [done|]. intros ->. congruence. }
  split.
  - intros e' ent' [(-> & ->)|(He' & Hent' & Hu')]%claimed_events; [| |done].
    + cbn [userId encryptedData]. rewrite Huser, decide_True by done. split_and!; try done. exists c.
      split_and!; try done. apply claimed_checksums; auto.
    + destruct (wf_event s Hwf _ _ Hent') as (Hn' & Hq & c' & Hc' & Hcn' & Hin).
      rewrite Huser, decide_False by done. split_and!; try done. exists c'.
      split_and!; try done. apply claimed_checksums; [done|]. right.
      exists (userId ent'), e'. split; [by exists ent'|done].
  - intros v e'. rewrite Huser. case_decide; [intros [= <-]; subst; eauto|].
    intros (ent' & Hent' & Hv)%(wf_user s Hwf). exists ent'. split; [|done].
    apply Hother; [|done|congruence]. intros ->. apply Hown in Hent'. congruence.
  - intros x [->|(u' & e' & (ent' & Hent' & Hu' & Hx) & Hne')]%claimed_checksums; [| |done].
    + exists u, e. by exists (mkEntry ed u pend).
    + exists u', e', ent'. split_and!; try done. apply Hother; [|done|congruence].
      intros ->. apply Hown in Hent'. congruence.
  - assert (Hsplit : forall u1 e1 x, claims (claimed s u e c ed pend) u1 e1 x ->
        (e1 = e /\ x = c) \/ (claims s u1 e1 x /\ x <> c)).
    { intros u1 e1 x (ent1 & H1 & Hu1 & Hx1).
      apply claimed_events in H1 as [(-> & ->)|(? & Hs1 & ?)]; [| |done].
      - simpl in Hx1. left. split; congruence.
      - right. split; [by exists ent1|]. intros ->. apply Hfree.
        destruct (wf_event s Hwf _ _ Hs1) as (_ & _ & c' & Hc' & _ & ?). congruence. }
    intros u1 e1 u2 e2 x H1 H2.
    apply Hsplit in H1 as [[-> ->]|[H1 Hx]]; apply Hsplit in H2 as [[? ?]|[H2 Hx2]]; try done.
    by eapply (wf_unique s Hwf).
Qed.

Lemma wf_same_claims s s' :
  usernameEvents s' = usernameEvents s -> userIdToEventId s' = userIdToEventId s ->
  checksums s' = checksums s -> wf s -> wf s'.
Proof.
  intros He Hu Hc [H1 H2 H3 H4]. split; unfold claims in *; rewrite ?He, ?Hu, ?Hc; done.
Qed.

(** Every branch of [addEncryptedData]. *)
Lemma addEncryptedData_refused s e ed u pend ct em1 em2 :
  (forall c, truthy_str (ed_checksum ed) = Some c -> c ∈ checksums s) ->
  addEncryptedData e ed u pend ct em1 em2 s = Outcome (Ok tt) s [].
Proof.
  intros H. unfold addEncryptedData. js_simpl.
  destruct (truthy_str _) as [c|]; [|done]. unfold usernameAvailable.
  by rewrite bool_decide_eq_true_2 by auto.
Qed.

Lemma addEncryptedData_claimed s e ed u pend ct em1 em2 c :
  truthy_str (ed_checksum ed) = Some c -> c ∉ checksums s ->
  exists w, addEncryptedData e ed u pend ct em1 em2 s
  = Outcome (Ok tt)
      (set_confirmedUserIds (if pend then id else ({[u]} ∪.))
         (set_plaintextUsernames
            (match truthy_str ct with Some x => insert u x | None => delete u end)
            (claimed s u e c ed pend))) w.
Proof.
  intros Hc Hfree. unfold addEncryptedData, addUsernameEventForUserId, claimed. js_simpl.
  rewrite Hc. unfold usernameAvailable. rewrite bool_decide_eq_false_2 by done. simpl.
  assert (Hr : exists w, removeUsernameEventForUserId u s
    = Outcome (Ok tt) (post (removeUsernameEventForUserId u s)) w).
  { unfold removeUsernameEventForUserId. js_unfold.
    destruct (truthy_str (userIdToEventId s !! u)); [|eauto].
    destruct (usernameEvents s !! _); simpl; eauto. }
  destruct Hr as [w ->]. simpl.
  destruct (truthy_str ct) as [x|], pend; simpl;
    match goal with |- context [emitUsernameUpdated ?a ?b ?s'] =>
      pose proof (emitUsernameUpdated_post a b s') as Hp;
      unfold emitUsernameUpdated in *; js_simpl
    end; rewrite lookup_insert_eq in *; simpl in *;
    destruct (negb _) in *; simpl in *; eexists; reflexivity.
Qed.

Lemma usernames_onConfirmEvent_post s e em :
  post (onConfirmEvent e em s) =
  match usernameEvents s !! e with
  | None => s
  | Some ent => set_confirmedUserIds ({[userId ent]} ∪.)
                  (set_usernameEvents (insert e (mkEntry (encryptedData ent) (userId ent) false)) s)
  end.
Proof.
  unfold onConfirmEvent. js_simpl. destruct (usernameEvents s !! e) as [ent|]; [|done]. simpl.
  destruct (is_defined _); [|done].
  pose proof (emitUsernameUpdated_post e em (set_confirmedUserIds ({[userId ent]} ∪.)
    (set_usernameEvents (insert e (mkEntry (encryptedData ent) (userId ent) false)) s))) as Hp.
  by destruct (emitUsernameUpdated _ _ _).
Qed.

Lemma usernames_onDecryptedContent_post `{Externals} s e content em :
  post (onDecryptedContent e content em s) = s
  \/ exists ent, usernameEvents s !! e = Some ent
     /\ ed_checksum (encryptedData ent) = Some (usernameChecksum content (streamId s))
     /\ post (onDecryptedContent e content em s)
        = set_plaintextUsernames (insert (userId ent) content) s.
Proof.
  unfold onDecryptedContent. js_simpl.
  destruct (usernameEvents s !! e) as [ent|]; [|by left].
  destruct (truthy_str _) as [c|] eqn:Hc; [|by left]. apply truthy_str_Some in Hc as [Hc _].
  destruct (String.eqb_spec c (usernameChecksum content (streamId s))); [|by left].
  right. exists ent. split_and!; [done|congruence|]. simpl.
  pose proof (emitUsernameUpdated_post e em (set_plaintextUsernames (insert (userId ent) content) s)).
  by destruct (emitUsernameUpdated _ _ _).
Qed.

Lemma step_wf `{Externals} s s' : step s s' -> wf s -> wf s'.
Proof.
  intros Hstep Hwf. destruct Hstep as [s e ed u pend ct em1 em2 Hne Hfresh|s e em|s e content em|s u n em|s u em].
  - destruct (truthy_str (ed_checksum ed)) as [c|] eqn:Hc.
    2: { rewrite addEncryptedData_refused; [done|]. intros c'. by rewrite Hc. }
    destruct (decide (c ∈ checksums s)).
    { rewrite addEncryptedData_refused; [done|]. intros c'. rewrite Hc. by intros [= <-]. }
    destruct (addEncryptedData_claimed s e ed u pend ct em1 em2 c) as [w ->]; [done|done|].
    apply truthy_str_Some in Hc as [Hc Hcne].
    eapply (wf_same_claims (claimed s u e c ed pend)); [done..|].
    apply claimed_wf; try done. intros ent Hent. by rewrite Hfresh in Hent.
  - rewrite usernames_onConfirmEvent_post. destruct (usernameEvents s !! e) as [ent|] eqn:He; [|done].
    destruct Hwf as [H1 H2 H3 H4].
    assert (Hlook : forall e', usernameEvents (set_usernameEvents
      (insert e (mkEntry (encryptedData ent) (userId ent) false)) s) !! e'
      = if decide (e = e') then Some (mkEntry (encryptedData ent) (userId ent) false)
        else usernameEvents s !! e') by (intros; apply lookup_insert).
    assert (Hcl : forall s1, usernameEvents s1 = usernameEvents (set_usernameEvents
      (insert e (mkEntry (encryptedData ent) (userId ent) false)) s) ->
      forall u e' c, claims s1 u e' c <-> claims s u e' c).
    { intros s1 Hs1 u e' c. unfold claims. rewrite Hs1, Hlook.
      destruct (decide (e = e')) as [<-|]; [rewrite He|done]. naive_solver. }
    split.
    + intros e' ent'. simpl. rewrite lookup_insert. destruct (decide (e = e')) as [<-|]; [|auto].
      intros [= <-]. by apply (H1 _ _ He).
    + intros u e' Hu. simpl in *. rewrite lookup_insert.
      destruct (H2 _ _ Hu) as (ent' & He' & Hu'). destruct (decide (e = e')) as [<-|]; [|eauto].
      eexists. split; [done|]. simpl. congruence.
    + intros c Hc. destruct (H3 c Hc) as (u & e' & Hx). exists u, e'. by apply Hcl.
    + intros u1 e1 u2 e2 c Hc1 Hc2. apply Hcl in Hc1; [|done]. apply Hcl in Hc2; [|done].
      by eapply H4.
  - destruct (usernames_onDecryptedContent_post s e content em) as [->|(ent & _ & _ & ->)]; [done|].
    by eapply (wf_same_claims s).
  - by eapply (wf_same_claims s).
  - by eapply (wf_same_claims s).
Qed.

Lemma reachable_wf `{Externals} sid s : rtc step (new sid) s -> wf s.
Proof.
  intros Hr. remember (new sid) as s0 eqn:Hs0.
  assert (wf s0) as Hwf by (subst; apply wf_new). clear Hs0.
  induction Hr; eauto using step_wf.
Qed.

Lemma addEncryptedData_wf_spec s e ed u pend ct em1 em2 :
  wf s -> e <> "" -> usernameEvents s !! e = None ->
  let o := addEncryptedData e ed u pend ct em1 em2 s in
  match truthy_str (ed_checksum ed) with
  | None => o = Outcome (Ok tt) s []
  | Some c =>
      if usernameAvailable s c
      then res o = Ok tt
           /\ (forall v e' x, claims (post o) v e' x
                <-> (v = u /\ e' = e /\ x = c) \/ (v <> u /\ claims s v e' x))
           /\ (forall x, usernameAvailable (post o) x = true
                <-> x <> c /\ forall v e', v <> u -> ~ claims s v e' x)
      else o = Outcome (Ok tt) s []
  end.
Proof.
  intros Hwf Hne Hfresh. destruct (truthy_str (ed_checksum ed)) as [c|] eqn:Hc; simpl.
  2: { apply addEncryptedData_refused. intros c'. by rewrite Hc. }
  unfold usernameAvailable at 1. case_bool_decide as Hin; simpl.
  { apply addEncryptedData_refused. intros c'. rewrite Hc. by intros [= <-]. }
  destruct (addEncryptedData_claimed s e ed u pend ct em1 em2 c) as [w ->]; [done|done|].
  apply truthy_str_Some in Hc as [Hc Hcne]. cbn [res post]. split_and!; [done| |].
  - intros v e' x. split.
    + intros (ent & Hent & Hv & Hx).
      apply (claimed_events s u e c ed pend) in Hent as [(-> & ->)|(? & Hs & ?)]; [| |done].
      * left. simpl in *. split_and!; congruence.
      * right. split; [congruence|]. by exists ent.
    + intros [(-> & -> & ->)|(Hv & ent & Hent & <- & Hx)].
      * eexists. split; [simpl; apply lookup_insert_eq|done].
      * exists ent. split; [|done].
        pose proof (claimed_wf s u e c ed pend Hwf Hne Hc Hcne Hin) as Hwf'.
        destruct (wf_user _ (Hwf' ltac:(intros ? ?; congruence)) (userId ent) e') as (ent' & He' & Hu').
        -- unfold claimed. simpl. rewrite lookup_insert_ne by done.
           destruct (wf_event s Hwf _ _ Hent) as (_ & Hq & _).
           destruct (remove_spec s u Hwf) as [[_ ->]|(? & ? & ? & _ & _ & _ & _ & ->)]; exact Hq.
        -- apply (claimed_events s u e c ed pend) in He' as He''; [|done].
           destruct He'' as [(_ & ->)|(_ & Hs & _)]; [by simpl in Hu'|].
           simpl. rewrite Hent in Hs. injection Hs as ->. exact He'.
  - intros x. unfold usernameAvailable. rewrite negb_true_iff, bool_decide_eq_false.
    change (checksums _) with (checksums (claimed s u e c ed pend)).
    rewrite claimed_checksums by done. split.
    + intros Hno. split; [naive_solver|]. intros v e' Hv Hcl. apply Hno. right. eauto.
    + intros [Hx Hno] [->|(v & e' & Hcl & Hv)]; [done|]. by eapply Hno.
Qed.

(** C8: in every state the stream can reach, no username checksum is held by two
    users or by two events, and a checksum is refused to newcomers exactly when
    some user holds it. *)
Theorem usernames_unique `{Externals} sid s u1 e1 u2 e2 c :
  rtc step (new sid) s ->
  (claims s u1 e1 c -> claims s u2 e2 c -> u1 = u2 /\ e1 = e2)
  /\ (usernameAvailable s c = false <-> exists u e, claims s u e c).
Proof.
  intros Hwf%reachable_wf. split.
  - intros H1 H2. assert (e1 = e2) as -> by (by eapply wf_unique).
    destruct H1 as (x & Hx & <- & _), H2 as (y & Hy & <- & _). split; congruence.
  - unfold usernameAvailable. rewrite negb_false_iff, bool_decide_eq_true. split.
    + apply (wf_checksum _ Hwf).
    + intros (u & e & ent & Hent & _ & Hc).
      destruct (wf_event _ Hwf _ _ Hent) as (_ & _ & c' & Hc' & _ & Hin). congruence.
Qed.

(** The outcome of a claim by a fresh event. A checksum that is missing or
    taken changes nothing and emits nothing; otherwise the user holds exactly the
    new claim, every other user keeps theirs, and the user's old checksum is free
    again for the others. *)
Theorem addEncryptedData_spec `{Externals} sid s e ed u pend ct em1 em2 :
  rtc step (new sid) s -> e <> "" -> usernameEvents s !! e = None ->
  let o := addEncryptedData e ed u pend ct em1 em2 s in
  match truthy_str (ed_checksum ed) with
  | None => o = Outcome (Ok tt) s []
  | Some c =>
      if usernameAvailable s c
      then res o = Ok tt
           /\ (forall v e' x, claims (post o) v e' x
                <-> (v = u /\ e' = e /\ x = c) \/ (v <> u /\ claims s v e' x))
           /\ (forall x, usernameAvailable (post o) x = true
                <-> x <> c /\ forall v e', v <> u -> ~ claims s v e' x)
      else o = Outcome (Ok tt) s []
  end.
Proof. intros Hwf%reachable_wf. by apply addEncryptedData_wf_spec. Qed.

(** A decrypted username is shown only when it hashes to the checksum its
    event claimed; in every other case the decryption changes nothing. *)
Theorem onDecryptedContent_checked `{Externals} s e content em u :
  plaintextUsernames (post (onDecryptedContent e content em s)) !! u <> plaintextUsernames s !! u ->
  plaintextUsernames (post (onDecryptedContent e content em s)) !! u = Some content
  /\ claims s u e (usernameChecksum content (streamId s)).
Proof.
  destruct (usernames_onDecryptedContent_post s e content em) as [->|(ent & He & Hc & ->)]; [done|].
  simpl. rewrite lookup_insert. case_decide; [|done]. subst. intros _. split; [done|].
  by exists ent.
Qed.

(** A cleartext that comes with the event is shown without that check,
    whatever it hashes to. *)
Theorem cached_cleartext_unchecked s e ed u pend txt em1 em2 c :
  truthy_str (ed_checksum ed) = Some c -> usernameAvailable s c = true -> txt <> "" -> e <> "" ->
  username (info (post (addEncryptedData e ed u pend (Some txt) em1 em2 s)) u) = txt.
Proof.
  intros Hc Hav Htxt He. unfold usernameAvailable in Hav. apply negb_true_iff, bool_decide_eq_false in Hav.
  destruct (addEncryptedData_claimed s e ed u pend (Some txt) em1 em2 c) as [w ->]; [done|done|].
  unfold info, claimed. simpl. destruct (String.eqb_spec txt ""); [done|].
  rewrite !lookup_insert_eq. simpl. by destruct (String.eqb_spec e "").
Qed.

(** ** Concrete runs *)

Definition demo_data (c : string) : EncryptedData := mkEncryptedData "ct" "alg" "key" "sess" (Some c) None.
Definition demo_taken : t := post (addEncryptedData "e1" (demo_data "c1") "alice" true None true true (new "s")).

Lemma demo_reachable : rtc step (new "s") demo_taken.
Proof. apply rtc_once, step_addEncryptedData; done. Qed.

Lemma usernames_unique_witness :
  (claims demo_taken "alice" "e1" "c1" -> claims demo_taken "alice" "e1" "c1" ->
     "alice" = "alice" /\ "e1" = "e1")
  /\ (usernameAvailable demo_taken "c1" = false <-> exists u e, claims demo_taken u e "c1").
Proof. exact (usernames_unique "s" demo_taken "alice" "e1" "alice" "e1" "c1" demo_reachable). Defined.

Lemma addEncryptedData_spec_witness :
  addEncryptedData "e2" (demo_data "c1") "bob" true None true true demo_taken
  = Outcome (Ok tt) demo_taken [].
Proof.
  exact (addEncryptedData_spec "s" demo_taken "e2" (demo_data "c1") "bob" true None true true
    demo_reachable ltac:(done) ltac:(vm_compute; done)).
Defined.

Definition demo_checked : t :=
  post (addEncryptedData "e1" (demo_data (usernameChecksum "Al" "s")) "alice" true None true true (new "s")).

Lemma onDecryptedContent_checked_witness :
  plaintextUsernames (post (onDecryptedContent "e1" "Al" true demo_checked)) !! "alice" = Some "Al"
  /\ claims demo_checked "alice" "e1" (usernameChecksum "Al" "s").
Proof.
  apply (onDecryptedContent_checked demo_checked "e1" "Al" true "alice"). vm_compute. discriminate.
Defined.

Lemma cached_cleartext_unchecked_witness :
  username (info (post (addEncryptedData "e1" (demo_data "c1") "alice" true (Some "Mallory") true true (new "s"))) "alice")
  = "Mallory".
Proof. apply (cached_cleartext_unchecked _ _ _ _ _ _ _ _ "c1"); vm_compute; done. Defined.
