(* ===== verification/LiveEvents.v ===== *)
(** * One live event per user

    Display names, ENS addresses and NFTs keep the same two maps: the events by
    id and, for each user, the id of the user's latest event. The shape is stated
    once here, as a class, with the lemmas its three implementations share. *)

From S2P Require Import Prelude.

(** A component state with an event table owned by users. *)
Class LiveEvents (St ent : Type) := {
  live_users : St -> gmap string string;
  live_events : St -> gmap string ent;
  live_owner : ent -> string;
}.

(** Every event in the table is the latest of its owner, and every user with an
    event id has that event in the table. *)
Record live_wf `{LiveEvents St ent} (s : St) : Prop := {
  live_event_user : forall e x, live_events s !! e = Some x ->
    e <> "" /\ live_users s !! live_owner x = Some e;
  live_user_event : forall u e, live_users s !! u = Some e ->
    exists x, live_events s !! e = Some x /\ live_owner x = u;
}.

Section Live.
Context `{LiveEvents St ent}.

(** [removeEventForUserId] then [addEventForUserId]. *)
Definition live_replaced (u e : string) (x : ent) (s s' : St) : Prop :=
  live_users s' = <[u := e]> (live_users s)
  /\ live_events s' = <[e := x]>
       (match truthy_str (live_users s !! u) with
        | Some e0 => delete e0 (live_events s)
        | None => live_events s
        end).

Lemma live_replaced_wf u e x s s' :
  live_wf s -> live_replaced u e x s s' -> e <> "" -> live_owner x = u ->
  live_events s !! e = None -> live_wf s'.
Proof.
  intros [H1 H2] [Hu He] Hne Hx Hfresh.
  assert (Hrem : forall e' x', e' <> e -> live_events s' !! e' = Some x' ->
            live_events s !! e' = Some x' /\ live_owner x' <> u).
  { intros e' x' Hd. rewrite He, lookup_insert_ne by done.
    destruct (live_users s !! u) as [e0|] eqn:Hu0; cbn [truthy_str].
    - destruct (H2 _ _ Hu0) as (x0 & Hx0 & Hown). destruct (H1 _ _ Hx0) as [Hne0 _].
      destruct (String.eqb_spec e0 ""); [done|]. rewrite lookup_delete. case_decide; [done|].
      intros Hx'. split; [done|]. intros <-. destruct (H1 _ _ Hx'). congruence.
    - intros Hx'. split; [done|]. intros <-. destruct (H1 _ _ Hx'). congruence. }
  split.
  - intros e' x' Hx'. destruct (decide (e' = e)) as [->|Hd].
    + rewrite He, lookup_insert_eq in Hx'. injection Hx' as <-.
      split; [done|]. by rewrite Hu, Hx, lookup_insert_eq.
    + destruct (Hrem _ _ Hd Hx') as [Hs Hown]. rewrite Hu, lookup_insert_ne by done. by apply H1.
  - intros v e'. rewrite Hu, lookup_insert. case_decide; subst.
    + intros [= <-]. exists x. by rewrite He, lookup_insert_eq.
    + intros Hv. destruct (H2 _ _ Hv) as (x' & Hx' & Hown). exists x'. split; [|done].
      rewrite He. assert (e <> e') by congruence. rewrite lookup_insert_ne by done.
      destruct (live_users s !! live_owner x) as [e0|] eqn:Hu0; cbn [truthy_str]; [|done].
      destruct (String.eqb e0 ""); [done|]. rewrite lookup_delete_ne; [done|].
      intros ->. destruct (H2 _ _ Hu0) as (x0 & Hx0 & Hown0). congruence.
Qed.

(** Replacing an event by one of the same owner. *)
Lemma live_update_wf s s' e x x' :
  live_wf s -> live_events s !! e = Some x -> live_owner x' = live_owner x ->
  live_users s' = live_users s -> live_events s' = <[e := x']> (live_events s) -> live_wf s'.
Proof.
  intros [H1 H2] Hx Hown Hu He. split.
  - intros e0 x0. rewrite He, Hu, lookup_insert. case_decide; subst; [|apply H1].
    intros [= <-]. rewrite Hown. by apply H1.
  - intros v e0. rewrite He, Hu, lookup_insert. intros Hv. destruct (H2 _ _ Hv) as (x0 & Hx0 & ?).
    case_decide; [|eauto]. exists x'. split; [done|]. congruence.
Qed.

Lemma live_same_wf s s' :
  live_users s' = live_users s -> live_events s' = live_events s -> live_wf s -> live_wf s'.
Proof. intros Hu He [H1 H2]. split; rewrite ?Hu, ?He; done. Qed.

(** A user has at most one event. *)
Lemma live_unique s e1 e2 x1 x2 :
  live_wf s -> live_events s !! e1 = Some x1 -> live_events s !! e2 = Some x2 ->
  live_owner x1 = live_owner x2 -> e1 = e2.
Proof. intros [H1 _] Hx1 Hx2 Ho. destruct (H1 _ _ Hx1), (H1 _ _ Hx2). congruence. Qed.

(** The event that was replaced is gone. *)
Lemma live_replaced_old u e x s s' e0 :
  live_replaced u e x s s' -> live_users s !! u = Some e0 -> e0 <> "" -> e0 <> e ->
  live_events s' !! e0 = None.
Proof.
  intros [_ He] Hu Hne Hd. rewrite He, Hu, lookup_insert_ne by done. cbn [truthy_str].
  destruct (String.eqb_spec e0 ""); [done|]. apply lookup_delete_eq.
Qed.
End Live.
