(* ===== verification/DisplayNames.v ===== *)
(** * Display names of a stream (core/sdk/src/userMetadata_DisplayNames.ts) *)

From S2P Require Import Prelude Proto Externals Types LiveEvents.

Record entry := mkEntry {
  encryptedData : EncryptedData;
  userId : string;
  pending : bool;
}.

Record t := mk {
  streamId : string;
  userIdToEventId : gmap string string;
  plaintextDisplayNames : gmap string string;
  displayNameEvents : gmap string entry;
}.

Definition new (streamId : string) : t := mk streamId ∅ ∅ ∅.

Definition set_userIdToEventId f s := mk (streamId s) (f (userIdToEventId s))
  (plaintextDisplayNames s) (displayNameEvents s).
Definition set_plaintextDisplayNames f s := mk (streamId s) (userIdToEventId s)
  (f (plaintextDisplayNames s)) (displayNameEvents s).
Definition set_displayNameEvents f s := mk (streamId s) (userIdToEventId s)
  (plaintextDisplayNames s) (f (displayNameEvents s)).

Definition emitDisplayNameUpdated (eventId : string) (emitter : bool) : SM t unit :=
  self ← js_get;
  match displayNameEvents self !! eventId with
  | None => js_return
  | Some event =>
      if negb (is_defined (plaintextDisplayNames self !! userId event)) then js_return
      else js_emit emitter
             (if pending event
              then streamPendingDisplayNameUpdated (streamId self) (userId event)
              else streamDisplayNameUpdated (streamId self) (userId event))
  end.

Definition removeEventForUserId (userId : string) : SM t unit :=
  self ← js_get;
  match truthy_str (userIdToEventId self !! userId) with
  | None => js_return
  | Some eventId =>
      match displayNameEvents self !! eventId with
      | None => js_return
      | Some _ => js_modify (set_displayNameEvents (delete eventId))
      end
  end.

Definition addEventForUserId (userId eventId : string) (encryptedData : EncryptedData)
    (pending : bool) : SM t unit :=
  js_modify (set_userIdToEventId (insert userId eventId));;
  js_modify (set_displayNameEvents (insert eventId (mkEntry encryptedData userId pending))).

Definition addEncryptedData (eventId : string) (encryptedData : EncryptedData) (userId : string)
    (pending : bool) (cleartext : option string) (encryptionEmitter stateEmitter : bool)
    : SM t unit :=
  self ← js_get;
  removeEventForUserId userId;;
  addEventForUserId userId eventId encryptedData pending;;
  match truthy_str cleartext with
  | Some cleartext => js_modify (set_plaintextDisplayNames (insert userId cleartext))
  | None =>
      js_modify (set_plaintextDisplayNames (delete userId));;
      js_emit encryptionEmitter (newEncryptedContent (streamId self) eventId
        (mkEncryptedContent Kind_text encryptedData))
  end;;
  emitDisplayNameUpdated eventId stateEmitter.

Definition onConfirmEvent (eventId : string) (emitter : bool) : SM t unit :=
  self ← js_get;
  match displayNameEvents self !! eventId with
  | None => js_return
  | Some event =>
      js_modify (set_displayNameEvents
        (insert eventId (mkEntry (encryptedData event) (userId event) false)));;
      js_when (is_defined (plaintextDisplayNames self !! userId event))
        (emitDisplayNameUpdated eventId emitter)
  end.

Definition onDecryptedContent (eventId content : string) (emitter : bool) : SM t unit :=
  self ← js_get;
  match displayNameEvents self !! eventId with
  | None => js_return
  | Some event =>
      js_modify (set_plaintextDisplayNames (insert (userId event) content));;
      emitDisplayNameUpdated eventId emitter
  end.

Record displayNameInfo := mkInfo {
  displayName : string;
  displayNameEncrypted : bool;
}.

Definition info (s : t) (userId : string) : displayNameInfo :=
  mkInfo (default "" (plaintextDisplayNames s !! userId))
    (negb (is_defined (plaintextDisplayNames s !! userId))
     && is_defined (userIdToEventId s !! userId)).

#[export] Instance displayNames_live : LiveEvents t entry :=
  {| live_users := userIdToEventId; live_events := displayNameEvents; live_owner := userId |}.

(** ** Lemmas *)

Lemma emitDisplayNameUpdated_post e em s : post (emitDisplayNameUpdated e em s) = s.
Proof.
  unfold emitDisplayNameUpdated. js_simpl. destruct (displayNameEvents s !! e); simpl; [|done].
  by destruct (negb _).
Qed.

Lemma displayNames_removeEventForUserId_eq u s :
  removeEventForUserId u s
  = Outcome (Ok tt)
      (match truthy_str (userIdToEventId s !! u) with
       | Some e0 => set_displayNameEvents (delete e0) s
       | None => s
       end) [].
Proof.
  unfold removeEventForUserId. js_unfold. destruct (truthy_str (userIdToEventId s !! u)) as [e0|]; [|done].
  destruct (displayNameEvents s !! e0) as [x|] eqn:Hx; [done|]. do 2 f_equal.
  destruct s as [a b c d]. unfold set_displayNameEvents. simpl in *. by rewrite delete_id.
Qed.

(** The state after a new display name. *)
Definition renamed (s : t) (u e : string) (ed : EncryptedData) (pend : bool) (ct : option string) : t :=
  mk (streamId s) (<[u := e]> (userIdToEventId s))
    (match truthy_str ct with Some x => <[u := x]> (plaintextDisplayNames s)
                            | None => delete u (plaintextDisplayNames s) end)
    (<[e := mkEntry ed u pend]>
       (match truthy_str (userIdToEventId s !! u) with
        | Some e0 => delete e0 (displayNameEvents s)
        | None => displayNameEvents s
        end)).

Lemma addEncryptedData_post s e ed u pend ct em1 em2 :
  res (addEncryptedData e ed u pend ct em1 em2 s) = Ok tt
  /\ post (addEncryptedData e ed u pend ct em1 em2 s) = renamed s u e ed pend ct.
Proof.
  unfold addEncryptedData, addEventForUserId, renamed. js_unfold. rewrite displayNames_removeEventForUserId_eq.
  destruct (truthy_str (userIdToEventId s !! u)), (truthy_str ct); simpl;
    match goal with |- context [emitDisplayNameUpdated ?a ?b ?s'] =>
      pose proof (emitDisplayNameUpdated_post a b s');
      assert (res (emitDisplayNameUpdated a b s') = Ok tt)
        by (unfold emitDisplayNameUpdated; js_simpl; rewrite lookup_insert_eq; simpl; by destruct (negb _));
      destruct (emitDisplayNameUpdated a b s'); simpl in *; by subst
    end.
Qed.

Lemma displayNames_onConfirmEvent_post s e em :
  post (onConfirmEvent e em s) =
  match displayNameEvents s !! e with
  | None => s
  | Some x => set_displayNameEvents (insert e (mkEntry (encryptedData x) (userId x) false)) s
  end.
Proof.
  unfold onConfirmEvent. js_unfold. destruct (displayNameEvents s !! e) as [x|]; [|done].
  destruct (is_defined _); [|done]. simpl.
  pose proof (emitDisplayNameUpdated_post e em
    (set_displayNameEvents (insert e (mkEntry (encryptedData x) (userId x) false)) s)).
  by destruct (emitDisplayNameUpdated _ _ _).
Qed.

Lemma displayNames_onDecryptedContent_post s e content em :
  post (onDecryptedContent e content em s) =
  match displayNameEvents s !! e with
  | None => s
  | Some x => set_plaintextDisplayNames (insert (userId x) content) s
  end.
Proof.
  unfold onDecryptedContent. js_unfold. destruct (displayNameEvents s !! e) as [x|]; [|done].
  pose proof (emitDisplayNameUpdated_post e em (set_plaintextDisplayNames (insert (userId x) content) s)).
  by destruct (emitDisplayNameUpdated _ _ _).
Qed.

(** After a rename the user shows the cleartext that came with it, or nothing
    and the encrypted mark; a later decryption of the replaced event changes
    nothing, and one of the new event shows the decrypted name. *)
Theorem rename_then_decrypt s u e0 e ed pend ct em1 em2 late name :
  live_wf s -> userIdToEventId s !! u = Some e0 -> e <> e0 ->
  let s1 := post (addEncryptedData e ed u pend ct em1 em2 s) in
  info s1 u = match truthy_str ct with Some x => mkInfo x false | None => mkInfo "" true end
  /\ post (onDecryptedContent e0 late true s1) = s1
  /\ info (post (onDecryptedContent e name true s1)) u = mkInfo name false.
Proof.
  intros Hwf Hu Hd. cbv zeta. rewrite (proj2 (addEncryptedData_post s e ed u pend ct em1 em2)).
  destruct (live_user_event s Hwf u e0 Hu) as (x0 & Hx0 & _).
  destruct (live_event_user s Hwf e0 x0 Hx0) as [Hne _].
  rewrite !displayNames_onDecryptedContent_post. unfold renamed, info. simpl. rewrite Hu. simpl.
  destruct (String.eqb_spec e0 ""); [done|]. split_and!.
  - rewrite lookup_insert_eq.
    destruct (truthy_str ct); by rewrite ?lookup_insert_eq, ?lookup_delete_eq.
  - rewrite lookup_insert_ne, lookup_delete_eq by done. done.
  - rewrite !lookup_insert_eq. simpl. by rewrite lookup_insert_eq.
Qed.

(** ** Concrete run *)

Definition demo_ed : EncryptedData := mkEncryptedData "ct" "alg" "key" "sess" None None.
Definition demo : t := renamed (new "s") "alice" "e0" demo_ed false None.

Lemma displayNames_demo_wf : live_wf demo.
Proof.
  by apply (live_replaced_wf "alice" "e0" (mkEntry demo_ed "alice" false) (new "s")).
Qed.

Lemma rename_then_decrypt_witness :
  info (post (onDecryptedContent "e1" "Alice" true
    (post (addEncryptedData "e1" demo_ed "alice" true None true true demo)))) "alice" = mkInfo "Alice" false.
Proof.
  apply (rename_then_decrypt demo "alice" "e0" "e1" demo_ed true None true true "late" "Alice" displayNames_demo_wf);
    [vm_compute; reflexivity|done].
Defined.
