(* ===== verification/EnsAddresses.v ===== *)
(** * ENS addresses of the users of a stream (core/sdk/src/userMetadata_EnsAddresses.ts) *)

From S2P Require Import Prelude Proto Externals ToyExternals StreamId Types LiveEvents.

Record entry := mkEntry {
  ensAddress : bytes;
  userId : string;
  pending : bool;
}.

Record t := mk {
  streamId : string;
  userIdToEventId : gmap string string;
  confirmedEnsAddresses : gmap string string;
  ensAddressEvents : gmap string entry;
}.

Definition new (streamId : string) : t := mk streamId ∅ ∅ ∅.

Definition set_userIdToEventId f s := mk (streamId s) (f (userIdToEventId s))
  (confirmedEnsAddresses s) (ensAddressEvents s).
Definition set_confirmedEnsAddresses f s := mk (streamId s) (userIdToEventId s)
  (f (confirmedEnsAddresses s)) (ensAddressEvents s).
Definition set_ensAddressEvents f s := mk (streamId s) (userIdToEventId s)
  (confirmedEnsAddresses s) (f (ensAddressEvents s)).

Definition emitEnsAddressUpdated (eventId : string) (emitter : bool) : SM t unit :=
  self ← js_get;
  match ensAddressEvents self !! eventId with
  | None => js_return
  | Some event =>
      if pending event then js_return
      else js_emit emitter (streamEnsAddressUpdated (streamId self) (userId event))
  end.

Definition removeEventForUserId (userId : string) : SM t unit :=
  self ← js_get;
  match truthy_str (userIdToEventId self !! userId) with
  | None => js_return
  | Some eventId =>
      match ensAddressEvents self !! eventId with
      | None => js_return
      | Some _ => js_modify (set_ensAddressEvents (delete eventId))
      end
  end.

Definition addEventForUserId (userId eventId : string) (ensAddress : bytes) (pending : bool)
    : SM t unit :=
  js_modify (set_userIdToEventId (insert userId eventId));;
  js_modify (set_ensAddressEvents (insert eventId (mkEntry ensAddress userId pending))).

Section Methods.
Context `{Externals}.

(** [confirmedEnsAddresses.set(...)] or, for the empty address, [.delete(...)]. *)
Definition confirmAddress (userId : string) (ensAddress : bytes) : SM t unit :=
  if (0 <? length ensAddress)%nat
  then
    address ← js_lift (userIdFromAddress ensAddress);
    js_modify (set_confirmedEnsAddresses (insert userId address))
  else js_modify (set_confirmedEnsAddresses (delete userId)).

Definition applySnapshot (ensAddresses : list (string * bytes)) : SM t unit :=
  js_for ensAddresses (fun item =>
    js_when (0 <? length item.2)%nat
      (address ← js_lift (userIdFromAddress item.2);
       js_modify (set_confirmedEnsAddresses (insert item.1 address)))).

Definition addEnsAddressEvent (eventId : string) (ensAddress : bytes) (userId : string)
    (pending : bool) (stateEmitter : bool) : SM t unit :=
  removeEventForUserId userId;;
  js_when (negb pending) (confirmAddress userId ensAddress);;
  addEventForUserId userId eventId ensAddress pending;;
  emitEnsAddressUpdated eventId stateEmitter.

Definition onConfirmEvent (eventId : string) (emitter : bool) : SM t unit :=
  self ← js_get;
  match ensAddressEvents self !! eventId with
  | None => js_return
  | Some event =>
      js_modify (set_ensAddressEvents
        (insert eventId (mkEntry (ensAddress event) (userId event) false)));;
      confirmAddress (userId event) (ensAddress event);;
      emitEnsAddressUpdated eventId emitter
  end.
End Methods.

Definition info (s : t) (userId : string) : option string := confirmedEnsAddresses s !! userId.

#[export] Instance ensAddresses_live : LiveEvents t entry :=
  {| live_users := userIdToEventId; live_events := ensAddressEvents; live_owner := userId |}.

(** ** Lemmas *)

Lemma ens_removeEventForUserId_eq u s :
  removeEventForUserId u s
  = Outcome (Ok tt)
      (match truthy_str (userIdToEventId s !! u) with
       | Some e0 => set_ensAddressEvents (delete e0) s
       | None => s
       end) [].
Proof.
  unfold removeEventForUserId. js_unfold. destruct (truthy_str (userIdToEventId s !! u)) as [e0|]; [|done].
  destruct (ensAddressEvents s !! e0) as [x|] eqn:Hx; [done|]. do 2 f_equal.
  destruct s as [a b c d]. unfold set_ensAddressEvents. simpl in *. by rewrite delete_id.
Qed.

Section Properties.
Context `{Externals}.

(** The state after a pending event. *)
Definition proposed (s : t) (u e : string) (a : bytes) : t :=
  mk (streamId s) (<[u := e]> (userIdToEventId s)) (confirmedEnsAddresses s)
    (<[e := mkEntry a u true]>
       (match truthy_str (userIdToEventId s !! u) with
        | Some e0 => delete e0 (ensAddressEvents s)
        | None => ensAddressEvents s
        end)).

Lemma addEnsAddressEvent_pending s e a u em :
  addEnsAddressEvent e a u true em s = Outcome (Ok tt) (proposed s u e a) [].
Proof.
  unfold addEnsAddressEvent, addEventForUserId, emitEnsAddressUpdated, proposed. js_unfold.
  rewrite ens_removeEventForUserId_eq.
  destruct (truthy_str (userIdToEventId s !! u)); simpl; by rewrite lookup_insert_eq.
Qed.

(** An ENS address is not shown while it is pending; confirming its event
    shows it in checksum form, or clears the user's address when it is empty, and
    tells the listeners once; confirming an event that was superseded meanwhile
    does nothing. *)
Theorem ens_confirmed_lifecycle s u e0 e a :
  live_wf s -> userIdToEventId s !! u = Some e0 -> e <> e0 ->
  let s1 := post (addEnsAddressEvent e a u true true s) in
  info s1 u = info s u
  /\ onConfirmEvent e0 true s1 = Outcome (Ok tt) s1 []
  /\ match (if (0 <? length a)%nat then userIdFromAddress a else Ok "") with
     | Throw err => res (onConfirmEvent e true s1) = Throw err
     | Ok shown =>
         info (post (onConfirmEvent e true s1)) u = (if (0 <? length a)%nat then Some shown else None)
         /\ emits (onConfirmEvent e true s1) = [streamEnsAddressUpdated (streamId s) u]
     end.
Proof.
  intros Hwf Hu Hd. cbv zeta. rewrite addEnsAddressEvent_pending. cbn [post].
  destruct (live_user_event s Hwf u e0 Hu) as (x0 & Hx0 & _).
  destruct (live_event_user s Hwf e0 x0 Hx0) as [Hne _].
  assert (He : ensAddressEvents (proposed s u e a) !! e = Some (mkEntry a u true))
    by apply lookup_insert_eq.
  split_and!; [done| |].
  - unfold onConfirmEvent. js_unfold. unfold proposed at 1. cbn [ensAddressEvents].
    rewrite lookup_insert_ne, Hu by done. cbn [truthy_str].
    destruct (String.eqb_spec e0 ""); [done|]. by rewrite lookup_delete_eq.
  - unfold onConfirmEvent, confirmAddress, emitEnsAddressUpdated, info. js_unfold. rewrite He. simpl.
    destruct (0 <? length a)%nat eqn:Ha; simpl.
    + destruct (userIdFromAddress a); simpl; [|done].
      rewrite lookup_insert_eq. simpl. by rewrite lookup_insert_eq.
    + rewrite lookup_insert_eq. simpl. by rewrite lookup_delete_eq.
Qed.
End Properties.

(** ** Concrete run *)

Definition demo_address : bytes := replicate 20 x01.
Definition demo : t := proposed (new "s") "alice" "e0" [].

Lemma ens_demo_wf : live_wf demo.
Proof. by apply (live_replaced_wf "alice" "e0" (mkEntry [] "alice" true) (new "s")). Qed.

Lemma ens_confirmed_lifecycle_witness :
  info (post (onConfirmEvent "e1" true
    (post (addEnsAddressEvent "e1" demo_address "alice" true true demo)))) "alice"
  = Some "0x0101010101010101010101010101010101010101".
Proof.
  destruct (ens_confirmed_lifecycle demo "alice" "e0" "e1" demo_address ens_demo_wf) as (_ & _ & Hc);
    [vm_compute; reflexivity|done|].
  exact (proj1 Hc).
Defined.
