(* ===== verification/Nfts.v ===== *)
(** * Profile NFTs of the users of a stream (core/sdk/src/userMetadata_Nft.ts) *)

From S2P Require Import Prelude Proto Externals ToyExternals Binary StreamId Types LiveEvents.

Record entry := mkEntry {
  nft : Nft;
  userId : string;
  pending : bool;
}.

Record t := mk {
  streamId : string;
  userIdToEventId : gmap string string;
  confirmedNfts : gmap string Nft;
  nftEvents : gmap string entry;
}.

Definition new (streamId : string) : t := mk streamId ∅ ∅ ∅.

Definition set_userIdToEventId f s := mk (streamId s) (f (userIdToEventId s)) (confirmedNfts s) (nftEvents s).
Definition set_confirmedNfts f s := mk (streamId s) (userIdToEventId s) (f (confirmedNfts s)) (nftEvents s).
Definition set_nftEvents f s := mk (streamId s) (userIdToEventId s) (confirmedNfts s) (f (nftEvents s)).

Definition isValidNft (nft : Nft) : bool :=
  (0 <? length (nft_tokenId nft))%nat && (0 <? length (nft_contractAddress nft))%nat
  && (0 <? nft_chainId nft).

Definition applySnapshot (nfts : list (string * Nft)) : SM t unit :=
  js_for nfts (fun item =>
    js_when (isValidNft item.2) (js_modify (set_confirmedNfts (insert item.1 item.2)))).

Definition removeEventForUserId (userId : string) : SM t unit :=
  self ← js_get;
  match truthy_str (userIdToEventId self !! userId) with
  | None => js_return
  | Some eventId =>
      match nftEvents self !! eventId with
      | None => js_return
      | Some _ => js_modify (set_nftEvents (delete eventId))
      end
  end.

Definition addEventForUserId (userId eventId : string) (nft : Nft) (pending : bool) : SM t unit :=
  js_modify (set_userIdToEventId (insert userId eventId));;
  js_modify (set_nftEvents (insert eventId (mkEntry nft userId pending))).

Definition emitNftUpdated (eventId : string) (emitter : bool) : SM t unit :=
  self ← js_get;
  match nftEvents self !! eventId with
  | None => js_return
  | Some event =>
      if pending event then js_return
      else js_emit emitter (streamNftUpdated (streamId self) (userId event))
  end.

(** The branch on validity shared by [addNftEvent] and [onConfirmEvent]. *)
Definition confirmNft (userId : string) (nft : Nft) : SM t unit :=
  if isValidNft nft then js_modify (set_confirmedNfts (insert userId nft))
  else js_modify (set_confirmedNfts (delete userId)).

Definition addNftEvent (eventId : string) (nft : Nft) (userId : string) (pending : bool)
    (stateEmitter : bool) : SM t unit :=
  removeEventForUserId userId;;
  js_when (negb pending) (confirmNft userId nft);;
  addEventForUserId userId eventId nft pending;;
  emitNftUpdated eventId stateEmitter.

Definition onConfirmEvent (eventId : string) (emitter : bool) : SM t unit :=
  self ← js_get;
  match nftEvents self !! eventId with
  | None => js_return
  | Some event =>
      js_modify (set_nftEvents (insert eventId (mkEntry (nft event) (userId event) false)));;
      confirmNft (userId event) (nft event);;
      emitNftUpdated eventId emitter
  end.

Record nftInfo := mkInfo { tokenId : string; contractAddress : string; chainId : Z }.

Definition info `{Externals} (s : t) (userId : string) : result (option nftInfo) :=
  match confirmedNfts s !! userId with
  | None => Ok None
  | Some nft =>
      match userIdFromAddress (nft_contractAddress nft) with
      | Throw e => Throw e
      | Ok contractAddress =>
          Ok (Some (mkInfo (bin_toString (nft_tokenId nft)) contractAddress (nft_chainId nft)))
      end
  end.

#[export] Instance nfts_live : LiveEvents t entry :=
  {| live_users := userIdToEventId; live_events := nftEvents; live_owner := userId |}.

(** Only valid NFTs are ever shown as confirmed. *)
Definition confirmed_valid (s : t) : Prop := map_Forall (fun _ n => isValidNft n = true) (confirmedNfts s).

(** ** Lemmas *)

Lemma confirmNft_valid u n : preserves confirmed_valid (confirmNft u n).
Proof.
  unfold confirmNft. destruct (isValidNft n) eqn:Hn; apply preserves_modify; intros s Hs.
  - by apply map_Forall_insert_2.
  - by apply map_Forall_delete.
Qed.

Lemma emitNftUpdated_valid e em : preserves confirmed_valid (emitNftUpdated e em).
Proof.
  apply preserves_get_bind. intros s Hs. destruct (nftEvents s !! e) as [x|]; [|done].
  by destruct (pending x).
Qed.

Lemma removeEventForUserId_valid u : preserves confirmed_valid (removeEventForUserId u).
Proof.
  apply preserves_get_bind. intros s Hs. destruct (truthy_str _) as [e|]; [|done].
  by destruct (nftEvents s !! e).
Qed.

#[export] Hint Resolve confirmNft_valid emitNftUpdated_valid removeEventForUserId_valid : js.

(** Whatever events arrive and are confirmed, no NFT without token, contract
    and chain is ever recorded as a user's NFT. *)
Theorem nfts_only_valid nfts e n u pend em :
  preserves confirmed_valid (applySnapshot nfts)
  /\ preserves confirmed_valid (addNftEvent e n u pend em)
  /\ preserves confirmed_valid (onConfirmEvent e em).
Proof.
  split_and!.
  - apply preserves_for. intros [v n'] _. apply preserves_when. intros Hv.
    apply preserves_modify. intros s Hs. by apply map_Forall_insert_2.
  - unfold addNftEvent, addEventForUserId.
    repeat (apply preserves_bind; [|intros _]); eauto with js.
    apply preserves_when. eauto with js.
  - apply preserves_get_bind. intros s Hs. destruct (nftEvents s !! e) as [x|]; [|done].
    revert s Hs. change (preserves confirmed_valid
      (js_modify (set_nftEvents (insert e (mkEntry (nft x) (userId x) false)));;
       confirmNft (userId x) (nft x);; emitNftUpdated e em)).
    repeat (apply preserves_bind; [|intros _]); eauto with js.
Qed.
