(* ===== verification/UserMetadata.v ===== *)
(** * Names and profile data of the members of a stream
    (core/sdk/src/streamStateView_UserMetadata.ts) *)

From S2P Require Import Prelude Proto Externals ToyExternals Binary StreamId Types.
From S2P Require Import LiveEvents Usernames DisplayNames EnsAddresses Nfts.

Record t := mk {
  usernames : Usernames.t;
  displayNames : DisplayNames.t;
  ensAddresses : EnsAddresses.t;
  nfts : Nfts.t;
}.

Definition new (streamId : string) : t :=
  mk (Usernames.new streamId) (DisplayNames.new streamId) (EnsAddresses.new streamId) (Nfts.new streamId).

Definition usernamesL : lens t Usernames.t :=
  Lens usernames (fun v s => mk v (displayNames s) (ensAddresses s) (nfts s)).
Definition displayNamesL : lens t DisplayNames.t :=
  Lens displayNames (fun v s => mk (usernames s) v (ensAddresses s) (nfts s)).
Definition ensAddressesL : lens t EnsAddresses.t :=
  Lens ensAddresses (fun v s => mk (usernames s) (displayNames s) v (nfts s)).
Definition nftsL : lens t Nfts.t :=
  Lens nfts (fun v s => mk (usernames s) (displayNames s) (ensAddresses s) v).

(** [{ userId, wrappedEncryptedData }]. *)
Definition payload : Type := string * WrappedEncryptedData.

Definition sortPayloads (payloads : list payload) : list payload :=
  js_sort (fun a b => wed_eventNum a.2 <=? wed_eventNum b.2) payloads.

(** [cleartexts?.[eventId]]. *)
Definition cleartext_of (cleartexts : option (gmap string string)) (eventId : string) : option string :=
  match cleartexts with
  | Some m => m !! eventId
  | None => None
  end.

Section Methods.
Context `{Externals}.

Definition applyUsername (cleartexts : option (gmap string string)) (encryptionEmitter : bool)
    (p : payload) : SM Usernames.t unit :=
  match wed_data p.2 with
  | None => js_return
  | Some data =>
      let eventId := bin_toHexString (wed_eventHash p.2) in
      Usernames.addEncryptedData eventId data p.1 false (cleartext_of cleartexts eventId)
        encryptionEmitter false
  end.

Definition applyDisplayName (cleartexts : option (gmap string string)) (encryptionEmitter : bool)
    (p : payload) : SM DisplayNames.t unit :=
  match wed_data p.2 with
  | None => js_return
  | Some data =>
      let eventId := bin_toHexString (wed_eventHash p.2) in
      DisplayNames.addEncryptedData eventId data p.1 false (cleartext_of cleartexts eventId)
        encryptionEmitter false
  end.

Definition applySnapshot (usernames displayNames : list payload) (ensAddresses : list (string * bytes))
    (nfts : list (string * Nft)) (cleartexts : option (gmap string string))
    (encryptionEmitter : bool) : SM t unit :=
  js_zoom usernamesL (js_for (sortPayloads usernames) (applyUsername cleartexts encryptionEmitter));;
  js_zoom displayNamesL (js_for (sortPayloads displayNames) (applyDisplayName cleartexts encryptionEmitter));;
  js_zoom ensAddressesL (EnsAddresses.applySnapshot ensAddresses);;
  js_zoom nftsL (Nfts.applySnapshot nfts).

Definition onConfirmedEvent (eventId : string) (stateEmitter : bool) : SM t unit :=
  js_zoom usernamesL (Usernames.onConfirmEvent eventId stateEmitter);;
  js_zoom displayNamesL (DisplayNames.onConfirmEvent eventId stateEmitter);;
  js_zoom ensAddressesL (EnsAddresses.onConfirmEvent eventId stateEmitter);;
  js_zoom nftsL (Nfts.onConfirmEvent eventId stateEmitter).

(** Usernames were conveyed in the snapshot. *)
Definition prependEvent : SM t unit := js_return.

Definition appendDisplayName (eventId : string) (data : EncryptedData) (userId : string)
    (cleartext : option string) (encryptionEmitter stateEmitter : bool) : SM t unit :=
  js_zoom displayNamesL
    (DisplayNames.addEncryptedData eventId data userId true cleartext encryptionEmitter stateEmitter).

Definition appendUsername (eventId : string) (data : EncryptedData) (userId : string)
    (cleartext : option string) (encryptionEmitter stateEmitter : bool) : SM t unit :=
  js_zoom usernamesL
    (Usernames.addEncryptedData eventId data userId true cleartext encryptionEmitter stateEmitter).

Definition appendEnsAddress (eventId : string) (EnsAddress : bytes) (userId : string)
    (stateEmitter : bool) : SM t unit :=
  js_zoom ensAddressesL (EnsAddresses.addEnsAddressEvent eventId EnsAddress userId true stateEmitter).

Definition appendNft (eventId : string) (nft : Nft) (userId : string) (stateEmitter : bool) : SM t unit :=
  js_zoom nftsL (Nfts.addNftEvent eventId nft userId true stateEmitter).

Definition onDecryptedContent (eventId content : string) (emitter : bool) : SM t unit :=
  js_zoom displayNamesL (DisplayNames.onDecryptedContent eventId content emitter);;
  js_zoom usernamesL (Usernames.onDecryptedContent eventId content emitter).

Definition userInfo (s : t) (userId : string)
    : result (Usernames.usernameInfo * DisplayNames.displayNameInfo * option string * option Nfts.nftInfo) :=
  match Nfts.info (nfts s) userId with
  | Throw e => Throw e
  | Ok nft => Ok (Usernames.info (usernames s) userId, DisplayNames.info (displayNames s) userId,
                  EnsAddresses.info (ensAddresses s) userId, nft)
  end.
End Methods.

(** ** Snapshot order *)

Definition payload_checksum (p : payload) : option string :=
  match wed_data p.2 with
  | Some d => truthy_str (ed_checksum d)
  | None => None
  end.

Definition has_checksum (c : string) (p : payload) : bool :=
  bool_decide (payload_checksum p = Some c).

(** ** Lemmas *)

Section Properties.
Context `{Externals}.

Definition event_of (p : payload) : string := bin_toHexString (wed_eventHash p.2).

(** One payload of the snapshot, on a well-formed state: the claims of other users
    stay, and the payload's user gets the checksum when nobody holds it. *)
Lemma applyUsername_spec cleartexts em p s :
  Usernames.wf s -> event_of p <> "" -> Usernames.usernameEvents s !! event_of p = None ->
  let s' := post (applyUsername cleartexts em p s) in
  res (applyUsername cleartexts em p s) = Ok tt
  /\ Usernames.wf s'
  /\ (forall v e c, v <> p.1 -> Usernames.claims s v e c <-> Usernames.claims s' v e c)
  /\ (forall e, e <> event_of p -> Usernames.usernameEvents s !! e = None ->
        Usernames.usernameEvents s' !! e = None)
  /\ (forall c, payload_checksum p = Some c -> Usernames.usernameAvailable s c = true ->
        Usernames.claims s' p.1 (event_of p) c)
  /\ (forall v e c, Usernames.claims s' v e c ->
        Usernames.claims s v e c \/ (v = p.1 /\ payload_checksum p = Some c)).
Proof.
  intros Hwf Hne Hfresh. cbv zeta. unfold applyUsername, payload_checksum.
  destruct (wed_data p.2) as [d|]; [|by split_and!; auto].
  fold (event_of p).
  assert (Hstep : Usernames.wf (post (Usernames.addEncryptedData (event_of p) d p.1 false
     (cleartext_of cleartexts (event_of p)) em false s)))
    by (eapply Usernames.step_wf; [by apply Usernames.step_addEncryptedData|done]).
  pose proof (Usernames.addEncryptedData_wf_spec s (event_of p) d p.1 false
     (cleartext_of cleartexts (event_of p)) em false Hwf Hne Hfresh) as Hspec. cbv zeta in Hspec.
  destruct (truthy_str (ed_checksum d)) as [c|] eqn:Hc.
  2: { rewrite Hspec. by split_and!; auto. }
  destruct (Usernames.usernameAvailable s c) eqn:Hav.
  2: { rewrite Hspec. split_and!; try done; naive_solver congruence. }
  destruct Hspec as (Hres & Hcl & Hnew). split_and!; try done.
  - intros v e x Hv. rewrite Hcl. naive_solver.
  - intros e He Hnone. apply eq_None_not_Some. intros [ent Hent].
    destruct (Usernames.wf_event _ Hstep _ _ Hent) as (_ & _ & x & Hx & _).
    assert (Hcx : Usernames.claims (post (Usernames.addEncryptedData (event_of p) d p.1 false
      (cleartext_of cleartexts (event_of p)) em false s)) (Usernames.userId ent) e x)
      by (by exists ent).
    apply Hcl in Hcx as [(_ & ? & _)|(_ & ent' & Hent' & _)]; [done|]. congruence.
  - intros x [= <-] _. apply Hcl. auto.
  - intros v e x Hx%Hcl. naive_solver.
Qed.

(** Processing payloads of distinct users in order: the first one with a checksum
    that nobody holds yet gets it. *)
Lemma applyUsernames_first cleartexts em ps s c p :
  Usernames.wf s ->
  NoDup (map fst ps) -> NoDup (map event_of ps) ->
  (forall q, q ∈ ps -> event_of q <> "" /\ Usernames.usernameEvents s !! event_of q = None) ->
  Usernames.usernameAvailable s c = true ->
  List.find (has_checksum c) ps = Some p ->
  let s' := post (js_for ps (applyUsername cleartexts em) s) in
  res (js_for ps (applyUsername cleartexts em) s) = Ok tt
  /\ Usernames.wf s' /\ Usernames.claims s' p.1 (event_of p) c.
Proof.
  intros Hwf Hus Hes Hfresh Hav Hfind. cbv zeta.
  assert (Hkeep : forall qs s1 u e, Usernames.wf s1 -> NoDup (map event_of qs) ->
    (forall q, q ∈ qs -> event_of q <> "" /\ Usernames.usernameEvents s1 !! event_of q = None) ->
    u ∉ map fst qs -> Usernames.claims s1 u e c ->
    res (js_for qs (applyUsername cleartexts em) s1) = Ok tt
    /\ Usernames.wf (post (js_for qs (applyUsername cleartexts em) s1))
    /\ Usernames.claims (post (js_for qs (applyUsername cleartexts em) s1)) u e c).
  { induction qs as [|q qs IH]; intros s1 u e Hwf1 Hnd Hf Hu Hcl; [done|].
    destruct (Hf q) as [Hq1 Hq2]; [left|].
    destruct (applyUsername_spec cleartexts em q s1 Hwf1 Hq1 Hq2) as (Hr & Hwf2 & Hothers & Hev & _).
    cbn [js_for]. rewrite (emits_bind_total _ _ _ _ Hr). cbn [res post].
    apply NoDup_cons in Hnd as [Hq Hnd]. apply not_elem_of_cons in Hu as [Hu1 Hu2].
    apply IH; try done.
    - intros q' Hq'. split; [apply Hf; by right|]. apply Hev; [|apply Hf; by right].
      intros Heq. apply Hq. rewrite <- Heq. by apply list_elem_of_fmap_2.
    - by apply Hothers. }
  revert s Hwf Hfresh Hav. induction ps as [|q ps IH]; intros s Hwf Hfresh Hav; [done|].
  destruct (Hfresh q) as [Hq1 Hq2]; [left|].
  destruct (applyUsername_spec cleartexts em q s Hwf Hq1 Hq2)
    as (Hr & Hwf2 & Hothers & Hev & Hget & Hback).
  cbn [js_for]. rewrite (emits_bind_total _ _ _ _ Hr). cbn [res post].
  cbn [map] in Hus, Hes. apply NoDup_cons in Hus as [Hqu Hus]. apply NoDup_cons in Hes as [Hqe Hes].
  assert (Hfresh' : forall q', q' ∈ ps -> event_of q' <> ""
    /\ Usernames.usernameEvents (post (applyUsername cleartexts em q s)) !! event_of q' = None).
  { intros q' Hq'. split; [apply Hfresh; by right|]. apply Hev; [|apply Hfresh; by right].
    intros Heq. apply Hqe. rewrite <- Heq. by apply list_elem_of_fmap_2. }
  simpl in Hfind. unfold has_checksum at 1 in Hfind. case_bool_decide as Hc.
  - injection Hfind as ->. apply Hkeep; auto.
  - apply IH; try done. unfold Usernames.usernameAvailable in *.
    rewrite negb_true_iff, bool_decide_eq_false in *. intros Hin.
    destruct (Usernames.wf_checksum _ Hwf2 c Hin) as (v & e & Hcl).
    apply Hback in Hcl as [(ent & Hent & _ & Hx)|[_ Hx]]; [|done].
    destruct (Usernames.wf_event _ Hwf _ _ Hent) as (_ & _ & x & Hx' & _ & Hinx). congruence.
Qed.

Lemma find_sorted_min ps c p :
  List.find (has_checksum c) (sortPayloads ps) = Some p ->
  p ∈ ps /\ payload_checksum p = Some c
  /\ forall q, q ∈ ps -> payload_checksum q = Some c -> wed_eventNum p.2 <= wed_eventNum q.2.
Proof.
  intros Hf. set (R := fun a b : payload => (wed_eventNum a.2 <=? wed_eventNum b.2) = true).
  assert (Hs : StronglySorted R (sortPayloads ps)).
  { apply Sorted_StronglySorted; [intros x y z; unfold R; lia|].
    apply js_sort_sorted. intros x y. lia. }
  assert (Hin : forall q, q ∈ sortPayloads ps <-> q ∈ ps) by (intros; apply js_sort_elem).
  assert (Hgoal : forall l, StronglySorted R l -> List.find (has_checksum c) l = Some p ->
    p ∈ l /\ payload_checksum p = Some c
    /\ forall q, q ∈ l -> payload_checksum q = Some c -> wed_eventNum p.2 <= wed_eventNum q.2).
  { clear. induction l as [|x l IH]; [done|]. intros [Hl Hx]%StronglySorted_inv. simpl.
    unfold has_checksum at 1. case_bool_decide as Hc.
    - intros [= ->]. split_and!; [left|done|]. intros q [->|Hq]%elem_of_cons _; [lia|].
      rewrite Forall_forall in Hx. specialize (Hx q Hq). unfold R in Hx. lia.
    - intros Hf. destruct (IH Hl Hf) as (H1 & H2 & H3). split_and!; [by right|done|].
      intros q [->|Hq]%elem_of_cons Hqc; [done|]. auto. }
  destruct (Hgoal _ Hs Hf) as (H1 & H2 & H3). split_and!; [by apply Hin|done|].
  intros q Hq. by apply H3, Hin.
Qed.

(** C9: when a snapshot is loaded, the members being distinct and their username
    events distinct, whoever claimed a username first in the stream gets it: for
    every claimed checksum some member of least event number among its claimants
    holds it afterwards, and so nobody else does. *)
Theorem snapshot_first_claim_wins sid (names : list payload) dnames enss nfts cleartexts em c q :
  NoDup (map fst names) -> NoDup (map event_of names) ->
  (forall p, p ∈ names -> event_of p <> "") ->
  q ∈ names -> payload_checksum q = Some c ->
  exists p, p ∈ names /\ payload_checksum p = Some c
    /\ (forall p', p' ∈ names -> payload_checksum p' = Some c -> wed_eventNum p.2 <= wed_eventNum p'.2)
    /\ let s' := usernames (post (applySnapshot names dnames enss nfts cleartexts em (new sid))) in
       forall v e, Usernames.claims s' v e c <-> v = p.1 /\ e = event_of p.
Proof.
  intros Hus Hes Hne Hq Hqc.
  assert (Hex : exists p, List.find (has_checksum c) (sortPayloads names) = Some p).
  { destruct (List.find (has_checksum c) (sortPayloads names)) as [p|] eqn:Hf; [eauto|].
    assert (Hn : has_checksum c q = false).
    { apply (List.find_none _ _ Hf q), list_elem_of_In. by apply js_sort_elem. }
    unfold has_checksum in Hn. by rewrite bool_decide_eq_true_2 in Hn. }
  destruct Hex as [p Hf]. destruct (find_sorted_min names c p Hf) as (H1 & H2 & H3).
  exists p. split_and!; try done. cbv zeta.
  assert (Hperm : sortPayloads names ≡ₚ names) by apply js_sort_perm.
  destruct (applyUsernames_first cleartexts em (sortPayloads names) (Usernames.new sid) c p)
    as (Hr & Hwf & Hcl); try done.
  - apply Usernames.wf_new.
  - by rewrite Hperm.
  - by rewrite Hperm.
  - intros p' Hp'. rewrite Hperm in Hp'. auto.
  - assert (Hpost : usernames (post (applySnapshot names dnames enss nfts cleartexts em (new sid)))
      = post (js_for (sortPayloads names) (applyUsername cleartexts em) (Usernames.new sid))).
    { unfold applySnapshot. js_unfold. simpl.
      destruct (js_for (sortPayloads names) _ (Usernames.new sid)) as [[[]|err] s1 w1]; simpl in *; [|done].
      destruct (js_for (sortPayloads dnames) _ _) as [[[]|err] s2 w2]; simpl; [|done].
      destruct (EnsAddresses.applySnapshot _ _) as [[[]|err] s3 w3]; simpl; [|done].
      by destruct (Nfts.applySnapshot _ _). }
    rewrite Hpost. intros v e. split; [|by intros [-> ->]].
    intros Hv. assert (e = event_of p) as -> by (by eapply (Usernames.wf_unique _ Hwf)).
    destruct Hv as (x & Hx & Hxu & _), Hcl as (y & Hy & Hyu & _).
    assert (Some x = Some y) as [= ->] by (etransitivity; [symmetry; exact Hx|exact Hy]).
    split; congruence.
Qed.
End Properties.

Definition demo_payload (u : string) (num : Z) (hash : byte) (name : string) : payload :=
  (u, mkWrappedEncryptedData (Some (mkEncryptedData "" "" "" "" (Some name) None)) num [hash]).

(** Two members with the same name, listed against the order of their events. *)
Lemma snapshot_first_claim_wins_witness :
  exists p, p ∈ [demo_payload "bob" 7 x02 "c"; demo_payload "alice" 3 x01 "c"]
    /\ payload_checksum p = Some "c"
    /\ (forall p', p' ∈ [demo_payload "bob" 7 x02 "c"; demo_payload "alice" 3 x01 "c"] ->
          payload_checksum p' = Some "c" -> wed_eventNum p.2 <= wed_eventNum p'.2)
    /\ let s' := usernames (post (applySnapshot
         [demo_payload "bob" 7 x02 "c"; demo_payload "alice" 3 x01 "c"] [] [] [] None false (new "s"))) in
       forall v e, Usernames.claims s' v e "c" <-> v = p.1 /\ e = event_of p.
Proof.
  apply (snapshot_first_claim_wins "s" _ [] [] [] None false "c" (demo_payload "bob" 7 x02 "c")).
  - apply (bool_decide_unpack _). vm_compute. done.
  - apply (bool_decide_unpack _). vm_compute. done.
  - intros p [->|[->|[]%elem_of_nil]%elem_of_cons]%elem_of_cons; done.
  - left.
  - done.
Defined.
