(* ===== verification/Members.v ===== *)
(** * Members of a stream (core/sdk/src/streamStateView_Members.ts)

    Owns the member objects, the confirmed and pending memberships and the user
    metadata. A member payload takes effect in two phases: [appendEvent] when the
    event is seen, [onConfirmedEvent] when a miniblock header confirms it. *)

From S2P Require Import Prelude Proto Externals ToyExternals Binary StreamId Types SdkUtils.
From S2P Require Import MembershipState Usernames DisplayNames EnsAddresses Nfts.
From S2P Require Import Solicitations UserMetadata.

Record t := mk {
  streamId : string;
  joined : jsmap StreamMember;
  membership : MembershipState.t;
  userMetadata : UserMetadata.t;
}.

Definition new (streamId : string) : t :=
  mk streamId [] (MembershipState.new streamId) (UserMetadata.new streamId).

Definition set_joined f s := mk (streamId s) (f (joined s)) (membership s) (userMetadata s).
Definition membershipL : lens t MembershipState.t :=
  Lens membership (fun v s => mk (streamId s) (joined s) v (userMetadata s)).
Definition userMetadataL : lens t UserMetadata.t :=
  Lens userMetadata (fun v s => mk (streamId s) (joined s) (membership s) v).

(** The member object stored under [k], which is [m0] when the method starts:
    its methods assign to its properties. *)
Definition memberL (k : string) (m0 : StreamMember) : lens t StreamMember :=
  Lens (fun s => default m0 (jm_get k (joined s))) (fun m => set_joined (jm_set k m)).

(** [filter(isDefined).map] over the members, for one optional property. *)
Definition collect {A} (f : StreamMember -> option A) (ms : list StreamMember) : list (string * A) :=
  omap (fun m => match f m with Some v => Some (userId m, v) | None => None end) ms.

(** [new WrappedEncryptedData({ data })]. *)
Definition wrap (data : EncryptedData) : WrappedEncryptedData :=
  mkWrappedEncryptedData (Some data) 0 [].

(** The member object made for a [joined] entry of a snapshot. *)
Definition member_of_snapshot (userId : string) (member : Snapshot_Member) : StreamMember :=
  {| Solicitations.userId := userId;
     userAddress := sm_userAddress member;
     miniblockNum := Some (sm_miniblockNum member);
     eventNum := Some (sm_eventNum member);
     solicitations := map content_of_solicitation (sm_solicitations member);
     encryptedUsername := sm_username member;
     encryptedDisplayName := sm_displayName member;
     ensAddress := Some (sm_ensAddress member);
     nft := sm_nft member |}.

Section Methods.
Context `{Externals}.

Definition applySnapshot_member (member : Snapshot_Member) : SM t unit :=
  userId ← js_lift (userIdFromAddress (sm_userAddress member));
  js_modify (set_joined (jm_set userId (member_of_snapshot userId member)));;
  js_zoom membershipL
    (MembershipState.applyMembershipEvent userId SO_JOIN MembershipState.Apply_confirmed false).

Definition applySnapshot (snapshot : Snapshot) (cleartexts : option (gmap string string))
    (encryptionEmitter : bool) : SM t unit :=
  match snap_members snapshot with
  | None => js_return
  | Some members =>
      js_for members applySnapshot_member;;
      self ← js_get;
      let ms := jm_values (joined self) in
      let usernames := collect encryptedUsername ms in
      let displayNames := collect encryptedDisplayName ms in
      let ensAddresses := collect ensAddress ms in
      let nfts := collect nft ms in
      js_zoom userMetadataL (UserMetadata.applySnapshot usernames displayNames ensAddresses nfts
                               cleartexts encryptionEmitter);;
      initSolicitations (streamId self) ms encryptionEmitter
  end.

(** Everything relevant was in the snapshot. *)
Definition prependEvent : SM t unit := js_return.

(** [this.joined.get(userId)] and the check that it is there. *)
Definition checkedMember (userId message : string) : SM t StreamMember :=
  self ← js_get;
  let stateMember := jm_get userId (joined self) in
  js_check (isDefined stateMember) message;;
  match stateMember with
  | Some m => mret m
  | None => js_throw (JsError message)
  end.

Definition joinedMember (userId : string) (event : StreamTimelineEvent) (m : Membership) : StreamMember :=
  mkStreamMember userId (ms_userAddress m) (te_miniblockNum event) (Some (te_eventNum event))
    [] None None None None.

(** The [membership] case of [appendEvent]. *)
Definition appendMembership (event : StreamTimelineEvent) (m : Membership) (stateEmitter : bool)
    : SM t unit :=
  js_zoom membershipL (js_modify
    (MembershipState.set_pendingMembershipEvents (insert (te_hashStr event) m)));;
  userId ← js_lift (userIdFromAddress (ms_userAddress m));
  (match ms_op m with
   | SO_JOIN =>
       self ← js_get;
       js_check (negb (jm_has userId (joined self))) "user already joined";;
       js_modify (set_joined (jm_set userId (joinedMember userId event m)))
   | SO_LEAVE => js_modify (set_joined (jm_delete userId))
   | _ => js_return
   end);;
  js_zoom membershipL
    (MembershipState.applyMembershipEvent userId (ms_op m) MembershipState.Apply_pending stateEmitter).

(** [event] carries [payload]; the key exchange cases sort the session ids of
    the payload in place, and the payload as it is left is returned. *)
Definition appendEvent (event : StreamTimelineEvent) (cleartext : option string)
    (payload : option MemberPayload_content) (encryptionEmitter stateEmitter : bool)
    : SM t (option MemberPayload_content) :=
  self ← js_get;
  let creatorUserId := te_creatorUserId event in
  match payload with
  | Some (MemberPayload_membership m) =>
      appendMembership event m stateEmitter;; mret payload
  | Some (MemberPayload_keySolicitation v) =>
      stateMember ← checkedMember creatorUserId "key solicitation from non-member";
      v' ← js_zoom (memberL creatorUserId stateMember)
             (applySolicitation (streamId self) v encryptionEmitter);
      mret (Some (MemberPayload_keySolicitation v'))
  | Some (MemberPayload_keyFulfillment v) =>
      userId ← js_lift (userIdFromAddress (kf_userAddress v));
      stateMember ← checkedMember userId "key fulfillment from non-member";
      v' ← js_zoom (memberL userId stateMember)
             (applyFulfillment (streamId self) v encryptionEmitter);
      mret (Some (MemberPayload_keyFulfillment v'))
  | Some (MemberPayload_displayName v) =>
      stateMember ← checkedMember creatorUserId "displayName from non-member";
      js_zoom (memberL creatorUserId stateMember)
        (js_modify (set_encryptedDisplayName (Some (wrap v))));;
      js_zoom userMetadataL (appendDisplayName (te_hashStr event) v creatorUserId cleartext
                               encryptionEmitter stateEmitter);;
      mret payload
  | Some (MemberPayload_username v) =>
      stateMember ← checkedMember creatorUserId "username from non-member";
      js_zoom (memberL creatorUserId stateMember)
        (js_modify (set_encryptedUsername (Some (wrap v))));;
      js_zoom userMetadataL (appendUsername (te_hashStr event) v creatorUserId cleartext
                               encryptionEmitter stateEmitter);;
      mret payload
  | Some (MemberPayload_ensAddress v) =>
      checkedMember creatorUserId "username from non-member";;
      js_zoom userMetadataL (appendEnsAddress (te_hashStr event) v creatorUserId stateEmitter);;
      mret payload
  | Some (MemberPayload_nft v) =>
      checkedMember creatorUserId "nft from non-member";;
      js_zoom userMetadataL (appendNft (te_hashStr event) v creatorUserId stateEmitter);;
      mret payload
  | None => mret payload
  end.

(** The [membership] case of [onConfirmedEvent]. *)
Definition confirmMembership (event : StreamTimelineEvent) (stateEmitter : bool) : SM t unit :=
  let eventId := te_hashStr event in
  self ← js_get;
  match MembershipState.pendingMembershipEvents (membership self) !! eventId with
  | None => js_return
  | Some m =>
      js_zoom membershipL (js_modify (MembershipState.set_pendingMembershipEvents (delete eventId)));;
      userId ← js_lift (userIdFromAddress (ms_userAddress m));
      (match jm_get userId (joined self) with
       | None => js_return
       | Some streamMember =>
           js_zoom (memberL userId streamMember)
             (js_modify (set_position (te_miniblockNum event) (Some (te_eventNum event))))
       end);;
      js_zoom membershipL
        (MembershipState.applyMembershipEvent userId (ms_op m) MembershipState.Apply_confirmed stateEmitter)
  end.

Definition onConfirmedEvent (event : StreamTimelineEvent) (payload : option MemberPayload_content)
    (stateEmitter : bool) : SM t unit :=
  match payload with
  | Some (MemberPayload_membership _) => confirmMembership event stateEmitter
  | Some (MemberPayload_keyFulfillment _) | Some (MemberPayload_keySolicitation _) => js_return
  | Some (MemberPayload_displayName _) | Some (MemberPayload_username _)
  | Some (MemberPayload_ensAddress _) | Some (MemberPayload_nft _) =>
      js_zoom userMetadataL (UserMetadata.onConfirmedEvent (te_hashStr event) stateEmitter)
  | None => js_return
  end.

Definition onDecryptedContent (eventId : string) (content : DecryptedContent) (stateEmitter : bool)
    : SM t unit :=
  match content with
  | DecryptedContent_Text text =>
      js_zoom userMetadataL (UserMetadata.onDecryptedContent eventId text stateEmitter)
  | _ => js_return
  end.
End Methods.

Definition isMemberJoined (s : t) (userId : string) : bool :=
  bool_decide (userId ∈ MembershipState.joinedUsers (membership s)).
Definition isMember (s : t) (op : MembershipOp) (userId : string) : bool :=
  MembershipState.isMember (membership s) op userId.
Definition participants (s : t) : gset string := MembershipState.participants (membership s).
Definition joinedParticipants (s : t) : gset string := MembershipState.joinedParticipants (membership s).
Definition joinedOrInvitedParticipants (s : t) : gset string :=
  MembershipState.joinedOrInvitedParticipants (membership s).

(** ** Specification: the member map and the two-phase memberships *)

Section Spec.
Context `{Externals}.

Definition user_of (m : Membership) : option string :=
  match userIdFromAddress (ms_userAddress m) with
  | Ok u => Some u
  | Throw _ => None
  end.

(** Membership events that were appended and not yet confirmed, oldest first. *)
Definition queue : Type := list (string * Membership).

Definition queued_ops (u : string) (q : queue) : list MembershipOp :=
  omap (fun p => if decide (user_of p.2 = Some u) then Some (ms_op p.2) else None) q.

(** The member map runs ahead of the confirmed memberships by the queue. *)
Record tracks (s : t) (q : queue) : Prop := {
  tr_hashes : NoDup (map fst q);
  tr_pending : MembershipState.pendingMembershipEvents (membership s) = list_to_map q;
  tr_keys : NoDup (jm_keys (joined s));
  tr_joined : forall u, jm_has u (joined s)
    = MembershipState.last_join_leave (queued_ops u q) (isMemberJoined s u);
}.

Definition is_membership (payload : option MemberPayload_content) : bool :=
  match payload with
  | Some (MemberPayload_membership _) => true
  | _ => false
  end.

(** Calls of the owner: events are confirmed in the order they were appended,
    other member payloads and decryptions come at any time. Calls that throw
    count like the others. *)
Inductive fifo_step : t * queue -> t * queue -> Prop :=
| fifo_append s q event m cleartext em1 em2 :
    te_hashStr event ∉ map fst q ->
    fifo_step (s, q)
      (post (appendEvent event cleartext (Some (MemberPayload_membership m)) em1 em2 s),
       q ++ [(te_hashStr event, m)])
| fifo_append_other s q event cleartext payload em1 em2 :
    is_membership payload = false ->
    fifo_step (s, q) (post (appendEvent event cleartext payload em1 em2 s), q)
| fifo_confirm s q event m m' em :
    fifo_step (s, (te_hashStr event, m) :: q)
      (post (onConfirmedEvent event (Some (MemberPayload_membership m')) em s), q)
| fifo_confirm_other s q event payload em :
    is_membership payload = false ->
    fifo_step (s, q) (post (onConfirmedEvent event payload em s), q)
| fifo_decrypted s q eventId content em :
    fifo_step (s, q) (post (onDecryptedContent eventId content em s), q).

(** ** Lemmas *)

(** The part of the state that the memberships and the member map are about. *)
Definition shape (ks : list string) (ms : MembershipState.t) (s : t) : Prop :=
  jm_keys (joined s) = ks /\ membership s = ms.

Lemma shape_metadata {A} ks ms (m : SM UserMetadata.t A) :
  preserves (shape ks ms) (js_zoom userMetadataL m).
Proof. intros s Hs. unfold js_zoom. by destruct (m _). Qed.

Lemma shape_member {A} ks ms k m0 (m : SM StreamMember A) :
  k ∈ ks -> preserves (shape ks ms) (js_zoom (memberL k m0) m).
Proof.
  intros Hk s [Hs1 Hs2]. unfold js_zoom. destruct (m _) as [r m' w]. simpl.
  split; [|done]. simpl. rewrite jm_keys_set, Hs1. by rewrite decide_True.
Qed.

Lemma shape_checked {A} ks ms k msg (f : StreamMember -> SM t A) :
  (forall m, k ∈ ks -> preserves (shape ks ms) (f m)) ->
  preserves (shape ks ms) (checkedMember k msg ≫= f).
Proof.
  intros Hf s Hs. unfold checkedMember, js_check. js_unfold.
  destruct (jm_get k (joined s)) as [m|] eqn:Hm; simpl; [|done].
  assert (Hk : k ∈ ks).
  { destruct Hs as [<- _]. destruct (decide (k ∈ jm_keys (joined s))) as [|Hn]; [done|].
    apply jm_get_None in Hn. congruence. }
  specialize (Hf m Hk s Hs). by destruct (f m s).
Qed.

Lemma append_other_shape ks ms event cleartext payload em1 em2 :
  is_membership payload = false ->
  preserves (shape ks ms) (appendEvent event cleartext payload em1 em2).
Proof.
  intros Hp. unfold appendEvent. apply preserves_bind; [auto with js|intros self].
  destruct payload as [[]|]; try done; auto with js.
  2: apply preserves_bind; [auto with js|intros u].
  all: apply shape_checked; intros m0 Hm0; repeat (apply preserves_bind; [|intros ?]);
    eauto using shape_member, shape_metadata with js.
Qed.

Lemma confirm_other_shape ks ms event payload em :
  is_membership payload = false ->
  preserves (shape ks ms) (onConfirmedEvent event payload em).
Proof. intros Hp. destruct payload as [[]|]; try done; eauto using shape_metadata with js. Qed.

Lemma decrypted_shape ks ms eventId content em :
  preserves (shape ks ms) (onDecryptedContent eventId content em).
Proof. destruct content; eauto using shape_metadata with js. Qed.

Lemma jm_has_keys {V} u (m : jsmap V) : jm_has u m = bool_decide (u ∈ jm_keys m).
Proof.
  destruct (bool_decide_reflect (u ∈ jm_keys m)) as [Hu|Hu].
  - destruct (jm_has u m) eqn:Hh; [done|]. unfold jm_has, is_defined in Hh.
    destruct (jm_get u m) eqn:Hg; [done|]. by apply jm_get_None in Hg.
  - apply jm_get_None in Hu. unfold jm_has. by rewrite Hu.
Qed.

Lemma tracks_shape s s' q :
  tracks s q -> shape (jm_keys (joined s)) (membership s) s' -> tracks s' q.
Proof.
  intros [H1 H2 H3 H4] [Hk Hm]. split; rewrite ?Hk, ?Hm; try done.
  intros u. unfold isMemberJoined. rewrite Hm, <- H4, !jm_has_keys. by rewrite Hk.
Qed.

Lemma last_join_leave_app ops1 ops2 b :
  MembershipState.last_join_leave (ops1 ++ ops2) b
  = MembershipState.last_join_leave ops2 (MembershipState.last_join_leave ops1 b).
Proof. revert b. induction ops1 as [|[] ops1 IH]; intros b; simpl; auto. Qed.

Lemma queued_ops_app u q1 q2 : queued_ops u (q1 ++ q2) = queued_ops u q1 ++ queued_ops u q2.
Proof. apply omap_app. Qed.

Lemma pending_unchanged u op em ms :
  let ms' := post (MembershipState.applyMembershipEvent u op MembershipState.Apply_pending em ms) in
  MembershipState.pendingMembershipEvents ms' = MembershipState.pendingMembershipEvents ms
  /\ MembershipState.joinedUsers ms' = MembershipState.joinedUsers ms.
Proof. by destruct op. Qed.

Lemma jm_has_set {V} k u (v : V) m : jm_has u (jm_set k v m) = bool_decide (k = u) || jm_has u m.
Proof. unfold jm_has. rewrite jm_get_set. by repeat case_decide; case_bool_decide. Qed.

Lemma jm_has_delete {V} k u (m : jsmap V) :
  NoDup (jm_keys m) -> jm_has u (jm_delete k m) = negb (bool_decide (k = u)) && jm_has u m.
Proof.
  intros. unfold jm_has. rewrite jm_get_delete by done. by repeat case_decide; case_bool_decide.
Qed.

(** Running the last part of [appendMembership]: only the pending sets change. *)
Lemma zoom_pending u op em s :
  let s' := post (js_zoom membershipL
    (MembershipState.applyMembershipEvent u op MembershipState.Apply_pending em) s) in
  joined s' = joined s
  /\ MembershipState.pendingMembershipEvents (membership s')
     = MembershipState.pendingMembershipEvents (membership s)
  /\ forall v, isMemberJoined s' v = isMemberJoined s v.
Proof.
  pose proof (pending_unchanged u op em (membership s)) as [H1 H2]. cbv zeta. unfold js_zoom. simpl.
  destruct (MembershipState.applyMembershipEvent _ _ _ _ _) as [r ms' w]. simpl in *.
  unfold isMemberJoined. simpl. by rewrite H1, H2.
Qed.

Lemma appendMembership_effect event m em s :
  NoDup (jm_keys (joined s)) ->
  let s' := post (appendMembership event m em s) in
  MembershipState.pendingMembershipEvents (membership s')
    = <[te_hashStr event := m]> (MembershipState.pendingMembershipEvents (membership s))
  /\ NoDup (jm_keys (joined s'))
  /\ (forall v, isMemberJoined s' v = isMemberJoined s v)
  /\ forall v, jm_has v (joined s')
       = MembershipState.last_join_leave (queued_ops v [(te_hashStr event, m)]) (jm_has v (joined s)).
Proof.
  intros Hnd. cbv zeta. unfold appendMembership.
  set (s1 := mk (streamId s) (joined s) (MembershipState.set_pendingMembershipEvents
    (insert (te_hashStr event) m) (membership s)) (userMetadata s)).
  erewrite bind_Ok by (unfold js_zoom; simpl; reflexivity). fold s1. cbn [post].
  unfold queued_ops, user_of. simpl.
  destruct (userIdFromAddress (ms_userAddress m)) as [u|err].
  2: { js_simpl. done. }
  erewrite bind_Ok by reflexivity. cbn [post].
  set (branch := match ms_op m with SO_JOIN => _ | _ => _ end).
  assert (Hb : exists r s2, branch s1 = Outcome r s2 []
    /\ membership s2 = membership s1 /\ NoDup (jm_keys (joined s2))
    /\ forall v, jm_has v (joined s2) = MembershipState.last_join_leave
        (if decide (u = v) then [ms_op m] else []) (jm_has v (joined s))).
  { unfold branch, js_check, check, throwWithCode. destruct (ms_op m); js_simpl; cbn.
    1,2,5: do 2 eexists; repeat split; [done|]; intros v; by case_decide.
    - destruct (jm_has u (joined s)) eqn:Hu; simpl; do 2 eexists; repeat split.
      + done.
      + intros v. case_decide; subst; done.
      + by apply jm_set_NoDup.
      + intros v. simpl. rewrite jm_has_set. by case_decide; case_bool_decide.
    - do 2 eexists; repeat split; [by apply jm_delete_NoDup|].
      intros v. simpl. rewrite jm_has_delete by done. by case_decide; case_bool_decide. }
  destruct Hb as (r & s2 & Hb & Hm & Hnd2 & Hh).
  assert (Hj : forall v, isMemberJoined s2 v = isMemberJoined s v)
    by (intros v; unfold isMemberJoined; by rewrite Hm).
  destruct r as [[]|err].
  - erewrite bind_Ok by exact Hb. cbn [post].
    pose proof (zoom_pending u (ms_op m) em s2) as (H1 & H2 & H3).
    rewrite H1, H2, Hm. repeat split; [done| |].
    + intros v. by rewrite H3, Hj.
    + intros v. rewrite Hh. by repeat case_decide; simplify_eq.
  - erewrite bind_Throw by exact Hb. cbn [post]. rewrite Hm. repeat split; [done|done|].
    intros v. rewrite Hh. by repeat case_decide; simplify_eq.
Qed.

Lemma confirmed_joined u op em ms v :
  bool_decide (v ∈ MembershipState.joinedUsers
    (post (MembershipState.applyMembershipEvent u op MembershipState.Apply_confirmed em ms)))
  = MembershipState.last_join_leave (if decide (u = v) then [op] else [])
      (bool_decide (v ∈ MembershipState.joinedUsers ms)).
Proof.
  pose proof (MembershipState.status_of_confirmed ms u v op em) as Hst.
  apply (f_equal MembershipState.st_joined) in Hst. unfold MembershipState.status_of at 1 in Hst.
  simpl in Hst. rewrite Hst. case_decide; [by destruct op|done].
Qed.

Lemma confirmMembership_effect event m em s :
  MembershipState.pendingMembershipEvents (membership s) !! te_hashStr event = Some m ->
  let s' := post (confirmMembership event em s) in
  MembershipState.pendingMembershipEvents (membership s')
    = delete (te_hashStr event) (MembershipState.pendingMembershipEvents (membership s))
  /\ jm_keys (joined s') = jm_keys (joined s)
  /\ forall v, isMemberJoined s' v
       = MembershipState.last_join_leave (queued_ops v [(te_hashStr event, m)]) (isMemberJoined s v).
Proof.
  intros Hp. cbv zeta. unfold confirmMembership, queued_ops, user_of, isMemberJoined. js_unfold.
  rewrite Hp. simpl. destruct (userIdFromAddress (ms_userAddress m)) as [u|err]; simpl; [|done].
  set (ms1 := MembershipState.set_pendingMembershipEvents _ _).
  pose proof (MembershipState.confirmed_pending ms1 u (ms_op m) em) as [Hpend _].
  pose proof (confirmed_joined u (ms_op m) em ms1) as Hj.
  assert (Hkeys : forall sm x, jm_get u (joined s) = Some sm ->
    jm_keys (jm_set u x (joined s)) = jm_keys (joined s)).
  { intros sm x Hsm. rewrite jm_keys_set, decide_True; [done|].
    destruct (decide (u ∈ jm_keys (joined s))) as [|Hn]; [done|]. apply jm_get_None in Hn. congruence. }
  destruct (jm_get u (joined s)) as [sm|] eqn:Hu; simpl;
    destruct (MembershipState.applyMembershipEvent _ _ _ _ _) as [r ms2 w]; simpl in *;
    (split_and!; [by rewrite Hpend|try done; by eapply Hkeys|]);
    intros v; rewrite Hj; by repeat case_decide; simplify_eq.
Qed.

Lemma tracks_append s q event m cleartext em1 em2 :
  tracks s q -> te_hashStr event ∉ map fst q ->
  tracks (post (appendEvent event cleartext (Some (MemberPayload_membership m)) em1 em2 s))
    (q ++ [(te_hashStr event, m)]).
Proof.
  intros [H1 H2 H3 H4] Hnew.
  assert (Hpost : post (appendEvent event cleartext (Some (MemberPayload_membership m)) em1 em2 s)
    = post (appendMembership event m em2 s)).
  { unfold appendEvent. js_unfold. by destruct (appendMembership event m em2 s) as [[[]|] ? ?]. }
  rewrite Hpost. destruct (appendMembership_effect event m em2 s H3) as (E1 & E2 & E3 & E4).
  split.
  - rewrite map_app. apply NoDup_app. repeat split; [done| |apply NoDup_singleton].
    intros x Hx [->|[]%elem_of_nil]%elem_of_cons. done.
  - rewrite E1, H2. symmetry. by apply list_to_map_snoc.
  - done.
  - intros u. rewrite E4, H4, E3, queued_ops_app, last_join_leave_app. done.
Qed.

Lemma tracks_confirm s q event m m' em :
  tracks s ((te_hashStr event, m) :: q) ->
  tracks (post (onConfirmedEvent event (Some (MemberPayload_membership m')) em s)) q.
Proof.
  intros [H1 H2 H3 H4]. apply NoDup_cons in H1 as [Hnin H1].
  destruct (confirmMembership_effect event m em s) as (E1 & E2 & E3).
  { rewrite H2. apply lookup_insert_eq. }
  split; simpl; try done.
  - rewrite E1, H2. simpl. rewrite delete_insert_id; [done|]. by apply not_elem_of_list_to_map_1.
  - by rewrite E2.
  - intros u. rewrite E3, jm_has_keys, E2, <- jm_has_keys, H4, <- last_join_leave_app.
    by rewrite <- queued_ops_app.
Qed.

Lemma tracks_fifo c c' : fifo_step c c' -> tracks c.1 c.2 -> tracks c'.1 c'.2.
Proof.
  destruct 1; simpl; intros Ht.
  - by apply tracks_append.
  - eapply tracks_shape; [exact Ht|]. by apply append_other_shape.
  - exact (tracks_confirm s q event m m' em Ht).
  - eapply tracks_shape; [exact Ht|]. by apply confirm_other_shape.
  - eapply tracks_shape; [exact Ht|]. by apply decrypted_shape.
Qed.

(** A snapshot fills the member map and the confirmed memberships alike. *)
Lemma tracks_snapshot_member member s :
  tracks s [] -> tracks (post (applySnapshot_member member s)) [].
Proof.
  intros [H1 H2 H3 H4]. unfold applySnapshot_member. remember SO_JOIN as op eqn:Hop. js_unfold.
  destruct (userIdFromAddress _) as [u|err]; simpl; [|done].
  rewrite Hop. pose proof (MembershipState.confirmed_pending (membership s) u SO_JOIN false) as [Hpend _].
  pose proof (confirmed_joined u SO_JOIN false (membership s)) as Hj. rewrite <- Hop in *.
  destruct (MembershipState.applyMembershipEvent _ _ _ _ _) as [r ms w]. simpl in *.
  split; simpl; [done|by rewrite Hpend|by apply jm_set_NoDup|].
  intros v. unfold isMemberJoined. simpl. rewrite jm_has_set, Hj, H4, Hop.
  by case_decide; case_bool_decide.
Qed.

Lemma tracks_snapshot sid snapshot cleartexts em :
  tracks (post (applySnapshot snapshot cleartexts em (new sid))) [].
Proof.
  assert (H0 : tracks (new sid) []) by (split; try done; apply NoDup_nil_2).
  unfold applySnapshot. destruct (snap_members snapshot) as [ms|]; [|done].
  apply (preserves_bind (fun s => tracks s [])); [| |done].
  - apply preserves_for. intros m _ s. apply tracks_snapshot_member.
  - intros _ s Hs. eapply tracks_shape; [exact Hs|].
    apply preserves_bind; [auto with js|intros self|done].
    apply preserves_bind; [apply shape_metadata|intros _]. unfold initSolicitations. auto with js.
Qed.

(** C7: from a snapshot on, as long as membership events are confirmed in the order
    they were appended, the member map holds a user exactly when the confirmed
    memberships followed by the queued events say so, also when some of the calls
    threw; so with nothing left to confirm the map and the memberships agree. *)
Theorem joined_tracks_memberships sid snapshot cleartexts em s q u :
  rtc fifo_step (post (applySnapshot snapshot cleartexts em (new sid)), []) (s, q) ->
  jm_has u (joined s) = MembershipState.last_join_leave (queued_ops u q) (isMemberJoined s u)
  /\ (q = [] -> jm_has u (joined s) = isMember s SO_JOIN u).
Proof.
  intros Hr.
  assert (Ht : tracks s q).
  { change s with (s, q).1. change q with (s, q).2 at 2.
    eapply (rtc_ind_r (fun c => tracks c.1 c.2)); [|intros; by eapply tracks_fifo|exact Hr].
    apply tracks_snapshot. }
  split; [apply Ht|]. intros ->. apply Ht.
Qed.

(** The member a payload must come from, and the message of the failed check. *)
Definition required_member (event : StreamTimelineEvent) (payload : option MemberPayload_content)
    : option (result string * string) :=
  let creator := Ok (te_creatorUserId event) in
  match payload with
  | Some (MemberPayload_keySolicitation _) => Some (creator, "key solicitation from non-member")
  | Some (MemberPayload_keyFulfillment v) =>
      Some (userIdFromAddress (kf_userAddress v), "key fulfillment from non-member")
  | Some (MemberPayload_displayName _) => Some (creator, "displayName from non-member")
  | Some (MemberPayload_username _) | Some (MemberPayload_ensAddress _) =>
      Some (creator, "username from non-member")
  | Some (MemberPayload_nft _) => Some (creator, "nft from non-member")
  | _ => None
  end.

(** Key solicitations and fulfillments, names, ENS addresses and NFTs of a user
    that is not in the member map are refused with their own message, before
    anything was changed or announced. *)
Theorem nonmember_refused event cleartext payload em1 em2 s u message :
  required_member event payload = Some (Ok u, message) ->
  jm_has u (joined s) = false ->
  appendEvent event cleartext payload em1 em2 s
  = Outcome (Throw (CodeException message Err_ERR_UNSPECIFIED)) s [].
Proof.
  intros Hreq Hno. unfold jm_has in Hno.
  destruct payload as [[]|]; simpl in Hreq; simplify_eq;
    unfold appendEvent, checkedMember, js_check; js_unfold; simpl;
    try match goal with Hu : userIdFromAddress _ = _ |- _ => rewrite Hu; simpl end;
    destruct (jm_get _ (joined s)) as [m0|]; simpl in *; done.
Qed.

(** A JOIN of a user without a member object takes effect in two phases. The
    append creates the member and marks the user as pending, announcing only that;
    the confirmation of the same event clears what was pending, records the
    confirmed position and announces the new member. *)
Theorem member_join_lifecycle event event' m em s u :
  userIdFromAddress (ms_userAddress m) = Ok u -> ms_op m = SO_JOIN ->
  jm_has u (joined s) = false -> te_hashStr event' = te_hashStr event ->
  let o1 := appendEvent event None (Some (MemberPayload_membership m)) em true s in
  let o2 := onConfirmedEvent event' (Some (MemberPayload_membership m)) true (post o1) in
  (res o1 = Ok (Some (MemberPayload_membership m))
   /\ jm_get u (joined (post o1)) = Some (joinedMember u event m)
   /\ isMember (post o1) SO_JOIN u = isMember s SO_JOIN u
   /\ (u ∈ MembershipState.pendingJoinedUsers (membership (post o1)))
   /\ emits o1 = [streamPendingMembershipUpdated (MembershipState.streamId (membership s)) u])
  /\ (res o2 = Ok tt
   /\ jm_get u (joined (post o2))
      = Some (set_position (te_miniblockNum event') (Some (te_eventNum event')) (joinedMember u event m))
   /\ isMember (post o2) SO_JOIN u = true
   /\ (u ∉ MembershipState.pendingJoinedUsers (membership (post o2)))
   /\ MembershipState.pendingMembershipEvents (membership (post o2)) !! te_hashStr event = None
   /\ emits o2 = [streamNewUserJoined (MembershipState.streamId (membership s)) u;
                  streamMembershipUpdated (MembershipState.streamId (membership s)) u]).
Proof.
  intros Hu Hop Hno Hh. cbv zeta.
  unfold appendEvent, appendMembership, onConfirmedEvent, confirmMembership, js_check, isMember,
    MembershipState.applyMembershipEvent, MembershipState.emitMembershipChange. js_unfold.
  rewrite Hop. simpl. rewrite Hu. simpl. rewrite Hno. simpl.
  rewrite Hh, lookup_insert_eq. simpl. rewrite Hu. simpl. rewrite jm_get_set_eq. simpl.
  rewrite Hop, jm_get_set_eq. simpl. rewrite lookup_delete_eq.
  split_and!; try done; [set_solver|by rewrite jm_get_set_eq| |set_solver].
  apply bool_decide_eq_true. set_solver.
Qed.
End Spec.

Definition demo_address : bytes := replicate 20 x01.
Definition demo_user : string := "0x0101010101010101010101010101010101010101".
Definition demo_membership (op : MembershipOp) : Membership := mkMembership op demo_address demo_address None.
Definition demo_event (hash : string) (num : Z) : StreamTimelineEvent :=
  mkStreamTimelineEvent hash demo_user num 0 None None None None None None.
Definition demo_snapshot : Snapshot := mkSnapshot
  (Some [mkSnapshot_Member demo_address 0 0 [] None None [] None]) 0 None.

(** A LEAVE was appended to a snapshot with one member and waits for confirmation. *)
Lemma joined_tracks_memberships_witness :
  let s := post (appendEvent (demo_event "e" 5) None (Some (MemberPayload_membership (demo_membership SO_LEAVE)))
    true true (post (applySnapshot demo_snapshot None true (new "s")))) in
  jm_has demo_user (joined s) = false /\ isMemberJoined s demo_user = true.
Proof.
  destruct (joined_tracks_memberships "s" demo_snapshot None true _ _ demo_user
    (rtc_once _ _ (fifo_append (post (applySnapshot demo_snapshot None true (new "s"))) []
       (demo_event "e" 5) (demo_membership SO_LEAVE) None true true (not_elem_of_nil _)))) as [Hj _].
  split; [|vm_compute; reflexivity].
  rewrite Hj. vm_compute. reflexivity.
Defined.

Lemma nonmember_refused_witness :
  appendEvent (demo_event "e" 5) None (Some (MemberPayload_ensAddress [])) true true (new "s")
  = Outcome (Throw (CodeException "username from non-member" Err_ERR_UNSPECIFIED)) (new "s") [].
Proof. apply (nonmember_refused _ _ _ _ _ _ demo_user); reflexivity. Defined.

Lemma member_join_lifecycle_witness :
  isMember (post (onConfirmedEvent (demo_event "e" 7) (Some (MemberPayload_membership (demo_membership SO_JOIN))) true
    (post (appendEvent (demo_event "e" 5) None (Some (MemberPayload_membership (demo_membership SO_JOIN)))
      true true (new "s"))))) SO_JOIN demo_user = true.
Proof.
  destruct (member_join_lifecycle (demo_event "e" 5) (demo_event "e" 7) (demo_membership SO_JOIN)
    true (new "s") demo_user) as (_ & _ & _ & Hm & _);
    [vm_compute; reflexivity..|exact Hm].
Defined.
