(* ===== verification/Migrations.v ===== *)
(** * Snapshot migrations (core/sdk/src/migrations)

    A snapshot of an old version is brought to the current one by running the
    migrations from its version on. The second one removes the duplicates that an
    old sorted insert had left next to each other. *)

From S2P Require Import Prelude Proto Externals ToyExternals Binary.

Section Migrations.
Context `{Externals}.

(** The [for] loop of [compactFunc]: [n] iterations left, at index [i]. It
    compares neighbours of the array that it is overwriting. *)
Fixpoint compact_loop {T} (keyFn : T -> bytes) (n i j : nat) (elements : list T) : list T * nat :=
  match n with
  | O => (elements, j)
  | S n =>
      match elements !! i, elements !! (i - 1)%nat with
      | Some e2, Some e1 =>
          if negb (bin_equal (Some (keyFn e2)) (Some (keyFn e1)))
          then compact_loop keyFn n (S i) (S j) (<[j := e2]> elements)
          else compact_loop keyFn n (S i) j elements
      | _, _ => (elements, j)
      end
  end.

Definition compactFunc {T} (elements : list T) (keyFn : T -> bytes) : list T :=
  if (length elements =? 0)%nat then elements
  else
    let '(elements, j) := compact_loop keyFn (length elements - 1) 1 1 elements in
    take j elements.

Definition snapshotMigration0000 (snapshot : Snapshot) : Snapshot := snapshot.

Definition snapshotMigration0001 (snapshot : Snapshot) : Snapshot :=
  let members := match snap_members snapshot with
                 | Some joined => Some (compactFunc joined sm_userAddress)
                 | None => None
                 end in
  let content :=
    match snap_content snapshot with
    | Some (Snapshot_spaceContent v) =>
        Some (Snapshot_spaceContent (mkSpaceSnapshot (sps_inception v)
          (compactFunc (sps_channels v) spc_channelId)))
    | Some (Snapshot_userContent v) =>
        Some (Snapshot_userContent (mkUserSnapshot (us_inception v)
          (compactFunc (us_memberships v) um_streamId)))
    | Some (Snapshot_userSettingsContent v) =>
        Some (Snapshot_userSettingsContent (mkUserSettingsSnapshot (uss_inception v)
          (compactFunc (uss_fullyReadMarkers v) frm_streamId) (uss_userBlocksList v)))
    | c => c
    end in
  mkSnapshot members (snap_snapshotVersion snapshot) content.

Definition SNAPSHOT_MIGRATIONS : list (Snapshot -> Snapshot) :=
  [snapshotMigration0000; snapshotMigration0001].

(** [for (let i = version; i < currentVersion; i++)], [n] iterations left; calling
    an element outside the array throws. *)
Fixpoint migrate_loop (n : nat) (i : Z) (result : Snapshot) : Prelude.result Snapshot :=
  match n with
  | O => Ok result
  | S n =>
      if i <? 0 then Throw (JsError "SNAPSHOT_MIGRATIONS[i] is not a function")
      else match SNAPSHOT_MIGRATIONS !! Z.to_nat i with
           | Some migration => migrate_loop n (i + 1) (migration result)
           | None => Throw (JsError "SNAPSHOT_MIGRATIONS[i] is not a function")
           end
  end.

Definition migrateSnapshot (snapshot : Snapshot) : Prelude.result Snapshot :=
  let currentVersion := Z.of_nat (length SNAPSHOT_MIGRATIONS) in
  if currentVersion <=? snap_snapshotVersion snapshot then Ok snapshot
  else
    match migrate_loop (Z.to_nat (currentVersion - snap_snapshotVersion snapshot))
            (snap_snapshotVersion snapshot) snapshot with
    | Throw e => Throw e
    | Ok result => Ok (mkSnapshot (snap_members result) currentVersion (snap_content result))
    end.

(** ** Specification *)

(** The elements that differ from the one just before them. *)
Fixpoint drop_repeats {T} (keyFn : T -> bytes) (prev : T) (l : list T) : list T :=
  match l with
  | [] => []
  | x :: l =>
      if bin_equal (Some (keyFn x)) (Some (keyFn prev)) then drop_repeats keyFn x l
      else x :: drop_repeats keyFn x l
  end.

(** ** Lemmas *)

(** What the loop does from index [i] on: [kept] is the compacted prefix, [junk]
    the slots between [j] and [i] that were already consumed, the last of which
    is still [prev]. *)
Lemma compact_loop_spec {T} (keyFn : T -> bytes) l kept junk prev :
  last (kept ++ junk) = Some prev ->
  let '(els, j) := compact_loop keyFn (length l) (length (kept ++ junk)) (length kept)
                     (kept ++ junk ++ l) in
  take j els = kept ++ drop_repeats keyFn prev l.
Proof.
  revert kept junk prev. induction l as [|x l IH]; intros kept junk prev Hlast.
  - simpl. rewrite !app_nil_r. apply take_app_length.
  - cbn [length compact_loop drop_repeats].
    assert (Hx : (kept ++ junk ++ x :: l) !! length (kept ++ junk) = Some x)
      by (rewrite app_assoc; by apply list_lookup_middle).
    assert (Hp : (kept ++ junk ++ x :: l) !! (length (kept ++ junk) - 1)%nat = Some prev).
    { rewrite app_assoc, lookup_app_l; [by rewrite Nat.sub_1_r, <- last_lookup|].
      destruct (kept ++ junk); simpl in *; [done|lia]. }
    rewrite Hx, Hp. destruct (bin_equal _ _); cbn [negb].
    + specialize (IH kept (junk ++ [x]) x). rewrite !app_assoc, last_snoc in IH.
      rewrite length_app, Nat.add_1_r in IH. rewrite <- !app_assoc in IH. simpl in IH.
      by apply IH.
    + destruct junk as [|y junk].
      * specialize (IH (kept ++ [x]) [] x). rewrite !app_nil_r, last_snoc in IH.
        replace (length (kept ++ [x])) with (S (length kept)) in IH by (rewrite length_app; simpl; lia).
        rewrite <- !app_assoc in IH. cbn [app] in *. rewrite app_nil_r in *.
        rewrite insert_app_r_alt, Nat.sub_diag by lia. by apply IH.
      * assert (Hins : <[length kept := x]> (kept ++ (y :: junk) ++ x :: l)
                       = (kept ++ [x]) ++ (junk ++ [x]) ++ l).
        { rewrite insert_app_r_alt, Nat.sub_diag by lia. simpl. by rewrite <- !app_assoc. }
        rewrite Hins. specialize (IH (kept ++ [x]) (junk ++ [x]) x).
        replace (length ((kept ++ [x]) ++ junk ++ [x])) with (S (length (kept ++ y :: junk))) in IH
          by (rewrite !length_app; simpl; rewrite ?length_app; simpl; lia).
        replace (length (kept ++ [x])) with (S (length kept)) in IH by (rewrite length_app; simpl; lia).
        specialize (IH ltac:(rewrite app_assoc; apply last_snoc)).
        destruct (compact_loop _ _ _ _ _). by rewrite IH, <- app_assoc.
Qed.

Lemma compactFunc_cons {T} (keyFn : T -> bytes) x (l : list T) :
  compactFunc (x :: l) keyFn = x :: drop_repeats keyFn x l.
Proof.
  unfold compactFunc. simpl. rewrite Nat.sub_0_r.
  pose proof (compact_loop_spec keyFn l [x] [] x eq_refl) as Hl. simpl in Hl.
  destruct (compact_loop _ _ _ _ _). done.
Qed.

Lemma drop_repeats_sorted `{!EqualsBytesLaws} {T} (keyFn : T -> bytes) (R : relation bytes)
    `{!AntiSymm eq R} x (l : list T) :
  StronglySorted R (map keyFn (x :: l)) ->
  NoDup (map keyFn (x :: drop_repeats keyFn x l))
  /\ forall k, k ∈ map keyFn (x :: drop_repeats keyFn x l) <-> k ∈ map keyFn (x :: l).
Proof.
  revert x. induction l as [|y l IH]; intros x; cbn [map]; intros [Hs Hx]%StronglySorted_inv.
  { split; [apply NoDup_singleton|done]. }
  destruct (IH y Hs) as [Hnd Hk]. cbn [drop_repeats].
  destruct (bin_equal _ _) eqn:He.
  - apply bin_equal_Some in He. cbn [map] in *. rewrite <- He. split; [done|].
    intros k. rewrite Hk. set_solver.
  - assert (Hne : keyFn y <> keyFn x) by (intros Heq; apply bin_equal_Some in Heq; congruence).
    split; [|intros k; cbn [map] in *; rewrite elem_of_cons, Hk; set_solver].
    cbn [map] in *. apply NoDup_cons. split; [|done]. rewrite Hk.
    intros [Hxy|Hin]%elem_of_cons; [congruence|]. apply Hne.
    apply StronglySorted_inv in Hs as [_ Hy]. rewrite Forall_forall in Hx, Hy.
    apply (anti_symm R); [by apply Hy|apply Hx; left].
Qed.

Lemma compactFunc_sorted `{!EqualsBytesLaws} {T} (keyFn : T -> bytes) (R : relation bytes)
    `{!AntiSymm eq R} (l : list T) :
  StronglySorted R (map keyFn l) ->
  NoDup (map keyFn (compactFunc l keyFn))
  /\ forall k, k ∈ map keyFn (compactFunc l keyFn) <-> k ∈ map keyFn l.
Proof.
  destruct l as [|x l]; [intros _; split; [apply NoDup_nil_2|done]|].
  rewrite compactFunc_cons. by apply drop_repeats_sorted.
Qed.

Lemma migrateSnapshot_old snapshot :
  0 <= snap_snapshotVersion snapshot < 2 ->
  migrateSnapshot snapshot
  = Ok (mkSnapshot (snap_members (snapshotMigration0001 snapshot)) 2
          (snap_content (snapshotMigration0001 snapshot))).
Proof.
  intros Hv. destruct snapshot as [ms v c]. cbn [snap_snapshotVersion] in Hv.
  assert (v = 0 \/ v = 1) as [-> | ->] by lia; reflexivity.
Qed.

(** The in-place loop that removes duplicates returns exactly the elements that
    differ from their predecessor in the array as it was before the loop. *)
Theorem compactFunc_correct {T} (keyFn : T -> bytes) (l : list T) :
  compactFunc l keyFn
  = match l with
    | [] => []
    | x :: l => x :: drop_repeats keyFn x l
    end.
Proof. destruct l as [|x l]; [done|apply compactFunc_cons]. Qed.

(** Migrating a snapshot of version 0 or 1 whose members and channels are sorted
    by key (in any antisymmetric order) succeeds with the current version and
    leaves every member address and channel id of the snapshot exactly once. *)
Theorem migrateSnapshot_unique `{!EqualsBytesLaws} (R : relation bytes) `{!AntiSymm eq R}
    snapshot members space :
  0 <= snap_snapshotVersion snapshot < 2 ->
  snap_members snapshot = Some members ->
  snap_content snapshot = Some (Snapshot_spaceContent space) ->
  StronglySorted R (map sm_userAddress members) ->
  StronglySorted R (map spc_channelId (sps_channels space)) ->
  exists members' channels',
    migrateSnapshot snapshot = Ok (mkSnapshot (Some members') 2
      (Some (Snapshot_spaceContent (mkSpaceSnapshot (sps_inception space) channels'))))
    /\ NoDup (map sm_userAddress members') /\ NoDup (map spc_channelId channels')
    /\ (forall a, a ∈ map sm_userAddress members' <-> a ∈ map sm_userAddress members)
    /\ (forall c, c ∈ map spc_channelId channels' <-> c ∈ map spc_channelId (sps_channels space)).
Proof.
  intros Hv Hm Hc Hs1 Hs2. rewrite migrateSnapshot_old by done.
  unfold snapshotMigration0001. rewrite Hm, Hc. do 2 eexists. split; [reflexivity|].
  apply compactFunc_sorted in Hs1, Hs2; [|done..]. naive_solver.
Qed.

(** A migration result is of the current version or a later one, so that
    migrating it again changes nothing; a negative version throws. *)
Theorem migrateSnapshot_idempotent snapshot :
  match migrateSnapshot snapshot with
  | Ok result => 2 <= snap_snapshotVersion result /\ migrateSnapshot result = Ok result
                 /\ 0 <= snap_snapshotVersion snapshot
  | Throw _ => snap_snapshotVersion snapshot < 0
  end.
Proof.
  destruct (Z.lt_ge_cases (snap_snapshotVersion snapshot) 0) as [Hn|Hn].
  - unfold migrateSnapshot. simpl length. destruct (Z.leb_spec (Z.of_nat 2) (snap_snapshotVersion snapshot)); [lia|].
    replace (Z.to_nat (Z.of_nat 2 - snap_snapshotVersion snapshot))
      with (S (Z.to_nat (1 - snap_snapshotVersion snapshot))) by lia.
    cbn [migrate_loop]. by destruct (Z.ltb_spec (snap_snapshotVersion snapshot) 0); [|lia].
  - destruct (Z.lt_ge_cases (snap_snapshotVersion snapshot) 2) as [Hv|Hv].
    + rewrite migrateSnapshot_old by lia. done.
    + assert (Hm : migrateSnapshot snapshot = Ok snapshot).
      { unfold migrateSnapshot. simpl length. by destruct (Z.leb_spec (Z.of_nat 2) (snap_snapshotVersion snapshot)); [|lia]. }
      by rewrite Hm.
Qed.
End Migrations.

Definition demo_channel (b : byte) : SpaceChannel := mkSpaceChannel CO_CREATED [b] None.
Definition demo_joined (b : byte) : Snapshot_Member := mkSnapshot_Member [b] 0 0 [] None None [] None.

(** The finest order: enough to sort the equal keys of the example. *)
Definition same_key (a b : bytes) : Prop := a = b.
#[global] Instance same_key_anti_symm : AntiSymm eq same_key.
Proof. by intros a b. Qed.

Lemma migrateSnapshot_unique_witness :
  exists members' channels',
    migrateSnapshot (mkSnapshot (Some [demo_joined x01; demo_joined x01]) 1
      (Some (Snapshot_spaceContent (mkSpaceSnapshot None [demo_channel x02; demo_channel x02]))))
    = Ok (mkSnapshot (Some members') 2 (Some (Snapshot_spaceContent (mkSpaceSnapshot None channels'))))
    /\ NoDup (map sm_userAddress members').
Proof.
  destruct (migrateSnapshot_unique same_key
    (mkSnapshot (Some [demo_joined x01; demo_joined x01]) 1
      (Some (Snapshot_spaceContent (mkSpaceSnapshot None [demo_channel x02; demo_channel x02]))))
    [demo_joined x01; demo_joined x01] (mkSpaceSnapshot None [demo_channel x02; demo_channel x02]))
    as (ms & cs & H1 & H2 & _).
  - simpl. lia.
  - reflexivity.
  - reflexivity.
  - repeat constructor.
  - repeat constructor.
  - exists ms, cs. split; [exact H1|exact H2].
Defined.
