(* ===== verification/ChannelMetadata.v ===== *)
(** * Encrypted properties of a group DM
    (core/sdk/src/streamStateView_ChannelMetadata.ts) *)

From S2P Require Import Prelude Proto Externals ToyExternals Binary Types.
From S2P Require Import UserMetadata.

Record t := mk {
  streamId : string;
  channelProperties : option ChannelProperties;
  latestEncryptedChannelProperties : option (string * EncryptedData);
}.

Definition new (streamId : string) : t := mk streamId None None.

Definition set_channelProperties v s := mk (streamId s) v (latestEncryptedChannelProperties s).
Definition set_latest v s := mk (streamId s) (channelProperties s) v.

Section Methods.
Context `{Externals}.

Definition handleDecryptedContent (content : DecryptedContent) (emitter : bool) : SM t unit :=
  match content with
  | DecryptedContent_ChannelProperties p =>
      self ← js_get;
      js_modify (set_channelProperties (Some p));;
      js_emit emitter (streamChannelPropertiesUpdated (streamId self))
  | _ => js_check_bare false
  end.

Definition decryptPayload (payload : EncryptedData) (eventId : string) (cleartext : option string)
    (encryptionEmitter : bool) : SM t unit :=
  match truthy_str cleartext with
  | Some cleartext =>
      decryptedContent ← js_lift (toDecryptedContent Kind_channelProperties cleartext);
      handleDecryptedContent decryptedContent encryptionEmitter
  | None =>
      self ← js_get;
      js_emit encryptionEmitter (newEncryptedContent (streamId self) eventId
        (mkEncryptedContent Kind_channelProperties payload))
  end.

Definition applySnapshot (encryptedChannelProperties : WrappedEncryptedData)
    (cleartexts : option (gmap string string)) (encryptionEmitter : bool) : SM t unit :=
  match wed_data encryptedChannelProperties with
  | None => js_return
  | Some data =>
      let eventId := bin_toHexString (wed_eventHash encryptedChannelProperties) in
      js_modify (set_latest (Some (eventId, data)));;
      decryptPayload data eventId (cleartext_of cleartexts eventId) encryptionEmitter
  end.

Definition appendEvent (event : StreamTimelineEvent) (cleartext : option string) (emitter : bool)
    : SM t unit :=
  match event_payload event with
  | Some (Payload_gdmChannelPayload content) =>
      match content with
      | Some (GdmChannelPayload_channelProperties payload) =>
          decryptPayload payload (te_hashStr event) cleartext emitter
      | _ => js_check_bare false
      end
  | _ => js_check_bare false
  end.

(** Conveyed in the snapshot. *)
Definition prependEvent : SM t unit := js_return.

Definition onDecryptedContent (content : DecryptedContent) (stateEmitter : bool) : SM t unit :=
  handleDecryptedContent content stateEmitter.
End Methods.

(** ** Lemmas *)

Lemma handleDecryptedContent_streamId x c em :
  preserves (fun s => streamId s = x) (handleDecryptedContent c em).
Proof. destruct c; unfold handleDecryptedContent, js_check_bare; eauto with js. Qed.

Lemma appendEvent_streamId `{Externals} x event cleartext em :
  preserves (fun s => streamId s = x) (appendEvent event cleartext em).
Proof.
  unfold appendEvent, decryptPayload, js_check_bare.
  repeat case_match; eauto using handleDecryptedContent_streamId with js.
Qed.
