(* ===== verification/Content.v ===== *)
(** * What a stream's content promises its owner
    (core/sdk/src/streamStateView_AbstractContent.ts)

    The abstract class is a type class of operations; what the stream view relies
    on is the class of laws. Every content class of the SDK is an instance of
    both. *)

From S2P Require Import Prelude Proto Externals Binary StreamId Types.
From S2P Require Import ChannelMetadata.

(** A method of a content object that also holds the timeline event it was
    called with, whose [decryptedContent] it may set. *)
Abbreviation CM C := (SM (C * StreamTimelineEvent)).

Definition contentL {C} : lens (C * StreamTimelineEvent) C := Lens fst (fun c p => (c, p.2)).
Definition eventL {C} : lens (C * StreamTimelineEvent) StreamTimelineEvent :=
  Lens snd (fun e p => (p.1, e)).

Class Content (C : Type) := {
  content_streamId : C -> string;
  content_prependEvent : option string -> bool -> bool -> CM C unit;
  content_appendEvent : option string -> bool -> bool -> CM C unit;
  content_onConfirmedEvent : StreamTimelineEvent -> bool -> SM C unit;
  content_onDecryptedContent : string -> DecryptedContent -> bool -> SM C unit;
  content_onAppendLocalEvent : StreamTimelineEvent -> bool -> SM C unit;
  content_getChannelMetadata : C -> option ChannelMetadata.t;
  content_getStreamParentId : C -> option string;
  content_needsScrollback : C -> bool;
}.

(** The bodies the abstract class gives to methods that are not overridden. *)
Definition default_onConfirmedEvent {C} (_ : StreamTimelineEvent) (_ : bool) : SM C unit := js_return.
Definition default_onDecryptedContent {C} (_ : string) (_ : DecryptedContent) (_ : bool) : SM C unit :=
  js_return.
Definition default_onAppendLocalEvent {C} (_ : StreamTimelineEvent) (_ : bool) : SM C unit := js_return.
Definition default_getChannelMetadata {C} (_ : C) : option ChannelMetadata.t := None.
Definition default_getStreamParentId {C} (_ : C) : option string := None.
Definition default_needsScrollback {C} (_ : C) : bool := false.

Definition getStreamParentIdAsBytes `{Externals} `{Content C} (c : C) : option (result bytes) :=
  match content_getStreamParentId c with
  | None => None
  | Some streamParentId => Some (streamIdToBytes streamParentId)
  end.

Definition decryptEvent `{Externals} {C} (streamId : string) (kind : content_kind)
    (content : EncryptedData) (cleartext : option string) (encryptionEmitter : bool) : CM C unit :=
  match truthy_str cleartext with
  | Some cleartext =>
      d ← js_lift (toDecryptedContent kind cleartext);
      js_zoom eventL (js_modify (te_set_decryptedContent (Some d)))
  | None =>
      self ← js_get;
      js_emit encryptionEmitter (newEncryptedContent streamId (te_hashStr self.2)
        (mkEncryptedContent kind content))
  end.

(** ** Laws *)

(** Of the event a content method may only have set the decrypted content. *)
Definition event_frame (before after : StreamTimelineEvent) : Prop :=
  exists d, after = te_set_decryptedContent d before.

(** Handling an event keeps the id of the content and everything of the event
    but its decrypted content. *)
Definition framed {C} `{Content C} (x : string) (ev : StreamTimelineEvent) (p : C * StreamTimelineEvent) : Prop :=
  content_streamId p.1 = x /\ event_frame ev p.2.

Class ContentLaws (C : Type) `{Content C} : Prop := {
  law_prepend : forall cleartext em1 em2 x ev, preserves (framed x ev) (content_prependEvent cleartext em1 em2);
  law_append : forall cleartext em1 em2 x ev, preserves (framed x ev) (content_appendEvent cleartext em1 em2);
  law_confirm : forall ev em x, preserves (fun c => content_streamId c = x) (content_onConfirmedEvent ev em);
  law_decrypted : forall e d em x, preserves (fun c => content_streamId c = x) (content_onDecryptedContent e d em);
  law_confirm_total : forall ev em, total (content_onConfirmedEvent ev em);
  law_local_total : forall ev em, total (content_onAppendLocalEvent ev em);
  law_local : forall ev em x, preserves (fun c => content_streamId c = x) (content_onAppendLocalEvent ev em);
}.

(** ** Lemmas *)

Lemma event_frame_refl ev : event_frame ev ev.
Proof. exists (te_decryptedContent ev). by destruct ev. Qed.

Lemma event_frame_set ev d ev' :
  event_frame ev ev' -> event_frame ev (te_set_decryptedContent d ev').
Proof. intros [d' ->]. by exists d. Qed.

Lemma decryptEvent_framed `{Externals} `{Content C} x ev sid kind content cleartext em :
  preserves (framed x ev) (decryptEvent (C := C) sid kind content cleartext em).
Proof.
  unfold decryptEvent. destruct (truthy_str cleartext) as [ct|].
  - apply preserves_bind; [auto with js|]. intros d [c e] [H1 H2].
    split; [done|by apply event_frame_set].
  - apply preserves_bind; auto with js.
Qed.

Lemma contentL_framed `{Content C} x ev (m : SM C unit) :
  preserves (fun c => content_streamId c = x) m -> preserves (framed x ev) (js_zoom contentL m).
Proof.
  intros Hm [c e] [H1 H2]. specialize (Hm c H1). unfold js_zoom. simpl.
  by destruct (m c).
Qed.

Lemma default_confirm_total {C} ev em : total (default_onConfirmedEvent (C := C) ev em).
Proof. intros s. by exists tt. Qed.

Lemma default_local_total {C} ev em : total (default_onAppendLocalEvent (C := C) ev em).
Proof. intros s. by exists tt. Qed.

#[export] Hint Resolve decryptEvent_framed contentL_framed : js.
#[export] Hint Unfold default_onConfirmedEvent default_onDecryptedContent
  default_onAppendLocalEvent : js.
