(* ===== verification/Channel.v ===== *)
(** * Channel content (core/sdk/src/streamStateView_Channel.ts) *)

From S2P Require Import Prelude Proto Externals Binary StreamId Types ChannelMetadata Content.

Record t := mk {
  streamId : string;
  spaceId : string;
  reachedRenderableContent : bool;
}.

Definition new (streamId : string) : t := mk streamId "" false.

Definition getStreamParentId (s : t) : option string := Some (spaceId s).
Definition needsScrollback (s : t) : bool := negb (reachedRenderableContent s).

Definition set_reached (s : t) : t := mk (streamId s) (spaceId s) true.

Section Methods.
Context `{Externals}.

Definition applySnapshot (content : ChannelSnapshot) : SM t unit :=
  js_modify (fun s => mk (streamId s)
    (streamIdFromBytes (match chs_inception content with
                        | Some inception => ci_spaceId inception
                        | None => []
                        end))
    (reachedRenderableContent s)).

Definition prependEvent (cleartext : option string) (encryptionEmitter _stateEmitter : bool) : CM t unit :=
  self ← js_get;
  match event_payload self.2 with
  | Some (Payload_channelPayload content) =>
      match content with
      | Some (ChannelPayload_inception _) => js_return
      | Some (ChannelPayload_message value) =>
          js_zoom contentL (js_modify set_reached);;
          decryptEvent (streamId self.1) Kind_channelMessage value cleartext encryptionEmitter
      | Some (ChannelPayload_redaction _) => js_return
      | None => js_return
      end
  | _ => js_check_bare false
  end.

Definition appendEvent (cleartext : option string) (encryptionEmitter _stateEmitter : bool) : CM t unit :=
  self ← js_get;
  match event_payload self.2 with
  | Some (Payload_channelPayload content) =>
      match content with
      | Some (ChannelPayload_inception _) => js_return
      | Some (ChannelPayload_message value) =>
          js_zoom contentL (js_modify set_reached);;
          decryptEvent (streamId self.1) Kind_channelMessage value cleartext encryptionEmitter
      | Some (ChannelPayload_redaction _) => js_return
      | None => js_return
      end
  | _ => js_check_bare false
  end.

#[export] Instance channel_content : Content t := {|
  content_streamId := streamId;
  content_prependEvent := prependEvent;
  content_appendEvent := appendEvent;
  content_onConfirmedEvent := default_onConfirmedEvent;
  content_onDecryptedContent := default_onDecryptedContent;
  content_onAppendLocalEvent := default_onAppendLocalEvent;
  content_getChannelMetadata := default_getChannelMetadata;
  content_getStreamParentId := getStreamParentId;
  content_needsScrollback := needsScrollback;
|}.

#[export] Instance channel_content_laws : ContentLaws t.
Proof.
  split; intros; simpl; try apply default_confirm_total; try apply default_local_total; try apply preserves_return.
  all: unfold prependEvent, appendEvent, js_check_bare; apply preserves_bind; [auto with js|intros [c e]].
  all: repeat case_match; eauto 6 with js.
Qed.
End Methods.
