(* ===== verification/DMChannel.v ===== *)
(** * Direct message content (core/sdk/src/streamStateView_DMChannel.ts) *)

From S2P Require Import Prelude Proto Externals ToyExternals Binary StreamId Types ChannelMetadata Content.

Record t := mk {
  streamId : string;
  firstPartyId : option string;
  secondPartyId : option string;
  lastEventCreatedAtEpochMs : Z;
}.

Definition new (streamId : string) : t := mk streamId None None 0.

Definition set_first v s := mk (streamId s) v (secondPartyId s) (lastEventCreatedAtEpochMs s).
Definition set_second v s := mk (streamId s) (firstPartyId s) v (lastEventCreatedAtEpochMs s).
Definition set_last v s := mk (streamId s) (firstPartyId s) (secondPartyId s) v.

(** [event.event.createdAtEpochMs] of the remote event. *)
Definition remote_createdAt (event : StreamTimelineEvent) : Z :=
  match te_remoteEvent event with
  | Some parsed => se_createdAtEpochMs (pe_event parsed)
  | None => 0
  end.

Definition updateLastEvent (event : StreamTimelineEvent) (stateEmitter : bool) : SM t unit :=
  self ← js_get;
  let createdAtEpochMs := remote_createdAt event in
  js_when (lastEventCreatedAtEpochMs self <? createdAtEpochMs)
    (js_modify (set_last createdAtEpochMs);;
     js_emit stateEmitter (streamLatestTimestampUpdated (streamId self))).

Definition onAppendLocalEvent (event : StreamTimelineEvent) (stateEmitter : bool) : SM t unit :=
  self ← js_get;
  js_modify (set_last (te_createdAtEpochMs event));;
  js_emit stateEmitter (streamLatestTimestampUpdated (streamId self)).

Definition participants (s : t) : gset string :=
  match truthy_str (firstPartyId s), truthy_str (secondPartyId s) with
  | Some a, Some b => {[a; b]}
  | _, _ => ∅
  end.

Section Methods.
Context `{Externals}.

Definition applySnapshot (content : DmChannelSnapshot) : SM t unit :=
  match dms_inception content with
  | None => js_return
  | Some inception =>
      first ← js_lift (userIdFromAddress (dmi_firstPartyAddress inception));
      js_modify (set_first (Some first));;
      second ← js_lift (userIdFromAddress (dmi_secondPartyAddress inception));
      js_modify (set_second (Some second))
  end.

Definition appendEvent (cleartext : option string) (encryptionEmitter stateEmitter : bool) : CM t unit :=
  self ← js_get;
  match event_payload self.2 with
  | Some (Payload_dmChannelPayload content) =>
      match content with
      | Some (DmChannelPayload_inception _) =>
          js_zoom contentL (updateLastEvent self.2 stateEmitter)
      | Some (DmChannelPayload_message value) =>
          decryptEvent (streamId self.1) Kind_channelMessage value cleartext encryptionEmitter;;
          js_zoom contentL (updateLastEvent self.2 stateEmitter)
      | None => js_return
      end
  | _ => js_check_bare false
  end.

Definition prependEvent (cleartext : option string) (encryptionEmitter _stateEmitter : bool) : CM t unit :=
  self ← js_get;
  match event_payload self.2 with
  | Some (Payload_dmChannelPayload content) =>
      match content with
      | Some (DmChannelPayload_inception _) =>
          js_zoom contentL (updateLastEvent self.2 false)
      | Some (DmChannelPayload_message value) =>
          js_zoom contentL (updateLastEvent self.2 false);;
          decryptEvent (streamId self.1) Kind_channelMessage value cleartext encryptionEmitter
      | None => js_return
      end
  | _ => js_check_bare false
  end.

#[export] Instance dm_content : Content t := {|
  content_streamId := streamId;
  content_prependEvent := prependEvent;
  content_appendEvent := appendEvent;
  content_onConfirmedEvent := default_onConfirmedEvent;
  content_onDecryptedContent := default_onDecryptedContent;
  content_onAppendLocalEvent := onAppendLocalEvent;
  content_getChannelMetadata := default_getChannelMetadata;
  content_getStreamParentId := default_getStreamParentId;
  content_needsScrollback := default_needsScrollback;
|}.

(** ** Lemmas *)

Lemma dm_updateLastEvent_streamId x ev em :
  preserves (fun s => streamId s = x) (updateLastEvent ev em).
Proof.
  unfold updateLastEvent. apply preserves_bind; [auto with js|intros self].
  apply preserves_when. eauto with js.
Qed.

#[export] Instance dm_content_laws : ContentLaws t.
Proof.
  split; intros; simpl; try apply default_confirm_total;
    try (intros s; by exists tt); try apply preserves_return.
  3: unfold onAppendLocalEvent; eauto with js.
  all: unfold prependEvent, appendEvent, js_check_bare; apply preserves_bind; [auto with js|intros [c e]].
  all: repeat case_match; eauto 6 using dm_updateLastEvent_streamId with js.
Qed.

Lemma updateLastEvent_spec ev em s :
  updateLastEvent ev em s
  = if decide (lastEventCreatedAtEpochMs s < remote_createdAt ev)
    then Outcome (Ok tt) (set_last (remote_createdAt ev) s)
           (if em then [streamLatestTimestampUpdated (streamId s)] else [])
    else Outcome (Ok tt) s [].
Proof.
  unfold updateLastEvent. js_unfold. simpl.
  destruct (Z.ltb_spec (lastEventCreatedAtEpochMs s) (remote_createdAt ev)); case_decide; done || lia.
Qed.
End Methods.
