(* ===== verification/GDMChannel.v ===== *)
(** * Group DM content (core/sdk/src/streamStateView_GDMChannel.ts) *)

From S2P Require Import Prelude Proto Externals Binary StreamId Types ChannelMetadata Content.

Record t := mk {
  streamId : string;
  channelMetadata : ChannelMetadata.t;
  lastEventCreatedAtEpochMs : Z;
}.

Definition new (streamId : string) : t := mk streamId (ChannelMetadata.new streamId) 0.

Definition set_last v s := mk (streamId s) (channelMetadata s) v.
Definition channelMetadataL : lens t ChannelMetadata.t :=
  Lens channelMetadata (fun v s => mk (streamId s) v (lastEventCreatedAtEpochMs s)).

Definition remote_createdAt (event : StreamTimelineEvent) : Z :=
  match te_remoteEvent event with
  | Some parsed => se_createdAtEpochMs (pe_event parsed)
  | None => 0
  end.

Definition updateLastEvent (event : StreamTimelineEvent) (stateEmitter : bool) : SM t unit :=
  self ← js_get;
  let createdAtEpochMs := remote_createdAt event in
  js_when (lastEventCreatedAtEpochMs self <? createdAtEpochMs)
    (js_modify (set_last createdAtEpochMs);;
     js_emit stateEmitter (streamLatestTimestampUpdated (streamId self))).

Definition onAppendLocalEvent (event : StreamTimelineEvent) (stateEmitter : bool) : SM t unit :=
  self ← js_get;
  js_modify (set_last (te_createdAtEpochMs event));;
  js_emit stateEmitter (streamLatestTimestampUpdated (streamId self)).

Definition getChannelMetadata (s : t) : option ChannelMetadata.t := Some (channelMetadata s).

Section Methods.
Context `{Externals}.

Definition applySnapshot (content : GdmChannelSnapshot) (cleartexts : option (gmap string string))
    (encryptionEmitter : bool) : SM t unit :=
  match gds_channelProperties content with
  | None => js_return
  | Some channelProperties =>
      js_zoom channelMetadataL
        (ChannelMetadata.applySnapshot channelProperties cleartexts encryptionEmitter)
  end.

Definition prependEvent (cleartext : option string) (encryptionEmitter _stateEmitter : bool) : CM t unit :=
  self ← js_get;
  match event_payload self.2 with
  | Some (Payload_gdmChannelPayload content) =>
      match content with
      | Some (GdmChannelPayload_inception _) =>
          js_zoom contentL (updateLastEvent self.2 false)
      | Some (GdmChannelPayload_message value) =>
          js_zoom contentL (updateLastEvent self.2 false);;
          decryptEvent (streamId self.1) Kind_channelMessage value cleartext encryptionEmitter
      | Some (GdmChannelPayload_channelProperties _) => js_return
      | None => js_return
      end
  | _ => js_check_bare false
  end.

Definition appendEvent (cleartext : option string) (encryptionEmitter stateEmitter : bool) : CM t unit :=
  self ← js_get;
  match event_payload self.2 with
  | Some (Payload_gdmChannelPayload content) =>
      match content with
      | Some (GdmChannelPayload_inception _) =>
          js_zoom contentL (updateLastEvent self.2 stateEmitter)
      | Some (GdmChannelPayload_message value) =>
          decryptEvent (streamId self.1) Kind_channelMessage value cleartext encryptionEmitter;;
          js_zoom contentL (updateLastEvent self.2 stateEmitter)
      | Some (GdmChannelPayload_channelProperties _) =>
          js_zoom contentL (js_zoom channelMetadataL
            (ChannelMetadata.appendEvent self.2 cleartext encryptionEmitter))
      | None => js_return
      end
  | _ => js_check_bare false
  end.

Definition onDecryptedContent (eventId : string) (content : DecryptedContent) (emitter : bool) : SM t unit :=
  match content with
  | DecryptedContent_ChannelProperties _ =>
      js_zoom channelMetadataL (ChannelMetadata.onDecryptedContent content emitter)
  | _ => js_return
  end.

#[export] Instance gdm_content : Content t := {|
  content_streamId := streamId;
  content_prependEvent := prependEvent;
  content_appendEvent := appendEvent;
  content_onConfirmedEvent := default_onConfirmedEvent;
  content_onDecryptedContent := onDecryptedContent;
  content_onAppendLocalEvent := onAppendLocalEvent;
  content_getChannelMetadata := getChannelMetadata;
  content_getStreamParentId := default_getStreamParentId;
  content_needsScrollback := default_needsScrollback;
|}.

(** ** Lemmas *)

Lemma gdm_updateLastEvent_streamId x ev em :
  preserves (fun s => streamId s = x) (updateLastEvent ev em).
Proof.
  unfold updateLastEvent. apply preserves_bind; [auto with js|intros self].
  apply preserves_when. eauto with js.
Qed.

Lemma metadata_streamId {A} x (m : SM ChannelMetadata.t A) :
  preserves (fun s => streamId s = x) (js_zoom channelMetadataL m).
Proof. intros s Hs. unfold js_zoom. by destruct (m _). Qed.

#[export] Instance gdm_content_laws : ContentLaws t.
Proof.
  split; intros; simpl; try apply default_confirm_total;
    try (intros s; by exists tt); try apply preserves_return.
  3: destruct d; simpl; eauto using metadata_streamId with js.
  3: unfold onAppendLocalEvent; eauto with js.
  all: unfold prependEvent, appendEvent, js_check_bare; apply preserves_bind; [auto with js|intros [c e]].
  all: repeat case_match; eauto 7 using gdm_updateLastEvent_streamId, metadata_streamId with js.
Qed.
End Methods.
