(* ===== verification/Space.v ===== *)
(** * Space content: the channels of a space (core/sdk/src/streamStateView_Space.ts) *)

From stdpp Require Import pretty.
From S2P Require Import Prelude Proto Externals ToyExternals Binary StreamId Types ChannelMetadata Content.

Record ParsedChannelProperties := mkParsedChannelProperties {
  isDefault : bool;
  updatedAtHash : string;
}.

Record t := mk {
  streamId : string;
  spaceChannelsMetadata : jsmap ParsedChannelProperties;
}.

Definition new (streamId : string) : t := mk streamId [].

Definition set_channels f s := mk (streamId s) (f (spaceChannelsMetadata s)).

(** The number of an operation that is none of the named ones. *)
Definition unknown_op (op : ChannelOp) : Z :=
  match op with
  | CO_UNRECOGNIZED n => n
  | _ => 0
  end.

Section Methods.
Context `{Externals}.

Definition addSpacePayload_Channel (eventHash : string) (payload : SpaceChannel) (stateEmitter : bool)
    : SM t unit :=
  self ← js_get;
  let op := spc_op payload in
  let channelId := streamIdAsString (IdBytes (spc_channelId payload)) in
  let props := mkParsedChannelProperties (isDefaultChannelId channelId) eventHash in
  match op with
  | CO_CREATED =>
      js_modify (set_channels (jm_set channelId props));;
      js_emit stateEmitter (spaceChannelCreated (streamId self) channelId)
  | CO_DELETED =>
      js_modify (set_channels (jm_delete channelId));;
      js_when (jm_has channelId (spaceChannelsMetadata self))
        (js_emit stateEmitter (spaceChannelDeleted (streamId self) channelId))
  | CO_UPDATED =>
      js_modify (set_channels (jm_set channelId props));;
      js_emit stateEmitter (spaceChannelUpdated (streamId self) channelId)
  | CO_UNSPECIFIED | CO_UNRECOGNIZED _ =>
      js_lift (throwWithCode (Some ("Unknown channel " +:+ pretty (unknown_op op)))
                 (Some Err_STREAM_BAD_EVENT))
  end.

Definition applySnapshot (eventHash : string) (content : SpaceSnapshot) : SM t unit :=
  js_for (sps_channels content) (fun payload => addSpacePayload_Channel eventHash payload false).

Definition prependEvent (_cleartext : option string) (_encryptionEmitter _stateEmitter : bool) : CM t unit :=
  self ← js_get;
  match event_payload self.2 with
  | Some (Payload_spacePayload content) =>
      match content with
      | Some (SpacePayload_inception _) => js_return
      | Some (SpacePayload_channel _) => js_return
      | None => js_return
      end
  | _ => js_check_bare false
  end.

Definition appendEvent (_cleartext : option string) (_encryptionEmitter stateEmitter : bool) : CM t unit :=
  self ← js_get;
  match event_payload self.2 with
  | Some (Payload_spacePayload content) =>
      match content with
      | Some (SpacePayload_inception _) => js_return
      | Some (SpacePayload_channel value) =>
          js_zoom contentL (addSpacePayload_Channel (te_hashStr self.2) value stateEmitter)
      | None => js_return
      end
  | _ => js_check_bare false
  end.

#[export] Instance space_content : Content t := {|
  content_streamId := streamId;
  content_prependEvent := prependEvent;
  content_appendEvent := appendEvent;
  content_onConfirmedEvent := default_onConfirmedEvent;
  content_onDecryptedContent := default_onDecryptedContent;
  content_onAppendLocalEvent := default_onAppendLocalEvent;
  content_getChannelMetadata := default_getChannelMetadata;
  content_getStreamParentId := default_getStreamParentId;
  content_needsScrollback := default_needsScrollback;
|}.

(** ** Specification *)

(** A log of channel events: the hash of the event and its payload. *)
Definition channel_log : Type := list (string * SpaceChannel).

Definition append_log (log : channel_log) (stateEmitter : bool) : SM t unit :=
  js_for log (fun e => addSpacePayload_Channel e.1 e.2 stateEmitter).

Definition known_op (op : ChannelOp) : bool :=
  match op with
  | CO_CREATED | CO_DELETED | CO_UPDATED => true
  | _ => false
  end.

(** What one event makes of the entry of channel [k]. *)
Definition entry_step (k : string) (entry : option ParsedChannelProperties) (e : string * SpaceChannel)
    : option ParsedChannelProperties :=
  if String.eqb (streamIdAsString (IdBytes (spc_channelId e.2))) k then
    match spc_op e.2 with
    | CO_CREATED | CO_UPDATED => Some (mkParsedChannelProperties (isDefaultChannelId k) e.1)
    | CO_DELETED => None
    | _ => entry
    end
  else entry.

(** ** Lemmas *)

Lemma space_add_streamId x hash payload em :
  preserves (fun s => streamId s = x) (addSpacePayload_Channel hash payload em).
Proof.
  unfold addSpacePayload_Channel. apply preserves_bind; [auto with js|intros self].
  case_match; auto using preserves_when with js.
Qed.

#[export] Instance space_content_laws : ContentLaws t.
Proof.
  split; intros; simpl; try apply default_confirm_total; try apply default_local_total; try apply preserves_return.
  all: unfold prependEvent, appendEvent, js_check_bare; apply preserves_bind; [auto with js|intros [c e]].
  all: repeat case_match; eauto 7 using space_add_streamId with js.
Qed.

Lemma add_spec hash payload em s :
  NoDup (jm_keys (spaceChannelsMetadata s)) ->
  let o := addSpacePayload_Channel hash payload em s in
  (known_op (spc_op payload) = true -> res o = Ok tt)
  /\ NoDup (jm_keys (spaceChannelsMetadata (post o)))
  /\ forall k, jm_get k (spaceChannelsMetadata (post o))
       = entry_step k (jm_get k (spaceChannelsMetadata s)) (hash, payload).
Proof.
  intros Hnd. unfold addSpacePayload_Channel, entry_step. js_unfold. cbv zeta. simpl.
  destruct (spc_op payload); simpl.
  3: destruct (jm_has _ _); simpl.
  all: split_and!; try done; auto with js; intros k;
    repeat match goal with |- context [String.eqb ?a ?b] => destruct (String.eqb_spec a b) end;
    rewrite ?jm_get_set, ?jm_get_delete by done; try case_decide; congruence.
Qed.

Lemma append_log_spec log em s :
  NoDup (jm_keys (spaceChannelsMetadata s)) ->
  forallb (fun e => known_op (spc_op e.2)) log = true ->
  let o := append_log log em s in
  res o = Ok tt /\ NoDup (jm_keys (spaceChannelsMetadata (post o)))
  /\ forall k, jm_get k (spaceChannelsMetadata (post o))
       = fold_left (entry_step k) log (jm_get k (spaceChannelsMetadata s)).
Proof.
  revert s. induction log as [|[h p] log IH]; intros s Hnd Hok; [done|].
  simpl in Hok. apply andb_true_iff in Hok as [Hp Hok].
  destruct (add_spec h p em s Hnd) as (Hr & Hnd' & Hk). specialize (Hr Hp).
  unfold append_log in *. cbn [js_for]. cbv zeta. rewrite (emits_bind_total _ _ _ _ Hr). cbn [res post].
  destruct (IH _ Hnd' Hok) as (H1 & H2 & H3). split_and!; [done|done|].
  intros k. cbn [fold_left]. by rewrite H3, Hk.
Qed.

(** After any log of created, updated and deleted channels on a new space, all
    processed, a channel is listed exactly as its last event left it: absent after
    a deletion, else with the hash of that event and the default flag of its id. *)
Theorem space_channels_last_event sid log em k :
  forallb (fun e => known_op (spc_op e.2)) log = true ->
  res (append_log log em (new sid)) = Ok tt
  /\ NoDup (jm_keys (spaceChannelsMetadata (post (append_log log em (new sid)))))
  /\ jm_get k (spaceChannelsMetadata (post (append_log log em (new sid))))
     = fold_left (entry_step k) log None.
Proof.
  intros Hok. destruct (append_log_spec log em (new sid) (NoDup_nil_2) Hok) as (H1 & H2 & H3).
  split_and!; [done|done|apply H3].
Qed.
End Methods.

Definition demo_channel_event (op : ChannelOp) : SpaceChannel := mkSpaceChannel op [x20; x01] None.

Lemma space_channels_last_event_witness :
  jm_get "2001" (spaceChannelsMetadata (post (append_log
    [("h1", demo_channel_event CO_CREATED); ("h2", demo_channel_event CO_DELETED);
     ("h3", demo_channel_event CO_UPDATED)] true (new "10"))))
  = Some (mkParsedChannelProperties false "h3").
Proof.
  destruct (space_channels_last_event "10"
    [("h1", demo_channel_event CO_CREATED); ("h2", demo_channel_event CO_DELETED);
     ("h3", demo_channel_event CO_UPDATED)] true "2001") as (_ & _ & H3); [reflexivity|].
  rewrite H3. vm_compute. reflexivity.
Defined.
