(* ===== verification/User.v ===== *)
(** * User content: the memberships of a user (core/sdk/src/streamStateView_User.ts) *)

From S2P Require Import Prelude Proto Externals ToyExternals Binary StreamId Types ChannelMetadata Content.

Record t := mk {
  streamId : string;
  streamMemberships : gmap string UserMembership;
}.

Definition new (streamId : string) : t := mk streamId ∅.

Definition set_memberships f s := mk (streamId s) (f (streamMemberships s)).

Definition getMembership (s : t) (streamId : string) : option UserMembership :=
  streamMemberships s !! streamId.

Definition isMember (s : t) (streamId : string) (membership : MembershipOp) : bool :=
  bool_decide (um_op <$> getMembership s streamId = Some membership).

Definition isJoined (s : t) (streamId : string) : bool := isMember s streamId SO_JOIN.

Section Methods.
Context `{Externals}.

Definition addUserPayload_userMembership (payload : UserMembership) (emitter : bool) : SM t unit :=
  self ← js_get;
  let op := um_op payload in
  let streamId := streamIdFromBytes (um_streamId payload) in
  let wasInvited := bool_decide (um_op <$> streamMemberships self !! streamId = Some SO_INVITE) in
  let wasJoined := bool_decide (um_op <$> streamMemberships self !! streamId = Some SO_JOIN) in
  js_modify (set_memberships (insert streamId payload));;
  match op with
  | SO_INVITE =>
      js_emit emitter (userInvitedToStream streamId);;
      js_emit emitter (userStreamMembershipChanged streamId)
  | SO_JOIN =>
      js_emit emitter (userJoinedStream streamId);;
      js_emit emitter (userStreamMembershipChanged streamId)
  | SO_LEAVE =>
      js_when (wasInvited || wasJoined)
        (js_emit emitter (userLeftStream streamId);;
         js_emit emitter (userStreamMembershipChanged streamId))
  | SO_UNSPECIFIED => js_return
  | SO_UNRECOGNIZED _ => js_return
  end.

Definition applySnapshot (content : UserSnapshot) (encryptionEmitter : bool) : SM t unit :=
  js_for (us_memberships content) (fun payload => addUserPayload_userMembership payload encryptionEmitter).

Definition prependEvent (_cleartext : option string) (_encryptionEmitter _stateEmitter : bool) : CM t unit :=
  self ← js_get;
  match event_payload self.2 with
  | Some (Payload_userPayload content) =>
      match content with
      | Some (UserPayload_inception _) => js_return
      | Some (UserPayload_userMembership _) => js_return
      | Some (UserPayload_userMembershipAction _) => js_return
      | None => js_return
      end
  | _ => js_check_bare false
  end.

Definition appendEvent (_cleartext : option string) (_encryptionEmitter stateEmitter : bool) : CM t unit :=
  self ← js_get;
  match event_payload self.2 with
  | Some (Payload_userPayload content) =>
      match content with
      | Some (UserPayload_inception _) => js_return
      | Some (UserPayload_userMembership value) =>
          js_zoom contentL (addUserPayload_userMembership value stateEmitter)
      | Some (UserPayload_userMembershipAction _) => js_return
      | None => js_return
      end
  | _ => js_check_bare false
  end.

#[export] Instance user_content : Content t := {|
  content_streamId := streamId;
  content_prependEvent := prependEvent;
  content_appendEvent := appendEvent;
  content_onConfirmedEvent := default_onConfirmedEvent;
  content_onDecryptedContent := default_onDecryptedContent;
  content_onAppendLocalEvent := default_onAppendLocalEvent;
  content_getChannelMetadata := default_getChannelMetadata;
  content_getStreamParentId := default_getStreamParentId;
  content_needsScrollback := default_needsScrollback;
|}.

(** ** Lemmas *)

Lemma user_add_streamId x payload em :
  preserves (fun s => streamId s = x) (addUserPayload_userMembership payload em).
Proof.
  unfold addUserPayload_userMembership. apply preserves_bind; [auto with js|intros self].
  apply preserves_bind; [auto with js|intros _].
  case_match; auto using preserves_when with js.
Qed.

#[export] Instance user_content_laws : ContentLaws t.
Proof.
  split; intros; simpl; try apply default_confirm_total; try apply default_local_total; try apply preserves_return.
  all: unfold prependEvent, appendEvent, js_check_bare; apply preserves_bind; [auto with js|intros [c e]].
  all: repeat case_match; eauto 7 using user_add_streamId with js.
Qed.

Lemma add_leave payload s :
  um_op payload = SO_LEAVE ->
  let sid := streamIdFromBytes (um_streamId payload) in
  addUserPayload_userMembership payload true s
  = Outcome (Ok tt) (set_memberships (insert sid payload) s)
      (if isMember s sid SO_INVITE || isJoined s sid
       then [userLeftStream sid; userStreamMembershipChanged sid] else []).
Proof.
  intros Hop. cbv zeta. unfold addUserPayload_userMembership. js_unfold. rewrite Hop.
  unfold isJoined, isMember, getMembership. by destruct (_ || _).
Qed.

(** A LEAVE of a stream the user was neither invited to nor joined to is recorded
    silently; one of an invited or joined stream is announced once, and a second
    LEAVE is silent again. In every case the last payload is the membership. *)
Theorem user_leave_announced_once payload s :
  um_op payload = SO_LEAVE ->
  let sid := streamIdFromBytes (um_streamId payload) in
  let o1 := addUserPayload_userMembership payload true s in
  let o2 := addUserPayload_userMembership payload true (post o1) in
  getMembership (post o1) sid = Some payload
  /\ emits o1 = (if isMember s sid SO_INVITE || isJoined s sid
                 then [userLeftStream sid; userStreamMembershipChanged sid] else [])
  /\ emits o2 = [] /\ isJoined (post o2) sid = false
  /\ (forall x, x <> sid -> getMembership (post o2) x = getMembership s x).
Proof.
  intros Hop. cbv zeta. rewrite (add_leave payload s Hop). cbn [post emits].
  rewrite (add_leave payload _ Hop). cbn [post emits].
  unfold isJoined, isMember, getMembership, set_memberships. cbn [streamMemberships].
  rewrite !lookup_insert_eq. cbn [fmap option_fmap option_map]. rewrite Hop.
  split_and!; try done. intros x Hx. by rewrite !lookup_insert_ne.
Qed.
End Methods.

Lemma user_leave_announced_once_witness :
  emits (addUserPayload_userMembership (mkUserMembership [x20] SO_LEAVE None None) true
    (mk "a8" {["20" := mkUserMembership [x20] SO_JOIN None None]}))
  = [userLeftStream "20"; userStreamMembershipChanged "20"].
Proof.
  destruct (user_leave_announced_once (mkUserMembership [x20] SO_LEAVE None None)
    (mk "a8" {["20" := mkUserMembership [x20] SO_JOIN None None]}) eq_refl) as (_ & He & _).
  rewrite He. vm_compute. reflexivity.
Defined.
