(* ===== verification/UserInbox.v ===== *)
(** * User inbox content: key shares sent to a user's devices
    (core/sdk/src/streamStateView_UserInbox.ts) *)

From S2P Require Import Prelude Proto Externals ToyExternals Binary StreamId Types ChannelMetadata Content.

Record pendingSessions := mkPendingSessions {
  creatorUserId : string;
  value : GroupEncryptionSessions;
}.

Record t := mk {
  streamId : string;
  deviceSummary : gmap string DeviceSummary;
  pendingGroupSessions : gmap string pendingSessions;
}.

Definition new (streamId : string) : t := mk streamId ∅ ∅.

Definition set_deviceSummary f s := mk (streamId s) (f (deviceSummary s)) (pendingGroupSessions s).
Definition set_pending f s := mk (streamId s) (deviceSummary s) (f (pendingGroupSessions s)).

Definition applySnapshot (content : UserInboxSnapshot) : SM t unit :=
  js_for (map_to_list (uis_deviceSummary content)) (fun p =>
    js_modify (set_deviceSummary (insert p.1 p.2))).

Definition addGroupSessions (creatorUserId : string) (content : GroupEncryptionSessions)
    (encryptionEmitter : bool) : SM t unit :=
  js_emit encryptionEmitter (newGroupSessions content creatorUserId).

Definition onConfirmedEvent (event : StreamTimelineEvent) (emitter : bool) : SM t unit :=
  default_onConfirmedEvent event emitter;;
  self ← js_get;
  let eventId := te_hashStr event in
  match pendingGroupSessions self !! eventId with
  | None => js_return
  | Some payload =>
      js_modify (set_pending (delete eventId));;
      addGroupSessions (creatorUserId payload) (value payload) emitter
  end.

Definition prependEvent (_cleartext : option string) (encryptionEmitter _stateEmitter : bool) : CM t unit :=
  self ← js_get;
  match event_payload self.2 with
  | Some (Payload_userInboxPayload content) =>
      match content with
      | Some (UserInboxPayload_inception _) => js_return
      | Some (UserInboxPayload_groupEncryptionSessions value) =>
          js_zoom contentL (addGroupSessions (te_creatorUserId self.2) value encryptionEmitter)
      | Some (UserInboxPayload_ack _) => js_return
      | None => js_return
      end
  | _ => js_check_bare false
  end.

Definition updateDeviceSummary (content : UserInboxAck) : SM t unit :=
  self ← js_get;
  match deviceSummary self !! ack_deviceKey content with
  | None => js_return
  | Some summary =>
      if ds_upperBound summary <=? ack_miniblockNum content
      then js_modify (set_deviceSummary (delete (ack_deviceKey content)))
      else js_modify (set_deviceSummary (insert (ack_deviceKey content)
             (mkDeviceSummary (ack_miniblockNum content + 1) (ds_upperBound summary))))
  end.

Definition appendEvent (_cleartext : option string) (_encryptionEmitter _stateEmitter : bool) : CM t unit :=
  self ← js_get;
  match event_payload self.2 with
  | Some (Payload_userInboxPayload content) =>
      match content with
      | Some (UserInboxPayload_inception _) => js_return
      | Some (UserInboxPayload_groupEncryptionSessions value) =>
          js_zoom contentL (js_modify (set_pending (insert (te_hashStr self.2)
            (mkPendingSessions (te_creatorUserId self.2) value))))
      | Some (UserInboxPayload_ack ack) => js_zoom contentL (updateDeviceSummary ack)
      | None => js_return
      end
  | _ => js_check_bare false
  end.

Definition hasPendingSessionId (s : t) (deviceKey sessionId : string) : bool :=
  existsb (fun p : string * pendingSessions =>
      existsb (String.eqb sessionId) (ges_sessionIds (value p.2))
      && is_defined (truthy_str (ges_ciphertexts (value p.2) !! deviceKey)))
    (map_to_list (pendingGroupSessions s)).

#[export] Instance userInbox_content : Content t := {|
  content_streamId := streamId;
  content_prependEvent := prependEvent;
  content_appendEvent := appendEvent;
  content_onConfirmedEvent := onConfirmedEvent;
  content_onDecryptedContent := default_onDecryptedContent;
  content_onAppendLocalEvent := default_onAppendLocalEvent;
  content_getChannelMetadata := default_getChannelMetadata;
  content_getStreamParentId := default_getStreamParentId;
  content_needsScrollback := default_needsScrollback;
|}.

(** ** Specification *)

(** Miniblocks the device still has to read; acknowledged ranges only shrink. *)
Definition summaries_wf (s : t) : Prop :=
  forall d x, deviceSummary s !! d = Some x -> ds_lowerBound x <= ds_upperBound x.

(** Run a content method on an event that is not looked at afterwards. *)
Definition on_event {A} (event : StreamTimelineEvent) (m : CM t A) : SM t A :=
  fun s => match m (s, event) with Outcome r p w => Outcome r p.1 w end.

(** ** Lemmas *)

Lemma updateDeviceSummary_streamId x ack :
  preserves (fun s => streamId s = x) (updateDeviceSummary ack).
Proof.
  unfold updateDeviceSummary. apply preserves_bind; [auto with js|intros self].
  repeat case_match; auto with js.
Qed.

Lemma onConfirmedEvent_total ev em : total (onConfirmedEvent ev em).
Proof.
  intros s. unfold onConfirmedEvent, default_onConfirmedEvent, addGroupSessions. js_unfold.
  destruct (pendingGroupSessions s !! te_hashStr ev); simpl; eauto.
Qed.

#[export] Instance userInbox_content_laws : ContentLaws t.
Proof.
  split; intros; simpl; try apply onConfirmedEvent_total; try apply default_local_total; try apply preserves_return.
  3: unfold onConfirmedEvent, default_onConfirmedEvent, addGroupSessions;
     repeat (apply preserves_bind; [auto with js|intros ?]); case_match; auto with js.
  all: unfold prependEvent, appendEvent, js_check_bare, addGroupSessions;
    apply preserves_bind; [auto with js|intros [c e]].
  all: repeat case_match; eauto 7 using updateDeviceSummary_streamId with js.
Qed.

(** Acknowledging a miniblock removes the device when nothing above it is left,
    else the unread range starts just above; ranges stay well formed and other
    devices are untouched. *)
Theorem ack_shrinks_range ack s :
  summaries_wf s ->
  let s' := post (updateDeviceSummary ack s) in
  res (updateDeviceSummary ack s) = Ok tt
  /\ summaries_wf s'
  /\ (forall d, d <> ack_deviceKey ack -> deviceSummary s' !! d = deviceSummary s !! d)
  /\ (forall x, deviceSummary s' !! ack_deviceKey ack = Some x ->
        ds_lowerBound x = ack_miniblockNum ack + 1
        /\ ds_upperBound <$> deviceSummary s !! ack_deviceKey ack = Some (ds_upperBound x)).
Proof.
  intros Hwf. unfold updateDeviceSummary, set_deviceSummary. js_unfold. cbv zeta.
  destruct (deviceSummary s !! ack_deviceKey ack) as [x|] eqn:Hx; cbn [res post].
  2: { split_and!; try done; intros; congruence. }
  destruct (Z.leb_spec (ds_upperBound x) (ack_miniblockNum ack)); cbn [res post deviceSummary].
  - split_and!; [done| | |].
    + intros d y. cbn. rewrite lookup_delete_Some. intros [_ Hy]. eauto.
    + intros d Hd. by rewrite lookup_delete_ne.
    + intros y. by rewrite lookup_delete_eq.
  - split_and!; [done| | |].
    + intros d y. cbn. rewrite lookup_insert_Some. intros [[_ <-]|[_ Hy]]; [simpl; lia|eauto].
    + intros d Hd. by rewrite lookup_insert_ne.
    + intros y. rewrite lookup_insert_eq. intros [= <-]. done.
Qed.

(** Appended key shares are held back until the event is confirmed: the append
    announces nothing and makes the sessions count as pending for every device with
    a ciphertext; the confirmation hands them over once, and a repeated
    confirmation does nothing. *)
Theorem group_sessions_held_until_confirmed event event' value s deviceKey sessionId :
  event_payload event = Some (Payload_userInboxPayload (Some (UserInboxPayload_groupEncryptionSessions value))) ->
  te_hashStr event' = te_hashStr event ->
  sessionId ∈ ges_sessionIds value -> is_defined (truthy_str (ges_ciphertexts value !! deviceKey)) = true ->
  let o1 := on_event event (appendEvent None true true) s in
  let o2 := onConfirmedEvent event' true (post o1) in
  emits o1 = [] /\ hasPendingSessionId (post o1) deviceKey sessionId = true
  /\ emits o2 = [newGroupSessions value (te_creatorUserId event)]
  /\ pendingGroupSessions (post o2) = delete (te_hashStr event) (pendingGroupSessions s)
  /\ onConfirmedEvent event' true (post o2) = Outcome (Ok tt) (post o2) [].
Proof.
  intros Hp Hh Hs Hc. cbv zeta.
  assert (H1 : on_event event (appendEvent None true true) s = Outcome (Ok tt)
    (set_pending (insert (te_hashStr event) (mkPendingSessions (te_creatorUserId event) value)) s) []).
  { unfold on_event, appendEvent. js_unfold. cbn [fst snd]. by rewrite Hp. }
  rewrite H1. cbn [emits post].
  assert (H2 : onConfirmedEvent event' true
      (set_pending (insert (te_hashStr event) (mkPendingSessions (te_creatorUserId event) value)) s)
    = Outcome (Ok tt) (set_pending (delete (te_hashStr event)) s)
        [newGroupSessions value (te_creatorUserId event)]).
  { unfold onConfirmedEvent, default_onConfirmedEvent, addGroupSessions. js_unfold.
    unfold set_pending. cbn [pendingGroupSessions]. rewrite Hh, lookup_insert_eq. cbn.
    by rewrite delete_insert_eq. }
  rewrite H2. cbn [emits post]. split_and!; try done.
  - apply existsb_exists. exists (te_hashStr event, mkPendingSessions (te_creatorUserId event) value).
    split.
    + apply list_elem_of_In, elem_of_map_to_list. apply lookup_insert_eq.
    + cbn. rewrite Hc, andb_true_r. apply existsb_exists. exists sessionId.
      split; [by apply list_elem_of_In|apply String.eqb_refl].
  - unfold onConfirmedEvent, default_onConfirmedEvent. js_unfold.
    unfold set_pending. cbn [pendingGroupSessions]. by rewrite Hh, lookup_delete_eq.
Qed.

Lemma ack_shrinks_range_witness :
  res (updateDeviceSummary (mkUserInboxAck "d" 5) (mk "a1" {["d" := mkDeviceSummary 1 9]} ∅)) = Ok tt
  /\ summaries_wf (post (updateDeviceSummary (mkUserInboxAck "d" 5) (mk "a1" {["d" := mkDeviceSummary 1 9]} ∅))).
Proof.
  destruct (ack_shrinks_range (mkUserInboxAck "d" 5) (mk "a1" {["d" := mkDeviceSummary 1 9]} ∅))
    as (H1 & H2 & _).
  - intros d x. cbn. rewrite lookup_singleton_Some. intros [_ <-]. simpl. lia.
  - split; [exact H1|exact H2].
Defined.

Definition demo_sessions : GroupEncryptionSessions :=
  mkGroupEncryptionSessions [] "sender" ["s1"] {["dev" := "cipher"]}.
Definition demo_inbox_event : StreamTimelineEvent := makeRemoteTimelineEvent
  (mkParsedEvent (mkStreamEvent [] [] [] None 0 0 (Some (Payload_userInboxPayload
     (Some (UserInboxPayload_groupEncryptionSessions demo_sessions))))) [] "h" None "alice") 0 None None.

Lemma group_sessions_held_until_confirmed_witness :
  emits (onConfirmedEvent demo_inbox_event true
    (post (on_event demo_inbox_event (appendEvent None true true) (new "a1"))))
  = [newGroupSessions demo_sessions "alice"].
Proof.
  destruct (group_sessions_held_until_confirmed demo_inbox_event demo_inbox_event demo_sessions (new "a1")
    "dev" "s1") as (_ & _ & H & _); [reflexivity|reflexivity|left|vm_compute; reflexivity|exact H].
Defined.
