(* ===== verification/UserSettings.v ===== *)
(** * User settings content: read markers and blocked users
    (core/sdk/src/streamStateView_UserSettings.ts) *)

From S2P Require Import Prelude Proto Externals ToyExternals Binary StreamId Types ChannelMetadata Content.

Record t := mk {
  streamId : string;
  settings : gmap string string;
  fullyReadMarkersSrc : gmap string MarkerContent;
  fullyReadMarkers : gmap string (gmap string FullyReadMarker);
  userBlocks : gmap string UserBlocks;
}.

Definition new (streamId : string) : t := mk streamId ∅ ∅ ∅ ∅.

Definition set_markersSrc f s :=
  mk (streamId s) (settings s) (f (fullyReadMarkersSrc s)) (fullyReadMarkers s) (userBlocks s).
Definition set_markers f s :=
  mk (streamId s) (settings s) (fullyReadMarkersSrc s) (f (fullyReadMarkers s)) (userBlocks s).
Definition set_userBlocks f s :=
  mk (streamId s) (settings s) (fullyReadMarkersSrc s) (fullyReadMarkers s) (f (userBlocks s)).

(** [this.userBlocks[userId]?.blocks ?? []]. *)
Definition blocks_of (s : t) (userId : string) : list Block :=
  match userBlocks s !! userId with
  | Some b => ub_blocks b
  | None => []
  end.

Definition getLastBlock (s : t) (userId : string) : option Block := last (blocks_of s userId).

Definition isUserBlocked (s : t) (userId : string) : bool :=
  match getLastBlock s userId with
  | None => false
  | Some latestBlock => blk_isBlocked latestBlock
  end.

Definition isUserBlockedAt (s : t) (userId : string) (eventNum : Z) : bool :=
  fold_left (fun isBlocked block =>
      if blk_eventNum block <=? eventNum then blk_isBlocked block else isBlocked)
    (blocks_of s userId) false.

Section Methods.
Context `{Externals}.

Definition fullyReadMarkerUpdate (payload : SettingsFullyReadMarkers) (emitter : bool) : SM t unit :=
  match frm_content payload with
  | None => js_return
  | Some content =>
      let streamId := streamIdFromBytes (frm_streamId payload) in
      js_modify (set_markersSrc (insert streamId content));;
      fullyReadMarkersContent ← js_lift (FullyReadMarkers_fromJsonString (mc_data content));
      js_modify (set_markers (insert streamId (frms_markers fullyReadMarkersContent)));;
      js_emit emitter (fullyReadMarkersUpdated streamId (frms_markers fullyReadMarkersContent))
  end.

Definition userBlockUpdate (payload : UserBlock) (emitter : bool) : SM t unit :=
  userId ← js_lift (userIdFromAddress (ublk_userId payload));
  self ← js_get;
  js_when (negb (is_defined (userBlocks self !! userId)))
    (js_modify (set_userBlocks (insert userId (mkUserBlocks [] []))));;
  js_modify (set_userBlocks (alter (fun b => mkUserBlocks (ub_userId b)
    (ub_blocks b ++ [mkBlock (ublk_isBlocked payload) (ublk_eventNum payload)])) userId));;
  js_emit emitter (userBlockUpdated payload).

Definition applySnapshot (content : UserSettingsSnapshot) : SM t unit :=
  js_for (uss_fullyReadMarkers content) (fun payload => fullyReadMarkerUpdate payload false);;
  js_for (uss_userBlocksList content) (fun blocks =>
    userId ← js_lift (userIdFromAddress (ub_userId blocks));
    js_modify (set_userBlocks (insert userId blocks))).

Definition prependEvent (_cleartext : option string) (_encryptionEmitter _stateEmitter : bool) : CM t unit :=
  self ← js_get;
  match event_payload self.2 with
  | Some (Payload_userSettingsPayload content) =>
      match content with
      | Some (UserSettingsPayload_inception _) => js_return
      | Some (UserSettingsPayload_fullyReadMarkers _) => js_return
      | Some (UserSettingsPayload_userBlock _) => js_return
      | None => js_return
      end
  | _ => js_check_bare false
  end.

Definition appendEvent (_cleartext : option string) (_encryptionEmitter stateEmitter : bool) : CM t unit :=
  self ← js_get;
  match event_payload self.2 with
  | Some (Payload_userSettingsPayload content) =>
      match content with
      | Some (UserSettingsPayload_inception _) => js_return
      | Some (UserSettingsPayload_fullyReadMarkers value) =>
          js_zoom contentL (fullyReadMarkerUpdate value stateEmitter)
      | Some (UserSettingsPayload_userBlock value) =>
          js_zoom contentL (userBlockUpdate value stateEmitter)
      | None => js_return
      end
  | _ => js_check_bare false
  end.

#[export] Instance userSettings_content : Content t := {|
  content_streamId := streamId;
  content_prependEvent := prependEvent;
  content_appendEvent := appendEvent;
  content_onConfirmedEvent := default_onConfirmedEvent;
  content_onDecryptedContent := default_onDecryptedContent;
  content_onAppendLocalEvent := default_onAppendLocalEvent;
  content_getChannelMetadata := default_getChannelMetadata;
  content_getStreamParentId := default_getStreamParentId;
  content_needsScrollback := default_needsScrollback;
|}.

(** ** Lemmas *)

Lemma marker_streamId x payload em :
  preserves (fun s => streamId s = x) (fullyReadMarkerUpdate payload em).
Proof. unfold fullyReadMarkerUpdate. case_match; eauto 6 with js. Qed.

Lemma block_streamId x payload em :
  preserves (fun s => streamId s = x) (userBlockUpdate payload em).
Proof. unfold userBlockUpdate. repeat (apply preserves_bind; [auto using preserves_when with js|intros ?]); auto with js. Qed.

#[export] Instance userSettings_content_laws : ContentLaws t.
Proof.
  split; intros; simpl; try apply default_confirm_total; try apply default_local_total; try apply preserves_return.
  all: unfold prependEvent, appendEvent, js_check_bare; apply preserves_bind; [auto with js|intros [c e]].
  all: repeat case_match; eauto 7 using marker_streamId, block_streamId with js.
Qed.

Lemma userBlockUpdate_spec payload em s u :
  userIdFromAddress (ublk_userId payload) = Ok u ->
  res (userBlockUpdate payload em s) = Ok tt
  /\ blocks_of (post (userBlockUpdate payload em s)) u
     = blocks_of s u ++ [mkBlock (ublk_isBlocked payload) (ublk_eventNum payload)]
  /\ forall v, v <> u -> blocks_of (post (userBlockUpdate payload em s)) v = blocks_of s v.
Proof.
  intros Hu. unfold userBlockUpdate, blocks_of, set_userBlocks. js_unfold. rewrite Hu.
  destruct (userBlocks s !! u) as [b|] eqn:Hb; cbn -[alter insert lookup].
  - rewrite lookup_alter_eq, Hb. split_and!; try done. intros v Hv. by rewrite lookup_alter_ne.
  - rewrite lookup_alter_eq, lookup_insert_eq. split_and!; try done.
    intros v Hv. by rewrite lookup_alter_ne, lookup_insert_ne.
Qed.

(** The fold of [isUserBlockedAt] looks at the last block at or before the event. *)
Lemma blockedAt_fold n bs b :
  fold_left (fun isBlocked block => if blk_eventNum block <=? n then blk_isBlocked block else isBlocked) bs b
  = match last (filter (fun x => blk_eventNum x <= n) bs) with
    | Some x => blk_isBlocked x
    | None => b
    end.
Proof.
  revert b. induction bs as [|x bs IH] using rev_ind; intros b; [done|].
  rewrite fold_left_app, filter_app, filter_cons, filter_nil. simpl.
  destruct (Z.leb_spec (blk_eventNum x) n); case_decide; try lia.
  - by rewrite last_snoc.
  - rewrite app_nil_r. apply IH.
Qed.

(** A user counts as blocked at an event number by the last block entry at or
    before it, and as blocked now by the last entry of all; a new block event with
    the highest number so far decides both from its number on, for its user
    only. *)
Theorem block_history payload em s u n :
  userIdFromAddress (ublk_userId payload) = Ok u ->
  ublk_eventNum payload <= n ->
  let s' := post (userBlockUpdate payload em s) in
  (forall v k, isUserBlockedAt s' v k
     = match last (filter (fun x => blk_eventNum x <= k) (blocks_of s' v)) with
       | Some x => blk_isBlocked x
       | None => false
       end)
  /\ isUserBlocked s' u = ublk_isBlocked payload
  /\ isUserBlockedAt s' u n = ublk_isBlocked payload
  /\ (forall k, k < ublk_eventNum payload -> isUserBlockedAt s' u k = isUserBlockedAt s u k)
  /\ (forall v k, v <> u -> isUserBlocked s' v = isUserBlocked s v
                            /\ isUserBlockedAt s' v k = isUserBlockedAt s v k).
Proof.
  intros Hu Hn. destruct (userBlockUpdate_spec payload em s u Hu) as (_ & Hs & Ho). cbv zeta.
  split; [intros v k; apply blockedAt_fold|].
  unfold isUserBlocked, getLastBlock, isUserBlockedAt. rewrite Hs, last_snoc.
  split_and!; [done| | |].
  - rewrite fold_left_app. simpl. by destruct (Z.leb_spec (ublk_eventNum payload) n); [|lia].
  - intros k Hk. rewrite fold_left_app. simpl. by destruct (Z.leb_spec (ublk_eventNum payload) k); [lia|].
  - intros v k Hv. by rewrite Ho.
Qed.
End Methods.

Lemma block_history_witness :
  isUserBlockedAt (post (userBlockUpdate (mkUserBlock (replicate 20 x01) true 4) true (new "a5")))
    "0x0101010101010101010101010101010101010101" 9 = true.
Proof.
  destruct (block_history (mkUserBlock (replicate 20 x01) true 4) true (new "a5")
    "0x0101010101010101010101010101010101010101" 9) as (_ & _ & H & _);
    [vm_compute; reflexivity|simpl; lia|exact H].
Defined.
