(* ===== verification/UserDeviceKeys.v ===== *)
(** * Device key content (core/sdk/src/streamStateView_UserDeviceKey.ts) *)

From S2P Require Import Prelude Proto Externals Binary StreamId Types Solicitations ChannelMetadata Content.

Record t := mk {
  streamId : string;
  streamCreatorId : string;
  deviceKeys : list UserDevice;
}.

Definition set_deviceKeys f s := mk (streamId s) (streamCreatorId s) (f (deviceKeys s)).

(** [arr.splice(i, 1)]. *)
Definition remove_at {A} (i : nat) (l : list A) : list A := take i l ++ drop (S i) l.

Definition addUserDeviceKey (value : EncryptionDevice) (encryptionEmitter : bool) : SM t unit :=
  self ← js_get;
  let device := mkUserDevice (edv_deviceKey value) (edv_fallbackKey value) in
  let existing := findIndex (fun x => String.eqb (ud_deviceKey x) (ud_deviceKey device)) (deviceKeys self) in
  match existing with
  | Some i => js_modify (set_deviceKeys (remove_at i))
  | None => js_return
  end;;
  js_modify (set_deviceKeys (fun l => l ++ [device]));;
  js_emit encryptionEmitter (userDeviceKeyMessage (streamId self) (streamCreatorId self) device).

Definition applySnapshot (content : UserDeviceKeySnapshot) (encryptionEmitter : bool) : SM t unit :=
  js_for (uds_encryptionDevices content) (fun value => addUserDeviceKey value encryptionEmitter).

Definition prependEvent (_cleartext : option string) (_encryptionEmitter _stateEmitter : bool) : CM t unit :=
  js_return.

Definition appendEvent (_cleartext : option string) (encryptionEmitter _stateEmitter : bool) : CM t unit :=
  self ← js_get;
  match event_payload self.2 with
  | Some (Payload_userDeviceKeyPayload content) =>
      match content with
      | Some (UserDeviceKeyPayload_inception _) => js_return
      | Some (UserDeviceKeyPayload_encryptionDevice value) =>
          js_zoom contentL (addUserDeviceKey value encryptionEmitter)
      | None => js_return
      end
  | _ => js_check_bare false
  end.

#[export] Instance userDeviceKeys_content : Content t := {|
  content_streamId := streamId;
  content_prependEvent := prependEvent;
  content_appendEvent := appendEvent;
  content_onConfirmedEvent := default_onConfirmedEvent;
  content_onDecryptedContent := default_onDecryptedContent;
  content_onAppendLocalEvent := default_onAppendLocalEvent;
  content_getChannelMetadata := default_getChannelMetadata;
  content_getStreamParentId := default_getStreamParentId;
  content_needsScrollback := default_needsScrollback;
|}.

(** The constructor throws when the id is not one of a user's streams. *)
Definition new `{Externals} (streamId : string) : result t :=
  match getUserIdFromStreamId streamId with
  | Throw e => Throw e
  | Ok creator => Ok (mk streamId creator [])
  end.

(** ** Lemmas *)

Lemma userDeviceKeys_add_streamId x value em : preserves (fun s => streamId s = x) (addUserDeviceKey value em).
Proof.
  unfold addUserDeviceKey. apply preserves_bind; [auto with js|intros self].
  apply preserves_bind; [case_match; auto with js|auto with js].
Qed.

#[export] Instance userDeviceKeys_content_laws : ContentLaws t.
Proof.
  split; intros; simpl; try apply default_confirm_total; try apply default_local_total; try apply preserves_return.
  unfold appendEvent, js_check_bare; apply preserves_bind; [auto with js|intros [c e]].
  repeat case_match; eauto 7 using userDeviceKeys_add_streamId with js.
Qed.

(** Splicing out the one element with a key leaves the others in order. *)
Lemma remove_at_filter {A} (key : A -> string) k (l : list A) i :
  NoDup (map key l) -> findIndex (fun x => String.eqb (key x) k) l = Some i ->
  remove_at i l = List.filter (fun x => negb (String.eqb (key x) k)) l.
Proof.
  revert i. induction l as [|x l IH]; intros i; simpl; [done|]. intros [Hx Hnd]%NoDup_cons.
  destruct (String.eqb_spec (key x) k) as [Hk|Hk]; simpl.
  - intros [= <-]. unfold remove_at. simpl. rewrite drop_0. symmetry.
    clear IH. induction l as [|y l IHl]; simpl in *; [done|].
    apply not_elem_of_cons in Hx as [Hxy Hx]. apply NoDup_cons in Hnd as [_ Hnd].
    destruct (String.eqb_spec (key y) k); [congruence|]. simpl. f_equal. auto.
  - destruct (findIndex _ l) as [j|] eqn:Hj; simpl; [|done]. intros [= <-].
    unfold remove_at in *. simpl. f_equal. by apply IH.
Qed.

Lemma filter_absent {A} (key : A -> string) k (l : list A) :
  findIndex (fun x => String.eqb (key x) k) l = None ->
  List.filter (fun x => negb (String.eqb (key x) k)) l = l.
Proof.
  induction l as [|x l IH]; simpl; [done|]. destruct (String.eqb (key x) k); simpl; [done|].
  destruct (findIndex _ l); [done|]. intros _. by rewrite IH.
Qed.

(** Announcing a device key moves the device to the end of the list with the new
    fallback key: a list with one entry per device stays so, the other devices keep
    their order, and the device is announced for the owner of the stream. *)
Theorem device_key_replaced value s :
  NoDup (map ud_deviceKey (deviceKeys s)) ->
  let o := addUserDeviceKey value true s in
  let device := mkUserDevice (edv_deviceKey value) (edv_fallbackKey value) in
  res o = Ok tt
  /\ NoDup (map ud_deviceKey (deviceKeys (post o)))
  /\ deviceKeys (post o)
     = List.filter (fun x => negb (String.eqb (ud_deviceKey x) (edv_deviceKey value))) (deviceKeys s) ++ [device]
  /\ emits o = [userDeviceKeyMessage (streamId s) (streamCreatorId s) device].
Proof.
  intros Hnd. cbv zeta.
  assert (Hlist : deviceKeys (post (addUserDeviceKey value true s))
    = List.filter (fun x => negb (String.eqb (ud_deviceKey x) (edv_deviceKey value))) (deviceKeys s)
      ++ [mkUserDevice (edv_deviceKey value) (edv_fallbackKey value)]).
  { unfold addUserDeviceKey. js_unfold. simpl.
    destruct (findIndex _ _) as [i|] eqn:Hi; simpl.
    - by rewrite (remove_at_filter ud_deviceKey (edv_deviceKey value)).
    - by rewrite (filter_absent ud_deviceKey). }
  split_and!.
  - unfold addUserDeviceKey. js_unfold. simpl. by destruct (findIndex _ _).
  - rewrite Hlist, map_app. apply NoDup_app. split_and!; [by apply filter_keys_NoDup| |apply NoDup_singleton].
    intros k Hk [->|[]%elem_of_nil]%elem_of_cons. apply list_elem_of_fmap in Hk as (y & Hy & Hin).
    apply list_filter_elem in Hin as [_ Hne]. simpl in Hy. rewrite <- Hy, String.eqb_refl in Hne. done.
  - done.
  - unfold addUserDeviceKey. js_unfold. simpl. by destruct (findIndex _ _).
Qed.

Lemma device_key_replaced_witness :
  deviceKeys (post (addUserDeviceKey (mkEncryptionDevice "a" "new") true
    (mk "ad" "u" [mkUserDevice "a" "old"; mkUserDevice "b" "x"])))
  = [mkUserDevice "b" "x"; mkUserDevice "a" "new"].
Proof.
  destruct (device_key_replaced (mkEncryptionDevice "a" "new")
    (mk "ad" "u" [mkUserDevice "a" "old"; mkUserDevice "b" "x"])) as (_ & _ & H & _);
    [apply (bool_decide_unpack _); vm_compute; reflexivity|exact H].
Defined.
