(* ===== verification/Media.v ===== *)
(** * Media content: a file in chunks (core/sdk/src/streamStateView_Media.ts) *)

From stdpp Require Import pretty.
From S2P Require Import Prelude Proto Externals Binary StreamId Types ChannelMetadata Content.

(** [chunks] starts as an array of holes. *)
Record media_info := mkInfo {
  channelId : string;
  chunkCount : Z;
  chunks : list (option bytes);
}.

Record t := mk {
  streamId : string;
  info : option media_info;
}.

Definition new (streamId : string) : t := mk streamId None.

Definition set_info v s := mk (streamId s) v.

(** [!n] for a number that may be undefined. *)
Definition falsy_num (n : option Z) : bool :=
  match n with
  | Some n => n =? 0
  | None => true
  end.

(** [Array(n)] throws for a negative length. *)
Definition applySnapshot `{Externals} (content : MediaSnapshot) : SM t unit :=
  match mds_inception content with
  | Some inception =>
      if falsy_num (Some (mi_chunkCount inception))
      then js_throw (JsError "invalid media snapshot")
      else if mi_chunkCount inception <? 0
      then js_throw (JsError "Invalid array length")
      else js_modify (set_info (Some (mkInfo (streamIdFromBytes (mi_channelId inception))
             (mi_chunkCount inception) (replicate (Z.to_nat (mi_chunkCount inception)) None))))
  | None => js_throw (JsError "invalid media snapshot")
  end.

Definition appendChunk (info : media_info) (chunk : MediaChunk) : SM t unit :=
  if (mch_chunkIndex chunk <? 0) || (chunkCount info <=? mch_chunkIndex chunk)
  then js_throw (JsError ("chunkIndex out of bounds: " +:+ pretty (mch_chunkIndex chunk)))
  else js_modify (set_info (Some (mkInfo (channelId info) (chunkCount info)
         (<[Z.to_nat (mch_chunkIndex chunk) := Some (mch_data chunk)]> (chunks info))))).

Definition appendEvent (_cleartext : option string) (_encryptionEmitter _stateEmitter : bool) : CM t unit :=
  self ← js_get;
  match event_payload self.2 with
  | Some (Payload_mediaPayload content) =>
      match info self.1 with
      | None => js_return
      | Some info =>
          match content with
          | Some (MediaPayload_inception _) => js_return
          | Some (MediaPayload_chunk chunk) => js_zoom contentL (appendChunk info chunk)
          | None => js_return
          end
      end
  | _ => js_check_bare false
  end.

(** Append and prepend are identical for media content. *)
Definition prependEvent (cleartext : option string) (encryptionEmitter stateEmitter : bool) : CM t unit :=
  appendEvent cleartext encryptionEmitter stateEmitter.

#[export] Instance media_content : Content t := {|
  content_streamId := streamId;
  content_prependEvent := prependEvent;
  content_appendEvent := appendEvent;
  content_onConfirmedEvent := default_onConfirmedEvent;
  content_onDecryptedContent := default_onDecryptedContent;
  content_onAppendLocalEvent := default_onAppendLocalEvent;
  content_getChannelMetadata := default_getChannelMetadata;
  content_getStreamParentId := default_getStreamParentId;
  content_needsScrollback := default_needsScrollback;
|}.

(** ** Specification *)

(** The array has the announced length. *)
Definition info_wf (s : t) : Prop :=
  forall i, info s = Some i -> length (chunks i) = Z.to_nat (chunkCount i).

Definition chunk_event (chunk : MediaChunk) : StreamTimelineEvent :=
  makeRemoteTimelineEvent (mkParsedEvent
    (mkStreamEvent [] [] [] None 0 0 (Some (Payload_mediaPayload (Some (MediaPayload_chunk chunk)))))
    [] "" None "") 0 None None.

(** Append the events of a sequence of chunks. *)
Definition append_chunks (log : list MediaChunk) : SM t unit :=
  js_for log (fun chunk s =>
    match appendEvent None false false (s, chunk_event chunk) with
    | Outcome r p w => Outcome r p.1 w
    end).

(** The chunks a file is cut into. *)
Definition cut (datas : list bytes) : list MediaChunk :=
  imap (fun i d => mkMediaChunk d (Z.of_nat i)) datas.

(** ** Lemmas *)

Lemma appendChunk_streamId x i chunk : preserves (fun s => streamId s = x) (appendChunk i chunk).
Proof. unfold appendChunk. case_match; auto with js. Qed.

#[export] Instance media_content_laws : ContentLaws t.
Proof.
  split; intros; simpl; try apply default_confirm_total; try apply default_local_total; try apply preserves_return.
  all: unfold prependEvent, appendEvent, js_check_bare; apply preserves_bind; [auto with js|intros [c e]].
  all: repeat case_match; eauto 7 using appendChunk_streamId with js.
Qed.

Lemma append_chunk_step chunk i s :
  info s = Some i -> 0 <= mch_chunkIndex chunk < chunkCount i ->
  appendEvent None false false (s, chunk_event chunk)
  = Outcome (Ok tt) (set_info (Some (mkInfo (channelId i) (chunkCount i)
      (<[Z.to_nat (mch_chunkIndex chunk) := Some (mch_data chunk)]> (chunks i)))) s, chunk_event chunk) [].
Proof.
  intros Hi Hb. unfold appendEvent, appendChunk. js_unfold. simpl. rewrite Hi. simpl.
  destruct (Z.ltb_spec (mch_chunkIndex chunk) 0); [lia|].
  destruct (Z.leb_spec (chunkCount i) (mch_chunkIndex chunk)); [lia|]. done.
Qed.

(** In-range chunks: the last chunk of an index is stored there. *)
Lemma append_chunks_spec log i s :
  info s = Some i -> length (chunks i) = Z.to_nat (chunkCount i) ->
  Forall (fun c => 0 <= mch_chunkIndex c < chunkCount i) log ->
  exists i', append_chunks log s = Outcome (Ok tt) (set_info (Some i') s) []
    /\ channelId i' = channelId i /\ chunkCount i' = chunkCount i
    /\ length (chunks i') = Z.to_nat (chunkCount i)
    /\ forall k, chunks i' !! k
         = match last (filter (fun c => Z.to_nat (mch_chunkIndex c) = k) log) with
           | Some c => Some (Some (mch_data c))
           | None => chunks i !! k
           end.
Proof.
  revert i s. induction log as [|c log IH]; intros i s Hi Hlen Hb.
  { exists i. split_and!; try done. unfold append_chunks, set_info. destruct s. simpl in *. by subst. }
  apply Forall_cons in Hb as [Hc Hb]. unfold append_chunks in *. cbn [js_for].
  erewrite bind_Ok by (cbv beta; rewrite (append_chunk_step c i s Hi Hc); reflexivity). cbn [fst].
  set (i1 := mkInfo _ _ _).
  destruct (IH i1 (set_info (Some i1) s)) as (i' & Ho & H1 & H2 & H3 & H4); try done.
  { simpl. by rewrite length_insert. }
  exists i'. rewrite Ho. split_and!; try done. intros k. rewrite H4, filter_cons.
  destruct (filter _ log) as [|y ys] eqn:Hf.
  2: { destruct (last (y :: ys)) as [z|] eqn:Hz; [|by apply last_None in Hz].
       case_decide; [by rewrite last_cons, Hz|by rewrite Hz]. }
  simpl. case_decide as Hk; simpl; [|by rewrite list_lookup_insert_ne].
  subst k. rewrite list_lookup_insert_eq; [done|]. rewrite Hlen. lia.
Qed.

Lemma filter_cut datas k n :
  filter (fun c => Z.to_nat (mch_chunkIndex c) = k) (imap (fun i d => mkMediaChunk d (Z.of_nat (n + i))) datas)
  = match datas !! (k - n)%nat with
    | Some d => if decide (n <= k)%nat then [mkMediaChunk d (Z.of_nat k)] else []
    | None => []
    end.
Proof.
  revert n. induction datas as [|d datas IH]; intros n; [done|].
  rewrite imap_cons, filter_cons. simpl mch_chunkIndex. rewrite Nat.add_0_r, Nat2Z.id.
  rewrite (imap_ext _ (fun i d => mkMediaChunk d (Z.of_nat (S n + i)))) by (intros; unfold compose; f_equal; lia).
  rewrite IH. case_decide as Hk.
  - subst k. rewrite Nat.sub_diag. simpl. rewrite (decide_True (P := (n <= n)%nat)) by lia.
    destruct (datas !! _); [|done]. rewrite decide_False by lia. done.
  - destruct (decide (n <= k)%nat) as [Hle|Hle].
    + replace (k - n)%nat with (S (k - S n)) by lia. simpl. destruct (datas !! _); [|done].
      rewrite decide_True by lia. done.
    + replace (k - n)%nat with 0%nat by lia. simpl.
      destruct (datas !! _); [|done]. rewrite decide_False by lia. done.
Qed.

(** The chunks of a file, appended in any order to a media stream of that many
    chunks, put the file together: all are accepted and the array holds every piece
    at its place. *)
Theorem media_reassembles datas log cid s :
  info s = Some (mkInfo cid (Z.of_nat (length datas)) (replicate (length datas) None)) ->
  log ≡ₚ cut datas ->
  append_chunks log s
  = Outcome (Ok tt) (set_info (Some (mkInfo cid (Z.of_nat (length datas)) (map Some datas))) s) [].
Proof.
  intros Hi Hp.
  destruct (append_chunks_spec log _ s Hi) as ([cid' n' cs'] & Ho & H1 & H2 & H3 & H4).
  - simpl. rewrite length_replicate. lia.
  - rewrite Hp. apply Forall_forall. intros c Hc. unfold cut in Hc.
    apply list_elem_of_lookup in Hc as [j Hj]. rewrite list_lookup_imap in Hj.
    destruct (datas !! j) eqn:Hd; simplify_eq/=. apply lookup_lt_Some in Hd. lia.
  - rewrite Ho. simpl in *. subst. do 5 f_equal. apply list_eq. intros k. rewrite H4.
    assert (Hf : filter (fun c => Z.to_nat (mch_chunkIndex c) = k) log ≡ₚ
                 filter (fun c => Z.to_nat (mch_chunkIndex c) = k) (cut datas)) by (by rewrite Hp).
    change (cut datas) with (imap (fun i d => mkMediaChunk d (Z.of_nat (0 + i))) datas) in Hf.
    rewrite (filter_cut datas k 0), Nat.sub_0_r in Hf.
    change (map Some datas) with (Some <$> datas). rewrite list_lookup_fmap.
    destruct (datas !! k) as [d|] eqn:Hd.
    + rewrite decide_True in Hf by lia. apply Permutation_singleton_r in Hf. by rewrite Hf.
    + apply Permutation_nil_r in Hf. rewrite Hf. simpl. apply lookup_ge_None in Hd.
      apply lookup_ge_None. by rewrite length_replicate.
Qed.

(** A chunk outside the announced range is refused and changes nothing; no
    event ever changes the length of the chunk array. *)
Theorem media_chunk_bounds chunk i s :
  info s = Some i -> info_wf s ->
  let o := appendEvent None false false (s, chunk_event chunk) in
  info_wf (post o).1
  /\ (mch_chunkIndex chunk < 0 \/ chunkCount i <= mch_chunkIndex chunk ->
      o = Outcome (Throw (JsError ("chunkIndex out of bounds: " +:+ pretty (mch_chunkIndex chunk))))
            (s, chunk_event chunk) []).
Proof.
  intros Hi Hwf. cbv zeta.
  destruct (decide (0 <= mch_chunkIndex chunk < chunkCount i)) as [Hb|Hb].
  - rewrite (append_chunk_step _ _ _ Hi Hb). split; [|lia].
    intros i' [= <-]. simpl. rewrite length_insert. by apply Hwf.
  - assert (Ho : appendEvent None false false (s, chunk_event chunk)
      = Outcome (Throw (JsError ("chunkIndex out of bounds: " +:+ pretty (mch_chunkIndex chunk))))
            (s, chunk_event chunk) []); [|by rewrite Ho].
    unfold appendEvent, appendChunk. js_unfold. simpl. rewrite Hi.
    destruct (Z.ltb_spec (mch_chunkIndex chunk) 0); [done|].
    destruct (Z.leb_spec (chunkCount i) (mch_chunkIndex chunk)); [done|]. lia.
Qed.

Lemma media_reassembles_witness :
  append_chunks [mkMediaChunk [x02] 1; mkMediaChunk [x01] 0]
    (mk "ff" (Some (mkInfo "c" 2 [None; None])))
  = Outcome (Ok tt) (mk "ff" (Some (mkInfo "c" 2 [Some [x01]; Some [x02]]))) [].
Proof.
  apply (media_reassembles [[x01]; [x02]] _ "c" (mk "ff" (Some (mkInfo "c" 2 [None; None]))));
    [reflexivity|apply Permutation_swap].
Defined.

Lemma media_chunk_bounds_witness :
  appendEvent None false false (mk "ff" (Some (mkInfo "c" 2 [None; None])), chunk_event (mkMediaChunk [] 2))
  = Outcome (Throw (JsError ("chunkIndex out of bounds: " +:+ pretty 2%Z)))
      (mk "ff" (Some (mkInfo "c" 2 [None; None])), chunk_event (mkMediaChunk [] 2)) [].
Proof.
  destruct (media_chunk_bounds (mkMediaChunk [] 2) (mkInfo "c" 2 [None; None])
    (mk "ff" (Some (mkInfo "c" 2 [None; None])))) as [_ H].
  - reflexivity.
  - intros i [= <-]. reflexivity.
  - apply H. simpl. lia.
Defined.
