(* ===== verification/UnknownContent.v ===== *)
(** * Content of an unknown kind (core/sdk/src/streamStateView_UnknownContent.ts) *)

From S2P Require Import Prelude Proto Types ChannelMetadata Content.

Record t := mk { streamId : string }.

Definition prependEvent (_cleartext : option string) (_encryptionEmitter _stateEmitter : bool) : CM t unit :=
  js_throw (JsError "Unknown content type").

Definition appendEvent (_cleartext : option string) (_emitter _stateEmitter : bool) : CM t unit :=
  js_throw (JsError "Unknown content type").

#[export] Instance unknown_content : Content t := {|
  content_streamId := streamId;
  content_prependEvent := prependEvent;
  content_appendEvent := appendEvent;
  content_onConfirmedEvent := default_onConfirmedEvent;
  content_onDecryptedContent := default_onDecryptedContent;
  content_onAppendLocalEvent := default_onAppendLocalEvent;
  content_getChannelMetadata := default_getChannelMetadata;
  content_getStreamParentId := default_getStreamParentId;
  content_needsScrollback := default_needsScrollback;
|}.

#[export] Instance unknown_content_laws : ContentLaws t.
Proof. split; intros; simpl; (apply default_confirm_total || apply default_local_total || apply preserves_return || apply preserves_throw). Qed.
