(* ===== verification/StreamStateView.v ===== *)
(** * The state view of one stream (core/sdk/src/streamStateView.ts)

    Owns the timeline, the events by hash, the miniblock range and the content and
    membership components. Timeline events are objects shared between the timeline,
    the [events] map and the emitted changes, so they live in a heap. *)

From stdpp Require Import pretty.
From S2P Require Import Prelude Proto Externals ToyExternals Binary StreamId Types Migrations.
From S2P Require Import MembershipState Members ChannelMetadata Content Channel DMChannel GDMChannel.
From S2P Require Import Space User UserInbox UserSettings UserDeviceKeys Media UnknownContent.

(** ** The content of a stream *)

(** The one defined content field of the view, with its [contentKind]. *)
Inductive AnyContent :=
| C_space (x : Space.t)
| C_channel (x : Channel.t)
| C_dm (x : DMChannel.t)
| C_gdm (x : GDMChannel.t)
| C_media (x : Media.t)
| C_user (x : User.t)
| C_userSettings (x : UserSettings.t)
| C_userDeviceKey (x : UserDeviceKeys.t)
| C_userInbox (x : UserInbox.t).

Definition contentKind (c : AnyContent) : SnapshotCase :=
  match c with
  | C_space _ => spaceContent
  | C_channel _ => channelContent
  | C_dm _ => dmChannelContent
  | C_gdm _ => gdmChannelContent
  | C_media _ => mediaContent
  | C_user _ => userContent
  | C_userSettings _ => userSettingsContent
  | C_userDeviceKey _ => userDeviceKeyContent
  | C_userInbox _ => userInboxContent
  end.

Definition kind_name (k : SnapshotCase) : string :=
  match k with
  | spaceContent => "spaceContent"
  | channelContent => "channelContent"
  | dmChannelContent => "dmChannelContent"
  | gdmChannelContent => "gdmChannelContent"
  | mediaContent => "mediaContent"
  | userContent => "userContent"
  | userSettingsContent => "userSettingsContent"
  | userDeviceKeyContent => "userDeviceKeyContent"
  | userInboxContent => "userInboxContent"
  end.

(** Run a method of the concrete class and wrap the object again. *)
Definition rewrap {C A} (wrap : C -> AnyContent) (o : outcome StreamEvents C A)
    : outcome StreamEvents AnyContent A :=
  match o with Outcome r c w => Outcome r (wrap c) w end.
Definition rewrap2 {C A} (wrap : C -> AnyContent) (o : outcome StreamEvents (C * StreamTimelineEvent) A)
    : outcome StreamEvents (AnyContent * StreamTimelineEvent) A :=
  match o with Outcome r p w => Outcome r (wrap p.1, p.2) w end.

Section AnyContent.
Context `{Externals}.

(** Dispatch of the methods of the abstract class. *)
#[export] Instance any_content : Content AnyContent := {|
  content_streamId c := match c with
  | C_space x => content_streamId x
  | C_channel x => content_streamId x
  | C_dm x => content_streamId x
  | C_gdm x => content_streamId x
  | C_media x => content_streamId x
  | C_user x => content_streamId x
  | C_userSettings x => content_streamId x
  | C_userDeviceKey x => content_streamId x
  | C_userInbox x => content_streamId x
  end;
  content_prependEvent ct e1 e2 := fun p => match p.1 with
  | C_space x => rewrap2 C_space (content_prependEvent ct e1 e2 (x, p.2))
  | C_channel x => rewrap2 C_channel (content_prependEvent ct e1 e2 (x, p.2))
  | C_dm x => rewrap2 C_dm (content_prependEvent ct e1 e2 (x, p.2))
  | C_gdm x => rewrap2 C_gdm (content_prependEvent ct e1 e2 (x, p.2))
  | C_media x => rewrap2 C_media (content_prependEvent ct e1 e2 (x, p.2))
  | C_user x => rewrap2 C_user (content_prependEvent ct e1 e2 (x, p.2))
  | C_userSettings x => rewrap2 C_userSettings (content_prependEvent ct e1 e2 (x, p.2))
  | C_userDeviceKey x => rewrap2 C_userDeviceKey (content_prependEvent ct e1 e2 (x, p.2))
  | C_userInbox x => rewrap2 C_userInbox (content_prependEvent ct e1 e2 (x, p.2))
  end;
  content_appendEvent ct e1 e2 := fun p => match p.1 with
  | C_space x => rewrap2 C_space (content_appendEvent ct e1 e2 (x, p.2))
  | C_channel x => rewrap2 C_channel (content_appendEvent ct e1 e2 (x, p.2))
  | C_dm x => rewrap2 C_dm (content_appendEvent ct e1 e2 (x, p.2))
  | C_gdm x => rewrap2 C_gdm (content_appendEvent ct e1 e2 (x, p.2))
  | C_media x => rewrap2 C_media (content_appendEvent ct e1 e2 (x, p.2))
  | C_user x => rewrap2 C_user (content_appendEvent ct e1 e2 (x, p.2))
  | C_userSettings x => rewrap2 C_userSettings (content_appendEvent ct e1 e2 (x, p.2))
  | C_userDeviceKey x => rewrap2 C_userDeviceKey (content_appendEvent ct e1 e2 (x, p.2))
  | C_userInbox x => rewrap2 C_userInbox (content_appendEvent ct e1 e2 (x, p.2))
  end;
  content_onConfirmedEvent ev em := fun c => match c with
  | C_space x => rewrap C_space (content_onConfirmedEvent ev em x)
  | C_channel x => rewrap C_channel (content_onConfirmedEvent ev em x)
  | C_dm x => rewrap C_dm (content_onConfirmedEvent ev em x)
  | C_gdm x => rewrap C_gdm (content_onConfirmedEvent ev em x)
  | C_media x => rewrap C_media (content_onConfirmedEvent ev em x)
  | C_user x => rewrap C_user (content_onConfirmedEvent ev em x)
  | C_userSettings x => rewrap C_userSettings (content_onConfirmedEvent ev em x)
  | C_userDeviceKey x => rewrap C_userDeviceKey (content_onConfirmedEvent ev em x)
  | C_userInbox x => rewrap C_userInbox (content_onConfirmedEvent ev em x)
  end;
  content_onDecryptedContent e d em := fun c => match c with
  | C_space x => rewrap C_space (content_onDecryptedContent e d em x)
  | C_channel x => rewrap C_channel (content_onDecryptedContent e d em x)
  | C_dm x => rewrap C_dm (content_onDecryptedContent e d em x)
  | C_gdm x => rewrap C_gdm (content_onDecryptedContent e d em x)
  | C_media x => rewrap C_media (content_onDecryptedContent e d em x)
  | C_user x => rewrap C_user (content_onDecryptedContent e d em x)
  | C_userSettings x => rewrap C_userSettings (content_onDecryptedContent e d em x)
  | C_userDeviceKey x => rewrap C_userDeviceKey (content_onDecryptedContent e d em x)
  | C_userInbox x => rewrap C_userInbox (content_onDecryptedContent e d em x)
  end;
  content_onAppendLocalEvent ev em := fun c => match c with
  | C_space x => rewrap C_space (content_onAppendLocalEvent ev em x)
  | C_channel x => rewrap C_channel (content_onAppendLocalEvent ev em x)
  | C_dm x => rewrap C_dm (content_onAppendLocalEvent ev em x)
  | C_gdm x => rewrap C_gdm (content_onAppendLocalEvent ev em x)
  | C_media x => rewrap C_media (content_onAppendLocalEvent ev em x)
  | C_user x => rewrap C_user (content_onAppendLocalEvent ev em x)
  | C_userSettings x => rewrap C_userSettings (content_onAppendLocalEvent ev em x)
  | C_userDeviceKey x => rewrap C_userDeviceKey (content_onAppendLocalEvent ev em x)
  | C_userInbox x => rewrap C_userInbox (content_onAppendLocalEvent ev em x)
  end;
  content_getChannelMetadata c := match c with
  | C_space x => content_getChannelMetadata x
  | C_channel x => content_getChannelMetadata x
  | C_dm x => content_getChannelMetadata x
  | C_gdm x => content_getChannelMetadata x
  | C_media x => content_getChannelMetadata x
  | C_user x => content_getChannelMetadata x
  | C_userSettings x => content_getChannelMetadata x
  | C_userDeviceKey x => content_getChannelMetadata x
  | C_userInbox x => content_getChannelMetadata x
  end;
  content_getStreamParentId c := match c with
  | C_space x => content_getStreamParentId x
  | C_channel x => content_getStreamParentId x
  | C_dm x => content_getStreamParentId x
  | C_gdm x => content_getStreamParentId x
  | C_media x => content_getStreamParentId x
  | C_user x => content_getStreamParentId x
  | C_userSettings x => content_getStreamParentId x
  | C_userDeviceKey x => content_getStreamParentId x
  | C_userInbox x => content_getStreamParentId x
  end;
  content_needsScrollback c := match c with
  | C_space x => content_needsScrollback x
  | C_channel x => content_needsScrollback x
  | C_dm x => content_needsScrollback x
  | C_gdm x => content_needsScrollback x
  | C_media x => content_needsScrollback x
  | C_user x => content_needsScrollback x
  | C_userSettings x => content_needsScrollback x
  | C_userDeviceKey x => content_needsScrollback x
  | C_userInbox x => content_needsScrollback x
  end;
|}.
End AnyContent.

(** ** State *)

Record miniblock_info := mkMiniblockInfo {
  mbi_max : Z;
  mbi_min : Z;
  mbi_terminusReached : bool;
}.

Record t := mk {
  streamId : string;
  userId : string;
  content : AnyContent;
  heap : gmap ref StreamTimelineEvent;
  next_ref : ref;
  timeline : list ref;
  events : gmap string ref;
  isInitialized : bool;
  snapshot : option Snapshot;
  prevMiniblockHash : option bytes;
  lastEventNum : Z;
  prevSnapshotMiniblockNum : Z;
  miniblockInfo : option miniblock_info;
  syncCookie : option SyncCookie;
  membershipContent : Members.t;
}.

Definition set_content (v : AnyContent) (s : t) : t := mk (streamId s) (userId s) v (heap s)
  (next_ref s) (timeline s) (events s) (isInitialized s) (snapshot s) (prevMiniblockHash s)
  (lastEventNum s) (prevSnapshotMiniblockNum s) (miniblockInfo s) (syncCookie s) (membershipContent
  s).
Definition set_heap (v : gmap ref StreamTimelineEvent) (s : t) : t := mk (streamId s) (userId s)
  (content s) v (next_ref s) (timeline s) (events s) (isInitialized s) (snapshot s)
  (prevMiniblockHash s) (lastEventNum s) (prevSnapshotMiniblockNum s) (miniblockInfo s) (syncCookie
  s) (membershipContent s).
Definition set_timeline (v : list ref) (s : t) : t := mk (streamId s) (userId s) (content s) (heap
  s) (next_ref s) v (events s) (isInitialized s) (snapshot s) (prevMiniblockHash s) (lastEventNum s)
  (prevSnapshotMiniblockNum s) (miniblockInfo s) (syncCookie s) (membershipContent s).
Definition set_events (v : gmap string ref) (s : t) : t := mk (streamId s) (userId s) (content s)
  (heap s) (next_ref s) (timeline s) v (isInitialized s) (snapshot s) (prevMiniblockHash s)
  (lastEventNum s) (prevSnapshotMiniblockNum s) (miniblockInfo s) (syncCookie s) (membershipContent
  s).
Definition set_isInitialized (v : bool) (s : t) : t := mk (streamId s) (userId s) (content s) (heap
  s) (next_ref s) (timeline s) (events s) v (snapshot s) (prevMiniblockHash s) (lastEventNum s)
  (prevSnapshotMiniblockNum s) (miniblockInfo s) (syncCookie s) (membershipContent s).
Definition set_snapshot (v : option Snapshot) (s : t) : t := mk (streamId s) (userId s) (content s)
  (heap s) (next_ref s) (timeline s) (events s) (isInitialized s) v (prevMiniblockHash s)
  (lastEventNum s) (prevSnapshotMiniblockNum s) (miniblockInfo s) (syncCookie s) (membershipContent
  s).
Definition set_prevMiniblockHash (v : option bytes) (s : t) : t := mk (streamId s) (userId s)
  (content s) (heap s) (next_ref s) (timeline s) (events s) (isInitialized s) (snapshot s) v
  (lastEventNum s) (prevSnapshotMiniblockNum s) (miniblockInfo s) (syncCookie s) (membershipContent
  s).
Definition set_lastEventNum (v : Z) (s : t) : t := mk (streamId s) (userId s) (content s) (heap s)
  (next_ref s) (timeline s) (events s) (isInitialized s) (snapshot s) (prevMiniblockHash s) v
  (prevSnapshotMiniblockNum s) (miniblockInfo s) (syncCookie s) (membershipContent s).
Definition set_prevSnapshotMiniblockNum (v : Z) (s : t) : t := mk (streamId s) (userId s) (content
  s) (heap s) (next_ref s) (timeline s) (events s) (isInitialized s) (snapshot s) (prevMiniblockHash
  s) (lastEventNum s) v (miniblockInfo s) (syncCookie s) (membershipContent s).
Definition set_miniblockInfo (v : option miniblock_info) (s : t) : t := mk (streamId s) (userId s)
  (content s) (heap s) (next_ref s) (timeline s) (events s) (isInitialized s) (snapshot s)
  (prevMiniblockHash s) (lastEventNum s) (prevSnapshotMiniblockNum s) v (syncCookie s)
  (membershipContent s).
Definition set_syncCookie (v : option SyncCookie) (s : t) : t := mk (streamId s) (userId s) (content
  s) (heap s) (next_ref s) (timeline s) (events s) (isInitialized s) (snapshot s) (prevMiniblockHash
  s) (lastEventNum s) (prevSnapshotMiniblockNum s) (miniblockInfo s) v (membershipContent s).
Definition set_membershipContent (v : Members.t) (s : t) : t := mk (streamId s) (userId s) (content
  s) (heap s) (next_ref s) (timeline s) (events s) (isInitialized s) (snapshot s) (prevMiniblockHash
  s) (lastEventNum s) (prevSnapshotMiniblockNum s) (miniblockInfo s) (syncCookie s) v.

Definition membersL : lens t Members.t := Lens membershipContent set_membershipContent.
Definition anyContentL : lens t AnyContent := Lens content set_content.

(** ** Timeline event objects *)

Definition push_event (r : ref) (ev : StreamTimelineEvent) (s : t) : t :=
  mk (streamId s) (userId s) (content s) (<[r := ev]> (heap s)) (S r) (timeline s) (events s)
    (isInitialized s) (snapshot s) (prevMiniblockHash s) (lastEventNum s) (prevSnapshotMiniblockNum s)
    (miniblockInfo s) (syncCookie s) (membershipContent s).

(** Create an event object. *)
Definition alloc (ev : StreamTimelineEvent) : SM t ref :=
  self ← js_get;
  let r := next_ref self in
  js_modify (push_event r ev);;
  mret r.

Fixpoint alloc_all (evs : list StreamTimelineEvent) : SM t (list ref) :=
  match evs with
  | [] => mret []
  | ev :: evs => r ← alloc ev; rs ← alloc_all evs; mret (r :: rs)
  end.

(** Read an object; references are never dangling. *)
Definition deref (r : ref) : SM t StreamTimelineEvent :=
  self ← js_get;
  match heap self !! r with
  | Some ev => mret ev
  | None => js_throw (JsError "dangling reference")
  end.

(** Assign to properties of an object. *)
Definition assign (r : ref) (f : StreamTimelineEvent -> StreamTimelineEvent) : SM t unit :=
  js_modify (fun s => set_heap (alter f r (heap s)) s).

(** ** Constructor and content getters *)

Section View.
Context `{Externals}.

Definition kindError (name : string) (c : AnyContent) : js_error :=
  CodeException (name +:+ " not defined for " +:+ kind_name (contentKind c)) Err_ERR_UNSPECIFIED.

Definition spaceContent (s : t) : result Space.t :=
  match content s with C_space x => Ok x | c => Throw (kindError "spaceContent" c) end.
Definition channelContent (s : t) : result Channel.t :=
  match content s with C_channel x => Ok x | c => Throw (kindError "channelContent" c) end.
Definition dmChannelContent (s : t) : result DMChannel.t :=
  match content s with C_dm x => Ok x | c => Throw (kindError "dmChannelContent" c) end.
(** The message names [dmChannelContent] here too. *)
Definition gdmChannelContent (s : t) : result GDMChannel.t :=
  match content s with C_gdm x => Ok x | c => Throw (kindError "dmChannelContent" c) end.
Definition userContent (s : t) : result User.t :=
  match content s with C_user x => Ok x | c => Throw (kindError "userContent" c) end.
Definition userSettingsContent (s : t) : result UserSettings.t :=
  match content s with C_userSettings x => Ok x | c => Throw (kindError "userSettingsContent" c) end.
Definition userDeviceKeyContent (s : t) : result UserDeviceKeys.t :=
  match content s with C_userDeviceKey x => Ok x | c => Throw (kindError "userDeviceKeyContent" c) end.
Definition userInboxContent (s : t) : result UserInbox.t :=
  match content s with C_userInbox x => Ok x | c => Throw (kindError "userInboxContent" c) end.
Definition mediaContent (s : t) : result Media.t :=
  match content s with C_media x => Ok x | c => Throw (kindError "mediaContent" c) end.

(** The content object the constructor makes for a stream id. *)
Definition newContent (streamId : string) : result AnyContent :=
  let id := IdString streamId in
  if isSpaceStreamId id then Ok (C_space (Space.new streamId))
  else if isChannelStreamId id then Ok (C_channel (Channel.new streamId))
  else if isDMChannelStreamId id then Ok (C_dm (DMChannel.new streamId))
  else if isGDMChannelStreamId id then Ok (C_gdm (GDMChannel.new streamId))
  else if isMediaStreamId id then Ok (C_media (Media.new streamId))
  else if isUserStreamId id then Ok (C_user (User.new streamId))
  else if isUserSettingsStreamId id then Ok (C_userSettings (UserSettings.new streamId))
  else if isUserDeviceStreamId id then
    match UserDeviceKeys.new streamId with
    | Ok x => Ok (C_userDeviceKey x)
    | Throw e => Throw e
    end
  else if isUserInboxStreamId id then Ok (C_userInbox (UserInbox.new streamId))
  else Throw (JsError ("Stream doesn't have a content kind " +:+ streamId)).

Definition new (userId streamId : string) : result t :=
  match newContent streamId with
  | Throw e => Throw e
  | Ok c => Ok (mk streamId userId c ∅ 0%nat [] ∅ false None None 0 0 None None (Members.new streamId))
  end.

(** Run a method of the object a getter returned. *)
Definition on_content {C A} (get : t -> result C) (wrap : C -> AnyContent) (m : SM C A) : SM t A :=
  self ← js_get;
  c ← js_lift (get self);
  js_zoom (Lens (fun _ => c) (fun c s => set_content (wrap c) s)) m.

Definition applySnapshot (eventHash : string) (inSnapshot : Snapshot)
    (cleartexts : option (gmap string string)) (encryptionEmitter : bool) : SM t unit :=
  snapshot ← js_lift (migrateSnapshot inSnapshot);
  js_modify (set_snapshot (Some snapshot));;
  self ← js_get;
  match snap_content snapshot with
  | Some (Snapshot_spaceContent v) =>
      on_content spaceContent C_space (Space.applySnapshot eventHash v)
  | Some (Snapshot_channelContent v) =>
      on_content channelContent C_channel (Channel.applySnapshot v)
  | Some (Snapshot_dmChannelContent v) =>
      on_content dmChannelContent C_dm (DMChannel.applySnapshot v)
  | Some (Snapshot_gdmChannelContent v) =>
      on_content gdmChannelContent C_gdm (GDMChannel.applySnapshot v cleartexts encryptionEmitter)
  | Some (Snapshot_mediaContent v) =>
      on_content mediaContent C_media (Media.applySnapshot v)
  | Some (Snapshot_userContent v) =>
      on_content userContent C_user (User.applySnapshot v encryptionEmitter)
  | Some (Snapshot_userDeviceKeyContent v) =>
      on_content userDeviceKeyContent C_userDeviceKey (UserDeviceKeys.applySnapshot v encryptionEmitter)
  | Some (Snapshot_userSettingsContent v) =>
      on_content userSettingsContent C_userSettings (UserSettings.applySnapshot v)
  | Some (Snapshot_userInboxContent v) =>
      on_content userInboxContent C_userInbox (UserInbox.applySnapshot v)
  | None => js_check_code false ("Snapshot has no content " +:+ streamId self) Err_STREAM_BAD_EVENT
  end;;
  js_zoom membersL (Members.applySnapshot snapshot cleartexts encryptionEmitter).

(** ** Miniblock range *)

(** [update.max && update.max > ...]: the bigint [0n] is falsy. *)
Definition updateMiniblockInfo (value : MiniblockHeader) (update_max update_min : option Z) : SM t unit :=
  self ← js_get;
  match miniblockInfo self with
  | None =>
      js_modify (set_miniblockInfo (Some (mkMiniblockInfo (mh_miniblockNum value) (mh_miniblockNum value)
        (mh_miniblockNum value =? 0))))
  | Some info =>
      let max := match truthy_bigint update_max with
                 | Some m => if mbi_max info <? m then m else mbi_max info
                 | None => mbi_max info
                 end in
      let min := match truthy_bigint update_min with
                 | Some m => if m <? mbi_min info then m else mbi_min info
                 | None => mbi_min info
                 end in
      js_modify (set_miniblockInfo (Some (mkMiniblockInfo max min
        (if (min =? 0) || (max =? 0) then true else mbi_terminusReached info))))
  end.

(** ** Appending *)

(** The payload of an event after a method sorted parts of it in place. *)
Definition set_member_payload (p : option MemberPayload_content) (ev : StreamTimelineEvent) : StreamTimelineEvent :=
  te_set_remoteEvent
    (match te_remoteEvent ev with
     | Some pe =>
         let e := pe_event pe in
         Some (mkParsedEvent
           (mkStreamEvent (se_creatorAddress e) (se_delegateSig e) (se_salt e) (se_prevMiniblockHash e)
              (se_createdAtEpochMs e) (se_delegateExpiryEpochMs e) (Some (Payload_memberPayload p)))
           (pe_hash pe) (pe_hashStr pe) (pe_prevMiniblockHashStr pe) (pe_creatorUserId pe))
     | None => None
     end) ev.

(** [this.getContent().appendEvent(timelineEvent, ...)] and the like: the content
    and the event object are updated in place. *)
Definition content_with_event (r : ref) (m : CM AnyContent unit) : SM t unit :=
  ev ← deref r;
  js_zoom (Lens (fun s => (content s, ev))
             (fun p s => set_heap (<[r := p.2]> (heap s)) (set_content p.1 s))) m.

(** The loop of [processMiniblockHeader] from index [i] on. *)
Fixpoint confirm_hashes (header : MiniblockHeader) (i : Z) (eventHashes : list bytes)
    (stateEmitter : bool) : SM t (list ref) :=
  match eventHashes with
  | [] => mret []
  | hash :: eventHashes =>
      let eventId := bin_toHexString hash in
      self ← js_get;
      match events self !! eventId with
      | None => confirm_hashes header (i + 1) eventHashes stateEmitter
      | Some r =>
          assign r (te_set_miniblockNum (Some (mh_miniblockNum header)));;
          assign r (te_set_confirmedEventNum (Some (mh_eventNumOffset header + i)));;
          event ← deref r;
          js_check (isConfirmedEvent event) ("Event is not confirmed " +:+ eventId);;
          match event_payload event with
          | Some (Payload_memberPayload payload) =>
              js_zoom membersL (Members.onConfirmedEvent event payload stateEmitter)
          | None => js_return
          | Some _ => js_zoom anyContentL (content_onConfirmedEvent event stateEmitter)
          end;;
          confirmed ← confirm_hashes header (i + 1) eventHashes stateEmitter;
          mret (r :: confirmed)
      end
  end.

Definition processMiniblockHeader (header : MiniblockHeader) (eventHashes : list bytes)
    (stateEmitter : bool) : SM t (list ref) :=
  confirm_hashes header 0 eventHashes stateEmitter.

Definition show_max (info : option miniblock_info) : string :=
  match info with
  | Some info => pretty (mbi_max info)
  | None => "undefined"
  end.

(** The [miniblockHeader] case of [processAppendedEvent]. *)
Definition appendHeader (r : ref) (hash : bytes) (header : MiniblockHeader) (stateEmitter : bool)
    : SM t (list ref) :=
  self ← js_get;
  js_check_code (match miniblockInfo self with Some info => mbi_max info | None => -1 end <? mh_miniblockNum header)
    ("Miniblock number out of order " +:+ pretty (mh_miniblockNum header) +:+ " > " +:+ show_max (miniblockInfo self))
    Err_STREAM_BAD_EVENT;;
  match mh_snapshot header with
  | Some snapshot =>
      migrated ← js_lift (migrateSnapshot snapshot);
      js_modify (set_snapshot (Some migrated))
  | None => js_return
  end;;
  js_modify (set_prevMiniblockHash (Some hash));;
  updateMiniblockInfo header (Some (mh_miniblockNum header)) None;;
  assign r (te_set_confirmedEventNum
    (Some (mh_eventNumOffset header + Z.of_nat (length (mh_eventHashes header)))));;
  assign r (te_set_miniblockNum (Some (mh_miniblockNum header)));;
  processMiniblockHeader header (mh_eventHashes header) stateEmitter.

(** [event.hash] of a remote timeline event. *)
Definition remote_hash (ev : StreamTimelineEvent) : bytes :=
  match te_remoteEvent ev with
  | Some pe => pe_hash pe
  | None => []
  end.

(** The body of the [try] block of [processAppendedEvent]. *)
Definition appendPayload (r : ref) (cleartext : option string) (encryptionEmitter stateEmitter : bool)
    : SM t (option (list ref)) :=
  ev ← deref r;
  match event_payload ev with
  | Some (Payload_miniblockHeader header) =>
      confirmed ← appendHeader r (remote_hash ev) header stateEmitter;
      mret (Some confirmed)
  | Some (Payload_memberPayload payload) =>
      payload' ← js_zoom membersL
        (Members.appendEvent ev cleartext payload encryptionEmitter stateEmitter);
      assign r (set_member_payload payload');;
      mret None
  | None => mret None
  | Some _ =>
      content_with_event r (content_appendEvent cleartext encryptionEmitter stateEmitter);;
      mret None
  end.

(** The payload of an event is an object of its own, so that the check for it
    never fails; what is thrown while applying it is logged only. *)
Definition processAppendedEvent (r : ref) (cleartext : option string)
    (encryptionEmitter stateEmitter : bool) : SM t (option (list ref)) :=
  timelineEvent ← deref r;
  self ← js_get;
  js_check_bare (negb (is_defined (events self !! te_hashStr timelineEvent)));;
  js_modify (fun s => set_events (<[te_hashStr timelineEvent := r]> (events s)) s);;
  js_try (appendPayload r cleartext encryptionEmitter stateEmitter) (fun _ => mret None).

(** [this.lastEventNum++]. *)
Definition nextEventNum : SM t Z :=
  self ← js_get;
  js_modify (set_lastEventNum (lastEventNum self + 1));;
  mret (lastEventNum self).

Definition cleartext_for (cleartexts : option (gmap string string)) (hashStr : string) : option string :=
  match cleartexts with
  | Some m => m !! hashStr
  | None => None
  end.

Record append_result := mkAppendResult {
  appended : list ref;
  updated : list ref;
  confirmed : list ref;
}.

(** One iteration of the loop of [appendStreamAndCookie]. *)
Definition appendOne (cleartexts : option (gmap string string)) (encryptionEmitter stateEmitter : bool)
    (parsedEvent : ParsedEvent) (acc : append_result) : SM t append_result :=
  self ← js_get;
  match events self !! pe_hashStr parsedEvent with
  | Some existing =>
      assign existing (te_set_remoteEvent (Some parsedEvent));;
      mret (mkAppendResult (appended acc) (updated acc ++ [existing]) (confirmed acc))
  | None =>
      eventNum ← nextEventNum;
      r ← alloc (makeRemoteTimelineEvent parsedEvent eventNum None None);
      js_modify (fun s => set_timeline (timeline s ++ [r]) s);;
      newlyConfirmed ← processAppendedEvent r (cleartext_for cleartexts (pe_hashStr parsedEvent))
                         encryptionEmitter stateEmitter;
      mret (mkAppendResult (appended acc ++ [r]) (updated acc)
              (confirmed acc ++ default [] newlyConfirmed))
  end.

Fixpoint appendLoop (cleartexts : option (gmap string string)) (encryptionEmitter stateEmitter : bool)
    (minipoolEvents : list ParsedEvent) (acc : append_result) : SM t append_result :=
  match minipoolEvents with
  | [] => mret acc
  | parsedEvent :: rest =>
      acc ← appendOne cleartexts encryptionEmitter stateEmitter parsedEvent acc;
      appendLoop cleartexts encryptionEmitter stateEmitter rest acc
  end.

Definition appendStreamAndCookie (nextSyncCookie : SyncCookie) (minipoolEvents : list ParsedEvent)
    (cleartexts : option (gmap string string)) (encryptionEmitter stateEmitter : bool)
    : SM t append_result :=
  acc ← appendLoop cleartexts encryptionEmitter stateEmitter minipoolEvents (mkAppendResult [] [] []);
  js_modify (set_syncCookie (Some nextSyncCookie));;
  mret acc.

(** [xs.length > 0 ? xs : undefined]. *)
Definition nonempty {A} (xs : list A) : option (list A) :=
  match xs with
  | [] => None
  | _ => Some xs
  end.

Definition appendEvents (events : list ParsedEvent) (nextSyncCookie : SyncCookie)
    (cleartexts : option (gmap string string)) (emitter : bool) : SM t unit :=
  r ← appendStreamAndCookie nextSyncCookie events cleartexts emitter emitter;
  self ← js_get;
  js_emit emitter (streamUpdated (streamId self) (contentKind (content self))
    (mkStreamChange None (nonempty (appended r)) (nonempty (updated r)) (nonempty (confirmed r)))).

(** ** Prepending *)

Definition prependPayload (r : ref) (cleartext : option string) (encryptionEmitter stateEmitter : bool)
    : SM t unit :=
  ev ← deref r;
  match event_payload ev with
  | Some (Payload_miniblockHeader header) =>
      updateMiniblockInfo header None (Some (mh_miniblockNum header));;
      js_modify (set_prevSnapshotMiniblockNum (mh_prevSnapshotMiniblockNum header))
  | Some (Payload_memberPayload _) => js_zoom membersL Members.prependEvent
  | None => js_return
  | Some _ => content_with_event r (content_prependEvent cleartext encryptionEmitter stateEmitter)
  end.

Definition processPrependedEvent (r : ref) (cleartext : option string)
    (encryptionEmitter stateEmitter : bool) : SM t unit :=
  timelineEvent ← deref r;
  self ← js_get;
  js_check_bare (negb (is_defined (events self !! te_hashStr timelineEvent)));;
  js_modify (fun s => set_events (<[te_hashStr timelineEvent := r]> (events s)) s);;
  js_try (prependPayload r cleartext encryptionEmitter stateEmitter) (fun _ => js_return).

(** The timeline events of a miniblock, confirmed at their place in it. *)
Definition miniblock_events (mb : ParsedMiniblock) : list StreamTimelineEvent :=
  imap (fun i parsedEvent =>
      let eventNum := mh_eventNumOffset (pmb_header mb) + Z.of_nat i in
      makeRemoteTimelineEvent parsedEvent eventNum (Some (mh_miniblockNum (pmb_header mb))) (Some eventNum))
    (pmb_events mb).

(** [for (let i = prepended.length - 1; i >= 0; i--)]. *)
Definition prependAll (rs : list ref) (cleartexts : option (gmap string string))
    (encryptionEmitter stateEmitter : bool) : SM t unit :=
  js_for (rev rs) (fun r =>
    event ← deref r;
    processPrependedEvent r (cleartext_for cleartexts (te_hashStr event)) encryptionEmitter stateEmitter).

Definition prependEvents (miniblocks : list ParsedMiniblock) (cleartexts : option (gmap string string))
    (terminus : bool) (encryptionEmitter stateEmitter : bool) : SM t unit :=
  let prependedFull := flat_map miniblock_events miniblocks in
  self ← js_get;
  prepended ← alloc_all (List.filter (fun e => negb (is_defined (events self !! te_hashStr e))) prependedFull);
  js_modify (fun s => set_timeline (prepended ++ timeline s) s);;
  prependAll prepended cleartexts encryptionEmitter stateEmitter;;
  js_modify (fun s =>
    match miniblockInfo s with
    | Some info => if terminus
        then set_miniblockInfo (Some (mkMiniblockInfo (mbi_max info) (mbi_min info) true)) s
        else s
    | None => s
    end);;
  js_emit stateEmitter (streamUpdated (streamId self) (contentKind (content self))
    (mkStreamChange (Some prepended) None None None)).

(** ** Decryption results *)

Definition updateDecryptedContent (eventId : string) (content : DecryptedContent) (emitter : bool) : SM t unit :=
  js_zoom membersL (Members.onDecryptedContent eventId content emitter);;
  js_zoom anyContentL (content_onDecryptedContent eventId content emitter);;
  self ← js_get;
  match events self !! eventId with
  | None => js_return
  | Some r =>
      assign r (te_set_decryptedContent (Some content));;
      timelineEvent ← deref r;
      js_check (isDecryptedEvent timelineEvent) ("Event is not decrypted, programmer error " +:+ eventId);;
      js_emit emitter (streamUpdated (streamId self) (contentKind (StreamStateView.content self))
        (mkStreamChange None None (Some [r]) None));;
      js_emit emitter (eventDecrypted (streamId self) (contentKind (StreamStateView.content self)) r)
  end.

Definition updateDecryptedContentError (eventId : string) (content : DecryptionSessionError) (emitter : bool)
    : SM t unit :=
  self ← js_get;
  match events self !! eventId with
  | None => js_return
  | Some r =>
      timelineEvent ← deref r;
      js_when (negb (bool_decide (te_decryptedContentError timelineEvent = Some content)))
        (js_check (negb (is_defined (te_decryptedContent timelineEvent))) "Event is already decrypted";;
         assign r (te_set_decryptedContentError (Some content));;
         js_emit emitter (streamUpdated (streamId self) (contentKind (StreamStateView.content self))
           (mkStreamChange None None (Some [r]) None)))
  end.

(** ** Local events *)

(** [localId] is the value of [genLocalId()], [now] of [Date.now()]. *)
Definition appendLocalEvent (localId : string) (now : Z) (channelMessage : ChannelMessage)
    (status : LocalEventStatus) (emitter : bool) : SM t string :=
  self ← js_get;
  eventNum ← nextEventNum;
  let timelineEvent := mkStreamTimelineEvent localId (userId self) eventNum now
    (Some (mkLocalEvent localId channelMessage status)) None None None None None in
  r ← alloc timelineEvent;
  js_modify (fun s => set_events (<[localId := r]> (events s)) s);;
  js_modify (fun s => set_timeline (timeline s ++ [r]) s);;
  js_zoom anyContentL (content_onAppendLocalEvent timelineEvent emitter);;
  js_emit emitter (streamUpdated (streamId self) (contentKind (content self))
    (mkStreamChange None (Some [r]) None None));;
  mret localId.

Definition set_status (status : LocalEventStatus) (ev : StreamTimelineEvent) : StreamTimelineEvent :=
  te_set_localEvent
    (match te_localEvent ev with
     | Some le => Some (mkLocalEvent (le_localId le) (le_channelMessage le) status)
     | None => None
     end) ev.

Definition updateLocalEvent (localId parsedEventHash : string) (status : LocalEventStatus) (emitter : bool)
    : SM t unit :=
  self ← js_get;
  js_check (is_defined (events self !! localId)) ("Local event not found " +:+ localId);;
  match events self !! localId with
  | None => js_return
  | Some r =>
      timelineEvent ← deref r;
      js_check (isLocalEvent timelineEvent) ("Event is not local " +:+ localId);;
      let previousId := te_hashStr timelineEvent in
      assign r (te_set_hashStr parsedEventHash);;
      assign r (set_status status);;
      js_modify (fun s => set_events (<[parsedEventHash := r]> (events s)) s);;
      js_emit emitter (streamLocalEventUpdated (streamId self) (contentKind (content self)) previousId r)
  end.

(** ** Initialization *)

(** The loop over the local events that were passed in. *)
Definition initLocalEvent (emitter : bool) (localEvent : StreamTimelineEvent) : SM t unit :=
  eventNum ← nextEventNum;
  let localEvent := te_set_eventNum eventNum localEvent in
  r ← alloc localEvent;
  js_modify (fun s => set_events (<[te_hashStr localEvent := r]> (events s)) s);;
  js_modify (fun s => set_timeline (timeline s ++ [r]) s);;
  js_zoom anyContentL (content_onAppendLocalEvent localEvent emitter).

Definition initialize (nextSyncCookie : SyncCookie) (minipoolEvents : list ParsedEvent) (snapshot : Snapshot)
    (miniblocks prependedMiniblocks : list ParsedMiniblock) (prevSnapshotMiniblockNum : Z)
    (cleartexts : option (gmap string string)) (localEvents : list StreamTimelineEvent) (emitter : bool)
    : SM t unit :=
  self ← js_get;
  js_check_code (0 <? length miniblocks)%nat ("Stream has no miniblocks " +:+ streamId self) Err_STREAM_EMPTY;;
  match miniblocks with
  | [] => js_return
  | block0 :: rest =>
      applySnapshot (bin_toHexString (pmb_hash block0)) snapshot cleartexts emitter;;
      block0Events ← alloc_all (miniblock_events block0);
      restEvents ← alloc_all (flat_map miniblock_events rest);
      js_check_bare (0 <? length block0Events)%nat;;
      js_modify (fun s => set_timeline (timeline s ++ block0Events) s);;
      prependAll block0Events cleartexts emitter false;;
      js_modify (fun s => set_timeline (timeline s ++ restEvents) s);;
      js_for restEvents (fun r =>
        event ← deref r;
        processAppendedEvent r (cleartext_for cleartexts (te_hashStr event)) emitter false;;
        js_return);;
      let lastBlock := List.last miniblocks block0 in
      js_modify (set_lastEventNum (mh_eventNumOffset (pmb_header lastBlock)
        + Z.of_nat (length (pmb_events lastBlock))));;
      js_modify (set_prevMiniblockHash (Some (pmb_hash lastBlock)));;
      appendStreamAndCookie nextSyncCookie minipoolEvents cleartexts emitter false;;
      js_modify (set_prevSnapshotMiniblockNum prevSnapshotMiniblockNum);;
      match prependedMiniblocks with
      | [] => js_return
      | first :: _ =>
          prependEvents prependedMiniblocks cleartexts (mh_miniblockNum (pmb_header first) =? 0) emitter false
      end;;
      js_for localEvents (initLocalEvent emitter);;
      js_modify (set_isInitialized true);;
      js_emit emitter (streamInitialized (streamId self) (contentKind (content self)))
  end.

(** ** Queries *)

Definition getMembers (s : t) : Members.t := membershipContent s.
Definition getUserMetadata (s : t) : UserMetadata.t := Members.userMetadata (membershipContent s).
Definition getChannelMetadata (s : t) : option ChannelMetadata.t := content_getChannelMetadata (content s).

Definition getUsersEntitledToKeyExchange (s : t) : gset string :=
  match contentKind (content s) with
  | Types.channelContent | Types.spaceContent | Types.gdmChannelContent => Members.joinedParticipants (getMembers s)
  | Types.dmChannelContent => Members.participants (getMembers s)
  | _ => ∅
  end.

Definition userIsEntitledToKeyExchange (s : t) (userId : string) : bool :=
  bool_decide (userId ∈ getUsersEntitledToKeyExchange s).
End View.
