(* ===== verification/Timeline.v ===== *)
(** * The timeline of a stream view is consistent

    Theorems on [StreamStateView]: the timeline, the map of events by hash and the
    event objects stay consistent under every operation, events are never shown
    twice, and what each operation does to them. *)

From stdpp Require Import pretty.
From S2P Require Import Prelude Proto Externals ToyExternals Binary StreamId Types Migrations.
From S2P Require Import MembershipState Members ChannelMetadata Content Channel DMChannel GDMChannel.
From S2P Require Import Space User UserInbox UserSettings UserDeviceKeys Media UnknownContent.
From S2P Require Import StreamStateView.

(** ** Specification *)

(** What the consistency of the timeline depends on: the hashes of the event
    objects, the timeline and the map by hash. *)
Record skeleton := mkSkeleton {
  sk_hash : gmap ref string;
  sk_next : ref;
  sk_timeline : list ref;
  sk_events : gmap string ref;
}.

Definition skel (s : t) : skeleton :=
  mkSkeleton (te_hashStr <$> heap s) (next_ref s) (timeline s) (events s).

(** Consistency, with the events of [todo] in the timeline but not yet registered
    under their hash. *)
Record consistent (k : skeleton) (todo : list ref) : Prop := {
  con_heap : forall r h, sk_hash k !! r = Some h -> (r < sk_next k)%nat;
  con_NoDup : NoDup (sk_timeline k);
  con_timeline : forall r, r ∈ sk_timeline k ->
    exists h, sk_hash k !! r = Some h /\ (sk_events k !! h = Some r \/ r ∈ todo);
  con_events : forall h r, sk_events k !! h = Some r -> r ∈ sk_timeline k;
}.

Definition wf (s : t) : Prop := consistent (skel s) [].

(** ** The skeleton under the primitive updates *)

Lemma consistent_weaken k todo todo' :
  todo ⊆ todo' -> consistent k todo -> consistent k todo'.
Proof.
  intros Hsub [H1 H2 H3 H4]. split; try done.
  intros r Hr. destruct (H3 r Hr) as (h & Hh & [He|He]); exists h; auto.
Qed.

Lemma consistent_alloc k todo h :
  consistent k todo ->
  consistent (mkSkeleton (<[sk_next k := h]> (sk_hash k)) (S (sk_next k)) (sk_timeline k) (sk_events k)) todo
  /\ sk_next k ∉ sk_timeline k.
Proof.
  intros [H1 H2 H3 H4].
  assert (Hfresh : sk_next k ∉ sk_timeline k).
  { intros Hin. destruct (H3 _ Hin) as (h' & Hh & _). apply H1 in Hh. lia. }
  split; [|done]. split; simpl; try done.
  - intros r h'. rewrite lookup_insert_Some. intros [[<- _]|[_ Hr]]; [lia|]. apply H1 in Hr. lia.
  - intros r Hr. destruct (H3 r Hr) as (h' & Hh & He). exists h'.
    rewrite lookup_insert_ne by (by intros <-). done.
Qed.

(** Adding objects to the timeline leaves them to be registered. *)
Lemma consistent_push k todo rs tl :
  consistent k todo -> NoDup rs -> (forall r, r ∈ rs -> r ∉ sk_timeline k) ->
  (forall r, r ∈ rs -> is_Some (sk_hash k !! r)) ->
  tl ≡ₚ rs ++ sk_timeline k ->
  consistent (mkSkeleton (sk_hash k) (sk_next k) tl (sk_events k)) (rs ++ todo).
Proof.
  intros [H1 H2 H3 H4] Hnd Hnew Hdef Hp. split; simpl; try done.
  - rewrite Hp. apply NoDup_app. auto.
  - intros r. rewrite Hp, elem_of_app. intros [Hr|Hr].
    + destruct (Hdef r Hr) as [h Hh]. exists h. split; [done|]. right. set_solver.
    + destruct (H3 r Hr) as (h & Hh & [He|He]); exists h; split; set_solver.
  - intros h r He. rewrite Hp, elem_of_app. eauto.
Qed.

Lemma consistent_register k todo r h :
  consistent k (r :: todo) -> sk_hash k !! r = Some h -> r ∈ sk_timeline k -> sk_events k !! h = None ->
  consistent (mkSkeleton (sk_hash k) (sk_next k) (sk_timeline k) (<[h := r]> (sk_events k))) todo.
Proof.
  intros [H1 H2 H3 H4] Hr Hin Hnone. split; simpl; try done.
  - intros r' Hr'. destruct (H3 r' Hr') as (h' & Hh & He). exists h'. split; [done|].
    destruct (decide (r' = r)) as [->|Hne].
    + left. assert (h' = h) as -> by congruence. apply lookup_insert_eq.
    + destruct He as [He|He]; [left|right; set_solver].
      rewrite lookup_insert_ne; [done|congruence].
  - intros h' r'. rewrite lookup_insert_Some. intros [[_ <-]|[_ He]]; eauto.
Qed.

(** Giving an event a hash that no other event has and registering it under it. *)
Lemma consistent_rehash k r h :
  consistent k [] -> r ∈ sk_timeline k -> (forall r', sk_events k !! h = Some r' -> r' = r) ->
  consistent (mkSkeleton (<[r := h]> (sk_hash k)) (sk_next k) (sk_timeline k) (<[h := r]> (sk_events k))) [].
Proof.
  intros [H1 H2 H3 H4] Hin Hown. split; simpl; try done.
  - intros r' h'. rewrite lookup_insert_Some. intros [[<- _]|[_ Hr]]; [|eauto].
    destruct (H3 r Hin) as (h0 & Hh0 & _). eauto.
  - intros r' Hr'. destruct (decide (r = r')) as [<-|Hne].
    + exists h. rewrite !lookup_insert_eq. auto.
    + destruct (H3 r' Hr') as (h' & Hh & He). exists h'. rewrite lookup_insert_ne by done.
      split; [done|]. left. destruct He as [He|[]%elem_of_nil].
      rewrite lookup_insert_ne; [done|]. intros <-. apply Hne. symmetry. auto.
  - intros h' r'. rewrite lookup_insert_Some. intros [[_ <-]|[_ He]]; eauto.
Qed.

(** ** Laws of the content of any kind *)

Section Laws.
Context `{Externals}.

Lemma rewrap_streamId {C} `{Content C} (wrap : C -> AnyContent) (m : SM C unit) x c :
  (forall c, content_streamId (wrap c) = content_streamId c) ->
  preserves (fun c => content_streamId c = x) m ->
  content_streamId (wrap c) = x -> content_streamId (post (rewrap wrap (m c))) = x.
Proof.
  intros Hw Hm Hc. rewrite Hw in Hc. specialize (Hm c Hc). destruct (m c) as [r c' w].
  cbn [post rewrap] in *. by rewrite Hw.
Qed.

Lemma rewrap_framed {C} `{Content C} (wrap : C -> AnyContent) (m : CM C unit) x ev c e :
  (forall c, content_streamId (wrap c) = content_streamId c) ->
  preserves (framed x ev) m ->
  framed x ev (wrap c, e) -> framed x ev (post (rewrap2 wrap (m (c, e)))).
Proof.
  intros Hw Hm [Hc He]. cbn [fst snd] in Hc, He. rewrite Hw in Hc. specialize (Hm (c, e) (conj Hc He)).
  destruct (m (c, e)) as [r [c' e'] w]. destruct Hm as [Hm1 Hm2]. cbn [fst snd post rewrap2] in *.
  split; cbn [fst snd]; [by rewrite Hw|done].
Qed.

Lemma rewrap_total {C} (wrap : C -> AnyContent) (m : SM C unit) c :
  total m -> exists a, res (rewrap wrap (m c)) = Ok a.
Proof. intros Hm. destruct (Hm c) as [a Ha]. exists a. by destruct (m c). Qed.

(** Use a lemma on [rewrap] with the constructor that the goal is about. *)
Tactic Notation "rewrapped" uconstr(lem) :=
  first [apply (lem _ _ C_space) | apply (lem _ _ C_channel) | apply (lem _ _ C_dm)
        |apply (lem _ _ C_gdm) | apply (lem _ _ C_media) | apply (lem _ _ C_user)
        |apply (lem _ _ C_userSettings) | apply (lem _ _ C_userDeviceKey)
        |apply (lem _ _ C_userInbox)].

#[export] Instance any_content_laws : ContentLaws AnyContent.
Proof.
  split; intros.
  - intros [[] e]; rewrapped @rewrap_framed; done || apply law_prepend.
  - intros [[] e]; rewrapped @rewrap_framed; done || apply law_append.
  - intros []; rewrapped @rewrap_streamId; done || apply law_confirm.
  - intros []; rewrapped @rewrap_streamId; done || apply law_decrypted.
  - intros []; apply rewrap_total; apply law_confirm_total.
  - intros []; apply rewrap_total; apply law_local_total.
  - intros []; rewrapped @rewrap_streamId; done || apply law_local.
Qed.
End Laws.

(** ** Operations that leave the skeleton alone *)

(** The method changes neither the timeline, nor the map, nor a hash. *)
Definition keeps_skel {A} (m : SM t A) : Prop := forall k, preserves (fun s => skel s = k) m.

Section Frames.
Context `{Externals}.

Lemma keeps_modify f : (forall s, skel (f s) = skel s) -> keeps_skel (js_modify f).
Proof. intros Hf k s Hs. simpl. by rewrite Hf. Qed.

Lemma keeps_bind {A B} (m : SM t A) (f : A -> SM t B) :
  keeps_skel m -> (forall a, keeps_skel (f a)) -> keeps_skel (m ≫= f).
Proof. intros Hm Hf k. apply preserves_bind; [apply Hm|intros a; apply Hf]. Qed.

Lemma keeps_try {A} (m : SM t A) h :
  keeps_skel m -> (forall e, keeps_skel (h e)) -> keeps_skel (js_try m h).
Proof. intros Hm Hf k. apply preserves_try; [apply Hm|intros a; apply Hf]. Qed.

Lemma keeps_when b (m : SM t unit) : keeps_skel m -> keeps_skel (js_when b m).
Proof. intros Hm k. apply preserves_when. intros _. apply Hm. Qed.

Lemma keeps_get : keeps_skel js_get.
Proof. intros k. auto with js. Qed.
Lemma keeps_mret {A} (a : A) : keeps_skel (mret a).
Proof. intros k. auto with js. Qed.
Lemma keeps_return : keeps_skel js_return.
Proof. intros k. auto with js. Qed.
Lemma keeps_throw {A} e : keeps_skel (js_throw (A := A) e).
Proof. intros k. auto with js. Qed.
Lemma keeps_lift {A} (r : result A) : keeps_skel (js_lift r).
Proof. intros k. auto with js. Qed.
Lemma keeps_emit em e : keeps_skel (js_emit em e).
Proof. intros k. auto with js. Qed.
Lemma keeps_check b msg : keeps_skel (js_check b msg).
Proof. apply keeps_lift. Qed.
Lemma keeps_check_code b msg c : keeps_skel (js_check_code b msg c).
Proof. apply keeps_lift. Qed.

Lemma keeps_zoom {T A} (l : lens t T) (m : SM T A) :
  (forall v s, skel (update l v s) = skel s) -> keeps_skel (js_zoom l m).
Proof. intros Hl k s Hs. unfold js_zoom. destruct (m (view l s)). simpl. by rewrite Hl. Qed.

Lemma skel_alter f r s :
  (forall ev, te_hashStr (f ev) = te_hashStr ev) -> skel (set_heap (alter f r (heap s)) s) = skel s.
Proof.
  intros Hf. unfold skel. simpl. f_equal. apply map_eq. intros r'. rewrite !lookup_fmap.
  destruct (decide (r = r')) as [<-|Hne]; [|by rewrite lookup_alter_ne].
  rewrite lookup_alter_eq. destruct (heap s !! r); simpl; [by rewrite Hf|done].
Qed.

Lemma keeps_assign r f : (forall ev, te_hashStr (f ev) = te_hashStr ev) -> keeps_skel (assign r f).
Proof. intros Hf. apply keeps_modify. intros s. by apply skel_alter. Qed.

Lemma keeps_deref r : keeps_skel (deref r).
Proof.
  unfold deref. apply keeps_bind; [apply keeps_get|intros s]. case_match; [apply keeps_mret|apply keeps_throw].
Qed.

(** Content methods get the event object and only set its decrypted content. *)
Lemma keeps_content_with_event r m :
  (forall x ev, preserves (framed x ev) m) -> keeps_skel (content_with_event r m).
Proof.
  intros Hm k s Hs. unfold content_with_event, deref. js_unfold.
  destruct (heap s !! r) as [ev|] eqn:Hev; simpl; [|done].
  assert (Hf : framed (content_streamId (content s)) ev (content s, ev))
    by (split; [done|apply event_frame_refl]).
  specialize (Hm _ _ _ Hf). destruct (m (content s, ev)) as [x [c ev'] w]. destruct Hm as [_ [d Hd]].
  simpl in *. subst. unfold skel. simpl. f_equal. rewrite fmap_insert. apply map_eq. intros r'.
  destruct (decide (r = r')) as [<-|Hne]; [|by rewrite lookup_insert_ne].
  rewrite lookup_insert_eq, lookup_fmap, Hev. done.
Qed.
End Frames.

Create HintDb skel.
#[export] Hint Resolve keeps_bind keeps_try keeps_when keeps_get keeps_mret keeps_return keeps_throw
  keeps_lift keeps_emit keeps_check keeps_check_code keeps_deref : skel.
#[export] Hint Extern 1 (keeps_skel (js_modify _)) => apply keeps_modify; done : skel.
#[export] Hint Extern 1 (keeps_skel (assign _ _)) => apply keeps_assign; done : skel.
#[export] Hint Extern 1 (keeps_skel (js_zoom _ _)) => apply keeps_zoom; done : skel.

Section Payloads.
Context `{Externals}.

Lemma keeps_updateMiniblockInfo v a b : keeps_skel (updateMiniblockInfo v a b).
Proof. unfold updateMiniblockInfo. apply keeps_bind; [auto with skel|intros s]. case_match; auto with skel. Qed.

Lemma keeps_confirm_hashes header i hs em : keeps_skel (confirm_hashes header i hs em).
Proof.
  revert i. induction hs as [|h hs IH]; intros i; cbn [confirm_hashes]; [auto with skel|].
  apply keeps_bind; [auto with skel|intros s]. case_match; [|auto].
  do 4 (apply keeps_bind; [auto with skel|intros ?]).
  apply keeps_bind; [repeat case_match; auto with skel|intros _].
  auto with skel.
Qed.

Lemma keeps_appendHeader r hash header em : keeps_skel (appendHeader r hash header em).
Proof.
  unfold appendHeader. apply keeps_bind; [auto with skel|intros s].
  apply keeps_bind; [auto with skel|intros _].
  apply keeps_bind; [case_match; auto with skel|intros _].
  do 4 (apply keeps_bind; [auto using keeps_updateMiniblockInfo with skel|intros ?]).
  apply keeps_confirm_hashes.
Qed.

Lemma keeps_appendPayload r ct e1 e2 : keeps_skel (appendPayload r ct e1 e2).
Proof.
  unfold appendPayload. apply keeps_bind; [auto with skel|intros ev].
  assert (Hc : keeps_skel (content_with_event r (content_appendEvent ct e1 e2) ;; mret (@None (list ref)))).
  { apply keeps_bind; [|auto with skel]. apply keeps_content_with_event. intros. apply law_append. }
  repeat case_match; try exact Hc; auto using keeps_appendHeader with skel.
Qed.

Lemma keeps_prependPayload r ct e1 e2 : keeps_skel (prependPayload r ct e1 e2).
Proof.
  unfold prependPayload. apply keeps_bind; [auto with skel|intros ev].
  assert (Hc : keeps_skel (content_with_event r (content_prependEvent ct e1 e2))).
  { apply keeps_content_with_event. intros. apply law_prepend. }
  repeat case_match; try exact Hc; auto using keeps_updateMiniblockInfo with skel.
Qed.
End Payloads.

(** ** Registering an event *)

Definition register (r : ref) (h : string) (k : skeleton) : skeleton :=
  mkSkeleton (sk_hash k) (sk_next k) (sk_timeline k) (<[h := r]> (sk_events k)).

Definition push_back (rs : list ref) (k : skeleton) : skeleton :=
  mkSkeleton (sk_hash k) (sk_next k) (sk_timeline k ++ rs) (sk_events k).

Definition push_front (rs : list ref) (k : skeleton) : skeleton :=
  mkSkeleton (sk_hash k) (sk_next k) (rs ++ sk_timeline k) (sk_events k).

Definition alloc_skel (h : string) (k : skeleton) : skeleton :=
  mkSkeleton (<[sk_next k := h]> (sk_hash k)) (S (sk_next k)) (sk_timeline k) (sk_events k).

Section Process.
Context `{Externals}.

Lemma try_caught {E S A} (m : JS E S A) (a : A) s :
  exists b, res (js_try m (fun _ => mret a) s) = Ok b.
Proof. unfold js_try. destruct (m s) as [[b|e] s' w]; simpl; eauto. Qed.

(** The common shape of [processAppendedEvent] and [processPrependedEvent]. *)
Lemma process_spec {A} (payload : SM t A) (a : A) r s ev :
  keeps_skel payload -> heap s !! r = Some ev -> events s !! te_hashStr ev = None ->
  let o := (timelineEvent ← deref r;
            self ← js_get;
            js_check_bare (negb (is_defined (events self !! te_hashStr timelineEvent)));;
            js_modify (fun s => set_events (<[te_hashStr timelineEvent := r]> (events s)) s);;
            js_try payload (fun _ => mret a)) s in
  (exists b, res o = Ok b) /\ skel (post o) = register r (te_hashStr ev) (skel s).
Proof.
  intros Hk Hr He. cbv zeta. unfold deref, js_check_bare, check. js_unfold. rewrite Hr. simpl.
  rewrite He. simpl. set (s1 := set_events _ s).
  pose proof (try_caught payload a s1) as Ht.
  pose proof (keeps_try payload (fun _ => mret a) Hk (fun _ => keeps_mret a) (skel s1) s1 eq_refl) as Hs.
  unfold mret, JS_mret, js_ret in *. destruct (js_try _ _ s1) as [x s2 w]. simpl in *. by rewrite Hs.
Qed.

Lemma processAppended_spec r ct e1 e2 s ev :
  heap s !! r = Some ev -> events s !! te_hashStr ev = None ->
  let o := processAppendedEvent r ct e1 e2 s in
  (exists b, res o = Ok b) /\ skel (post o) = register r (te_hashStr ev) (skel s).
Proof. apply process_spec, keeps_appendPayload. Qed.

Lemma processPrepended_spec r ct e1 e2 s ev :
  heap s !! r = Some ev -> events s !! te_hashStr ev = None ->
  let o := processPrependedEvent r ct e1 e2 s in
  (exists b, res o = Ok b) /\ skel (post o) = register r (te_hashStr ev) (skel s).
Proof. apply (process_spec _ tt), keeps_prependPayload. Qed.

Lemma skel_hash_heap s r h :
  sk_hash (skel s) !! r = Some h -> exists ev, heap s !! r = Some ev /\ te_hashStr ev = h.
Proof. simpl. rewrite lookup_fmap. destruct (heap s !! r) as [ev|]; simpl; [intros [= <-]; eauto|done]. Qed.

(** Running an action of known skeleton before another one. *)
Lemma bind_skel {A B} (m : SM t A) (f : A -> SM t B) s a :
  res (m s) = Ok a ->
  res ((m ≫= f) s) = res (f a (post (m s))) /\ skel (post ((m ≫= f) s)) = skel (post (f a (post (m s)))).
Proof. intros Hr. by rewrite (emits_bind_total _ _ _ _ Hr). Qed.

Lemma alloc_spec ev s :
  res (alloc ev s) = Ok (next_ref s)
  /\ skel (post (alloc ev s)) = alloc_skel (te_hashStr ev) (skel s)
  /\ heap (post (alloc ev s)) !! next_ref s = Some ev.
Proof.
  unfold alloc. js_unfold. simpl. split_and!; [done| |apply lookup_insert_eq].
  unfold skel, alloc_skel. simpl. by rewrite fmap_insert.
Qed.

(** The new-event branch of [appendOne], as a change of the skeleton. *)
Definition append_skel (h : string) (k : skeleton) : skeleton :=
  let r := sk_next k in
  register r h (push_back [r] (alloc_skel h k)).

Lemma append_skel_consistent h k :
  consistent k [] -> sk_events k !! h = None -> consistent (append_skel h k) [].
Proof.
  intros Hc He. unfold append_skel. destruct (consistent_alloc k [] h Hc) as [Ha Hn].
  eapply (consistent_register _ _ (sk_next k) h).
  - apply (consistent_push _ [] [sk_next k]); [exact Ha|apply NoDup_singleton| | |].
    + by intros r ->%list_elem_of_singleton.
    + intros r ->%list_elem_of_singleton. simpl. rewrite lookup_insert_eq. eauto.
    + simpl. by rewrite Permutation_app_comm.
  - simpl. apply lookup_insert_eq.
  - simpl. set_solver.
  - done.
Qed.

Lemma appendOne_spec cts e1 e2 pe acc s :
  exists acc', res (appendOne cts e1 e2 pe acc s) = Ok acc'
  /\ match events s !! pe_hashStr pe with
     | Some r => skel (post (appendOne cts e1 e2 pe acc s)) = skel s
                 /\ appended acc' = appended acc /\ updated acc' = updated acc ++ [r]
     | None => skel (post (appendOne cts e1 e2 pe acc s)) = append_skel (pe_hashStr pe) (skel s)
               /\ appended acc' = appended acc ++ [next_ref s] /\ updated acc' = updated acc
     end.
Proof.
  unfold appendOne. destruct (events s !! pe_hashStr pe) as [r|] eqn:He.
  - js_unfold. rewrite He. simpl. eexists. split_and!; try done. by apply skel_alter.
  - rewrite (emits_bind_total js_get _ s s) by done. cbn [res post]. rewrite He.
    rewrite (emits_bind_total nextEventNum _ s (lastEventNum s)) by done. cbn [res post].
    set (s1 := post (nextEventNum s)). set (ev := makeRemoteTimelineEvent _ _ _ _).
    destruct (alloc_spec ev s1) as (Ha1 & Ha2 & Ha3).
    rewrite (emits_bind_total _ _ _ _ Ha1). cbn [res post].
    set (s2 := post (alloc ev s1)) in *.
    rewrite (emits_bind_total (js_modify _) _ s2 tt) by done. cbn [res post].
    set (s3 := post (js_modify _ s2)).
    assert (Hev : events s3 !! te_hashStr ev = None).
    { change (events s3) with (sk_events (skel s2)). rewrite Ha2. exact He. }
    destruct (processAppended_spec (next_ref s1) (cleartext_for cts (pe_hashStr pe)) e1 e2 s3 ev Ha3 Hev)
      as [[b Hb] Hs].
    rewrite (emits_bind_total _ _ _ _ Hb). cbn [res post].
    eexists. split; [reflexivity|]. split; [|done]. refine (eq_trans Hs _).
    change (skel s3) with (push_back [next_ref s1] (skel s2)). by rewrite Ha2.
Qed.
End Process.

(** ** Appending events *)

Definition append_hash (k : skeleton) (h : string) : skeleton :=
  match sk_events k !! h with
  | Some _ => k
  | None => append_skel h k
  end.

(** [k'] shows what [k] shows, and after it the events of [hs] that were new. *)
Record extends (k k' : skeleton) (hs : list string) : Prop := {
  ext_timeline : exists new, sk_timeline k' = sk_timeline k ++ new
    /\ forall r, r ∈ new -> exists h, sk_hash k' !! r = Some h /\ (h ∈ hs) /\ sk_events k !! h = None;
  ext_events : sk_events k ⊆ sk_events k';
  ext_hash : sk_hash k ⊆ sk_hash k';
  ext_found : forall h, h ∈ hs -> is_Some (sk_events k' !! h);
  ext_only : forall h, h ∉ hs -> sk_events k' !! h = sk_events k !! h;
}.

Section Append.
Context `{Externals}.

Lemma append_hash_consistent k h : consistent k [] -> consistent (append_hash k h) [].
Proof. intros Hk. unfold append_hash. case_match; [done|by apply append_skel_consistent]. Qed.

Lemma append_hash_extends k h : consistent k [] -> extends k (append_hash k h) [h].
Proof.
  intros Hk. unfold append_hash. destruct (sk_events k !! h) as [r|] eqn:He.
  - split; try done; [exists []; split; [by rewrite app_nil_r|by intros ? ?%elem_of_nil]|].
    by intros h' ->%list_elem_of_singleton.
  - unfold append_skel, register, push_back, alloc_skel. split; simpl.
    + exists [sk_next k]. split; [done|]. intros r ->%list_elem_of_singleton. exists h.
      rewrite lookup_insert_eq. split_and!; [done|by apply list_elem_of_singleton|done].
    + by apply insert_subseteq.
    + apply insert_subseteq. destruct (sk_hash k !! sk_next k) as [h'|] eqn:Hn; [|done].
      apply (con_heap _ _ Hk) in Hn. lia.
    + intros h' ->%list_elem_of_singleton. rewrite lookup_insert_eq. eauto.
    + intros h' Hh. rewrite lookup_insert_ne; [done|]. intros ->. by apply Hh, list_elem_of_singleton.
Qed.

Lemma extends_trans k1 k2 k3 hs1 hs2 :
  extends k1 k2 hs1 -> extends k2 k3 hs2 -> extends k1 k3 (hs1 ++ hs2).
Proof.
  intros [(n1 & Ht1 & Hn1) He1 Hh1 Hf1 Ho1] [(n2 & Ht2 & Hn2) He2 Hh2 Hf2 Ho2]. split.
  - exists (n1 ++ n2). split; [by rewrite Ht2, Ht1, app_assoc|].
    intros r [Hr|Hr]%elem_of_app.
    + destruct (Hn1 r Hr) as (h & Hh & Hin & Hnone). exists h.
      split_and!; [by eapply lookup_weaken|set_solver|done].
    + destruct (Hn2 r Hr) as (h & Hh & Hin & Hnone). exists h.
      split_and!; [done|set_solver|by eapply lookup_weaken_None].
  - by etrans.
  - by etrans.
  - intros h [Hh|Hh]%elem_of_app; [|auto]. destruct (Hf1 h Hh) as [r Hr].
    exists r. by eapply lookup_weaken.
  - intros h [Hh1' Hh2']%not_elem_of_app. by rewrite Ho2, Ho1.
Qed.

Lemma append_hashes hs k :
  consistent k [] ->
  consistent (fold_left append_hash hs k) [] /\ extends k (fold_left append_hash hs k) hs.
Proof.
  revert k. induction hs as [|h hs IH]; intros k Hk; simpl.
  - split; [done|]. split; try done; [exists []; split; [by rewrite app_nil_r|by intros ? ?%elem_of_nil]|].
    by intros ? ?%elem_of_nil.
  - destruct (IH _ (append_hash_consistent k h Hk)) as [H1 H2]. split; [done|].
    apply (extends_trans _ _ _ [h] hs (append_hash_extends k h Hk) H2).
Qed.

Lemma appendLoop_spec cts e1 e2 evs acc s :
  exists acc', res (appendLoop cts e1 e2 evs acc s) = Ok acc'
  /\ skel (post (appendLoop cts e1 e2 evs acc s)) = fold_left append_hash (map pe_hashStr evs) (skel s).
Proof.
  revert acc s. induction evs as [|pe evs IH]; intros acc s; [by eexists|].
  destruct (appendOne_spec cts e1 e2 pe acc s) as (acc1 & Hr & Hs).
  cbn [appendLoop]. rewrite (emits_bind_total _ _ _ _ Hr). cbn [res post].
  destruct (IH acc1 (post (appendOne cts e1 e2 pe acc s))) as (acc2 & Hr2 & Hs2).
  exists acc2. split; [done|]. rewrite Hs2. cbn [map fold_left]. f_equal. unfold append_hash.
  change (sk_events (skel s)) with (events s).
  destruct (events s !! pe_hashStr pe); by destruct Hs as [-> _].
Qed.

Lemma appendStreamAndCookie_spec cookie evs cts e1 e2 s :
  exists acc, res (appendStreamAndCookie cookie evs cts e1 e2 s) = Ok acc
  /\ skel (post (appendStreamAndCookie cookie evs cts e1 e2 s))
     = fold_left append_hash (map pe_hashStr evs) (skel s).
Proof.
  unfold appendStreamAndCookie.
  destruct (appendLoop_spec cts e1 e2 evs (mkAppendResult [] [] []) s) as (acc & Hr & Hs).
  exists acc. rewrite (emits_bind_total _ _ _ _ Hr). split; [done|]. exact Hs.
Qed.

Lemma appendEvents_spec evs cookie cts em s :
  res (appendEvents evs cookie cts em s) = Ok tt
  /\ skel (post (appendEvents evs cookie cts em s)) = fold_left append_hash (map pe_hashStr evs) (skel s).
Proof.
  unfold appendEvents. destruct (appendStreamAndCookie_spec cookie evs cts em em s) as (acc & Hr & Hs).
  rewrite (emits_bind_total _ _ _ _ Hr). split; [done|]. exact Hs.
Qed.
End Append.

(** ** Registering a list of events *)

Definition register_all (ps : list (ref * string)) (k : skeleton) : skeleton :=
  fold_left (fun k p => register p.1 p.2 k) ps k.

(** [f] registers the event it is called with. *)
Definition registers (f : ref -> SM t unit) : Prop :=
  forall r s ev, heap s !! r = Some ev -> events s !! te_hashStr ev = None ->
    res (f r s) = Ok tt /\ skel (post (f r s)) = register r (te_hashStr ev) (skel s).

(** The pairs are allocated events with distinct, unregistered hashes. *)
Definition registrable (k : skeleton) (ps : list (ref * string)) : Prop :=
  Forall (fun p => sk_hash k !! p.1 = Some p.2) ps /\ NoDup (map snd ps)
  /\ Forall (fun p => sk_events k !! p.2 = None) ps.

Section Registers.
Context `{Externals}.

Lemma registrable_cons k r h ps :
  registrable k ((r, h) :: ps) -> registrable (register r h k) ps.
Proof.
  intros (H1 & H2 & H3). apply Forall_cons in H1 as [_ H1], H3 as [_ H3].
  cbn [map] in H2. apply NoDup_cons in H2 as [Hh H2]. split_and!; [done|done|].
  rewrite Forall_forall in *. intros p Hp. simpl. rewrite lookup_insert_ne; [auto|].
  intros ->. apply Hh. cbn [snd]. by apply (list_elem_of_fmap_2 snd).
Qed.

Lemma registers_for f ps s :
  registers f -> registrable (skel s) ps ->
  res (js_for (map fst ps) f s) = Ok tt /\ skel (post (js_for (map fst ps) f s)) = register_all ps (skel s).
Proof.
  intros Hf. revert s. induction ps as [|[r h] ps IH]; intros s Hps; [done|].
  pose proof Hps as (H1 & _ & H3). apply Forall_cons in H1 as [Hr _], H3 as [He _].
  apply skel_hash_heap in Hr as (ev & Hr & Hev). cbn [snd] in Hev. subst h.
  destruct (Hf r s ev Hr He) as [Hres Hs]. cbn [map fst js_for].
  rewrite (emits_bind_total _ _ _ _ Hres). cbn [res post]. unfold register_all. cbn [fold_left fst snd].
  rewrite <- Hs. apply IH. rewrite Hs. by apply registrable_cons.
Qed.

Lemma register_all_consistent ps k todo :
  consistent k (map fst ps ++ todo) -> registrable k ps ->
  (forall p, p ∈ ps -> p.1 ∈ sk_timeline k) ->
  consistent (register_all ps k) todo.
Proof.
  revert k. induction ps as [|[r h] ps IH]; intros k Hc Hps Hin; [done|].
  pose proof Hps as (H1 & _ & H3). apply Forall_cons in H1 as [Hr _], H3 as [He _].
  unfold register_all. cbn [fold_left fst snd]. apply IH.
  - apply (consistent_register k (map fst ps ++ todo) r h); try done. apply (Hin (r, h)). left.
  - by apply registrable_cons.
  - intros p Hp. apply Hin. by right.
Qed.

Lemma register_all_hash ps k :
  sk_hash (register_all ps k) = sk_hash k /\ sk_timeline (register_all ps k) = sk_timeline k
  /\ sk_next (register_all ps k) = sk_next k.
Proof. revert k. induction ps as [|[r h] ps IH]; intros k; [done|]. apply (IH (register r h k)). Qed.

Lemma register_all_events ps k h :
  h ∉ map snd ps -> sk_events (register_all ps k) !! h = sk_events k !! h.
Proof.
  revert k. induction ps as [|[r h'] ps IH]; intros k Hh; [done|].
  cbn [map] in Hh. apply not_elem_of_cons in Hh as [Hne Hh].
  unfold register_all. cbn [fold_left fst snd]. fold (register_all ps (register r h' k)).
  rewrite IH by done. simpl. by rewrite lookup_insert_ne.
Qed.

Lemma alloc_all_spec evs s todo :
  consistent (skel s) todo ->
  exists rs, res (alloc_all evs s) = Ok rs
  /\ let k := skel (post (alloc_all evs s)) in
     consistent k todo /\ sk_timeline k = timeline s /\ sk_events k = events s
     /\ Forall2 (fun r ev => sk_hash k !! r = Some (te_hashStr ev)) rs evs
     /\ NoDup rs /\ (forall r, r ∈ rs -> (next_ref s <= r)%nat) /\ sk_hash (skel s) ⊆ sk_hash k.
Proof.
  revert s. induction evs as [|ev evs IH]; intros s Hc.
  { exists []. cbv zeta. split_and!; try done; [apply NoDup_nil_2|by intros ? ?%elem_of_nil]. }
  destruct (alloc_spec ev s) as (Hr & Hs & Hh).
  destruct (consistent_alloc (skel s) todo (te_hashStr ev) Hc) as [Hc1 _].
  set (s1 := post (alloc ev s)) in *. change (consistent (alloc_skel (te_hashStr ev) (skel s)) todo) in Hc1.
  rewrite <- Hs in Hc1.
  destruct (IH s1 Hc1) as (rs & Hrs & Hk). cbv zeta in *.
  destruct Hk as (K1 & K2 & K3 & K4 & K5 & K6 & K7).
  exists (next_ref s :: rs). cbn [alloc_all]. rewrite (emits_bind_total _ _ _ _ Hr).
  fold s1. rewrite (emits_bind_total _ _ _ _ Hrs). cbn [res post mret JS_mret js_ret].
  set (k := skel (post (alloc_all evs s1))) in *.
  assert (Hn : next_ref s1 = S (next_ref s)) by done.
  assert (Hsub : sk_hash (skel s) ⊆ sk_hash (skel s1)).
  { rewrite Hs. apply insert_subseteq, eq_None_not_Some. intros [h He].
    apply (con_heap _ _ Hc) in He. simpl in He. lia. }
  split_and!; try done.
  - constructor; [|exact K4]. eapply lookup_weaken; [|exact K7].
    rewrite Hs. apply lookup_insert_eq.
  - apply NoDup_cons. split; [|done]. intros Hin. apply K6 in Hin. lia.
  - intros r [->|Hr']%elem_of_cons; [lia|]. apply K6 in Hr'. lia.
  - exact (transitivity Hsub K7).
Qed.
End Registers.

(** ** Prepending, local events and decryption results *)

Section Prepend.
Context `{Externals}.

(** Put allocated events into the timeline and register them in any order. *)
Lemma push_and_register k todo rs hs tl ps :
  consistent k todo -> Forall2 (fun r h => sk_hash k !! r = Some h) rs hs -> NoDup rs ->
  (forall r, r ∈ rs -> r ∉ sk_timeline k) -> NoDup hs -> (forall h, h ∈ hs -> sk_events k !! h = None) ->
  tl ≡ₚ rs ++ sk_timeline k -> ps ≡ₚ zip rs hs ->
  let k1 := mkSkeleton (sk_hash k) (sk_next k) tl (sk_events k) in
  registrable k1 ps /\ consistent (register_all ps k1) todo.
Proof.
  intros Hc Hf Hnd Hfresh Hhs Hnone Htl Hps k1.
  assert (Hlen : length rs = length hs) by (by eapply Forall2_length).
  assert (Hfst : map fst ps ≡ₚ rs) by (rewrite Hps; by rewrite fst_zip by lia).
  assert (Hreg : registrable k1 ps).
  { split_and!.
    - rewrite Hps. apply Forall_forall. intros [r h] Hin. simpl.
      apply elem_of_lookup_zip_with in Hin as (i & r' & h' & Heq & Hr & Hh). simplify_eq.
      by eapply Forall2_lookup_lr in Hf.
    - rewrite Hps. by rewrite snd_zip by lia.
    - rewrite Hps. apply Forall_forall. intros [r h] Hin. simpl. apply Hnone.
      by eapply elem_of_zip_r. }
  split; [done|]. apply register_all_consistent; [|done|].
  - apply (consistent_weaken _ (rs ++ todo)); [by rewrite Hfst|].
    apply consistent_push; try done.
    intros r Hr. apply list_elem_of_lookup in Hr as [i Hi].
    destruct (Forall2_lookup_l _ _ _ _ _ Hf Hi) as (h & _ & Hh). eauto.
  - intros p Hp. simpl. rewrite Htl, <- Hfst. apply elem_of_app. left.
    by apply (list_elem_of_fmap_2 fst).
Qed.

Lemma deref_bind {B} r (f : StreamTimelineEvent -> SM t B) s ev :
  heap s !! r = Some ev -> (deref r ≫= f) s = f ev s.
Proof. intros Hr. unfold deref. js_unfold. rewrite Hr. by destruct (f ev s). Qed.

Lemma prepend_registers cts e1 e2 :
  registers (fun r => event ← deref r;
                      processPrependedEvent r (cleartext_for cts (te_hashStr event)) e1 e2).
Proof.
  intros r s ev Hr He. rewrite (deref_bind _ _ _ _ Hr).
  destruct (processPrepended_spec r (cleartext_for cts (te_hashStr ev)) e1 e2 s ev Hr He) as [[[] Hb] Hs].
  done.
Qed.

Lemma append_registers cts e1 e2 :
  registers (fun r => event ← deref r;
                      processAppendedEvent r (cleartext_for cts (te_hashStr event)) e1 e2;; js_return).
Proof.
  intros r s ev Hr He. rewrite (deref_bind _ _ _ _ Hr).
  destruct (processAppended_spec r (cleartext_for cts (te_hashStr ev)) e1 e2 s ev Hr He) as [[b Hb] Hs].
  rewrite (emits_bind_total _ _ _ _ Hb). done.
Qed.

Lemma prependAll_spec rs hs cts e1 e2 s ps :
  Forall2 (fun r h => sk_hash (skel s) !! r = Some h) rs hs -> ps = rev (zip rs hs) ->
  registrable (skel s) ps ->
  res (prependAll rs cts e1 e2 s) = Ok tt /\ skel (post (prependAll rs cts e1 e2 s)) = register_all ps (skel s).
Proof.
  intros Hf -> Hreg. unfold prependAll.
  assert (Hrev : rev rs = map fst (rev (zip rs hs))).
  { rewrite map_rev. f_equal. symmetry. apply fst_zip. by erewrite Forall2_length by done. }
  rewrite Hrev. apply registers_for; [apply prepend_registers|done].
Qed.

(** The events of [miniblocks] that the view does not have yet. *)
Definition new_events (miniblocks : list ParsedMiniblock) (s : t) : list StreamTimelineEvent :=
  List.filter (fun e => negb (is_defined (events s !! te_hashStr e))) (flat_map miniblock_events miniblocks).

Lemma prependEvents_spec mbs cts terminus e1 e2 s :
  wf s -> NoDup (map te_hashStr (new_events mbs s)) ->
  let o := prependEvents mbs cts terminus e1 e2 s in
  res o = Ok tt /\ wf (post o)
  /\ exists rs, timeline (post o) = rs ++ timeline s
     /\ Forall2 (fun r ev => sk_hash (skel (post o)) !! r = Some (te_hashStr ev)) rs (new_events mbs s)
     /\ forall h, h ∉ map te_hashStr (new_events mbs s) -> events (post o) !! h = events s !! h.
Proof.
  intros Hwf Hnd. cbv zeta. unfold prependEvents.
  rewrite (emits_bind_total js_get _ s s) by done. cbn [res post].
  fold (new_events mbs s).
  destruct (alloc_all_spec (new_events mbs s) s [] Hwf) as (rs & Hr & Hk). cbv zeta in Hk.
  rewrite (emits_bind_total _ _ _ _ Hr). cbn [res post]. set (s1 := post (alloc_all _ s)) in *.
  destruct Hk as (K1 & K2 & K3 & K4 & K5 & K6 & _).
  rewrite (emits_bind_total (js_modify _) _ s1 tt) by done. cbn [res post].
  set (s2 := post (js_modify _ s1)).
  set (hs := map te_hashStr (new_events mbs s)) in *.
  assert (Hf : Forall2 (fun r h => sk_hash (skel s1) !! r = Some h) rs hs)
    by (unfold hs; by apply Forall2_fmap_r).
  assert (Hnone : forall h, h ∈ hs -> sk_events (skel s1) !! h = None).
  { intros h Hh. rewrite K3. unfold hs in Hh. apply list_elem_of_fmap in Hh as (ev & -> & Hin).
    unfold new_events in Hin. rewrite list_elem_of_In, filter_In in Hin. destruct Hin as [_ Hin].
    by destruct (events s !! te_hashStr ev). }
  assert (Hfresh : forall r, r ∈ rs -> r ∉ sk_timeline (skel s1)).
  { intros r Hin. rewrite K2. intros Htl. apply K6 in Hin.
    destruct (con_timeline _ _ Hwf r Htl) as (h & Hh & _). apply (con_heap _ _ Hwf) in Hh. simpl in Hh. lia. }
  destruct (push_and_register (skel s1) [] rs hs (rs ++ timeline s1) (rev (zip rs hs)))
    as [Hreg Hcon]; try done; [by rewrite <- Permutation_rev|].
  destruct (prependAll_spec rs hs cts e1 e2 s2 (rev (zip rs hs))) as [Hp1 Hp2]; try done.
  rewrite (emits_bind_total _ _ _ _ Hp1). cbn [res post]. set (s3 := post (prependAll _ _ _ _ s2)) in *.
  rewrite (emits_bind_total (js_modify _) _ s3 tt) by done. cbn [res post].
  set (s4 := post (js_modify _ s3)).
  assert (H4 : skel s4 = register_all (rev (zip rs hs)) (skel s2)).
  { rewrite <- Hp2. unfold s4. simpl. destruct (miniblockInfo s3), terminus; done. }
  change (skel (post (js_emit e2 _ s4))) with (skel s4).
  split_and!; [done|unfold wf; change (consistent (skel s4) []); by rewrite H4|].
  destruct (register_all_hash (rev (zip rs hs)) (skel s2)) as (R1 & R2 & R3).
  exists rs. split_and!.
  - change (sk_timeline (skel s4) = rs ++ timeline s). rewrite H4, R2. simpl.
    change (timeline s1) with (sk_timeline (skel s1)). by rewrite K2.
  - change (Forall2 (fun r ev => sk_hash (skel s4) !! r = Some (te_hashStr ev)) rs (new_events mbs s)).
    rewrite H4, R1. exact K4.
  - intros h Hh. change (sk_events (skel s4) !! h = events s !! h).
    rewrite H4, register_all_events; [simpl; change (events s1) with (sk_events (skel s1)); by rewrite K3|].
    rewrite map_rev. intros Hin. apply Hh. rewrite <- Permutation_rev in Hin.
    rewrite snd_zip in Hin; [done|]. by rewrite (Forall2_length _ _ _ Hf).
Qed.
End Prepend.

Section Local.
Context `{Externals}.

Lemma appendLocalEvent_spec localId now msg status em s :
  res (appendLocalEvent localId now msg status em s) = Ok localId
  /\ skel (post (appendLocalEvent localId now msg status em s)) = append_skel localId (skel s).
Proof.
  unfold appendLocalEvent. rewrite (emits_bind_total js_get _ s s) by done. cbn [res post].
  rewrite (emits_bind_total nextEventNum _ s (lastEventNum s)) by done. cbn [res post].
  set (s1 := post (nextEventNum s)). set (ev := mkStreamTimelineEvent _ _ _ _ _ _ _ _ _ _).
  destruct (alloc_spec ev s1) as (Ha1 & Ha2 & _). rewrite (emits_bind_total _ _ _ _ Ha1). cbn [res post].
  set (s2 := post (alloc ev s1)) in *.
  rewrite (emits_bind_total (js_modify _) _ s2 tt) by done. cbn [res post].
  set (s3 := post (js_modify _ s2)).
  rewrite (emits_bind_total (js_modify _) _ s3 tt) by done. cbn [res post].
  set (s4 := post (js_modify _ s3)).
  assert (Hz : res (js_zoom anyContentL (content_onAppendLocalEvent ev em) s4) = Ok tt).
  { unfold js_zoom. destruct (law_local_total ev em (view anyContentL s4)) as [[] Ht].
    by destruct (content_onAppendLocalEvent ev em (view anyContentL s4)). }
  rewrite (emits_bind_total _ _ _ _ Hz). split; [done|].
  assert (Hk : keeps_skel (js_zoom anyContentL (content_onAppendLocalEvent ev em))) by auto with skel.
  refine (eq_trans (Hk (skel s4) s4 eq_refl) _).
  change (skel s4) with (register (next_ref s1) localId (push_back [next_ref s1] (skel s2))).
  by rewrite Ha2.
Qed.

Definition rehash (r : ref) (h : string) (k : skeleton) : skeleton :=
  mkSkeleton (<[r := h]> (sk_hash k)) (sk_next k) (sk_timeline k) (<[h := r]> (sk_events k)).

Lemma updateLocalEvent_spec localId h status em s :
  let o := updateLocalEvent localId h status em s in
  match events s !! localId with
  | None => res o = Throw (CodeException ("Local event not found " +:+ localId) Err_ERR_UNSPECIFIED) /\ post o = s
  | Some r =>
      forall ev, heap s !! r = Some ev ->
      match te_localEvent ev with
      | None => res o = Throw (CodeException ("Event is not local " +:+ localId) Err_ERR_UNSPECIFIED) /\ post o = s
      | Some le =>
          res o = Ok tt /\ skel (post o) = rehash r h (skel s)
          /\ heap (post o) !! r = Some (te_set_localEvent (Some (mkLocalEvent (le_localId le)
               (le_channelMessage le) status)) (te_set_hashStr h ev))
      end
  end.
Proof.
  cbv zeta. unfold updateLocalEvent, js_check, assign. js_unfold.
  destruct (events s !! localId) as [r|] eqn:He; cbn -[alter insert lookup]; [|done].
  intros ev Hr. unfold deref. js_unfold. rewrite Hr. cbn -[alter insert lookup].
  unfold isLocalEvent. destruct (te_localEvent ev) as [le|] eqn:Hl; cbn -[alter insert lookup]; [|done].
  rewrite !lookup_alter_eq, Hr. cbn -[alter insert lookup]. unfold set_status. cbn. rewrite Hl.
  split_and!; [done| |done]. unfold skel, rehash. simpl. f_equal.
  apply map_eq. intros r'. rewrite !lookup_fmap, lookup_insert, lookup_fmap.
  destruct (decide (r = r')) as [<-|Hne].
  - rewrite !lookup_alter_eq, Hr. done.
  - by rewrite !lookup_alter_ne.
Qed.

Lemma keeps_updateDecryptedContent e c em : keeps_skel (updateDecryptedContent e c em).
Proof.
  unfold updateDecryptedContent. do 3 (apply keeps_bind; [auto with skel|intros ?]).
  case_match; auto 8 with skel.
Qed.

Lemma keeps_updateDecryptedContentError e c em : keeps_skel (updateDecryptedContentError e c em).
Proof.
  unfold updateDecryptedContentError. apply keeps_bind; [auto with skel|intros ?].
  case_match; auto 10 with skel.
Qed.
End Local.
