(* ===== verification/StreamView.v ===== *)
(** * Correctness of the stream view

    The promises of [StreamStateView] to its clients, proved from the consistency
    lemmas of [Timeline]. *)

From stdpp Require Import pretty.
From S2P Require Import Prelude Proto Externals ToyExternals Binary StreamId Types Migrations.
From S2P Require Import MembershipState Members ChannelMetadata Content Channel DMChannel GDMChannel.
From S2P Require Import Space User UserInbox UserSettings UserDeviceKeys Media UnknownContent.
From S2P Require Import StreamStateView Timeline.

(** ** Runs of a view *)

Section Runs.
Context `{Externals}.

(** One call from the client, under the conditions on its arguments that the code does
    not check: the events of a scrollback answer that the view does not have are
    distinct, local ids are new, and a local event is given a hash the view does not
    have or one it has already. Each is needed: see [repeated_answer_shown_twice] and [reused_ids_shown_twice]. *)
Inductive view_step : t -> t -> Prop :=
| step_append s events cookie cleartexts em :
    view_step s (post (appendEvents events cookie cleartexts em s))
| step_prepend s miniblocks cleartexts terminus em1 em2 :
    NoDup (map te_hashStr (new_events miniblocks s)) ->
    view_step s (post (prependEvents miniblocks cleartexts terminus em1 em2 s))
| step_local s localId now msg status em :
    events s !! localId = None ->
    view_step s (post (appendLocalEvent localId now msg status em s))
| step_local_update s localId h status em :
    (forall r, events s !! h = Some r -> events s !! localId = Some r) ->
    view_step s (post (updateLocalEvent localId h status em s))
| step_decrypted s eventId content em :
    view_step s (post (updateDecryptedContent eventId content em s))
| step_decrypt_error s eventId content em :
    view_step s (post (updateDecryptedContentError eventId content em s)).

(** ** Lemmas *)

Lemma wf_skel s s' : skel s' = skel s -> wf s -> wf s'.
Proof. unfold wf. by intros ->. Qed.

Lemma view_wf_new userId streamId s : new userId streamId = Ok s -> wf s.
Proof.
  unfold new. destruct (newContent streamId) as [c|e]; [|done]. intros [= <-].
  split; simpl.
  - intros r h. by rewrite fmap_empty, lookup_empty.
  - apply NoDup_nil_2.
  - by intros r ?%elem_of_nil.
  - intros h r. by rewrite lookup_empty.
Qed.

Lemma wf_append evs cookie cts em s : wf s -> wf (post (appendEvents evs cookie cts em s)).
Proof.
  intros Hwf. destruct (appendEvents_spec evs cookie cts em s) as [_ Hs].
  unfold wf. rewrite Hs. by apply append_hashes.
Qed.

Lemma wf_local_update localId h status em s :
  wf s -> (forall r, events s !! h = Some r -> events s !! localId = Some r) ->
  wf (post (updateLocalEvent localId h status em s)).
Proof.
  intros Hwf Hown. pose proof (updateLocalEvent_spec localId h status em s) as Hu. cbv zeta in Hu.
  destruct (events s !! localId) as [r|] eqn:He; [|by destruct Hu as [_ ->]].
  pose proof (con_events _ _ Hwf _ _ He) as Hin.
  destruct (con_timeline _ _ Hwf r Hin) as (h0 & Hh0 & _).
  apply skel_hash_heap in Hh0 as (ev & Hev & _). specialize (Hu ev Hev).
  destruct (te_localEvent ev); [|by destruct Hu as [_ ->]].
  destruct Hu as (_ & Hs & _). unfold wf. rewrite Hs. apply consistent_rehash; try done.
  intros r' Hr'. apply Hown in Hr'. congruence.
Qed.

Lemma view_step_wf s s' : view_step s s' -> wf s -> wf s'.
Proof.
  destruct 1; intros Hwf.
  - by apply wf_append.
  - by apply prependEvents_spec.
  - destruct (appendLocalEvent_spec localId now msg status em s) as [_ Hs].
    unfold wf. rewrite Hs. by apply append_skel_consistent.
  - by apply wf_local_update.
  - apply (wf_skel s); [|done]. by apply keeps_updateDecryptedContent.
  - apply (wf_skel s); [|done]. by apply keeps_updateDecryptedContentError.
Qed.

Lemma steps_wf s s' : rtc view_step s s' -> wf s -> wf s'.
Proof. induction 1; eauto using view_step_wf. Qed.

Lemma wf_unique_hash s r1 r2 ev1 ev2 :
  wf s -> r1 ∈ timeline s -> r2 ∈ timeline s -> heap s !! r1 = Some ev1 -> heap s !! r2 = Some ev2 ->
  te_hashStr ev1 = te_hashStr ev2 -> r1 = r2.
Proof.
  intros Hwf H1 H2 E1 E2 Heq.
  destruct (con_timeline _ _ Hwf r1 H1) as (h1 & Hh1 & [Hr1|[]%elem_of_nil]).
  destruct (con_timeline _ _ Hwf r2 H2) as (h2 & Hh2 & [Hr2|[]%elem_of_nil]).
  simpl in *. rewrite lookup_fmap, E1 in Hh1. rewrite lookup_fmap, E2 in Hh2. simpl in *. congruence.
Qed.

(** ** Initialization *)

Lemma keeps_on_content {C A} (get : t -> result C) wrap (m : SM C A) : keeps_skel (on_content get wrap m).
Proof.
  unfold on_content. apply keeps_bind; [auto with skel|intros s].
  apply keeps_bind; [auto with skel|intros c]. auto with skel.
Qed.

Lemma keeps_applySnapshot hash snap cts em : keeps_skel (applySnapshot hash snap cts em).
Proof.
  unfold applySnapshot. do 3 (apply keeps_bind; [auto with skel|intros ?]).
  apply keeps_bind; [repeat case_match; auto using keeps_on_content with skel|auto with skel].
Qed.

Lemma bind_post {A B} (P : t -> Prop) (m : SM t A) (f : A -> SM t B) s :
  (forall a, res (m s) = Ok a -> P (post (f a (post (m s))))) ->
  (forall e, res (m s) = Throw e -> P (post (m s))) -> P (post ((m ≫= f) s)).
Proof.
  intros Hok Hth. destruct (m s) as [[a|e] s1 w1] eqn:Hm; simpl in *.
  - erewrite bind_Ok by done. simpl. by apply Hok.
  - erewrite bind_Throw by done. simpl. by eapply Hth.
Qed.

Lemma initLocalEvent_spec em ev s :
  res (initLocalEvent em ev s) = Ok tt
  /\ skel (post (initLocalEvent em ev s)) = append_skel (te_hashStr ev) (skel s).
Proof.
  unfold initLocalEvent. rewrite (emits_bind_total nextEventNum _ s (lastEventNum s)) by done. cbn [res post].
  set (s1 := post (nextEventNum s)). set (ev1 := te_set_eventNum _ ev).
  destruct (alloc_spec ev1 s1) as (Ha1 & Ha2 & _). rewrite (emits_bind_total _ _ _ _ Ha1). cbn [res post].
  set (s2 := post (alloc ev1 s1)) in *.
  rewrite (emits_bind_total (js_modify _) _ s2 tt) by done. cbn [res post].
  set (s3 := post (js_modify _ s2)).
  rewrite (emits_bind_total (js_modify _) _ s3 tt) by done. cbn [res post].
  set (s4 := post (js_modify _ s3)). split.
  - unfold js_zoom. destruct (law_local_total ev1 em (view anyContentL s4)) as [[] Ht].
    by destruct (content_onAppendLocalEvent ev1 em (view anyContentL s4)).
  - assert (Hk : keeps_skel (js_zoom anyContentL (content_onAppendLocalEvent ev1 em))) by auto with skel.
    rewrite (Hk (skel s4) s4 eq_refl).
    change (skel s4) with (register (next_ref s1) (te_hashStr ev) (push_back [next_ref s1] (skel s2))).
    by rewrite Ha2.
Qed.

Lemma initLocalEvents_spec em evs s :
  wf s -> NoDup (map te_hashStr evs) -> (forall ev, ev ∈ evs -> events s !! te_hashStr ev = None) ->
  res (js_for evs (initLocalEvent em) s) = Ok tt /\ wf (post (js_for evs (initLocalEvent em) s)).
Proof.
  revert s. induction evs as [|ev evs IH]; intros s Hwf Hnd Hnone; [done|].
  cbn [map] in Hnd. apply NoDup_cons in Hnd as [Hev Hnd].
  destruct (initLocalEvent_spec em ev s) as [Hr Hs]. cbn [js_for].
  rewrite (emits_bind_total _ _ _ _ Hr). cbn [res post]. apply IH; try done.
  - unfold wf. rewrite Hs. apply append_skel_consistent; [done|]. apply Hnone. left.
  - intros ev' Hin. change (sk_events (skel (post (initLocalEvent em ev s))) !! te_hashStr ev' = None).
    rewrite Hs. simpl. rewrite lookup_insert_ne; [apply Hnone; by right|].
    intros Heq. apply Hev. rewrite Heq. by apply (list_elem_of_fmap_2 te_hashStr).
Qed.

(** What the node and the local store give a view to start from: no event twice
    within the blocks or the scrollback, local events with ids of their own. *)
Record init_input (minipoolEvents : list ParsedEvent) (miniblocks prepended : list ParsedMiniblock)
    (localEvents : list StreamTimelineEvent) : Prop := {
  init_blocks : NoDup (map te_hashStr (flat_map miniblock_events miniblocks));
  init_prepended : NoDup (map te_hashStr (flat_map miniblock_events prepended));
  init_locals : NoDup (map te_hashStr localEvents);
  init_local_ids : forall ev, ev ∈ localEvents ->
    (te_hashStr ev ∉ map te_hashStr (flat_map miniblock_events (miniblocks ++ prepended)))
    /\ (te_hashStr ev ∉ map pe_hashStr minipoolEvents);
}.

(** The calls [pre] complete and lead from [s] to [s'], where [k] goes on. *)
Definition leads_to (pre : SM t unit -> SM t unit) (s s' : t) : Prop :=
  forall k, res (pre k s) = res (k s') /\ post (pre k s) = post (k s').

(** Allocated events are put behind the timeline and registered by [loop]. *)
Lemma push_back_registered rs evs s (loop : SM t unit) ps :
  wf s -> Forall2 (fun r ev => sk_hash (skel s) !! r = Some (te_hashStr ev)) rs evs -> NoDup rs ->
  (forall r, r ∈ rs -> r ∉ timeline s) -> NoDup (map te_hashStr evs) ->
  (forall ev, ev ∈ evs -> events s !! te_hashStr ev = None) ->
  ps ≡ₚ zip rs (map te_hashStr evs) ->
  (forall s', skel s' = push_back rs (skel s) -> registrable (skel s') ps ->
     res (loop s') = Ok tt /\ skel (post (loop s')) = register_all ps (skel s')) ->
  exists s', leads_to (fun k => js_modify (fun s => set_timeline (timeline s ++ rs) s);; loop;; k) s s'
  /\ wf s' /\ timeline s' = timeline s ++ rs /\ sk_hash (skel s') = sk_hash (skel s)
  /\ forall h, h ∉ map te_hashStr evs -> events s' !! h = events s !! h.
Proof.
  intros Hwf Hf Hnd Hfresh Hhs Hnone Hps Hloop.
  set (s1 := set_timeline (timeline s ++ rs) s).
  destruct (push_and_register (skel s) [] rs (map te_hashStr evs) (timeline s ++ rs) ps)
    as [Hreg Hcon]; try done.
  { by apply Forall2_fmap_r. }
  { intros h Hh. apply list_elem_of_fmap in Hh as (ev & -> & Hin). by apply Hnone. }
  { by rewrite Permutation_app_comm. }
  destruct (Hloop s1 eq_refl Hreg) as [Hr Hs].
  destruct (register_all_hash ps (skel s1)) as (R1 & R2 & R3).
  exists (post (loop s1)). split_and!; [|unfold wf; by rewrite Hs| | |].
  - intros k. rewrite (emits_bind_total (js_modify _) _ s tt) by done. cbn [res post].
    change (post (js_modify _ s)) with s1. by rewrite (emits_bind_total _ _ _ _ Hr).
  - change (sk_timeline (skel (post (loop s1))) = timeline s ++ rs). by rewrite Hs, R2.
  - by rewrite Hs, R1.
  - intros h Hh. change (sk_events (skel (post (loop s1))) !! h = events s !! h).
    rewrite Hs. apply register_all_events. rewrite Hps.
    rewrite snd_zip; [done|]. by rewrite length_map, (Forall2_length _ _ _ Hf).
Qed.

Lemma prependAll_registers rs evs cts e1 e2 s :
  Forall2 (fun r ev => sk_hash (skel s) !! r = Some (te_hashStr ev)) rs evs ->
  let ps := rev (zip rs (map te_hashStr evs)) in
  registrable (skel s) ps ->
  res (prependAll rs cts e1 e2 s) = Ok tt
  /\ skel (post (prependAll rs cts e1 e2 s)) = register_all ps (skel s).
Proof.
  intros Hf ps Hreg. apply (prependAll_spec rs (map te_hashStr evs)); [|done|done].
  by apply Forall2_fmap_r.
Qed.

Lemma appendFor_registers rs evs cts e1 e2 s :
  Forall2 (fun r ev => sk_hash (skel s) !! r = Some (te_hashStr ev)) rs evs ->
  let ps := zip rs (map te_hashStr evs) in
  let loop := js_for rs (fun r => event ← deref r;
    processAppendedEvent r (cleartext_for cts (te_hashStr event)) e1 e2;; js_return) in
  registrable (skel s) ps ->
  res (loop s) = Ok tt /\ skel (post (loop s)) = register_all ps (skel s).
Proof.
  intros Hf ps loop Hreg. unfold loop.
  replace rs with (map fst ps) by (apply fst_zip; rewrite length_map; by rewrite (Forall2_length _ _ _ Hf)).
  apply registers_for; [apply append_registers|done].
Qed.

Lemma flat_map_app_hashes mbs1 mbs2 :
  map te_hashStr (flat_map miniblock_events (mbs1 ++ mbs2))
  = map te_hashStr (flat_map miniblock_events mbs1) ++ map te_hashStr (flat_map miniblock_events mbs2).
Proof. by rewrite flat_map_app, map_app. Qed.

(** The part of [initialize] that fills the timeline from the miniblocks. *)
Definition initBlocks (block0 : ParsedMiniblock) (rest : list ParsedMiniblock)
    (cleartexts : option (gmap string string)) (emitter : bool) (k : SM t unit) : SM t unit :=
  block0Events ← alloc_all (miniblock_events block0);
  restEvents ← alloc_all (flat_map miniblock_events rest);
  js_check_bare (0 <? length block0Events)%nat;;
  js_modify (fun s => set_timeline (timeline s ++ block0Events) s);;
  prependAll block0Events cleartexts emitter false;;
  js_modify (fun s => set_timeline (timeline s ++ restEvents) s);;
  js_for restEvents (fun r =>
    event ← deref r;
    processAppendedEvent r (cleartext_for cleartexts (te_hashStr event)) emitter false;;
    js_return);;
  k.

(** Two lists of events are allocated one after the other. *)
Lemma alloc_two evs0 evs1 s :
  wf s ->
  exists rs0 rs1 s',
    (forall f : list ref -> list ref -> SM t unit,
       let m := rs0 ← alloc_all evs0; rs1 ← alloc_all evs1; f rs0 rs1 in
       res (m s) = res (f rs0 rs1 s') /\ post (m s) = post (f rs0 rs1 s'))
    /\ wf s' /\ timeline s' = timeline s /\ events s' = events s
    /\ Forall2 (fun r ev => sk_hash (skel s') !! r = Some (te_hashStr ev)) rs0 evs0
    /\ Forall2 (fun r ev => sk_hash (skel s') !! r = Some (te_hashStr ev)) rs1 evs1
    /\ NoDup (rs0 ++ rs1) /\ (forall r, r ∈ rs0 ++ rs1 -> r ∉ timeline s).
Proof.
  intros Hwf.
  destruct (alloc_all_spec evs0 s [] Hwf) as (rs0 & Hr0 & A1 & A2 & A3 & A4 & A5 & A6 & A7).
  set (s1 := post (alloc_all evs0 s)) in *.
  destruct (alloc_all_spec evs1 s1 [] A1) as (rs1 & Hr1 & B1 & B2 & B3 & B4 & B5 & B6 & B7).
  set (s2 := post (alloc_all evs1 s1)) in *.
  assert (Hlt0 : forall r, r ∈ rs0 -> (r < next_ref s1)%nat).
  { intros r Hr. apply list_elem_of_lookup in Hr as [i Hi].
    destruct (Forall2_lookup_l _ _ _ _ _ A4 Hi) as (ev & _ & Hh). by apply (con_heap _ _ A1) in Hh. }
  assert (Htl : forall r, r ∈ timeline s -> (r < next_ref s)%nat).
  { intros r Hr. destruct (con_timeline _ _ Hwf r Hr) as (h & Hh & _). by apply (con_heap _ _ Hwf) in Hh. }
  assert (Htl1 : forall r, r ∈ timeline s -> (r < next_ref s1)%nat).
  { intros r Hr. rewrite <- A2 in Hr. destruct (con_timeline _ _ A1 r Hr) as (h & Hh & _).
    by apply (con_heap _ _ A1) in Hh. }
  exists rs0, rs1, s2. split_and!; try done.
  - intros f. cbv zeta. rewrite (emits_bind_total _ _ _ _ Hr0). cbn [res post].
    fold s1. by rewrite (emits_bind_total _ _ _ _ Hr1).
  - exact (eq_trans B2 A2).
  - exact (eq_trans B3 A3).
  - eapply Forall2_impl; [exact A4|]. intros r ev Hr. exact (lookup_weaken _ _ _ _ Hr B7).
  - apply NoDup_app. split_and!; [done| |done]. intros r Hr0' Hr1'. apply Hlt0 in Hr0'. apply B6 in Hr1'. lia.
  - intros r [Hr|Hr]%elem_of_app Hin; [apply A6 in Hr; apply Htl in Hin|apply B6 in Hr; apply Htl1 in Hin]; lia.
Qed.

Lemma length_miniblock_events mbs :
  length (flat_map miniblock_events mbs) = length (flat_map pmb_events mbs).
Proof.
  induction mbs as [|mb mbs IH]; [done|]. cbn [flat_map]. rewrite !length_app, IH.
  unfold miniblock_events. by rewrite length_imap.
Qed.

Lemma initBlocks_spec block0 rest cts em k s :
  wf s -> timeline s = [] -> events s = ∅ ->
  NoDup (map te_hashStr (flat_map miniblock_events (block0 :: rest))) -> pmb_events block0 <> [] ->
  exists s', res (initBlocks block0 rest cts em k s) = res (k s')
  /\ post (initBlocks block0 rest cts em k s) = post (k s')
  /\ wf s' /\ length (timeline s') = length (flat_map pmb_events (block0 :: rest))
  /\ forall h, h ∉ map te_hashStr (flat_map miniblock_events (block0 :: rest)) -> events s' !! h = None.
Proof.
  intros Hwf Htl He Hnd Hne. cbn [flat_map] in *. rewrite map_app in *.
  apply NoDup_app in Hnd as (Hnd0 & Hdis & Hnd1).
  destruct (alloc_two (miniblock_events block0) (flat_map miniblock_events rest) s Hwf)
    as (rs0 & rs1 & s2 & Hrun & H2 & T2 & E2 & F0 & F1 & Hrs & Hfresh).
  rewrite Htl in *. rewrite He in *. apply NoDup_app in Hrs as (Hrs0 & Hrs01 & Hrs1).
  assert (Hlen0 : length rs0 = length (pmb_events block0)).
  { rewrite (Forall2_length _ _ _ F0). apply length_imap. }
  assert (Hck : (0 <? length rs0)%nat = true).
  { apply Nat.ltb_lt. rewrite Hlen0. destruct (pmb_events block0); simpl; [done|lia]. }
  destruct (push_back_registered rs0 (miniblock_events block0) s2 (prependAll rs0 cts em false)
    (rev (zip rs0 (map te_hashStr (miniblock_events block0))))) as (s3 & P1 & P2 & P3 & P4 & P6); try done.
  { intros r Hr. rewrite T2. apply not_elem_of_nil. }
  { intros ev _. by rewrite E2. }
  { by rewrite <- Permutation_rev. }
  { intros s' Hs' Hreg. apply (prependAll_registers rs0 (miniblock_events block0)); [by rewrite Hs'|done]. }
  destruct (push_back_registered rs1 (flat_map miniblock_events rest) s3
    (js_for rs1 (fun r => event ← deref r;
       processAppendedEvent r (cleartext_for cts (te_hashStr event)) em false;; js_return))
    (zip rs1 (map te_hashStr (flat_map miniblock_events rest)))) as (s4 & Q1 & Q2 & Q3 & Q4 & Q6); try done.
  { by rewrite P4. }
  { intros r Hr. rewrite P3, T2. intros Hin. by apply (Hrs01 r). }
  { intros ev Hin. rewrite P6; [by rewrite E2|]. intros Hin0. apply (Hdis _ Hin0).
    by apply (list_elem_of_fmap_2 te_hashStr). }
  { intros s' Hs' Hreg. apply (appendFor_registers rs1 (flat_map miniblock_events rest)); [|done].
    rewrite Hs'. simpl. rewrite <- P4 in F1. exact F1. }
  exists s4. unfold initBlocks. edestruct Hrun as [-> ->].
  rewrite Hck, (emits_bind_total (js_check_bare true) _ s2 tt) by done. cbn [res post].
  change (post (js_check_bare true s2)) with s2. edestruct P1 as [-> ->]. edestruct Q1 as [-> ->].
  split_and!; try done.
  - by rewrite Q3, P3, T2, !length_app, Hlen0, (Forall2_length _ _ _ F1), length_miniblock_events.
  - intros h [Hh0 Hh1]%not_elem_of_app. rewrite Q6, P6 by done. by rewrite E2.
Qed.

(** The part of [initialize] after the miniblocks. *)
Definition initTail (nextSyncCookie : SyncCookie) (minipoolEvents : list ParsedEvent)
    (lastBlock : ParsedMiniblock) (prependedMiniblocks : list ParsedMiniblock) (prevSnapshotMiniblockNum : Z)
    (cleartexts : option (gmap string string)) (localEvents : list StreamTimelineEvent) (emitter : bool)
    (streamId : string) (kind : SnapshotCase) : SM t unit :=
  js_modify (set_lastEventNum (mh_eventNumOffset (pmb_header lastBlock)
    + Z.of_nat (length (pmb_events lastBlock))));;
  js_modify (set_prevMiniblockHash (Some (pmb_hash lastBlock)));;
  appendStreamAndCookie nextSyncCookie minipoolEvents cleartexts emitter false;;
  js_modify (set_prevSnapshotMiniblockNum prevSnapshotMiniblockNum);;
  match prependedMiniblocks with
  | [] => js_return
  | first :: _ =>
      prependEvents prependedMiniblocks cleartexts (mh_miniblockNum (pmb_header first) =? 0) emitter false
  end;;
  js_for localEvents (initLocalEvent emitter);;
  js_modify (set_isInitialized true);;
  js_emit emitter (streamInitialized streamId kind).

Lemma initPrepend_spec prepended cts em s :
  wf s -> NoDup (map te_hashStr (flat_map miniblock_events prepended)) ->
  let m := match prepended with
           | [] => js_return
           | first :: _ => prependEvents prepended cts (mh_miniblockNum (pmb_header first) =? 0) em false
           end in
  res (m s) = Ok tt /\ wf (post (m s))
  /\ forall h, h ∉ map te_hashStr (flat_map miniblock_events prepended) -> events (post (m s)) !! h = events s !! h.
Proof.
  intros Hwf Hnd. destruct prepended as [|first prepended]; [done|]. cbv zeta.
  set (mbs := first :: prepended) in *.
  destruct (prependEvents_spec mbs cts (mh_miniblockNum (pmb_header first) =? 0) em false s Hwf)
    as (H1 & H2 & rs & _ & _ & H3).
  { unfold new_events. by apply (Solicitations.filter_keys_NoDup te_hashStr). }
  split_and!; try done. intros h Hh. apply H3. intros Hin. apply Hh.
  apply list_elem_of_fmap in Hin as (ev & -> & Hin). unfold new_events in Hin.
  rewrite list_elem_of_In, filter_In in Hin. apply (list_elem_of_fmap_2 te_hashStr), list_elem_of_In, Hin.
Qed.

Lemma initTail_spec cookie minipool lastBlock prepended prevNum cts locals em sid kind s :
  wf s -> NoDup (map te_hashStr (flat_map miniblock_events prepended)) -> NoDup (map te_hashStr locals) ->
  (forall ev, ev ∈ locals -> events s !! te_hashStr ev = None
     /\ (te_hashStr ev ∉ map te_hashStr (flat_map miniblock_events prepended))
     /\ (te_hashStr ev ∉ map pe_hashStr minipool)) ->
  let o := initTail cookie minipool lastBlock prepended prevNum cts locals em sid kind s in
  res o = Ok tt /\ wf (post o) /\ isInitialized (post o) = true.
Proof.
  intros Hwf Hp Hl Hnew. cbv zeta. unfold initTail.
  rewrite (emits_bind_total (js_modify _) _ s tt) by done. cbn [res post]. set (s1 := post (js_modify _ s)).
  rewrite (emits_bind_total (js_modify _) _ s1 tt) by done. cbn [res post]. set (s2 := post (js_modify _ s1)).
  destruct (appendStreamAndCookie_spec cookie minipool cts em false s2) as (acc & A1 & A2).
  rewrite (emits_bind_total _ _ _ _ A1). cbn [res post]. set (s3 := post (appendStreamAndCookie _ _ _ _ _ s2)) in *.
  destruct (append_hashes (map pe_hashStr minipool) (skel s2) Hwf) as [C3 X3]. rewrite <- A2 in C3, X3.
  rewrite (emits_bind_total (js_modify _) _ s3 tt) by done. cbn [res post]. set (s4 := post (js_modify _ s3)).
  destruct (initPrepend_spec prepended cts em s4 C3 Hp) as (P1 & P2 & P3).
  rewrite (emits_bind_total _ _ _ _ P1). cbn [res post]. set (s5 := post (_ s4)) in *.
  destruct (initLocalEvents_spec em locals s5 P2 Hl) as [L1 L2].
  { intros ev Hin. destruct (Hnew ev Hin) as (N1 & N2 & N3). rewrite P3 by done.
    change (sk_events (skel s3) !! te_hashStr ev = None). by rewrite (ext_only _ _ _ X3). }
  by rewrite (emits_bind_total _ _ _ _ L1).
Qed.

Lemma initialize_spec cookie minipool snap block0 rest prepended prevNum cts locals em s :
  wf s -> timeline s = [] -> events s = ∅ ->
  init_input minipool (block0 :: rest) prepended locals ->
  let o := initialize cookie minipool snap (block0 :: rest) prepended prevNum cts locals em s in
  match res (applySnapshot (bin_toHexString (pmb_hash block0)) snap cts em s) with
  | Throw e => res o = Throw e /\ wf (post o)
  | Ok _ => pmb_events block0 <> [] -> res o = Ok tt /\ wf (post o) /\ isInitialized (post o) = true
  end.
Proof.
  intros Hwf Ht He [I1 I2 I3 I4]. cbv zeta. unfold initialize.
  rewrite (emits_bind_total js_get _ s s) by done. cbn [res post].
  rewrite (emits_bind_total (js_check_code _ _ _) _ s tt) by done. cbn [res post].
  change (post (js_check_code _ _ _ s)) with s. change (post (js_get s)) with s.
  pose proof (keeps_applySnapshot (bin_toHexString (pmb_hash block0)) snap cts em (skel s) s eq_refl) as Hs.
  destruct (applySnapshot _ _ _ _ s) as [[[]|e] s1 w] eqn:Ho; cbn [res post] in *.
  2: { erewrite bind_Throw by exact Ho. split; [done|]. by apply (wf_skel s). }
  intros Hne. erewrite bind_Ok by exact Ho. cbn [res post].
  set (kind := contentKind (content s)). set (lastBlock := List.last (block0 :: rest) block0).
  set (o := initBlocks block0 rest cts em (initTail cookie minipool lastBlock prepended prevNum cts locals em
    (streamId s) kind) s1).
  change (res o = Ok tt /\ wf (post o) /\ isInitialized (post o) = true). unfold o.
  destruct (initBlocks_spec block0 rest cts em (initTail cookie minipool lastBlock prepended prevNum cts locals em
    (streamId s) kind) s1) as (s2 & -> & -> & H2 & _ & E2); try done.
  - by apply (wf_skel s).
  - change (sk_timeline (skel s1) = []). by rewrite Hs.
  - change (sk_events (skel s1) = ∅). by rewrite Hs.
  - apply initTail_spec; try done. intros ev Hin. destruct (I4 ev Hin) as [N1 N2].
    rewrite flat_map_app_hashes in N1. apply not_elem_of_app in N1 as [N0 N1].
    split_and!; [by apply E2|done|done].
Qed.

(** ** Local events and their echo *)

Lemma appendLocalEvent_heap localId now msg status em s :
  heap (post (appendLocalEvent localId now msg status em s)) !! next_ref s
  = Some (mkStreamTimelineEvent localId (userId s) (lastEventNum s) now
      (Some (mkLocalEvent localId msg status)) None None None None None).
Proof.
  unfold appendLocalEvent, nextEventNum, alloc. js_unfold. cbn -[insert content_onAppendLocalEvent].
  destruct (content_onAppendLocalEvent (C := AnyContent) _ _ _) as [[[]|e] c w]; cbn -[insert];
    apply lookup_insert_eq.
Qed.

(** An event that is known under its hash gets its remote event in place. *)
Lemma append_known pe cookie cts em s r ev :
  events s !! pe_hashStr pe = Some r -> heap s !! r = Some ev ->
  let o := appendEvents [pe] cookie cts em s in
  timeline (post o) = timeline s /\ heap (post o) = <[r := te_set_remoteEvent (Some pe) ev]> (heap s)
  /\ emits o = if em then [streamUpdated (streamId s) (contentKind (content s))
                             (mkStreamChange None None (Some [r]) None)] else [].
Proof.
  intros He Hr. cbv zeta. unfold appendEvents, appendStreamAndCookie, appendLoop, appendOne, assign.
  js_unfold. cbn -[alter insert lookup]. rewrite He. cbn -[alter insert lookup].
  split_and!; [done| |done]. apply map_eq. intros r'. destruct (decide (r = r')) as [<-|Hne].
  - by rewrite lookup_alter_eq, lookup_insert_eq, Hr.
  - by rewrite lookup_alter_ne, lookup_insert_ne.
Qed.

(** C5: the life of a message sent from this client. The local event is shown at the
    end of the timeline at once; it takes the hash of the event that is being sent;
    and when that event comes back from the node it is merged into the same entry,
    still marked as local, so that the message is never shown twice. *)
Theorem local_event_echo localId now msg st1 st2 pe cookie cts em s :
  wf s -> events s !! localId = None -> events s !! pe_hashStr pe = None -> pe_hashStr pe <> localId ->
  let s1 := post (appendLocalEvent localId now msg st1 em s) in
  let s2 := post (updateLocalEvent localId (pe_hashStr pe) st2 em s1) in
  let s3 := post (appendEvents [pe] cookie cts em s2) in
  wf s3
  /\ timeline s1 = timeline s ++ [next_ref s] /\ timeline s2 = timeline s1 /\ timeline s3 = timeline s1
  /\ exists ev, heap s3 !! next_ref s = Some ev
     /\ te_hashStr ev = pe_hashStr pe /\ te_remoteEvent ev = Some pe
     /\ te_localEvent ev = Some (mkLocalEvent localId msg st2).
Proof.
  intros Hwf Hl Hh Hne s1 s2 s3.
  destruct (appendLocalEvent_spec localId now msg st1 em s) as [_ K1]. fold s1 in K1.
  pose proof (appendLocalEvent_heap localId now msg st1 em s) as H1. fold s1 in H1.
  assert (E1 : events s1 !! localId = Some (next_ref s)).
  { change (sk_events (skel s1) !! localId = Some (next_ref s)). rewrite K1. apply lookup_insert_eq. }
  pose proof (updateLocalEvent_spec localId (pe_hashStr pe) st2 em s1) as U. cbv zeta in U. rewrite E1 in U.
  specialize (U _ H1). cbn [te_localEvent] in U. destruct U as (_ & K2 & H2). fold s2 in K2, H2.
  assert (E2 : events s2 !! pe_hashStr pe = Some (next_ref s)).
  { change (sk_events (skel s2) !! pe_hashStr pe = Some (next_ref s)). rewrite K2. apply lookup_insert_eq. }
  destruct (append_known pe cookie cts em s2 _ _ E2 H2) as (T3 & H3 & _). fold s3 in T3, H3.
  assert (W1 : wf s1) by (unfold wf; rewrite K1; by apply append_skel_consistent).
  assert (W2 : wf s2).
  { apply wf_local_update; [done|]. intros r Hr.
    change (sk_events (skel s1) !! pe_hashStr pe = Some r) in Hr. rewrite K1 in Hr. simpl in Hr.
    rewrite lookup_insert_ne in Hr by done. congruence. }
  assert (T1 : timeline s1 = timeline s ++ [next_ref s])
    by (change (sk_timeline (skel s1) = timeline s ++ [next_ref s]); by rewrite K1).
  assert (T2 : timeline s2 = timeline s1) by (change (sk_timeline (skel s2) = timeline s1); by rewrite K2).
  split_and!; [by apply wf_append|done|done|by rewrite T3|].
  rewrite H3, lookup_insert_eq. eexists. by split.
Qed.

(** ** Claims on the timeline *)

(** C1: two entries of the timeline never carry the same hash, and every entry is the
    event the view finds under its hash. This holds from the initialization on, through
    any sequence of appended events (which may repeat each other and the view), scrollback
    answers, local events, updates of their hashes and decryptions, under these
    conditions, which the code does not check: the blocks and the scrollback a view
    is initialized with each name no event twice, and its first block is not empty; the
    local events it is initialized with have ids that differ from each other and from
    those of these events and of the minipool; a later scrollback answer names no event twice among those the view
    does not have yet; a new local event has a new id; and a local event is given a hash
    that no other entry has. *)
Theorem timeline_no_duplicates userId streamId s0 cookie minipool snap block0 rest prepended prevNum cts locals em s :
  new userId streamId = Ok s0 ->
  init_input minipool (block0 :: rest) prepended locals -> pmb_events block0 <> [] ->
  rtc view_step (post (initialize cookie minipool snap (block0 :: rest) prepended prevNum cts locals em s0)) s ->
  NoDup (timeline s)
  /\ (forall r, r ∈ timeline s -> exists ev, heap s !! r = Some ev /\ events s !! te_hashStr ev = Some r)
  /\ (forall r1 r2 ev1 ev2, r1 ∈ timeline s -> r2 ∈ timeline s ->
        heap s !! r1 = Some ev1 -> heap s !! r2 = Some ev2 -> te_hashStr ev1 = te_hashStr ev2 -> r1 = r2).
Proof.
  intros Hnew Hin Hne Hrun.
  assert (Hs0 : timeline s0 = [] /\ events s0 = ∅).
  { unfold new in Hnew. destruct (newContent streamId); [|done]. by injection Hnew as <-. }
  pose proof (initialize_spec cookie minipool snap block0 rest prepended prevNum cts locals em s0
    (view_wf_new _ _ _ Hnew) (proj1 Hs0) (proj2 Hs0) Hin) as Hi. cbv zeta in Hi.
  assert (Hwf : wf s).
  { eapply steps_wf; [exact Hrun|]. destruct (res (applySnapshot _ _ _ _ s0)); [|apply Hi].
    by destruct (Hi Hne) as (_ & Hw & _). }
  split_and!.
  - apply (con_NoDup _ _ Hwf).
  - intros r Hr. destruct (con_timeline _ _ Hwf r Hr) as (h & Hh & [He|[]%elem_of_nil]).
    apply skel_hash_heap in Hh as (ev & Hev & <-). eauto.
  - intros r1 r2 ev1 ev2. by apply wf_unique_hash.
Qed.

(** C2: appending events from the node never throws, keeps the timeline consistent,
    only adds entries at its end, and these only for hashes it did not know; every
    event of the answer is found afterwards. *)
Theorem appendEvents_adds_new evs cookie cts em s :
  wf s ->
  let o := appendEvents evs cookie cts em s in
  res o = Ok tt /\ wf (post o)
  /\ (exists new, timeline (post o) = timeline s ++ new
        /\ forall r, r ∈ new -> exists ev, heap (post o) !! r = Some ev
             /\ (te_hashStr ev ∈ map pe_hashStr evs) /\ events s !! te_hashStr ev = None)
  /\ (forall pe, pe ∈ evs -> is_Some (events (post o) !! pe_hashStr pe))
  /\ events s ⊆ events (post o).
Proof.
  intros Hwf. cbv zeta. destruct (appendEvents_spec evs cookie cts em s) as [Hr Hs].
  destruct (append_hashes (map pe_hashStr evs) (skel s) Hwf) as [Hc [(new & Ht & Hn) He Hh Hf Ho]].
  rewrite <- Hs in *. split_and!; [done|done| | |done].
  - exists new. split; [done|]. intros r Hr'. destruct (Hn r Hr') as (h & H1 & H2 & H3).
    apply skel_hash_heap in H1 as (ev & H1 & <-). eauto.
  - intros pe Hin. apply Hf. by apply (list_elem_of_fmap_2 pe_hashStr).
Qed.

(** C4: scrollback whose new events are distinct never throws and keeps the timeline
    consistent; it puts exactly the events the view did not have in front of the
    timeline, in the order of the answer. *)
Theorem prependEvents_adds_front miniblocks cts terminus e1 e2 s :
  wf s -> NoDup (map te_hashStr (new_events miniblocks s)) ->
  let o := prependEvents miniblocks cts terminus e1 e2 s in
  res o = Ok tt /\ wf (post o)
  /\ exists rs, timeline (post o) = rs ++ timeline s
     /\ Forall2 (fun r ev => exists ev', heap (post o) !! r = Some ev' /\ te_hashStr ev' = te_hashStr ev)
          rs (new_events miniblocks s).
Proof.
  intros Hwf Hnd. cbv zeta.
  destruct (prependEvents_spec miniblocks cts terminus e1 e2 s Hwf Hnd) as (H1 & H2 & rs & H3 & H4 & _).
  split_and!; [done|done|]. exists rs. split; [done|].
  eapply Forall2_impl; [exact H4|]. intros r ev Hr. by apply skel_hash_heap in Hr.
Qed.

(** C3: initialization from a response without repeated events succeeds and leaves a
    consistent, initialized view as soon as the snapshot is accepted; otherwise it
    throws what the snapshot threw. *)
Theorem initialize_succeeds userId streamId s0 cookie minipool snap block0 rest prepended prevNum cts locals em :
  new userId streamId = Ok s0 ->
  init_input minipool (block0 :: rest) prepended locals -> pmb_events block0 <> [] ->
  let o := initialize cookie minipool snap (block0 :: rest) prepended prevNum cts locals em s0 in
  wf (post o)
  /\ match res (applySnapshot (bin_toHexString (pmb_hash block0)) snap cts em s0) with
     | Ok _ => res o = Ok tt /\ isInitialized (post o) = true
     | Throw e => res o = Throw e
     end.
Proof.
  intros Hnew Hin Hne. cbv zeta.
  assert (Hs0 : timeline s0 = [] /\ events s0 = ∅).
  { unfold new in Hnew. destruct (newContent streamId); [|done]. by injection Hnew as <-. }
  pose proof (initialize_spec cookie minipool snap block0 rest prepended prevNum cts locals em s0
    (view_wf_new _ _ _ Hnew) (proj1 Hs0) (proj2 Hs0) Hin) as Hi. cbv zeta in Hi.
  destruct (res (applySnapshot _ _ _ _ s0)); [destruct (Hi Hne) as (? & ? & ?)|destruct Hi]; done.
Qed.
End Runs.

(** ** A concrete run *)

Definition demo_view : t :=
  mk "20" "u" (C_channel (Channel.new "20")) ∅ 0%nat [] ∅ false None None 0 0 None None (Members.new "20").

Lemma demo_view_new : new "u" "20" = Ok demo_view.
Proof. reflexivity. Qed.

Lemma demo_view_wf : wf demo_view.
Proof. exact (view_wf_new "u" "20" demo_view demo_view_new). Qed.

Definition demo_message (hash : string) : ParsedEvent :=
  mkParsedEvent (mkStreamEvent [] [] [] None 0 0 (Some (Payload_channelPayload
    (Some (ChannelPayload_message (mkEncryptedData "" "" "" "" None None)))))) [] hash None "u".

Definition demo_block (num : Z) (hashes : list string) : ParsedMiniblock :=
  mkParsedMiniblock [] (mkMiniblockHeader num [] None [] None num 0 true) (map demo_message hashes).

Definition demo_channel_snapshot : Snapshot := mkSnapshot None 2 (Some (Snapshot_channelContent (mkChannelSnapshot None))).
Definition demo_cookie : SyncCookie := mkSyncCookie [] [] 0 0 [].
Definition demo_local (id : string) : StreamTimelineEvent := mkStreamTimelineEvent id "u" 0 0
  (Some (mkLocalEvent id (mkChannelMessage None) Status_sending)) None None None None None.

Lemma demo_input : init_input [demo_message "m"] [demo_block 1 ["a"; "b"]; demo_block 2 ["c"]]
  [demo_block 0 ["z"]] [demo_local "~1"].
Proof.
  split.
  - apply (bool_decide_unpack _). vm_compute. done.
  - apply (bool_decide_unpack _). vm_compute. done.
  - apply (bool_decide_unpack _). vm_compute. done.
  - intros ev ->%list_elem_of_singleton. split; apply (bool_decide_unpack _); vm_compute; done.
Qed.

Lemma initialize_succeeds_witness :
  let o := initialize demo_cookie [demo_message "m"] demo_channel_snapshot
    [demo_block 1 ["a"; "b"]; demo_block 2 ["c"]] [demo_block 0 ["z"]] 0 None [demo_local "~1"] true demo_view in
  wf (post o) /\ res o = Ok tt.
Proof.
  destruct (initialize_succeeds "u" "20" demo_view demo_cookie [demo_message "m"] demo_channel_snapshot
    (demo_block 1 ["a"; "b"]) [demo_block 2 ["c"]] [demo_block 0 ["z"]] 0 None [demo_local "~1"] true
    demo_view_new demo_input ltac:(discriminate)) as [H1 H2].
  split; [exact H1|]. exact (proj1 H2).
Defined.

Lemma timeline_no_duplicates_witness :
  NoDup (timeline (post (appendEvents [demo_message "m"; demo_message "n"] demo_cookie None true
    (post (initialize demo_cookie [demo_message "m"] demo_channel_snapshot
      [demo_block 1 ["a"; "b"]; demo_block 2 ["c"]] [demo_block 0 ["z"]] 0 None [demo_local "~1"] true demo_view))))).
Proof.
  destruct (timeline_no_duplicates "u" "20" demo_view demo_cookie [demo_message "m"] demo_channel_snapshot
    (demo_block 1 ["a"; "b"]) [demo_block 2 ["c"]] [demo_block 0 ["z"]] 0 None [demo_local "~1"] true _
    demo_view_new demo_input ltac:(discriminate)
    (rtc_once _ _ (step_append _ [demo_message "m"; demo_message "n"] demo_cookie None true))) as [H _].
  exact H.
Defined.

Lemma appendEvents_adds_new_witness :
  res (appendEvents [demo_message "a"; demo_message "a"] demo_cookie None true demo_view) = Ok tt.
Proof.
  exact (proj1 (appendEvents_adds_new [demo_message "a"; demo_message "a"] demo_cookie None true demo_view
    demo_view_wf)).
Defined.

Lemma prependEvents_adds_front_witness :
  res (prependEvents [demo_block 1 ["a"; "b"]] None false true true demo_view) = Ok tt.
Proof.
  exact (proj1 (prependEvents_adds_front [demo_block 1 ["a"; "b"]] None false true true demo_view
    demo_view_wf ltac:(apply (bool_decide_unpack _); vm_compute; done))).
Defined.

Lemma local_event_echo_witness :
  timeline (post (appendEvents [demo_message "h"] demo_cookie None true
    (post (updateLocalEvent "~1" "h" Status_sent true
      (post (appendLocalEvent "~1" 5 (mkChannelMessage None) Status_sending true demo_view)))))) = [0%nat].
Proof.
  destruct (local_event_echo "~1" 5 (mkChannelMessage None) Status_sending Status_sent (demo_message "h")
    demo_cookie None true demo_view demo_view_wf eq_refl eq_refl ltac:(discriminate))
    as (_ & H1 & _ & H3 & _).
  exact (eq_trans H3 H1).
Defined.

(** Scrollback checks the events of an answer against the view and not against each
    other: an answer that repeats a new event puts it into the timeline twice. *)
Example repeated_answer_shown_twice :
  let s := post (prependEvents [demo_block 1 ["a"]; demo_block 2 ["a"]] None false true true demo_view) in
  (fun r => te_hashStr <$> heap s !! r) <$> timeline s = [Some "a"; Some "a"].
Proof. vm_compute. reflexivity. Qed.

(** A local event whose id is taken, and one that is given the hash of another entry. *)
Example reused_ids_shown_twice :
  let send id := appendLocalEvent id 5 (mkChannelMessage None) Status_sending true in
  let s := post (send "~1" (post (send "~1" demo_view))) in
  let s' := post (updateLocalEvent "~2" "~1" Status_sent true (post (send "~2" (post (send "~1" demo_view))))) in
  (fun r => te_hashStr <$> heap s !! r) <$> timeline s = [Some "~1"; Some "~1"]
  /\ (fun r => te_hashStr <$> heap s' !! r) <$> timeline s' = [Some "~1"; Some "~1"].
Proof. vm_compute. done. Qed.
