(* ===== verification/Confirmation.v ===== *)
(** * Miniblock headers confirm events

    Theorems on the miniblock part of [StreamStateView]: the numbers an event gets
    from the header that confirms it, the order of headers, the known range. *)

From stdpp Require Import pretty.
From S2P Require Import Prelude Proto Externals ToyExternals Binary StreamId Types Migrations.
From S2P Require Import Solicitations Usernames DisplayNames EnsAddresses Nfts UserMetadata.
From S2P Require Import MembershipState Members ChannelMetadata Content Channel DMChannel GDMChannel.
From S2P Require Import Space User UserInbox UserSettings UserDeviceKeys Media UnknownContent.
From S2P Require Import StreamStateView Timeline.

(** ** Specification *)

(** An event as the header leaves it: confirmed at index [i] of the block. *)
Definition confirmed_at (header : MiniblockHeader) (i : Z) (ev : StreamTimelineEvent) : StreamTimelineEvent :=
  te_set_confirmedEventNum (Some (mh_eventNumOffset header + i))
    (te_set_miniblockNum (Some (mh_miniblockNum header)) ev).

Section Confirm.
Context `{Externals}.

(** The addresses in what waits for confirmation are well formed. *)
Record confirmable (m : Members.t) : Prop := {
  cf_memberships : forall e x,
    MembershipState.pendingMembershipEvents (Members.membership m) !! e = Some x -> is_Some (user_of x);
  cf_ens : forall e ent,
    EnsAddresses.ensAddressEvents (UserMetadata.ensAddresses (Members.userMetadata m)) !! e = Some ent ->
    EnsAddresses.ensAddress ent = [] \/ exists u, userIdFromAddress (EnsAddresses.ensAddress ent) = Ok u;
}.

(** ** Lemmas: confirmations do not throw *)

Lemma usernames_confirm_total e em : total (Usernames.onConfirmEvent e em).
Proof.
  intros s. unfold Usernames.onConfirmEvent, Usernames.emitUsernameUpdated. js_unfold.
  destruct (Usernames.usernameEvents s !! e) as [ent|]; simpl; [|eauto].
  destruct (is_defined _); simpl; [|eauto]. destruct (_ !! e); simpl; [|eauto].
  destruct (negb _); simpl; eauto.
Qed.

Lemma displayNames_confirm_total e em : total (DisplayNames.onConfirmEvent e em).
Proof.
  intros s. unfold DisplayNames.onConfirmEvent, DisplayNames.emitDisplayNameUpdated. js_unfold.
  destruct (DisplayNames.displayNameEvents s !! e) as [ent|]; simpl; [|eauto].
  destruct (is_defined _); simpl; [|eauto]. destruct (_ !! e); simpl; [|eauto].
  destruct (negb _); simpl; eauto.
Qed.

Lemma nfts_confirm_total e em : total (Nfts.onConfirmEvent e em).
Proof.
  intros s. unfold Nfts.onConfirmEvent, Nfts.confirmNft, Nfts.emitNftUpdated. js_unfold.
  destruct (Nfts.nftEvents s !! e) as [ent|]; simpl; [|eauto].
  destruct (Nfts.isValidNft _); simpl; destruct (_ !! e); simpl; eauto;
    destruct (Nfts.pending _); simpl; eauto.
Qed.

Definition ens_valid (s : EnsAddresses.t) : Prop :=
  forall e ent, EnsAddresses.ensAddressEvents s !! e = Some ent ->
    EnsAddresses.ensAddress ent = [] \/ exists u, userIdFromAddress (EnsAddresses.ensAddress ent) = Ok u.

Lemma ens_confirm_ok e em s :
  ens_valid s ->
  res (EnsAddresses.onConfirmEvent e em s) = Ok tt /\ ens_valid (post (EnsAddresses.onConfirmEvent e em s)).
Proof.
  intros Hv. unfold EnsAddresses.onConfirmEvent, EnsAddresses.confirmAddress, EnsAddresses.emitEnsAddressUpdated.
  js_unfold. destruct (EnsAddresses.ensAddressEvents s !! e) as [ent|] eqn:He; [|done].
  assert (Hv' : forall e' ent', <[e := EnsAddresses.mkEntry (EnsAddresses.ensAddress ent)
      (EnsAddresses.userId ent) false]> (EnsAddresses.ensAddressEvents s) !! e' = Some ent' ->
    EnsAddresses.ensAddress ent' = [] \/ exists u, userIdFromAddress (EnsAddresses.ensAddress ent') = Ok u).
  { intros e' ent'. rewrite lookup_insert_Some. intros [[_ <-]|[_ Hl]]; [exact (Hv e ent He)|exact (Hv e' ent' Hl)]. }
  destruct (Hv e ent He) as [Hnil|[u Hu]].
  - rewrite Hnil in *. cbn -[insert lookup delete]. rewrite lookup_insert_eq. by split.
  - destruct (0 <? length (EnsAddresses.ensAddress ent))%nat; rewrite ?Hu; cbn -[insert lookup delete];
      rewrite lookup_insert_eq; by split.
Qed.

Lemma metadata_confirm_ok e em s :
  ens_valid (UserMetadata.ensAddresses s) ->
  res (UserMetadata.onConfirmedEvent e em s) = Ok tt
  /\ ens_valid (UserMetadata.ensAddresses (post (UserMetadata.onConfirmedEvent e em s))).
Proof.
  intros Hv. unfold UserMetadata.onConfirmedEvent. js_unfold. cbn [view update usernamesL].
  destruct (usernames_confirm_total e em (UserMetadata.usernames s)) as [[] H1].
  destruct (Usernames.onConfirmEvent _ _ _) as [x1 s1 w1]. cbn [res] in H1. subst x1.
  cbn [view update displayNamesL UserMetadata.displayNames].
  destruct (displayNames_confirm_total e em (UserMetadata.displayNames s)) as [[] H2].
  destruct (DisplayNames.onConfirmEvent _ _ _) as [x2 s2 w2]. cbn [res] in H2. subst x2.
  cbn [view update ensAddressesL UserMetadata.ensAddresses UserMetadata.usernames].
  destruct (ens_confirm_ok e em (UserMetadata.ensAddresses s) Hv) as [H3 V3].
  destruct (EnsAddresses.onConfirmEvent _ _ _) as [x3 s3 w3]. cbn [res post] in H3, V3. subst x3.
  cbn [view update nftsL UserMetadata.nfts UserMetadata.ensAddresses UserMetadata.displayNames UserMetadata.usernames].
  destruct (nfts_confirm_total e em (UserMetadata.nfts s)) as [[] H4].
  destruct (Nfts.onConfirmEvent _ _ _) as [x4 s4 w4]. cbn [res] in H4. by subst x4.
Qed.

Lemma confirmMembership_ok ev em s :
  confirmable s -> res (confirmMembership ev em s) = Ok tt /\ confirmable (post (confirmMembership ev em s)).
Proof.
  intros [Hm He]. destruct (MembershipState.pendingMembershipEvents (Members.membership s) !! te_hashStr ev)
    as [m|] eqn:Hp.
  2: { unfold confirmMembership. js_unfold. by rewrite Hp. }
  pose proof (confirmMembership_effect ev m em s Hp) as (E1 & _ & _).
  assert (Hpost : res (confirmMembership ev em s) = Ok tt
    /\ Members.userMetadata (post (confirmMembership ev em s)) = Members.userMetadata s).
  { unfold confirmMembership. js_unfold. rewrite Hp. simpl.
    destruct (Hm _ _ Hp) as [u Hu]. unfold user_of in Hu.
    destruct (userIdFromAddress (ms_userAddress m)) as [u'|]; [|done]. simpl.
    destruct (jm_get u' (joined s)); simpl;
      match goal with |- context [MembershipState.applyMembershipEvent ?u ?op ?ty em ?x] =>
        destruct (MembershipState.applyMembershipEvent_total u op ty em x) as [[] Ht];
        destruct (MembershipState.applyMembershipEvent u op ty em x) end; simpl in *; by subst. }
  destruct Hpost as [Hr Hmd]. split; [done|]. split.
  - intros e x. rewrite E1, lookup_delete_Some. intros [_ Hx]. eauto.
  - rewrite Hmd. done.
Qed.

Lemma members_confirm_ok ev p em s :
  confirmable s ->
  res (Members.onConfirmedEvent ev p em s) = Ok tt /\ confirmable (post (Members.onConfirmedEvent ev p em s)).
Proof.
  intros Hc.
  assert (Hmd : res (js_zoom userMetadataL (UserMetadata.onConfirmedEvent (te_hashStr ev) em) s) = Ok tt
    /\ confirmable (post (js_zoom userMetadataL (UserMetadata.onConfirmedEvent (te_hashStr ev) em) s))).
  { destruct Hc as [Hm He]. unfold js_zoom. cbn [view userMetadataL].
    destruct (metadata_confirm_ok (te_hashStr ev) em (Members.userMetadata s) He) as [Hr Hv].
    destruct (UserMetadata.onConfirmedEvent _ _ _) as [x s' w]. split; [done|]. by split. }
  destruct p as [[]|]; simpl; auto using confirmMembership_ok.
Qed.

(** The confirmation handler of [confirm_hashes] for one event. *)
Definition handler (event : StreamTimelineEvent) (em : bool) : SM t unit :=
  match event_payload event with
  | Some (Payload_memberPayload payload) => js_zoom membersL (Members.onConfirmedEvent event payload em)
  | None => js_return
  | Some _ => js_zoom anyContentL (content_onConfirmedEvent event em)
  end.

Lemma handler_ok event em s :
  confirmable (membershipContent s) ->
  let o := handler event em s in
  res o = Ok tt /\ heap (post o) = heap s /\ events (post o) = events s /\ timeline (post o) = timeline s
  /\ confirmable (membershipContent (post o)).
Proof.
  intros Hc. cbv zeta.
  assert (Hany : let o := js_zoom anyContentL (content_onConfirmedEvent event em) s in
    res o = Ok tt /\ heap (post o) = heap s /\ events (post o) = events s /\ timeline (post o) = timeline s
    /\ confirmable (membershipContent (post o))).
  { cbv zeta. unfold js_zoom. destruct (law_confirm_total event em (view anyContentL s)) as [[] Ht].
    destruct (content_onConfirmedEvent event em (view anyContentL s)) as [x c w]. simpl in *. by subst x. }
  unfold handler. destruct (event_payload event) as [[]|]; try exact Hany; [|done].
  unfold js_zoom. destruct (members_confirm_ok event v em (membershipContent s) Hc) as [Hr Hm].
  cbn [view membersL]. destruct (Members.onConfirmedEvent _ _ _ _) as [x m w]. simpl in *. by subst x.
Qed.

(** One round of the loop on an event that is there. *)
Lemma confirm_one header i hash hashes em s r ev :
  events s !! bin_toHexString hash = Some r -> heap s !! r = Some ev -> isRemoteEvent ev = true ->
  confirmable (membershipContent s) ->
  exists s', heap s' = <[r := confirmed_at header i ev]> (heap s) /\ events s' = events s
    /\ timeline s' = timeline s /\ confirmable (membershipContent s')
    /\ res (confirm_hashes header i (hash :: hashes) em s)
       = match res (confirm_hashes header (i + 1) hashes em s') with
         | Ok rs => Ok (r :: rs)
         | Throw e => Throw e
         end
    /\ post (confirm_hashes header i (hash :: hashes) em s) = post (confirm_hashes header (i + 1) hashes em s').
Proof.
  intros He Hr Hrem Hc. cbn [confirm_hashes].
  rewrite (emits_bind_total js_get _ s s) by done. cbn [res post]. rewrite He.
  rewrite (emits_bind_total (assign _ _) _ _ tt) by done. cbn [res post].
  set (s1 := post (assign _ _ _)).
  rewrite (emits_bind_total (assign _ _) _ s1 tt) by done. cbn [res post].
  set (s2 := post (assign r _ s1)).
  assert (H2 : heap s2 = <[r := confirmed_at header i ev]> (heap s)).
  { apply map_eq. intros r'. cbn -[alter insert lookup]. destruct (decide (r = r')) as [<-|Hne].
    - by rewrite !lookup_alter_eq, lookup_insert_eq, Hr.
    - by rewrite !lookup_alter_ne, lookup_insert_ne. }
  assert (Hr2 : heap s2 !! r = Some (confirmed_at header i ev)) by (rewrite H2; apply lookup_insert_eq).
  rewrite (deref_bind _ _ _ _ Hr2).
  assert (Hconf : isConfirmedEvent (confirmed_at header i ev) = true).
  { unfold isConfirmedEvent, isRemoteEvent in *. simpl. by rewrite Hrem. }
  rewrite Hconf. rewrite (emits_bind_total (js_check true _) _ s2 tt) by done. cbn [res post].
  change (post (js_check true _ s2)) with s2.
  destruct (handler_ok (confirmed_at header i ev) em s2 Hc) as (E1 & E2 & E3 & E4 & E5).
  fold (handler (confirmed_at header i ev) em). rewrite (emits_bind_total _ _ _ _ E1). cbn [res post].
  exists (post (handler (confirmed_at header i ev) em s2)). rewrite E2, E3, E4. split_and!; try done.
  - destruct (confirm_hashes header (i + 1) hashes em _) as [[rs|e] s3 w] eqn:Hk.
    + by erewrite bind_Ok by exact Hk.
    + by erewrite bind_Throw by exact Hk.
  - destruct (confirm_hashes header (i + 1) hashes em _) as [[rs|e] s3 w] eqn:Hk.
    + by erewrite bind_Ok by exact Hk.
    + by erewrite bind_Throw by exact Hk.
Qed.

Lemma confirm_hashes_spec header i hashes rs em s :
  Forall2 (fun hash r => events s !! bin_toHexString hash = Some r) hashes rs -> NoDup rs ->
  (forall r, r ∈ rs -> exists ev, heap s !! r = Some ev /\ isRemoteEvent ev = true) ->
  confirmable (membershipContent s) ->
  let o := confirm_hashes header i hashes em s in
  res o = Ok rs /\ timeline (post o) = timeline s
  /\ (forall j r ev, rs !! j = Some r -> heap s !! r = Some ev ->
        heap (post o) !! r = Some (confirmed_at header (i + Z.of_nat j) ev))
  /\ (forall r, r ∉ rs -> heap (post o) !! r = heap s !! r).
Proof.
  revert rs i s. induction hashes as [|hash hashes IH]; intros rs i s Hf Hnd Hrem Hc.
  { apply Forall2_nil_inv_l in Hf as ->. split_and!; try done. }
  apply Forall2_cons_inv_l in Hf as (r & rs' & Hh & Hf & ->). apply NoDup_cons in Hnd as [Hr Hnd].
  destruct (Hrem r) as (ev & Hev & Hre); [left|].
  destruct (confirm_one header i hash hashes em s r ev Hh Hev Hre Hc)
    as (s' & H1 & H2 & H3 & H4 & H5 & H6). cbv zeta. rewrite H5, H6.
  assert (Hne : forall r', r' ∈ rs' -> r <> r') by (by intros r' Hin ->).
  destruct (IH rs' (i + 1) s') as (I1 & I2 & I3 & I4); try done.
  { by rewrite H2. }
  { intros r' Hin. rewrite H1, lookup_insert_ne by auto. apply Hrem. by right. }
  rewrite I1, I2, H3. split_and!; [done|done| |].
  - intros [|j] r' ev' Hj Hev'.
    + injection Hj as <-. assert (ev' = ev) as -> by congruence.
      rewrite I4 by done. rewrite H1, lookup_insert_eq. by rewrite Z.add_0_r.
    + simpl in Hj. rewrite (I3 j r' ev' Hj).
      * do 2 f_equal. lia.
      * rewrite H1, lookup_insert_ne; [done|]. apply Hne. by eapply list_elem_of_lookup_2.
  - intros r' [Hn1 Hn2]%not_elem_of_cons. rewrite I4, H1, lookup_insert_ne; done.
Qed.

(** C6: a miniblock header whose events are all known to the view, are remote and
    wait with well-formed addresses confirms each of them, in order: the [j]-th gets
    the header's miniblock number and the number [eventNumOffset + j], the call
    returns exactly them, and every other event and the timeline stay as they
    are. *)
Theorem header_confirms_events header hashes rs em s :
  Forall2 (fun hash r => events s !! bin_toHexString hash = Some r) hashes rs -> NoDup rs ->
  (forall r, r ∈ rs -> exists ev, heap s !! r = Some ev /\ isRemoteEvent ev = true) ->
  confirmable (membershipContent s) ->
  let o := processMiniblockHeader header hashes em s in
  res o = Ok rs /\ timeline (post o) = timeline s
  /\ (forall j r ev, rs !! j = Some r -> heap s !! r = Some ev ->
        heap (post o) !! r = Some (confirmed_at header (Z.of_nat j) ev)
        /\ isConfirmedEvent (confirmed_at header (Z.of_nat j) ev) = true)
  /\ (forall r, r ∉ rs -> heap (post o) !! r = heap s !! r).
Proof.
  intros Hf Hnd Hrem Hc.
  destruct (confirm_hashes_spec header 0 hashes rs em s Hf Hnd Hrem Hc) as (H1 & H2 & H3 & H4).
  split_and!; try done. intros j r ev Hj Hev. split; [by apply H3|].
  destruct (Hrem r) as (ev' & Hev' & Hre); [by eapply list_elem_of_lookup_2|].
  assert (ev' = ev) as -> by congruence. unfold isConfirmedEvent, isRemoteEvent in *. simpl. by rewrite Hre.
Qed.

(** ** The range of known miniblocks *)

(** A header that does not come after the newest miniblock is ignored: nothing
    changes but that its event is registered, and nothing is announced. *)
Theorem stale_header_ignored r ct e1 e2 s ev header info :
  heap s !! r = Some ev -> event_payload ev = Some (Payload_miniblockHeader header) ->
  events s !! te_hashStr ev = None ->
  miniblockInfo s = Some info -> mh_miniblockNum header <= mbi_max info ->
  processAppendedEvent r ct e1 e2 s
  = Outcome (Ok None) (set_events (<[te_hashStr ev := r]> (events s)) s) [].
Proof.
  intros Hr Hp He Hi Hle. unfold processAppendedEvent, js_check_bare. rewrite (deref_bind _ _ _ _ Hr).
  js_unfold. cbn [res post]. rewrite He. cbn [is_defined negb check].
  unfold js_try, appendPayload, deref, appendHeader, js_check_code. js_unfold.
  cbn -[insert lookup pretty]. rewrite Hr. cbn -[insert lookup pretty]. rewrite Hp.
  cbn -[insert lookup pretty]. rewrite Hi. cbn -[insert lookup pretty].
  destruct (Z.ltb_spec (mbi_max info) (mh_miniblockNum header)); [lia|]. done.
Qed.

(** The range only grows: whatever header is applied, with whatever bounds, the
    newest miniblock never goes down, the oldest never up, and the first header of
    a view makes both. *)
Theorem miniblock_range_grows header update_max update_min s :
  exists info, post (updateMiniblockInfo header update_max update_min s) = set_miniblockInfo (Some info) s
  /\ match miniblockInfo s with
     | None => mbi_max info = mh_miniblockNum header /\ mbi_min info = mh_miniblockNum header
     | Some old => mbi_max old <= mbi_max info /\ mbi_min info <= mbi_min old
                   /\ (mbi_terminusReached old = true -> mbi_terminusReached info = true)
     end.
Proof.
  unfold updateMiniblockInfo. js_unfold. cbn [post].
  destruct (miniblockInfo s) as [old|]; cbn [post]; eexists; (split; [reflexivity|]); cbn; [|done].
  split_and!.
  - destruct (truthy_bigint update_max); [|lia]. destruct (Z.ltb_spec (mbi_max old) z); lia.
  - destruct (truthy_bigint update_min); [|lia]. destruct (Z.ltb_spec z (mbi_min old)); lia.
  - intros ->. by destruct (_ || _).
Qed.

(** Scrolling back to miniblock 0 does not lower the known minimum: the number
    [0n] is falsy, so the bound is skipped, and the view does not notice from it
    that the beginning was reached. *)
Theorem prepended_zero_keeps_min header s info :
  mh_miniblockNum header = 0 -> miniblockInfo s = Some info -> 0 < mbi_min info -> 0 < mbi_max info ->
  miniblockInfo (post (updateMiniblockInfo header None (Some (mh_miniblockNum header)) s)) = Some info.
Proof.
  intros Hz Hi H1 H2. unfold updateMiniblockInfo. js_unfold. cbn [post]. rewrite Hi, Hz. cbn.
  destruct (Z.eqb_spec (mbi_min info) 0); [lia|]. destruct (Z.eqb_spec (mbi_max info) 0); [lia|].
  by destruct info.
Qed.
End Confirm.

(** ** A concrete run *)

Definition demo_confirm_header : MiniblockHeader := mkMiniblockHeader 4 [] None [[x0a]; [x0b]] None 10 0 true.
Definition demo_remote (hash : string) : StreamTimelineEvent :=
  makeRemoteTimelineEvent (mkParsedEvent (mkStreamEvent [] [] [] None 0 0 (Some (Payload_channelPayload None)))
    [] hash None "u") 0 None None.
Definition demo_pending_view : t :=
  mk "20" "u" (C_channel (Channel.new "20")) {[0%nat := demo_remote "0a"; 1%nat := demo_remote "0b"]} 2%nat
    [0%nat; 1%nat] {["0a" := 0%nat; "0b" := 1%nat]} true None None 2 0
    (Some (mkMiniblockInfo 3 3 false)) None (Members.new "20").

Lemma header_confirms_events_witness :
  res (processMiniblockHeader demo_confirm_header [[x0a]; [x0b]] true demo_pending_view) = Ok [0%nat; 1%nat]
  /\ heap (post (processMiniblockHeader demo_confirm_header [[x0a]; [x0b]] true demo_pending_view)) !! 1%nat
     = Some (confirmed_at demo_confirm_header 1 (demo_remote "0b")).
Proof.
  destruct (header_confirms_events demo_confirm_header [[x0a]; [x0b]] [0%nat; 1%nat] true demo_pending_view)
    as (H1 & _ & H3 & _).
  - repeat constructor.
  - apply (bool_decide_unpack _). vm_compute. done.
  - intros r Hr. assert (r = 0%nat \/ r = 1%nat) as [-> | ->] by set_solver; eexists; split; reflexivity.
  - split; intros e x; simpl; by rewrite lookup_empty.
  - split; [exact H1|]. apply (H3 1%nat 1%nat (demo_remote "0b")); reflexivity.
Defined.

Definition demo_stale : StreamTimelineEvent :=
  makeRemoteTimelineEvent (mkParsedEvent (mkStreamEvent [] [] [] None 0 0
    (Some (Payload_miniblockHeader (mkMiniblockHeader 3 [] None [] None 0 0 true)))) [] "0c" None "u") 2 None None.

Lemma stale_header_ignored_witness :
  processAppendedEvent 2%nat None true true (set_heap {[2%nat := demo_stale]} demo_pending_view)
  = Outcome (Ok None) (set_events (<["0c" := 2%nat]> (events demo_pending_view))
      (set_heap {[2%nat := demo_stale]} demo_pending_view)) [].
Proof.
  exact (stale_header_ignored 2%nat None true true (set_heap {[2%nat := demo_stale]} demo_pending_view)
    demo_stale (mkMiniblockHeader 3 [] None [] None 0 0 true) (mkMiniblockInfo 3 3 false)
    eq_refl eq_refl eq_refl eq_refl ltac:(simpl; lia)).
Defined.

Lemma prepended_zero_keeps_min_witness :
  miniblockInfo (post (updateMiniblockInfo (mkMiniblockHeader 0 [] None [] None 0 0 true) None (Some 0) demo_pending_view))
  = Some (mkMiniblockInfo 3 3 false).
Proof.
  apply (prepended_zero_keeps_min (mkMiniblockHeader 0 [] None [] None 0 0 true) demo_pending_view
    (mkMiniblockInfo 3 3 false)); [reflexivity|reflexivity|simpl; lia..].
Defined.
