(* ===== verification/Sign.v ===== *)
(** * Signed events (core/sdk/src/sign.ts and signerContext.ts)

    Events travel as envelopes: the serialized event, a framed Keccak-256 hash of
    it and a recoverable signature of the hash, made with the key of the user or
    with a device key the user has delegated to. The cryptography and the
    generated protobuf code are parameters. *)

From stdpp Require Import pretty.
From S2P Require Import Prelude Proto Externals ToyExternals Binary StreamId Types.

Record rpc_sig := mkRpcSig { sig_v : Z; sig_r : bytes; sig_s : bytes }.

Class Crypto := {
  (** ethereum-cryptography/utils: throws unless the length is one of those given
      (any length when none is given) *)
  assertBytes : bytes -> list nat -> result unit;
  (** ethereum-cryptography/keccak: [create], an [update] per element, [digest] *)
  keccak256_updates : list bytes -> bytes;
  (** ethereum-cryptography/secp256k1; [signSync] with [recovered] and not [der] *)
  signSync : bytes -> string -> result (bytes * Z);
  verify : bytes -> bytes -> id_arg -> result bool;
  recoverPublicKey : bytes -> bytes -> option Z -> result bytes;
  (** @ethereumjs/util *)
  hashPersonalMessage : bytes -> bytes;
  fromRpcSig : string -> result rpc_sig;
  ecrecover : bytes -> rpc_sig -> result bytes;
  (** generated protobuf code *)
  StreamEvent_toBinary : StreamEvent -> result bytes;
  StreamEvent_fromBinary : bytes -> result StreamEvent;
}.

(** The part of [ethers.Signer] and [ethers.Wallet] that is used. *)
Record Signer := mkSigner {
  signMessage : bytes -> result string;
  signer_getAddress : result string;
}.
Record Wallet := mkWallet { wallet_publicKey : string; wallet_privateKey : string }.

(** ** Byte arrays *)

(** [dst.set(src, offset)] where [src] fits. *)
Definition u8_set (src : bytes) (offset : nat) (dst : bytes) : bytes := list_inserts offset src dst.

(** [a.slice(-n)]. *)
Definition u8_slice_last (n : nat) (a : bytes) : bytes := drop (length a - n) a.

Definition bytes_of_Zs (l : list Z) : bytes := map byte_of_Z l.

Definition HASH_HEADER : bytes := bytes_of_Zs [67; 83; 66; 76; 65; 78; 67; 65].
Definition HASH_SEPARATOR : bytes := bytes_of_Zs [65; 66; 67; 68; 69; 70; 71; 62].
Definition HASH_FOOTER : bytes := bytes_of_Zs [60; 71; 70; 69; 68; 67; 66; 65].
Definition RIVER_SIG_HEADER : bytes := bytes_of_Zs [82; 73; 86; 69; 82; 83; 73; 71].

(** The loop of [numberToUint8Array64LE]; [>>>] works on 32 bits, so four rounds
    are enough for every non-negative integer. *)
Fixpoint number_loop (fuel : nat) (num : Z) (i : nat) (result : bytes) : bytes :=
  if num =? 0 then result
  else match fuel with
       | O => result
       | S fuel => number_loop fuel (Z.shiftr (num mod 2 ^ 32) 8) (S i)
                     (<[i := byte_of_Z (Z.land num 255)]> result)
       end.

Definition numberToUint8Array64LE (num : Z) : bytes := number_loop 4 num 0 (replicate 8 x00).

(** [DataView.setBigInt64] in little endian: the low 64 bits of [num]. *)
Definition bigintToUint8Array64LE (num : Z) : bytes :=
  map (fun i => byte_of_Z (Z.shiftr num (8 * i))) (seqZ 0 8).

Definition pushByteToUint8Array (arr : bytes) (byte : Z) : bytes :=
  <[length arr := byte_of_Z byte]> (u8_set arr 0 (replicate (length arr + 1) x00)).

(** A signer context; the private key thunk returns a constant. *)
Record SignerContext := mkSignerContext {
  signerPrivateKey : string;
  creatorAddress : bytes;
  delegateSig : option bytes;
  delegateExpiryEpochMs : option Z;
}.

Definition MS_PER_SECOND : Z := 1000.
Definition MS_PER_MINUTE : Z := MS_PER_SECOND * 60.
Definition MS_PER_HOUR : Z := MS_PER_MINUTE * 60.
Definition MS_PER_DAY : Z := MS_PER_HOUR * 24.

(** An expiry: a point in time, or an offset from now. *)
Inductive expiry_arg :=
| ExpiryAt (epochMs : Z)
| ExpiryIn (days hours minutes seconds : option Z).

Section Sign.
Context `{Externals, Crypto}.

Definition checkSignature (signature : bytes) : result unit := assertBytes signature [65%nat].

Definition checkHash (hash : bytes) : result unit := assertBytes hash [32%nat].

Definition riverHash (data : bytes) : result bytes :=
  assertBytes data [];;
  mret (keccak256_updates [HASH_HEADER; numberToUint8Array64LE (Z.of_nat (length data));
                           HASH_SEPARATOR; data; HASH_FOOTER]).

Definition riverDelegateHashSrc (devicePublicKey : bytes) (expiryEpochMs : Z) : result bytes :=
  assertBytes devicePublicKey [];;
  check (0 <=? expiryEpochMs) (Some "Expiry should be positive") None;;
  check ((length devicePublicKey =? 64) || (length devicePublicKey =? 65))%nat
    (Some "Bad public key") None;;
  let expiryBytes := bigintToUint8Array64LE expiryEpochMs in
  let retVal := replicate (length RIVER_SIG_HEADER + length devicePublicKey + length expiryBytes) x00 in
  let retVal := u8_set RIVER_SIG_HEADER 0 retVal in
  let retVal := u8_set devicePublicKey (length RIVER_SIG_HEADER) retVal in
  mret (u8_set expiryBytes (length RIVER_SIG_HEADER + length devicePublicKey) retVal).

Definition riverSign (hash : bytes) (privateKey : string) : result bytes :=
  checkHash hash;;
  '(sig, recovery) ← signSync hash privateKey;
  mret (pushByteToUint8Array sig recovery).

Definition riverVerifySignature (hash signature : bytes) (publicKey : id_arg) : result bool :=
  checkHash hash;;
  checkSignature signature;;
  verify (take 64 signature) hash publicKey.

Definition riverRecoverPubKey (hash signature : bytes) : result bytes :=
  checkHash hash;;
  checkSignature signature;;
  recoverPublicKey hash (take 64 signature) (Z_of_byte <$> signature !! 64%nat).

Definition publicKeyToAddress (publicKey : bytes) : result bytes :=
  assertBytes publicKey [64; 65]%nat;;
  let publicKey := if (length publicKey =? 65)%nat then drop 1 publicKey else publicKey in
  mret (u8_slice_last 20 (keccak256 publicKey)).

Definition publicKeyToUint8Array (publicKey : string) : result bytes :=
  check (startsWith publicKey "0x04" && (String.length publicKey =? 132)%nat)
    (Some "Bad public key") (Some Err_BAD_PUBLIC_KEY);;
  bin_fromHexString publicKey.

(** ** signerContext.ts *)

Definition key_bytes (key : id_arg) : result bytes :=
  match key with
  | IdString s => publicKeyToUint8Array s
  | IdBytes b => mret b
  end.

Definition checkDelegateSig (delegatePubKey creatorAddress : id_arg) (delegateSig : bytes)
    (expiryEpochMs : Z) : result unit :=
  delegatePubKey ← key_bytes delegatePubKey;
  creatorAddress ← key_bytes creatorAddress;
  hashSource ← riverDelegateHashSrc delegatePubKey expiryEpochMs;
  let hash := hashPersonalMessage hashSource in
  vrs ← fromRpcSig ("0x" +:+ bin_toHexString delegateSig);
  recoveredCreatorPubKey ← ecrecover hash vrs;
  recoveredCreatorAddress ← publicKeyToAddress recoveredCreatorPubKey;
  check (bin_equal (Some recoveredCreatorAddress) (Some creatorAddress))
    (Some "delegateSig does not match creatorAddress") (Some Err_BAD_DELEGATE_SIG).

Definition makeRiverDelegateSig (primaryWallet : Signer) (devicePubKey : id_arg) (expiryEpochMs : Z)
    : result bytes :=
  devicePubKey ← key_bytes devicePubKey;
  check (length devicePubKey =? 65)%nat (Some "Bad public key") (Some Err_BAD_PUBLIC_KEY);;
  hashSrc ← riverDelegateHashSrc devicePubKey expiryEpochMs;
  signed ← signMessage primaryWallet hashSrc;
  bin_fromHexString signed.

(** [now] is [Date.now()]; the counts are integers. *)
Definition makeExpiryEpochMs (now : Z) (days hours minutes seconds : option Z) : result Z :=
  let delta := 0 in
  let delta := match truthy_bigint days with Some n => delta + MS_PER_DAY * n | None => delta end in
  let delta := match truthy_bigint hours with Some n => delta + MS_PER_HOUR * n | None => delta end in
  let delta := match truthy_bigint minutes with Some n => delta + MS_PER_MINUTE * n | None => delta end in
  let delta := match truthy_bigint seconds with Some n => delta + MS_PER_SECOND * n | None => delta end in
  check (negb (delta =? 0)) (Some "Bad expiration, no values were set") None;;
  mret (now + delta).

Definition makeSignerContext (now : Z) (primaryWallet : Signer) (delegateWallet : Wallet)
    (inExpiryEpochMs : option expiry_arg) : result SignerContext :=
  expiryEpochMs ← match default (ExpiryAt 0) inExpiryEpochMs with
                  | ExpiryAt ms => mret ms
                  | ExpiryIn days hours minutes seconds => makeExpiryEpochMs now days hours minutes seconds
                  end;
  delegateSig ← makeRiverDelegateSig primaryWallet (IdString (wallet_publicKey delegateWallet)) expiryEpochMs;
  address ← signer_getAddress primaryWallet;
  creatorAddress ← bin_fromHexString address;
  mret (mkSignerContext (slice_from 2 (wallet_privateKey delegateWallet)) creatorAddress
          (Some delegateSig) (Some expiryEpochMs)).

(** ** Making events *)

(** [pl.value.content.case] is set. *)
Definition payload_content_set (payload : StreamEvent_payload) : bool :=
  match payload with
  | Payload_miniblockHeader v => mh_none v
  | Payload_memberPayload v => isDefined v
  | Payload_spacePayload v => isDefined v
  | Payload_channelPayload v => isDefined v
  | Payload_userPayload v => isDefined v
  | Payload_userSettingsPayload v => isDefined v
  | Payload_userDeviceKeyPayload v => isDefined v
  | Payload_userInboxPayload v => isDefined v
  | Payload_mediaPayload v => isDefined v
  | Payload_dmChannelPayload v => isDefined v
  | Payload_gdmChannelPayload v => isDefined v
  end.

(** [salt] is [genIdBlob()], [now] is [Date.now()]. *)
Definition _impl_makeEvent_impl_ (salt : bytes) (now : Z) (context : SignerContext)
    (payload : option StreamEvent_payload) (prevMiniblockHash : option bytes) : result Envelope :=
  let streamEvent := mkStreamEvent (creatorAddress context) [] salt prevMiniblockHash now 0 payload in
  let streamEvent :=
    match delegateSig context with
    | Some sig => mkStreamEvent (creatorAddress context) sig salt prevMiniblockHash now
                    (default 0 (delegateExpiryEpochMs context)) payload
    | None => streamEvent
    end in
  event ← StreamEvent_toBinary streamEvent;
  hash ← riverHash event;
  signature ← riverSign hash (signerPrivateKey context);
  mret (mkEnvelope hash signature event).

(** A payload without a case is [None]. *)
Definition makeEvent (salt : bytes) (now : Z) (context : SignerContext)
    (payload : option StreamEvent_payload) (prevMiniblockHash : option bytes) : result Envelope :=
  match payload with
  | None => throwWithCode (Some "Payload can't be empty") (Some Err_BAD_PAYLOAD)
  | Some pl =>
      check (payload_content_set pl) (Some "Payload content case can't be empty") (Some Err_BAD_PAYLOAD);;
      match prevMiniblockHash with
      | Some h => check (length h =? 32)%nat
                    (Some ("prevMiniblockHash should be 32 bytes, got " +:+ pretty (length h)))
                    (Some Err_BAD_HASH_FORMAT)
      | None => mret tt
      end;;
      _impl_makeEvent_impl_ salt now context (Some pl) prevMiniblockHash
  end.

(** Each call draws its own salt and time. *)
Fixpoint makeEvents (entropy : nat -> bytes * Z) (context : SignerContext)
    (payloads : list (option StreamEvent_payload)) (prevMiniblockHash : option bytes)
    : result (list Envelope) :=
  match payloads with
  | [] => mret []
  | payload :: payloads =>
      event ← makeEvent (entropy O).1 (entropy O).2 context payload prevMiniblockHash;
      events ← makeEvents (fun i => entropy (S i)) context payloads prevMiniblockHash;
      mret (event :: events)
  end.

Definition makeEventRef (streamId : id_arg) (event : Envelope) : result EventRef :=
  streamId ← streamIdAsBytes streamId;
  mret (mkEventRef streamId (env_hash event) (env_signature event)).

(** ** Unpacking *)

(** The checks of an envelope: its hash, and the signature by the creator or by a
    device the creator has delegated to. *)
Definition checkEnvelope (envelope : Envelope) (event : StreamEvent) : result unit :=
  hash ← riverHash (env_event envelope);
  check (bin_equal (Some hash) (Some (env_hash envelope)))
    (Some "Event id is not valid") (Some Err_BAD_EVENT_ID);;
  recoveredPubKey ← riverRecoverPubKey hash (env_signature envelope);
  if negb (hasElements (Some (se_delegateSig event)))
  then
    address ← publicKeyToAddress recoveredPubKey;
    check (bin_equal (Some address) (Some (se_creatorAddress event)))
      (Some "Event signature is not valid") (Some Err_BAD_EVENT_SIGNATURE)
  else
    checkDelegateSig (IdBytes recoveredPubKey) (IdBytes (se_creatorAddress event))
      (se_delegateSig event) (se_delegateExpiryEpochMs event).

Definition unpackEnvelope (envelope : Envelope) (disableChecks : bool) : result ParsedEvent :=
  check (hasElements (Some (env_event envelope))) (Some "Event base is not set") (Some Err_BAD_EVENT);;
  check (hasElements (Some (env_hash envelope))) (Some "Event hash is not set") (Some Err_BAD_EVENT);;
  check (hasElements (Some (env_signature envelope))) (Some "Event signature is not set") (Some Err_BAD_EVENT);;
  event ← StreamEvent_fromBinary (env_event envelope);
  (if negb disableChecks then checkEnvelope envelope event else mret tt);;
  creatorUserId ← userIdFromAddress (se_creatorAddress event);
  mret (mkParsedEvent event (env_hash envelope) (bin_toHexString (env_hash envelope))
          (bin_toHexString <$> se_prevMiniblockHash event) creatorUserId).

Fixpoint unpackEnvelopes (event : list Envelope) (disableChecks : bool) : result (list ParsedEvent) :=
  match event with
  | [] => mret []
  | e :: event =>
      parsed ← unpackEnvelope e disableChecks;
      rest ← unpackEnvelopes event disableChecks;
      mret (parsed :: rest)
  end.

Definition payload_case (payload : option StreamEvent_payload) : string :=
  match payload with
  | Some (Payload_miniblockHeader _) => "miniblockHeader"
  | Some (Payload_memberPayload _) => "memberPayload"
  | Some (Payload_spacePayload _) => "spacePayload"
  | Some (Payload_channelPayload _) => "channelPayload"
  | Some (Payload_userPayload _) => "userPayload"
  | Some (Payload_userSettingsPayload _) => "userSettingsPayload"
  | Some (Payload_userDeviceKeyPayload _) => "userDeviceKeyPayload"
  | Some (Payload_userInboxPayload _) => "userInboxPayload"
  | Some (Payload_mediaPayload _) => "mediaPayload"
  | Some (Payload_dmChannelPayload _) => "dmChannelPayload"
  | Some (Payload_gdmChannelPayload _) => "gdmChannelPayload"
  | None => "undefined"
  end.

Definition unpackMiniblock (miniblock : Miniblock) (disableChecks : bool) : result ParsedMiniblock :=
  match mb_header miniblock with
  | None => throwWithCode (Some "Miniblock header is not set") None
  | Some envelope =>
      header ← unpackEnvelope envelope disableChecks;
      match se_payload (pe_event header) with
      | Some (Payload_miniblockHeader value) =>
          events ← unpackEnvelopes (mb_events miniblock) disableChecks;
          mret (mkParsedMiniblock (env_hash envelope) value (events ++ [header]))
      | payload => throwWithCode
          (Some ("bad miniblock header: wrong case received: " +:+ payload_case payload)) None
      end
  end.

(** The number of [await]s a failing [unpackMiniblock] has passed when it rejects:
    none without a header, one after the header was unpacked, and one per event up
    to the failing one, one more for [unpackEnvelopes] to be awaited. *)
Fixpoint unpackEnvelopes_awaits (event : list Envelope) (disableChecks : bool) : nat :=
  match event with
  | [] => 0
  | e :: event =>
      match unpackEnvelope e disableChecks with
      | Throw _ => 1
      | Ok _ => S (unpackEnvelopes_awaits event disableChecks)
      end
  end.

Definition unpackMiniblock_awaits (miniblock : Miniblock) (disableChecks : bool) : nat :=
  match mb_header miniblock with
  | None => 0
  | Some envelope =>
      match unpackEnvelope envelope disableChecks with
      | Throw _ => 1
      | Ok header =>
          match se_payload (pe_event header) with
          | Some (Payload_miniblockHeader _) =>
              2 + unpackEnvelopes_awaits (mb_events miniblock) disableChecks
          | _ => 1
          end
      end
  end.
End Sign.

(** [Promise.all]: the values in order when every promise is fulfilled, else the
    reason of the one that rejects first. Jobs are run in the order they were
    queued, so a promise rejects first when it has passed the fewest [await]s, and
    among equals when it comes first in the array. *)
Fixpoint first_rejection {A} (l : list (nat * result A)) : option (nat * js_error) :=
  match l with
  | [] => None
  | (_, Ok _) :: l => first_rejection l
  | (n, Throw e) :: l =>
      match first_rejection l with
      | Some (m, e') => if (m <? n)%nat then Some (m, e') else Some (n, e)
      | None => Some (n, e)
      end
  end.

Fixpoint fulfilled {A} (l : list (nat * result A)) : list A :=
  match l with
  | [] => []
  | (_, Ok a) :: l => a :: fulfilled l
  | (_, Throw _) :: l => fulfilled l
  end.

Definition promise_all {A} (l : list (nat * result A)) : result (list A) :=
  match first_rejection l with
  | Some (_, e) => Throw e
  | None => Ok (fulfilled l)
  end.

Section UnpackStream.
Context `{Externals, Crypto}.

Definition unpackStreamAndCookie (streamAndCookie : StreamAndCookie) : result ParsedStreamAndCookie :=
  match sac_nextSyncCookie streamAndCookie with
  | None => Throw (JsError "bad stream: no cookie")
  | Some nextSyncCookie =>
      miniblocks ← promise_all (map (fun mb => (unpackMiniblock_awaits mb false, unpackMiniblock mb false))
                                  (sac_miniblocks streamAndCookie));
      events ← unpackEnvelopes (sac_events streamAndCookie) false;
      mret (mkParsedStreamAndCookie nextSyncCookie miniblocks events)
  end.

(** The second argument of [flatMap] is the [this] of the callback: the event ids
    of the minipool, which are passed there, are not used. *)
Definition stream_eventIds (streamAndCookie : ParsedStreamAndCookie) : list string :=
  flat_map (fun mb => map pe_hashStr (pmb_events mb)) (psc_miniblocks streamAndCookie).

Definition unpackStream (stream : option StreamAndCookie) : result ParsedStreamResponse :=
  match stream with
  | None => Throw (JsError "bad stream")
  | Some stream =>
      streamAndCookie ← unpackStreamAndCookie stream;
      let shown := streamIdAsString (IdBytes (sc_streamId (psc_nextSyncCookie streamAndCookie))) in
      assert (0 <? length (sac_miniblocks stream))%nat ("bad stream: no blocks " +:+ shown);;
      match psc_miniblocks streamAndCookie with
      | [] => Throw (JsError "Cannot read properties of undefined (reading 'header')")
      | block0 :: _ =>
          match mh_snapshot (pmb_header block0) with
          | None => Throw (JsError ("bad block: snapshot is undefined " +:+ shown))
          | Some snapshot =>
              mret (mkParsedStreamResponse snapshot streamAndCookie
                      (mh_prevSnapshotMiniblockNum (pmb_header block0)) (stream_eventIds streamAndCookie))
          end
      end
  end.

Definition unpackStreamEx (miniblocks : list Miniblock) : result ParsedStreamResponse :=
  unpackStream (Some (mkStreamAndCookie [] (Some (mkSyncCookie [] [] 0 0 [])) miniblocks false)).

Fixpoint unpack_all (miniblocks : list Miniblock) : result (list ParsedEvent) :=
  match miniblocks with
  | [] => mret []
  | mb :: miniblocks =>
      events ← unpackEnvelopes (mb_events mb) false;
      header ← match mb_header mb with
               | Some header => unpackEnvelope header false
               | None => Throw (JsError "Cannot read properties of undefined (reading 'event')")
               end;
      rest ← unpack_all miniblocks;
      mret (events ++ header :: rest)
  end.

Definition unpackStreamEnvelopes (stream : StreamAndCookie) : result (list ParsedEvent) :=
  blocks ← unpack_all (sac_miniblocks stream);
  events ← unpackEnvelopes (sac_events stream) false;
  mret (blocks ++ events).
End UnpackStream.
