(* ===== verification/Envelopes.v ===== *)
(** * What a signed event guarantees

    The documented behaviour of the cryptography the proofs rely on, a concrete
    instance of it, the encodings that are hashed and signed, soundness of the
    envelope checks and the round trip from [makeEvent] to [unpackEnvelope]. *)

From S2P Require Import Prelude Proto Externals ToyExternals Binary StreamId Types Sign.

#[global] Instance byte_eq_decision : EqDecision byte := Byte.byte_eq_dec.
#[global] Instance bytes_eq_decision : EqDecision bytes.
Proof. unfold bytes. apply _. Defined.

(** ** Documented behaviour *)

Class CryptoLaws `{Externals, Crypto} : Prop := {
  assertBytes_spec : forall b lens, assertBytes b lens = Ok tt <-> lens = [] \/ length b ∈ lens;
  keccak256_updates_spec : forall l, keccak256_updates l = keccak256 (concat l);
}.

(** [hexToBytes] accepts a [0x] prefix and makes one byte of two digits. *)
Class Hex0xLaws `{Externals} : Prop := {
  hexToBytes_0x_length : forall s b, startsWith s "0x" = true -> hexToBytes s = Ok b ->
    String.length s = (2 + 2 * length b)%nat;
}.

(** Key pairs: [getPublicKey] is the uncompressed public key of a valid private
    key; what the key signs, the recovery reads the public key back from. *)
Class KeyPairLaws `{Crypto} (validKey : string -> Prop) (getPublicKey : string -> bytes) : Prop := {
  signSync_recovers : forall hash key, validKey key -> length hash = 32%nat ->
    exists sig recovery, signSync hash key = Ok (sig, recovery) /\ length sig = 64%nat
      /\ 0 <= recovery < 4 /\ recoverPublicKey hash sig (Some recovery) = Ok (getPublicKey key);
  getPublicKey_length : forall key, validKey key -> length (getPublicKey key) = 65%nat;
}.

(** A serialized event is read back as it was, and is not empty when the creator is
    set. *)
Class EventBinaryLaws `{Crypto} : Prop := {
  event_binary_roundtrip : forall e b, StreamEvent_toBinary e = Ok b -> StreamEvent_fromBinary b = Ok e;
  event_binary_nonempty : forall e b, StreamEvent_toBinary e = Ok b -> se_creatorAddress e <> [] -> b <> [];
}.

Section Wallets.
Context `{Externals, Crypto}.

(** [w] signs personal messages with the key pair of the public key [pub] (64
    bytes) and tells its address. *)
Definition signer_of (pub : bytes) (w : Signer) : Prop :=
  length pub = 64%nat
  /\ (forall src, exists signed sig vrs, signMessage w src = Ok signed /\ hexToBytes signed = Ok sig
        /\ sig <> [] /\ fromRpcSig ("0x" +:+ bytesToHex sig) = Ok vrs
        /\ ecrecover (hashPersonalMessage src) vrs = Ok pub)
  /\ exists address, signer_getAddress w = Ok address
        /\ hexToBytes address = Ok (u8_slice_last 20 (keccak256 pub)).

(** [w] is the wallet of the private key [key] with the public key [pub]. *)
Definition wallet_of (key : string) (pub : bytes) (w : Wallet) : Prop :=
  wallet_privateKey w = "0x" +:+ key /\ startsWith (wallet_publicKey w) "0x04" = true
  /\ String.length (wallet_publicKey w) = 132%nat /\ hexToBytes (wallet_publicKey w) = Ok pub.
End Wallets.

(** The number a little-endian byte array stands for. *)
Fixpoint le_value (b : bytes) : Z :=
  match b with
  | [] => 0
  | x :: b => Z_of_byte x + 256 * le_value b
  end.

(** ** Byte arrays *)

Lemma Z_of_byte_of_Z z : Z_of_byte (byte_of_Z z) = z mod 256.
Proof.
  unfold byte_of_Z, Z_of_byte. pose proof (Z.mod_pos_bound z 256 ltac:(lia)) as Hb.
  destruct (Byte.of_N (Z.to_N (z mod 256))) as [b|] eqn:Hx.
  - apply Byte.to_of_N in Hx. rewrite Hx. lia.
  - apply Byte.of_N_None_iff in Hx. lia.
Qed.

Lemma Z_of_byte_bound b : 0 <= Z_of_byte b < 256.
Proof. unfold Z_of_byte. pose proof (Byte.to_N_bounded b). lia. Qed.

Lemma Z_of_byte_inj a b : Z_of_byte a = Z_of_byte b -> a = b.
Proof.
  unfold Z_of_byte. intros Heq. apply (inj Z.of_N), (f_equal Byte.of_N) in Heq.
  rewrite !Byte.of_to_N in Heq. congruence.
Qed.

Lemma u8_set_at (a b c d : bytes) :
  length c = length b -> u8_set b (length a) (a ++ c ++ d) = a ++ b ++ d.
Proof.
  unfold u8_set. revert a c. induction b as [|x b IH]; intros a [|y c] Hc; simplify_eq/=; [done|].
  pose proof (IH (a ++ [y]) c Hc) as IH'. rewrite length_app in IH'. simpl in IH'.
  rewrite Nat.add_1_r in IH'. rewrite <-!app_assoc in IH'. simpl in IH'. rewrite IH'.
  by rewrite insert_app_r_alt, Nat.sub_diag by lia.
Qed.

Lemma pushByte_spec arr byte : pushByteToUint8Array arr byte = arr ++ [byte_of_Z byte].
Proof.
  unfold pushByteToUint8Array. rewrite replicate_add.
  pose proof (u8_set_at [] arr (replicate (length arr) x00) (replicate 1 x00)) as Hs.
  cbn [length app] in Hs. rewrite Hs by apply length_replicate.
  unfold bytes. by rewrite insert_app_r_alt, Nat.sub_diag by lia.
Qed.

Lemma le_value_inj a b : length a = length b -> le_value a = le_value b -> a = b.
Proof.
  revert b. induction a as [|x a IH]; intros [|y b] Hl Hv; simplify_eq/=; [done|].
  pose proof (Z_of_byte_bound x). pose proof (Z_of_byte_bound y).
  assert (Z_of_byte x = Z_of_byte y /\ le_value a = le_value b) as [Hx Ha] by lia.
  apply Z_of_byte_inj in Hx as ->. f_equal. auto.
Qed.

(** ** The two integer encodings *)

Lemma le_value_bytes_from (n : nat) k z : 0 <= k ->
  le_value (map (fun i => byte_of_Z (Z.shiftr z (8 * i))) (seqZ k (Z.of_nat n)))
  = Z.shiftr z (8 * k) mod 2 ^ (8 * Z.of_nat n).
Proof.
  revert k. induction n as [|n IH]; intros k Hk; [by rewrite Z.mod_1_r|].
  rewrite seqZ_cons by lia. cbn [map le_value]. rewrite Z_of_byte_of_Z.
  replace (Z.pred (Z.of_nat (S n))) with (Z.of_nat n) by lia. rewrite IH by lia.
  replace (8 * Z.of_nat (S n)) with (8 + 8 * Z.of_nat n) by lia.
  rewrite Z.pow_add_r by lia. rewrite Z.rem_mul_r by lia.
  replace (8 * Z.succ k) with (8 * k + 8) by lia.
  rewrite <-(Z.shiftr_shiftr z (8 * k) 8) by lia. rewrite (Z.shiftr_div_pow2 (Z.shiftr z (8 * k)) 8) by lia.
  change (2 ^ 8) with 256. lia.
Qed.

Lemma bigint_length z : length (bigintToUint8Array64LE z) = 8%nat.
Proof. done. Qed.

Lemma le_value_bigint z : le_value (bigintToUint8Array64LE z) = z mod 2 ^ 64.
Proof.
  pose proof (le_value_bytes_from 8 0 z ltac:(lia)) as Hv. by rewrite Z.shiftr_0_r in Hv.
Qed.

(** A round of the loop with the byte it writes; [n] the rounds that are enough. *)
Lemma number_loop_spec (n : nat) fuel num (a z : bytes) :
  0 <= num < 2 ^ (8 * Z.of_nat n) -> (n <= 4)%nat -> (n <= fuel)%nat -> (n <= length z)%nat ->
  le_value z = 0 ->
  exists b, number_loop fuel num (length a) (a ++ z) = a ++ b /\ length b = length z /\ le_value b = num.
Proof.
  revert fuel num a z. induction n as [|n IH]; intros fuel num a z Hn Hn4 Hf Hz Hz0.
  { exists z. assert (num = 0) as -> by (simpl in Hn; lia). by destruct fuel. }
  destruct fuel as [|fuel]; [lia|]. destruct z as [|z0 z]; [simpl in Hz; lia|].
  pose proof (Z_of_byte_bound z0) as Hz0b. cbn [le_value] in Hz0.
  assert (le_value z = 0) as Hlz by lia.
  cbn [number_loop]. destruct (Z.eqb_spec num 0) as [->|Hnz].
  { exists (z0 :: z). simpl. split_and!; lia || done. }
  unfold bytes. rewrite insert_app_r_alt, Nat.sub_diag by lia. cbn.
  assert (Hpow : 2 ^ (8 * Z.of_nat (S n)) <= 2 ^ 32) by (apply Z.pow_le_mono_r; lia).
  rewrite (Z.mod_small num) by lia.
  assert (Hs : Z.shiftr num 8 = num / 256) by (by rewrite Z.shiftr_div_pow2 by lia).
  replace (8 * Z.of_nat (S n)) with (8 + 8 * Z.of_nat n) in Hn by lia.
  rewrite Z.pow_add_r in Hn by lia. change (2 ^ 8) with 256 in Hn.
  destruct (IH fuel (num / 256) (a ++ [byte_of_Z (Z.land num 255)]) z) as (b & Hb & Hl & Hv);
    [|simpl in Hz; lia..|done|].
  { split; [apply Z.div_pos; lia|]. apply Z.div_lt_upper_bound; lia. }
  exists (byte_of_Z (Z.land num 255) :: b). rewrite Hs.
  rewrite length_app, Nat.add_1_r, <-!app_assoc in Hb. simpl in Hb. rewrite Hb.
  split_and!; [done|simpl; lia|]. cbn [le_value]. rewrite Hv, Z_of_byte_of_Z.
  change 255 with (Z.ones 8). rewrite Z.land_ones by lia. change (2 ^ 8) with 256.
  rewrite Zmod_mod. pose proof (Z.div_mod num 256). lia.
Qed.

Lemma number_loop_fuel (n : nat) f1 f2 num i (r : bytes) :
  0 <= num < 2 ^ (8 * Z.of_nat n) -> (n <= 4)%nat -> (n <= f1)%nat -> (n <= f2)%nat ->
  number_loop f1 num i r = number_loop f2 num i r.
Proof.
  revert f1 f2 num i r. induction n as [|n IH]; intros f1 f2 num i r Hn Hn4 H1 H2.
  { assert (num = 0) as -> by (simpl in Hn; lia). by destruct f1, f2. }
  destruct f1 as [|f1], f2 as [|f2]; try lia. cbn [number_loop]. destruct (num =? 0); [done|].
  assert (Hpow : 2 ^ (8 * Z.of_nat (S n)) <= 2 ^ 32) by (apply Z.pow_le_mono_r; lia).
  rewrite (Z.mod_small num) by lia. apply IH; try lia.
  replace (8 * Z.of_nat (S n)) with (8 + 8 * Z.of_nat n) in Hn by lia.
  rewrite Z.pow_add_r in Hn by lia. rewrite Z.shiftr_div_pow2 by lia.
  split; [apply Z.div_pos; lia|apply Z.div_lt_upper_bound; lia].
Qed.

(** Whatever the number, the first round leaves at most 24 bits. *)
Lemma number_loop_first f1 f2 num i (r : bytes) :
  (3 <= f1)%nat -> (3 <= f2)%nat -> number_loop (S f1) num i r = number_loop (S f2) num i r.
Proof.
  intros H1 H2. cbn [number_loop]. destruct (num =? 0); [done|].
  apply (number_loop_fuel 3); try lia.
  pose proof (Z.mod_pos_bound num (2 ^ 32) ltac:(lia)). rewrite Z.shiftr_div_pow2 by lia.
  split; [apply Z.div_pos; lia|apply Z.div_lt_upper_bound; lia].
Qed.

Lemma number_loop_terminates fuel num i (r : bytes) :
  (4 <= fuel)%nat -> number_loop fuel num i r = number_loop 4 num i r.
Proof.
  intros Hf. destruct fuel as [|fuel]; [lia|]. apply number_loop_first; lia.
Qed.

Lemma number_length num : length (numberToUint8Array64LE num) = 8%nat.
Proof.
  unfold numberToUint8Array64LE. cbn [number_loop].
  repeat (case_match; rewrite ?length_insert; try done).
Qed.

(** ** What is hashed *)

Section Hashing.
Context `{Externals, Crypto} `{!CryptoLaws}.

Definition riverHash_src (data : bytes) : bytes :=
  HASH_HEADER ++ numberToUint8Array64LE (Z.of_nat (length data)) ++ HASH_SEPARATOR ++ data ++ HASH_FOOTER.

Lemma assertBytes_any b : assertBytes b [] = Ok tt.
Proof. apply assertBytes_spec. by left. Qed.

Lemma riverHash_spec data : riverHash data = Ok (keccak256 (riverHash_src data)).
Proof.
  unfold riverHash. rewrite assertBytes_any. res_simpl.
  rewrite keccak256_updates_spec. cbn [concat]. by rewrite app_nil_r.
Qed.

Lemma riverHash_src_inj a b : riverHash_src a = riverHash_src b -> a = b.
Proof.
  unfold riverHash_src. intros Heq. apply app_inv_head in Heq.
  apply app_inj_1 in Heq as [_ Heq]; [|by rewrite !number_length].
  apply app_inv_head in Heq. by apply app_inv_tail in Heq.
Qed.

Lemma riverDelegateHashSrc_spec key expiry :
  riverDelegateHashSrc key expiry
  = if 0 <=? expiry
    then if ((length key =? 64) || (length key =? 65))%nat
         then Ok (RIVER_SIG_HEADER ++ key ++ bigintToUint8Array64LE expiry)
         else Throw (CodeException "Bad public key" Err_ERR_UNSPECIFIED)
    else Throw (CodeException "Expiry should be positive" Err_ERR_UNSPECIFIED).
Proof.
  unfold riverDelegateHashSrc, check, throwWithCode. rewrite assertBytes_any. res_simpl.
  destruct (0 <=? expiry); res_simpl; [|done]. destruct (_ || _)%nat; res_simpl; [|done]. f_equal.
  rewrite bigint_length. change (length RIVER_SIG_HEADER) with 8%nat.
  rewrite !replicate_add, <-app_assoc.
  pose proof (u8_set_at [] RIVER_SIG_HEADER (replicate 8 x00)) as Hhead. cbn [length app] in Hhead.
  rewrite Hhead by done.
  pose proof (u8_set_at RIVER_SIG_HEADER key (replicate (length key) x00)) as Hkey.
  change (length RIVER_SIG_HEADER) with 8%nat in Hkey. rewrite Hkey by apply length_replicate.
  pose proof (u8_set_at (RIVER_SIG_HEADER ++ key) (bigintToUint8Array64LE expiry) (replicate 8 x00) []) as Hexp.
  rewrite length_app, !app_nil_r, <-!app_assoc in Hexp. change (length RIVER_SIG_HEADER) with 8%nat in Hexp.
  by apply Hexp.
Qed.

Lemma check_Ok v m c : check v m c = Ok tt <-> v = true.
Proof. unfold check, throwWithCode. by destruct v. Qed.

Lemma bin_equal_refl `{!EqualsBytesLaws} a : bin_equal (Some a) (Some a) = true.
Proof. unfold bin_equal. destruct (_ && _); [done|]. by apply equalsBytes_spec. Qed.

Lemma bin_equal_eq `{!EqualsBytesLaws} a b : bin_equal (Some a) (Some b) = true -> a = b.
Proof.
  unfold bin_equal, bin_absent. destruct a as [|x a], b as [|y b]; cbn [length Nat.eqb andb]; try done.
  all: intros Heq; by apply equalsBytes_spec in Heq.
Qed.
End Hashing.

(** ** Soundness of the checks *)

Section Soundness.
Context `{Externals, Crypto} `{!CryptoLaws} `{!EqualsBytesLaws}.

(** The public key [pub] speaks for [creator]: it is the creator's own key, or the
    creator has signed it together with the expiry. *)
Definition speaks_for (pub creator sig : bytes) (expiry : Z) : Prop :=
  if decide (sig = []) then publicKeyToAddress pub = Ok creator
  else exists src vrs creatorPub,
    riverDelegateHashSrc pub expiry = Ok src
    /\ fromRpcSig ("0x" +:+ bin_toHexString sig) = Ok vrs
    /\ ecrecover (hashPersonalMessage src) vrs = Ok creatorPub
    /\ publicKeyToAddress creatorPub = Ok creator.

Lemma checkDelegateSig_Ok pub creator sig expiry :
  checkDelegateSig (IdBytes pub) (IdBytes creator) sig expiry = Ok tt
  <-> exists src vrs creatorPub, riverDelegateHashSrc pub expiry = Ok src
        /\ fromRpcSig ("0x" +:+ bin_toHexString sig) = Ok vrs
        /\ ecrecover (hashPersonalMessage src) vrs = Ok creatorPub
        /\ publicKeyToAddress creatorPub = Ok creator.
Proof.
  unfold checkDelegateSig, key_bytes. res_simpl. split.
  - intros Hx. split_Ok Hx. apply check_Ok, bin_equal_eq in Hx as ->. eauto 10.
  - intros (src & vrs & cp & Hs & Hf & He & Hp). rewrite Hs, Hf. res_simpl. rewrite He. res_simpl.
    rewrite Hp. res_simpl. apply check_Ok, bin_equal_refl.
Qed.

Lemma riverRecoverPubKey_Ok hash signature pub :
  riverRecoverPubKey hash signature = Ok pub
  <-> length hash = 32%nat /\ length signature = 65%nat
      /\ recoverPublicKey hash (take 64 signature) (Z_of_byte <$> signature !! 64%nat) = Ok pub.
Proof.
  unfold riverRecoverPubKey, checkHash, checkSignature. rewrite !result_bind_Ok. split.
  - intros ([] & Hh & ([] & Hs & Hr)%result_bind_Ok).
    apply assertBytes_spec in Hh as [?|Hh]; [done|]. apply assertBytes_spec in Hs as [?|Hs]; [done|].
    split_and!; [set_solver..|done].
  - intros (Hh & Hs & Hr). exists tt. split; [apply assertBytes_spec; right; set_solver|].
    apply result_bind_Ok. exists tt. split; [apply assertBytes_spec; right; set_solver|done].
Qed.

Lemma checkEnvelope_Ok env ev :
  checkEnvelope env ev = Ok tt
  <-> env_hash env = keccak256 (riverHash_src (env_event env))
      /\ exists pub, riverRecoverPubKey (env_hash env) (env_signature env) = Ok pub
         /\ speaks_for pub (se_creatorAddress ev) (se_delegateSig ev) (se_delegateExpiryEpochMs ev).
Proof.
  unfold checkEnvelope, speaks_for. rewrite riverHash_spec. res_simpl. rewrite result_bind_Ok. split.
  - intros ([] & Hh & Hx). apply check_Ok, bin_equal_eq in Hh as Hh'. rewrite Hh' in *.
    apply result_bind_Ok in Hx as (pub & Hp & Hx). split; [done|]. exists pub. split; [done|].
    destruct (se_delegateSig ev); cbn [hasElements length Nat.ltb Nat.leb negb] in Hx; case_decide; try done.
    + split_Ok Hx. apply check_Ok, bin_equal_eq in Hx as ->. done.
    + by apply checkDelegateSig_Ok.
  - intros (Hh & pub & Hp & Hs). exists tt. split; [by rewrite Hh; apply check_Ok, bin_equal_refl|].
    rewrite <-Hh, Hp. res_simpl.
    destruct (se_delegateSig ev); cbn [hasElements length Nat.ltb Nat.leb negb]; case_decide; try done.
    + rewrite Hs. res_simpl. apply check_Ok, bin_equal_refl.
    + by apply checkDelegateSig_Ok.
Qed.

(** What unpacking with checks accepts, exactly. *)
Lemma unpackEnvelope_Ok env p :
  unpackEnvelope env false = Ok p
  <-> env_event env <> [] /\ StreamEvent_fromBinary (env_event env) = Ok (pe_event p)
      /\ checkEnvelope env (pe_event p) = Ok tt
      /\ userIdFromAddress (se_creatorAddress (pe_event p)) = Ok (pe_creatorUserId p)
      /\ env_hash env <> [] /\ env_signature env <> []
      /\ p = mkParsedEvent (pe_event p) (env_hash env) (bin_toHexString (env_hash env))
               (bin_toHexString <$> se_prevMiniblockHash (pe_event p)) (pe_creatorUserId p).
Proof.
  unfold unpackEnvelope. cbn [negb]. split.
  - intros Hx. split_Ok Hx. apply check_Ok in Ha, Ha0, Ha1. injection Hx as <-. cbn [pe_event pe_creatorUserId].
    destruct (env_event env), (env_hash env), (env_signature env); try done.
  - intros (He & Hb & Hc & Hu & Hh & Hs & ->). cbn in *.
    destruct (env_event env) eqn:E1, (env_hash env) eqn:E2, (env_signature env) eqn:E3; try done.
    cbn [hasElements length Nat.ltb Nat.leb check]. res_simpl. rewrite Hb. res_simpl.
    rewrite Hc. res_simpl. rewrite Hu. done.
Qed.
End Soundness.

(** ** From the signer to the reader *)

Section RoundTrip.
Context `{Externals, Crypto} `{!CryptoLaws} `{!EqualsBytesLaws} `{!KeccakLaws} `{!AddressLaws}.
Context `{!EventBinaryLaws} (validKey : string -> Prop) (getPublicKey : string -> bytes).
Context `{!KeyPairLaws validKey getPublicKey}.

(** The event a context makes of a payload. *)
Definition event_made (salt : bytes) (now : Z) (context : SignerContext) (payload : StreamEvent_payload)
    (prevMiniblockHash : option bytes) : StreamEvent :=
  mkStreamEvent (creatorAddress context) (default [] (delegateSig context)) salt prevMiniblockHash now
    (match delegateSig context with
     | Some _ => default 0 (delegateExpiryEpochMs context)
     | None => 0
     end) (Some payload).

Lemma userIdFromAddress_20 a : length a = 20%nat -> exists u, userIdFromAddress a = Ok u.
Proof. intros Ha. destruct (getAddress_hex a Ha) as (u & Hu & _). by exists u. Qed.

Lemma slice_last_length n (a : bytes) : (n <= length a)%nat -> length (u8_slice_last n a) = n.
Proof. intros Hn. unfold u8_slice_last. rewrite length_drop. lia. Qed.

Lemma riverSign_recovers hash key :
  validKey key -> length hash = 32%nat ->
  exists signature, riverSign hash key = Ok signature /\ signature <> []
    /\ riverRecoverPubKey hash signature = Ok (getPublicKey key).
Proof.
  intros Hk Hh. destruct (signSync_recovers hash key Hk Hh) as (sig & rec & Hsig & Hl & Hr & Hp).
  exists (sig ++ [byte_of_Z rec]). unfold riverSign, checkHash.
  rewrite (proj2 (assertBytes_spec hash [32%nat])) by (right; rewrite Hh; left).
  res_simpl. rewrite Hsig. res_simpl. rewrite pushByte_spec. split_and!; [done|by destruct sig|].
  apply riverRecoverPubKey_Ok. split_and!; [done|rewrite length_app; simpl; lia|].
  unfold bytes. rewrite take_app_length' by done.
  rewrite (list_lookup_middle sig [] _ 64%nat) by done. cbn [fmap option_fmap option_map].
  rewrite Z_of_byte_of_Z, Z.mod_small by lia. done.
Qed.

Lemma makeEvent_unpacked salt now context pl prev bin :
  let ev := event_made salt now context pl prev in
  validKey (signerPrivateKey context) -> length (creatorAddress context) = 20%nat ->
  speaks_for (getPublicKey (signerPrivateKey context)) (creatorAddress context)
    (se_delegateSig ev) (se_delegateExpiryEpochMs ev) ->
  payload_content_set pl = true -> (forall h, prev = Some h -> length h = 32%nat) ->
  StreamEvent_toBinary ev = Ok bin ->
  exists env p, makeEvent salt now context (Some pl) prev = Ok env /\ unpackEnvelope env false = Ok p
    /\ pe_event p = ev /\ pe_hash p = keccak256 (riverHash_src bin)
    /\ userIdFromAddress (creatorAddress context) = Ok (pe_creatorUserId p).
Proof.
  intros ev Hk Ha Hs Hpl Hprev Hbin.
  pose proof (keccak256_length (riverHash_src bin)) as Hlen.
  destruct (riverSign_recovers _ _ Hk Hlen) as (sig & Hsig & Hne & Hrec).
  destruct (userIdFromAddress_20 _ Ha) as (u & Hu).
  exists (mkEnvelope (keccak256 (riverHash_src bin)) sig bin).
  exists (mkParsedEvent ev (keccak256 (riverHash_src bin)) (bin_toHexString (keccak256 (riverHash_src bin)))
            (bin_toHexString <$> prev) u).
  split_and!; [|apply unpackEnvelope_Ok; split_and!|done..].
  - unfold makeEvent, _impl_makeEvent_impl_. rewrite Hpl.
    assert (Hto : StreamEvent_toBinary
      match delegateSig context with
      | Some sig => mkStreamEvent (creatorAddress context) sig salt prev now
                      (default 0 (delegateExpiryEpochMs context)) (Some pl)
      | None => mkStreamEvent (creatorAddress context) [] salt prev now 0 (Some pl)
      end = Ok bin) by (rewrite <-Hbin; unfold ev, event_made; by destruct (delegateSig context)).
    cbv zeta. rewrite Hto. cbn [check]. res_simpl.
    apply result_bind_Ok. exists tt. split.
    { destruct prev as [h|]; [|done]. apply check_Ok, Nat.eqb_eq. by apply Hprev. }
    rewrite riverHash_spec. res_simpl. rewrite Hsig. done.
  - cbn [env_event]. apply (event_binary_nonempty _ _ Hbin). cbn. by destruct (creatorAddress context).
  - by apply event_binary_roundtrip.
  - apply checkEnvelope_Ok. cbn [env_hash env_event env_signature pe_event]. split; [done|]. by exists (getPublicKey (signerPrivateKey context)).
  - done.
  - cbn [env_hash]. intros Heq. by rewrite Heq in Hlen.
  - done.
  - done.
Qed.

Lemma publicKeyToAddress_64 pub :
  length pub = 64%nat -> publicKeyToAddress pub = Ok (u8_slice_last 20 (keccak256 pub)).
Proof.
  intros Hl. unfold publicKeyToAddress.
  rewrite (proj2 (assertBytes_spec pub [64; 65]%nat)) by (right; rewrite Hl; left).
  res_simpl. by rewrite Hl.
Qed.

Lemma publicKeyToAddress_length pub a : publicKeyToAddress pub = Ok a -> length a = 20%nat.
Proof.
  unfold publicKeyToAddress. intros Hx. split_Ok Hx. injection Hx as <-.
  apply slice_last_length. rewrite keccak256_length. lia.
Qed.

(** The context of a delegated device key. *)
Lemma makeSignerContext_delegates now primary pub wallet key ms :
  signer_of pub primary -> validKey key -> wallet_of key (getPublicKey key) wallet -> 0 <= ms ->
  exists sig, sig <> []
    /\ makeSignerContext now primary wallet (Some (ExpiryAt ms))
       = Ok (mkSignerContext key (u8_slice_last 20 (keccak256 pub)) (Some sig) (Some ms))
    /\ speaks_for (getPublicKey key) (u8_slice_last 20 (keccak256 pub)) sig ms.
Proof.
  intros (Hl & Hsign & address & Haddr & Hhex) Hk (Hpriv & H04 & H132 & Hpub) Hms.
  pose proof (getPublicKey_length key Hk) as Hkl.
  pose proof (riverDelegateHashSrc_spec (getPublicKey key) ms) as Hsrc.
  rewrite Hkl in Hsrc. cbn [Nat.eqb orb] in Hsrc. rewrite (proj2 (Z.leb_le 0 ms)) in Hsrc by done.
  set (src := RIVER_SIG_HEADER ++ getPublicKey key ++ bigintToUint8Array64LE ms) in *.
  destruct (Hsign src) as (signed & sig & vrs & Hsigned & Hsig & Hne & Hvrs & Hrec).
  exists sig. split_and!; [done| |].
  - unfold makeSignerContext, makeRiverDelegateSig, key_bytes, publicKeyToUint8Array, bin_fromHexString.
    cbn [default from_option id]. res_simpl. rewrite H04, H132. cbn [andb Nat.eqb check]. res_simpl.
    rewrite Hpub. res_simpl. rewrite Hkl. cbn [Nat.eqb check]. res_simpl. rewrite Hsrc. res_simpl.
    rewrite Hsigned. res_simpl. rewrite Hsig. res_simpl. rewrite Haddr. res_simpl.
    rewrite Hhex. res_simpl. rewrite Hpriv. do 2 f_equal. exact (slice_from_app "0x" key).
  - unfold speaks_for. rewrite decide_False by done. exists src, vrs, pub.
    split_and!; [done..|]. by apply publicKeyToAddress_64.
Qed.
End RoundTrip.

(** ** Whole streams *)

Lemma promise_all_Ok {A} (l : list (nat * result A)) vs :
  promise_all l = Ok vs <-> Forall2 (fun x v => x.2 = Ok v) l vs.
Proof.
  assert (Hr : first_rejection l = None -> forall us, fulfilled l = us <-> Forall2 (fun x v => x.2 = Ok v) l us).
  { induction l as [|[n [a|e]] l IH]; cbn [first_rejection fulfilled].
    - intros _ us. split; [by intros <-|by intros ->%Forall2_nil_inv_l].
    - intros Hn us. specialize (IH Hn). split.
      + intros <-. constructor; [done|]. by apply IH.
      + intros (v & us' & Hv & Hf & ->)%Forall2_cons_inv_l. cbn in Hv. injection Hv as ->. f_equal. by apply IH.
    - destruct (first_rejection l) as [[m e']|]; [destruct (m <? n)%nat|]; done. }
  unfold promise_all. destruct (first_rejection l) as [[n e]|] eqn:Hf.
  - split; [done|]. clear Hr. revert n e vs Hf. induction l as [|[k [a|e0]] l IH]; cbn [first_rejection]; [done| |].
    + intros n e vs Hf (v & us & _ & Hus & _)%Forall2_cons_inv_l. discriminate (IH n e us Hf Hus).
    + intros n e vs _ (v & us & Hv & _)%Forall2_cons_inv_l. done.
  - rewrite <-(Hr eq_refl). naive_solver.
Qed.

Section Streams.
Context `{Externals, Crypto}.

Lemma unpackEnvelopes_Ok l disableChecks ps :
  unpackEnvelopes l disableChecks = Ok ps <-> Forall2 (fun e p => unpackEnvelope e disableChecks = Ok p) l ps.
Proof.
  revert ps. induction l as [|e l IH]; intros ps; cbn [unpackEnvelopes].
  - split; [by intros [= <-]|by intros ->%Forall2_nil_inv_l].
  - rewrite result_bind_Ok. split.
    + intros (p & Hp & (rest & Hrest & [= <-])%result_bind_Ok). constructor; [done|]. by apply IH.
    + intros (p & rest & Hp & Hrest & ->)%Forall2_cons_inv_l. exists p. split; [done|].
      apply result_bind_Ok. exists rest. split; [by apply IH|done].
Qed.

(** An unpacked miniblock ends with the event of its header. *)
Lemma unpackMiniblock_Ok mb disableChecks pmb :
  unpackMiniblock mb disableChecks = Ok pmb
  <-> exists envelope header events, mb_header mb = Some envelope
      /\ unpackEnvelope envelope disableChecks = Ok header
      /\ se_payload (pe_event header) = Some (Payload_miniblockHeader (pmb_header pmb))
      /\ Forall2 (fun e p => unpackEnvelope e disableChecks = Ok p) (mb_events mb) events
      /\ pmb = mkParsedMiniblock (env_hash envelope) (pmb_header pmb) (events ++ [header]).
Proof.
  unfold unpackMiniblock. destruct (mb_header mb) as [envelope|]; [|naive_solver].
  rewrite result_bind_Ok. split.
  - intros (header & Hh & Hx). destruct (se_payload (pe_event header)) as [[]|] eqn:Hp; try done.
    apply result_bind_Ok in Hx as (events & He & [= <-]). apply unpackEnvelopes_Ok in He.
    exists envelope, header, events. done.
  - intros (envelope' & header & events & [= <-] & Hh & Hp & He & ->). exists header. split; [done|].
    rewrite Hp. cbn [pmb_header]. apply result_bind_Ok. exists events. split; [by apply unpackEnvelopes_Ok|done].
Qed.

Lemma unpackStreamAndCookie_Ok s p :
  unpackStreamAndCookie s = Ok p
  <-> sac_nextSyncCookie s = Some (psc_nextSyncCookie p)
      /\ Forall2 (fun mb q => unpackMiniblock mb false = Ok q) (sac_miniblocks s) (psc_miniblocks p)
      /\ Forall2 (fun e q => unpackEnvelope e false = Ok q) (sac_events s) (psc_events p).
Proof.
  unfold unpackStreamAndCookie. destruct (sac_nextSyncCookie s) as [c|]; [|naive_solver].
  rewrite result_bind_Ok. setoid_rewrite promise_all_Ok. setoid_rewrite Forall2_fmap_l. split.
  - intros (ms & Hm & (es & He & [= <-])%result_bind_Ok). cbn. apply unpackEnvelopes_Ok in He. done.
  - intros ([= ->] & Hm & He). exists (psc_miniblocks p). split; [done|].
    apply result_bind_Ok. exists (psc_events p). split; [by apply unpackEnvelopes_Ok|by destruct p].
Qed.
End Streams.

(** ** The properties *)

Section Claims.
Context `{Externals, Crypto}.

(** C13: an event made with a device key the user has delegated to is accepted by
    every reader, with the payload, the hash and the user it was made for: from
    the two wallets over the context and the envelope to the parsed event. *)
Theorem delegated_event_roundtrip `{!CryptoLaws, !EqualsBytesLaws, !KeccakLaws, !AddressLaws, !EventBinaryLaws}
    validKey getPublicKey `{!KeyPairLaws validKey getPublicKey} primary pub wallet key ms salt now pl prev :
  signer_of pub primary -> validKey key -> wallet_of key (getPublicKey key) wallet -> 0 <= ms ->
  payload_content_set pl = true -> (forall h, prev = Some h -> length h = 32%nat) ->
  (forall sig, exists bin, StreamEvent_toBinary
     (mkStreamEvent (u8_slice_last 20 (keccak256 pub)) sig salt prev now ms (Some pl)) = Ok bin) ->
  exists context env p,
    makeSignerContext now primary wallet (Some (ExpiryAt ms)) = Ok context
    /\ makeEvent salt now context (Some pl) prev = Ok env
    /\ unpackEnvelope env false = Ok p
    /\ se_payload (pe_event p) = Some pl /\ se_prevMiniblockHash (pe_event p) = prev
    /\ publicKeyToAddress pub = Ok (se_creatorAddress (pe_event p))
    /\ userIdFromAddress (se_creatorAddress (pe_event p)) = Ok (pe_creatorUserId p)
    /\ riverHash (env_event env) = Ok (pe_hash p).
Proof.
  intros Hp Hk Hw Hms Hpl Hprev Hbin.
  destruct (makeSignerContext_delegates validKey getPublicKey now primary pub wallet key ms Hp Hk Hw Hms)
    as (sig & Hne & Hctx & Hspeaks).
  destruct (Hbin sig) as [bin Hb].
  destruct (makeEvent_unpacked validKey getPublicKey salt now
    (mkSignerContext key (u8_slice_last 20 (keccak256 pub)) (Some sig) (Some ms)) pl prev bin)
    as (env & p & Hmake & Hun & Hev & Hhash & Hu); try done.
  { apply slice_last_length. rewrite keccak256_length. lia. }
  pose proof (publicKeyToAddress_64 pub (proj1 Hp)) as Haddr.
  pose proof (proj1 (unpackEnvelope_Ok env p) Hun) as (_ & _ & Hc & _ & _ & _ & Hpe).
  apply checkEnvelope_Ok in Hc as [Hc _].
  eexists _, env, p. rewrite Hev. split_and!; try done.
  rewrite riverHash_spec, <-Hc, Hpe. done.
Qed.

(** An event signed with the key of the user, without a delegation, is accepted
    with the payload, the hash and the user it was made for. *)
Theorem direct_event_roundtrip `{!CryptoLaws, !EqualsBytesLaws, !KeccakLaws, !AddressLaws, !EventBinaryLaws}
    validKey getPublicKey `{!KeyPairLaws validKey getPublicKey} key address expiry salt now pl prev bin :
  validKey key -> publicKeyToAddress (getPublicKey key) = Ok address ->
  payload_content_set pl = true -> (forall h, prev = Some h -> length h = 32%nat) ->
  let event := mkStreamEvent address [] salt prev now 0 (Some pl) in
  StreamEvent_toBinary event = Ok bin ->
  exists env p, makeEvent salt now (mkSignerContext key address None expiry) (Some pl) prev = Ok env
    /\ unpackEnvelope env false = Ok p /\ pe_event p = event
    /\ userIdFromAddress address = Ok (pe_creatorUserId p).
Proof.
  intros Hk Ha Hpl Hprev event Hbin.
  destruct (makeEvent_unpacked validKey getPublicKey salt now (mkSignerContext key address None expiry) pl prev bin)
    as (env & p & Hmake & Hun & Hev & Hhash & Hu); try done.
  { by apply (publicKeyToAddress_length (getPublicKey key)). }
  by exists env, p.
Qed.

(** C14: an envelope the checks accept is what it claims to be: its hash is the
    framed hash of the event bytes, and the recovered key of its signature is the
    key of the creator or one the creator has signed, with its expiry. *)
Theorem accepted_envelope_sound `{!CryptoLaws, !EqualsBytesLaws} env p :
  unpackEnvelope env false = Ok p ->
  StreamEvent_fromBinary (env_event env) = Ok (pe_event p)
  /\ riverHash (env_event env) = Ok (pe_hash p) /\ pe_hash p = env_hash env
  /\ length (env_signature env) = 65%nat
  /\ exists pub, riverRecoverPubKey (env_hash env) (env_signature env) = Ok pub
     /\ speaks_for pub (se_creatorAddress (pe_event p)) (se_delegateSig (pe_event p))
          (se_delegateExpiryEpochMs (pe_event p)).
Proof.
  intros (_ & Hb & Hc & _ & _ & _ & Hp)%unpackEnvelope_Ok.
  apply checkEnvelope_Ok in Hc as (Hh & pub & Hr & Hs).
  assert (Hph : pe_hash p = env_hash env) by (by rewrite Hp).
  rewrite riverHash_spec, Hph, <-Hh. split_and!; [done..| |by exists pub].
  by apply riverRecoverPubKey_Ok in Hr as (_ & ? & _).
Qed.

(** The event id binds the content: two accepted envelopes with the same id
    string carry the same bytes and the same event, or else their own framed bytes
    are two different inputs of Keccak-256 with the same digest. *)
Theorem event_id_binds `{!CryptoLaws, !EqualsBytesLaws, !HexLaws} env1 env2 p1 p2 :
  unpackEnvelope env1 false = Ok p1 -> unpackEnvelope env2 false = Ok p2 ->
  pe_hashStr p1 = pe_hashStr p2 ->
  (env_event env1 = env_event env2 /\ pe_event p1 = pe_event p2)
  \/ (let src1 := riverHash_src (env_event env1) in let src2 := riverHash_src (env_event env2) in
      src1 <> src2 /\ keccak256 src1 = keccak256 src2).
Proof.
  intros (_ & Hb1 & Hc1 & _ & _ & _ & Hp1)%unpackEnvelope_Ok (_ & Hb2 & Hc2 & _ & _ & _ & Hp2)%unpackEnvelope_Ok Hid.
  apply checkEnvelope_Ok in Hc1 as [Hh1 _]. apply checkEnvelope_Ok in Hc2 as [Hh2 _].
  rewrite Hp1, Hp2 in Hid. cbn [pe_hashStr] in Hid. apply (f_equal hexToBytes) in Hid.
  unfold bin_toHexString in Hid. rewrite !hex_roundtrip in Hid. injection Hid as Hid.
  destruct (decide (env_event env1 = env_event env2)) as [Heq|Hne].
  - left. split; [done|]. rewrite Heq in Hb1. congruence.
  - right. split; [|congruence]. intros Hsrc. by apply Hne, riverHash_src_inj.
Qed.

(** What a user signs to delegate determines the device key and the expiry: the
    same bytes are made of the same key and of expiries that agree modulo 2^64, so
    of the same expiry in the range of the wire format. *)
Theorem delegate_message_injective `{!CryptoLaws} key1 expiry1 key2 expiry2 src :
  riverDelegateHashSrc key1 expiry1 = Ok src -> riverDelegateHashSrc key2 expiry2 = Ok src ->
  key1 = key2 /\ expiry1 mod 2 ^ 64 = expiry2 mod 2 ^ 64
  /\ (expiry1 < 2 ^ 63 -> expiry2 < 2 ^ 63 -> expiry1 = expiry2).
Proof.
  rewrite !riverDelegateHashSrc_spec. intros Hk1 Hk2.
  destruct (Z.leb_spec 0 expiry1); [|done]. destruct (Z.leb_spec 0 expiry2); [|done].
  destruct (_ || _)%nat; [|done]. destruct (_ || _)%nat; [|done].
  injection Hk1 as <-. injection Hk2 as Heq.
  apply app_inj_2 in Heq as [-> Heq]; [|done].
  apply (f_equal le_value) in Heq. rewrite !le_value_bigint in Heq.
  split_and!; [done|done|]. intros Hs1 Hs2. rewrite !Z.mod_small in Heq by lia. done.
Qed.

(** A stream is unpacked exactly when it has a cookie, all its envelopes are
    accepted, every header is a miniblock header and the first one carries a
    snapshot; each miniblock then ends with its header event, and the event ids
    returned are those of the miniblocks, those of the minipool left out. *)
Theorem unpackStream_exact stream r :
  unpackStream (Some stream) = Ok r
  <-> let parsed := psr_streamAndCookie r in
      sac_nextSyncCookie stream = Some (psc_nextSyncCookie parsed)
      /\ Forall2 (fun mb pmb => exists envelope header events, mb_header mb = Some envelope
           /\ unpackEnvelope envelope false = Ok header
           /\ se_payload (pe_event header) = Some (Payload_miniblockHeader (pmb_header pmb))
           /\ Forall2 (fun e p => unpackEnvelope e false = Ok p) (mb_events mb) events
           /\ pmb = mkParsedMiniblock (env_hash envelope) (pmb_header pmb) (events ++ [header]))
         (sac_miniblocks stream) (psc_miniblocks parsed)
      /\ Forall2 (fun e p => unpackEnvelope e false = Ok p) (sac_events stream) (psc_events parsed)
      /\ (exists block0, head (psc_miniblocks parsed) = Some block0
           /\ mh_snapshot (pmb_header block0) = Some (psr_snapshot r)
           /\ psr_prevSnapshotMiniblockNum r = mh_prevSnapshotMiniblockNum (pmb_header block0))
      /\ psr_eventIds r = map pe_hashStr (flat_map pmb_events (psc_miniblocks parsed)).
Proof.
  cbv zeta. assert (Hids : forall p, stream_eventIds p = map pe_hashStr (flat_map pmb_events (psc_miniblocks p))).
  { intros p. unfold stream_eventIds. induction (psc_miniblocks p) as [|b l IH]; [done|].
    cbn [flat_map]. by rewrite map_app, IH. }
  assert (Hmb : forall l ps, Forall2 (fun mb q => unpackMiniblock mb false = Ok q) l ps
    <-> Forall2 (fun mb pmb => exists envelope header events, mb_header mb = Some envelope
           /\ unpackEnvelope envelope false = Ok header
           /\ se_payload (pe_event header) = Some (Payload_miniblockHeader (pmb_header pmb))
           /\ Forall2 (fun e p => unpackEnvelope e false = Ok p) (mb_events mb) events
           /\ pmb = mkParsedMiniblock (env_hash envelope) (pmb_header pmb) (events ++ [header])) l ps).
  { intros l ps. split; intros Hf; apply (Forall2_impl _ _ _ _ Hf); intros mb pmb; apply unpackMiniblock_Ok. }
  rewrite <-Hmb. unfold unpackStream. rewrite result_bind_Ok. split.
  - intros (p & (Hc & Hm & He)%unpackStreamAndCookie_Ok & Hx).
    apply result_bind_Ok in Hx as (_ & _ & Hx). destruct (psc_miniblocks p) as [|b0 bs] eqn:Hbs; [done|].
    destruct (mh_snapshot (pmb_header b0)) as [snap|] eqn:Hs; [|done]. injection Hx as <-. cbn.
    rewrite Hbs, Hids, Hbs. split_and!; eauto.
  - intros (Hc & Hm & He & (b0 & Hb0 & Hs & Hprev) & Hi). exists (psr_streamAndCookie r).
    split; [by apply unpackStreamAndCookie_Ok|].
    destruct (psc_miniblocks (psr_streamAndCookie r)) as [|b bs] eqn:Hbs; [done|]. injection Hb0 as ->.
    apply Forall2_cons_inv_r in Hm as (mb & mbs & _ & _ & ->). cbn [length Nat.ltb Nat.leb assert].
    res_simpl. rewrite Hs, Hids, Hbs, <-Hi, <-Hprev. by destruct r.
Qed.
(** A creator address that is given as a string is read as a public key of 65 bytes,
    so that no delegation is ever accepted for it. *)
Lemma string_address_refused `{!CryptoLaws, !EqualsBytesLaws, !KeccakLaws, !Hex0xLaws} key address sig expiry :
  checkDelegateSig key (IdString address) sig expiry <> Ok tt.
Proof.
  unfold checkDelegateSig. intros Hx. split_Ok Hx. apply check_Ok, bin_equal_eq in Hx as ->.
  unfold key_bytes, publicKeyToUint8Array in Ha0. split_Ok Ha0. apply check_Ok, andb_true_iff in Ha5 as [H04 Hl].
  apply publicKeyToAddress_length in Ha4. apply Nat.eqb_eq in Hl.
  apply hexToBytes_0x_length in Ha0; [lia|].
  apply startsWith_inv in H04 as [rest ->]. exact (startsWith_app "0x" ("04" +:+ rest)).
Qed.
End Claims.

(** The length prefix is eight bytes and exact below 2^32, after at most four
    rounds of the loop whatever the number; beyond, the shift has dropped the high
    bits, and all multiples of 2^32 have the prefix of 0. *)
Theorem length_prefix_exact num fuel :
  length (numberToUint8Array64LE num) = 8%nat
  /\ (0 <= num < 2 ^ 32 -> le_value (numberToUint8Array64LE num) = num)
  /\ ((4 <= fuel)%nat -> number_loop fuel num 0 (replicate 8 x00) = numberToUint8Array64LE num)
  /\ numberToUint8Array64LE (2 ^ 32 * num) = numberToUint8Array64LE 0.
Proof.
  split_and!.
  - apply number_length.
  - intros Hn. destruct (number_loop_spec 4 4 num [] (replicate 8 x00)) as (b & Hb & _ & Hv);
      [exact Hn|simpl; lia..|done|].
    unfold numberToUint8Array64LE. cbn [app length] in Hb. by rewrite Hb.
  - intros Hf. unfold numberToUint8Array64LE. by apply number_loop_terminates.
  - unfold numberToUint8Array64LE. rewrite Z.mul_comm. cbn [number_loop]. destruct (num * 2 ^ 32 =? 0); [done|].
    rewrite Z.mod_mul by done. cbn [Z.shiftr Z.shiftl Z.opp].
    assert (Hl : Z.land (num * 2 ^ 32) 255 = 0).
    { change 255 with (Z.ones 8). rewrite Z.land_ones by lia.
      change (2 ^ 32) with (2 ^ 24 * 2 ^ 8). rewrite Z.mul_assoc. by apply Z.mod_mul. }
    rewrite Hl. done.
Qed.

(** ** A concrete instance *)

Definition toy_publicKey (key : string) : bytes := x04 :: take 64 (utf8_encode key ++ replicate 64 x00).

(** Signatures that carry the public key; an encoding of the events with one fixed
    payload and the creator and the delegation only. *)
#[export] Instance toy_Crypto : Crypto := {|
  assertBytes := fun b lens =>
    if bool_decide (lens = [] \/ length b ∈ lens) then Ok tt else Throw (JsError "Expected Uint8Array");
  keccak256_updates := fun l => keccak256 (concat l);
  signSync := fun hash key => Ok (drop 1 (toy_publicKey key), 0);
  verify := fun _ _ _ => Ok true;
  recoverPublicKey := fun hash sig recovery => Ok (x04 :: sig);
  hashPersonalMessage := fun b => b;
  fromRpcSig := fun s => match hexToBytes s with Ok b => Ok (mkRpcSig 27 b []) | Throw e => Throw e end;
  ecrecover := fun hash vrs => Ok (sig_r vrs);
  StreamEvent_toBinary := fun e =>
    match e with
    | mkStreamEvent creator sig [] None 0 0 (Some (Payload_mediaPayload (Some (MediaPayload_chunk (mkMediaChunk [] 0))))) =>
        if (length creator =? 20)%nat then Ok (creator ++ sig) else Throw (JsError "not supported")
    | _ => Throw (JsError "not supported")
    end;
  StreamEvent_fromBinary := fun b =>
    Ok (mkStreamEvent (take 20 b) (drop 20 b) [] None 0 0
          (Some (Payload_mediaPayload (Some (MediaPayload_chunk (mkMediaChunk [] 0))))));
|}.

#[export] Instance toy_CryptoLaws : CryptoLaws.
Proof.
  split; [|done]. intros b lens. cbn [assertBytes toy_Crypto]. case_bool_decide; naive_solver.
Qed.

#[export] Instance toy_KeyPairLaws : KeyPairLaws (fun _ => True) toy_publicKey.
Proof.
  split.
  - intros hash key _ Hh. exists (drop 1 (toy_publicKey key)), 0. split_and!; try done || lia.
    unfold toy_publicKey. rewrite skipn_cons, drop_0, length_take, length_app, length_replicate. lia.
  - intros key _. unfold toy_publicKey. cbn [length].
    rewrite length_take, length_app, length_replicate. lia.
Qed.

#[export] Instance toy_EventBinaryLaws : EventBinaryLaws.
Proof.
  split; intros e bin; destruct e as [creator sig [|s0 salt] [prev|] [|z|z] [|z'|z'] [pl|]]; try done.
  all: destruct pl as [| | | | | | | |[[|[[|d0 data] [|i|i]]]|]| |]; try done.
  all: cbn [StreamEvent_toBinary StreamEvent_fromBinary toy_Crypto se_creatorAddress].
  all: destruct (Nat.eqb_spec (length creator) 20) as [Hl|]; [|done].
  all: intros [= <-].
  - rewrite take_app_length', drop_app_length' by done. done.
  - by destruct creator.
Qed.

#[export] Instance toy_Hex0xLaws : Hex0xLaws.
Proof.
  split. intros s b Hs Hb. cbn [hexToBytes toy] in Hb. unfold toy_hexToBytes, strip_0x in Hb. rewrite Hs in Hb.
  assert (Hp : forall n s b, (String.length s <= n)%nat -> hex_pairs s = Ok b -> String.length s = (2 * length b)%nat).
  { clear. induction n as [|n IH]; intros [|c [|d s]] b Hn; cbn [hex_pairs String.length] in *; try done;
      try (by intros [= <-]); [lia|].
    destruct (hex_value c), (hex_value d), (hex_pairs s) eqn:Hr; try done.
    destruct (Byte.of_N _); [|done]. intros [= <-]. apply IH in Hr; [|lia]. cbn [length]. lia. }
  apply startsWith_inv in Hs as [h ->]. rewrite slice_from_0x in Hb.
  apply (Hp _ _ _ (Nat.le_refl _)) in Hb.
  change (S (S (String.length h)) = (2 + 2 * length b)%nat). lia.
Qed.

(** ** Concrete runs *)

Definition demo_payload : StreamEvent_payload :=
  Payload_mediaPayload (Some (MediaPayload_chunk (mkMediaChunk [] 0))).
Definition demo_creatorPub : bytes := drop 1 (toy_publicKey "alice").
Definition demo_address : bytes := u8_slice_last 20 (keccak256 demo_creatorPub).
Definition demo_primary : Signer :=
  mkSigner (fun _ => Ok ("0x" +:+ bytesToHex demo_creatorPub)) (Ok ("0x" +:+ bytesToHex demo_address)).
Definition demo_wallet : Wallet := mkWallet ("0x" +:+ bytesToHex (toy_publicKey "device")) "0xdevice".

Lemma demo_signer : signer_of demo_creatorPub demo_primary.
Proof.
  split_and!; [done| |].
  - intros src. do 3 eexists. split_and!; [done|vm_compute; reflexivity|done|vm_compute; reflexivity|done].
  - eexists. split; [done|vm_compute; reflexivity].
Qed.

Definition demo_envelope : Envelope :=
  match makeEvent [] 0 (mkSignerContext "alice" demo_address None None) (Some demo_payload) None with
  | Ok env => env
  | Throw _ => mkEnvelope [] [] []
  end.

Definition demo_parsed : ParsedEvent :=
  match unpackEnvelope demo_envelope false with
  | Ok p => p
  | Throw _ => mkParsedEvent (mkStreamEvent [] [] [] None 0 0 None) [] "" None ""
  end.

Lemma demo_accepted : unpackEnvelope demo_envelope false = Ok demo_parsed.
Proof. vm_compute. reflexivity. Qed.

Lemma delegated_event_roundtrip_witness :
  exists context env p,
    makeSignerContext 0 demo_primary demo_wallet (Some (ExpiryAt 0)) = Ok context
    /\ makeEvent [] 0 context (Some demo_payload) None = Ok env
    /\ unpackEnvelope env false = Ok p
    /\ se_payload (pe_event p) = Some demo_payload /\ se_prevMiniblockHash (pe_event p) = None
    /\ publicKeyToAddress demo_creatorPub = Ok (se_creatorAddress (pe_event p))
    /\ userIdFromAddress (se_creatorAddress (pe_event p)) = Ok (pe_creatorUserId p)
    /\ riverHash (env_event env) = Ok (pe_hash p).
Proof.
  apply (delegated_event_roundtrip (fun _ => True) toy_publicKey demo_primary demo_creatorPub demo_wallet "device"
           0 [] 0 demo_payload None).
  - exact demo_signer.
  - exact I.
  - split_and!; vm_compute; reflexivity.
  - lia.
  - reflexivity.
  - discriminate.
  - intros sig. eexists. vm_compute. reflexivity.
Defined.

Lemma direct_event_roundtrip_witness :
  exists env p, makeEvent [] 0 (mkSignerContext "alice" demo_address None None) (Some demo_payload) None = Ok env
    /\ unpackEnvelope env false = Ok p
    /\ pe_event p = mkStreamEvent demo_address [] [] None 0 0 (Some demo_payload)
    /\ userIdFromAddress demo_address = Ok (pe_creatorUserId p).
Proof.
  apply (direct_event_roundtrip (fun _ => True) toy_publicKey "alice" demo_address None [] 0 demo_payload None demo_address).
  - exact I.
  - vm_compute. reflexivity.
  - reflexivity.
  - discriminate.
  - vm_compute. reflexivity.
Defined.

Lemma accepted_envelope_sound_witness :
  riverHash (env_event demo_envelope) = Ok (pe_hash demo_parsed) /\ length (env_signature demo_envelope) = 65%nat.
Proof.
  destruct (accepted_envelope_sound demo_envelope demo_parsed demo_accepted) as (_ & Hh & _ & Hl & _).
  exact (conj Hh Hl).
Defined.

Lemma event_id_binds_witness :
  (env_event demo_envelope = env_event demo_envelope /\ pe_event demo_parsed = pe_event demo_parsed)
  \/ (let src1 := riverHash_src (env_event demo_envelope) in let src2 := riverHash_src (env_event demo_envelope) in
      src1 <> src2 /\ keccak256 src1 = keccak256 src2).
Proof. exact (event_id_binds demo_envelope demo_envelope demo_parsed demo_parsed demo_accepted demo_accepted eq_refl). Defined.

Lemma delegate_message_injective_witness :
  toy_publicKey "device" = toy_publicKey "device" /\ 5 mod 2 ^ 64 = 5 mod 2 ^ 64 /\ (5 < 2 ^ 63 -> 5 < 2 ^ 63 -> 5 = 5).
Proof.
  eapply (delegate_message_injective (toy_publicKey "device") 5 (toy_publicKey "device") 5);
    vm_compute; reflexivity.
Defined.

Lemma length_prefix_exact_witness : le_value (numberToUint8Array64LE 70000) = 70000.
Proof. apply (proj1 (proj2 (length_prefix_exact 70000 4))). lia. Defined.
