(* ===== verification/SyncedStreams.v ===== *)
(** * The sync loop (core/sdk/src/syncedStreams.ts)

    [SyncedStreams] keeps the subscription to the node alive: a loop, created by
    [startSyncStreams], opens a sync session, hands its responses out and retries
    with a growing delay, until [stopSync]. The loop is a coroutine: its state is
    the [await] it is suspended at, and the definitions below run it from there to
    its next [await]. The streams are the clients' objects behind an interface. *)

From S2P Require Import Prelude Proto Externals Binary StreamId Types Sign.

Inductive SyncState := Canceling | NotSyncing | Retrying | Starting | Syncing.

#[global] Instance SyncState_eq_dec : EqDecision SyncState.
Proof. solve_decision. Defined.

Definition stateConstraints (s : SyncState) : list SyncState :=
  match s with
  | NotSyncing => [Starting]
  | Starting => [Syncing; Retrying; Canceling]
  | Syncing => [Canceling; Retrying]
  | Retrying => [Starting; Canceling; Syncing; Retrying]
  | Canceling => [NotSyncing]
  end.

(** [stateConstraints[s].has(next)]. *)
Definition canTransition (s next : SyncState) : bool := bool_decide (next ∈ stateConstraints s).

Definition syncState_name (s : SyncState) : string :=
  match s with
  | Canceling => "Canceling"
  | NotSyncing => "NotSyncing"
  | Retrying => "Retrying"
  | Starting => "Starting"
  | Syncing => "Syncing"
  end.

(** ** Messages *)

Inductive SyncOp := SYNC_UNSPECIFIED | SYNC_NEW | SYNC_CLOSE | SYNC_UPDATE | SYNC_PONG | SYNC_UNRECOGNIZED (n : Z).

#[global] Instance SyncOp_eq_dec : EqDecision SyncOp.
Proof. solve_decision. Defined.

Record SyncStreamsResponse := mkSyncStreamsResponse {
  ssr_syncId : string;
  ssr_syncOp : SyncOp;
  ssr_stream : option StreamAndCookie;
  ssr_pongNonce : string;
}.

Record NonceStats := mkNonceStats {
  ns_sequence : Z;
  ns_pingAt : Z;
  ns_receivedAt : option Z;
  ns_duration : option Z;
}.

Record PingInfo := mkPingInfo {
  nonces : gmap string NonceStats;
  currentSequence : Z;
  pingTimeout : bool; (* a ping is scheduled *)
}.

(** ** The streams, as the loop sees them *)

Class SyncTarget (Stream : Type) := {
  stream_syncCookie : Stream -> option SyncCookie;
  stream_initializeFromResponse : ParsedStreamResponse -> JS StreamEvents Stream unit;
  stream_appendEvents : list ParsedEvent -> SyncCookie -> option (gmap string string) -> JS StreamEvents Stream unit;
}.

(** What the class does to the outside: events of the client emitter, calls of the
    node, streams it stops, timers it sets. *)
Inductive sync_out :=
| streamSyncStateChange (s : SyncState)
| streamSyncActive (active : bool)
| streamRemovedFromSync (streamId : string)
| FromStream (e : StreamEvents)
| StreamStopped (streamId : string)
| Rpc_syncStreams (syncPos : list SyncCookie)
| Rpc_cancelSync (syncId : string)
| Rpc_pingSync (syncId nonce : string)
| Rpc_addStreamToSync (syncId : option string) (syncPos : SyncCookie)
| Rpc_removeStreamFromSync (syncId : option string) (streamId : bytes)
| RetryTimer (retryDelay : Z).

(** ** The loop as a coroutine *)

(** Where a sync loop is suspended: at the race of the next response with an
    interruption, in the wait of [attemptRetry], there with the wait released and
    the continuation queued, or returned. *)
Inductive loop_at := AtNext | AtRetryWait | AtReleased | Ended.

#[global] Instance loop_at_eq_dec : EqDecision loop_at.
Proof. solve_decision. Defined.

Record loop := mkLoop { iteration : Z; at_ : loop_at }.

(** [loops] holds every loop that was created, [syncLoop] the one the field holds;
    [releaseRetryWait], [forceStopSyncStreams] and [interruptSync] are closures of
    the loop they name. *)
Record t (Stream : Type) := mkT {
  streams : jsmap Stream;
  loops : list loop;
  syncLoop : option nat;
  syncId : option string;
  _syncState : SyncState;
  releaseRetryWait : option nat;
  currentRetryCount : Z;
  forceStopSyncStreams : option nat;
  interruptSync : option nat;
  isMobileSafariBackgrounded : bool;
  responsesQueue : list SyncStreamsResponse;
  inProgressTick : bool;
  pingInfo : PingInfo;
}.
Arguments mkT {_} _ _ _ _ _ _ _ _ _ _ _ _ _.
Arguments streams {_} _.
Arguments loops {_} _.
Arguments syncLoop {_} _.
Arguments syncId {_} _.
Arguments _syncState {_} _.
Arguments releaseRetryWait {_} _.
Arguments currentRetryCount {_} _.
Arguments forceStopSyncStreams {_} _.
Arguments interruptSync {_} _.
Arguments isMobileSafariBackgrounded {_} _.
Arguments responsesQueue {_} _.
Arguments inProgressTick {_} _.
Arguments pingInfo {_} _.

Section Setters.
Context {Stream : Type}.
Implicit Types s : t Stream.

Definition set_streams (f : jsmap Stream -> jsmap Stream) s : t Stream := mkT (f (streams s)) (loops s) (syncLoop s) (syncId s) (_syncState s)
  (releaseRetryWait s) (currentRetryCount s) (forceStopSyncStreams s) (interruptSync s)
  (isMobileSafariBackgrounded s) (responsesQueue s) (inProgressTick s) (pingInfo s).
Definition set_loops f s : t Stream := mkT (streams s) (f (loops s)) (syncLoop s) (syncId s) (_syncState s)
  (releaseRetryWait s) (currentRetryCount s) (forceStopSyncStreams s) (interruptSync s)
  (isMobileSafariBackgrounded s) (responsesQueue s) (inProgressTick s) (pingInfo s).
Definition set_syncLoop v s : t Stream := mkT (streams s) (loops s) v (syncId s) (_syncState s)
  (releaseRetryWait s) (currentRetryCount s) (forceStopSyncStreams s) (interruptSync s)
  (isMobileSafariBackgrounded s) (responsesQueue s) (inProgressTick s) (pingInfo s).
Definition set_syncId v s : t Stream := mkT (streams s) (loops s) (syncLoop s) v (_syncState s)
  (releaseRetryWait s) (currentRetryCount s) (forceStopSyncStreams s) (interruptSync s)
  (isMobileSafariBackgrounded s) (responsesQueue s) (inProgressTick s) (pingInfo s).
Definition set_syncState v s : t Stream := mkT (streams s) (loops s) (syncLoop s) (syncId s) v
  (releaseRetryWait s) (currentRetryCount s) (forceStopSyncStreams s) (interruptSync s)
  (isMobileSafariBackgrounded s) (responsesQueue s) (inProgressTick s) (pingInfo s).
Definition set_releaseRetryWait v s : t Stream := mkT (streams s) (loops s) (syncLoop s) (syncId s) (_syncState s)
  v (currentRetryCount s) (forceStopSyncStreams s) (interruptSync s)
  (isMobileSafariBackgrounded s) (responsesQueue s) (inProgressTick s) (pingInfo s).
Definition set_currentRetryCount v s : t Stream := mkT (streams s) (loops s) (syncLoop s) (syncId s) (_syncState s)
  (releaseRetryWait s) v (forceStopSyncStreams s) (interruptSync s)
  (isMobileSafariBackgrounded s) (responsesQueue s) (inProgressTick s) (pingInfo s).
Definition set_interrupts force interrupt s : t Stream := mkT (streams s) (loops s) (syncLoop s) (syncId s) (_syncState s)
  (releaseRetryWait s) (currentRetryCount s) force interrupt
  (isMobileSafariBackgrounded s) (responsesQueue s) (inProgressTick s) (pingInfo s).
Definition set_backgrounded v s : t Stream := mkT (streams s) (loops s) (syncLoop s) (syncId s) (_syncState s)
  (releaseRetryWait s) (currentRetryCount s) (forceStopSyncStreams s) (interruptSync s)
  v (responsesQueue s) (inProgressTick s) (pingInfo s).
Definition set_responsesQueue f s : t Stream := mkT (streams s) (loops s) (syncLoop s) (syncId s) (_syncState s)
  (releaseRetryWait s) (currentRetryCount s) (forceStopSyncStreams s) (interruptSync s)
  (isMobileSafariBackgrounded s) (f (responsesQueue s)) (inProgressTick s) (pingInfo s).
Definition set_inProgressTick v s : t Stream := mkT (streams s) (loops s) (syncLoop s) (syncId s) (_syncState s)
  (releaseRetryWait s) (currentRetryCount s) (forceStopSyncStreams s) (interruptSync s)
  (isMobileSafariBackgrounded s) (responsesQueue s) v (pingInfo s).
Definition set_pingInfo f s : t Stream := mkT (streams s) (loops s) (syncLoop s) (syncId s) (_syncState s)
  (releaseRetryWait s) (currentRetryCount s) (forceStopSyncStreams s) (interruptSync s)
  (isMobileSafariBackgrounded s) (responsesQueue s) (inProgressTick s) (f (pingInfo s)).
End Setters.

Definition new {Stream} : t Stream :=
  mkT [] [] None None NotSyncing None 0 None None false [] false (mkPingInfo ∅ 0 false).

(** ** Operations *)

Section SyncedStreams.
Context `{Externals, Crypto} {Stream : Type} `{SyncTarget Stream}.

Definition M (A : Type) : Type := JS sync_out (t Stream) A.

Definition out (o : sync_out) : M unit := js_emit true o.

Definition set_loop_at (l : nat) (a : loop_at) : M unit :=
  js_modify (set_loops (alter (fun x => mkLoop (iteration x) a) l)).

Definition has (streamId : id_arg) (s : t Stream) : bool :=
  is_defined (jm_get (streamIdAsString streamId) (streams s)).

Definition get (streamId : id_arg) (s : t Stream) : option Stream :=
  jm_get (streamIdAsString streamId) (streams s).

Definition set (streamId : id_arg) (stream : Stream) : M unit :=
  js_modify (set_streams (jm_set (streamIdAsString streamId) stream)).

Definition delete (inStreamId : id_arg) : M unit :=
  let streamId := streamIdAsString inStreamId in
  self ← js_get;
  js_when (jm_has streamId (streams self)) (out (StreamStopped streamId));;
  js_modify (set_streams (jm_delete streamId)).

Definition size (s : t Stream) : nat := length (streams s).

Definition getStreams (s : t Stream) : list Stream := jm_values (streams s).

Definition getStreamIds (s : t Stream) : list string := jm_keys (streams s).

Definition setSyncState (newState : SyncState) : M unit :=
  self ← js_get;
  if bool_decide (_syncState self = newState)
  then js_throw (JsError "setSyncState called for the existing state")
  else if negb (canTransition (_syncState self) newState)
  then js_throw (JsError ("invalid state transition " +:+ syncState_name (_syncState self)
                          +:+ " -> " +:+ syncState_name newState))
  else
    js_modify (set_syncState newState);;
    out (streamSyncStateChange newState).

Definition stopPing : M unit := js_modify (set_pingInfo (fun _ => mkPingInfo ∅ 0 false)).

(** The timer of the next ping; it runs [ping] below. *)
Definition sendKeepAlivePings : M unit :=
  js_modify (set_pingInfo (fun p => mkPingInfo (nonces p) (currentSequence p) true)).

(** [this.releaseRetryWait?.()]. *)
Definition callReleaseRetryWait : M unit :=
  self ← js_get;
  match releaseRetryWait self with
  | Some l => js_modify (set_releaseRetryWait None);; set_loop_at l AtReleased
  | None => js_return
  end.

Definition onNetworkStatusChanged (isOnline : bool) : M unit := js_when isOnline callReleaseRetryWait.

Definition MAX_RETRY_DELAY_FACTOR : Z := 7.

(** The loop [l] up to the wait; [true] when it waits, else it goes on. *)
Definition attemptRetry (l : nat) : M bool :=
  stopPing;;
  self ← js_get;
  if canTransition (_syncState self) Retrying then
    js_when (negb (bool_decide (_syncState self = Retrying)))
      (setSyncState Retrying;;
       js_modify (set_syncId None);;
       out (streamSyncActive false));;
    self ← js_get;
    let nextRetryCount :=
      if MAX_RETRY_DELAY_FACTOR <=? currentRetryCount self then MAX_RETRY_DELAY_FACTOR
      else currentRetryCount self + 1 in
    let retryDelay := 2 ^ nextRetryCount * 1000 in
    js_modify (set_currentRetryCount nextRetryCount);;
    out (RetryTimer retryDelay);;
    js_modify (set_releaseRetryWait (Some l));;
    set_loop_at l AtRetryWait;;
    mret true
  else mret false.

Definition syncStarted (newSyncId : string) : M unit :=
  self ← js_get;
  js_when (negb (is_defined (truthy_str (syncId self))) && canTransition (_syncState self) Syncing)
    (setSyncState Syncing;;
     js_modify (set_syncId (Some newSyncId));;
     js_modify (set_currentRetryCount 0);;
     sendKeepAlivePings;;
     out (streamSyncActive true)).

Definition syncClosed : M unit :=
  stopPing;;
  self ← js_get;
  if bool_decide (_syncState self = Canceling) then js_return else setSyncState Retrying.

(** Run a method of the stream with the key [k]. *)
Definition with_stream (k : string) (stream : Stream) (m : JS StreamEvents Stream unit) : M unit :=
  match m stream with
  | Outcome r stream' w =>
      js_modify (set_streams (jm_set k stream'));;
      js_for w (fun e => out (FromStream e));;
      js_lift r
  end.

(** The methods of the streams run to their end; their errors are logged. *)
Definition onUpdate (res : SyncStreamsResponse) : M unit :=
  self ← js_get;
  if bool_decide (_syncState self = Syncing) || bool_decide (_syncState self = Canceling) then
    if negb (bool_decide (syncId self = Some (ssr_syncId res)))
    then js_throw (JsError ("syncId mismatch; has:'" +:+ default "undefined" (syncId self)
                            +:+ "', got:" +:+ ssr_syncId res +:+ "'. Throw away update."))
    else
      match ssr_stream res with
      | None => js_return
      | Some syncStream =>
          js_try (
            let streamIdBytes := match sac_nextSyncCookie syncStream with
                                 | Some c => sc_streamId c
                                 | None => []
                                 end in
            let streamId := streamIdAsString (IdBytes streamIdBytes) in
            match jm_get streamId (streams self) with
            | None => js_return
            | Some stream =>
                if sac_syncReset syncStream then
                  response ← js_lift (unpackStream (Some syncStream));
                  with_stream streamId stream (stream_initializeFromResponse response)
                else
                  streamAndCookie ← js_lift (unpackStreamAndCookie syncStream);
                  with_stream streamId stream
                    (stream_appendEvents (psc_events streamAndCookie) (psc_nextSyncCookie streamAndCookie) None)
            end) (fun _ => js_return)
      end
  else js_return.

Definition tick : M unit :=
  self ← js_get;
  match responsesQueue self with
  | [] => js_return
  | item :: rest =>
      js_modify (set_responsesQueue (fun _ => rest));;
      if bool_decide (syncId self = Some (ssr_syncId item)) then onUpdate item else js_return
  end.

(** The tick's errors are logged; that it has ended is the step [tickEnded]. *)
Definition checkStartTicking : M unit :=
  self ← js_get;
  if inProgressTick self then js_return
  else if (length (responsesQueue self) =? 0)%nat then js_return
  else if isMobileSafariBackgrounded self then js_return
  else
    js_try tick (fun _ => js_return);;
    js_modify (set_inProgressTick true).

Definition tickEnded : M unit :=
  js_modify (set_inProgressTick false);; checkStartTicking.

(** [hidden] is [document.visibilityState === 'hidden']. *)
Definition onMobileSafariBackgrounded (hidden : bool) : M unit :=
  js_modify (set_backgrounded hidden);;
  js_when (negb hidden) (callReleaseRetryWait;; checkStartTicking).

(** ** The body of the loop *)

(** The [finally] block, and the return of the iteration count. *)
Definition finish (l : nat) : M unit :=
  stopPing;;
  self ← js_get;
  js_when (canTransition (_syncState self) NotSyncing)
    (setSyncState NotSyncing;;
     js_for (jm_keys (streams self)) (fun k => out (StreamStopped k));;
     js_modify (set_streams (fun _ => []));;
     js_modify (set_releaseRetryWait None);;
     js_modify (set_syncId None);;
     out (streamSyncActive false));;
  set_loop_at l Ended.

Definition is_syncing (s : SyncState) : bool :=
  bool_decide (s = Syncing) || bool_decide (s = Starting).

(** The head of the inner [while]: suspend at the next response, or leave it for
    the head of the outer one. *)
Definition inner (outer : M unit) (l : nat) : M unit :=
  self ← js_get;
  if is_syncing (_syncState self)
  then js_modify (set_interrupts (Some l) (Some l));; set_loop_at l AtNext
  else outer.

(** The head of the outer [while] and its body up to the inner one. The inner one
    is always entered, so one round of fuel is enough. *)
Fixpoint outer (fuel : nat) (l : nat) : M unit :=
  match fuel with
  | O => js_return
  | S fuel =>
      self ← js_get;
      if bool_decide (_syncState self = Starting) || bool_decide (_syncState self = Syncing)
         || bool_decide (_syncState self = Retrying)
      then
        js_modify (set_loops (alter (fun x => mkLoop (iteration x + 1) (at_ x)) l));;
        js_when (bool_decide (_syncState self = Retrying)) (setSyncState Starting);;
        let syncCookies := omap stream_syncCookie (jm_values (streams self)) in
        js_modify (set_syncId None);;
        out (Rpc_syncStreams syncCookies);;
        inner (outer fuel l) l
      else finish l
  end.

Definition run_loop (l : nat) : M unit := outer 2 l.

(** The [catch] block, which continues at the outer [while] unless it waits. *)
Definition onLoopError (l : nat) : M unit :=
  waits ← attemptRetry l;
  js_when (negb waits) (run_loop l).

(** The switch on the operation of a response; [now] is [performance.now()]. *)
Definition handleResponse (now : Z) (value : SyncStreamsResponse) : M unit :=
  match ssr_syncOp value with
  | SYNC_NEW => syncStarted (ssr_syncId value)
  | SYNC_CLOSE => syncClosed
  | SYNC_UPDATE =>
      js_modify (set_responsesQueue (fun q => q ++ [value]));;
      checkStartTicking
  | SYNC_PONG =>
      js_modify (set_pingInfo (fun p =>
        mkPingInfo (alter (fun n => mkNonceStats (ns_sequence n) (ns_pingAt n) (Some now)
                                      (Some (now - ns_pingAt n))) (ssr_pongNonce value) (nonces p))
          (currentSequence p) (pingTimeout p)))
  | _ => js_return
  end.

(** The loop [l], suspended at [iterator.next()], gets a response. *)
Definition onLoopValue (now : Z) (l : nat) (value : SyncStreamsResponse) : M unit :=
  if negb (is_defined (truthy_str (Some (ssr_syncId value))))
     || match ssr_syncOp value with SYNC_UNSPECIFIED => true | _ => false end
  then inner (run_loop l) l
  else
    failed ← js_try (handleResponse now value;; mret false) (fun _ => mret true);
    if failed : bool then onLoopError l else inner (run_loop l) l.

(** The responses have ended, or [forceStopSyncStreams] was called. *)
Definition onLoopDone (l : nat) : M unit :=
  js_modify (set_interrupts None None);; finish l.

(** The two [reject] calls do not end the executor: the loop is created all the
    same, and runs up to its first [await]. *)
Definition createSyncLoop : M unit :=
  self ← js_get;
  let allowed := canTransition (_syncState self) Starting in
  js_when allowed (setSyncState Starting);;
  let exists_ := is_defined (syncLoop self) in
  let l := length (loops self) in
  js_modify (set_loops (fun ls => ls ++ [mkLoop 0 AtNext]));;
  run_loop l;;
  js_modify (set_syncLoop (Some l));;
  if negb allowed then js_throw (JsError "invalid state transition")
  else if exists_ : bool then js_throw (JsError "createSyncLoop called while a loop exists")
  else js_return.

(** The listener for [visibilitychange] is not part of the state. *)
Definition startSyncStreams : M unit := createSyncLoop.

(** Up to the wait for the node and the loop, after which nothing is changed. *)
Definition stopSync : M unit :=
  js_modify (set_responsesQueue (fun _ => []));;
  self ← js_get;
  js_when (canTransition (_syncState self) Canceling)
    (setSyncState Canceling;;
     stopPing;;
     js_try
       (callReleaseRetryWait;;
        match truthy_str (syncId self) with
        | Some id => out (Rpc_cancelSync id)
        | None => js_return
        end)
       (fun _ => js_return)).

(** ** Streams of a running sync *)

(** [waitForSyncingState] resolves once the state can no longer become [Syncing]. *)
Definition waitsForSyncing (s : t Stream) : bool :=
  (bool_decide (_syncState s = Starting) || bool_decide (_syncState s = Retrying))
  && canTransition (_syncState s) Syncing.

(** The rest of [addStreamToSync] after the wait; [reply] is the answer of the node,
    [badCookie] whether its error is [BAD_SYNC_COOKIE]. *)
Definition addStreamToSync (syncCookie : SyncCookie) (reply : result unit) (badCookie : bool) : M unit :=
  self ← js_get;
  if bool_decide (_syncState self = Syncing) then
    out (Rpc_addStreamToSync (syncId self) syncCookie);;
    match reply with
    | Ok _ => js_return
    | Throw err => if badCookie then js_throw err else js_return
    end
  else js_return.

(** The rest of [removeStreamFromSync] after the wait, for a stream that was found;
    an error of the node is logged. *)
Definition removeStreamFromSync (inStreamId : id_arg) : M unit :=
  let streamId := streamIdAsString inStreamId in
  self ← js_get;
  if bool_decide (_syncState self = Syncing) then
    js_try (id ← js_lift (streamIdAsBytes (IdString streamId));
            out (Rpc_removeStreamFromSync (syncId self) id)) (fun _ => js_return);;
    out (StreamStopped streamId);;
    js_modify (set_streams (jm_delete streamId));;
    out (streamRemovedFromSync streamId)
  else js_return.

(** ** Keep-alive pings *)

(** The timer fires: the ping with the fresh nonce [n] at the time [now], up to the
    answer of the node. *)
Definition ping (n : string) (now : Z) : M unit :=
  self ← js_get;
  match truthy_str (syncId self) with
  | Some id =>
      js_when (bool_decide (_syncState self = Syncing))
        (js_modify (set_pingInfo (fun p =>
           mkPingInfo (<[n := mkNonceStats (currentSequence p) now None None]> (nonces p))
             (currentSequence p + 1) (pingTimeout p)));;
         out (Rpc_pingSync id n))
  | None => js_return
  end.

Definition pingAnswered : M unit :=
  self ← js_get;
  js_when (bool_decide (_syncState self = Syncing)) sendKeepAlivePings.

(** ** Steps *)

(** What can happen to the object: calls of the client, and what the node and the
    timers do to a loop that is suspended. *)
Inductive sync_event :=
| E_start
| E_stop
| E_online (isOnline : bool)
| E_visibility (hidden : bool)
| E_value (l : nat) (now : Z) (value : SyncStreamsResponse)
| E_done (l : nat)
| E_error (l : nat)
| E_retryTimeout (l : nat)
| E_resume (l : nat)
| E_forceStop
| E_interrupt
| E_tickEnded
| E_ping (n : string) (now : Z)
| E_pingAnswered
| E_set (streamId : id_arg) (stream : Stream)
| E_delete (streamId : id_arg)
| E_add (syncCookie : SyncCookie) (reply : result unit) (badCookie : bool)
| E_remove (streamId : id_arg).

Definition loop_is (l : nat) (a : loop_at) (s : t Stream) : bool := bool_decide (at_ <$> loops s !! l = Some a).

(** [m], when the loop [l] is suspended at [a]. *)
Definition when_at (l : nat) (a : loop_at) (m : M unit) : M unit :=
  self ← js_get; js_when (loop_is l a self) m.

Definition run_event (e : sync_event) : M unit :=
  match e with
  | E_start => startSyncStreams
  | E_stop => stopSync
  | E_online isOnline => onNetworkStatusChanged isOnline
  | E_visibility hidden => onMobileSafariBackgrounded hidden
  | E_value l now value => when_at l AtNext (onLoopValue now l value)
  | E_done l => when_at l AtNext (onLoopDone l)
  | E_error l => when_at l AtNext (onLoopError l)
  | E_retryTimeout l => when_at l AtRetryWait (js_modify (set_releaseRetryWait None);; run_loop l)
  | E_resume l => when_at l AtReleased (run_loop l)
  | E_forceStop => self ← js_get;
      match forceStopSyncStreams self with
      | Some l => when_at l AtNext (onLoopDone l)
      | None => js_return
      end
  | E_interrupt => self ← js_get;
      match interruptSync self with
      | Some l => when_at l AtNext (onLoopError l)
      | None => js_return
      end
  | E_tickEnded => tickEnded
  | E_ping n now => ping n now
  | E_pingAnswered => pingAnswered
  | E_set streamId stream => set streamId stream
  | E_delete streamId => delete streamId
  | E_add syncCookie reply badCookie => addStreamToSync syncCookie reply badCookie
  | E_remove streamId => removeStreamFromSync streamId
  end.
End SyncedStreams.
Arguments sync_event : clear implicits.
