(* ===== verification/SyncLoop.v ===== *)
(** * Correctness of the sync loop

    The documented meaning of the sync states, the transitions, the delays of the
    retries and the end of a sync, for every sequence of events. *)

From S2P Require Import Prelude Proto Externals ToyExternals Binary StreamId Types Sign Envelopes SyncedStreams.

(** Methods whose announced states follow the constraints. *)
Create HintDb tracked.

Section SyncLoop.
Context `{Externals, Crypto} {Stream : Type} `{SyncTarget Stream}.
Local Abbreviation st := (t Stream).
Implicit Types s : st.

(** ** The control part of the state *)

Definition ctl s : SyncState * list loop * option string * option nat * Z :=
  (_syncState s, loops s, syncId s, releaseRetryWait s, currentRetryCount s).

(** The loop [l] is suspended at [a], all others have ended. *)
Definition sole_loop (l : nat) (a : loop_at) (ls : list loop) : Prop :=
  (at_ <$> ls !! l = Some a) /\ forall l' x, ls !! l' = Some x -> l' <> l -> at_ x = Ended.

Definition all_ended (ls : list loop) : Prop := forall l x, ls !! l = Some x -> at_ x = Ended.

(** The comments on the states of [SyncState], with where the loop waits. *)
Definition documented_at (state : SyncState) (ls : list loop) (id : option string) (release : option nat) (count : Z)
    : Prop :=
  match state with
  | NotSyncing => all_ended ls /\ id = None /\ release = None
  | Starting => exists l, sole_loop l AtNext ls /\ id = None /\ release = None
  | Syncing => exists l i, sole_loop l AtNext ls /\ id = Some i /\ i <> "" /\ release = None
  | Retrying => exists l, id = None
                /\ (sole_loop l AtRetryWait ls /\ release = Some l
                    \/ sole_loop l AtReleased ls /\ release = None)
  | Canceling => exists l, (sole_loop l AtNext ls \/ sole_loop l AtReleased ls) /\ release = None
  end /\ 0 <= count <= MAX_RETRY_DELAY_FACTOR.

Definition documented s : Prop :=
  documented_at (_syncState s) (loops s) (syncId s) (releaseRetryWait s) (currentRetryCount s).

Lemma documented_by s state ls id release count :
  ctl s = (state, ls, id, release, count) -> documented_at state ls id release count -> documented s.
Proof. unfold documented, ctl. by intros [= -> -> -> -> ->]. Qed.

Lemma documented_ctl s s' : ctl s' = ctl s -> documented s -> documented s'.
Proof. intros Hc. by apply documented_by. Qed.

Definition keeps_ctl {A} (m : M (Stream := Stream) A) : Prop := forall s, ctl (post (m s)) = ctl s.

Lemma ctl_bind {A B} (m : M A) (k : A -> M B) :
  keeps_ctl m -> (forall a, keeps_ctl (k a)) -> keeps_ctl (m ≫= k).
Proof.
  intros Hm Hk s. specialize (Hm s). unfold mbind, JS_mbind, js_bind.
  destruct (m s) as [[a|e] s1 w1]; [|done]. specialize (Hk a s1). cbn [post] in Hm.
  destruct (k a s1) as [r s2 w2]. cbn [post] in *. congruence.
Qed.

Lemma ctl_try {A} (m : M A) h : keeps_ctl m -> (forall e, keeps_ctl (h e)) -> keeps_ctl (js_try m h).
Proof.
  intros Hm Hh s. specialize (Hm s). unfold js_try. destruct (m s) as [[a|e] s1 w1]; [done|].
  specialize (Hh e s1). cbn [post] in Hm. destruct (h e s1) as [r s2 w2]. cbn [post] in *. congruence.
Qed.

Lemma ctl_modify f : (forall s, ctl (f s) = ctl s) -> keeps_ctl (js_modify f).
Proof. intros Hf s. apply Hf. Qed.

Lemma ctl_get_bind {B} (k : st -> M B) : (forall s, ctl (post (k s s)) = ctl s) -> keeps_ctl (js_get ≫= k).
Proof. intros Hk s. specialize (Hk s). js_unfold. by destruct (k s s). Qed.

Lemma ctl_pure {A} (m : M A) : (forall s, post (m s) = s) -> keeps_ctl m.
Proof. intros Hm s. by rewrite Hm. Qed.

Lemma ctl_for {A} (l : list A) (f : A -> M unit) : (forall x, keeps_ctl (f x)) -> keeps_ctl (js_for l f).
Proof. intros Hf. induction l; [by apply ctl_pure|]. cbn [js_for]. by apply ctl_bind. Qed.

Lemma ctl_when b (m : M unit) : keeps_ctl m -> keeps_ctl (js_when b m).
Proof. intros Hm. destruct b; [done|]. by apply ctl_pure. Qed.

Lemma keeps_with_stream k stream m : keeps_ctl (with_stream k stream m).
Proof.
  unfold with_stream. destruct (m stream) as [r stream' w]. apply ctl_bind; [by apply ctl_modify|].
  intros _. apply ctl_bind; [|by intros ?; apply ctl_pure].
  apply ctl_for. intros x. by apply ctl_pure.
Qed.

Lemma keeps_onUpdate res : keeps_ctl (onUpdate res).
Proof.
  unfold onUpdate. apply ctl_bind; [by apply ctl_pure|]. intros self.
  destruct (_ || _); [|by apply ctl_pure]. destruct (negb _); [by apply ctl_pure|].
  destruct (ssr_stream res) as [ss|]; [|by apply ctl_pure].
  apply ctl_try; [|by intros ?; apply ctl_pure].
  destruct (jm_get _ _) as [stream|]; [|by apply ctl_pure].
  destruct (sac_syncReset ss); (apply ctl_bind; [by apply ctl_pure|]); intros x; apply keeps_with_stream.
Qed.

Lemma keeps_checkStartTicking : keeps_ctl checkStartTicking.
Proof.
  unfold checkStartTicking. apply ctl_bind; [by apply ctl_pure|]. intros self.
  destruct (inProgressTick self); [by apply ctl_pure|]. destruct (length _ =? 0)%nat; [by apply ctl_pure|].
  destruct (isMobileSafariBackgrounded self); [by apply ctl_pure|].
  apply ctl_bind; [|by intros _; apply ctl_modify].
  apply ctl_try; [|by intros ?; apply ctl_pure]. unfold tick.
  apply ctl_bind; [by apply ctl_pure|]. intros self'.
  destruct (responsesQueue self'); [by apply ctl_pure|]. apply ctl_bind; [by apply ctl_modify|].
  intros _. destruct (bool_decide _); [apply keeps_onUpdate|by apply ctl_pure].
Qed.

(** ** Lists of loops *)

Lemma sole_alter l a b ls : sole_loop l a ls -> sole_loop l b (alter (fun x => mkLoop (iteration x) b) l ls).
Proof.
  intros [Hl Ho]. split.
  - rewrite list_lookup_alter_eq. by destruct (ls !! l).
  - intros l' x Hx Hne. rewrite list_lookup_alter_ne in Hx by done. by apply (Ho l').
Qed.

Lemma sole_count l a ls : sole_loop l a ls -> sole_loop l a (alter (fun x => mkLoop (iteration x + 1) (at_ x)) l ls).
Proof.
  intros [Hl Ho]. split.
  - rewrite list_lookup_alter_eq. by destruct (ls !! l).
  - intros l' x Hx Hne. rewrite list_lookup_alter_ne in Hx by done. by apply (Ho l').
Qed.

Lemma sole_ended l ls : sole_loop l Ended ls -> all_ended ls.
Proof.
  intros [Hl Ho] l' x Hx. destruct (decide (l' = l)) as [->|Hne]; [|by apply (Ho l')].
  rewrite Hx in Hl. by injection Hl.
Qed.

Lemma sole_app ls x : all_ended ls -> sole_loop (length ls) (at_ x) (ls ++ [x]).
Proof.
  intros He. split; [by rewrite list_lookup_middle|]. intros l' y Hy Hne.
  apply lookup_app_Some in Hy as [Hy|[Hle Hy]]; [by apply (He l')|].
  apply list_lookup_singleton_Some in Hy as [? _]. lia.
Qed.

Lemma sole_inj l a l' b ls : sole_loop l a ls -> a <> Ended -> at_ <$> ls !! l' = Some b -> b <> Ended -> l' = l /\ b = a.
Proof.
  intros [Hl Ho] Ha Hb Hne. destruct (decide (l' = l)) as [->|Hd]; [split; congruence|].
  destruct (ls !! l') as [x|] eqn:Hx; [|done]. injection Hb as <-. by destruct Hne; eapply Ho.
Qed.

(** ** The operations on the control part *)

Definition counted (l : nat) (ls : list loop) : list loop :=
  alter (fun x => mkLoop (iteration x + 1) (at_ x)) l ls.
Definition moved (l : nat) (a : loop_at) (ls : list loop) : list loop :=
  alter (fun x => mkLoop (iteration x) a) l ls.

Lemma for_out {A} (f : A -> sync_out) (xs : list A) s :
  js_for xs (fun x s => Outcome (Ok tt) s [f x]) s = Outcome (Ok tt) s (map f xs).
Proof.
  revert s. induction xs as [|x xs IH]; intros s; [done|]. cbn [js_for].
  unfold mbind, JS_mbind, js_bind. by rewrite IH.
Qed.

(** Decide the tests on a known sync state. *)
Ltac eval_tests :=
  repeat match goal with
  | |- context [canTransition ?a ?b] =>
      let v := eval vm_compute in (canTransition a b) in
      lazymatch v with true => idtac | false => idtac end; change (canTransition a b) with v
  | |- context [@bool_decide (@eq SyncState ?a ?b) ?d] =>
      let v := eval vm_compute in (@bool_decide (@eq SyncState a b) d) in
      lazymatch v with true => idtac | false => idtac end; change (@bool_decide (@eq SyncState a b) d) with v
  end.
Ltac run_simpl := js_unfold; repeat (progress (cbn -[ctl canTransition bool_decide]; eval_tests)).

(** Where [finish] leaves the state. *)
Lemma finish_ctl l s :
  ctl (post (finish l s))
  = if bool_decide (_syncState s = Canceling)
    then (NotSyncing, moved l Ended (loops s), None, None, currentRetryCount s)
    else (_syncState s, moved l Ended (loops s), syncId s, releaseRetryWait s, currentRetryCount s).
Proof.
  unfold finish, stopPing, setSyncState, set_loop_at, out. js_unfold.
  destruct s as [? ? ? ? [] ? ? ? ? ? ? ? ?]; run_simpl; rewrite ?for_out; done.
Qed.

Lemma run_loop_ctl l s :
  ctl (post (run_loop l s))
  = match _syncState s with
    | Canceling => (NotSyncing, moved l Ended (loops s), None, None, currentRetryCount s)
    | NotSyncing => (NotSyncing, moved l Ended (loops s), syncId s, releaseRetryWait s, currentRetryCount s)
    | Syncing => (Syncing, moved l AtNext (counted l (loops s)), None, releaseRetryWait s, currentRetryCount s)
    | _ => (Starting, moved l AtNext (counted l (loops s)), None, releaseRetryWait s, currentRetryCount s)
    end.
Proof.
  unfold run_loop. destruct (_syncState s) eqn:Hst.
  1,2: trans (ctl (post (finish l s))); [|by rewrite finish_ctl, Hst];
    cbn [outer]; unfold mbind at 1, JS_mbind at 1, js_bind at 1, js_get at 1;
    rewrite Hst; eval_tests; cbn [orb]; destruct (finish l s); done.
  all: destruct s as [? ? ? ? st' ? ? ? ? ? ? ? ?]; cbn in Hst; subst st';
    cbn [outer]; unfold inner, setSyncState, set_loop_at, out; run_simpl; done.
Qed.

Definition next_count (c : Z) : Z := if MAX_RETRY_DELAY_FACTOR <=? c then MAX_RETRY_DELAY_FACTOR else c + 1.

Lemma attemptRetry_run l s :
  match _syncState s with
  | Starting | Syncing | Retrying =>
      res (attemptRetry l s) = Ok true
      /\ ctl (post (attemptRetry l s))
         = (Retrying, moved l AtRetryWait (loops s),
            if bool_decide (_syncState s = Retrying) then syncId s else None,
            Some l, next_count (currentRetryCount s))
  | _ => res (attemptRetry l s) = Ok false /\ ctl (post (attemptRetry l s)) = ctl s
  end.
Proof.
  unfold attemptRetry, stopPing, setSyncState, set_loop_at, out.
  destruct s as [? ? ? ? [] ? ? ? ? ? ? ? ?]; run_simpl; done.
Qed.

Lemma run_bind_post {A B} (m : M (Stream := Stream) A) (k : A -> M B) s a :
  res (m s) = Ok a -> post ((m ≫= k) s) = post (k a (post (m s))).
Proof.
  intros Hr. unfold mbind, JS_mbind, js_bind. destruct (m s) as [r s1 w]; cbn [res post] in *; subst.
  by destruct (k a s1).
Qed.

Lemma onLoopError_ctl l s :
  ctl (post (onLoopError l s))
  = match _syncState s with
    | Starting | Syncing => (Retrying, moved l AtRetryWait (loops s), None, Some l, next_count (currentRetryCount s))
    | Retrying => (Retrying, moved l AtRetryWait (loops s), syncId s, Some l, next_count (currentRetryCount s))
    | Canceling => (NotSyncing, moved l Ended (loops s), None, None, currentRetryCount s)
    | NotSyncing => (NotSyncing, moved l Ended (loops s), syncId s, releaseRetryWait s, currentRetryCount s)
    end.
Proof.
  unfold onLoopError. pose proof (attemptRetry_run l s) as Ha.
  destruct (_syncState s) eqn:Hst; destruct Ha as [Hr Hc]; rewrite (run_bind_post _ _ _ _ Hr); cbn [negb js_when]; try done.
  all: rewrite run_loop_ctl; unfold ctl in Hc; rewrite Hst in Hc; injection Hc as E1 E2 E3 E4 E5;
    rewrite E1, E2, ?E3, ?E4, E5; done.
Qed.

Lemma inner_ctl l s :
  ctl (post (inner (run_loop l) l s))
  = if is_syncing (_syncState s)
    then (_syncState s, moved l AtNext (loops s), syncId s, releaseRetryWait s, currentRetryCount s)
    else ctl (post (run_loop l s)).
Proof.
  unfold inner, is_syncing. unfold mbind at 1, JS_mbind at 1, js_bind at 1, js_get at 1.
  destruct (_ || _); [done|]. by destruct (run_loop l s).
Qed.

Lemma handleResponse_run now v s :
  _syncState s <> NotSyncing -> _syncState s <> Retrying ->
  res (handleResponse now v s) = Ok tt
  /\ ctl (post (handleResponse now v s))
     = match ssr_syncOp v with
       | SYNC_NEW => if bool_decide (_syncState s = Starting) && negb (is_defined (truthy_str (syncId s)))
                     then (Syncing, loops s, Some (ssr_syncId v), releaseRetryWait s, 0) else ctl s
       | SYNC_CLOSE => if bool_decide (_syncState s = Canceling) then ctl s
                       else (Retrying, loops s, syncId s, releaseRetryWait s, currentRetryCount s)
       | _ => ctl s
       end.
Proof.
  intros Hns Hnr. unfold handleResponse. destruct (ssr_syncOp v); try done.
  - unfold syncStarted, setSyncState, sendKeepAlivePings, out.
    destruct s as [? ? ? i [] ? ? ? ? ? ? ? ?]; try done; destruct (truthy_str i) eqn:Hi; run_simpl; rewrite Hi; run_simpl; done.
  - unfold syncClosed, stopPing, setSyncState, out. destruct s as [? ? ? ? [] ? ? ? ? ? ? ? ?]; try done; run_simpl; done.
  - split; [|apply ctl_bind; [by apply ctl_modify|intros _; apply keeps_checkStartTicking]].
    unfold mbind, JS_mbind, js_bind, js_modify. unfold checkStartTicking.
    unfold mbind, JS_mbind, js_bind, js_get, js_try, js_modify, js_return, js_ret.
    repeat case_match; simplify_eq/=; done.
Qed.

(** ** The documented states *)

(** What the code relies on without checking it: the client starts the sync only when it
    is stopped, the node ends the responses only when it was asked to, and the timer of a
    stop fires only while a stop is under way. The code does not see to the last: when
    [cancelSync] rejects, [stopSync] ends without clearing its timer, and what this does
    to a later session is [stale_timer_deserts]. *)
Definition orderly (e : sync_event Stream) s : Prop :=
  match e with
  | E_start => _syncState s = NotSyncing
  | E_done _ | E_forceStop => _syncState s = Canceling
  | _ => True
  end.

Lemma count_bound c : 0 <= c <= MAX_RETRY_DELAY_FACTOR -> 0 <= next_count c <= MAX_RETRY_DELAY_FACTOR.
Proof. unfold next_count, MAX_RETRY_DELAY_FACTOR. destruct (Z.leb_spec 7 c); lia. Qed.

(** The one loop of a documented state that has not ended. *)
Definition the_loop (l : nat) (a : loop_at) s : Prop :=
  sole_loop l a (loops s)
  /\ match a with
     | AtNext => _syncState s = Starting \/ _syncState s = Syncing \/ _syncState s = Canceling
     | AtRetryWait => _syncState s = Retrying
     | AtReleased => _syncState s = Retrying \/ _syncState s = Canceling
     | Ended => False
     end
  /\ releaseRetryWait s = (if bool_decide (a = AtRetryWait) then Some l else None).

Lemma all_ended_lookup ls l a : all_ended ls -> at_ <$> ls !! l = Some a -> a = Ended.
Proof. intros He Hl. destruct (ls !! l) as [x|] eqn:Hx; [|done]. injection Hl as <-. by apply (He l). Qed.

Lemma suspended_loop l a s :
  documented s -> at_ <$> loops s !! l = Some a -> a <> Ended -> the_loop l a s.
Proof.
  unfold documented, documented_at, the_loop. intros [Hd _] Hl Ha. destruct (_syncState s).
  - destruct Hd as (l' & [Hs|Hs] & ->); destruct (sole_inj _ _ _ _ _ Hs ltac:(done) Hl Ha) as [-> ->]; auto.
  - destruct Hd as [He _]. by destruct Ha; eapply all_ended_lookup.
  - destruct Hd as (l' & _ & [[Hs ->]|[Hs ->]]); destruct (sole_inj _ _ _ _ _ Hs ltac:(done) Hl Ha) as [-> ->]; auto.
  - destruct Hd as (l' & Hs & _ & ->); destruct (sole_inj _ _ _ _ _ Hs ltac:(done) Hl Ha) as [-> ->]; auto.
  - destruct Hd as (l' & i & Hs & _ & _ & ->); destruct (sole_inj _ _ _ _ _ Hs ltac:(done) Hl Ha) as [-> ->]; auto.
Qed.

(** A loop that waits for a response: what a failure and what a response do. *)
Lemma error_documented l s : documented s -> the_loop l AtNext s -> documented (post (onLoopError l s)).
Proof.
  intros [_ Hc] (Hs & Hst & _).
  destruct Hst as [Hst|[Hst|Hst]]; (eapply documented_by; [rewrite onLoopError_ctl, Hst; reflexivity|]); split;
    try (by apply count_bound); try done.
  - exists l. split; [done|]. left. split; [by eapply sole_alter|done].
  - exists l. split; [done|]. left. split; [by eapply sole_alter|done].
  - split_and!; try done. by eapply sole_ended, sole_alter.
Qed.

Lemma run_documented l a s :
  sole_loop l a (loops s) -> _syncState s = Canceling \/ _syncState s = Retrying \/ _syncState s = Starting ->
  releaseRetryWait s = None -> 0 <= currentRetryCount s <= MAX_RETRY_DELAY_FACTOR ->
  documented (post (run_loop l s)).
Proof.
  intros Hs Hst Hr Hc.
  destruct Hst as [Hst|[Hst|Hst]]; (eapply documented_by; [rewrite run_loop_ctl, Hst; reflexivity|]); split; try done.
  - split_and!; try done. by eapply sole_ended, sole_alter.
  - exists l. split_and!; try done. by eapply sole_alter, sole_count.
  - exists l. split_and!; try done. by eapply sole_alter, sole_count.
Qed.

(** The head of the inner loop, after any response. *)
Lemma inner_documented l s :
  sole_loop l AtNext (loops s) -> releaseRetryWait s = None -> 0 <= currentRetryCount s <= MAX_RETRY_DELAY_FACTOR ->
  match _syncState s with
  | NotSyncing => False
  | Starting => syncId s = None
  | Syncing => exists i, syncId s = Some i /\ i <> ""
  | _ => True
  end -> documented (post (inner (run_loop l) l s)).
Proof.
  intros Hs Hr Hc Hst. destruct (_syncState s) eqn:E; try done.
  1,2: eapply documented_ctl; [by rewrite inner_ctl, E|]; eapply run_documented; eauto.
  all: eapply documented_by; [rewrite inner_ctl, E; reflexivity|]; split; try done.
  - exists l. split; [by eapply sole_alter|done].
  - destruct Hst as (i & Hi & Hne). exists l, i. split; [by eapply sole_alter|done].
Qed.

Lemma handled_post now l v s :
  _syncState s <> NotSyncing -> _syncState s <> Retrying ->
  ssr_syncId v <> "" -> ssr_syncOp v <> SYNC_UNSPECIFIED ->
  post (onLoopValue now l v s) = post (inner (run_loop l) l (post (handleResponse now v s))).
Proof.
  intros Hns Hnr Hid Hop. destruct (handleResponse_run now v s Hns Hnr) as [Hr _].
  unfold onLoopValue. destruct (String.eqb_spec (ssr_syncId v) "") as [?|_]; [done|].
  unfold truthy_str. destruct (String.eqb_spec (ssr_syncId v) "") as [?|_]; [done|]. cbn [is_defined negb orb].
  replace (match ssr_syncOp v with SYNC_UNSPECIFIED => true | _ => false end) with false
    by (by destruct (ssr_syncOp v)).
  unfold js_try, mbind, JS_mbind, js_bind, mret, JS_mret, js_ret.
  destruct (handleResponse now v s) as [r s1 w]. cbn [res] in Hr. subst r. cbn [post].
  by destruct (inner (run_loop l) l s1).
Qed.

Lemma value_documented now l v s :
  documented s -> the_loop l AtNext s -> documented (post (onLoopValue now l v s)).
Proof.
  intros [Hd Hc] (Hs & Hst & Hr). change (releaseRetryWait s = None) in Hr.
  assert (Hid : match _syncState s with
    | NotSyncing => False
    | Starting => syncId s = None
    | Syncing => exists i, syncId s = Some i /\ i <> ""
    | _ => True
    end).
  { unfold documented_at in Hd. destruct Hst as [E|[E|E]]; rewrite E in *; [by destruct Hd as (? & _ & ? & _)| |done].
    destruct Hd as (? & i & _ & ? & ? & _). eauto. }
  destruct (decide (ssr_syncId v = "" \/ ssr_syncOp v = SYNC_UNSPECIFIED)) as [Hskip|Hnone].
  { replace (onLoopValue now l v) with (inner (run_loop l) l); [by apply inner_documented|].
    unfold onLoopValue. destruct Hskip as [E|E]; rewrite E; [done|]. by rewrite orb_true_r. }
  rewrite handled_post; [|destruct Hst as [E|[E|E]]; by rewrite E..|tauto|tauto].
  destruct (handleResponse_run now v s) as [_ Hh]; [destruct Hst as [E|[E|E]]; by rewrite E..|].
  set (s1 := post (handleResponse now v s)) in *.
  assert (Hnew : loops s1 = loops s /\ releaseRetryWait s1 = None
    /\ 0 <= currentRetryCount s1 <= MAX_RETRY_DELAY_FACTOR
    /\ match _syncState s1 with
       | NotSyncing => False
       | Starting => syncId s1 = None
       | Syncing => exists i, syncId s1 = Some i /\ i <> ""
       | _ => True
       end).
  { rewrite <-Hr. revert Hh. unfold ctl.
    assert (Hsame : (_syncState s1, loops s1, syncId s1, releaseRetryWait s1, currentRetryCount s1)
      = (_syncState s, loops s, syncId s, releaseRetryWait s, currentRetryCount s) ->
      loops s1 = loops s /\ releaseRetryWait s1 = releaseRetryWait s
      /\ 0 <= currentRetryCount s1 <= MAX_RETRY_DELAY_FACTOR
      /\ match _syncState s1 with
         | NotSyncing => False
         | Starting => syncId s1 = None
         | Syncing => exists i, syncId s1 = Some i /\ i <> ""
         | _ => True
         end) by (by intros [= -> -> -> -> ->]).
    destruct (ssr_syncOp v); try exact Hsame; (destruct (bool_decide _); cbn [andb]; [|exact Hsame || idtac]); try exact Hsame.
    - destruct (negb _); [|exact Hsame]. intros [= -> -> -> -> ->].
      split_and!; try done. exists (ssr_syncId v). split; [done|]. tauto.
    - intros [= E1 E2 _ E4 E5]. rewrite E1, E2, E4, E5. done. }
  destruct Hnew as (Hl1 & Hr1 & Hc1 & Hid1). apply inner_documented; try done. by rewrite Hl1.
Qed.

Lemma finish_ok l s : res (finish l s) = Ok tt.
Proof.
  unfold finish, stopPing, setSyncState, set_loop_at, out. js_unfold.
  destruct s as [? ? ? ? [] ? ? ? ? ? ? ? ?]; run_simpl; rewrite ?for_out; done.
Qed.

Lemma run_loop_ok l s : res (run_loop l s) = Ok tt.
Proof.
  unfold run_loop. destruct (_syncState s) eqn:Hst.
  1,2: rewrite <-(finish_ok l s);
    cbn [outer]; unfold mbind at 1, JS_mbind at 1, js_bind at 1, js_get at 1;
    rewrite Hst; eval_tests; cbn [orb]; destruct (finish l s); done.
  all: destruct s as [? ? ? ? st' ? ? ? ? ? ? ? ?]; cbn in Hst; subst st';
    cbn [outer]; unfold inner, setSyncState, set_loop_at, out; run_simpl; done.
Qed.

Lemma release_ctl s :
  ctl (post (callReleaseRetryWait s))
  = match releaseRetryWait s with
    | Some l => (_syncState s, moved l AtReleased (loops s), syncId s, None, currentRetryCount s)
    | None => ctl s
    end.
Proof. destruct s as [? ? ? ? ? [] ? ? ? ? ? ? ?]; done. Qed.

Lemma release_documented s : documented s -> documented (post (callReleaseRetryWait s)).
Proof.
  intros [Hd Hc]. destruct (releaseRetryWait s) as [l|] eqn:Hr.
  2: { apply documented_ctl with s; [by rewrite release_ctl, Hr|by split; rewrite ?Hr]. }
  eapply documented_by; [rewrite release_ctl, Hr; reflexivity|]. split; [|done].
  unfold documented_at in Hd. destruct (_syncState s); naive_solver eauto using sole_alter.
Qed.

Lemma stop_ctl s :
  ctl (post (stopSync s))
  = if canTransition (_syncState s) Canceling
    then (Canceling, match releaseRetryWait s with Some l => moved l AtReleased (loops s) | None => loops s end,
          syncId s, None, currentRetryCount s)
    else ctl s.
Proof.
  unfold stopSync, callReleaseRetryWait, stopPing, setSyncState, set_loop_at, out, js_try.
  destruct s as [? ? ? i st' r ? ? ? ? ? ? ?], st', r; run_simpl; try done; destruct (truthy_str i); done.
Qed.

Lemma stop_documented s : documented s -> documented (post (stopSync s)).
Proof.
  intros Hd. destruct (canTransition (_syncState s) Canceling) eqn:Hcan.
  2: { apply documented_ctl with s; [by rewrite stop_ctl, Hcan|done]. }
  eapply documented_by; [rewrite stop_ctl, Hcan; reflexivity|]. destruct Hd as [Hd Hc]. split; [|done].
  unfold documented_at in Hd. destruct (_syncState s); try done.
  - destruct Hd as (l & _ & [[Hs ->]|[Hs ->]]); exists l; split; try done; right; [by eapply sole_alter|done].
  - destruct Hd as (l & Hs & _ & ->). exists l. auto.
  - destruct Hd as (l & i & Hs & _ & _ & ->). exists l. auto.
Qed.

Lemma done_documented l s :
  documented s -> the_loop l AtNext s -> _syncState s = Canceling -> documented (post (onLoopDone l s)).
Proof.
  intros [_ Hc] (Hs & _ & _) Hst. unfold onLoopDone. rewrite (run_bind_post _ _ _ tt) by done. cbn [post js_modify].
  eapply documented_by; [rewrite finish_ctl; cbn [_syncState set_interrupts]; rewrite Hst; reflexivity|].
  split; [|done]. split_and!; try done. by eapply sole_ended, sole_alter.
Qed.

(** The state in which a new loop is run for the first time. *)
Definition starting s : st := set_loops (fun ls => ls ++ [mkLoop 0 AtNext]) (set_syncState Starting s).

#[local] Opaque run_loop.

Lemma start_post s :
  _syncState s = NotSyncing ->
  post (startSyncStreams s)
  = set_syncLoop (Some (length (loops s))) (post (run_loop (length (loops s)) (starting s)))
  /\ res (startSyncStreams s)
     = if is_defined (syncLoop s) then Throw (JsError "createSyncLoop called while a loop exists") else Ok tt.
Proof.
  intros Hst. pose proof (run_loop_ok (length (loops s)) (starting s)) as Hok.
  unfold startSyncStreams, createSyncLoop, setSyncState, out. destruct s as [? ? sl ? st' ? ? ? ? ? ? ? ?].
  cbn in Hst. subst st'. unfold starting in *. cbn in Hok |- *. run_simpl.
  destruct (run_loop (length _) _) as [r s1 w]. cbn [res] in Hok. subst r. cbn. by destruct sl.
Qed.

Lemma start_documented s : documented s -> _syncState s = NotSyncing -> documented (post (startSyncStreams s)).
Proof.
  intros [Hd Hc] Hst. rewrite Hst in Hd. destruct Hd as (He & _ & Hr).
  destruct (start_post s Hst) as [-> _].
  apply documented_ctl with (post (run_loop (length (loops s)) (starting s))); [done|].
  apply run_documented with AtNext; try done; [|auto]. by apply (sole_app (loops s) (mkLoop 0 AtNext)).
Qed.

Lemma when_at_documented l a (m : M unit) s :
  documented s -> a <> Ended -> (the_loop l a s -> documented (post (m s))) -> documented (post (when_at l a m s)).
Proof.
  intros Hd Ha Hm. unfold when_at, loop_is. js_unfold.
  destruct (bool_decide_reflect (at_ <$> loops s !! l = Some a)) as [Hl|_]; [|done].
  specialize (Hm (suspended_loop l a s Hd Hl Ha)). by destruct (m s).
Qed.

Lemma timeout_documented l s :
  documented s -> the_loop l AtRetryWait s ->
  documented (post ((js_modify (set_releaseRetryWait None);; run_loop l) s)).
Proof.
  intros [_ Hc] (Hs & Hst & _). rewrite (run_bind_post _ _ _ tt) by done.
  by apply run_documented with AtRetryWait; auto.
Qed.

Lemma keeps_documented {A} (m : M A) s : keeps_ctl m -> documented s -> documented (post (m s)).
Proof. intros Hm. apply documented_ctl, Hm. Qed.

Lemma keeps_remove i : keeps_ctl (removeStreamFromSync i).
Proof.
  unfold removeStreamFromSync. apply ctl_bind; [by apply ctl_pure|]. intros self.
  destruct (bool_decide _); [|by apply ctl_pure].
  repeat (apply ctl_bind; [|intros _]); try (by apply ctl_pure); try (by apply ctl_modify).
  apply ctl_try; [|by intros ?; apply ctl_pure]. apply ctl_bind; by intros ?; apply ctl_pure.
Qed.

Lemma step_documented e s : documented s -> orderly e s -> documented (post (run_event e s)).
Proof.
  intros Hd Ho. destruct e; cbn [run_event orderly] in *.
  - by apply start_documented.
  - by apply stop_documented.
  - unfold onNetworkStatusChanged. destruct isOnline; [by apply release_documented|done].
  - unfold onMobileSafariBackgrounded. rewrite (run_bind_post _ _ _ tt) by done. cbn [js_modify post].
    apply (documented_ctl _ (set_backgrounded hidden s)) in Hd; [|done].
    destruct hidden; [done|]. cbn [negb js_when]. rewrite (run_bind_post _ _ _ tt).
    + apply keeps_documented; [apply keeps_checkStartTicking|by apply release_documented].
    + unfold callReleaseRetryWait. js_unfold. by destruct (releaseRetryWait _).
  - apply when_at_documented; try done. intros Hl. by apply value_documented.
  - apply when_at_documented; try done. intros Hl. by apply done_documented.
  - apply when_at_documented; try done. intros Hl. by apply error_documented.
  - apply when_at_documented; try done. intros Hl. by apply timeout_documented.
  - apply when_at_documented; try done. intros (Hs & Hst & Hr).
    apply run_documented with AtReleased; try done; [naive_solver|by destruct Hd].
  - js_unfold. destruct (forceStopSyncStreams s) as [l|]; [|done].
    assert (Hx : documented (post (when_at l AtNext (onLoopDone l) s))); [|by destruct (when_at _ _ _ _)].
    apply when_at_documented; try done. intros Hl. by apply done_documented.
  - js_unfold. destruct (interruptSync s) as [l|]; [|done].
    assert (Hx : documented (post (when_at l AtNext (onLoopError l) s))); [|by destruct (when_at _ _ _ _)].
    apply when_at_documented; try done. intros Hl. by apply error_documented.
  - apply keeps_documented; [|done]. apply ctl_bind; [by apply ctl_modify|].
    intros _. apply keeps_checkStartTicking.
  - unfold ping. js_unfold. destruct (truthy_str _); [|done]. by destruct (bool_decide _).
  - unfold pingAnswered. js_unfold. by destruct (bool_decide _).
  - done.
  - apply keeps_documented; [|done]. unfold delete. apply ctl_bind; [by apply ctl_pure|]. intros self.
    apply ctl_bind; [apply ctl_when; by apply ctl_pure|intros _; by apply ctl_modify].
  - unfold addStreamToSync. js_unfold. destruct (bool_decide _); [|done].
    destruct reply; [done|]. by destruct badCookie.
  - apply keeps_documented; [apply keeps_remove|done].
Qed.

(** Sequences of events of orderly clients and nodes. *)
Inductive orderly_run : st -> Prop :=
| orderly_new : orderly_run new
| orderly_step s e : orderly_run s -> orderly e s -> orderly_run (post (run_event e s)).

Lemma run_is_documented s : orderly_run s -> documented s.
Proof.
  induction 1 as [|s e _ IH He]; [|by apply step_documented].
  split; [|cbn; unfold MAX_RETRY_DELAY_FACTOR; lia]. split_and!; try done.
Qed.

(** ** The end of a sync *)

Lemma finish_run l s :
  _syncState s = Canceling ->
  finish l s = Outcome (Ok tt) (post (finish l s))
    (streamSyncStateChange NotSyncing :: map StreamStopped (jm_keys (streams s)) ++ [streamSyncActive false])
  /\ streams (post (finish l s)) = [] /\ responsesQueue (post (finish l s)) = responsesQueue s.
Proof.
  intros Hst. destruct s as [? ? ? ? st' ? ? ? ? ? ? ? ?]. cbn in Hst. subst st'.
  unfold finish, stopPing, setSyncState, set_loop_at, out. run_simpl. rewrite for_out. cbn. by rewrite app_nil_r.
Qed.

#[local] Transparent run_loop.
Lemma run_loop_canceling l s : _syncState s = Canceling -> run_loop l s = finish l s.
Proof.
  intros Hst. unfold run_loop. cbn [outer]. unfold mbind at 1, JS_mbind at 1, js_bind at 1, js_get at 1.
  rewrite Hst. eval_tests. cbn [orb]. by destruct (finish l s).
Qed.
#[local] Opaque run_loop.

(** What a loop gets last: the end of the responses, the node's acknowledgement, a
    failure, or the release of its wait. *)
Definition last_event (l : nat) (a : loop_at) (e : sync_event Stream) : Prop :=
  match a with
  | AtNext => e = E_done l \/ e = E_error l
      \/ exists now id nonce, id <> "" /\ e = E_value l now (mkSyncStreamsResponse id SYNC_CLOSE None nonce)
  | AtReleased => e = E_resume l
  | _ => False
  end.

(** Everything a stopped sync leaves behind. *)
Definition stopped_by (s : st) (o : outcome sync_out st unit) : Prop :=
  _syncState (post o) = NotSyncing /\ syncId (post o) = None /\ streams (post o) = []
  /\ all_ended (loops (post o))
  /\ (forall k, k ∈ jm_keys (streams s) -> StreamStopped k ∈ emits o)
  /\ (streamSyncActive false ∈ emits o).

Lemma finish_stops l a s s0 :
  _syncState s = Canceling -> sole_loop l a (loops s) -> streams s = streams s0 -> stopped_by s0 (finish l s).
Proof.
  intros Hst Hs Hss. pose proof (finish_ctl l s) as Hc. rewrite Hst in Hc. unfold ctl in Hc. injection Hc as E1 E2 E3 _ _.
  destruct (finish_run l s Hst) as (Hf & Hempty & _). unfold stopped_by. rewrite E1, E2, E3, Hempty, Hf.
  cbn [emits]. split_and!; try done.
  - by eapply sole_ended, sole_alter.
  - intros k Hk. right. apply elem_of_app. left. rewrite <-Hss in Hk. apply list_elem_of_fmap. by exists k.
  - right. apply elem_of_app. right. by left.
Qed.

Lemma when_at_run l a (m : M unit) s : at_ <$> loops s !! l = Some a -> when_at l a m s = m s.
Proof.
  intros Hl. unfold when_at, loop_is. js_unfold. rewrite bool_decide_eq_true_2 by done. by destruct (m s).
Qed.

Lemma bind_outcome {A B} (m : M (Stream := Stream) A) (k : A -> M B) s a s1 :
  m s = Outcome (Ok a) s1 [] -> (m ≫= k) s = k a s1.
Proof. intros Hm. unfold mbind, JS_mbind, js_bind. rewrite Hm. by destruct (k a s1). Qed.

Lemma stopped_by_last l a e s s0 :
  _syncState s = Canceling -> sole_loop l a (loops s) -> streams s = streams s0 -> last_event l a e ->
  stopped_by s0 (run_event e s).
Proof.
  intros Hst Hs Hss He. destruct a; try done.
  - destruct He as [->|[->|(now & id & nonce & Hid & ->)]]; cbn [run_event]; rewrite when_at_run by apply Hs.
    + unfold onLoopDone. rewrite (bind_outcome _ _ _ tt (set_interrupts None None s)) by done. by eapply finish_stops.
    + unfold onLoopError. rewrite (bind_outcome _ _ _ false (set_pingInfo (fun _ => mkPingInfo ∅ 0 false) s)).
      * cbn [negb js_when]. rewrite run_loop_canceling by done. by eapply finish_stops.
      * unfold attemptRetry, stopPing. js_unfold. cbn. by rewrite Hst.
    + unfold onLoopValue. cbn [ssr_syncId ssr_syncOp truthy_str].
      destruct (String.eqb_spec id "") as [?|_]; [done|]. cbn [is_defined negb orb].
      rewrite (bind_outcome _ _ _ false (set_pingInfo (fun _ => mkPingInfo ∅ 0 false) s)).
      * unfold inner. rewrite (bind_outcome _ _ _ (set_pingInfo (fun _ => mkPingInfo ∅ 0 false) s)
          (set_pingInfo (fun _ => mkPingInfo ∅ 0 false) s)) by done. cbn [_syncState set_pingInfo]. rewrite Hst. cbn [is_syncing].
        change (is_syncing Canceling) with false. cbn iota. rewrite run_loop_canceling by done. by eapply finish_stops.
      * unfold handleResponse, syncClosed, stopPing, js_try. cbn [ssr_syncOp]. js_unfold. cbn. rewrite Hst. done.
  - cbn [last_event] in He. subst e. cbn [run_event]. rewrite when_at_run by apply Hs.
    rewrite run_loop_canceling by done. by eapply finish_stops.
Qed.

(** ** The announced transitions *)

Fixpoint state_changes (w : list sync_out) : list SyncState :=
  match w with
  | [] => []
  | streamSyncStateChange x :: w => x :: state_changes w
  | _ :: w => state_changes w
  end.

(** [xs] leads from [a] to [b] along the constraints, each state a new one. *)
Fixpoint state_path (a : SyncState) (xs : list SyncState) (b : SyncState) : Prop :=
  match xs with
  | [] => a = b
  | x :: xs => x <> a /\ x ∈ stateConstraints a /\ state_path x xs b
  end.

Lemma state_changes_app w1 w2 : state_changes (w1 ++ w2) = state_changes w1 ++ state_changes w2.
Proof. induction w1 as [|[] w1 IH]; cbn; by rewrite ?IH. Qed.

Lemma state_path_app a xs b ys c : state_path a xs b -> state_path b ys c -> state_path a (xs ++ ys) c.
Proof. revert a. induction xs as [|x xs IH]; intros a; cbn; [by intros ->|]. naive_solver. Qed.

Definition tracked {A} (m : M (Stream := Stream) A) : Prop :=
  forall s, state_path (_syncState s) (state_changes (emits (m s))) (_syncState (post (m s))).

Lemma tracked_bind {A B} (m : M A) (k : A -> M B) : tracked m -> (forall a, tracked (k a)) -> tracked (m ≫= k).
Proof.
  intros Hm Hk s. specialize (Hm s). unfold mbind, JS_mbind, js_bind.
  destruct (m s) as [[a|e] s1 w1]; [|done]. specialize (Hk a s1). destruct (k a s1) as [r s2 w2].
  cbn [emits post] in *. rewrite state_changes_app. by eapply state_path_app.
Qed.

Lemma tracked_get_bind {B} (k : st -> M B) :
  (forall s, state_path (_syncState s) (state_changes (emits (k s s))) (_syncState (post (k s s)))) ->
  tracked (js_get ≫= k).
Proof. intros Hk s. specialize (Hk s). rewrite (bind_outcome js_get k s s s) by done. done. Qed.

Lemma tracked_try {A} (m : M A) h : tracked m -> (forall e, tracked (h e)) -> tracked (js_try m h).
Proof.
  intros Hm Hh s. specialize (Hm s). unfold js_try. destruct (m s) as [[a|e] s1 w1]; [done|].
  specialize (Hh e s1). destruct (h e s1) as [r s2 w2]. cbn [emits post] in *.
  rewrite state_changes_app. by eapply state_path_app.
Qed.

Lemma tracked_modify f : (forall s, _syncState (f s) = _syncState s) -> tracked (js_modify f).
Proof. intros Hf s. cbn. by rewrite Hf. Qed.

Lemma tracked_silent {A} (m : M A) :
  (forall s, state_changes (emits (m s)) = [] /\ _syncState (post (m s)) = _syncState s) -> tracked m.
Proof. intros Hm s. destruct (Hm s) as [-> ->]. done. Qed.

Lemma tracked_for {A} (xs : list A) (f : A -> M unit) : (forall x, tracked (f x)) -> tracked (js_for xs f).
Proof. intros Hf. induction xs; [by apply tracked_silent|]. cbn [js_for]. by apply tracked_bind. Qed.

Lemma tracked_when b (m : M unit) : tracked m -> tracked (js_when b m).
Proof. intros Hm. destruct b; [done|]. by apply tracked_silent. Qed.

Lemma tracked_setSyncState x : tracked (setSyncState x).
Proof.
  intros s. unfold setSyncState, canTransition, out. js_unfold.
  destruct (bool_decide_reflect (_syncState s = x)); [done|].
  destruct (bool_decide_reflect (x ∈ stateConstraints (_syncState s))); [|done]. cbn. auto.
Qed.

#[local] Hint Resolve tracked_setSyncState : tracked.
Ltac track :=
  repeat first
    [ solve [auto 1 with tracked nocore]
    | apply tracked_when
    | apply tracked_for; intros ?
    | apply tracked_bind; [|intros ?]
    | apply tracked_try; [|intros ?]
    | (by apply tracked_modify)
    | (by apply tracked_silent)
    | case_match ].

#[local] Transparent run_loop.
Lemma tracked_attemptRetry l : tracked (attemptRetry l).
Proof. unfold attemptRetry, stopPing, set_loop_at, out. track. Qed.

Lemma tracked_finish l : tracked (finish l).
Proof. unfold finish, stopPing, set_loop_at, out. track. Qed.
#[local] Hint Resolve tracked_attemptRetry tracked_finish : tracked.

Lemma tracked_outer fuel l : tracked (outer fuel l).
Proof. induction fuel; cbn [outer]; unfold inner, set_loop_at, out; track. Qed.

Lemma tracked_run_loop l : tracked (run_loop l).
Proof. apply tracked_outer. Qed.
#[local] Hint Resolve tracked_run_loop : tracked.

Lemma tracked_onLoopError l : tracked (onLoopError l).
Proof. unfold onLoopError. track. Qed.

Lemma tracked_inner l : tracked (inner (run_loop l) l).
Proof. unfold inner, set_loop_at. track. Qed.

Lemma tracked_with_stream k stream m : tracked (with_stream k stream m).
Proof. unfold with_stream, out. track. Qed.
#[local] Hint Resolve tracked_onLoopError tracked_inner tracked_with_stream : tracked.

Lemma tracked_tick : tracked tick.
Proof. unfold tick, onUpdate. cbv zeta. track. Qed.
#[local] Hint Resolve tracked_tick : tracked.

Lemma tracked_checkStartTicking : tracked checkStartTicking.
Proof. unfold checkStartTicking. track. Qed.

Lemma tracked_release : tracked callReleaseRetryWait.
Proof. unfold callReleaseRetryWait, set_loop_at. track. Qed.
#[local] Hint Resolve tracked_checkStartTicking tracked_release : tracked.

Lemma tracked_handleResponse now v : tracked (handleResponse now v).
Proof. unfold handleResponse, syncStarted, syncClosed, sendKeepAlivePings, stopPing, out. track. Qed.
#[local] Hint Resolve tracked_handleResponse : tracked.

Lemma tracked_onLoopValue now l v : tracked (onLoopValue now l v).
Proof. unfold onLoopValue. track. Qed.

Lemma tracked_onLoopDone l : tracked (onLoopDone l).
Proof. unfold onLoopDone. track. Qed.
#[local] Hint Resolve tracked_onLoopValue tracked_onLoopDone : tracked.

Lemma tracked_event e : tracked (run_event e).
Proof.
  destruct e; cbn [run_event];
    unfold startSyncStreams, createSyncLoop, stopSync, onNetworkStatusChanged, onMobileSafariBackgrounded,
      when_at, tickEnded, stopPing, ping, pingAnswered, sendKeepAlivePings, set, delete, addStreamToSync,
      removeStreamFromSync, out; cbv zeta; track.
Qed.
#[local] Opaque run_loop.

(** A run of events from a state, with everything it put out. *)
Fixpoint run_events (es : list (sync_event Stream)) s : st * list sync_out :=
  match es with
  | [] => (s, [])
  | e :: es =>
      let o := run_event e s in
      let '(s', w) := run_events es (post o) in (s', emits o ++ w)
  end.

(** ** Repeated failures *)

(** The connection fails, the retry timer elapses, and the loop starts again. *)
Definition failed_round (l : nat) s : st :=
  post (run_event (E_retryTimeout l) (post (run_event (E_error l) s))).

(** The loop has opened a session and [n] attempts have failed since the last
    response. *)
Definition attempting (l n : nat) s : Prop :=
  _syncState s = Starting /\ sole_loop l AtNext (loops s)
  /\ currentRetryCount s = Z.min (Z.of_nat n) MAX_RETRY_DELAY_FACTOR.

Lemma failed_round_spec l n s : attempting l n s -> attempting l (S n) (failed_round l s).
Proof.
  intros (Hst & Hs & Hc). unfold failed_round. cbn [run_event]. rewrite (when_at_run l AtNext) by apply Hs.
  pose proof (onLoopError_ctl l s) as He. rewrite Hst in He. unfold ctl in He. injection He as E1 E2 _ _ E5.
  set (s1 := post (onLoopError l s)) in *.
  assert (Hs1 : sole_loop l AtRetryWait (loops s1)) by (rewrite E2; by eapply sole_alter).
  rewrite (when_at_run l AtRetryWait) by apply Hs1.
  rewrite (bind_outcome _ _ _ tt (set_releaseRetryWait None s1)) by done.
  pose proof (run_loop_ctl l (set_releaseRetryWait None s1)) as Hr. cbn [_syncState set_releaseRetryWait] in Hr.
  rewrite E1 in Hr. unfold ctl in Hr. injection Hr as R1 R2 _ _ R5. unfold attempting. rewrite R1, R2, R5.
  split_and!; [done| |].
  - by eapply sole_alter, sole_count.
  - cbn [currentRetryCount set_releaseRetryWait]. rewrite E5, Hc. unfold next_count, MAX_RETRY_DELAY_FACTOR.
    destruct (Z.leb_spec 7 (Z.min (Z.of_nat n) 7)); lia.
Qed.

Lemma failed_delay l n s :
  attempting l n s ->
  RetryTimer (2 ^ Z.min (Z.of_nat (S n)) MAX_RETRY_DELAY_FACTOR * 1000) ∈ emits (run_event (E_error l) s).
Proof.
  intros (Hst & Hs & Hc). cbn [run_event]. rewrite (when_at_run l AtNext) by apply Hs.
  replace (Z.min (Z.of_nat (S n)) MAX_RETRY_DELAY_FACTOR) with (next_count (currentRetryCount s)).
  - destruct s as [? ? ? ? st' ? ? ? ? ? ? ? ?]. cbn in Hst. subst st'.
    unfold onLoopError, attemptRetry, stopPing, setSyncState, set_loop_at, out. run_simpl.
    rewrite !elem_of_cons. auto.
  - rewrite Hc. unfold next_count, MAX_RETRY_DELAY_FACTOR. destruct (Z.leb_spec 7 (Z.min (Z.of_nat n) 7)); lia.
Qed.

(** ** A loop that has ended too early *)

(** No loop is left and the state is one that only a loop would leave. *)
Definition deserted s : Prop :=
  all_ended (loops s) /\ releaseRetryWait s = None /\ (_syncState s = Syncing \/ _syncState s = Canceling).

Lemma deserted_ctl s s' : ctl s' = ctl s -> deserted s -> deserted s'.
Proof. unfold deserted, ctl. by intros [= -> -> _ -> _]. Qed.

Lemma when_at_deserted l a (m : M unit) s : deserted s -> a <> Ended -> when_at l a m s = Outcome (Ok tt) s [].
Proof.
  intros (He & _) Ha. unfold when_at, loop_is. js_unfold. rewrite bool_decide_eq_false_2; [done|].
  intros Hl. by destruct Ha; eapply all_ended_lookup.
Qed.

Lemma deserted_step e s : deserted s -> e <> E_start -> deserted (post (run_event e s)).
Proof.
  intros Hd Hne. pose proof Hd as (He & Hr & Hst). destruct e; cbn [run_event]; try done.
  - unfold deserted. pose proof (stop_ctl s) as Hc. rewrite Hr in Hc.
    destruct Hst as [E|E]; rewrite E in Hc; unfold ctl in Hc; injection Hc as E1 E2 _ E4 _;
      rewrite E1, E2, E4; auto.
  - apply deserted_ctl with s; [|done]. unfold onNetworkStatusChanged.
    destruct isOnline; [|done]. cbn [js_when]. by rewrite release_ctl, Hr.
  - apply deserted_ctl with s; [|done]. unfold onMobileSafariBackgrounded.
    rewrite (bind_outcome _ _ _ tt (set_backgrounded hidden s)) by done. destruct hidden; [done|]. cbn [negb js_when].
    rewrite (bind_outcome _ _ _ tt (set_backgrounded false s)); [by rewrite keeps_checkStartTicking|].
    unfold callReleaseRetryWait. js_unfold. cbn. by rewrite Hr.
  - by rewrite when_at_deserted.
  - by rewrite when_at_deserted.
  - by rewrite when_at_deserted.
  - by rewrite when_at_deserted.
  - by rewrite when_at_deserted.
  - js_unfold. destruct (forceStopSyncStreams s); [|done]. by rewrite when_at_deserted.
  - js_unfold. destruct (interruptSync s); [|done]. by rewrite when_at_deserted.
  - apply deserted_ctl with s; [|done]. apply ctl_bind; [by apply ctl_modify|intros _; apply keeps_checkStartTicking].
  - unfold ping. js_unfold. destruct (truthy_str _); [|done]. by destruct (bool_decide _).
  - unfold pingAnswered. js_unfold. by destruct (bool_decide _).
  - apply deserted_ctl with s; [|done]. unfold delete. apply ctl_bind; [by apply ctl_pure|]. intros self.
    apply ctl_bind; [apply ctl_when; by apply ctl_pure|intros _; by apply ctl_modify].
  - unfold addStreamToSync. js_unfold. destruct (bool_decide _); [|done]. destruct reply; [done|]. by destruct badCookie.
  - apply deserted_ctl with s; [|done]. apply keeps_remove.
Qed.

(** ** The properties *)

(** C15: as long as the sync is only started when it is stopped, the node ends the
    responses only when it was asked to, and the five second timer of a stop fires only
    while the sync is canceling (a stop whose [cancelSync] rejects does not clear it),
    every state means what its comment says: not syncing has no running loop and no
    session, starting and retrying have the one loop and no session, syncing has both,
    canceling has the loop, and the retry count stays within its bound. *)
Theorem documented_states s : orderly_run s -> documented s.
Proof. apply run_is_documented. Qed.

(** C16: as long as until then the sync was only started when it was stopped, the node
    ended the responses only when it was asked to, and the timer of a stop fired only
    while the sync was canceling, stopping a running sync empties the queue of responses
    and makes it canceling; the next thing its loop gets, be it the end of the responses,
    the acknowledgement, a failure or the release from its wait, ends it: every stream is
    stopped and dropped, the session forgotten, and nothing is left running. Without
    these conditions a second loop may be left, or the stop may never complete. *)
Theorem stop_completes s :
  orderly_run s -> _syncState s = Starting \/ _syncState s = Syncing \/ _syncState s = Retrying ->
  let s1 := post (run_event E_stop s) in
  _syncState s1 = Canceling /\ responsesQueue s1 = []
  /\ exists l a, at_ <$> loops s1 !! l = Some a /\ (a = AtNext \/ a = AtReleased)
     /\ forall e, last_event l a e -> stopped_by s (run_event e s1).
Proof.
  intros Hrun Hst s1. pose proof (stop_documented s (run_is_documented s Hrun)) as Hd.
  change (post (stopSync s)) with s1 in Hd.
  pose proof (stop_ctl s) as Hc. change (post (stopSync s)) with s1 in Hc.
  assert (Hcan : canTransition (_syncState s) Canceling = true) by (by destruct Hst as [E|[E|E]]; rewrite E).
  rewrite Hcan in Hc. unfold ctl in Hc. injection Hc as E1 _ _ _ _.
  assert (Hq : responsesQueue s1 = [] /\ streams s1 = streams s).
  { unfold s1. cbn [run_event]. clear. unfold stopSync, callReleaseRetryWait, stopPing, setSyncState, set_loop_at, out, js_try.
    destruct s as [? ? ? i st' r ? ? ? ? ? ? ?], st', r; run_simpl; try done; destruct (truthy_str i); done. }
  destruct Hq as [Hq Hss]. split_and!; [done|done|].
  destruct Hd as [Hd _]. rewrite E1 in Hd. destruct Hd as (l & [Hl|Hl] & _).
  - exists l, AtNext. split_and!; [apply Hl|auto|]. intros e He. by eapply stopped_by_last.
  - exists l, AtReleased. split_and!; [apply Hl|auto|]. intros e He. by eapply stopped_by_last.
Qed.

(** Whatever happens, in whatever order and from whatever state, the states
    that are announced form a path along the allowed transitions, from the state
    before to the state after. *)
Theorem announced_states_allowed es s :
  let '(s', w) := run_events es s in state_path (_syncState s) (state_changes w) (_syncState s').
Proof.
  revert s. induction es as [|e es IH]; intros s; [done|]. cbn [run_events]. specialize (IH (post (run_event e s))).
  destruct (run_events es (post (run_event e s))) as [s' w]. rewrite state_changes_app.
  eapply state_path_app; [apply tracked_event|done].
Qed.

(** The delays between the attempts grow: after [n] failures in a row the next
    one is followed by a wait of 2^(n+1) seconds, up to 2^7. *)
Theorem retry_delays_grow l n s :
  attempting l 0 s ->
  let s' := Nat.iter n (failed_round l) s in
  RetryTimer (2 ^ Z.min (Z.of_nat n + 1) 7 * 1000) ∈ emits (run_event (E_error l) s').
Proof.
  intros Ha. assert (Hn : attempting l n (Nat.iter n (failed_round l) s)).
  { induction n as [|n IH]; [done|]. by apply failed_round_spec. }
  cbv zeta. apply failed_delay in Hn. unfold MAX_RETRY_DELAY_FACTOR in Hn.
  by replace (Z.of_nat n + 1) with (Z.of_nat (S n)) by lia.
Qed.

Lemma done_deserts s l :
  documented s -> _syncState s = Syncing -> at_ <$> loops s !! l = Some AtNext ->
  deserted (post (run_event (E_done l) s)).
Proof.
  intros Hd Hst Hl. destruct (suspended_loop l AtNext s Hd Hl ltac:(done)) as (Hs & _ & Hr). cbn [run_event].
  rewrite (when_at_run l AtNext) by done. unfold onLoopDone.
  rewrite (bind_outcome _ _ _ tt (set_interrupts None None s)) by done.
  pose proof (finish_ctl l (set_interrupts None None s)) as Hc. cbn [_syncState set_interrupts] in Hc.
  rewrite Hst in Hc. unfold ctl in Hc. injection Hc as E1 E2 _ E4 _. unfold deserted. rewrite E1, E2, E4.
  split_and!; auto. by eapply sole_ended, sole_alter.
Qed.

Lemma deserted_run es s : deserted s -> E_start ∉ es -> deserted (run_events es s).1.
Proof.
  revert s. induction es as [|e es IH]; intros s Hs Hes; [done|]. apply not_elem_of_cons in Hes as [Hne Hes].
  specialize (IH _ (deserted_step e s Hs ltac:(done)) Hes). cbn [run_events]. by destruct (run_events es _).
Qed.

(** When the responses end while syncing, the loop returns but the state stays:
    until the next start no event brings the object back to not syncing, a stop
    included. *)
Theorem early_end_deserts s l es :
  documented s -> _syncState s = Syncing -> at_ <$> loops s !! l = Some AtNext ->
  E_start ∉ es ->
  let s1 := post (run_event (E_done l) s) in
  let s2 := (run_events es s1).1 in
  all_ended (loops s1) /\ (_syncState s2 = Syncing \/ _syncState s2 = Canceling).
Proof.
  intros Hd Hst Hl Hes. pose proof (done_deserts s l Hd Hst Hl) as H1'.
  split; [apply H1'|]. by apply (deserted_run es _ H1').
Qed.

(** The same happens when the timer of an earlier stop, which [stopSync] does not clear
    when [cancelSync] rejects, fires during a later session: it calls the
    [forceStopSyncStreams] of that session. *)
Theorem stale_timer_deserts s l es :
  documented s -> _syncState s = Syncing -> at_ <$> loops s !! l = Some AtNext -> forceStopSyncStreams s = Some l ->
  E_start ∉ es ->
  let s1 := post (run_event E_forceStop s) in
  let s2 := (run_events es s1).1 in
  all_ended (loops s1) /\ (_syncState s2 = Syncing \/ _syncState s2 = Canceling).
Proof.
  intros Hd Hst Hl Hf Hes.
  assert (Heq : post (run_event E_forceStop s) = post (run_event (E_done l) s)).
  { cbn [run_event]. unfold mbind at 1, JS_mbind at 1, js_bind at 1, js_get at 1. rewrite Hf.
    by destruct (when_at l AtNext (onLoopDone l) s). }
  rewrite Heq. pose proof (done_deserts s l Hd Hst Hl) as H1'.
  split; [apply H1'|]. by apply (deserted_run es _ H1').
Qed.

(** A sync that was stopped and is started again is reported as failed, although
    it is started: the field of the old loop is never cleared. *)
Theorem restart_reported_as_failed s l :
  documented s -> _syncState s = NotSyncing -> syncLoop s = Some l ->
  res (run_event E_start s) = Throw (JsError "createSyncLoop called while a loop exists")
  /\ _syncState (post (run_event E_start s)) = Starting.
Proof.
  intros Hd Hst Hl. cbn [run_event]. destruct (start_post s Hst) as [Hp Hr]. rewrite Hr, Hl. split; [done|].
  rewrite Hp. cbn [_syncState set_syncLoop].
  pose proof (run_loop_ctl (length (loops s)) (starting s)) as Hc.
  change (_syncState (starting s)) with Starting in Hc. apply (f_equal (fun x => x.1.1.1.1)) in Hc. exact Hc.
Qed.
End SyncLoop.

(** ** Concrete runs *)

#[export] Instance demo_target : SyncTarget unit := {|
  stream_syncCookie := fun _ => None;
  stream_initializeFromResponse := fun _ => js_return;
  stream_appendEvents := fun _ _ _ => js_return;
|}.

Definition demo_started : t unit := post (run_event E_start (post (run_event (E_set (IdString "20aa") tt) new))).
Definition demo_syncing : t unit :=
  post (run_event (E_value 0 0 (mkSyncStreamsResponse "session" SYNC_NEW None "")) demo_started).
Definition demo_stopped : t unit :=
  post (run_event (E_done 0) (post (run_event E_stop demo_syncing))).

Lemma demo_syncing_orderly : orderly_run demo_syncing.
Proof.
  apply (orderly_step demo_started); [|exact I]. apply orderly_step; [|done].
  apply (orderly_step new); [constructor|exact I].
Qed.

Lemma demo_stopped_orderly : orderly_run demo_stopped.
Proof.
  apply orderly_step; [|vm_compute; reflexivity]. apply (orderly_step demo_syncing); [|exact I].
  apply demo_syncing_orderly.
Qed.

Lemma documented_states_witness : documented demo_syncing /\ _syncState demo_syncing = Syncing.
Proof. split; [exact (documented_states demo_syncing demo_syncing_orderly)|vm_compute; reflexivity]. Defined.

Lemma stop_completes_witness :
  let s1 := post (run_event E_stop demo_syncing) in
  _syncState s1 = Canceling /\ responsesQueue s1 = []
  /\ exists l a, at_ <$> loops s1 !! l = Some a /\ (a = AtNext \/ a = AtReleased)
     /\ forall e, last_event l a e -> stopped_by demo_syncing (run_event e s1).
Proof.
  apply (stop_completes demo_syncing demo_syncing_orderly). right. left. vm_compute. reflexivity.
Defined.

Lemma retry_delays_grow_witness :
  RetryTimer (2 ^ Z.min (Z.of_nat 9 + 1) 7 * 1000)
  ∈ emits (run_event (E_error 0) (Nat.iter 9 (failed_round 0) demo_started)).
Proof.
  apply (retry_delays_grow 0 9 demo_started). split; [vm_compute; reflexivity|]. split; [|vm_compute; reflexivity].
  split; [vm_compute; reflexivity|]. intros [|[|l]] x Hx Hne; [congruence|discriminate Hx|discriminate Hx].
Defined.

Lemma early_end_deserts_witness :
  let s1 := post (run_event (E_done 0) demo_syncing) in
  let s2 := (run_events [E_stop] s1).1 in
  all_ended (loops s1) /\ (_syncState s2 = Syncing \/ _syncState s2 = Canceling).
Proof.
  apply (early_end_deserts demo_syncing 0 [E_stop]).
  - apply run_is_documented, demo_syncing_orderly.
  - vm_compute. reflexivity.
  - vm_compute. reflexivity.
  - intros Hin. apply list_elem_of_singleton in Hin. discriminate Hin.
Defined.

(** A session is stopped and the sync started again within five seconds; the timer of the
    stop then ends the loop of the new session, which stays [Syncing]. *)
Definition demo_restarted : t unit :=
  post (run_event (E_value 1 0 (mkSyncStreamsResponse "session2" SYNC_NEW None "")) (post (run_event E_start demo_stopped))).

Lemma stale_timer_deserts_witness :
  let s1 := post (run_event E_forceStop demo_restarted) in
  let s2 := (run_events [E_stop] s1).1 in
  all_ended (loops s1) /\ (_syncState s2 = Syncing \/ _syncState s2 = Canceling).
Proof.
  apply (stale_timer_deserts demo_restarted 1 [E_stop]).
  - apply run_is_documented. apply orderly_step; [|exact I]. apply orderly_step; [|vm_compute; reflexivity].
    apply demo_stopped_orderly.
  - vm_compute. reflexivity.
  - vm_compute. reflexivity.
  - vm_compute. reflexivity.
  - intros Hin. apply list_elem_of_singleton in Hin. discriminate Hin.
Defined.

Lemma restart_reported_as_failed_witness :
  res (run_event E_start demo_stopped) = Throw (JsError "createSyncLoop called while a loop exists")
  /\ _syncState (post (run_event E_start demo_stopped)) = Starting.
Proof.
  apply (restart_reported_as_failed demo_stopped 0).
  - apply run_is_documented, demo_stopped_orderly.
  - vm_compute. reflexivity.
  - vm_compute. reflexivity.
Defined.
