(* ===== verification/Persistence.v ===== *)
(** * The persistence store (core/sdk/src/persistenceStore.ts, streamUtils.ts)

    The client keeps decrypted texts, the position of each stream and its miniblocks
    in three tables of a local database. The tables and the protobuf coding are
    parameters. *)

From stdpp Require Import pretty.
From S2P Require Import Prelude Proto Externals ToyExternals Binary StreamId Types.

(** ** Persisted messages (core/proto/internal.proto) *)

Record PersistedEvent := mkPersistedEvent {
  pse_event : option StreamEvent;
  pse_hash : bytes;
  pse_prevMiniblockHashStr : string;
  pse_creatorUserId : string;
}.

Record PersistedMiniblock := mkPersistedMiniblock {
  psm_hash : bytes;
  psm_header : option MiniblockHeader;
  psm_events : list PersistedEvent;
}.

Record PersistedSyncedStream := mkPersistedSyncedStream {
  pss_syncCookie : option SyncCookie;
  pss_lastSnapshotMiniblockNum : Z;
  pss_lastMiniblockNum : Z;
  pss_minipoolEvents : list PersistedEvent;
}.

(** What [getSyncedStream] returns. *)
Record ParsedSyncedStream := mkParsedSyncedStream {
  pys_syncCookie : SyncCookie;
  pys_lastSnapshotMiniblockNum : Z;
  pys_minipoolEvents : list ParsedEvent;
  pys_lastMiniblockNum : Z;
}.

(** A table of the database by its primary key, and the generated coding. *)
Class Database := {
  table : Type -> Type -> Type;
  table_put : forall {K V} `{EqDecision K}, K -> V -> table K V -> table K V;
  table_get : forall {K V} `{EqDecision K}, K -> table K V -> option V;
  PersistedMiniblock_toBinary : PersistedMiniblock -> result bytes;
  PersistedMiniblock_fromBinary : bytes -> result PersistedMiniblock;
  PersistedSyncedStream_toBinary : PersistedSyncedStream -> result bytes;
  PersistedSyncedStream_fromBinary : bytes -> result PersistedSyncedStream;
}.

(** A get returns what was last put under its key, and decoding what was encoded. *)
Class DatabaseLaws `{Database} : Prop := {
  table_get_put_eq : forall {K V} `{EqDecision K} (k : K) (v : V) t, table_get k (table_put k v t) = Some v;
  table_get_put_ne : forall {K V} `{EqDecision K} (k k' : K) (v : V) t, k' <> k -> table_get k' (table_put k v t) = table_get k' t;
  miniblock_binary : forall m b, PersistedMiniblock_toBinary m = Ok b -> PersistedMiniblock_fromBinary b = Ok m;
  syncedStream_binary : forall m b, PersistedSyncedStream_toBinary m = Ok b -> PersistedSyncedStream_fromBinary b = Ok m;
}.

(** ** streamUtils.ts *)

Section StreamUtils.
Context `{Externals}.

Definition persistedEventToParsedEvent (event : PersistedEvent) : option ParsedEvent :=
  match pse_event event with
  | None => None
  | Some e =>
      Some (mkParsedEvent e (pse_hash event) (bin_toHexString (pse_hash event))
              (if (0 <? String.length (pse_prevMiniblockHashStr event))%nat
               then Some (pse_prevMiniblockHashStr event) else None)
              (pse_creatorUserId event))
  end.

Definition persistedMiniblockToParsedMiniblock (miniblock : PersistedMiniblock) : option ParsedMiniblock :=
  match psm_header miniblock with
  | None => None
  | Some header =>
      Some (mkParsedMiniblock (psm_hash miniblock) header
              (omap persistedEventToParsedEvent (psm_events miniblock)))
  end.

(** An unset string field is the empty string. *)
Definition parsedEventToPersistedEvent (event : ParsedEvent) : PersistedEvent :=
  mkPersistedEvent (Some (pe_event event)) (pe_hash event)
    (default "" (pe_prevMiniblockHashStr event)) (pe_creatorUserId event).

Definition parsedMiniblockToPersistedMiniblock (miniblock : ParsedMiniblock) : PersistedMiniblock :=
  mkPersistedMiniblock (pmb_hash miniblock) (Some (pmb_header miniblock))
    (map parsedEventToPersistedEvent (pmb_events miniblock)).

Definition persistedSyncedStreamToParsedSyncedStream (stream : PersistedSyncedStream)
    : option ParsedSyncedStream :=
  match pss_syncCookie stream with
  | None => None
  | Some cookie =>
      Some (mkParsedSyncedStream cookie (pss_lastSnapshotMiniblockNum stream)
              (omap persistedEventToParsedEvent (pss_minipoolEvents stream))
              (pss_lastMiniblockNum stream))
  end.
End StreamUtils.

(** ** Reading with retries *)

(** How an attempt to read ends: with a value, with an [AbortError], or with another
    error. *)
Inductive attempt (A : Type) :=
| Read (a : A)
| Aborted (e : js_error)
| Failed (e : js_error).
Arguments Read {_} _.
Arguments Aborted {_} _.
Arguments Failed {_} _.

Definition DEFAULT_RETRY_COUNT : nat := 2.

(** The loop of [fnReadRetryer]; [fn i] is how the [i]-th call ends, [None] that the
    loop is still running. *)
Fixpoint fnReadRetryer_loop {A} (fuel : nat) (fn : nat -> attempt A) (i retries retryCounter : nat)
    (lastErr : js_error) : option (result A) :=
  match fuel with
  | O => None
  | S fuel =>
      if (0 <? retryCounter)%nat then
        let retryCounter := if (retryCounter <? retries)%nat then (retryCounter - 1)%nat else retryCounter in
        match fn i with
        | Read a => Some (Ok a)
        | Aborted err => fnReadRetryer_loop fuel fn (S i) retries retryCounter err
        | Failed err => Some (Throw err)
        end
      else Some (Throw lastErr)
  end.

Definition fnReadRetryer {A} (fuel : nat) (fn : nat -> attempt A) (retries : nat) : option (result A) :=
  fnReadRetryer_loop fuel fn 0 retries retries (JsError "undefined").

(** ** PersistenceStore *)

Section Store.
Context `{Externals, Database}.

Record store := mkStore {
  cleartexts : table string string;
  syncedStreams : table string bytes;
  miniblocks : table (string * string) bytes;
}.

Definition saveCleartext (eventId cleartext : string) (s : store) : store :=
  mkStore (table_put eventId cleartext (cleartexts s)) (syncedStreams s) (miniblocks s).

Definition getCleartext (eventId : string) (s : store) : option string := table_get eventId (cleartexts s).

(** One attempt of the read of [getCleartexts], without an error of the database. *)
Definition getCleartexts (eventIds : list string) (s : store) : option (gmap string string) :=
  match eventIds with
  | [] => None
  | _ => Some (fold_left (fun acc eventId =>
                 match table_get eventId (cleartexts s) with
                 | Some cleartext => <[eventId := cleartext]> acc
                 | None => acc
                 end) eventIds ∅)
  end.

Definition getSyncedStream (streamId : string) (s : store) : result (option ParsedSyncedStream) :=
  match table_get streamId (syncedStreams s) with
  | None => mret None
  | Some data =>
      cachedSyncedStream ← PersistedSyncedStream_fromBinary data;
      mret (persistedSyncedStreamToParsedSyncedStream cachedSyncedStream)
  end.

Definition saveSyncedStream (streamId : string) (syncedStream : PersistedSyncedStream) (s : store) : result store :=
  data ← PersistedSyncedStream_toBinary syncedStream;
  mret (mkStore (cleartexts s) (table_put streamId data (syncedStreams s)) (miniblocks s)).

Definition miniblock_key (streamId : string) (miniblockNum : Z) : string * string := (streamId, pretty miniblockNum).

Definition saveMiniblock (streamId : string) (miniblock : ParsedMiniblock) (s : store) : result store :=
  data ← PersistedMiniblock_toBinary (parsedMiniblockToPersistedMiniblock miniblock);
  mret (mkStore (cleartexts s) (syncedStreams s)
          (table_put (miniblock_key streamId (mh_miniblockNum (pmb_header miniblock))) data (miniblocks s))).

(** Everything is encoded before anything is put. *)
Fixpoint encode_all (mbs : list ParsedMiniblock) : result (list (Z * bytes)) :=
  match mbs with
  | [] => mret []
  | mb :: mbs =>
      data ← PersistedMiniblock_toBinary (parsedMiniblockToPersistedMiniblock mb);
      rest ← encode_all mbs;
      mret ((mh_miniblockNum (pmb_header mb), data) :: rest)
  end.

Definition saveMiniblocks (streamId : string) (mbs : list ParsedMiniblock) (s : store) : result store :=
  records ← encode_all mbs;
  mret (mkStore (cleartexts s) (syncedStreams s)
          (fold_left (fun t r => table_put (miniblock_key streamId r.1) r.2 t) records (miniblocks s))).

Definition getMiniblock (streamId : string) (miniblockNum : Z) (s : store) : result (option ParsedMiniblock) :=
  match table_get (miniblock_key streamId miniblockNum) (miniblocks s) with
  | None => mret None
  | Some data =>
      cachedMiniblock ← PersistedMiniblock_fromBinary data;
      mret (persistedMiniblockToParsedMiniblock cachedMiniblock)
  end.

(** The loop over the bigints of the range. *)
Fixpoint read_all (streamId : string) (nums : list Z) (s : store) : result (list (option ParsedMiniblock)) :=
  match nums with
  | [] => mret []
  | n :: nums =>
      mb ← getMiniblock streamId n s;
      rest ← read_all streamId nums s;
      mret (mb :: rest)
  end.

(** All or nothing. *)
Definition getMiniblocks (streamId : string) (rangeStart rangeEnd : Z) (s : store) : result (list ParsedMiniblock) :=
  let ids := seqZ rangeStart (rangeEnd - rangeStart + 1) in
  records ← read_all streamId ids s;
  let mbs := omap id records in
  mret (if (length mbs =? length ids)%nat then mbs else []).
End Store.

(** ** Round trips *)

Section RoundTrips.
Context `{Externals, Database} `{!DatabaseLaws}.

(** An event as unpacking and reading make it. *)
Definition storable (e : ParsedEvent) : Prop :=
  pe_hashStr e = bin_toHexString (pe_hash e) /\ pe_prevMiniblockHashStr e <> Some "".

Definition storable_block (mb : ParsedMiniblock) : Prop := Forall storable (pmb_events mb).

Definition block_num (mb : ParsedMiniblock) : Z := mh_miniblockNum (pmb_header mb).

Lemma event_roundtrip e : storable e -> persistedEventToParsedEvent (parsedEventToPersistedEvent e) = Some e.
Proof.
  intros [Hh Hp]. destruct e as [ev hash hashStr prev creator]. cbn in *. subst hashStr.
  unfold persistedEventToParsedEvent. cbn. destruct prev as [[|c p]|]; done.
Qed.

Lemma events_roundtrip l :
  Forall storable l -> omap persistedEventToParsedEvent (map parsedEventToPersistedEvent l) = l.
Proof.
  induction 1 as [|e l He _ IH]; [done|]. cbn [map omap list_omap].
  rewrite event_roundtrip by done. f_equal. exact IH.
Qed.

Lemma block_roundtrip mb :
  storable_block mb -> persistedMiniblockToParsedMiniblock (parsedMiniblockToPersistedMiniblock mb) = Some mb.
Proof.
  intros Hs. unfold persistedMiniblockToParsedMiniblock, parsedMiniblockToPersistedMiniblock.
  cbn [psm_header psm_events psm_hash]. rewrite events_roundtrip by done. by destruct mb.
Qed.

(** The store has the miniblock [mb] of the stream under its number. *)
Definition holds (streamId : string) (s : store) (mb : ParsedMiniblock) : Prop :=
  exists data, table_get (miniblock_key streamId (block_num mb)) (miniblocks s) = Some data
    /\ PersistedMiniblock_fromBinary data = Ok (parsedMiniblockToPersistedMiniblock mb).

Lemma holds_read sid s mb :
  storable_block mb -> holds sid s mb -> getMiniblock sid (block_num mb) s = Ok (Some mb).
Proof.
  intros Hs (data & Hg & Hd). unfold getMiniblock. rewrite Hg, Hd. res_simpl. by rewrite block_roundtrip.
Qed.

Lemma read_all_held sid s mbs :
  Forall storable_block mbs -> Forall (holds sid s) mbs ->
  read_all sid (map block_num mbs) s = Ok (map Some mbs).
Proof.
  induction 1 as [|mb mbs Hs _ IH]; [done|]. intros [Hh Hhs]%Forall_cons. cbn [map read_all].
  rewrite holds_read by done. res_simpl. rewrite IH by done. done.
Qed.

Lemma omap_Some {A} (l : list A) : omap id (map Some l) = l.
Proof. induction l as [|x l IH]; [done|]. cbn. f_equal. exact IH. Qed.

Lemma getMiniblocks_held sid a b s mbs :
  map block_num mbs = seqZ a (b - a + 1) -> Forall storable_block mbs -> Forall (holds sid s) mbs ->
  getMiniblocks sid a b s = Ok mbs.
Proof.
  intros Hn Hs Hh. unfold getMiniblocks. rewrite <-Hn, read_all_held by done. res_simpl.
  by rewrite omap_Some, length_map, Nat.eqb_refl.
Qed.

Lemma key_inj sid n m : miniblock_key sid n = miniblock_key sid m -> n = m.
Proof. unfold miniblock_key. intros [= Heq]. by apply (inj pretty) in Heq. Qed.

Lemma encode_all_Ok mbs records :
  encode_all mbs = Ok records ->
  Forall2 (fun mb r => r.1 = block_num mb
    /\ PersistedMiniblock_toBinary (parsedMiniblockToPersistedMiniblock mb) = Ok r.2) mbs records.
Proof.
  revert records. induction mbs as [|mb mbs IH]; cbn [encode_all]; intros records Hx.
  - injection Hx as <-. constructor.
  - split_Ok Hx. injection Hx as <-. constructor; [done|]. by apply IH.
Qed.

Lemma put_all_other sid n records t :
  n ∉ map fst records ->
  table_get (miniblock_key sid n) (fold_left (fun t r => table_put (miniblock_key sid r.1) r.2 t) records t)
  = table_get (miniblock_key sid n) (t : table (string * string) bytes).
Proof.
  revert t. induction records as [|r records IH]; intros t Hn; [done|]. cbn [fold_left map] in *.
  apply not_elem_of_cons in Hn as [Hne Hn]. rewrite IH by done. apply table_get_put_ne.
  intros Heq. by apply Hne, (key_inj sid).
Qed.

Lemma put_all_get sid (records : list (Z * bytes)) t :
  NoDup (map fst records) ->
  Forall (fun r => table_get (miniblock_key sid r.1)
    (fold_left (fun t r => table_put (miniblock_key sid r.1) r.2 t) records (t : table (string * string) bytes)) = Some r.2)
    records.
Proof.
  revert t. induction records as [|r records IH]; intros t Hnd; [constructor|]. cbn [fold_left map] in *.
  apply NoDup_cons in Hnd as [Hr Hnd]. constructor; [|by apply IH].
  rewrite put_all_other by done. apply table_get_put_eq.
Qed.

Lemma saveMiniblocks_holds sid mbs s s' :
  NoDup (map block_num mbs) -> saveMiniblocks sid mbs s = Ok s' -> Forall (holds sid s') mbs.
Proof.
  intros Hnd Hx. unfold saveMiniblocks in Hx. apply result_bind_Ok in Hx as (records & He & [= <-]).
  apply encode_all_Ok in He.
  assert (Hfst : map fst records = map block_num mbs).
  { clear Hnd. induction He as [|mb r mbs records [Hr _] _ IH]; [done|]. cbn. by rewrite Hr, IH. }
  pose proof (put_all_get sid records (miniblocks s)) as Hg. rewrite Hfst in Hg. specialize (Hg Hnd).
  apply Forall_forall. intros mb Hin. apply list_elem_of_lookup in Hin as [i Hi].
  destruct (Forall2_lookup_l _ _ _ _ _ He Hi) as (r & Hr & Hn & Hb).
  eapply Forall_lookup in Hg; [|exact Hr]. rewrite Hn in Hg. exists r.2. split; [exact Hg|].
  by apply miniblock_binary.
Qed.

Lemma read_all_Ok sid nums s ms :
  read_all sid nums s = Ok ms -> Forall2 (fun n m => getMiniblock sid n s = Ok m) nums ms.
Proof.
  revert ms. induction nums as [|n nums IH]; cbn [read_all]; intros ms Hx.
  - injection Hx as <-. constructor.
  - split_Ok Hx. injection Hx as <-. constructor; [done|]. by apply IH.
Qed.

Lemma omap_length_full {A} (l : list (option A)) : length (omap id l) = length l -> l = map Some (omap id l).
Proof.
  assert (Hle : forall l : list (option A), (length (omap id l) <= length l)%nat).
  { induction l0 as [|[x|] l0 IH]; cbn in *; lia. }
  induction l as [|[x|] l IH]; cbn; [done| |].
  - intros [= Hl]. f_equal. by apply IH.
  - intros Hl. specialize (Hle l). cbn in Hle. lia.
Qed.

(** A range is read completely or not at all. *)
Lemma getMiniblocks_all_or_nothing sid a b s l :
  getMiniblocks sid a b s = Ok l ->
  l = [] \/ Forall2 (fun n mb => getMiniblock sid n s = Ok (Some mb)) (seqZ a (b - a + 1)) l.
Proof.
  intros Hx. unfold getMiniblocks in Hx. apply result_bind_Ok in Hx as (ms & Hr & [= <-]).
  apply read_all_Ok in Hr. destruct (Nat.eqb_spec (length (omap id ms)) (length (seqZ a (b - a + 1)))) as [Hl|]; [|by left].
  right. rewrite (Forall2_length _ _ _ Hr) in Hl. apply omap_length_full in Hl. rewrite Hl in Hr.
  by apply Forall2_fmap_r in Hr.
Qed.
End RoundTrips.

(** The counter of [fnReadRetryer] is never decremented. *)
Lemma retryer_aborts {A} (fn : nat -> attempt A) (retries n : nat) fuel i err :
  (0 < retries)%nat -> (forall j, (i <= j < i + n)%nat -> exists e, fn j = Aborted e) ->
  exists err', fnReadRetryer_loop (n + fuel) fn i retries retries err
               = fnReadRetryer_loop fuel fn (i + n) retries retries err'.
Proof.
  intros Hr. revert i err. induction n as [|n IH]; intros i err Ha.
  - exists err. by rewrite Nat.add_0_r.
  - destruct (Ha i ltac:(lia)) as [e He]. cbn [Nat.add fnReadRetryer_loop].
    rewrite (proj2 (Nat.ltb_lt 0 retries) Hr), Nat.ltb_irrefl, He.
    destruct (IH (S i) e) as [err' Herr]; [intros j Hj; apply Ha; lia|].
    exists err'. rewrite Herr. f_equal. lia.
Qed.

(** ** The interface of the stores, and the store that keeps nothing *)

Record IPersistenceStore (St : Type) := mkIPersistenceStore {
  ps_saveCleartext : string -> string -> St -> St;
  ps_getCleartext : string -> St -> option string;
  ps_getCleartexts : list string -> St -> option (gmap string string);
  ps_getSyncedStream : string -> St -> result (option ParsedSyncedStream);
  ps_saveSyncedStream : string -> PersistedSyncedStream -> St -> result St;
  ps_saveMiniblock : string -> ParsedMiniblock -> St -> result St;
  ps_saveMiniblocks : string -> list ParsedMiniblock -> St -> result St;
  ps_getMiniblock : string -> Z -> St -> result (option ParsedMiniblock);
  ps_getMiniblocks : string -> Z -> Z -> St -> result (list ParsedMiniblock);
}.
Arguments ps_saveCleartext {_} _.
Arguments ps_getCleartext {_} _.
Arguments ps_getCleartexts {_} _.
Arguments ps_getSyncedStream {_} _.
Arguments ps_saveSyncedStream {_} _.
Arguments ps_saveMiniblock {_} _.
Arguments ps_saveMiniblocks {_} _.
Arguments ps_getMiniblock {_} _.
Arguments ps_getMiniblocks {_} _.

Definition StubPersistenceStore : IPersistenceStore unit := {|
  ps_saveCleartext := fun _ _ s => s;
  ps_getCleartext := fun _ _ => None;
  ps_getCleartexts := fun _ _ => None;
  ps_getSyncedStream := fun _ _ => Ok None;
  ps_saveSyncedStream := fun _ _ s => Ok s;
  ps_saveMiniblock := fun _ _ s => Ok s;
  ps_saveMiniblocks := fun _ _ s => Ok s;
  ps_getMiniblock := fun _ _ _ => Ok None;
  ps_getMiniblocks := fun _ _ _ _ => Ok [];
|}.

Section Stores.
Context `{Externals, Database}.

Definition PersistenceStore : IPersistenceStore store := {|
  ps_saveCleartext := saveCleartext;
  ps_getCleartext := getCleartext;
  ps_getCleartexts := getCleartexts;
  ps_getSyncedStream := getSyncedStream;
  ps_saveSyncedStream := saveSyncedStream;
  ps_saveMiniblock := saveMiniblock;
  ps_saveMiniblocks := saveMiniblocks;
  ps_getMiniblock := getMiniblock;
  ps_getMiniblocks := getMiniblocks;
|}.

(** Nothing was ever saved in it. *)
Definition empty_tables (s : store) : Prop :=
  (forall k, table_get k (cleartexts s) = None) /\ (forall k, table_get k (syncedStreams s) = None)
  /\ (forall k, table_get k (miniblocks s) = None).

Lemma read_all_empty streamId nums s : (forall k, table_get k (miniblocks s) = None) ->
  read_all streamId nums s = Ok (map (fun _ => None) nums).
Proof. intros Hm. induction nums as [|n nums IH]; [done|]. cbn. unfold getMiniblock. by rewrite Hm, IH. Qed.

(** A client without a database reads what it would read from an empty one, at any time:
    it finds no text, no stream and no block. (The empty database gives an empty record
    of texts, the stub none; a text is missing from both.) *)
Theorem stub_reads_as_empty s : empty_tables s -> forall streamId eventId eventIds n m,
  ps_getCleartext StubPersistenceStore eventId tt = ps_getCleartext PersistenceStore eventId s
  /\ default ∅ (ps_getCleartexts StubPersistenceStore eventIds tt) = default ∅ (ps_getCleartexts PersistenceStore eventIds s)
  /\ ps_getSyncedStream StubPersistenceStore streamId tt = ps_getSyncedStream PersistenceStore streamId s
  /\ ps_getMiniblock StubPersistenceStore streamId n tt = ps_getMiniblock PersistenceStore streamId n s
  /\ ps_getMiniblocks StubPersistenceStore streamId n m tt = ps_getMiniblocks PersistenceStore streamId n m s.
Proof.
  intros (Hc & Hs & Hm) streamId eventId eventIds n m. split_and!; cbn.
  - symmetry. apply Hc.
  - unfold getCleartexts. destruct eventIds as [|e l]; [done|]. cbn [default from_option id].
    generalize (e :: l) as ids. intros ids. induction ids as [|i ids IH]; [done|]. cbn. by rewrite Hc.
  - unfold getSyncedStream. by rewrite Hs.
  - unfold getMiniblock. by rewrite Hm.
  - unfold getMiniblocks. rewrite read_all_empty by done. cbn.
    assert (Hn : omap id (map (fun _ => @None ParsedMiniblock) (seqZ n (m - n + 1))) = []) by
      (induction (seqZ n (m - n + 1)); done).
    rewrite Hn. by destruct (_ =? _)%nat.
Qed.
End Stores.
