(* ===== verification/SyncedStream.v ===== *)
(** * Streams of the client (core/sdk/src/stream.ts and syncedStream.ts)

    A [SyncedStream] owns the view of one stream, rebuilds it from a response or from
    the persistence store, and stores what it learns. It is what the sync loop
    feeds: the instance of [SyncTarget] at the end. *)

From S2P Require Import Prelude Proto Externals Binary StreamId Types Members Content.
From S2P Require Import StreamStateView SyncedStreams Persistence.

Section SyncedStream.
Context `{Externals, Database}.

(** [stopped] and [view] are fields of [Stream]; the store is shared by the streams
    of a client, and this the part the methods of one stream see. *)
Record t := mkT {
  view : StreamStateView.t;
  stopped : bool;
  isUpToDate : bool;
  persistenceStore : store;
}.

Definition viewL : lens t StreamStateView.t :=
  Lens view (fun v s => mkT v (stopped s) (isUpToDate s) (persistenceStore s)).
Definition set_isUpToDate (b : bool) (s : t) : t := mkT (view s) (stopped s) b (persistenceStore s).
Definition set_stopped (b : bool) (s : t) : t := mkT (view s) b (isUpToDate s) (persistenceStore s).

Definition new (userId streamId : string) (store : store) : result t :=
  view ← StreamStateView.new userId streamId;
  mret (mkT view false false store).

Definition streamId (s : t) : string := StreamStateView.streamId (view s).

(** [this] as an emitter: [emit] drops everything once the stream is stopped. *)
Definition emitter (s : t) : bool := negb (stopped s).

Definition stop (s : t) : t := set_stopped true s.

(** Writes to the store. *)
Definition save (f : store -> result store) : SM t unit :=
  self ← js_get;
  store ← js_lift (f (persistenceStore self));
  js_modify (fun s => mkT (view s) (stopped s) (isUpToDate s) store).

(** The local events of the old view that were not sent yet. *)
Definition unprocessedLocalEvents (v : StreamStateView.t) : list StreamTimelineEvent :=
  filter (fun e => isLocalEvent e && startsWith (te_hashStr e) "~" = true)
    (omap (fun r => heap v !! r) (timeline v)).

(** [Stream.initialize]: a new view, assigned before it is filled. *)
Definition stream_initialize (nextSyncCookie : SyncCookie) (minipoolEvents : list ParsedEvent) (snapshot : Snapshot)
    (miniblocks prependedMiniblocks : list ParsedMiniblock) (prevSnapshotMiniblockNum : Z)
    (cleartexts : option (gmap string string)) : SM t unit :=
  self ← js_get;
  let localEvents := unprocessedLocalEvents (view self) in
  newView ← js_lift (StreamStateView.new (userId (view self)) (streamId self));
  js_modify (update viewL newView);;
  js_zoom viewL (StreamStateView.initialize nextSyncCookie minipoolEvents snapshot miniblocks prependedMiniblocks
    prevSnapshotMiniblockNum cleartexts localEvents (emitter self)).

Definition prependEvents (miniblocks : list ParsedMiniblock) (cleartexts : option (gmap string string))
    (terminus : bool) : SM t unit :=
  self ← js_get;
  js_zoom viewL (StreamStateView.prependEvents miniblocks cleartexts terminus (emitter self) (emitter self)).

(** [waitForMembership] resolves at once in this state. *)
Definition isMembershipReached (membership : MembershipOp) (userId : option string) (s : t) : bool :=
  Members.isMember (membershipContent (view s)) membership
    (default (StreamStateView.userId (view s)) userId).

Definition markUpToDate : SM t unit :=
  self ← js_get;
  if isUpToDate self then js_return
  else
    js_modify (set_isUpToDate true);;
    js_emit (emitter self) (streamUpToDate (streamId self)).

Definition eventIdsFromSnapshot (snapshot : Snapshot) : list string :=
  let joined := default [] (snap_members snapshot) in
  let usernameEventIds := omap (fun m => (bin_toHexString ∘ wed_eventHash) <$> sm_username m) joined in
  let displayNameEventIds := omap (fun m => (bin_toHexString ∘ wed_eventHash) <$> sm_displayName m) joined in
  match snap_content snapshot with
  | Some (Snapshot_gdmChannelContent v) =>
      let channelPropertiesEventIds :=
        match gds_channelProperties v with
        | Some p => [bin_toHexString (wed_eventHash p)]
        | None => []
        end in
      usernameEventIds ++ displayNameEventIds ++ channelPropertiesEventIds
  | _ => usernameEventIds ++ displayNameEventIds
  end.

Definition CACHED_SCROLLBACK_COUNT : nat := 3.

(** The loop of [cachedScrollback], [count] rounds left. *)
Fixpoint scrollback (count : nat) (sid : string) (fromInclusive toExclusive : Z) (miniblocks : list ParsedMiniblock)
    (s : store) : result (list ParsedMiniblock) :=
  match count with
  | O => mret miniblocks
  | S count =>
      if toExclusive <=? 0 then mret miniblocks
      else
        result ← getMiniblocks sid fromInclusive (toExclusive - 1) s;
        match result with
        | [] => mret miniblocks
        | first :: _ =>
            scrollback count sid (mh_prevSnapshotMiniblockNum (pmb_header first)) (mh_miniblockNum (pmb_header first))
              (result ++ miniblocks) s
        end
  end.

Definition cachedScrollback (fromInclusive toExclusive : Z) (s : t) : result (list ParsedMiniblock) :=
  let id := IdString (streamId s) in
  if negb (isChannelStreamId id) && negb (isDMChannelStreamId id) && negb (isGDMChannelStreamId id)
  then mret []
  else scrollback CACHED_SCROLLBACK_COUNT (streamId s) fromInclusive toExclusive [] (persistenceStore s).

Definition event_ids (mbs : list ParsedMiniblock) : list string := flat_map (fun mb => map pe_hashStr (pmb_events mb)) mbs.

Definition initializeFromPersistence : SM t bool :=
  self ← js_get;
  cached ← js_lift (getSyncedStream (streamId self) (persistenceStore self));
  match cached with
  | None => mret false
  | Some cachedSyncedStream =>
      miniblocks ← js_lift (getMiniblocks (streamId self) (pys_lastSnapshotMiniblockNum cachedSyncedStream)
                              (pys_lastMiniblockNum cachedSyncedStream) (persistenceStore self));
      match miniblocks with
      | [] => mret false
      | block0 :: _ =>
          match mh_snapshot (pmb_header block0) with
          | None => mret false
          | Some snapshot =>
              prependedMiniblocks ← js_lift (cachedScrollback (mh_prevSnapshotMiniblockNum (pmb_header block0))
                                               (mh_miniblockNum (pmb_header block0)) self);
              let cleartexts := getCleartexts
                (event_ids miniblocks ++ eventIdsFromSnapshot snapshot ++ event_ids prependedMiniblocks)
                (persistenceStore self) in
              js_try
                (stream_initialize (pys_syncCookie cachedSyncedStream) (pys_minipoolEvents cachedSyncedStream) snapshot
                   miniblocks prependedMiniblocks (mh_prevSnapshotMiniblockNum (pmb_header block0)) cleartexts;;
                 mret true)
                (fun _ => mret false)
          end
      end
  end.

(** The events of a persisted stream are given as parsed ones. *)
Definition persist (syncCookie : SyncCookie) (lastSnapshotMiniblockNum : Z) (minipoolEvents : list ParsedEvent)
    (lastMiniblockNum : Z) : PersistedSyncedStream :=
  mkPersistedSyncedStream (Some syncCookie) lastSnapshotMiniblockNum lastMiniblockNum
    (map parsedEventToPersistedEvent minipoolEvents).

Definition initialize (nextSyncCookie : SyncCookie) (events : list ParsedEvent) (snapshot : Snapshot)
    (miniblocks prependedMiniblocks : list ParsedMiniblock) (prevSnapshotMiniblockNum : Z)
    (cleartexts : option (gmap string string)) : SM t unit :=
  stream_initialize nextSyncCookie events snapshot miniblocks prependedMiniblocks prevSnapshotMiniblockNum cleartexts;;
  self ← js_get;
  match miniblocks with
  | [] => js_throw (JsError "Cannot read properties of undefined (reading 'header')")
  | block0 :: _ =>
      let lastBlock := List.last miniblocks block0 in
      save (saveSyncedStream (streamId self)
        (persist nextSyncCookie (mh_miniblockNum (pmb_header block0)) events (mh_miniblockNum (pmb_header lastBlock))));;
      save (saveMiniblocks (streamId self) miniblocks);;
      markUpToDate
  end.

Definition initializeFromResponse (response : ParsedStreamResponse) : SM t unit :=
  self ← js_get;
  let cleartexts := getCleartexts (psr_eventIds response) (persistenceStore self) in
  let streamAndCookie := psr_streamAndCookie response in
  initialize (psc_nextSyncCookie streamAndCookie) (psc_events streamAndCookie) (psr_snapshot response)
    (psc_miniblocks streamAndCookie) [] (psr_prevSnapshotMiniblockNum response) cleartexts;;
  markUpToDate.

(** The remote event the view has for a hash. *)
Definition remote_of (v : StreamStateView.t) (hash : string) : option ParsedEvent :=
  r ← events v !! hash; e ← heap v !! r; te_remoteEvent e.

(** The remote events of the timeline that are not confirmed. *)
Definition minipool_of (v : StreamStateView.t) : list ParsedEvent :=
  omap te_remoteEvent
    (filter (fun e => is_defined (te_confirmedEventNum e) = false) (omap (fun r => heap v !! r) (timeline v))).

Definition onMiniblockHeader (miniblockHeader : MiniblockHeader) (miniblockEvent : ParsedEvent) (hash : bytes)
    : SM t unit :=
  self ← js_get;
  let eventHashes := map bin_toHexString (mh_eventHashes miniblockHeader) in
  let events := omap (remote_of (view self)) eventHashes in
  if negb (length events =? length eventHashes)%nat
  then js_throw (JsError "Couldn't find event for hash in miniblock")
  else
    let miniblock := mkParsedMiniblock hash miniblockHeader (events ++ [miniblockEvent]) in
    save (saveMiniblock (streamId self) miniblock);;
    self ← js_get;
    match syncCookie (view self) with
    | None => js_return
    | Some cookie =>
        save (saveSyncedStream (streamId self)
          (persist cookie (mh_prevSnapshotMiniblockNum miniblockHeader) (minipool_of (view self))
             (mh_miniblockNum miniblockHeader)))
    end.

Definition appendEvents (events : list ParsedEvent) (nextSyncCookie : SyncCookie)
    (cleartexts : option (gmap string string)) : SM t unit :=
  self ← js_get;
  js_zoom viewL (StreamStateView.appendEvents events nextSyncCookie cleartexts (emitter self));;
  js_for events (fun event =>
    match se_payload (pe_event event) with
    | Some (Payload_miniblockHeader value) => onMiniblockHeader value event (pe_hash event)
    | _ => js_return
    end);;
  markUpToDate.

#[export] Instance SyncedStream_target : SyncTarget t := {|
  stream_syncCookie := fun s => syncCookie (view s);
  stream_initializeFromResponse := initializeFromResponse;
  stream_appendEvents := appendEvents;
|}.
End SyncedStream.
