(* ===== verification/Restore.v ===== *)
(** * What the persistence store gives back

    Streams restored from the store, gapless cached scrollback, and the retries of a
    read. *)

From stdpp Require Import pretty.
From S2P Require Import Prelude Proto Externals ToyExternals Binary StreamId Types Sign.
From S2P Require Import Envelopes StreamStateView Persistence SyncedStream.

Section Restore.
Context `{Externals, Database} `{!DatabaseLaws}.

(** ** Keys and numbers *)

(** Every miniblock of the stream is stored under its own number. *)
Definition keyed (sid : string) (s : store) : Prop :=
  forall n mb, getMiniblock sid n s = Ok (Some mb) -> block_num mb = n.

Lemma getMiniblock_put sid sid' num data s n :
  getMiniblock sid' n (mkStore (cleartexts s) (syncedStreams s) (table_put (miniblock_key sid num) data (miniblocks s)))
  = if decide (sid' = sid /\ n = num)
    then cached ← PersistedMiniblock_fromBinary data; mret (persistedMiniblockToParsedMiniblock cached)
    else getMiniblock sid' n s.
Proof.
  unfold getMiniblock. cbn [miniblocks]. case_decide as Hd.
  - destruct Hd as [-> ->]. by rewrite table_get_put_eq.
  - rewrite table_get_put_ne; [done|]. intros Heq. apply Hd. unfold miniblock_key in Heq.
    injection Heq as -> Heq. apply (inj pretty) in Heq. done.
Qed.

Lemma keyed_put sid sid' mb data s :
  keyed sid' s -> PersistedMiniblock_toBinary (parsedMiniblockToPersistedMiniblock mb) = Ok data ->
  keyed sid' (mkStore (cleartexts s) (syncedStreams s)
                (table_put (miniblock_key sid (block_num mb)) data (miniblocks s))).
Proof.
  intros Hk Hb n mb' Hg. rewrite getMiniblock_put in Hg. case_decide as Hd; [|by apply Hk].
  destruct Hd as [_ ->]. rewrite (miniblock_binary _ _ Hb) in Hg. by injection Hg as <-.
Qed.

Lemma saveMiniblock_keyed sid sid' mb s s' : keyed sid' s -> saveMiniblock sid mb s = Ok s' -> keyed sid' s'.
Proof.
  intros Hk Hx. unfold saveMiniblock in Hx. apply result_bind_Ok in Hx as (data & Hb & [= <-]).
  by apply (keyed_put sid sid' mb).
Qed.

Lemma saveMiniblocks_keyed sid sid' mbs s s' : keyed sid' s -> saveMiniblocks sid mbs s = Ok s' -> keyed sid' s'.
Proof.
  intros Hk Hx. unfold saveMiniblocks in Hx. apply result_bind_Ok in Hx as (records & He & [= <-]).
  apply encode_all_Ok in He. revert s Hk. induction He as [|mb r mbs records [Hn Hb] _ IH]; intros s Hk; [by destruct s|].
  cbn [fold_left]. rewrite Hn.
  apply (IH (mkStore (cleartexts s) (syncedStreams s) (table_put (miniblock_key sid (block_num mb)) r.2 (miniblocks s)))).
  by apply keyed_put.
Qed.

Lemma keyed_numbers sid s nums mbs :
  keyed sid s -> Forall2 (fun n mb => getMiniblock sid n s = Ok (Some mb)) nums mbs -> map block_num mbs = nums.
Proof. intros Hk. induction 1 as [|n mb nums mbs Hg _ IH]; [done|]. cbn. by rewrite IH, (Hk n mb). Qed.

(** A range that is read has exactly its numbers. *)
Lemma getMiniblocks_numbers sid a b s l :
  keyed sid s -> getMiniblocks sid a b s = Ok l -> l = [] \/ map block_num l = seqZ a (b - a + 1).
Proof.
  intros Hk [->|Hf]%getMiniblocks_all_or_nothing; [by left|]. right. by eapply keyed_numbers.
Qed.

(** ** Cached scrollback *)

Lemma seqZ_glue a b c : a <= b -> b <= c -> seqZ a (b - a) ++ seqZ b (c - b) = seqZ a (c - a).
Proof.
  intros Hab Hbc. replace (c - a) with ((b - a) + (c - b)) by lia. rewrite seqZ_app by lia.
  by replace (a + (b - a)) with b by lia.
Qed.

Lemma scrollback_numbers count sid from to acc s l :
  keyed sid s -> scrollback count sid from to acc s = Ok l ->
  exists start front, start <= to /\ l = front ++ acc /\ map block_num front = seqZ start (to - start).
Proof.
  intros Hk. revert from to acc. induction count as [|count IH]; cbn [scrollback]; intros from to acc Hx.
  - injection Hx as <-. exists to, []. rewrite Z.sub_diag. done.
  - destruct (to <=? 0). { injection Hx as <-. exists to, []. rewrite Z.sub_diag. done. }
    apply result_bind_Ok in Hx as (result & Hg & Hx). destruct result as [|first rest].
    { injection Hx as <-. exists to, []. rewrite Z.sub_diag. done. }
    apply getMiniblocks_numbers in Hg as [?|Hn]; [done| |done].
    replace (to - 1 - from + 1) with (to - from) in Hn by lia.
    assert (Hft : from < to).
    { apply (f_equal length) in Hn. rewrite length_seqZ in Hn. cbn in Hn. lia. }
    assert (Hfirst : block_num first = from).
    { rewrite seqZ_cons in Hn by lia. by injection Hn. }
    apply IH in Hx as (start & front & Hs & -> & Hf). unfold block_num in Hfirst. rewrite Hfirst in Hs, Hf.
    exists start, (front ++ first :: rest). split; [lia|]. split; [by rewrite <-app_assoc|].
    rewrite map_app, Hf. rewrite Hn. apply seqZ_glue; lia.
Qed.

(** ** Restoring a stream *)

Lemma bind_res_Ok {E S A B} (m : JS E S A) (k : A -> JS E S B) s b :
  res ((m ≫= k) s) = Ok b ->
  exists a, res (m s) = Ok a /\ res (k a (post (m s))) = Ok b
    /\ post ((m ≫= k) s) = post (k a (post (m s))).
Proof.
  unfold mbind, JS_mbind, js_bind. destruct (m s) as [[a|e] s1 w1]; [|done].
  cbn [res post]. destruct (k a s1) as [r s2 w2] eqn:Hk. cbn [res post]. intros ->. exists a. by rewrite Hk.
Qed.

Lemma save_Ok f (s : SyncedStream.t) :
  res (save f s) = Ok tt ->
  exists st', f (persistenceStore s) = Ok st'
    /\ post (save f s) = SyncedStream.mkT (view s) (stopped s) (isUpToDate s) st'.
Proof.
  unfold save. js_unfold. destruct (f (persistenceStore s)) as [st'|e]; cbn; [|done]. eauto.
Qed.

Lemma markUpToDate_post s :
  persistenceStore (post (markUpToDate s)) = persistenceStore s /\ streamId (post (markUpToDate s)) = streamId s.
Proof. unfold markUpToDate. js_unfold. by destruct (isUpToDate s). Qed.

(** What a successful initialization leaves in the store. *)
Lemma initialize_saves cookie evs snap block0 rest pre prevNum cts s :
  let mbs := block0 :: rest in
  NoDup (map block_num mbs) ->
  res (SyncedStream.initialize cookie evs snap mbs pre prevNum cts s) = Ok tt ->
  let s1 := post (SyncedStream.initialize cookie evs snap mbs pre prevNum cts s) in
  Forall (holds (streamId s1) (persistenceStore s1)) mbs
  /\ exists data, table_get (streamId s1) (syncedStreams (persistenceStore s1)) = Some data
     /\ PersistedSyncedStream_fromBinary data
        = Ok (persist cookie (block_num block0) evs (block_num (List.last mbs block0))).
Proof.
  cbv zeta. intros Hnd Hok. unfold SyncedStream.initialize in *.
  apply bind_res_Ok in Hok as ([] & _ & Hok & ->). set (s2 := post (stream_initialize _ _ _ _ _ _ _ s)) in *.
  apply bind_res_Ok in Hok as (self & [= <-] & Hok & ->). cbn [post js_get] in *.
  apply bind_res_Ok in Hok as ([] & Hsave & Hok & ->). apply save_Ok in Hsave as (st1 & Hs1 & Hp1). rewrite Hp1 in *.
  apply bind_res_Ok in Hok as ([] & Hsave & Hok & ->). apply save_Ok in Hsave as (st2 & Hs2 & Hp2). rewrite Hp2 in *.
  match goal with |- context [post (markUpToDate ?x)] => destruct (markUpToDate_post x) as [-> ->] end.
  cbn [persistenceStore view streamId] in *. unfold streamId in *. cbn [view] in *. split.
  - by eapply saveMiniblocks_holds.
  - unfold saveSyncedStream in Hs1. apply result_bind_Ok in Hs1 as (data & Hb & [= <-]).
    unfold saveMiniblocks in Hs2. apply result_bind_Ok in Hs2 as (records & _ & [= <-]).
    cbn [syncedStreams]. exists data. split; [apply table_get_put_eq|]. by apply syncedStream_binary.
Qed.

(** ** The properties *)

Lemma get_bind {E S A} (k : S -> JS E S A) s : (js_get ≫= k) s = k s s.
Proof. js_unfold. by destruct (k s s). Qed.

Lemma lift_bind {E S A B} (a : A) (k : A -> JS E S B) s : (js_lift (Ok a) ≫= k) s = k a s.
Proof. js_unfold. by destruct (k a s). Qed.

Lemma seqZ_one m : seqZ m 1 = [m].
Proof. by rewrite seqZ_cons. Qed.

Lemma last_block_num b l d : last (map block_num (b :: l)) = Some (block_num (List.last (b :: l) d)).
Proof. revert b. induction l as [|x l IH]; intros b; [done|]. exact (IH x). Qed.

(** C28: a stream that was initialized from the node is restored from the store: a
    new object of the same stream reads back exactly the cookie, the minipool, the
    snapshot and the miniblocks it was initialized with, puts the cached scrollback
    in front of them and runs the same initialization on them. *)
Theorem persisted_stream_restored cookie evs snap block0 rest pre prevNum cts s s2 :
  let mbs := block0 :: rest in
  let s1 := post (SyncedStream.initialize cookie evs snap mbs pre prevNum cts s) in
  res (SyncedStream.initialize cookie evs snap mbs pre prevNum cts s) = Ok tt ->
  map block_num mbs = seqZ (block_num block0) (Z.of_nat (length mbs)) ->
  Forall storable_block mbs -> Forall storable evs -> mh_snapshot (pmb_header block0) = Some snap ->
  streamId s2 = streamId s1 -> persistenceStore s2 = persistenceStore s1 ->
  forall scrolled, cachedScrollback (mh_prevSnapshotMiniblockNum (pmb_header block0)) (block_num block0) s2 = Ok scrolled ->
  initializeFromPersistence s2
  = js_try (stream_initialize cookie evs snap mbs scrolled (mh_prevSnapshotMiniblockNum (pmb_header block0))
              (getCleartexts (event_ids mbs ++ eventIdsFromSnapshot snap ++ event_ids scrolled) (persistenceStore s2));;
            mret true) (fun _ => mret false) s2.
Proof.
  intros mbs s1 Hok Hnum Hst Hev Hsnap Hid Hstore scrolled Hscroll.
  assert (Hnd : NoDup (map block_num mbs)) by (rewrite Hnum; apply NoDup_seqZ).
  destruct (initialize_saves _ _ _ _ _ _ _ _ _ Hnd Hok) as (Hholds & data & Hg & Hd). fold mbs in Hholds, Hg, Hd. fold s1 in Hholds, Hg.
  assert (Hlast : block_num (List.last mbs block0) = block_num block0 + Z.of_nat (length mbs) - 1).
  { assert (Hl : last (map block_num mbs) = Some (block_num (List.last mbs block0))).
    { apply last_block_num. }
    rewrite Hnum in Hl. replace (Z.of_nat (length mbs)) with (Z.of_nat (length rest) + 1) in * by (unfold mbs; cbn; lia).
    rewrite seqZ_app in Hl by lia. rewrite seqZ_one, last_snoc in Hl.
    apply (f_equal (default 0)) in Hl. cbn [default from_option id] in Hl. lia. }
  rewrite <-Hid, <-Hstore in *.
  assert (Hget : getSyncedStream (streamId s2) (persistenceStore s2)
    = Ok (Some (mkParsedSyncedStream cookie (block_num block0) evs (block_num (List.last mbs block0))))).
  { unfold getSyncedStream. rewrite Hg, Hd. res_simpl.
    unfold persistedSyncedStreamToParsedSyncedStream, persist.
    cbn [pss_syncCookie pss_lastSnapshotMiniblockNum pss_minipoolEvents pss_lastMiniblockNum].
    by rewrite events_roundtrip. }
  assert (Hblocks : getMiniblocks (streamId s2) (block_num block0) (block_num (List.last mbs block0)) (persistenceStore s2)
    = Ok mbs) by (apply getMiniblocks_held; [rewrite Hnum, Hlast; f_equal; lia|done|done]).
  unfold initializeFromPersistence. rewrite get_bind, Hget, lift_bind.
  cbn [pys_lastSnapshotMiniblockNum pys_lastMiniblockNum pys_syncCookie pys_minipoolEvents].
  rewrite Hblocks, lift_bind. unfold mbs at 1. cbn iota. rewrite Hsnap.
  change (mh_miniblockNum (pmb_header block0)) with (block_num block0). by rewrite Hscroll, lift_bind.
Qed.

(** The cached scrollback has no gap: it ends with the miniblock before the one
    it is put in front of, and its numbers are consecutive. *)
Theorem cached_scrollback_gapless from to s l :
  keyed (streamId s) (persistenceStore s) -> cachedScrollback from to s = Ok l ->
  exists start, start <= to /\ map block_num l = seqZ start (to - start).
Proof.
  unfold cachedScrollback. intros Hk Hx. destruct (_ && _).
  - injection Hx as <-. exists to. by rewrite Z.sub_diag.
  - apply scrollback_numbers in Hx as (start & front & Hs & -> & Hf); [|done].
    exists start. by rewrite app_nil_r.
Qed.

(** What is saved is read back: consecutive miniblocks, as unpacking makes them,
    are read as they were, and a range with a missing record is not read at all. *)
Theorem saved_miniblocks_read sid a mbs s s' :
  map block_num mbs = seqZ a (Z.of_nat (length mbs)) -> Forall storable_block mbs ->
  saveMiniblocks sid mbs s = Ok s' ->
  getMiniblocks sid a (a + Z.of_nat (length mbs) - 1) s' = Ok mbs
  /\ (forall b l n, getMiniblocks sid a b s' = Ok l -> a <= n <= b ->
        getMiniblock sid n s' = Ok None -> l = []).
Proof.
  intros Hn Hst Hs. split.
  - apply getMiniblocks_held; [rewrite Hn; f_equal; lia|done|].
    eapply saveMiniblocks_holds; [|done]. rewrite Hn. apply NoDup_seqZ.
  - intros b l n Hg Hr Hnone. apply getMiniblocks_all_or_nothing in Hg as [?|Hf]; [done|].
    assert (Hin : n ∈ seqZ a (b - a + 1)) by (apply elem_of_seqZ; lia).
    apply list_elem_of_lookup in Hin as [i Hi]. destruct (Forall2_lookup_l _ _ _ _ _ Hf Hi) as (mb & _ & Hmb). congruence.
Qed.
End Restore.

(** A read that is aborted is repeated without a bound, whatever the number of
    retries: the first attempt that is not aborted decides, and while all are
    aborted the read never returns. *)
Theorem read_retried_without_bound {A} (fn : nat -> attempt A) (retries n : nat) :
  (0 < retries)%nat -> (forall j, (j < n)%nat -> exists e, fn j = Aborted e) ->
  (forall fuel, (fuel <= n)%nat -> fnReadRetryer fuel fn retries = None)
  /\ (forall a, fn n = Read a -> fnReadRetryer (S n) fn retries = Some (Ok a))
  /\ (forall e, fn n = Failed e -> fnReadRetryer (S n) fn retries = Some (Throw e)).
Proof.
  intros Hr Ha. unfold fnReadRetryer. split.
  - intros fuel Hf. destruct (retryer_aborts fn retries fuel 0 0 (JsError "undefined") Hr) as [err He];
      [intros j Hj; apply Ha; lia|]. rewrite Nat.add_0_r in He. by rewrite He.
  - destruct (retryer_aborts fn retries n 1 0 (JsError "undefined") Hr) as [err He]; [intros j Hj; apply Ha; lia|].
    rewrite Nat.add_1_r in He. rewrite He. cbn [fnReadRetryer_loop Nat.add].
    rewrite (proj2 (Nat.ltb_lt 0 retries) Hr). split; by intros x ->.
Qed.

(** ** A concrete database *)

Definition toy_snapshot : Snapshot := mkSnapshot None 2 (Some (Snapshot_channelContent (mkChannelSnapshot None))).
Definition toy_cookie : SyncCookie := mkSyncCookie [] [] 0 0 [].
Definition toy_header (num : Z) : MiniblockHeader := mkMiniblockHeader num [] None [] (Some toy_snapshot) 0 0 true.
Definition toy_persisted_block (num : Z) (h : byte) : PersistedMiniblock :=
  mkPersistedMiniblock [] (Some (toy_header num)) [mkPersistedEvent (Some (mkStreamEvent [] [] [] None 0 0 None)) [h] "" ""].

(** Tables are functions; the coding knows one shape of miniblock and of stream. *)
#[export] Instance toy_Database : Database := {|
  table K V := K -> option V;
  table_put K V dec k v t := fun k' => if decide (k' = k) then Some v else t k';
  table_get K V dec k t := t k;
  PersistedMiniblock_toBinary m :=
    match m with
    | mkPersistedMiniblock [] (Some (mkMiniblockHeader num [] None []
        (Some (mkSnapshot None 2 (Some (Snapshot_channelContent (mkChannelSnapshot None))))) 0 0 true))
        [mkPersistedEvent (Some (mkStreamEvent [] [] [] None 0 0 None)) [h] EmptyString EmptyString] =>
        if (0 <=? num) && (num <? 256) then Ok [byte_of_Z num; h] else Throw (JsError "not supported")
    | _ => Throw (JsError "not supported")
    end;
  PersistedMiniblock_fromBinary b :=
    match b with
    | [num; h] => Ok (toy_persisted_block (Z_of_byte num) h)
    | _ => Throw (JsError "not supported")
    end;
  PersistedSyncedStream_toBinary m :=
    match m with
    | mkPersistedSyncedStream (Some (mkSyncCookie [] [] 0 0 [])) a b [] =>
        if (0 <=? a) && (a <? 256) && (0 <=? b) && (b <? 256) then Ok [byte_of_Z a; byte_of_Z b]
        else Throw (JsError "not supported")
    | _ => Throw (JsError "not supported")
    end;
  PersistedSyncedStream_fromBinary b :=
    match b with
    | [a; c] => Ok (mkPersistedSyncedStream (Some toy_cookie) (Z_of_byte a) (Z_of_byte c) [])
    | _ => Throw (JsError "not supported")
    end;
|}.

Lemma byte_small n : (0 <=? n) && (n <? 256) = true -> Z_of_byte (byte_of_Z n) = n.
Proof.
  intros [H1 H2]%andb_true_iff. apply Z.leb_le in H1. apply Z.ltb_lt in H2.
  rewrite Z_of_byte_of_Z. apply Z.mod_small. lia.
Qed.

#[export] Instance toy_DatabaseLaws : DatabaseLaws.
Proof.
  split.
  - intros K V dec k v tb. cbn. by rewrite decide_True.
  - intros K V dec k k' v tb Hne. cbn. by rewrite decide_False.
  - intros m b Hb. cbn [PersistedMiniblock_toBinary toy_Database] in Hb.
    repeat (case_match; try discriminate Hb). subst. injection Hb as <-.
    cbn [PersistedMiniblock_fromBinary toy_Database]. by rewrite byte_small.
  - intros m b Hb. cbn [PersistedSyncedStream_toBinary toy_Database] in Hb.
    repeat (case_match; try discriminate Hb). subst. injection Hb as <-.
    cbn [PersistedSyncedStream_fromBinary toy_Database].
    match goal with E : _ && _ = true |- _ => rewrite <-andb_assoc in E; apply andb_true_iff in E as [E1 E2] end.
    by rewrite !byte_small.
Qed.

(** ** Concrete runs *)

Definition empty_store : store := mkStore (fun _ => None) (fun _ => None) (fun _ => None).
Definition stored_event (h : byte) : ParsedEvent :=
  mkParsedEvent (mkStreamEvent [] [] [] None 0 0 None) [h] (bin_toHexString [h]) None "".
Definition stored_block (num : Z) (h : byte) : ParsedMiniblock :=
  mkParsedMiniblock [] (toy_header num) [stored_event h].

Definition demo_stream (st : store) : SyncedStream.t :=
  SyncedStream.mkT (StreamStateView.mk "20" "u" (C_channel (Channel.new "20")) ∅ 0%nat [] ∅ false None None 0 0 None None
    (Members.new "20")) false false st.

Definition demo_saved : SyncedStream.t :=
  post (SyncedStream.initialize toy_cookie [] toy_snapshot [stored_block 4 x0a; stored_block 5 x0b] [] 0 None
          (demo_stream empty_store)).

Lemma stored_blocks_ok : Forall storable_block [stored_block 4 x0a; stored_block 5 x0b].
Proof. repeat constructor; done. Qed.

Definition demo_restored : SyncedStream.t := demo_stream (persistenceStore demo_saved).

Lemma persisted_stream_restored_witness :
  initializeFromPersistence demo_restored
  = js_try (stream_initialize toy_cookie [] toy_snapshot [stored_block 4 x0a; stored_block 5 x0b] []
              (mh_prevSnapshotMiniblockNum (pmb_header (stored_block 4 x0a)))
              (getCleartexts (event_ids [stored_block 4 x0a; stored_block 5 x0b]
                 ++ eventIdsFromSnapshot toy_snapshot ++ event_ids []) (persistenceStore demo_restored));;
            mret true) (fun _ => mret false) demo_restored.
Proof.
  refine (persisted_stream_restored toy_cookie [] toy_snapshot (stored_block 4 x0a) [stored_block 5 x0b] [] 0 None
           (demo_stream empty_store) demo_restored _ _ _ _ _ _ _ [] _).
  - vm_compute. reflexivity.
  - reflexivity.
  - exact stored_blocks_ok.
  - constructor.
  - reflexivity.
  - vm_compute. reflexivity.
  - vm_compute. reflexivity.
  - vm_compute. reflexivity.
Defined.

Definition demo_blocks_store : store :=
  mkStore (fun _ => None) (fun _ => None)
    (table_put (miniblock_key "20" 5) [byte_of_Z 5; x0b]
      (table_put (miniblock_key "20" 4) [byte_of_Z 4; x0a] (fun _ => None))).

Lemma demo_blocks_saved :
  saveMiniblocks "20" [stored_block 4 x0a; stored_block 5 x0b] empty_store = Ok demo_blocks_store.
Proof. vm_compute. reflexivity. Qed.

Lemma demo_blocks_keyed : keyed "20" demo_blocks_store.
Proof.
  apply (saveMiniblocks_keyed "20" "20" [stored_block 4 x0a; stored_block 5 x0b] empty_store).
  - intros n mb Hg. discriminate Hg.
  - exact demo_blocks_saved.
Qed.

Lemma cached_scrollback_gapless_witness :
  exists start, start <= 6 /\ map block_num [stored_block 4 x0a; stored_block 5 x0b] = seqZ start (6 - start).
Proof.
  refine (cached_scrollback_gapless 4 6 (demo_stream demo_blocks_store) [stored_block 4 x0a; stored_block 5 x0b] _ _).
  - exact demo_blocks_keyed.
  - vm_compute. reflexivity.
Defined.

Lemma saved_miniblocks_read_witness :
  getMiniblocks "20" 4 (4 + Z.of_nat (length [stored_block 4 x0a; stored_block 5 x0b]) - 1) demo_blocks_store
  = Ok [stored_block 4 x0a; stored_block 5 x0b]
  /\ (forall b l n, getMiniblocks "20" 4 b demo_blocks_store = Ok l -> 4 <= n <= b ->
        getMiniblock "20" n demo_blocks_store = Ok None -> l = []).
Proof.
  refine (saved_miniblocks_read "20" 4 [stored_block 4 x0a; stored_block 5 x0b] empty_store demo_blocks_store _ _ _).
  - vm_compute. reflexivity.
  - exact stored_blocks_ok.
  - exact demo_blocks_saved.
Defined.

Lemma read_retried_without_bound_witness :
  fnReadRetryer 100 (fun _ => Aborted (A := unit) (JsError "AbortError")) DEFAULT_RETRY_COUNT = None.
Proof.
  assert (Ha : forall j, (j < 100)%nat -> exists e, (fun _ : nat => Aborted (A := unit) (JsError "AbortError")) j = Aborted e).
  { intros j _. by eexists. }
  assert (Hr : (0 < DEFAULT_RETRY_COUNT)%nat) by (unfold DEFAULT_RETRY_COUNT; lia).
  exact (proj1 (read_retried_without_bound (fun _ => Aborted (A := unit) (JsError "AbortError"))
                  DEFAULT_RETRY_COUNT 100 Hr Ha) 100%nat (le_n 100)).
Defined.
