(* ===== verification/SyncedStreamsExtension.v ===== *)
(** * Loading the streams at the start (core/sdk/src/syncedStreamsExtension.ts)

    [SyncedStreamsExtension] loads the streams of a client in three tasks: the high
    priority ones, all from the persistence store, the rest from the network; then
    it starts the sync loop. A task is run by a tick, a tick by a timer, and the
    loads of a task run side by side behind a limiter. The state holds the fields of
    the object and what is pending outside: timers, unfinished ticks, loads given to
    the limiter, and calls of [stop] that wait. *)

From S2P Require Import Prelude Proto Externals Binary StreamId.

Record ClientInitStatus := mkStatus {
  isLocalDataLoaded : bool;
  isRemoteDataLoaded : bool;
  progress : Z * Z; (* a fraction *)
}.

Inductive Task := loadHighPriorityStreams | loadStreamsFromPersistence | loadStreamsFromNetwork.

(** What a tick waits for: the loads of its task, [startSync], or nothing. *)
Inductive Work := RunsTask (task : Task) | StartsSync | Idle.

#[global] Instance Task_eq_dec : EqDecision Task.
Proof. solve_decision. Defined.
#[global] Instance Work_eq_dec : EqDecision Work.
Proof. solve_decision. Defined.

(** A function given to the limiter by [loadStreamFromPersistence], or by
    [loadStreamFromNetwork]; [ld_running] once it has called [initStream]. *)
Record load := mkLoad {
  ld_tick : nat;
  ld_streamId : string;
  ld_network : bool;
  ld_allowGetStream : bool;
  ld_running : bool;
}.

(** The counters of the object. *)
Record counters := mkCounters {
  streamCountRequiringNetworkAccess : Z;
  numStreamsLoadedFromCache : Z;
  numStreamsLoadedFromNetwork : Z;
  numStreamsFailedToLoad : Z;
  totalStreamCount : Z;
  loadedStreamCount : Z;
}.

(** What is pending: timers set so far, those that have not fired, the ticks that
    have not settled, the loads of their tasks, the ticks that calls of [stop] await.
    A timer and the tick it starts have the same number. *)
Record pending := mkPending {
  timers : nat;
  armed : list nat;
  ticks : list (nat * Work);
  loads : list load;
  stops : list nat;
}.

Record t := mkT {
  tasks : list Task;
  streamIds : list string;
  highPriorityIds : list string;
  started : bool;
  inProgressTick : option nat;
  timeoutId : option nat;
  startSyncRequested : bool;
  didLoadStreamsFromPersistence : bool;
  counts : counters;
  initStatus : ClientInitStatus;
  env : pending;
}.

Definition set_tasks f (s : t) : t := mkT (f (tasks s)) (streamIds s) (highPriorityIds s) (started s) (inProgressTick s)
  (timeoutId s) (startSyncRequested s) (didLoadStreamsFromPersistence s) (counts s) (initStatus s) (env s).
Definition set_streamIds f (s : t) : t := mkT (tasks s) (f (streamIds s)) (highPriorityIds s) (started s) (inProgressTick s)
  (timeoutId s) (startSyncRequested s) (didLoadStreamsFromPersistence s) (counts s) (initStatus s) (env s).
Definition set_highPriorityIds v (s : t) : t := mkT (tasks s) (streamIds s) v (started s) (inProgressTick s)
  (timeoutId s) (startSyncRequested s) (didLoadStreamsFromPersistence s) (counts s) (initStatus s) (env s).
Definition set_started v (s : t) : t := mkT (tasks s) (streamIds s) (highPriorityIds s) v (inProgressTick s)
  (timeoutId s) (startSyncRequested s) (didLoadStreamsFromPersistence s) (counts s) (initStatus s) (env s).
Definition set_inProgressTick v (s : t) : t := mkT (tasks s) (streamIds s) (highPriorityIds s) (started s) v
  (timeoutId s) (startSyncRequested s) (didLoadStreamsFromPersistence s) (counts s) (initStatus s) (env s).
Definition set_timeoutId v (s : t) : t := mkT (tasks s) (streamIds s) (highPriorityIds s) (started s) (inProgressTick s)
  v (startSyncRequested s) (didLoadStreamsFromPersistence s) (counts s) (initStatus s) (env s).
Definition set_startSyncRequested v (s : t) : t := mkT (tasks s) (streamIds s) (highPriorityIds s) (started s) (inProgressTick s)
  (timeoutId s) v (didLoadStreamsFromPersistence s) (counts s) (initStatus s) (env s).
Definition set_didLoadStreamsFromPersistence v (s : t) : t := mkT (tasks s) (streamIds s) (highPriorityIds s) (started s)
  (inProgressTick s) (timeoutId s) (startSyncRequested s) v (counts s) (initStatus s) (env s).
Definition set_counts f (s : t) : t := mkT (tasks s) (streamIds s) (highPriorityIds s) (started s) (inProgressTick s)
  (timeoutId s) (startSyncRequested s) (didLoadStreamsFromPersistence s) (f (counts s)) (initStatus s) (env s).
Definition set_initStatus v (s : t) : t := mkT (tasks s) (streamIds s) (highPriorityIds s) (started s) (inProgressTick s)
  (timeoutId s) (startSyncRequested s) (didLoadStreamsFromPersistence s) (counts s) v (env s).
Definition set_env f (s : t) : t := mkT (tasks s) (streamIds s) (highPriorityIds s) (started s) (inProgressTick s)
  (timeoutId s) (startSyncRequested s) (didLoadStreamsFromPersistence s) (counts s) (initStatus s) (f (env s)).

Definition set_armed f (p : pending) : pending := mkPending (timers p) (f (armed p)) (ticks p) (loads p) (stops p).
Definition set_ticks f (p : pending) : pending := mkPending (timers p) (armed p) (f (ticks p)) (loads p) (stops p).
Definition set_loads f (p : pending) : pending := mkPending (timers p) (armed p) (ticks p) (f (loads p)) (stops p).
Definition set_stops f (p : pending) : pending := mkPending (timers p) (armed p) (ticks p) (loads p) (f (stops p)).

Definition new : t :=
  mkT [] [] [] false None None false false (mkCounters 0 0 0 0 0 0) (mkStatus false false (0, 1)) (mkPending 0 [] [] [] []).

(** Calls of the delegate and of the metrics service. *)
Inductive out :=
| InitStream (streamId : string) (allowGetStream : bool)
| StartSyncStreams
| EmitClientInitStatus (status : ClientInitStatus)
| AddAction (fromCache fromNetwork failed : Z).

Local Abbreviation XM := (JS out t).

(** [new Set(array)]: first occurrences, in order. *)
Definition set_add (acc : list string) (x : string) : list string := if decide (x ∈ acc) then acc else acc ++ [x].
Definition set_of (l : list string) : list string := foldl set_add [] l.

(** [set.delete(x)]. *)
Definition set_delete (x : string) (l : list string) : list string := filter (fun y => y <> x) l.

Definition setStreamIds (ids : list string) : XM unit :=
  self ← js_get;
  js_check (length (streamIds self) =? 0)%nat "setStreamIds called twice";;
  js_modify (set_streamIds (fun _ => set_of ids));;
  js_modify (set_counts (fun c => mkCounters (streamCountRequiringNetworkAccess c) (numStreamsLoadedFromCache c)
    (numStreamsLoadedFromNetwork c) (numStreamsFailedToLoad c) (Z.of_nat (length ids)) (loadedStreamCount c))).

Definition setHighPriority (ids : list string) : XM unit :=
  self ← js_get;
  js_check (length (highPriorityIds self) =? 0)%nat "setHighPriority called twice";;
  js_modify (set_highPriorityIds (set_of ids)).

Definition status_of (s : t) : ClientInitStatus :=
  let c := counts s in
  mkStatus (didLoadStreamsFromPersistence s)
    (didLoadStreamsFromPersistence s && (streamCountRequiringNetworkAccess c =? 0))
    (if 0 <? totalStreamCount c
     then (totalStreamCount c - Z.of_nat (length (streamIds s)), totalStreamCount c)
     else progress (initStatus s)).

Definition emitClientStatus : XM unit :=
  js_modify (fun s => set_initStatus (status_of s) s);;
  self ← js_get;
  js_emit true (EmitClientInitStatus (initStatus self)).

(** [this.timeoutId = setTimeout(..., 0)]. *)
Definition armTimer : XM unit :=
  js_modify (fun s =>
    let id := timers (env s) in
    set_timeoutId (Some id)
      (set_env (fun p => mkPending (S id) (armed p ++ [id]) (ticks p) (loads p) (stops p)) s)).

Definition checkStartTicking : XM unit :=
  self ← js_get;
  if negb (started self) || is_defined (timeoutId self) then js_return
  else if (length (tasks self) =? 0)%nat && negb (startSyncRequested self) then
    emitClientStatus;;
    js_emit true (AddAction (numStreamsLoadedFromCache (counts self)) (numStreamsLoadedFromNetwork (counts self))
                    (numStreamsFailedToLoad (counts self)))
  else armTimer.

Definition setStartSyncRequested (requested : bool) : XM unit :=
  js_modify (set_startSyncRequested requested);;
  js_when requested checkStartTicking.

Definition start : XM unit :=
  self ← js_get;
  js_check (negb (started self)) "start() called twice";;
  js_modify (set_started true);;
  js_modify (set_counts (fun c => mkCounters (streamCountRequiringNetworkAccess c) 0 0 0
    (totalStreamCount c) (loadedStreamCount c)));;
  js_modify (set_tasks (fun l => l ++ [loadHighPriorityStreams; loadStreamsFromPersistence; loadStreamsFromNetwork]));;
  checkStartTicking.

Section Loading.
Context `{Externals}.

Definition priorityFromStreamId (s : t) (streamId : string) : Z :=
  let id := IdString streamId in
  if isUserDeviceStreamId id || isUserInboxStreamId id || isUserStreamId id || isUserSettingsStreamId id then 0
  else if bool_decide (streamId ∈ highPriorityIds s) then 1
  else if isSpaceStreamId id then 2
  else if isChannelStreamId id then 3
  else 4.

(** The streams of the two later tasks, by priority. *)
Definition syncItems (s : t) : list string :=
  js_sort (fun a b => priorityFromStreamId s a <=? priorityFromStreamId s b) (streamIds s).

(** [loadStreamFromPersistence] and [loadStreamFromNetwork] up to the limiter. *)
Definition loadStreamFromPersistence (s : t) (tick : nat) (streamId : string) : load :=
  mkLoad tick streamId false (bool_decide (streamId ∈ highPriorityIds s)) false.
Definition loadStreamFromNetwork (tick : nat) (streamId : string) : load :=
  mkLoad tick streamId true true false.

(** The loads a task gives to the limiter, in order. *)
Definition task_loads (s : t) (tick : nat) (task : Task) : list load :=
  match task with
  | loadHighPriorityStreams => map (loadStreamFromPersistence s tick) (highPriorityIds s)
  | loadStreamsFromPersistence => map (loadStreamFromPersistence s tick) (syncItems s)
  | loadStreamsFromNetwork => map (loadStreamFromNetwork tick) (syncItems s)
  end.

Definition begin_work (tick : nat) (work : Work) : XM unit :=
  js_modify (set_env (set_ticks (fun l => l ++ [(tick, work)]))).

(** [tick], up to its first [await]. *)
Definition run_tick (tick : nat) : XM unit :=
  self ← js_get;
  match tasks self with
  | task :: rest =>
      js_modify (set_tasks (fun _ => rest));;
      js_modify (set_env (set_loads (fun l => l ++ task_loads self tick task)));;
      begin_work tick (RunsTask task)
  | [] =>
      if startSyncRequested self then
        js_modify (set_startSyncRequested false);;
        js_emit true StartSyncStreams;;
        begin_work tick StartsSync
      else begin_work tick Idle
  end.

(** The timer fires. *)
Definition onTimer (id : nat) : XM unit :=
  js_modify (set_env (set_armed (filter (fun i => i <> id))));;
  js_modify (set_inProgressTick (Some id));;
  run_tick id.

(** The limiter calls the function of a load. *)
Definition onLoadStart (l : load) : XM unit :=
  js_modify (set_env (set_loads (map (fun l' =>
    if decide ((ld_tick l', ld_streamId l') = (ld_tick l, ld_streamId l))
    then mkLoad (ld_tick l') (ld_streamId l') (ld_network l') (ld_allowGetStream l') true else l'))));;
  js_emit true (InitStream (ld_streamId l) (ld_allowGetStream l)).

(** [initStream] returns or throws: the rest of the function of the load. *)
Definition onLoadEnd (l : load) (ok : bool) : XM unit :=
  js_modify (set_env (set_loads (filter (fun l' => (ld_tick l', ld_streamId l') <> (ld_tick l, ld_streamId l)))));;
  (if ld_network l then
     (if ok then
        js_modify (set_counts (fun c => mkCounters (streamCountRequiringNetworkAccess c) (numStreamsLoadedFromCache c)
          (numStreamsLoadedFromNetwork c + 1) (numStreamsFailedToLoad c) (totalStreamCount c) (loadedStreamCount c)));;
        js_modify (set_streamIds (set_delete (ld_streamId l)))
      else
        js_modify (set_counts (fun c => mkCounters (streamCountRequiringNetworkAccess c) (numStreamsLoadedFromCache c)
          (numStreamsLoadedFromNetwork c) (numStreamsFailedToLoad c + 1) (totalStreamCount c) (loadedStreamCount c))));;
     js_modify (set_counts (fun c => mkCounters (streamCountRequiringNetworkAccess c - 1) (numStreamsLoadedFromCache c)
       (numStreamsLoadedFromNetwork c) (numStreamsFailedToLoad c) (totalStreamCount c) (loadedStreamCount c + 1)))
   else if ok then
     js_modify (set_counts (fun c => mkCounters (streamCountRequiringNetworkAccess c) (numStreamsLoadedFromCache c + 1)
       (numStreamsLoadedFromNetwork c) (numStreamsFailedToLoad c) (totalStreamCount c) (loadedStreamCount c + 1)));;
     js_modify (set_streamIds (set_delete (ld_streamId l)))
   else
     js_modify (set_counts (fun c => mkCounters (streamCountRequiringNetworkAccess c + 1) (numStreamsLoadedFromCache c)
       (numStreamsLoadedFromNetwork c) (numStreamsFailedToLoad c) (totalStreamCount c) (loadedStreamCount c))));;
  emitClientStatus.

(** What a task does after its loads. *)
Definition finish_task (task : Task) : XM unit :=
  match task with
  | loadHighPriorityStreams => emitClientStatus
  | loadStreamsFromPersistence => js_modify (set_didLoadStreamsFromPersistence true);; emitClientStatus
  | loadStreamsFromNetwork => emitClientStatus
  end.

(** What the tick awaited is there: its end, and the [finally] of the timer. *)
Definition onTickEnd (tick : nat) (work : Work) : XM unit :=
  match work with
  | RunsTask task => finish_task task
  | _ => js_return
  end;;
  js_modify (set_env (set_ticks (filter (fun k => k.1 <> tick))));;
  js_modify (set_timeoutId None);;
  checkStartTicking.

(** [stop], up to the [await] of [stopTicking]. *)
Definition stop : XM unit :=
  self ← js_get;
  match timeoutId self with
  | Some id =>
      js_modify (set_env (set_armed (filter (fun i => i <> id))));;
      js_modify (set_timeoutId None)
  | None => js_return
  end;;
  match inProgressTick self with
  | Some id => js_modify (set_env (set_stops (fun l => l ++ [id])))
  | None => js_return
  end.

(** The rest of [stopTicking], of all calls that wait for the tick. *)
Definition onStopEnd (id : nat) : XM unit :=
  js_modify (set_env (set_stops (filter (fun i => i <> id))));;
  js_modify (set_inProgressTick None).

(** ** Runs *)

Inductive event :=
| CallSetStartSyncRequested (requested : bool)
| CallStop
| TimerFires (id : nat)
| LoadStarts (l : load)
| LoadEnds (l : load) (ok : bool)
| TickEnds (tick : nat) (work : Work)
| StopEnds (id : nat).

Definition is_call (e : event) : bool :=
  match e with
  | CallSetStartSyncRequested _ | CallStop => true
  | _ => false
  end.

(** When something can happen: a load starts and ends once, a tick ends when the
    loads of its task have ended, [stop] goes on when the tick it awaits has ended. *)
Definition enabled (s : t) (e : event) : Prop :=
  match e with
  | CallSetStartSyncRequested _ | CallStop => True
  | TimerFires id => id ∈ armed (env s)
  | LoadStarts l => l ∈ loads (env s) /\ ld_running l = false
  | LoadEnds l _ => l ∈ loads (env s) /\ ld_running l = true
  | TickEnds tick work => (tick, work) ∈ ticks (env s) /\ Forall (fun l => ld_tick l <> tick) (loads (env s))
  | StopEnds id => id ∈ stops (env s) /\ Forall (fun k => k.1 <> id) (ticks (env s))
  end.

#[global] Instance load_eq_dec : EqDecision load.
Proof. solve_decision. Defined.
#[global] Instance enabled_dec s e : Decision (enabled s e).
Proof. destruct e; cbn; apply _. Defined.

Definition handle (e : event) : XM unit :=
  match e with
  | CallSetStartSyncRequested requested => setStartSyncRequested requested
  | CallStop => stop
  | TimerFires id => onTimer id
  | LoadStarts l => onLoadStart l
  | LoadEnds l ok => onLoadEnd l ok
  | TickEnds tick work => onTickEnd tick work
  | StopEnds id => onStopEnd id
  end.

Definition after (e : event) (s : t) : t := post (handle e s).

(** A sequence of events from a state. *)
Inductive runs : t -> list event -> t -> Prop :=
| runs_nil s : runs s [] s
| runs_snoc s s' es e : runs s es s' -> enabled s' e -> runs s (es ++ [e]) (after e s').

(** The client: the constructor, the streams of the user, then [start]. *)
Definition started_with (high ids : list string) : t :=
  post ((setHighPriority high;; setStreamIds ids;; start) new).
End Loading.
