(* ===== verification/StreamLoading.v ===== *)
(** * What the loading of the streams does

    The theorems about [SyncedStreamsExtension]: loading always ends, in which order
    streams are loaded, how the counters and the announced status come out, and what
    [stop] leaves running. *)

From S2P Require Import Prelude Proto Externals ToyExternals Binary StreamId SyncedStreamsExtension.

Section StreamLoading.
Context `{Externals}.
#[local] Arguments set_delete : simpl never.

(** ** The state after a step *)

Lemma emitClientStatus_post s : emitClientStatus s
  = Outcome (Ok tt) (set_initStatus (status_of s) s) [EmitClientInitStatus (status_of s)].
Proof. reflexivity. Qed.

(** Whether ticking goes on. *)
Definition busy (s : t) : bool := negb (length (tasks s) =? 0)%nat || startSyncRequested s.

Definition arm (s : t) : t := post (armTimer s).

Lemma arm_env s : env (arm s)
  = mkPending (S (timers (env s))) (armed (env s) ++ [timers (env s)]) (ticks (env s)) (loads (env s)) (stops (env s)).
Proof. reflexivity. Qed.

Lemma checkStartTicking_post s :
  post (checkStartTicking s)
  = if negb (started s) || is_defined (timeoutId s) then s
    else if busy s then arm s else set_initStatus (status_of s) s.
Proof.
  unfold checkStartTicking, busy, arm. js_unfold. destruct (negb (started s) || _); [done|].
  by destruct (length (tasks s) =? 0)%nat, (startSyncRequested s).
Qed.

Lemma checkStartTicking_env s :
  env (post (checkStartTicking s)) = env s
  \/ (busy s = true /\ env (post (checkStartTicking s)) = env (arm s)).
Proof. rewrite checkStartTicking_post. destruct (_ || _); [by left|]. destruct (busy s); auto. Qed.

Lemma checkStartTicking_keeps s :
  tasks (post (checkStartTicking s)) = tasks s
  /\ startSyncRequested (post (checkStartTicking s)) = startSyncRequested s.
Proof. rewrite checkStartTicking_post. destruct (_ || _), (busy s); done. Qed.

(** A tick that has ended, before ticking goes on. *)
Definition settled (tick : nat) (work : Work) (s : t) : t :=
  set_timeoutId None (set_env (set_ticks (filter (fun k => k.1 <> tick)))
    (match work with RunsTask task => post (finish_task task s) | _ => s end)).

Lemma after_TickEnds tick work s : after (TickEnds tick work) s = post (checkStartTicking (settled tick work s)).
Proof.
  unfold after, handle, onTickEnd, settled. destruct work as [[]| |]; cbn [finish_task];
    unfold emitClientStatus; js_unfold; 
    match goal with |- context [checkStartTicking ?x] =>
      transitivity (post (checkStartTicking x)); [by destruct (checkStartTicking x)|reflexivity] end.
Qed.

(** ** Termination *)

(** Tasks and a start of the sync loop that are still to be run. *)
Definition work_left (s : t) : nat := length (tasks s) + (if startSyncRequested s then 1 else 0).

Definition load_weight (l : load) : nat := if ld_running l then 1 else 2.

Definition loads_weight (ls : list load) : nat := sum_list_with load_weight ls.
#[local] Arguments loads_weight : simpl never.

(** With work left a tick sets a timer, without it a timer starts an idle tick. *)
Definition pending_weight (s : t) : nat :=
  let p := env s in
  loads_weight (loads p) + length (stops p)
  + (if (work_left s =? 0)%nat then 2 * length (armed p) + length (ticks p)
     else length (armed p) + 2 * length (ticks p)).

(** One step of the environment. *)
Definition env_step (s' s : t) : Prop :=
  exists e, is_call e = false /\ enabled s e /\ s' = after e s.

Lemma busy_work_left s : busy s = true <-> work_left s <> 0%nat.
Proof. unfold busy, work_left. destruct (tasks s), (startSyncRequested s); cbn; split; (done || lia). Qed.

Lemma loads_weight_map_le f ls :
  (forall l, (load_weight (f l) <= load_weight l)%nat) -> (loads_weight (map f ls) <= loads_weight ls)%nat.
Proof. intros Hf. unfold loads_weight. induction ls as [|l ls IH]; cbn; [lia|]. specialize (Hf l). lia. Qed.

Lemma loads_weight_map_lt f ls l :
  (forall l, (load_weight (f l) <= load_weight l)%nat) -> l ∈ ls -> (load_weight (f l) < load_weight l)%nat ->
  (loads_weight (map f ls) < loads_weight ls)%nat.
Proof.
  intros Hf Hin Hlt. induction Hin as [l ls|l l' ls _ IH].
  - pose proof (loads_weight_map_le f ls Hf). unfold loads_weight in *. cbn. lia.
  - specialize (IH Hlt). specialize (Hf l'). unfold loads_weight in *. cbn. lia.
Qed.

Lemma loads_weight_filter_le (P : load -> Prop) `{!forall l, Decision (P l)} ls :
  (loads_weight (filter P ls) <= loads_weight ls)%nat.
Proof. unfold loads_weight. induction ls as [|l ls IH]; [done|]. rewrite filter_cons. case_decide; cbn; lia. Qed.

Lemma loads_weight_filter_lt (P : load -> Prop) `{!forall l, Decision (P l)} ls l :
  l ∈ ls -> ~ P l -> (loads_weight (filter P ls) < loads_weight ls)%nat.
Proof.
  intros Hin Hn. induction Hin as [l ls|l l' ls _ IH]; rewrite filter_cons.
  - rewrite decide_False by done. pose proof (loads_weight_filter_le P ls).
    unfold loads_weight in *. cbn. unfold load_weight at 2. destruct (ld_running l); lia.
  - specialize (IH Hn). unfold loads_weight in *. case_decide; cbn; lia.
Qed.

Lemma timer_decreases s id : id ∈ armed (env s) ->
  (work_left (after (TimerFires id) s) < work_left s)%nat
  \/ (work_left (after (TimerFires id) s) = work_left s
      /\ (pending_weight (after (TimerFires id) s) < pending_weight s)%nat).
Proof.
  intros Hin. assert (Hlt : (length (filter (fun i => i <> id) (armed (env s))) < length (armed (env s)))%nat).
  { eapply length_filter_lt; [exact Hin|]. by intros []. }
  unfold after, handle, onTimer, run_tick, begin_work. js_unfold. cbn [tasks set_env set_inProgressTick].
  destruct (tasks s) as [|task rest] eqn:Ht; cbn.
  - destruct (startSyncRequested s) eqn:Hr; [left|right].
    + unfold work_left. cbn. rewrite Ht, Hr. cbn. lia.
    + unfold pending_weight, work_left. cbn. rewrite Ht, Hr. cbn. rewrite length_app. cbn. lia.
  - left. unfold work_left. cbn. rewrite Ht. cbn. lia.
Qed.

Lemma loads_decrease s s' ls :
  work_left s' = work_left s -> env s' = set_loads (fun _ => ls) (env s) ->
  (loads_weight ls < loads_weight (loads (env s)))%nat ->
  work_left s' = work_left s /\ (pending_weight s' < pending_weight s)%nat.
Proof. intros Hw He Hlt. split; [done|]. unfold pending_weight. rewrite Hw, He. cbn. lia. Qed.

Lemma load_steps_decrease s e l :
  (e = LoadStarts l \/ exists ok, e = LoadEnds l ok) -> enabled s e ->
  work_left (after e s) = work_left s /\ (pending_weight (after e s) < pending_weight s)%nat.
Proof.
  intros [->|[ok ->]] [Hin Hr]; unfold after, handle.
  - eapply loads_decrease; [done|done|]. eapply loads_weight_map_lt; [|exact Hin|].
    + intros l'. case_decide; [|done]. unfold load_weight. cbn. destruct (ld_running l'); lia.
    + rewrite decide_True by done. unfold load_weight. cbn. rewrite Hr. lia.
  - eapply loads_decrease; unfold onLoadEnd; js_unfold; destruct (ld_network l), ok; cbn; try done;
      (eapply loads_weight_filter_lt; [exact Hin|]; by intros []).
Qed.

Lemma tick_end_decreases s tick work : enabled s (TickEnds tick work) ->
  work_left (after (TickEnds tick work) s) = work_left s
  /\ (pending_weight (after (TickEnds tick work) s) < pending_weight s)%nat.
Proof.
  intros [Hin _].
  assert (Hlt : (length (filter (fun k : nat * Work => k.1 <> tick) (ticks (env s))) < length (ticks (env s)))%nat).
  { eapply length_filter_lt; [exact Hin|]. by intros []. }
  rewrite after_TickEnds. set (s2 := settled tick work s).
  assert (Hw2 : work_left s2 = work_left s) by (by destruct work as [[]| |]).
  assert (He2 : env s2 = set_ticks (filter (fun k => k.1 <> tick)) (env s)) by (by destruct work as [[]| |]).
  destruct (checkStartTicking_keeps s2) as [Ht Hr].
  assert (Hw : work_left (post (checkStartTicking s2)) = work_left s).
  { rewrite <-Hw2. unfold work_left. by rewrite Ht, Hr. }
  split; [exact Hw|]. unfold pending_weight. rewrite Hw.
  destruct (checkStartTicking_env s2) as [->|[Hb ->]].
  - rewrite He2. cbn. destruct (_ =? _)%nat; lia.
  - apply busy_work_left in Hb. rewrite Hw2 in Hb. apply Nat.eqb_neq in Hb. rewrite Hb. rewrite arm_env, He2. cbn.
    rewrite length_app. cbn. lia.
Qed.

Lemma env_step_decreases s s' : env_step s' s ->
  (work_left s' < work_left s)%nat \/ (work_left s' = work_left s /\ (pending_weight s' < pending_weight s)%nat).
Proof.
  intros (e & Hc & He & ->). destruct e as [| |id|l|l ok|tick work|id]; try discriminate Hc.
  - by apply timer_decreases.
  - right. apply (load_steps_decrease s _ l); auto.
  - right. apply (load_steps_decrease s _ l); eauto.
  - right. by apply tick_end_decreases.
  - right. destruct He as [Hin _]. unfold after, handle, onStopEnd. js_unfold. cbn. split; [done|].
    assert (Hlt : (length (filter (fun i => i <> id) (stops (env s))) < length (stops (env s)))%nat).
    { eapply length_filter_lt; [exact Hin|]. by intros []. }
    unfold pending_weight, work_left. cbn. lia.
Qed.

(** ** Sets of stream ids *)

Lemma set_of_acc l acc : NoDup acc ->
  NoDup (foldl set_add acc l) /\ (forall x, x ∈ foldl set_add acc l <-> x ∈ acc \/ x ∈ l).
Proof.
  revert acc. induction l as [|y l IH]; intros acc Hnd; cbn [foldl].
  - split; [done|]. set_solver.
  - unfold set_add at 2 4. case_decide as Hy.
    + destruct (IH acc Hnd) as [IH1 IH2]. split; [done|]. intros x. rewrite IH2. set_solver.
    + destruct (IH (acc ++ [y])) as [IH1 IH2].
      { apply NoDup_app. split; [done|]. split; [set_solver|apply NoDup_singleton]. }
      split; [done|]. intros x. rewrite IH2. set_solver.
Qed.

Lemma set_of_NoDup l : NoDup (set_of l).
Proof. apply (set_of_acc l []), NoDup_nil_2. Qed.

Lemma elem_of_set_of x l : x ∈ set_of l <-> x ∈ l.
Proof. unfold set_of. rewrite (proj2 (set_of_acc l [] NoDup_nil_2)). set_solver. Qed.

Lemma set_delete_NoDup x l : NoDup l -> NoDup (set_delete x l).
Proof. apply NoDup_filter. Qed.

Lemma elem_of_set_delete x y l : y ∈ set_delete x l <-> y <> x /\ y ∈ l.
Proof. unfold set_delete. by rewrite list_elem_of_filter. Qed.

Lemma set_delete_notin x l : x ∉ l -> set_delete x l = l.
Proof.
  unfold set_delete. induction l as [|y l IH]; [done|]. intros Hn. rewrite filter_cons, decide_True by set_solver.
  f_equal. apply IH. set_solver.
Qed.

Lemma length_set_delete x l : NoDup l -> x ∈ l -> length l = S (length (set_delete x l)).
Proof.
  induction 1 as [|y l Hy Hnd IH]; [set_solver|]. intros Hx. unfold set_delete. rewrite filter_cons. case_decide as Hd.
  - cbn. f_equal. apply IH. set_solver.
  - subst y. fold (set_delete x l). by rewrite set_delete_notin.
Qed.

Definition load_ids (s : t) : list string := map ld_streamId (loads (env s)).

Lemma ended_load_ids tick ls l :
  Forall (fun l => ld_tick l = tick) ls -> l ∈ ls ->
  map ld_streamId (filter (fun l' => (ld_tick l', ld_streamId l') <> (ld_tick l, ld_streamId l)) ls)
  = set_delete (ld_streamId l) (map ld_streamId ls).
Proof.
  intros Hf Hl. assert (Hk : ld_tick l = tick) by (by rewrite Forall_forall in Hf; apply Hf).
  clear Hl. unfold set_delete. induction Hf as [|l' ls Hl' _ IH]; [done|]. rewrite map_cons, !filter_cons.
  destruct (decide (ld_streamId l' = ld_streamId l)) as [He|He].
  - rewrite !decide_False; [done|naive_solver|naive_solver congruence].
  - rewrite !decide_True; [by cbn; rewrite IH|done|congruence].
Qed.

Lemma started_load_ids l ls :
  map ld_streamId (map (fun l' =>
    if decide ((ld_tick l', ld_streamId l') = (ld_tick l, ld_streamId l))
    then mkLoad (ld_tick l') (ld_streamId l') (ld_network l') (ld_allowGetStream l') true else l') ls)
  = map ld_streamId ls.
Proof. rewrite map_map. apply map_ext. intros l'. by case_decide. Qed.

(** ** The phases of a run without [stop] *)

(** A timer is set; a tick runs; nothing is pending. *)
Definition armed_at (k : nat) (s : t) : Prop :=
  env s = mkPending (S k) [k] [] [] [] /\ timeoutId s = Some k.
Definition running_at (k : nat) (work : Work) (network : bool) (s : t) : Prop :=
  env s = mkPending (S k) [] [(k, work)] (loads (env s)) []
  /\ Forall (fun l => ld_tick l = k /\ ld_network l = network) (loads (env s)) /\ timeoutId s = Some k.
Definition at_rest (s : t) : Prop :=
  env s = mkPending (timers (env s)) [] [] [] [] /\ timeoutId s = None /\ startSyncRequested s = false.

Definition requiring (s : t) : Z := streamCountRequiringNetworkAccess (counts s).
Definition failed (s : t) : Z := numStreamsFailedToLoad (counts s).
Definition remaining (s : t) : Z := Z.of_nat (length (streamIds s)).
Definition loading (s : t) : Z := Z.of_nat (length (loads (env s))).

(** [f] high priority loads have failed so far. *)
Inductive phase (f : Z) (s : t) : Prop :=
| ph_start : tasks s = [loadHighPriorityStreams; loadStreamsFromPersistence; loadStreamsFromNetwork] ->
    armed_at 0 s -> requiring s = f -> failed s = 0 ->
    NoDup (highPriorityIds s) -> (forall x, x ∈ highPriorityIds s -> x ∈ streamIds s) -> phase f s
| ph_high : tasks s = [loadStreamsFromPersistence; loadStreamsFromNetwork] ->
    running_at 0 (RunsTask loadHighPriorityStreams) false s -> requiring s = f -> failed s = 0 -> phase f s
| ph_high_done : tasks s = [loadStreamsFromPersistence; loadStreamsFromNetwork] ->
    armed_at 1 s -> requiring s = f -> failed s = 0 -> phase f s
| ph_persistence : tasks s = [loadStreamsFromNetwork] ->
    running_at 1 (RunsTask loadStreamsFromPersistence) false s ->
    requiring s = f + remaining s - loading s -> failed s = 0 -> phase f s
| ph_persistence_done : tasks s = [loadStreamsFromNetwork] -> armed_at 2 s ->
    didLoadStreamsFromPersistence s = true -> requiring s = f + remaining s -> failed s = 0 -> phase f s
| ph_network : tasks s = [] -> running_at 2 (RunsTask loadStreamsFromNetwork) true s ->
    didLoadStreamsFromPersistence s = true -> requiring s = f + loading s -> failed s = remaining s - loading s ->
    phase f s
| ph_done (Ht : tasks s = [])
    (He : (exists k, armed_at k s)
       \/ (exists k work, running_at k work true s /\ loads (env s) = [] /\ (work = StartsSync \/ work = Idle))
       \/ at_rest s)
    (Hd : didLoadStreamsFromPersistence s = true) (Hq : requiring s = f) (Hf : failed s = remaining s)
    (Hs : isLocalDataLoaded (initStatus s) = true /\ isRemoteDataLoaded (initStatus s) = (f =? 0)) : phase f s.

(** What holds in all of them, for [n] streams. *)
Record sound (n : nat) (s : t) : Prop := {
  so_started : started s = true;
  so_NoDup : NoDup (streamIds s);
  so_loads_NoDup : NoDup (load_ids s);
  so_loads_in : forall x, x ∈ load_ids s -> x ∈ streamIds s;
  so_count : numStreamsLoadedFromCache (counts s) + numStreamsLoadedFromNetwork (counts s) + remaining s = Z.of_nat n;
}.

(** The failure of a high priority load. *)
Definition is_high_failure (e : event) : bool :=
  match e with
  | LoadEnds l ok => (ld_tick l =? 0)%nat && negb ok
  | _ => false
  end.

Definition failed_high (es : list event) : Z := Z.of_nat (length (filter (fun e => is_high_failure e = true) es)).

(** ** Steps between the phases *)

Definition load_counts (network ok : bool) (c : counters) : counters :=
  let bump (b : bool) (z : Z) := if b then z + 1 else z in
  if network then
    mkCounters (streamCountRequiringNetworkAccess c - 1) (numStreamsLoadedFromCache c)
      (bump ok (numStreamsLoadedFromNetwork c)) (bump (negb ok) (numStreamsFailedToLoad c))
      (totalStreamCount c) (loadedStreamCount c + 1)
  else
    mkCounters (bump (negb ok) (streamCountRequiringNetworkAccess c)) (bump ok (numStreamsLoadedFromCache c))
      (numStreamsLoadedFromNetwork c) (numStreamsFailedToLoad c) (totalStreamCount c) (bump ok (loadedStreamCount c)).

Definition load_ended (l : load) (ok : bool) (s : t) : t :=
  set_counts (load_counts (ld_network l) ok)
    (set_streamIds (fun ids => if ok then set_delete (ld_streamId l) ids else ids)
      (set_env (set_loads (filter (fun l' => (ld_tick l', ld_streamId l') <> (ld_tick l, ld_streamId l)))) s)).

Lemma after_LoadEnds l ok s :
  after (LoadEnds l ok) s = set_initStatus (status_of (load_ended l ok s)) (load_ended l ok s).
Proof.
  unfold after, handle, onLoadEnd, load_ended, load_counts. by destruct (ld_network l), ok.
Qed.

Lemma load_end_sizes k network n l ok s :
  sound n s -> Forall (fun l => ld_tick l = k /\ ld_network l = network) (loads (env s)) -> l ∈ loads (env s) ->
  loading (after (LoadEnds l ok) s) = loading s - 1
  /\ remaining (after (LoadEnds l ok) s) = remaining s - (if ok then 1 else 0)
  /\ load_ids (after (LoadEnds l ok) s) = set_delete (ld_streamId l) (load_ids s).
Proof.
  intros [_ Hnd Hnl Hin _] Hf Hl. rewrite after_LoadEnds. unfold loading, remaining, load_ids in *. cbn.
  assert (Hk : Forall (fun l => ld_tick l = k) (loads (env s))) by (eapply Forall_impl; [exact Hf|]; by intros ? []).
  assert (Hids := ended_load_ids k (loads (env s)) l Hk Hl).
  assert (Hx : ld_streamId l ∈ map ld_streamId (loads (env s))) by (apply list_elem_of_fmap; eauto).
  split_and!; [| |exact Hids].
  - apply (f_equal length) in Hids. rewrite length_map in Hids. rewrite Hids.
    pose proof (length_set_delete _ _ Hnl Hx) as Hlen. rewrite length_map in Hlen. lia.
  - destruct ok; [|lia]. pose proof (length_set_delete _ _ Hnd (Hin _ Hx)). lia.
Qed.

Lemma load_end_sound k network n l ok s :
  sound n s -> Forall (fun l => ld_tick l = k /\ ld_network l = network) (loads (env s)) -> l ∈ loads (env s) ->
  sound n (after (LoadEnds l ok) s).
Proof.
  intros Hs Hf Hl. destruct (load_end_sizes k network n l ok s Hs Hf Hl) as (_ & Hr & Hids).
  destruct Hs as [Hst Hnd Hnl Hin Hc]. split; rewrite ?Hids, ?Hr, ?after_LoadEnds; cbn.
  - done.
  - destruct ok; [by apply set_delete_NoDup|done].
  - by apply set_delete_NoDup.
  - intros x [Hne Hx]%elem_of_set_delete. destruct ok; [apply elem_of_set_delete; auto|auto].
  - unfold load_counts. destruct (ld_network l), ok; cbn; lia.
Qed.

Lemma load_end_phase f n l ok s :
  sound n s -> phase f s -> enabled s (LoadEnds l ok) ->
  sound n (after (LoadEnds l ok) s)
  /\ phase (f + if is_high_failure (LoadEnds l ok) then 1 else 0) (after (LoadEnds l ok) s).
Proof.
  intros Hs Hp [Hl _].
  assert (Hrun : forall k work network, running_at k work network s ->
    (ld_tick l = k /\ ld_network l = network)
    /\ sound n (after (LoadEnds l ok) s)
    /\ running_at k work network (after (LoadEnds l ok) s)
    /\ loading (after (LoadEnds l ok) s) = loading s - 1
    /\ remaining (after (LoadEnds l ok) s) = remaining s - (if ok then 1 else 0)).
  { intros k work network (He & Hf & Ht). split; [rewrite Forall_forall in Hf; by apply Hf|].
    split; [by eapply load_end_sound|]. destruct (load_end_sizes k network n l ok s Hs Hf Hl) as (Hlo & Hre & _).
    split; [|done]. rewrite after_LoadEnds. split_and!; cbn; [by rewrite He| |done].
    rewrite Forall_forall in *. intros l' [_ Hl']%list_elem_of_filter. by apply Hf. }
  destruct Hp as [? [He _]|Ht Hru Hq Hfa|? [He _]|Ht Hru Hq Hfa|? [He _]|Ht Hru Hd Hq Hfa|
    ? [[k [He _]]|[(k & work & _ & He & _)|[He _]]]]; try (rewrite He in Hl; set_solver).
  - destruct (Hrun _ _ _ Hru) as ([Hk Hn] & Hso & Hru' & Hlo & Hre). split; [done|].
    cbn [is_high_failure]. rewrite Hk. cbn [Nat.eqb andb]. apply ph_high; [by rewrite after_LoadEnds|done| |]; rewrite after_LoadEnds; unfold requiring, failed in *;
      cbn; rewrite Hn; cbn; [destruct ok; cbn; lia|done].
  - destruct (Hrun _ _ _ Hru) as ([Hk Hn] & Hso & Hru' & Hlo & Hre). split; [done|].
    cbn [is_high_failure]. rewrite Hk. cbn [Nat.eqb andb]. apply ph_persistence; [by rewrite after_LoadEnds|done| |]; rewrite ?Hlo, ?Hre;
      rewrite after_LoadEnds; unfold requiring, failed in *; cbn; rewrite Hn; cbn; [destruct ok; cbn; lia|done].
  - destruct (Hrun _ _ _ Hru) as ([Hk Hn] & Hso & Hru' & Hlo & Hre). split; [done|].
    cbn [is_high_failure]. rewrite Hk. cbn [Nat.eqb andb]. apply ph_network; [by rewrite after_LoadEnds|done|by rewrite after_LoadEnds| |]; rewrite ?Hlo, ?Hre;
      rewrite after_LoadEnds; unfold requiring, failed in *; cbn; rewrite Hn; cbn; [lia|destruct ok; cbn; lia].
Qed.

Lemma after_LoadStarts l s :
  after (LoadStarts l) s = set_env (set_loads (map (fun l' =>
    if decide ((ld_tick l', ld_streamId l') = (ld_tick l, ld_streamId l))
    then mkLoad (ld_tick l') (ld_streamId l') (ld_network l') (ld_allowGetStream l') true else l'))) s.
Proof. reflexivity. Qed.

Lemma load_start_phase f n l s :
  sound n s -> phase f s -> enabled s (LoadStarts l) ->
  sound n (after (LoadStarts l) s) /\ phase f (after (LoadStarts l) s).
Proof.
  intros Hs Hp [Hl _].
  assert (Hids : load_ids (after (LoadStarts l) s) = load_ids s) by apply started_load_ids.
  assert (Hlo : loading (after (LoadStarts l) s) = loading s).
  { unfold loading. f_equal. apply length_map. }
  split. { destruct Hs. split; rewrite ?Hids; assumption. }
  assert (Hrun : forall k work network, running_at k work network s -> running_at k work network (after (LoadStarts l) s)).
  { intros k work network (He & Hf & Ht). rewrite after_LoadStarts. split_and!; cbn; [by rewrite He| |done].
    apply Forall_map. eapply Forall_impl; [exact Hf|]. intros l' Hl'. by case_decide. }
  destruct Hp as [? [He _]|Ht Hru Hq Hfa|? [He _]|Ht Hru Hq Hfa|? [He _]|Ht Hru Hd Hq Hfa|
    ? [[k [He _]]|[(k & work & _ & He & _)|[He _]]]]; try (rewrite He in Hl; set_solver).
  - by apply ph_high; [|apply Hrun| |].
  - by apply ph_persistence; [|apply Hrun|rewrite Hlo|].
  - by apply ph_network; [|apply Hrun| |rewrite Hlo|rewrite Hlo].
Qed.

Lemma syncItems_perm s : syncItems s ≡ₚ streamIds s.
Proof. apply js_sort_perm. Qed.

Lemma filter_self (k : nat) : filter (fun i => i <> k) [k] = [].
Proof. rewrite filter_cons, decide_False by naive_solver. done. Qed.

(** The pending work once a timer has fired. *)
Lemma fired_env k work ls s : env s = mkPending (S k) [k] [] [] [] ->
  set_ticks (fun l => l ++ [(k, work)]) (set_loads (fun l => l ++ ls) (set_armed (filter (fun i => i <> k)) (env s)))
  = mkPending (S k) [] [(k, work)] ls [].
Proof. intros ->. unfold set_ticks, set_loads, set_armed. cbn [timers armed ticks loads stops app]. by rewrite filter_self. Qed.

Lemma fired_idle k work s : env s = mkPending (S k) [k] [] [] [] ->
  set_ticks (fun l => l ++ [(k, work)]) (set_armed (filter (fun i => i <> k)) (env s))
  = mkPending (S k) [] [(k, work)] [] [].
Proof. intros ->. unfold set_ticks, set_armed. cbn [timers armed ticks loads stops app]. by rewrite filter_self. Qed.

(** A timer that starts a task. *)
Lemma timer_task k task rest s :
  armed_at k s -> tasks s = task :: rest ->
  let s' := after (TimerFires k) s in
  tasks s' = rest /\ env s' = mkPending (S k) [] [(k, RunsTask task)] (task_loads s k task) []
  /\ timeoutId s' = Some k /\ streamIds s' = streamIds s /\ counts s' = counts s
  /\ started s' = started s /\ didLoadStreamsFromPersistence s' = didLoadStreamsFromPersistence s.
Proof.
  intros [He Hk] Ht. cbn zeta. unfold after, handle, onTimer, run_tick, begin_work. js_unfold. cbn. rewrite Ht. cbn.
  rewrite fired_env by done. split_and!; done.
Qed.

Lemma task_loads_running s k task :
  Forall (fun l => ld_tick l = k /\ ld_network l = bool_decide (task = loadStreamsFromNetwork)) (task_loads s k task).
Proof. destruct task; cbn; apply Forall_map, Forall_true; done. Qed.

Lemma task_load_ids s k task :
  map ld_streamId (task_loads s k task)
  = match task with loadHighPriorityStreams => highPriorityIds s | _ => syncItems s end.
Proof. destruct task; cbn; rewrite map_map; apply map_id. Qed.

Lemma timer_task_sound k task rest n s :
  sound n s -> armed_at k s -> tasks s = task :: rest ->
  (task = loadHighPriorityStreams -> NoDup (highPriorityIds s) /\ forall x, x ∈ highPriorityIds s -> x ∈ streamIds s) ->
  let s' := after (TimerFires k) s in
  sound n s' /\ running_at k (RunsTask task) (bool_decide (task = loadStreamsFromNetwork)) s'
  /\ (task <> loadHighPriorityStreams -> loading s' = remaining s').
Proof.
  intros [Hst Hnd _ _ Hc] Ha Ht Hh s'. destruct (timer_task k task rest s Ha Ht) as (_ & He & Hto & Hi & Hco & Hst' & _).
  fold s' in He, Hto, Hi, Hco, Hst'. split_and!.
  - assert (Hids : load_ids s' = match task with loadHighPriorityStreams => highPriorityIds s | _ => syncItems s end).
    { unfold load_ids. rewrite He. apply task_load_ids. }
    split; unfold remaining in *; rewrite ?Hids, ?Hi, ?Hco, ?Hst'; try done.
    + destruct task; [by apply Hh| |]; by rewrite syncItems_perm.
    + intros x. destruct task; [by apply Hh| |]; by rewrite syncItems_perm.
  - split_and!; rewrite ?He; [done|apply task_loads_running|done].
  - intros Hne. unfold loading, remaining. rewrite He, Hi. cbn [loads]. rewrite <-(syncItems_perm s).
    f_equal. rewrite <-(length_map ld_streamId), task_load_ids. by destruct task.
Qed.

Lemma timer_phase f n id s :
  sound n s -> phase f s -> enabled s (TimerFires id) ->
  sound n (after (TimerFires id) s) /\ phase f (after (TimerFires id) s).
Proof.
  intros Hs Hp Hin. cbn in Hin.
  assert (Hid : forall k, armed_at k s -> id = k) by (intros k [He _]; rewrite He in Hin; set_solver).
  destruct Hp as [Ht Ha Hq Hf Hnd Hh|? (He & _)|Ht Ha Hq Hf|? (He & _)|Ht Ha Hd Hq Hf|? (He & _)|
    Ht [[k Ha]|[(k & work & (He & _) & _)|[He _]]] Hd Hq Hf Hst]; try (rewrite He in Hin; set_solver);
    specialize (Hid _ Ha) as ->.
  - destruct (timer_task_sound 0 _ _ n s Hs Ha Ht) as (Hs' & Hru & _); [done|].
    destruct (timer_task 0 _ _ s Ha Ht) as (Ht' & _ & _ & _ & Hc & _). split; [done|].
    apply ph_high; unfold requiring, failed; rewrite ?Hc; done.
  - destruct (timer_task_sound 1 _ _ n s Hs Ha Ht) as (Hs' & Hru & Hl); [done|].
    destruct (timer_task 1 _ _ s Ha Ht) as (Ht' & _ & _ & _ & Hc & _). split; [done|].
    apply ph_persistence; rewrite ?Hl by done; unfold requiring, failed in *; rewrite ?Hc; try done. lia.
  - destruct (timer_task_sound 2 _ _ n s Hs Ha Ht) as (Hs' & Hru & Hl); [done|].
    destruct (timer_task 2 _ _ s Ha Ht) as (Ht' & _ & _ & Hi & Hc & _ & Hd'). split; [done|].
    apply ph_network; rewrite ?Hl by done; unfold requiring, failed, remaining in *; rewrite ?Hc, ?Hi, ?Hd'; try done. lia.
  - split.
    + destruct Hs. unfold after, handle, onTimer, run_tick, begin_work. js_unfold. cbn. rewrite Ht.
      destruct (startSyncRequested s); cbn; split; assumption.
    + destruct Ha as [He Hto]. unfold after, handle, onTimer, run_tick, begin_work. js_unfold. cbn. rewrite Ht.
      destruct (startSyncRequested s); cbn; apply ph_done; try assumption; right; left.
      * exists k, StartsSync. unfold running_at. cbn. rewrite (fired_idle k _ s He), He. cbn. split_and!; auto.
      * exists k, Idle. unfold running_at. cbn. rewrite (fired_idle k _ s He), He. cbn. split_and!; auto.
Qed.

(** Nothing left to load: ticking goes on for the start of the sync loop, or ends. *)
Lemma done_phase f s :
  started s = true -> tasks s = [] -> env s = mkPending (timers (env s)) [] [] [] [] -> timeoutId s = None ->
  didLoadStreamsFromPersistence s = true -> requiring s = f -> failed s = remaining s ->
  (isLocalDataLoaded (initStatus s) = true /\ isRemoteDataLoaded (initStatus s) = (f =? 0)) ->
  phase f (post (checkStartTicking s)).
Proof.
  intros Hst Ht He Hto Hd Hq Hf Hs. rewrite checkStartTicking_post, Hst, Hto. cbn [negb is_defined orb].
  destruct (busy s) eqn:Hb.
  - apply ph_done; try assumption. left. exists (timers (env s)). split; [rewrite arm_env, He; done|done].
  - unfold busy in Hb. rewrite Ht in Hb. cbn in Hb. apply ph_done; try assumption.
    + right. right. done.
    + unfold status_of. cbn. unfold requiring in Hq. by rewrite Hd, Hq.
Qed.

(** Tasks left: the next timer is set. *)
Lemma rearmed k s :
  started s = true -> tasks s <> [] -> env s = mkPending k [] [] [] [] -> timeoutId s = None ->
  post (checkStartTicking s) = arm s /\ armed_at k (arm s).
Proof.
  intros Hst Ht He Hto. rewrite checkStartTicking_post, Hst, Hto. unfold busy. destruct (tasks s); [done|].
  split; [done|]. split; [by rewrite arm_env, He|]. unfold arm, armTimer. cbn. by rewrite He.
Qed.

Lemma checkStartTicking_sound n s : sound n s -> sound n (post (checkStartTicking s)).
Proof.
  intros []. rewrite checkStartTicking_post. destruct (_ || _); [by split|]. by destruct (busy s); split.
Qed.

Lemma settled_loads k work s : loads (env (settled k work s)) = loads (env s).
Proof. by destruct work as [[]| |]. Qed.

Lemma settled_tasks k work s : tasks (settled k work s) = tasks s.
Proof. by destruct work as [[]| |]. Qed.

Lemma settled_env k work w network s : running_at k work network s -> loads (env s) = [] ->
  env (settled k w s) = mkPending (S k) [] [] [] [].
Proof.
  intros (He & _) Hl. rewrite Hl in He.
  assert (Hs : env (settled k w s) = set_ticks (filter (fun x => x.1 <> k)) (env s)) by (by destruct w as [[]| |]).
  rewrite Hs, He. unfold set_ticks. cbn [timers armed ticks loads stops]. by rewrite filter_cons, decide_False by naive_solver.
Qed.

Lemma tick_end_phase f n tick work s :
  sound n s -> phase f s -> enabled s (TickEnds tick work) ->
  sound n (after (TickEnds tick work) s) /\ phase f (after (TickEnds tick work) s).
Proof.
  intros Hs Hp [Hin Hno]. rewrite after_TickEnds.
  assert (Hrun : forall k w network, running_at k w network s -> (tick = k /\ work = w) /\ loads (env s) = []).
  { intros k w network (He & Hf & _). rewrite He in Hin. assert (Hk : tick = k /\ work = w) by set_solver. split; [done|].
    destruct Hk as [-> _]. destruct (loads (env s)) as [|l ls]; [done|].
    apply Forall_cons in Hf as [[] _]. apply Forall_cons in Hno as [? _]. done. }
  assert (Hset : loads (env s) = [] -> sound n (settled tick work s)).
  { intros Hl. destruct Hs as [Hst Hnd _ _ Hc]. split; destruct work as [[]| |]; try assumption;
      unfold load_ids; rewrite settled_loads, Hl; (apply NoDup_nil_2 || set_solver). }
  assert (Hst : started (settled tick work s) = true) by (destruct Hs; by destruct work as [[]| |]).
  assert (Hnow : forall k w network, running_at k w network s ->
    sound n (post (checkStartTicking (settled tick work s))) /\ env (settled tick work s) = mkPending (S tick) [] [] [] []).
  { intros k w network Hru. destruct (Hrun _ _ _ Hru) as [[-> ->] Hl].
    split; [by apply checkStartTicking_sound, Hset|]. by eapply settled_env. }
  pose proof (settled_tasks tick work s) as Htk.
  destruct Hp as [? [He _]|Ht Hru Hq Hf|? [He _]|Ht Hru Hq Hf|? [He _]|Ht Hru Hd Hq Hf|
    Ht [[k [He _]]|[(k & w & Hru & _ & Hw)|[He _]]] Hd Hq Hf Hstat]; try (rewrite He in Hin; set_solver);
    destruct (Hrun _ _ _ Hru) as [[-> ->] Hl]; destruct (Hnow _ _ _ Hru) as [Hso He]; (split; [done|]).
  - destruct (rearmed 1 (settled 0 (RunsTask loadHighPriorityStreams) s)) as [-> Ha]; [done|by rewrite Htk, Ht|done|done|].
    by apply ph_high_done.
  - destruct (rearmed 2 (settled 1 (RunsTask loadStreamsFromPersistence) s)) as [-> Ha]; [done|by rewrite Htk, Ht|done|done|].
    apply ph_persistence_done; try done. transitivity (requiring s); [done|]. rewrite Hq. unfold loading. rewrite Hl.
    apply Z.sub_0_r.
  - unfold loading in Hq, Hf. rewrite Hl in Hq, Hf. rewrite Z.add_0_r in Hq. rewrite Z.sub_0_r in Hf.
    apply done_phase; try done; [by rewrite He|].
    change (didLoadStreamsFromPersistence s = true /\ (didLoadStreamsFromPersistence s && (requiring s =? 0)) = (f =? 0)). by rewrite Hd, Hq.
  - destruct Hw as [->| ->]; (apply done_phase; try done; by rewrite He).
Qed.

Lemma request_phase f n b s :
  sound n s -> phase f s ->
  sound n (after (CallSetStartSyncRequested b) s) /\ phase f (after (CallSetStartSyncRequested b) s).
Proof.
  intros Hs Hp. set (s1 := set_startSyncRequested b s).
  assert (Hs1 : sound n s1) by (by destruct Hs; split).
  assert (Ha : after (CallSetStartSyncRequested b) s = if b then post (checkStartTicking s1) else s1).
  { unfold after, handle, setStartSyncRequested. js_unfold. destruct b; cbn; [|done].
    fold s1. by destruct (checkStartTicking s1). }
  rewrite Ha. split. { destruct b; [by apply checkStartTicking_sound|done]. }
  assert (Hpend : forall k, timeoutId s = Some k -> (if b then post (checkStartTicking s1) else s1) = s1).
  { intros k Hk. destruct b; [|done]. rewrite checkStartTicking_post. unfold s1. cbn. rewrite Hk. by rewrite orb_true_r. }
  destruct Hp as [Ht [He Hk]|Ht (He & Hf & Hk)|Ht [He Hk]|Ht (He & Hf & Hk)|Ht [He Hk]|Ht (He & Hf & Hk)|
    Ht [[k [He Hk]]|[(k & w & (He & Hf' & Hk) & Hl & Hw)|(He & Hk & Hr)]] Hd Hq Hf Hstat]; try rewrite (Hpend _ Hk).
  - by apply ph_start.
  - by apply ph_high.
  - by apply ph_high_done.
  - by apply ph_persistence.
  - by apply ph_persistence_done.
  - by apply ph_network.
  - apply ph_done; try done. left. by exists k.
  - apply ph_done; try done. right. left. by exists k, w.
  - destruct b; [|by apply ph_done; try done; right; right].
    apply done_phase; try done. by destruct Hs.
Qed.

Lemma started_phase high ids : (forall x, x ∈ high -> x ∈ ids) ->
  sound (length (set_of ids)) (started_with high ids) /\ phase 0 (started_with high ids).
Proof.
  intros Hsub. split.
  - split; [done|apply set_of_NoDup|apply NoDup_nil_2|intros x Hx; by apply elem_of_nil in Hx|].
    change (0 + 0 + Z.of_nat (length (set_of ids)) = Z.of_nat (length (set_of ids))). lia.
  - apply ph_start; try done; [apply set_of_NoDup|].
    intros x Hx. change (x ∈ set_of high) in Hx. change (x ∈ set_of ids). rewrite elem_of_set_of in *. auto.
Qed.

(** Every run without [stop] goes through the phases. *)
Lemma runs_phase high ids es s :
  (forall x, x ∈ high -> x ∈ ids) -> runs (started_with high ids) es s -> CallStop ∉ es ->
  sound (length (set_of ids)) s /\ phase (failed_high es) s.
Proof.
  intros Hsub Hr. remember (started_with high ids) as s0 eqn:Hs0. induction Hr as [s0|s0 s es e Hr IH He]; intros Hno; subst s0.
  - by apply started_phase.
  - destruct (IH eq_refl) as [Hs Hp]; [set_solver|].
    assert (Hf : failed_high (es ++ [e]) = failed_high es + if is_high_failure e then 1 else 0).
    { unfold failed_high. rewrite filter_app, length_app, filter_cons. case_decide as Hd; rewrite ?Hd; cbn; [lia|].
      apply not_true_is_false in Hd. rewrite Hd. lia. }
    rewrite Hf. destruct e as [b| |id|l|l ok|tick work|id]; cbn [is_high_failure]; rewrite ?Z.add_0_r.
    + by apply request_phase.
    + set_solver.
    + by apply timer_phase.
    + by apply load_start_phase.
    + by apply load_end_phase.
    + by apply tick_end_phase.
    + exfalso. destruct He as [Hin _].
      destruct Hp as [? [E _]|? (E & _)|? [E _]|? (E & _)|? [E _]|? (E & _)|? [[? [E _]]|[(? & ? & (E & _) & _)|(E & _)]]];
        rewrite E in Hin; set_solver.
Qed.

(** Where nothing can happen, everything is done. *)
Lemma quiet_at_rest f s : phase f s -> (forall e, is_call e = false -> ~ enabled s e) -> tasks s = [] /\ at_rest s.
Proof.
  intros Hp Hq.
  assert (Ha : forall k, ~ armed_at k s).
  { intros k [He _]. apply (Hq (TimerFires k)); [done|]. cbn. rewrite He. set_solver. }
  assert (Hru : forall k work network, ~ running_at k work network s).
  { intros k work network (He & _). destruct (loads (env s)) as [|l ls] eqn:Hl.
    - apply (Hq (TickEnds k work)); [done|]. cbn. rewrite He. split; [set_solver|done].
    - assert (Hin : l ∈ loads (env s)) by (rewrite Hl; left). destruct (ld_running l) eqn:Hr.
      + by apply (Hq (LoadEnds l true)).
      + by apply (Hq (LoadStarts l)). }
  destruct Hp as [| | | | | |? [[k ?]|[(k & w & ? & _)|?]]]; 
    try (exfalso; by eapply Ha); try (exfalso; by eapply Hru); done.
Qed.

Lemma failed_high_zero es : failed_high es = 0 <-> forall l, LoadEnds l false ∈ es -> ld_tick l <> 0%nat.
Proof.
  unfold failed_high. split.
  - intros Hz l Hl Ht. assert (Hin : LoadEnds l false ∈ filter (fun e => is_high_failure e = true) es).
    { apply list_elem_of_filter. split; [|done]. cbn. by rewrite Ht. }
    destruct (filter _ es); [set_solver|cbn in Hz; lia].
  - intros Hn. destruct (filter _ es) as [|e l] eqn:Hf; [done|].
    assert (Hin : e ∈ filter (fun e => is_high_failure e = true) es) by (rewrite Hf; left).
    apply list_elem_of_filter in Hin as [He Hin]. destruct e as [| | | |l' ok| |]; try discriminate He. cbn in He.
    destruct ok; [by rewrite andb_false_r in He|]. apply andb_true_iff in He as [He%Nat.eqb_eq _]. by destruct (Hn l').
Qed.

(** ** What a run asks of the client *)

(** The calls of the delegate that the events make, and the state after them. *)
Fixpoint emitted (es : list event) (s : t) : list out :=
  match es with
  | [] => []
  | e :: es => emits (handle e s) ++ emitted es (after e s)
  end.

Definition ends (es : list event) (s : t) : t := foldl (fun s e => after e s) s es.

Lemma emitted_app es es' s : emitted (es ++ es') s = emitted es s ++ emitted es' (ends es s).
Proof. revert s. induction es as [|e es IH]; intros s; [done|]. cbn. by rewrite IH, (assoc_L (++)). Qed.

Lemma runs_ends s0 es s : runs s0 es s -> s = ends es s0.
Proof. induction 1 as [|s0 s es e _ IH]; [done|]. unfold ends in *. by rewrite foldl_app, <- IH. Qed.

(** What a step may do to the request and to the announced status. *)
Lemma checkStartTicking_emits s :
  emits (checkStartTicking s)
  = if negb (started s) || is_defined (timeoutId s) || busy s then []
    else [EmitClientInitStatus (status_of s);
          AddAction (numStreamsLoadedFromCache (counts s)) (numStreamsLoadedFromNetwork (counts s)) (numStreamsFailedToLoad (counts s))].
Proof.
  unfold checkStartTicking, busy. js_unfold. destruct (negb (started s) || _); [done|].
  by destruct (length (tasks s) =? 0)%nat, (startSyncRequested s).
Qed.

Lemma emits_TickEnds tick work s :
  emits (handle (TickEnds tick work) s)
  = match work with RunsTask task => emits (finish_task task s) | _ => [] end ++ emits (checkStartTicking (settled tick work s)).
Proof.
  unfold handle, onTickEnd, settled. destruct work as [[]| |]; cbn [finish_task]; unfold emitClientStatus; js_unfold;
    cbn [post emits app]; match goal with |- context [checkStartTicking ?x] => by destruct (checkStartTicking x) end.
Qed.

Lemma request_step e s :
  startSyncRequested s = true -> e <> CallSetStartSyncRequested false ->
  startSyncRequested (after e s) = true \/ StartSyncStreams ∈ emits (handle e s).
Proof.
  intros Hr Hne. destruct e as [b| |id|l|l ok|tick work|id].
  - destruct b; [left|done]. unfold after, handle, setStartSyncRequested. js_unfold. cbn.
    destruct (checkStartTicking_keeps (set_startSyncRequested true s)) as [_ Hk].
    by destruct (checkStartTicking (set_startSyncRequested true s)).
  - left. unfold after, handle, stop. js_unfold. by destruct (timeoutId s), (inProgressTick s).
  - unfold after, handle, onTimer, run_tick, begin_work. js_unfold. cbn. destruct (tasks s); cbn; [|by left].
    rewrite Hr. cbn. right. by left.
  - by left.
  - left. by rewrite after_LoadEnds.
  - left. rewrite after_TickEnds. rewrite (proj2 (checkStartTicking_keeps _)). by destruct work as [[]| |].
  - by left.
Qed.

(** A request is answered with a start of the sync loop, unless it is taken back. *)
Lemma request_answered es s :
  startSyncRequested s = true -> CallSetStartSyncRequested false ∉ es -> startSyncRequested (ends es s) = false ->
  StartSyncStreams ∈ emitted es s.
Proof.
  revert s. induction es as [|e es IH]; intros s Hr Hno Hend; [cbn in Hend; congruence|].
  apply not_elem_of_cons in Hno as [Hne Hno]. cbn [emitted]. apply elem_of_app.
  destruct (request_step e s Hr ltac:(done)) as [Hr'|Hin]; [right|by left]. by apply IH.
Qed.

(** The statuses that were announced. *)
Definition announced (w : list out) : list ClientInitStatus :=
  omap (fun o => match o with EmitClientInitStatus status => Some status | _ => None end) w.

Lemma announced_step e s :
  match last (announced (emits (handle e s))) with
  | Some status => initStatus (after e s) = status
  | None => initStatus (after e s) = initStatus s
  end.
Proof.
  assert (Hcheck : forall x w, last (announced w) = Some (initStatus x) \/ announced w = [] ->
    match last (announced (w ++ emits (checkStartTicking x))) with
    | Some status => initStatus (post (checkStartTicking x)) = status
    | None => initStatus (post (checkStartTicking x)) = initStatus x
    end).
  { intros x w Hw. rewrite checkStartTicking_post, checkStartTicking_emits. unfold announced in *. rewrite omap_app.
    assert (Hnil : match last (announced w ++ []) with Some status => initStatus x = status | None => initStatus x = initStatus x end).
    { rewrite app_nil_r. unfold announced. destruct Hw as [->| ->]; done. }
    destruct (negb (started x) || is_defined (timeoutId x)); cbn [orb]; [exact Hnil|].
    destruct (busy x); [exact Hnil|]. cbn [omap list_omap]. by rewrite last_snoc. }
  destruct e as [b| |id|l|l ok|tick work|id].
  - unfold after, handle, setStartSyncRequested. js_unfold. destruct b; cbn; [|done].
    specialize (Hcheck (set_startSyncRequested true s) [] ltac:(by right)). cbn in Hcheck.
    by destruct (checkStartTicking (set_startSyncRequested true s)).
  - unfold after, handle, stop. js_unfold. by destruct (timeoutId s), (inProgressTick s).
  - unfold after, handle, onTimer, run_tick, begin_work. js_unfold. cbn. destruct (tasks s); cbn; [|done].
    by destruct (startSyncRequested s).
  - done.
  - unfold after, handle, onLoadEnd. by destruct (ld_network l), ok.
  - rewrite emits_TickEnds, after_TickEnds.
    assert (Hs : initStatus (settled tick work s) = match work with RunsTask task => initStatus (post (finish_task task s)) | _ => initStatus s end)
      by (by destruct work as [[]| |]).
    destruct work as [task| |]; try (rewrite <- Hs; apply Hcheck; by right).
    specialize (Hcheck (settled tick (RunsTask task) s) (emits (finish_task task s)) ltac:(left; by destruct task)).
    destruct (last _) eqn:Hl; [done|]. exfalso. revert Hl. unfold announced. rewrite omap_app, last_app.
    by destruct (last (omap _ (emits (checkStartTicking _)))), task.
  - done.
Qed.

Lemma last_announced es s :
  initStatus (ends es s) = default (initStatus s) (last (announced (emitted es s))).
Proof.
  revert s. induction es as [|e es IH]; intros s; [done|]. change (ends (e :: es) s) with (ends es (after e s)). rewrite IH.
  cbn [emitted]. unfold announced at 2. rewrite omap_app. fold (announced (emitted es (after e s))) (announced (emits (handle e s))).
  rewrite last_app. destruct (last (announced (emitted es (after e s)))); [done|]. cbn.
  pose proof (announced_step e s) as Ha. by destruct (last (announced (emits (handle e s)))).
Qed.

(** [initStream] was called for a stream. *)
Definition asked (w : list out) (x : string) : Prop := exists allowGetStream, InitStream x allowGetStream ∈ w.

(** The streams that are no longer left, and those whose loads run, were asked for; once
    the second task has begun so were the others, unless they still wait. *)
Record asking (ids : list string) (w : list out) (s : t) : Prop := {
  as_loaded : forall x, x ∈ ids -> x ∈ streamIds s \/ asked w x;
  as_running : forall l, l ∈ loads (env s) -> ld_running l = true -> asked w (ld_streamId l);
  as_left : (length (tasks s) <= 1)%nat -> forall x, x ∈ streamIds s -> x ∈ load_ids s \/ asked w x;
}.

Lemma asked_more w w' x : asked w x -> asked (w ++ w') x.
Proof. intros [b Hb]. exists b. set_solver. Qed.
#[local] Hint Resolve asked_more : core.

Lemma asking_same ids w w' s s' :
  asking ids w s -> tasks s' = tasks s -> streamIds s' = streamIds s -> loads (env s') = loads (env s) ->
  asking ids (w ++ w') s'.
Proof.
  intros [Ha Hb Hc] Ht Hi Hl. unfold load_ids in *. split; unfold load_ids; rewrite ?Ht, ?Hi, ?Hl.
  - intros x Hx. destruct (Ha x Hx); auto.
  - auto.
  - intros Hle x Hx. destruct (Hc Hle x Hx); auto.
Qed.

Lemma checkStartTicking_same s :
  streamIds (post (checkStartTicking s)) = streamIds s /\ loads (env (post (checkStartTicking s))) = loads (env s).
Proof. rewrite checkStartTicking_post. by destruct (_ || _), (busy s). Qed.

Lemma asking_timer f ids w s id :
  phase f s -> enabled s (TimerFires id) -> asking ids w s ->
  asking ids (w ++ emits (handle (TimerFires id) s)) (after (TimerFires id) s).
Proof.
  intros Hp Hin Hask. cbn in Hin.
  assert (Htask : forall k task rest, armed_at k s -> tasks s = task :: rest ->
    (length rest <= 1)%nat -> task <> loadHighPriorityStreams ->
    asking ids (w ++ emits (handle (TimerFires id) s)) (after (TimerFires id) s)).
  { intros k task rest Ha Ht Hlen Hne. assert (id = k) as -> by (destruct Ha as [He _]; rewrite He in Hin; set_solver).
    destruct (timer_task k task rest s Ha Ht) as (Ht' & He' & _ & Hi' & _). destruct Hask as [Ha1 Hb1 _].
    split; rewrite ?Hi'; [intros x Hx; destruct (Ha1 x Hx); auto|rewrite He'; cbn [loads]|].
    - intros l Hl Hr. exfalso. destruct task; apply list_elem_of_fmap in Hl as (y & -> & _); discriminate Hr.
    - intros _ x Hx. left. unfold load_ids. rewrite He'. cbn [loads]. rewrite task_load_ids.
      destruct task; [done| |]; by rewrite syncItems_perm. }
  destruct Hp as [Ht Ha|? (He & _)|Ht Ha|? (He & _)|Ht Ha|? (He & _)|Ht [[k Ha]|[(k & work & (He & _) & _)|[He _]]]];
    try (rewrite He in Hin; set_solver).
  - assert (id = 0%nat) as -> by (destruct Ha as [He _]; rewrite He in Hin; set_solver).
    destruct (timer_task 0 _ _ s Ha Ht) as (Ht' & He' & _ & Hi' & _). destruct Hask as [Ha1 Hb1 _].
    split; rewrite ?Hi'; [intros x Hx; destruct (Ha1 x Hx); auto|rewrite He'; cbn [loads]|rewrite Ht'; cbn; lia].
    intros l Hl Hr. exfalso. apply list_elem_of_fmap in Hl as (y & -> & _). discriminate Hr.
  - eapply Htask; [exact Ha|exact Ht|cbn; lia|done].
  - eapply Htask; [exact Ha|exact Ht|cbn; lia|done].
  - apply (asking_same ids w _ s); [done|..]; unfold after, handle, onTimer, run_tick, begin_work; js_unfold; cbn; rewrite Ht;
      by destruct (startSyncRequested s).
Qed.

Lemma asking_step f n ids w s e :
  sound n s -> phase f s -> enabled s e -> e <> CallStop -> asking ids w s -> asking ids (w ++ emits (handle e s)) (after e s).
Proof.
  intros Hs Hp He Hne Hask. destruct e as [b| |id|l|l ok|tick work|id]; [|done|by eapply asking_timer| | | |].
  - apply (asking_same ids w _ s); [done|..]; unfold after, handle, setStartSyncRequested; js_unfold; destruct b; cbn; try done.
    all: destruct (checkStartTicking_keeps (set_startSyncRequested true s)) as [H1 _].
    all: destruct (checkStartTicking_same (set_startSyncRequested true s)) as [H2 H3].
    all: by destruct (checkStartTicking (set_startSyncRequested true s)).
  - assert (Hids : load_ids (after (LoadStarts l) s) = load_ids s) by apply started_load_ids. destruct Hask as [Ha Hb Hc].
    split; [intros x Hx; destruct (Ha x Hx); auto| |rewrite Hids; intros Hle x Hx; destruct (Hc Hle x Hx); auto].
    intros l' (y & -> & Hy)%list_elem_of_fmap. case_decide as Hd; [|auto]. intros _. exists (ld_allowGetStream l).
    injection Hd as _ ->. apply elem_of_app. right. by left.
  - destruct He as [Hl Hr]. destruct Hask as [Ha Hb Hc].
    assert (Hids : load_ids (after (LoadEnds l ok) s) = set_delete (ld_streamId l) (load_ids s)).
    { assert (Hk : exists k, Forall (fun l => ld_tick l = k) (loads (env s))).
      { assert (Hrun : forall k work network, running_at k work network s -> Forall (fun l => ld_tick l = k) (loads (env s))).
        { intros k work network (_ & Hf & _). eapply Forall_impl; [exact Hf|]. by intros ? []. }
        destruct Hp as [? [E _]|? Hru|? [E _]|? Hru|? [E _]|? Hru|? [[k [E _]]|[(k & work & _ & E & _)|[E _]]]];
          try (rewrite E in Hl; set_solver); eauto. }
      destruct Hk as [k Hk]. rewrite after_LoadEnds. by apply (ended_load_ids k). }
    assert (Hsub : streamIds (after (LoadEnds l ok) s) = if ok then set_delete (ld_streamId l) (streamIds s) else streamIds s)
      by (by rewrite after_LoadEnds).
    specialize (Hb l Hl Hr) as Hl'. split.
    + intros x Hx. rewrite Hsub. destruct (Ha x Hx) as [Hin|]; [|auto]. destruct ok; [|auto].
      destruct (decide (x = ld_streamId l)) as [->|]; [auto|]. left. by apply elem_of_set_delete.
    + rewrite after_LoadEnds. intros l' [_ Hl'']%list_elem_of_filter Hr'. auto.
    + rewrite Hids, Hsub. replace (tasks (after (LoadEnds l ok) s)) with (tasks s) by (by rewrite after_LoadEnds).
      intros Hle x Hx. assert (x ∈ streamIds s) as Hxs by (destruct ok; [by apply elem_of_set_delete in Hx as [_ ?]|done]).
      destruct (Hc Hle x Hxs); [|auto]. destruct (decide (x = ld_streamId l)) as [->|]; [auto|]. left. by apply elem_of_set_delete.
  - rewrite after_TickEnds. apply (asking_same ids w _ s); [done|..].
    + rewrite (proj1 (checkStartTicking_keeps _)). apply settled_tasks.
    + rewrite (proj1 (checkStartTicking_same _)). by destruct work as [[]| |].
    + rewrite (proj2 (checkStartTicking_same _)). apply settled_loads.
  - by apply (asking_same ids w _ s).
Qed.

Lemma runs_asking high ids es s :
  (forall x, x ∈ high -> x ∈ ids) -> runs (started_with high ids) es s -> CallStop ∉ es ->
  asking ids (emitted es (started_with high ids)) s.
Proof.
  intros Hsub Hr. remember (started_with high ids) as s0 eqn:Hs0. induction Hr as [s0|s0 s es e Hr IH He]; intros Hno; subst s0.
  - split.
    + intros x Hx. left. change (x ∈ set_of ids). by apply elem_of_set_of.
    + intros l Hl. apply elem_of_nil in Hl. done.
    + intros Hle. exfalso. change (3 <= 1)%nat in Hle. lia.
  - destruct (runs_phase high ids es s Hsub Hr ltac:(set_solver)) as [Hs Hp].
    rewrite emitted_app, <- (runs_ends _ _ _ Hr). cbn [emitted]. rewrite app_nil_r.
    eapply asking_step; [exact Hs|exact Hp|done|set_solver|]. apply IH; [done|set_solver].
Qed.

(** ** The properties *)

(** Loading ends: after any call and in any state, the timers, ticks, loads and
    waiting calls can only take finitely many steps, in whatever order they come and
    whether the loads succeed or not. *)
Theorem loading_terminates s : Acc env_step s.
Proof.
  remember (work_left s) as w eqn:Hw. remember (pending_weight s) as p eqn:Hp. revert p s Hw Hp.
  induction (lt_wf w) as [w _ IHw]. intros p. induction (lt_wf p) as [p _ IHp]. intros s -> ->.
  constructor. intros s' Hs'. apply env_step_decreases in Hs' as [Hlt|[He Hlt]].
  - by apply (IHw _ Hlt (pending_weight s')).
  - by apply (IHp _ Hlt).
Qed.

(** C26: once nothing is pending any more, unless [stop] was called, and provided the high
    priority streams are among the streams of the client: all three tasks were run and
    every stream was asked for; after every request to start the sync loop that was not
    taken back, the start was made; every stream is counted once, as loaded from the
    cache, loaded from the network or failed, and the failed ones are those that are
    left; and the last status that was announced says that local data is loaded. *)
Theorem loading_completes high ids es s :
  (forall x, x ∈ high -> x ∈ ids) -> runs (started_with high ids) es s -> CallStop ∉ es ->
  (forall e, is_call e = false -> ~ enabled s e) ->
  tasks s = [] /\ loads (env s) = [] /\ startSyncRequested s = false
  /\ (forall x, x ∈ ids -> exists allowGetStream, InitStream x allowGetStream ∈ emitted es (started_with high ids))
  /\ (forall es1 es2, es = es1 ++ CallSetStartSyncRequested true :: es2 -> CallSetStartSyncRequested false ∉ es2 ->
        StartSyncStreams ∈ emitted es2 (ends (es1 ++ [CallSetStartSyncRequested true]) (started_with high ids)))
  /\ numStreamsLoadedFromCache (counts s) + numStreamsLoadedFromNetwork (counts s) + numStreamsFailedToLoad (counts s)
     = Z.of_nat (length (set_of ids))
  /\ numStreamsFailedToLoad (counts s) = Z.of_nat (length (streamIds s))
  /\ (exists status, last (announced (emitted es (started_with high ids))) = Some status /\ isLocalDataLoaded status = true).
Proof.
  intros Hsub Hr Hno Hq. destruct (runs_phase _ _ _ _ Hsub Hr Hno) as [[_ _ _ _ Hc] Hp].
  destruct (quiet_at_rest _ _ Hp Hq) as [Ht (He & Hto & Hreq)].
  destruct Hp as [E|E|E|E|E|_ (E & _)|_ _ _ _ Hf [Hl _]]; try (rewrite E in Ht; discriminate Ht); [rewrite He in E; discriminate E|].
  unfold failed, remaining in *. rewrite Hf. pose proof (runs_ends _ _ _ Hr) as Hend. split_and!; try done.
  - by rewrite He.
  - intros x Hx. destruct (runs_asking _ _ _ _ Hsub Hr Hno) as [Ha _ Hleft]. destruct (Ha x Hx) as [Hin|]; [|done].
    destruct (Hleft ltac:(rewrite Ht; cbn; lia) x Hin) as [Hld|]; [|done]. unfold load_ids in Hld. rewrite He in Hld. by apply elem_of_nil in Hld.
  - intros es1 es2 -> Hes2. apply request_answered; [|done|].
    + unfold ends. rewrite foldl_app. cbn. unfold after, handle, setStartSyncRequested. js_unfold. cbn.
      destruct (checkStartTicking_keeps (set_startSyncRequested true (ends es1 (started_with high ids)))) as [_ Hk]. unfold ends in Hk.
      by destruct (checkStartTicking _).
    + unfold ends. rewrite <- foldl_app, <- app_assoc. cbn [app]. rewrite Hend in Hreq. exact Hreq.
  - rewrite Hend, last_announced in Hl. destruct (last _) as [status|]; [by exists status|done].
Qed.

(** Whether remote data is ever announced as loaded depends on the first
    attempts only: one failed load of a high priority stream is counted twice and
    forgotten once, and the client is reported as not loaded for good, even when
    every stream was loaded in the end. *)
Theorem remote_loaded_iff high ids es s :
  (forall x, x ∈ high -> x ∈ ids) -> runs (started_with high ids) es s -> CallStop ∉ es ->
  (forall e, is_call e = false -> ~ enabled s e) ->
  isRemoteDataLoaded (initStatus s) = true <-> (forall l, LoadEnds l false ∈ es -> ld_tick l <> 0%nat).
Proof.
  intros Hsub Hr Hno Hq. destruct (runs_phase _ _ _ _ Hsub Hr Hno) as [_ Hp]. rewrite <-failed_high_zero.
  destruct (quiet_at_rest _ _ Hp Hq) as [Ht (He & _)].
  destruct Hp as [E|E|E|E|E|_ (E & _)|_ _ _ _ _ [_ ->]]; try (rewrite E in Ht; discriminate Ht); [rewrite He in E; discriminate E|].
  apply Z.eqb_eq.
Qed.

(** The order of loading: a task gives every stream that is left to the limiter,
    once, by increasing priority, streams of the same priority in the order of the
    set; the network may be used by the network task and for high priority streams
    only. *)
Theorem loads_by_priority k task rest s :
  armed_at k s -> tasks s = task :: rest -> task <> loadHighPriorityStreams ->
  let ls := loads (env (after (TimerFires k) s)) in
  map ld_streamId ls ≡ₚ streamIds s
  /\ Sorted (fun a b => (priorityFromStreamId s a <=? priorityFromStreamId s b) = true) (map ld_streamId ls)
  /\ (forall p, filter (fun x => priorityFromStreamId s x = p) (map ld_streamId ls)
              = filter (fun x => priorityFromStreamId s x = p) (streamIds s))
  /\ Forall (fun l => ld_allowGetStream l = true <-> task = loadStreamsFromNetwork \/ ld_streamId l ∈ highPriorityIds s) ls.
Proof.
  intros Ha Ht Hne ls. destruct (timer_task k task rest s Ha Ht) as (_ & He & _).
  assert (Hids : map ld_streamId ls = syncItems s).
  { unfold ls. rewrite He. cbn [loads]. rewrite task_load_ids. by destruct task. }
  rewrite Hids. split_and!.
  - apply syncItems_perm.
  - apply js_sort_sorted. intros a b. rewrite !Z.leb_le. lia.
  - intros p. apply js_sort_stable.
  - unfold ls. rewrite He. cbn [loads]. destruct task; cbn; [done| |]; apply Forall_map, Forall_true; intros x; cbn.
    + rewrite bool_decide_eq_true. naive_solver.
    + naive_solver.
Qed.

(** [stop] does not stop the loading of a client: when a tick is running and
    tasks are left, the end of the tick sets the next timer although [stop] has been
    called, and [stop] returns with the timer pending. *)
Theorem stop_leaves_ticking k work s :
  started s = true -> tasks s <> [] -> inProgressTick s = Some k -> enabled s (TickEnds k work) ->
  let s2 := after (TickEnds k work) (after CallStop s) in
  tasks s2 = tasks s /\ (exists id, timeoutId s2 = Some id /\ id ∈ armed (env s2)) /\ enabled s2 (StopEnds k).
Proof.
  intros Hst Ht Hk [Hin Hno] s2. set (s1 := after CallStop s) in s2. unfold s2. clear s2.
  assert (H1 : tasks s1 = tasks s /\ started s1 = true /\ ticks (env s1) = ticks (env s) /\ k ∈ stops (env s1)).
  { unfold s1, after, handle, stop. js_unfold. destruct (timeoutId s); cbn; rewrite Hk; cbn; split_and!; set_solver. }
  destruct H1 as (Ht1 & Hst1 & Hti1 & Hk1). rewrite after_TickEnds.
  assert (H2 : tasks (settled k work s1) = tasks s1 /\ started (settled k work s1) = started s1
    /\ timeoutId (settled k work s1) = None
    /\ env (settled k work s1) = set_ticks (filter (fun x => x.1 <> k)) (env s1)) by (by destruct work as [[]| |]).
  destruct H2 as (Ht2 & Hst2 & Hto2 & He2). rewrite checkStartTicking_post, Hst2, Hst1, Hto2. cbn [negb is_defined orb].
  rewrite (proj2 (busy_work_left _)); [|unfold work_left; rewrite Ht2, Ht1; destruct (tasks s); [done|cbn; lia]].
  split_and!.
  - transitivity (tasks (settled k work s1)); [done|]. by rewrite Ht2.
  - eexists. split; [reflexivity|]. rewrite arm_env. cbn. set_solver.
  - unfold enabled. rewrite arm_env, He2. cbn. split; [done|]. apply Forall_forall. by intros x [? _]%list_elem_of_filter.
Qed.
End StreamLoading.

(** ** Concrete runs *)

(** Runs that can be evaluated. *)
Fixpoint run `{Externals} (es : list event) (s : t) : option t :=
  match es with
  | [] => Some s
  | e :: es => if decide (enabled s e) then run es (after e s) else None
  end.

Lemma run_runs `{Externals} s0 es0 es s s' : runs s0 es0 s -> run es s = Some s' -> runs s0 (es0 ++ es) s'.
Proof.
  revert es0 s. induction es as [|e es IH]; cbn; intros es0 s Hr Hx.
  - injection Hx as <-. by rewrite app_nil_r.
  - case_decide; [|done]. rewrite cons_middle, app_assoc. eapply IH; [|exact Hx]. by constructor.
Qed.

Lemma at_rest_quiet s : at_rest s -> forall e, is_call e = false -> ~ enabled s e.
Proof.
  intros (He & _) e Hc Hen. destruct e; try discriminate Hc; cbn in Hen; rewrite He in Hen; cbn in Hen; set_solver.
Qed.

(** A high priority stream whose first load fails, and which is loaded by the second
    task; a channel that needs the network. *)
Definition demo_load (tick : nat) (id : string) (network allow running : bool) : load := mkLoad tick id network allow running.
Definition demo_run : list event :=
  [TimerFires 0;
   LoadStarts (demo_load 0 "10" false true false); LoadEnds (demo_load 0 "10" false true true) false;
   TickEnds 0 (RunsTask loadHighPriorityStreams);
   TimerFires 1;
   LoadStarts (demo_load 1 "10" false true false); LoadStarts (demo_load 1 "20" false false false);
   LoadEnds (demo_load 1 "20" false false true) false; LoadEnds (demo_load 1 "10" false true true) true;
   TickEnds 1 (RunsTask loadStreamsFromPersistence);
   CallSetStartSyncRequested true;
   TimerFires 2;
   LoadStarts (demo_load 2 "20" true true false); LoadEnds (demo_load 2 "20" true true true) true;
   TickEnds 2 (RunsTask loadStreamsFromNetwork);
   TimerFires 3; TickEnds 3 StartsSync].
Definition demo_end : t := default new (run demo_run (started_with ["10"] ["20"; "10"])).

Lemma demo_runs : runs (started_with ["10"] ["20"; "10"]) demo_run demo_end.
Proof. apply (run_runs _ [] demo_run (started_with ["10"] ["20"; "10"])); [constructor|vm_compute; reflexivity]. Qed.

Lemma demo_rest : at_rest demo_end.
Proof. vm_compute. auto. Qed.

Lemma demo_high : forall x : string, x ∈ ["10"] -> x ∈ ["20"; "10"].
Proof. set_solver. Qed.

Lemma demo_no_stop : CallStop ∉ demo_run.
Proof. unfold demo_run. set_solver. Qed.

Lemma demo_requested : demo_run = take 10 demo_run ++ CallSetStartSyncRequested true :: drop 11 demo_run.
Proof. reflexivity. Qed.

Lemma demo_not_taken_back : CallSetStartSyncRequested false ∉ drop 11 demo_run.
Proof. unfold demo_run. cbn [drop]. set_solver. Qed.

Lemma loading_completes_witness :
  numStreamsLoadedFromCache (counts demo_end) + numStreamsLoadedFromNetwork (counts demo_end)
    + numStreamsFailedToLoad (counts demo_end) = 2
  /\ StartSyncStreams ∈ emitted (drop 11 demo_run) 
        (ends (take 10 demo_run ++ [CallSetStartSyncRequested true]) (started_with ["10"] ["20"; "10"]))
  /\ exists status, last (announced (emitted demo_run (started_with ["10"] ["20"; "10"]))) = Some status /\ isLocalDataLoaded status = true.
Proof.
  destruct (loading_completes ["10"] ["20"; "10"] demo_run demo_end demo_high demo_runs demo_no_stop
              (at_rest_quiet _ demo_rest)) as (_ & _ & _ & _ & Hst & Hc & _ & Hl).
  split; [exact Hc|]. split; [|exact Hl].
  exact (Hst _ _ demo_requested demo_not_taken_back).
Defined.

Lemma remote_loaded_iff_witness :
  isRemoteDataLoaded (initStatus demo_end) = true <-> (forall l, LoadEnds l false ∈ demo_run -> ld_tick l <> 0%nat).
Proof.
  exact (remote_loaded_iff ["10"] ["20"; "10"] demo_run demo_end demo_high demo_runs demo_no_stop
           (at_rest_quiet _ demo_rest)).
Defined.

(** All streams of that run were loaded, and it is announced as not loaded. *)
Example demo_not_announced :
  streamIds demo_end = [] /\ isRemoteDataLoaded (initStatus demo_end) = false.
Proof. vm_compute. auto. Qed.

Definition demo_before_network : t := default new (run (take 10 demo_run) (started_with ["10"] ["20"; "10"])).

Lemma loads_by_priority_witness :
  Forall (fun l => ld_allowGetStream l = true <->
    loadStreamsFromNetwork = loadStreamsFromNetwork \/ ld_streamId l ∈ highPriorityIds demo_before_network)
    (loads (env (after (TimerFires 2) demo_before_network))).
Proof.
  refine (proj2 (proj2 (proj2 (loads_by_priority 2 loadStreamsFromNetwork [] demo_before_network _ _ _)))).
  - vm_compute. auto.
  - vm_compute. reflexivity.
  - discriminate.
Defined.

Definition demo_in_tick : t := default new (run (take 3 demo_run) (started_with ["10"] ["20"; "10"])).

Lemma stop_leaves_ticking_witness :
  enabled (after (TickEnds 0 (RunsTask loadHighPriorityStreams)) (after CallStop demo_in_tick)) (StopEnds 0).
Proof.
  refine (proj2 (proj2 (stop_leaves_ticking 0 (RunsTask loadHighPriorityStreams) demo_in_tick _ _ _ _))).
  - vm_compute. reflexivity.
  - vm_compute. discriminate.
  - vm_compute. reflexivity.
  - vm_compute. split; [left|constructor].
Defined.
