(* ===== verification/DecryptionQueues.v ===== *)
(** * The queues of the decryption extensions (core/encryption/src/decryptionExtensions.ts)

    The array helpers at the end of the file: queues kept in the order of a date,
    queues with a priority, and what these helpers really do to the order. *)

From S2P Require Import Prelude Externals SdkUtils.

(** ** The helpers *)

Section Queues.
Context {T : Type}.

(** The loop of [insertSorted]: the indices below [i] are still to be seen. *)
Fixpoint sorted_position (dateFn : T -> Z) (items : list T) (newItem : T) (i position : nat) : nat :=
  match i with
  | O => position
  | S i =>
      match items !! i with
      | Some x => if dateFn x <=? dateFn newItem then S i else sorted_position dateFn items newItem i position
      | None => sorted_position dateFn items newItem i position
      end
  end.

Definition insertSorted (items : list T) (newItem : T) (dateFn : T -> Z) : list T :=
  let position := sorted_position dateFn items newItem (length items) (length items) in
  take position items ++ newItem :: drop position items.

(** [items.findIndex(f)]; [None] is -1. *)
Definition findIndex (f : T -> bool) (items : list T) : option nat := fst <$> list_find (fun x => f x = true) items.

(** [items.splice(index, 1)]: what is taken out and what is left. *)
Definition splice1 (index : nat) (items : list T) : option T * list T := (items !! index, delete index items).

Definition dequeueUpToDate (streamId : T -> string) (items : list T) (now : Z) (dateFn : T -> Z)
    (upToDateStreams : gset string) : option T * list T :=
  match items with
  | [] => (None, items)
  | first :: _ =>
      if now <? dateFn first then (None, items)
      else
        match findIndex (fun x => (dateFn x <=? now) && bool_decide (streamId x ∈ upToDateStreams)) items with
        | None => (None, items)
        | Some index => splice1 index items
        end
  end.

Definition dequeueHighPriority (streamId : T -> string) (items : list T) (highPriorityIds : gset string)
    : option T * list T :=
  match findIndex (fun x => bool_decide (streamId x ∈ highPriorityIds)) items with
  | None => match items with [] => (None, []) | x :: rest => (Some x, rest) end
  | Some index => splice1 index items
  end.

Definition removeItem (items : list T) (predicate : T -> bool) : list T :=
  match findIndex predicate items with
  | None => items
  | Some index => delete index items
  end.

Definition takeFirst (count : nat) (array : list T) : list T := take count array.
End Queues.

(** The loop runs over the indices of [a]; the lengths are equal. *)
Fixpoint sortedArraysEqual_loop (a b : list string) : bool :=
  match a, b with
  | x :: a, y :: b => if String.eqb x y then sortedArraysEqual_loop a b else false
  | _, _ => true
  end.

Definition sortedArraysEqual (a b : list string) : bool :=
  if negb (length a =? length b)%nat then false else sortedArraysEqual_loop a b.

(** [s.includes(p)]. *)
Fixpoint includes (s p : string) : bool :=
  startsWith s p ||
  match s with
  | EmptyString => false
  | String _ s => includes s p
  end.

Definition isSessionNotFoundError (err : js_error) : bool :=
  match err with
  | CodeException message _ | JsError message => includes message "Session not found"
  end.

(** ** Taking out and putting in *)

Section QueueLemmas.
Context {T : Type}.
Implicit Types (items : list T) (dateFn : T -> Z).

Lemma insertSorted_perm items x dateFn : insertSorted items x dateFn ≡ₚ x :: items.
Proof. unfold insertSorted. by rewrite <-Permutation_middle, take_drop. Qed.

Lemma index_Some f items i : findIndex f items = Some i ->
  exists x, items !! i = Some x /\ f x = true /\ items ≡ₚ x :: delete i items
    /\ (forall j y, items !! j = Some y -> (j < i)%nat -> f y = false).
Proof.
  unfold findIndex. intros Hf. destruct (list_find _ items) as [[j x]|] eqn:Hl; [|done]. injection Hf as <-.
  apply list_find_Some in Hl as (Hi & Hx & Hlt). exists x. split_and!; [done|done|by apply delete_Permutation|].
  intros k y Hk Hlt'. apply not_true_is_false. by eapply Hlt.
Qed.

Lemma index_None f items : findIndex f items = None <-> Forall (fun x => f x = false) items.
Proof.
  unfold findIndex. rewrite fmap_None, list_find_None. apply Forall_iff. intros x. apply not_true_iff_false.
Qed.

(** What is taken out is one element, the rest stays. *)
Lemma dequeueUpToDate_perm streamId items now dateFn up x items' :
  dequeueUpToDate streamId items now dateFn up = (Some x, items') ->
  items ≡ₚ x :: items' /\ dateFn x <= now /\ streamId x ∈ up.
Proof.
  unfold dequeueUpToDate. destruct items as [|y items]; [done|]. destruct (now <? dateFn y); [done|].
  destruct (findIndex _ _) as [i|] eqn:Hf; [|done]. apply index_Some in Hf as (z & Hz & Hp & Hperm & _).
  unfold splice1. rewrite Hz. intros [= <- <-]. apply andb_true_iff in Hp as [H1 H2].
  split; [done|]. split; [by apply Z.leb_le|]. by apply bool_decide_eq_true in H2.
Qed.

Lemma dequeueUpToDate_None streamId items now dateFn up items' :
  dequeueUpToDate streamId items now dateFn up = (None, items') -> items' = items.
Proof.
  unfold dequeueUpToDate. destruct items as [|y items]; [by intros [= <-]|]. destruct (now <? dateFn y); [by intros [= <-]|].
  destruct (findIndex _ _) as [i|] eqn:Hf; [|by intros [= <-]]. apply index_Some in Hf as (z & Hz & _).
  unfold splice1. by rewrite Hz.
Qed.

Lemma dequeueHighPriority_perm streamId items high x items' :
  dequeueHighPriority streamId items high = (Some x, items') -> items ≡ₚ x :: items'.
Proof.
  unfold dequeueHighPriority. destruct (findIndex _ _) as [i|] eqn:Hf.
  - apply index_Some in Hf as (z & Hz & _ & Hperm & _). unfold splice1. rewrite Hz. by intros [= <- <-].
  - destruct items; [done|]. by intros [= <- <-].
Qed.

Lemma dequeueHighPriority_None streamId items high items' :
  dequeueHighPriority streamId items high = (None, items') -> items = [] /\ items' = [].
Proof.
  unfold dequeueHighPriority. destruct (findIndex _ _) as [i|] eqn:Hf.
  - apply index_Some in Hf as (z & Hz & _). unfold splice1. by rewrite Hz.
  - destruct items; [|done]. by intros [= <-].
Qed.

Lemma removeItem_submseteq items f : removeItem items f ⊆+ items.
Proof. unfold removeItem. destruct (findIndex f items); [apply submseteq_delete|done]. Qed.
End QueueLemmas.

Lemma sortedArraysEqual_spec a b : sortedArraysEqual a b = true <-> a = b.
Proof.
  unfold sortedArraysEqual. destruct (Nat.eqb_spec (length a) (length b)) as [Hl|Hl]; cbn.
  - revert b Hl. induction a as [|x a IH]; intros [|y b]; cbn; try done. intros [= Hl].
    destruct (String.eqb_spec x y) as [->|Hne]; [rewrite IH by done; naive_solver|naive_solver].
  - split; [done|]. by intros ->.
Qed.

(** ** The order of a queue *)

Section Order.
Context {T : Type} (dateFn : T -> Z).
Implicit Types items : list T.

Definition by_date (a b : T) : Prop := dateFn a <= dateFn b.

(** The first item that is due and whose stream is up to date, wherever it is. *)
Definition firstDue (streamId : T -> string) (items : list T) (now : Z) (up : gset string) : option T * list T :=
  match findIndex (fun x => (dateFn x <=? now) && bool_decide (streamId x ∈ up)) items with
  | None => (None, items)
  | Some index => splice1 index items
  end.

(** The position is behind the last item that is not later, if there is one. *)
Lemma sorted_position_spec items x i pos :
  (i <= length items)%nat ->
  (exists j y, sorted_position dateFn items x i pos = S j /\ (j < i)%nat /\ items !! j = Some y /\ dateFn y <= dateFn x
     /\ (forall k z, (j < k < i)%nat -> items !! k = Some z -> dateFn x < dateFn z))
  \/ (sorted_position dateFn items x i pos = pos
      /\ (forall k z, (k < i)%nat -> items !! k = Some z -> dateFn x < dateFn z)).
Proof.
  induction i as [|i IH]; intros Hi; cbn [sorted_position]; [right; split; [done|lia]|].
  destruct (items !! i) as [y|] eqn:Hy; [|apply lookup_ge_None_1 in Hy; lia].
  destruct (Z.leb_spec (dateFn y) (dateFn x)) as [Hle|Hlt].
  - left. exists i, y. split_and!; try done; lia.
  - destruct IH as [(j & z & Hp & Hj & Hz & Hle & Hafter)|[Hp Hafter]]; [lia| |]; [left; exists j, z|right];
      split_and!; try done; [lia| |]; intros k w Hk Hw; (destruct (decide (k = i)) as [->|]; [congruence|]);
      eapply Hafter; eauto; lia.
Qed.

Lemma insertSorted_split items x :
  (exists l y l', items = l ++ y :: l' /\ insertSorted items x dateFn = l ++ y :: x :: l' /\ dateFn y <= dateFn x
     /\ Forall (fun z => dateFn x < dateFn z) l')
  \/ (insertSorted items x dateFn = items ++ [x] /\ Forall (fun z => dateFn x < dateFn z) items).
Proof.
  unfold insertSorted.
  destruct (sorted_position_spec items x (length items) (length items)) as [(j & y & Hp & Hj & Hy & Hle & Ha)|[Hp Ha]];
    [lia| |]; rewrite Hp.
  - left. exists (take j items), y, (drop (S j) items). split_and!; [by rewrite take_drop_middle| |done|].
    + by rewrite (take_S_r _ _ _ Hy), <-app_assoc.
    + apply Forall_lookup. intros k z Hz. rewrite lookup_drop in Hz. apply (Ha (S j + k)%nat); [|done].
      apply lookup_lt_Some in Hz. lia.
  - right. rewrite take_ge, drop_ge by lia. split; [done|]. apply Forall_lookup. intros k z Hz.
    apply (Ha k); [|done]. by apply lookup_lt_Some in Hz.
Qed.

Lemma StronglySorted_app_iff (l l' : list T) :
  StronglySorted by_date (l ++ l') <->
  StronglySorted by_date l /\ StronglySorted by_date l' /\ (forall a b, a ∈ l -> b ∈ l' -> by_date a b).
Proof.
  induction l as [|a l IH]; cbn; split.
  - intros Hs. split_and!; [constructor|done|set_solver].
  - by intros (_ & ? & _).
  - intros [Hs Hf]%StronglySorted_inv. apply IH in Hs as (H1 & H2 & H3). rewrite Forall_app in Hf. destruct Hf as [Hf1 Hf2].
    split_and!; [by constructor|done|]. intros x y [->|Hx]%elem_of_cons Hy; [by eapply Forall_forall|by apply H3].
  - intros ([Hs Hf]%StronglySorted_inv & Hs' & Hlt). constructor.
    + apply IH. split_and!; [done|done|]. intros x y Hx Hy. apply Hlt; [by right|done].
    + apply Forall_app. split; [done|]. apply Forall_forall. intros y Hy. apply Hlt; [left|done].
Qed.

(** [insertSorted] keeps the order of a queue exactly when the new item is not
    the earliest one: an item that is earlier than all others is put at the end of
    the queue instead of its front. *)
Theorem insertSorted_sorted_iff items x :
  StronglySorted by_date items ->
  insertSorted items x dateFn ≡ₚ x :: items
  /\ (StronglySorted by_date (insertSorted items x dateFn)
      <-> items = [] \/ exists y, y ∈ items /\ dateFn y <= dateFn x).
Proof.
  intros Hs. split; [apply insertSorted_perm|].
  destruct (insertSorted_split items x) as [(l & y & l' & -> & -> & Hle & Ha)|[-> Ha]].
  - split; [intros _; right; exists y; set_solver|intros _]. rewrite StronglySorted_app_iff in *.
    destruct Hs as (Hl & [Hl' Hy]%StronglySorted_inv & Hlt). split_and!; [done| |].
    + constructor; [constructor; [done|]|constructor; [done|done]].
      eapply Forall_impl; [exact Ha|]. unfold by_date. intros z; lia.
    + intros a b Hab Hb. apply elem_of_cons in Hb as [->|Hb]; [apply Hlt; set_solver|].
      apply elem_of_cons in Hb as [->|Hb]; [|apply Hlt; set_solver].
      assert (by_date a y) by (apply Hlt; set_solver). unfold by_date in *. lia.
  - rewrite StronglySorted_app_iff. split.
    + intros (_ & _ & Hlt). destruct items as [|z items]; [by left|]. right. exists z. split; [left|]. apply Hlt; set_solver.
    + intros [->|(y & Hy & Hle)]; [split_and!; [constructor|repeat constructor|set_solver]|].
      rewrite Forall_forall in Ha. specialize (Ha y Hy). lia.
Qed.

(** On a queue in order, [dequeueUpToDate] takes out the first item that is due
    and whose stream is up to date, although it looks at the head first; an item
    that [insertSorted] put behind a later head is not found before the head is due,
    however long it is due itself. *)
Theorem dequeueUpToDate_order streamId items now up :
  StronglySorted by_date items ->
  dequeueUpToDate streamId items now dateFn up = firstDue streamId items now up
  /\ (forall head rest x, items = head :: rest -> dateFn x <= now -> now < dateFn head ->
       dequeueUpToDate streamId (insertSorted items x dateFn) now dateFn up = (None, insertSorted items x dateFn)).
Proof.
  intros Hs. split.
  - unfold dequeueUpToDate, firstDue. destruct items as [|y items]; [done|].
    destruct (Z.ltb_spec now (dateFn y)) as [Hlt|Hge]; [|done].
    rewrite (proj2 (index_None _ _)); [done|]. apply StronglySorted_inv in Hs as [_ Hf].
    assert (Hall : forall z, by_date y z -> (dateFn z <=? now) && bool_decide (streamId z ∈ up) = false).
    { intros z Hz. unfold by_date in Hz. by rewrite (proj2 (Z.leb_gt _ _)) by lia. }
    constructor; [apply Hall; unfold by_date; lia|]. eapply Forall_impl; [exact Hf|]. auto.
  - intros head rest x -> Hx Hh.
    assert (Hi : exists l, insertSorted (head :: rest) x dateFn = head :: l).
    { destruct (insertSorted_split (head :: rest) x) as [(l & y & l' & He & -> & Hle & _)|[-> _]]; [|by eexists].
      destruct l as [|z l]; cbn in He; injection He as <- _; by eexists. }
    destruct Hi as [l ->]. unfold dequeueUpToDate. by rewrite (proj2 (Z.ltb_lt _ _) Hh).
Qed.
End Order.

(** A request that is due behind one that is not. *)
Lemma insertSorted_sorted_iff_witness :
  insertSorted [5; 9] 7 (fun z => z) ≡ₚ 7 :: [5; 9]
  /\ (StronglySorted (by_date (fun z => z)) (insertSorted [5; 9] 7 (fun z => z))
      <-> [5; 9] = [] \/ exists y, y ∈ [5; 9] /\ y <= 7).
Proof.
  apply (insertSorted_sorted_iff (fun z => z) [5; 9] 7). repeat constructor; unfold by_date; lia.
Defined.

Lemma dequeueUpToDate_order_witness :
  dequeueUpToDate (fun _ => "s") (insertSorted [5; 9] 3 (fun z => z)) 4 (fun z => z) {["s"]} = (None, [5; 9; 3]).
Proof.
  refine (proj2 (dequeueUpToDate_order (fun z => z) (fun _ => "s") [5; 9] 4 {["s"]} _) 5 [9] 3 eq_refl _ _).
  - repeat constructor; unfold by_date; lia.
  - lia.
  - lia.
Defined.
