(* ===== verification/DecryptionExtensions.v ===== *)
(** * Decryption and key exchange (core/encryption/src/decryptionExtensions.ts)

    [BaseDecryptionExtensions] decrypts what arrives in streams, retries, asks other
    devices for missing keys and answers their requests. Work waits in six queues;
    a timer starts a tick, a tick takes one piece of work from the queues and runs
    it. A tick is modelled in two parts: up to its first [await] ([tick]), and from
    the answer it waits for to its end ([finish_job]); the calls that arrive in
    between change the queues. The abstract methods and the encryption device are
    answers of the environment. *)

From S2P Require Import Prelude Proto Externals Binary StreamId Types SdkUtils DecryptionQueues.

Inductive DecryptionStatus :=
| initializing | updating | processingNewGroupSessions | decryptingEvents | retryingDecryption
| requestingKeys | respondingToKeyRequests | idle.
#[global] Instance DecryptionStatus_eq_dec : EqDecision DecryptionStatus.
Proof. solve_decision. Defined.

(** [ci_ref] is the identity of the object. *)
Record EncryptedContentItem := mkContentItem {
  ci_ref : nat;
  ci_streamId : string;
  ci_eventId : string;
  ci_kind : string;
  ci_encryptedData : EncryptedData;
}.

Record DecryptionRetryItem := mkRetryItem {
  ri_streamId : string;
  ri_event : EncryptedContentItem;
  ri_retryAt : Z;
}.

Record KeySolicitationItem := mkSolicitationItem {
  ks_streamId : string;
  ks_fromUserId : string;
  ks_fromUserAddress : bytes;
  ks_solicitation : KeySolicitationContent;
  ks_respondAfter : Z;
}.

Record MissingKeysItem := mkMissingKeysItem { mk_streamId : string; mk_waitUntil : Z }.

Record GroupEncryptionSession := mkGroupEncryptionSession {
  gs_streamId : string;
  gs_sessionId : string;
  gs_sessionKey : string;
  gs_algorithm : string;
}.

Definition GROUP_ENCRYPTION_ALGORITHM : string := "r.group-encryption.v1.aes-sha2".

Inductive PriorityTask := uploadDeviceKeys | downloadNewMessages.

(** What a tick runs: the method and its argument; [NoJob] when nothing was due or
    the method returned before it awaited anything. *)
Inductive Job :=
| RunPriorityTask (task : PriorityTask)
| ProcessNewGroupSession (session : GroupEncryptionSessions) (ciphertext : string)
| ProcessEncryptedContentItem (item : EncryptedContentItem)
| ProcessDecryptionRetry (item : DecryptionRetryItem)
| ProcessMissingKeys (streamId : string) (missingSessionIds : list string)
| ProcessKeySolicitation (item : KeySolicitationItem)
| NoJob.

Record queues := mkQueues {
  priorityTasks : list PriorityTask;
  newGroupSession : list GroupEncryptionSessions;
  encryptedContent : list EncryptedContentItem;
  decryptionRetries : list DecryptionRetryItem;
  missingKeys : list MissingKeysItem;
  keySolicitations : list KeySolicitationItem;
}.

Abbreviation failures := (gmap string (gmap string (list EncryptedContentItem))).

(** [timeoutId] tells whether the field is set, [armed] whether a timer will fire,
    [job] what the running tick does; [onStopFn] whether the stop function is set,
    [paused] and [inboxStreamId] are what [shouldPauseTicking] and
    [isUserInboxStreamUpToDate] depend on; [refs] counts the item objects. *)
Record t := mkT {
  _status : DecryptionStatus;
  qs : queues;
  upToDateStreams : gset string;
  highPriorityStreams : gset string;
  decryptionFailures : failures;
  timeoutId : bool;
  armed : bool;
  job : option Job;
  started : bool;
  onStopFn : bool;
  paused : bool;
  inboxStreamId : option string;
  deviceKey : string;
  userId : string;
  refs : nat;
}.

Definition set_status v (s : t) : t := mkT v (qs s) (upToDateStreams s) (highPriorityStreams s) (decryptionFailures s)
  (timeoutId s) (armed s) (job s) (started s) (onStopFn s) (paused s) (inboxStreamId s) (deviceKey s) (userId s) (refs s).
Definition set_qs f (s : t) : t := mkT (_status s) (f (qs s)) (upToDateStreams s) (highPriorityStreams s) (decryptionFailures s)
  (timeoutId s) (armed s) (job s) (started s) (onStopFn s) (paused s) (inboxStreamId s) (deviceKey s) (userId s) (refs s).
Definition set_upToDateStreams f (s : t) : t := mkT (_status s) (qs s) (f (upToDateStreams s)) (highPriorityStreams s) (decryptionFailures s)
  (timeoutId s) (armed s) (job s) (started s) (onStopFn s) (paused s) (inboxStreamId s) (deviceKey s) (userId s) (refs s).
Definition set_highPriorityStreams v (s : t) : t := mkT (_status s) (qs s) (upToDateStreams s) v (decryptionFailures s)
  (timeoutId s) (armed s) (job s) (started s) (onStopFn s) (paused s) (inboxStreamId s) (deviceKey s) (userId s) (refs s).
Definition set_decryptionFailures f (s : t) : t := mkT (_status s) (qs s) (upToDateStreams s) (highPriorityStreams s) (f (decryptionFailures s))
  (timeoutId s) (armed s) (job s) (started s) (onStopFn s) (paused s) (inboxStreamId s) (deviceKey s) (userId s) (refs s).
Definition set_timer v w (s : t) : t := mkT (_status s) (qs s) (upToDateStreams s) (highPriorityStreams s) (decryptionFailures s)
  v w (job s) (started s) (onStopFn s) (paused s) (inboxStreamId s) (deviceKey s) (userId s) (refs s).
Definition set_job v (s : t) : t := mkT (_status s) (qs s) (upToDateStreams s) (highPriorityStreams s) (decryptionFailures s)
  (timeoutId s) (armed s) v (started s) (onStopFn s) (paused s) (inboxStreamId s) (deviceKey s) (userId s) (refs s).
Definition set_started v (s : t) : t := mkT (_status s) (qs s) (upToDateStreams s) (highPriorityStreams s) (decryptionFailures s)
  (timeoutId s) (armed s) (job s) v (onStopFn s) (paused s) (inboxStreamId s) (deviceKey s) (userId s) (refs s).
Definition set_onStopFn v (s : t) : t := mkT (_status s) (qs s) (upToDateStreams s) (highPriorityStreams s) (decryptionFailures s)
  (timeoutId s) (armed s) (job s) (started s) v (paused s) (inboxStreamId s) (deviceKey s) (userId s) (refs s).
Definition set_paused v (s : t) : t := mkT (_status s) (qs s) (upToDateStreams s) (highPriorityStreams s) (decryptionFailures s)
  (timeoutId s) (armed s) (job s) (started s) (onStopFn s) v (inboxStreamId s) (deviceKey s) (userId s) (refs s).
Definition set_refs v (s : t) : t := mkT (_status s) (qs s) (upToDateStreams s) (highPriorityStreams s) (decryptionFailures s)
  (timeoutId s) (armed s) (job s) (started s) (onStopFn s) (paused s) (inboxStreamId s) (deviceKey s) (userId s) v.

Definition set_priorityTasks f (q : queues) := mkQueues (f (priorityTasks q)) (newGroupSession q) (encryptedContent q)
  (decryptionRetries q) (missingKeys q) (keySolicitations q).
Definition set_newGroupSession f (q : queues) := mkQueues (priorityTasks q) (f (newGroupSession q)) (encryptedContent q)
  (decryptionRetries q) (missingKeys q) (keySolicitations q).
Definition set_encryptedContent f (q : queues) := mkQueues (priorityTasks q) (newGroupSession q) (f (encryptedContent q))
  (decryptionRetries q) (missingKeys q) (keySolicitations q).
Definition set_decryptionRetries f (q : queues) := mkQueues (priorityTasks q) (newGroupSession q) (encryptedContent q)
  (f (decryptionRetries q)) (missingKeys q) (keySolicitations q).
Definition set_missingKeys f (q : queues) := mkQueues (priorityTasks q) (newGroupSession q) (encryptedContent q)
  (decryptionRetries q) (f (missingKeys q)) (keySolicitations q).
Definition set_keySolicitations f (q : queues) := mkQueues (priorityTasks q) (newGroupSession q) (encryptedContent q)
  (decryptionRetries q) (missingKeys q) (f (keySolicitations q)).

(** The constructor of the subclass sets the stop function. *)
Definition new (deviceKey userId : string) (inbox : option string) (upToDate : gset string) : t :=
  mkT initializing (mkQueues [] [] [] [] [] []) upToDate ∅ ∅ false false None false true false inbox deviceKey userId 0.

(** Events, timers and calls of abstract methods and of the encryption device. *)
Inductive out :=
| decryptionExtStatusChanged (status : DecryptionStatus)
| SetTimer (delayMs : Z)
| CallPriorityTask (task : PriorityTask)
| DecryptGroupEvent (item : EncryptedContentItem)
| OnDecryptionError (item : EncryptedContentItem) (err : DecryptionSessionError)
| ImportSessionKeys (streamId : string) (sessions : list GroupEncryptionSession)
| AckNewGroupSession (session : GroupEncryptionSessions)
| SendKeySolicitation (streamId : string) (isNewDevice : bool) (missingSessionIds : list string)
| SendKeyFulfillment (streamId : string) (userAddress : bytes) (deviceKey : string) (sessionIds : list string)
| EncryptAndShareGroupSessions (streamId : string) (item : KeySolicitationItem) (sessions : list GroupEncryptionSession).

Abbreviation DM := (JS out t).

Definition setStatus (status : DecryptionStatus) : DM unit :=
  self ← js_get;
  js_when (negb (bool_decide (_status self = status)))
    (js_modify (set_status status);; js_emit true (decryptionExtStatusChanged status)).

Definition isUserInboxStreamUpToDate (s : t) : bool :=
  match inboxStreamId s with
  | Some id => bool_decide (id ∈ upToDateStreams s)
  | None => false
  end.

Definition delayMs : Z := 15.

Definition getDelayMs (s : t) : Z := if (0 <? length (newGroupSession (qs s)))%nat then 0 else delayMs.

(** [Object.values(this.queues).find((q) => q.length > 0)]. *)
Definition queues_empty (q : queues) : bool :=
  (length (priorityTasks q) =? 0)%nat && (length (newGroupSession q) =? 0)%nat && (length (encryptedContent q) =? 0)%nat
  && (length (decryptionRetries q) =? 0)%nat && (length (missingKeys q) =? 0)%nat && (length (keySolicitations q) =? 0)%nat.

Definition checkStartTicking : DM unit :=
  self ← js_get;
  if negb (started self) || timeoutId self || negb (onStopFn self) || negb (isUserInboxStreamUpToDate self) || paused self
  then js_return
  else if queues_empty (qs self) then setStatus idle
  else
    js_modify (set_timer true true);;
    js_emit true (SetTimer (getDelayMs self)).

(** ** What arrives *)

Definition enqueueNewGroupSessions (sessions : GroupEncryptionSessions) : DM unit :=
  js_modify (set_qs (set_newGroupSession (fun q => q ++ [sessions])));;
  checkStartTicking.

Definition enqueueNewEncryptedContent (streamId eventId kind : string) (encryptedData : EncryptedData) : DM unit :=
  js_modify (fun s => set_refs (S (refs s)) (set_qs (set_encryptedContent
    (fun q => q ++ [mkContentItem (refs s) streamId eventId kind encryptedData])) s));;
  checkStartTicking.

(** [delay] is the answer of [getRespondDelayMSForKeySolicitation]. *)
Definition enqueueKeySolicitation (now : Z) (delay : result Z) (streamId fromUserId : string) (fromUserAddress : bytes)
    (keySolicitation : KeySolicitationContent) : DM unit :=
  self ← js_get;
  if String.eqb (ksc_deviceKey keySolicitation) (deviceKey self) then js_return
  else
    js_modify (set_qs (set_keySolicitations (fun q => removeItem q (fun x =>
      String.eqb (ks_streamId x) streamId && String.eqb (ksc_deviceKey (ks_solicitation x)) (ksc_deviceKey keySolicitation)))));;
    js_when ((0 <? length (ksc_sessionIds keySolicitation))%nat || ksc_isNewDevice keySolicitation)
      (delayMS ← js_lift delay;
       js_modify (set_qs (set_keySolicitations (fun q =>
         insertSorted q (mkSolicitationItem streamId fromUserId fromUserAddress keySolicitation (now + delayMS)) ks_respondAfter)));;
       checkStartTicking).

Definition setStreamUpToDate (streamId : string) : DM unit :=
  js_modify (set_upToDateStreams (fun u => {[streamId]} ∪ u));;
  checkStartTicking.

Definition setHighPriorityStreams (streamIds : list string) : DM unit :=
  js_modify (set_highPriorityStreams (list_to_set streamIds)).

Definition failures_of (s : t) (streamId : string) : gmap string (list EncryptedContentItem) :=
  default ∅ (decryptionFailures s !! streamId).

Definition enqueueMissingKeys (streamId : string) (waitUntil : Z) : DM unit :=
  js_modify (set_qs (set_missingKeys (fun q => insertSorted q (mkMissingKeysItem streamId waitUntil) mk_waitUntil))).

Definition dropMissingKeys (streamId : string) : DM unit :=
  js_modify (set_qs (set_missingKeys (fun q => removeItem q (fun x => String.eqb (mk_streamId x) streamId)))).

Definition retryDecryptionFailures (now : Z) (streamId : string) : DM unit :=
  dropMissingKeys streamId;;
  self ← js_get;
  js_when (0 <? size (failures_of self streamId))%nat
    (enqueueMissingKeys streamId (now + 100);; checkStartTicking).

Definition start : DM unit :=
  self ← js_get;
  js_check (negb (started self)) "start() called twice, please re-instantiate instead";;
  js_modify (set_started true);;
  js_modify (set_qs (set_priorityTasks (fun q => q ++ [uploadDeviceKeys; downloadNewMessages])));;
  checkStartTicking.

(** [stop] up to the [await] of the running tick. *)
Definition stop : DM unit :=
  js_modify (set_onStopFn false);;
  self ← js_get;
  js_when (timeoutId self) (js_modify (set_timer false false)).

(** The page is hidden or shown again (mobile Safari). *)
Definition mobileSafariPageVisibilityChanged (hidden : bool) : DM unit :=
  js_modify (set_paused hidden);;
  js_when (negb hidden) checkStartTicking.

(** ** A tick *)

(** The part of a method before its first [await]. *)
Definition begin_processNewGroupSession (s : t) (session : GroupEncryptionSessions) : Job :=
  match truthy_str (ges_ciphertexts session !! deviceKey s) with
  | None => NoJob
  | Some ciphertext => ProcessNewGroupSession session ciphertext
  end.

(** [hasStream] answers whether the client has the stream. *)
Definition begin_processMissingKeys (hasStream : string -> bool) (s : t) (item : MissingKeysItem) : Job :=
  let streamId := mk_streamId item in
  let missingSessionIds := takeFirst 100 (sort_strings (elements (dom (failures_of s streamId)))) in
  if (length missingSessionIds =? 0)%nat then NoJob
  else if negb (hasStream streamId) then NoJob
  else ProcessMissingKeys streamId missingSessionIds.

Definition begin_job (status : DecryptionStatus) (j : Job) : DM unit :=
  setStatus status;;
  js_modify (set_job (Some j)).

(** The body of the timer: [tick] runs up to its first [await]. *)
Definition tick (now : Z) (hasStream : string -> bool) : DM unit :=
  js_modify (fun s => set_timer (timeoutId s) false s);;
  self ← js_get;
  match priorityTasks (qs self) with
  | task :: rest =>
      js_modify (set_qs (set_priorityTasks (fun _ => rest)));;
      begin_job updating (RunPriorityTask task);;
      js_emit true (CallPriorityTask task)
  | [] =>
  match newGroupSession (qs self) with
  | session :: rest =>
      js_modify (set_qs (set_newGroupSession (fun _ => rest)));;
      begin_job processingNewGroupSessions (begin_processNewGroupSession self session)
  | [] =>
  match dequeueHighPriority ci_streamId (encryptedContent (qs self)) (highPriorityStreams self) with
  | (Some item, rest) =>
      js_modify (set_qs (set_encryptedContent (fun _ => rest)));;
      begin_job decryptingEvents (ProcessEncryptedContentItem item);;
      js_emit true (DecryptGroupEvent item)
  | (None, _) =>
  match dequeueUpToDate ri_streamId (decryptionRetries (qs self)) now ri_retryAt (upToDateStreams self) with
  | (Some item, rest) =>
      js_modify (set_qs (set_decryptionRetries (fun _ => rest)));;
      begin_job retryingDecryption (ProcessDecryptionRetry item);;
      js_emit true (DecryptGroupEvent (ri_event item))
  | (None, _) =>
  match dequeueUpToDate mk_streamId (missingKeys (qs self)) now mk_waitUntil (upToDateStreams self) with
  | (Some item, rest) =>
      js_modify (set_qs (set_missingKeys (fun _ => rest)));;
      begin_job requestingKeys (begin_processMissingKeys hasStream self item)
  | (None, _) =>
  match dequeueUpToDate ks_streamId (keySolicitations (qs self)) now ks_respondAfter (upToDateStreams self) with
  | (Some item, rest) =>
      js_modify (set_qs (set_keySolicitations (fun _ => rest)));;
      begin_job respondingToKeyRequests (ProcessKeySolicitation item)
  | (None, _) => begin_job idle NoJob
  end end end end end end.

(** ** The answers a job waits for *)

(** The key store of this device: which sessions it has, and their exports; the
    decryption of a message for this device, with the parsing of the keys in it;
    the outcome of the other calls. *)
Record answers := mkAnswers {
  an_hasInboundSessionKeys : string -> string -> bool;
  an_decryptWithDeviceKey : string -> string -> result (list string);
  an_importSessionKeys : result unit;
  an_ackNewGroupSession : result unit;
  an_priorityTask : result unit;
  an_decryptGroupEvent : EncryptedContentItem -> result unit;
  an_hasStream : string -> bool;
  an_isUserEntitledToKeyExchange : string -> string -> bool -> result bool;
  an_getKeySolicitations : string -> list KeySolicitationContent;
  an_getInboundGroupSessionIds : string -> option (list string);
  an_exportInboundGroupSession : string -> string -> result (option GroupEncryptionSession);
  an_sendKeySolicitation : result unit;
  an_sendKeyFulfillment : result unit;
  an_encryptAndShareGroupSessions : result unit;
}.

Section Jobs.
Context `{Externals} (an : answers) (now : Z).

(** The indices of the keys this device has not got. *)
Fixpoint neededKeyIndexs (streamId : string) (i : nat) (sessionIds : list string) : list nat :=
  match sessionIds with
  | [] => []
  | sessionId :: rest =>
      if an_hasInboundSessionKeys an streamId sessionId then neededKeyIndexs streamId (S i) rest
      else i :: neededKeyIndexs streamId (S i) rest
  end.

(** [sessionIds[i]] and [keys[i]]; both are in range after the check. *)
Definition make_session (streamId : string) (sessionIds keys : list string) (i : nat) : GroupEncryptionSession :=
  mkGroupEncryptionSession streamId (default "" (sessionIds !! i)) (default "" (keys !! i)) GROUP_ENCRYPTION_ALGORITHM.

(** Re-enqueue the failures of one imported session. *)
Definition requeue_failures (streamId : string) (session : GroupEncryptionSession) : DM unit :=
  self ← js_get;
  match failures_of self streamId !! gs_sessionId session with
  | Some items =>
      js_modify (set_qs (set_encryptedContent (fun q => q ++ items)));;
      js_modify (set_decryptionFailures (fun f =>
        <[streamId := delete (gs_sessionId session) (default ∅ (f !! streamId))]> f))
  | None => js_return
  end.

Definition processNewGroupSession (session : GroupEncryptionSessions) (ciphertext : string) : DM unit :=
  let streamId := bin_toHexString (ges_streamId session) in
  let needed := neededKeyIndexs streamId 0 (ges_sessionIds session) in
  if (length needed =? 0)%nat then js_return
  else
    keys ← js_lift (an_decryptWithDeviceKey an ciphertext (ges_senderKey session));
    js_check (length keys =? length (ges_sessionIds session))%nat "bad sessionKeys";;
    let sessions := map (make_session streamId (ges_sessionIds session) keys) needed in
    js_emit true (ImportSessionKeys streamId sessions);;
    js_lift (an_importSessionKeys an);;
    js_for sessions (requeue_failures streamId);;
    self ← js_get;
    js_when (length (newGroupSession (qs self)) =? 0)%nat
      (js_emit true (AckNewGroupSession session);; js_lift (an_ackNewGroupSession an)).

Definition decryption_error (item : EncryptedContentItem) (err : js_error) : DecryptionSessionError :=
  mkDecryptionSessionError (isSessionNotFoundError err) (ci_kind item) (ci_encryptedData item)
    (Some (match err with CodeException m _ | JsError m => m end)).

Definition processEncryptedContentItem (item : EncryptedContentItem) : DM unit :=
  match an_decryptGroupEvent an item with
  | Ok _ => js_return
  | Throw err =>
      js_emit true (OnDecryptionError item (decryption_error item err));;
      js_modify (set_qs (set_decryptionRetries (fun q =>
        insertSorted q (mkRetryItem (ci_streamId item) item (now + 3000)) ri_retryAt)))
  end.

(** Note the item under its stream and session; [includes] compares objects. *)
Definition add_failure (item : EncryptedContentItem) (f : failures) : failures :=
  let streamId := ci_streamId item in
  let sessionId := ed_sessionId (ci_encryptedData item) in
  match f !! streamId with
  | None => <[streamId := {[sessionId := [item]]}]> f
  | Some m =>
      match m !! sessionId with
      | None => <[streamId := <[sessionId := [item]]> m]> f
      | Some items =>
          if existsb (fun x => (ci_ref x =? ci_ref item)%nat) items then f
          else <[streamId := <[sessionId := items ++ [item]]> m]> f
      end
  end.

Definition processDecryptionRetry (retryItem : DecryptionRetryItem) : DM unit :=
  let item := ri_event retryItem in
  match an_decryptGroupEvent an item with
  | Ok _ => js_return
  | Throw err =>
      js_emit true (OnDecryptionError item (decryption_error item err));;
      js_when (isSessionNotFoundError err)
        (js_modify (set_decryptionFailures (add_failure item));;
         dropMissingKeys (ci_streamId item);;
         enqueueMissingKeys (ci_streamId item) (now + 1000))
  end.

Definition processMissingKeys (streamId : string) (missingSessionIds : list string) : DM unit :=
  self ← js_get;
  isEntitled ← js_lift (an_isUserEntitledToKeyExchange an streamId (userId self) true);
  if negb isEntitled then js_return
  else
    let solicitedEvents := an_getKeySolicitations an streamId in
    let existingKeyRequest := find (fun x => String.eqb (ksc_deviceKey x) (deviceKey self)) solicitedEvents in
    if default false (ksc_isNewDevice <$> existingKeyRequest)
       || sortedArraysEqual (default [] (ksc_sessionIds <$> existingKeyRequest)) missingSessionIds
    then js_return
    else
      let knownSessionIds := default [] (an_getInboundGroupSessionIds an streamId) in
      let isNewDevice := (length knownSessionIds =? 0)%nat in
      js_emit true (SendKeySolicitation streamId isNewDevice missingSessionIds);;
      js_lift (an_sendKeySolicitation an).

(** The sessions that are exported, in order. *)
Fixpoint export_sessions (streamId : string) (sessionIds : list string) : result (list GroupEncryptionSession) :=
  match sessionIds with
  | [] => mret []
  | sessionId :: rest =>
      groupSession ← an_exportInboundGroupSession an streamId sessionId;
      sessions ← export_sessions streamId rest;
      mret (match groupSession with Some g => g :: sessions | None => sessions end)
  end.

Definition replySessionIds (item : KeySolicitationItem) : list string :=
  let knownSessionIds := sort_strings (default [] (an_getInboundGroupSessionIds an (ks_streamId item))) in
  if ksc_isNewDevice (ks_solicitation item) then knownSessionIds
  else filter (fun x => x ∈ ksc_sessionIds (ks_solicitation item)) knownSessionIds.

Definition processKeySolicitation (item : KeySolicitationItem) : DM unit :=
  let streamId := ks_streamId item in
  js_check (an_hasStream an streamId) "stream not found";;
  let reply := replySessionIds item in
  if (length reply =? 0)%nat then js_return
  else
    isEntitled ← js_lift (an_isUserEntitledToKeyExchange an streamId (ks_fromUserId item) false);
    if negb isEntitled then js_return
    else
      sessions ← js_lift (export_sessions streamId reply);
      if (length sessions =? 0)%nat then js_return
      else
        js_emit true (SendKeyFulfillment streamId (ks_fromUserAddress item) (ksc_deviceKey (ks_solicitation item))
          (if ksc_isNewDevice (ks_solicitation item) then [] else map gs_sessionId sessions));;
        js_lift (an_sendKeyFulfillment an);;
        js_emit true (EncryptAndShareGroupSessions streamId item sessions);;
        js_lift (an_encryptAndShareGroupSessions an).

Definition run_job (j : Job) : DM unit :=
  match j with
  | RunPriorityTask _ => js_lift (an_priorityTask an)
  | ProcessNewGroupSession session ciphertext => processNewGroupSession session ciphertext
  | ProcessEncryptedContentItem item => processEncryptedContentItem item
  | ProcessDecryptionRetry item => processDecryptionRetry item
  | ProcessMissingKeys streamId missingSessionIds => processMissingKeys streamId missingSessionIds
  | ProcessKeySolicitation item => processKeySolicitation item
  | NoJob => js_return
  end.

(** The rest of the tick, and the [catch] and [finally] of the timer. *)
Definition finish_job (j : Job) : DM unit :=
  js_try (run_job j) (fun _ => js_return);;
  js_modify (set_job None);;
  js_modify (fun s => set_timer false (armed s) s);;
  checkStartTicking.
End Jobs.

(** ** Runs *)

Inductive event :=
| NewGroupSessions (sessions : GroupEncryptionSessions)
| NewEncryptedContent (streamId eventId kind : string) (encryptedData : EncryptedData)
| NewKeySolicitation (now : Z) (delay : result Z) (streamId fromUserId : string) (fromUserAddress : bytes)
    (keySolicitation : KeySolicitationContent)
| StreamUpToDate (streamId : string)
| HighPriorityStreams (streamIds : list string)
| MembershipChange (now : Z) (streamId : string)
| Visibility (hidden : bool)
| Start
| Stop
| TimerFires (now : Z) (hasStream : string -> bool)
| JobAnswered (an : answers) (now : Z).

Definition enabled (s : t) (e : event) : Prop :=
  match e with
  | TimerFires _ _ => armed s = true
  | JobAnswered _ _ => is_Some (job s)
  | _ => True
  end.

Section Runs.
Context `{Externals}.

Definition handle (e : event) : DM unit :=
  match e with
  | NewGroupSessions sessions => enqueueNewGroupSessions sessions
  | NewEncryptedContent streamId eventId kind encryptedData => enqueueNewEncryptedContent streamId eventId kind encryptedData
  | NewKeySolicitation now delay streamId fromUserId fromUserAddress ks =>
      enqueueKeySolicitation now delay streamId fromUserId fromUserAddress ks
  | StreamUpToDate streamId => setStreamUpToDate streamId
  | HighPriorityStreams streamIds => setHighPriorityStreams streamIds
  | MembershipChange now streamId => retryDecryptionFailures now streamId
  | Visibility hidden => mobileSafariPageVisibilityChanged hidden
  | Start => start
  | Stop => stop
  | TimerFires now hasStream => tick now hasStream
  | JobAnswered an now =>
      self ← js_get;
      match job self with
      | Some j => finish_job an now j
      | None => js_return
      end
  end.

Definition after (e : event) (s : t) : t := post (handle e s).

Inductive runs (s0 : t) : list event -> t -> Prop :=
| runs_nil : runs s0 [] s0
| runs_snoc es s e : runs s0 es s -> enabled s e -> runs s0 (es ++ [e]) (after e s).
End Runs.
