(* ===== verification/Decryption.v ===== *)
(** * What the decryption extensions guarantee

    No encrypted content is lost or processed twice, imported keys bring back what
    failed for want of them, requests for keys and the answers to them, and [stop]. *)

From S2P Require Import Prelude Proto Externals ToyExternals Binary StreamId Types SdkUtils.
From S2P Require Import DecryptionQueues DecryptionExtensions.

(** ** The values of a map, put together *)

Section Flatten.
Context {V A : Type} (g : V -> list A).
Implicit Types m : gmap string V.

Definition flatten m : list A := flat_map (fun kv => g kv.2) (map_to_list m).

Lemma flatten_empty : flatten ∅ = [].
Proof. unfold flatten. by rewrite map_to_list_empty. Qed.

Lemma flatten_insert m k v : m !! k = None -> flatten (<[k := v]> m) ≡ₚ g v ++ flatten m.
Proof. intros Hk. unfold flatten. by rewrite (map_to_list_insert m k v Hk). Qed.

Lemma flatten_lookup m k v : m !! k = Some v -> flatten m ≡ₚ g v ++ flatten (delete k m).
Proof. intros Hk. rewrite <-(insert_delete_id m k v Hk) at 1. by rewrite flatten_insert by apply lookup_delete_eq. Qed.

Lemma flatten_update m k v : flatten (<[k := v]> m) ≡ₚ g v ++ flatten (delete k m).
Proof. rewrite <-insert_delete_eq. by rewrite flatten_insert by apply lookup_delete_eq. Qed.

Lemma elem_of_flatten x m : x ∈ flatten m <-> exists k v, m !! k = Some v /\ x ∈ g v.
Proof.
  unfold flatten. rewrite list_elem_of_In, in_flat_map. split.
  - intros ([k v] & Hin & Hx). apply list_elem_of_In, elem_of_map_to_list in Hin. exists k, v. by rewrite list_elem_of_In.
  - intros (k & v & Hk & Hx). exists (k, v). split; [by apply list_elem_of_In, elem_of_map_to_list|by apply list_elem_of_In].
Qed.
End Flatten.

(** ** Where encrypted content is *)

Definition failure_items (f : failures) : list EncryptedContentItem := flatten (flatten id) f.

Definition job_items (j : option Job) : list EncryptedContentItem :=
  match j with
  | Some (ProcessEncryptedContentItem item) => [item]
  | Some (ProcessDecryptionRetry item) => [ri_event item]
  | _ => []
  end.

(** The queue of new content, the retries, the failures, and the running tick. *)
Definition items (s : t) : list EncryptedContentItem :=
  encryptedContent (qs s) ++ map ri_event (decryptionRetries (qs s)) ++ failure_items (decryptionFailures s)
  ++ job_items (job s).

Lemma failure_items_stream f streamId m m' :
  f !! streamId = Some m -> failure_items f ≡ₚ flatten id m ++ failure_items (delete streamId f)
  /\ failure_items (<[streamId := m']> f) ≡ₚ flatten id m' ++ failure_items (delete streamId f).
Proof. intros Hm. unfold failure_items. by rewrite flatten_update, (flatten_lookup (flatten id) f streamId m Hm) at 1. Qed.

(** A new failure is one more item, unless the object is there already. *)
Lemma add_failure_items item f :
  ci_ref item ∉ map ci_ref (failure_items f) -> failure_items (add_failure item f) ≡ₚ item :: failure_items f.
Proof.
  intros Hn. unfold add_failure. set (sid := ci_streamId item). set (ses := ed_sessionId (ci_encryptedData item)).
  destruct (f !! sid) as [m|] eqn:Hm.
  - destruct (m !! ses) as [l|] eqn:Hl.
    + assert (Hall : forall x, x ∈ l -> x ∈ failure_items f).
      { intros x Hx. apply elem_of_flatten. exists sid, m. split; [done|]. apply elem_of_flatten. by exists ses, l. }
      destruct (existsb _ l) eqn:He.
      * apply existsb_exists in He as (x & Hx & Heq%Nat.eqb_eq). exfalso. apply Hn. rewrite <-Heq.
        apply list_elem_of_fmap. exists x. split; [done|]. apply Hall. by apply list_elem_of_In.
      * destruct (failure_items_stream f sid m (<[ses := l ++ [item]]> m) Hm) as [-> ->].
        rewrite (flatten_update id), (flatten_lookup id m ses l Hl). unfold id at 1 3. rewrite <-!app_assoc.
        by rewrite Permutation_middle.
    + destruct (failure_items_stream f sid m (<[ses := [item]]> m) Hm) as [-> ->].
      by rewrite (flatten_insert id m ses [item] Hl).
  - unfold failure_items. rewrite (flatten_insert (flatten id) f sid _ Hm). unfold flatten at 1.
    by rewrite map_to_list_singleton.
Qed.

(** Content outside the running tick. *)
Definition queued (s : t) : list EncryptedContentItem :=
  encryptedContent (qs s) ++ map ri_event (decryptionRetries (qs s)) ++ failure_items (decryptionFailures s).

Lemma items_queued s : items s = queued s ++ job_items (job s).
Proof. unfold items, queued. by rewrite <-!app_assoc. Qed.

Section Steps.
Context `{Externals}.

(** What most steps leave alone: the content that waits, the counter of objects, the
    running tick and the timer. *)
Record still (s0 s : t) : Prop := {
  st_queued : queued s ≡ₚ queued s0;
  st_refs : refs s = refs s0;
  st_job : job s = job s0;
  st_timer : timeoutId s = timeoutId s0 /\ armed s = armed s0 /\ onStopFn s = onStopFn s0;
}.

Lemma still_refl s : still s s.
Proof. by split. Qed.

Lemma still_modify s0 f : (forall s, queued (f s) = queued s /\ refs (f s) = refs s /\ job (f s) = job s
  /\ timeoutId (f s) = timeoutId s /\ armed (f s) = armed s /\ onStopFn (f s) = onStopFn s) ->
  preserves (still s0) (js_modify f : DM unit).
Proof.
  intros Hf. apply preserves_modify. intros s [Hq Hr Hj (Ht & Ha & Ho)]. destruct (Hf s) as (E1 & E2 & E3 & E4 & E5 & E6).
  split; rewrite ?E1, ?E2, ?E3, ?E4, ?E5, ?E6; done.
Qed.

Lemma still_setStatus s0 status : preserves (still s0) (setStatus status).
Proof.
  unfold setStatus. apply preserves_bind; [apply preserves_get|]. intros self. apply preserves_when. intros _.
  apply preserves_bind; [by apply still_modify|]. intros []. apply preserves_emit.
Qed.

Lemma still_dropMissingKeys s0 streamId : preserves (still s0) (dropMissingKeys streamId).
Proof. by apply still_modify. Qed.

Lemma still_enqueueMissingKeys s0 streamId w : preserves (still s0) (enqueueMissingKeys streamId w).
Proof. by apply still_modify. Qed.

(** Moving the failures of a session back to the queue. *)
Lemma still_requeue s0 streamId session : preserves (still s0) (requeue_failures streamId session).
Proof.
  unfold requeue_failures. apply preserves_get_bind. intros s [Hq Hr Hj Ht].
  destruct (failures_of s streamId !! gs_sessionId session) as [l|] eqn:Hl; [|by split].
  js_unfold. split; cbn; try done. rewrite <-Hq. unfold queued. cbn.
  unfold failures_of in Hl. destruct (decryptionFailures s !! streamId) as [m|] eqn:Hm; [|cbn in Hl; by rewrite lookup_empty in Hl].
  cbn in Hl |- *. rewrite ?Hm. cbn.
  destruct (failure_items_stream (decryptionFailures s) streamId m (delete (gs_sessionId session) m) Hm) as [-> ->].
  rewrite (flatten_lookup id m _ l Hl). unfold id at 2. solve_Permutation.
Qed.

Lemma still_for s0 {A} (xs : list A) (f : A -> DM unit) :
  (forall x, preserves (still s0) (f x)) -> preserves (still s0) (js_for xs f).
Proof. intros Hf. apply preserves_for. auto. Qed.

(** The job is over with the item: it is decrypted, or a retry failed for another
    reason than a missing session. *)
Definition finished (an : answers) (j : Job) (item : EncryptedContentItem) : Prop :=
  match j with
  | ProcessEncryptedContentItem i => i = item /\ an_decryptGroupEvent an i = Ok tt
  | ProcessDecryptionRetry r =>
      ri_event r = item
      /\ (an_decryptGroupEvent an item = Ok tt
          \/ exists err, an_decryptGroupEvent an item = Throw err /\ isSessionNotFoundError err = false)
  | _ => False
  end.

(** A step that moves content from the tick to the queues, or is done with it. *)
Definition hands_over (an : answers) (j : Job) (s s' : t) : Prop :=
  refs s' = refs s /\ job s' = job s
  /\ (timeoutId s' = timeoutId s /\ armed s' = armed s /\ onStopFn s' = onStopFn s)
  /\ exists d, queued s' ++ d ≡ₚ queued s ++ job_items (Some j) /\ Forall (finished an j) d.

Lemma still_hands_over an j s s' : still s s' -> job_items (Some j) = [] -> hands_over an j s s'.
Proof.
  intros [Hq Hr Hj Ht] Hn. split_and!; try done; try apply Ht. exists []. rewrite Hn, !app_nil_r. by split.
Qed.

Lemma still_processNewGroupSession an session ciphertext s0 :
  preserves (still s0) (processNewGroupSession an session ciphertext).
Proof.
  unfold processNewGroupSession. destruct (_ =? 0)%nat; [apply preserves_return|].
  apply preserves_bind; [apply preserves_lift|]. intros keys. apply preserves_bind; [apply preserves_lift|]. intros [].
  apply preserves_bind; [apply preserves_emit|]. intros []. apply preserves_bind; [apply preserves_lift|]. intros [].
  apply preserves_bind; [apply still_for; intros; apply still_requeue|]. intros [].
  apply preserves_bind; [apply preserves_get|]. intros self. apply preserves_when. intros _.
  apply preserves_bind; [apply preserves_emit|]. intros []. apply preserves_lift.
Qed.

Lemma still_processMissingKeys an streamId ids s0 : preserves (still s0) (processMissingKeys an streamId ids).
Proof.
  unfold processMissingKeys. apply preserves_bind; [apply preserves_get|]. intros self.
  apply preserves_bind; [apply preserves_lift|]. intros b. destruct (negb b); [apply preserves_return|].
  destruct (_ || _); [apply preserves_return|].
  apply preserves_bind; [apply preserves_emit|]. intros []. apply preserves_lift.
Qed.

Lemma still_processKeySolicitation an item s0 : preserves (still s0) (processKeySolicitation an item).
Proof.
  unfold processKeySolicitation. apply preserves_bind; [apply preserves_lift|]. intros [].
  destruct (_ =? 0)%nat; [apply preserves_return|].
  apply preserves_bind; [apply preserves_lift|]. intros b. destruct (negb b); [apply preserves_return|].
  apply preserves_bind; [apply preserves_lift|]. intros sessions. destruct (_ =? 0)%nat; [apply preserves_return|].
  repeat (apply preserves_bind; [first [apply preserves_emit|apply preserves_lift]|intros []]). apply preserves_lift.
Qed.

Lemma run_job_hands_over an now j s :
  (forall item, item ∈ job_items (Some j) -> ci_ref item ∉ map ci_ref (failure_items (decryptionFailures s))) ->
  hands_over an j s (post (run_job an now j s)).
Proof.
  intros Hn. destruct j as [task|session c|item|ritem|sid ids|item|]; cbn [run_job].
  - by apply still_hands_over.
  - apply still_hands_over; [|done]. apply still_processNewGroupSession, still_refl.
  - unfold processEncryptedContentItem. destruct (an_decryptGroupEvent an item) as [[]|err] eqn:Hd; js_unfold.
    + split_and!; try done. exists [item]. split; [done|]. by repeat constructor.
    + split_and!; try done. exists []. split; [|done]. unfold queued. cbn. rewrite insertSorted_perm. cbn. solve_Permutation.
  - unfold processDecryptionRetry. destruct (an_decryptGroupEvent an (ri_event ritem)) as [[]|err] eqn:Hd.
    + split_and!; try done. exists [ri_event ritem]. split; [done|]. constructor; [|done]. split; auto.
    + destruct (isSessionNotFoundError err) eqn:He; unfold dropMissingKeys, enqueueMissingKeys; js_unfold.
      * split_and!; try done. exists []. split; [|done]. unfold queued. cbn.
        rewrite add_failure_items by (apply Hn; left). solve_Permutation.
      * split_and!; try done. exists [ri_event ritem]. split; [done|]. constructor; [|done]. split; eauto.
  - apply still_hands_over; [|done]. apply still_processMissingKeys, still_refl.
  - apply still_hands_over; [|done]. apply still_processKeySolicitation, still_refl.
  - by apply still_hands_over.
Qed.

(** ** The invariant *)

(** A timer is set only when no tick runs, and while a tick runs the field is set,
    unless [stop] was called. *)
Definition timer_wf (s : t) : Prop :=
  (armed s = true -> timeoutId s = true /\ job s = None)
  /\ (is_Some (job s) -> onStopFn s = true -> timeoutId s = true).

Record ok (s : t) : Prop := {
  ok_NoDup : NoDup (map ci_ref (items s));
  ok_refs : Forall (fun i => (ci_ref i < refs s)%nat) (items s);
  ok_timer : timer_wf s;
}.

(** Steps that move no content. *)
Record quiet (s0 s : t) : Prop := {
  qu_queued : queued s ≡ₚ queued s0;
  qu_refs : refs s = refs s0;
  qu_job : job s = job s0;
  qu_timer : timer_wf s;
}.

Lemma quiet_checkStartTicking s0 : preserves (quiet s0) checkStartTicking.
Proof.
  apply preserves_get_bind. intros s [Hq Hr Hj Ht]. destruct (_ || paused s) eqn:Hc; [by split|].
  apply orb_false_iff in Hc as [Hc _]. apply orb_false_iff in Hc as [Hc _]. apply orb_false_iff in Hc as [Hc Ho].
  apply orb_false_iff in Hc as [_ Hto]. apply negb_false_iff in Ho. destruct (queues_empty (qs s)).
  - unfold setStatus. js_unfold. by destruct (negb _); split.
  - js_unfold. split; cbn; try done. split; [|done]. intros _. split; [done|]. destruct Ht as [_ Ht]. cbn. destruct (job s); [|done].
    rewrite Ht in Hto; [done|by eexists|done].
Qed.

Lemma quiet_modify s0 f : (forall s, queued (f s) = queued s /\ refs (f s) = refs s /\ job (f s) = job s
  /\ timeoutId (f s) = timeoutId s /\ armed (f s) = armed s /\ onStopFn (f s) = onStopFn s) ->
  preserves (quiet s0) (js_modify f : DM unit).
Proof.
  intros Hf. apply preserves_modify. intros s [Hq Hr Hj Ht]. destruct (Hf s) as (E1 & E2 & E3 & E4 & E5 & E6).
  split; unfold timer_wf; rewrite ?E1, ?E2, ?E3, ?E4, ?E5, ?E6; done.
Qed.

Lemma quiet_then_check s0 f : (forall s, queued (f s) = queued s /\ refs (f s) = refs s /\ job (f s) = job s
  /\ timeoutId (f s) = timeoutId s /\ armed (f s) = armed s /\ onStopFn (f s) = onStopFn s) ->
  preserves (quiet s0) (js_modify f ≫= (fun _ => checkStartTicking) : DM unit).
Proof. intros Hf. apply preserves_bind; [by apply quiet_modify|]. intros _. apply quiet_checkStartTicking. Qed.

(** The events that neither bring content nor belong to a tick. *)
Definition moves_content (e : event) : bool :=
  match e with
  | NewEncryptedContent _ _ _ _ | TimerFires _ _ | JobAnswered _ _ => true
  | _ => false
  end.

Lemma quiet_event e s0 : moves_content e = false -> preserves (quiet s0) (handle e).
Proof.
  destruct e; intros Hm; try discriminate Hm; cbn [handle].
  - by apply quiet_then_check.
  - unfold enqueueKeySolicitation. apply preserves_bind; [apply preserves_get|]. intros self.
    destruct (String.eqb _ _); [apply preserves_return|].
    apply preserves_bind; [by apply quiet_modify|]. intros _. apply preserves_when. intros _.
    apply preserves_bind; [apply preserves_lift|]. intros d. by apply quiet_then_check.
  - by apply quiet_then_check.
  - by apply quiet_modify.
  - unfold retryDecryptionFailures, dropMissingKeys, enqueueMissingKeys. apply preserves_bind; [by apply quiet_modify|]. intros _.
    apply preserves_bind; [apply preserves_get|]. intros self. apply preserves_when. intros _. by apply quiet_then_check.
  - unfold mobileSafariPageVisibilityChanged. apply preserves_bind; [by apply quiet_modify|]. intros _.
    apply preserves_when. intros _. apply quiet_checkStartTicking.
  - unfold start. apply preserves_bind; [apply preserves_get|]. intros self. apply preserves_bind; [apply preserves_lift|].
    intros _. apply preserves_bind; [by apply quiet_modify|]. intros _. by apply quiet_then_check.
  - intros s [Hq Hr Hj [Ht1 _]]. unfold stop. js_unfold. cbn. destruct (timeoutId s) eqn:Hto; cbn; split; try done.
    split; [cbn; rewrite Hto; exact Ht1|done].
Qed.

(** ** Content through a step *)

(** The content that is new, and the content a step is done with. *)
Definition arrives (e : event) (s : t) : list EncryptedContentItem :=
  match e with
  | NewEncryptedContent streamId eventId kind data => [mkContentItem (refs s) streamId eventId kind data]
  | _ => []
  end.

Definition leaves (e : event) (s : t) (item : EncryptedContentItem) : Prop :=
  match e with
  | JobAnswered an _ => match job s with Some j => finished an j item | None => False end
  | _ => False
  end.

Definition steps_to (e : event) (s s' : t) : Prop :=
  (exists d, items s' ++ d ≡ₚ arrives e s ++ items s /\ Forall (leaves e s) d)
  /\ (refs s' = refs s + length (arrives e s))%nat /\ timer_wf s'.

Lemma quiet_steps_to e s s' : moves_content e = false -> quiet s s' -> steps_to e s s'.
Proof.
  intros Hm [Hq Hr Hj Ht]. assert (Ha : arrives e s = []) by (by destruct e). unfold steps_to. rewrite Ha. cbn.
  split_and!; [|lia|exact Ht]. exists []. rewrite app_nil_r, !items_queued, Hj, Hq. by split.
Qed.

Lemma content_arrives streamId eventId kind data s :
  ok s -> steps_to (NewEncryptedContent streamId eventId kind data) s (after (NewEncryptedContent streamId eventId kind data) s).
Proof.
  intros [_ _ Ht]. unfold after. cbn [handle]. unfold enqueueNewEncryptedContent.
  set (item := mkContentItem (refs s) streamId eventId kind data).
  set (s1 := set_refs (S (refs s)) (set_qs (set_encryptedContent (fun q => q ++ [item])) s)).
  assert (Hq : quiet s1 (post (checkStartTicking s1))) by (apply quiet_checkStartTicking; by split).
  match goal with |- steps_to _ _ (post ?m) => replace (post m) with (post (checkStartTicking s1)) end.
  2: { js_unfold. fold item. fold s1. by destruct (checkStartTicking s1). }
  destruct Hq as [Hq Hr Hj Ht']. split_and!; [|rewrite Hr; cbn; lia|exact Ht'].
  exists []. split; [|done]. rewrite app_nil_r, !items_queued, Hj, Hq. unfold queued. cbn. solve_Permutation.
Qed.

Lemma setStatus_run status s : exists w, setStatus status s = Outcome (Ok tt) (set_status status s) w.
Proof.
  unfold setStatus. js_unfold. destruct (bool_decide _) eqn:Hb; cbn; eexists; [|done].
  apply bool_decide_eq_true in Hb. rewrite <-Hb. by destruct s.
Qed.

Lemma begin_job_run status j s :
  exists w, begin_job status j s = Outcome (Ok tt) (set_job (Some j) (set_status status s)) w.
Proof. unfold begin_job. destruct (setStatus_run status s) as [w Hw]. js_unfold. rewrite Hw. by eexists. Qed.

Lemma take_run f status j s :
  post ((js_modify (set_qs f);; begin_job status j) s) = set_job (Some j) (set_status status (set_qs f s)).
Proof. destruct (begin_job_run status j (set_qs f s)) as [w Hw]. js_unfold. by rewrite Hw. Qed.

Lemma take_emit_run f status j o s :
  post ((js_modify (set_qs f);; begin_job status j;; js_emit true o) s) = set_job (Some j) (set_status status (set_qs f s)).
Proof. destruct (begin_job_run status j (set_qs f s)) as [w Hw]. js_unfold. by rewrite Hw. Qed.

Lemma modify_get_run {A} (g : t -> t) (k : t -> DM A) s :
  post ((js_modify g;; js_get ≫= k) s) = post (k (g s) (g s)).
Proof. js_unfold. by destruct (k (g s) (g s)). Qed.

(** A tick that starts: what it takes out of the queues is what it runs. *)
Lemma tick_post now hasStream s : exists f j v,
  post (tick now hasStream s) = set_job (Some j) (set_status v (set_qs f (set_timer (timeoutId s) false s)))
  /\ queued (set_qs f s) ++ job_items (Some j) ≡ₚ queued s.
Proof.
  unfold tick. rewrite modify_get_run. set (s0 := set_timer (timeoutId s) false s).
  change (qs s0) with (qs s). change (highPriorityStreams s0) with (highPriorityStreams s).
  change (upToDateStreams s0) with (upToDateStreams s).
  destruct (priorityTasks (qs s)) as [|task rest].
  2: { rewrite take_emit_run. eexists _, _, _. split; [done|]. by rewrite app_nil_r. }
  destruct (newGroupSession (qs s)) as [|session rest].
  2: { rewrite take_run. eexists _, _, _. split; [done|]. unfold begin_processNewGroupSession.
       destruct (truthy_str _); by rewrite app_nil_r. }
  destruct (dequeueHighPriority _ _ _) as [[item|] rest] eqn:Hc.
  { rewrite take_emit_run. eexists _, _, _. split; [done|]. apply dequeueHighPriority_perm in Hc.
    unfold queued. cbn. rewrite Hc. solve_Permutation. }
  destruct (dequeueUpToDate ri_streamId _ _ _ _) as [[item|] rest1] eqn:Hr.
  { rewrite take_emit_run. eexists _, _, _. split; [done|]. apply dequeueUpToDate_perm in Hr as [Hr _].
    unfold queued. cbn. rewrite Hr. cbn. solve_Permutation. }
  destruct (dequeueUpToDate mk_streamId _ _ _ _) as [[item|] rest2].
  { rewrite take_run. eexists _, _, _. split; [done|]. unfold begin_processMissingKeys.
    repeat case_match; by rewrite app_nil_r. }
  destruct (dequeueUpToDate ks_streamId _ _ _ _) as [[item|] rest3].
  { rewrite take_run. eexists _, _, _. split; [done|]. by rewrite app_nil_r. }
  destruct (begin_job_run idle NoJob s0) as [w ->]. exists id, NoJob, idle. split; [by destruct s|].
  rewrite app_nil_r. by destruct s.
Qed.

Lemma tick_steps_to now hasStream s :
  ok s -> armed s = true -> steps_to (TimerFires now hasStream) s (after (TimerFires now hasStream) s).
Proof.
  intros [_ _ [Ht1 Ht2]] Ha. destruct (Ht1 Ha) as [Hto Hnone]. unfold after. cbn [handle].
  destruct (tick_post now hasStream s) as (f & j & v & -> & Hq). split_and!; cbn; [|lia|].
  - exists []. split; [|done]. rewrite app_nil_r, !items_queued, Hnone. cbn. rewrite app_nil_r. exact Hq.
  - split; cbn; [done|]. by rewrite Hto.
Qed.

Lemma answer_steps_to an now s :
  ok s -> is_Some (job s) -> steps_to (JobAnswered an now) s (after (JobAnswered an now) s).
Proof.
  intros [Hnd _ [Ht1 Ht2]] [j Hj]. unfold after. cbn [handle].
  assert (Harm : armed s = false).
  { destruct (armed s); [|done]. destruct Ht1 as [_ Hn]; [done|]. by rewrite Hj in Hn. }
  set (s1 := post (run_job an now j s)). set (s2 := set_timer false (armed s1) (set_job None s1)).
  match goal with |- steps_to _ _ (post ?m) => replace (post m) with (post (checkStartTicking s2)) end.
  2: { unfold finish_job. js_unfold. rewrite Hj. unfold js_try. unfold s2, s1. destruct (run_job an now j s) as [[[]|e] s' w]; cbn;
       match goal with |- context [checkStartTicking ?x] => by destruct (checkStartTicking x) end. }
  assert (Hover : hands_over an j s s1).
  { apply run_job_hands_over. intros item Hi Hf. rewrite items_queued, Hj in Hnd.
    unfold queued in Hnd. rewrite !map_app in Hnd.
    apply NoDup_app in Hnd as (_ & Hdis & _). apply (Hdis (ci_ref item)); [set_solver|].
    apply list_elem_of_fmap. eauto. }
  destruct Hover as (Hr & _ & (_ & Ha & _) & d & Hd & Hfin).
  assert (Hquiet : quiet s2 (post (checkStartTicking s2))).
  { apply quiet_checkStartTicking. split; try done. split; cbn; [by rewrite Ha, Harm|]. by intros []. }
  destruct Hquiet as [Hq Hr' Hj' Ht']. split_and!; [|rewrite Hr'; cbn; rewrite Hr; lia|exact Ht'].
  exists d. split; [|unfold leaves; rewrite Hj; done].
  rewrite !items_queued, Hj', Hq, Hj. cbn [job s2 set_timer set_job job_items arrives app]. rewrite app_nil_r. exact Hd.
Qed.

Lemma event_steps_to e s : ok s -> enabled s e -> steps_to e s (after e s).
Proof.
  intros Hok Hen. destruct (moves_content e) eqn:Hm.
  - destruct e; try discriminate Hm; [by apply content_arrives|by apply tick_steps_to|by apply answer_steps_to].
  - apply quiet_steps_to; [done|]. apply (quiet_event e s Hm). destruct Hok. by split.
Qed.

Lemma arrives_refs e s i : i ∈ arrives e s -> ci_ref i = refs s /\ length (arrives e s) = 1%nat.
Proof. destruct e; cbn; set_solver. Qed.

Lemma arrives_NoDup e s : NoDup (map ci_ref (arrives e s)).
Proof. destruct e; cbn; (apply NoDup_nil_2 || apply NoDup_singleton). Qed.

Lemma ok_step e s : ok s -> enabled s e -> ok (after e s).
Proof.
  intros Hok Hen. destruct (event_steps_to e s Hok Hen) as ((d & Hp & _) & Hr & Ht).
  destruct Hok as [Hnd Hlt _]. split; [| |exact Ht].
  - assert (Hall : NoDup (map ci_ref (items (after e s) ++ d))).
    { rewrite Hp, map_app. apply NoDup_app. split_and!; [apply arrives_NoDup| |done].
      intros x Hx Hy. apply list_elem_of_fmap in Hx as (i & -> & Hi). apply list_elem_of_fmap in Hy as (k & Heq & Hk).
      apply arrives_refs in Hi as [Hi _]. rewrite Forall_forall in Hlt. specialize (Hlt k Hk). lia. }
    rewrite map_app in Hall. by apply NoDup_app in Hall as [? _].
  - apply Forall_forall. intros i Hi. rewrite Hr.
    assert (Hin : i ∈ arrives e s ++ items s) by (rewrite <-Hp; set_solver).
    apply elem_of_app in Hin as [Ha|Ha]; [apply arrives_refs in Ha as [? ?]; lia|].
    rewrite Forall_forall in Hlt. specialize (Hlt i Ha). lia.
Qed.

Lemma ok_new dk uid inbox up : ok (new dk uid inbox up).
Proof.
  assert (Hi : items (new dk uid inbox up) = []).
  { unfold items. cbn. unfold failure_items. by rewrite flatten_empty. }
  split; [rewrite Hi; apply NoDup_nil_2|by rewrite Hi|]. split; cbn; [done|]. by intros [].
Qed.

Lemma runs_ok dk uid inbox up es s : runs (new dk uid inbox up) es s -> ok s.
Proof. induction 1 as [|es s e _ IH He]; [apply ok_new|by apply ok_step]. Qed.

(** ** After [stop] *)

Definition halted (s : t) : Prop := onStopFn s = false /\ armed s = false.

Lemma halted_modify (f : t -> t) :
  (forall s, onStopFn (f s) = false \/ onStopFn (f s) = onStopFn s) ->
  (forall s, armed (f s) = false \/ armed (f s) = armed s) -> preserves halted (js_modify f : DM unit).
Proof.
  intros Ho Ha. apply preserves_modify. intros s [H1 H2]. split.
  - destruct (Ho s) as [->| ->]; done.
  - destruct (Ha s) as [->| ->]; done.
Qed.

Lemma halted_checkStartTicking : preserves halted checkStartTicking.
Proof.
  apply preserves_get_bind. intros s [Ho Ha]. rewrite Ho. cbn [negb]. rewrite orb_true_r, !orb_true_l. by split.
Qed.

(** Go through a method: every assignment leaves the fields alone. *)
Ltac keeps_halted :=
  repeat first
    [ apply halted_checkStartTicking
    | apply halted_modify; intros; first [by left|by right]
    | apply preserves_get | apply preserves_lift | apply preserves_emit | apply preserves_return
    | apply preserves_when; intros _ | apply preserves_try; [|intros ?] | apply preserves_for; intros ? ?
    | apply preserves_bind; [|intros ?] | case_match ].

Lemma halted_event e : preserves halted (handle e).
Proof.
  destruct e as [| | | | | | | | |now hs|an now]; cbn [handle];
    unfold enqueueNewGroupSessions, enqueueNewEncryptedContent, enqueueKeySolicitation, setStreamUpToDate,
      setHighPriorityStreams, retryDecryptionFailures, dropMissingKeys, enqueueMissingKeys,
      mobileSafariPageVisibilityChanged, start, stop, tick, begin_job, setStatus, finish_job; keeps_halted;
    unfold run_job, processNewGroupSession, processEncryptedContentItem, processDecryptionRetry, processMissingKeys,
      processKeySolicitation, requeue_failures, dropMissingKeys, enqueueMissingKeys; keeps_halted.
Qed.

(** ** Keys *)

Lemma export_sessions_Ok an streamId ids sessions :
  export_sessions an streamId ids = Ok sessions ->
  forall g, g ∈ sessions -> exists id, id ∈ ids /\ an_exportInboundGroupSession an streamId id = Ok (Some g).
Proof.
  revert sessions. induction ids as [|id ids IH]; cbn; intros sessions Hx g Hg; [injection Hx as <-; set_solver|].
  apply result_bind_Ok in Hx as (o & Ho & Hx). apply result_bind_Ok in Hx as (rest & Hr & [= <-]).
  destruct o as [g'|]; [apply elem_of_cons in Hg as [->|Hg]; [exists id; split; [left|done]|]|];
    destruct (IH rest Hr g Hg) as (id' & ? & ?); exists id'; (split; [by right|done]).
Qed.

Lemma replySessionIds_spec an item id : id ∈ replySessionIds an item <->
  id ∈ default [] (an_getInboundGroupSessionIds an (ks_streamId item))
  /\ (ksc_isNewDevice (ks_solicitation item) = true \/ id ∈ ksc_sessionIds (ks_solicitation item)).
Proof.
  unfold replySessionIds, sort_strings. destruct (ksc_isNewDevice _).
  - rewrite js_sort_elem. naive_solver.
  - rewrite list_elem_of_filter, js_sort_elem. naive_solver.
Qed.

Lemma get_bind_run {A} (k : t -> DM A) s : (js_get ≫= k) s = k s s.
Proof. js_unfold. by destruct (k s s). Qed.

Lemma bind_lift {A B} (r : result A) (k : A -> DM B) s :
  (js_lift r ≫= k) s = match r with Ok a => k a s | Throw e => Outcome (Throw e) s [] end.
Proof. js_unfold. destruct r as [a|]; [|done]. by destruct (k a s). Qed.

Lemma bind_emit {B} (o : out) (k : unit -> DM B) s :
  (js_emit true o ≫= k) s = Outcome (res (k tt s)) (post (k tt s)) (o :: emits (k tt s)).
Proof. js_unfold. by destruct (k tt s). Qed.

Lemma Sorted_take {A} (R : A -> A -> Prop) n l : Sorted R l -> Sorted R (take n l).
Proof.
  intros Hs. revert n. induction Hs as [|a l Hs IH Hhd]; intros [|n]; cbn; try constructor; [done|].
  destruct Hhd; destruct n; cbn; constructor. done.
Qed.

Lemma NoDup_take {A} n (l : list A) : NoDup l -> NoDup (take n l).
Proof. intros Hnd. rewrite <-(take_drop n l) in Hnd. by apply NoDup_app in Hnd as [? _]. Qed.

(** One imported session. *)
Lemma requeue_step streamId session s :
  let s' := post (requeue_failures streamId session s) in
  res (requeue_failures streamId session s) = Ok tt
  /\ encryptedContent (qs s') = encryptedContent (qs s) ++ default [] (failures_of s streamId !! gs_sessionId session)
  /\ (forall sid id, failures_of s' sid !! id
       = if decide (sid = streamId /\ id = gs_sessionId session) then None else failures_of s sid !! id).
Proof.
  cbn zeta. unfold requeue_failures. js_unfold.
  destruct (failures_of s streamId !! gs_sessionId session) as [l|] eqn:Hl; cbn.
  - split_and!; [done|done|]. intros sid id. unfold failures_of. cbn. destruct (decide (sid = streamId)) as [->|Hne].
    + rewrite lookup_insert_eq. cbn. case_decide as Hd; [destruct Hd as [_ ->]; apply lookup_delete_eq|].
      apply lookup_delete_ne. naive_solver.
    + rewrite lookup_insert_ne by done. rewrite decide_False by naive_solver. done.
  - split_and!; [done|by rewrite app_nil_r|]. intros sid id. case_decide as Hd; [|done]. destruct Hd as [-> ->]. done.
Qed.

(** All of them. *)
Lemma requeue_all streamId sessions s :
  let s' := post (js_for sessions (requeue_failures streamId) s) in
  let ids := map gs_sessionId sessions in
  res (js_for sessions (requeue_failures streamId) s) = Ok tt
  /\ (exists l, encryptedContent (qs s') = encryptedContent (qs s) ++ l)
  /\ (forall sid id, failures_of s' sid !! id = if decide (sid = streamId /\ id ∈ ids) then None else failures_of s sid !! id)
  /\ (forall id item, id ∈ ids -> item ∈ default [] (failures_of s streamId !! id) -> item ∈ encryptedContent (qs s')).
Proof.
  cbn zeta. revert s. induction sessions as [|g sessions IH]; intros s; cbn [js_for].
  - split_and!; [done|exists []; by rewrite app_nil_r| |set_solver]. intros sid id. rewrite decide_False by set_solver. done.
  - destruct (requeue_step streamId g s) as (Hok & Hq & Hf). rewrite (emits_bind_total _ _ _ tt Hok). cbn [res post].
    destruct (IH (post (requeue_failures streamId g s))) as (Hok' & (l & Hl) & Hf' & Hin). split_and!; [done| | |].
    + rewrite Hl, Hq, <-app_assoc. by eexists.
    + intros sid id. rewrite Hf', Hf. cbn [map]. repeat case_decide; set_solver.
    + intros id item Hid Hitem. destruct (decide (id = gs_sessionId g)) as [->|Hne].
      * rewrite Hl, Hq. set_solver.
      * apply (Hin id item); [set_solver|]. rewrite Hf, decide_False by naive_solver. done.
Qed.

(** ** The properties *)

(** C18: no encrypted content is lost or processed twice: whatever arrives and in
    whatever order, an item is in one place only, in a queue, among the failures or
    in the running tick, and it leaves them in one way only: it is decrypted, or its
    retry fails for another reason than a missing session. *)
Theorem content_conserved dk uid inbox up es s :
  runs (new dk uid inbox up) es s ->
  NoDup (map ci_ref (items s))
  /\ (forall e, enabled s e ->
       (forall item, item ∈ items s -> item ∈ items (after e s) \/ leaves e s item)
       /\ (forall item, item ∈ items (after e s) -> item ∈ items s \/ item ∈ arrives e s)).
Proof.
  intros Hr. pose proof (runs_ok _ _ _ _ _ _ Hr) as Hok. split; [by destruct Hok|]. intros e He.
  destruct (event_steps_to e s Hok He) as ((d & Hp & Hd) & _ & _). split; intros item Hi.
  - assert (Hin : item ∈ items (after e s) ++ d) by (rewrite Hp; set_solver).
    apply elem_of_app in Hin as [?|Hin]; [by left|]. right. by eapply Forall_forall in Hd.
  - assert (Hin : item ∈ arrives e s ++ items s) by (rewrite <-Hp; set_solver). set_solver.
Qed.

(** [stop] is final: the timer is cleared, and whatever arrives afterwards no
    tick is started again; a tick that is running ends. *)
Theorem stop_is_final dk uid inbox up es s es' s' :
  runs (new dk uid inbox up) es s -> runs (after Stop s) es' s' ->
  armed s' = false /\ (forall now hasStream, ~ enabled s' (TimerFires now hasStream)).
Proof.
  intros Hok%runs_ok Hr. enough (Hinv : halted s').
  { split; [apply Hinv|]. intros now hs Ha. cbn in Ha. by rewrite (proj2 Hinv) in Ha. }
  induction Hr as [|es1 s1 e _ IH _]; [|by apply halted_event].
  destruct Hok as [_ _ [Ht _]]. unfold after. cbn [handle]. unfold stop. js_unfold. cbn.
  destruct (timeoutId s) eqn:Hto; [done|]. cbn. split; [done|]. cbn. destruct (armed s); [|done]. by destruct Ht.
Qed.

(** C19: keys are shared only with users that are entitled to them, only sessions
    that were asked for, or all to a new device, that this device has, and after the
    fulfillment that names them was posted. *)
Theorem key_reply_sound an item s streamId item' sessions :
  EncryptAndShareGroupSessions streamId item' sessions ∈ emits (processKeySolicitation an item s) ->
  streamId = ks_streamId item /\ item' = item /\ sessions <> []
  /\ an_isUserEntitledToKeyExchange an streamId (ks_fromUserId item) false = Ok true
  /\ (forall g, g ∈ sessions -> exists id,
        id ∈ default [] (an_getInboundGroupSessionIds an streamId)
        /\ (ksc_isNewDevice (ks_solicitation item) = true \/ id ∈ ksc_sessionIds (ks_solicitation item))
        /\ an_exportInboundGroupSession an streamId id = Ok (Some g))
  /\ emits (processKeySolicitation an item s)
     = [SendKeyFulfillment streamId (ks_fromUserAddress item) (ksc_deviceKey (ks_solicitation item))
          (if ksc_isNewDevice (ks_solicitation item) then [] else map gs_sessionId sessions);
        EncryptAndShareGroupSessions streamId item sessions].
Proof.
  intros Hin. unfold processKeySolicitation, js_check in *. rewrite bind_lift in *.
  destruct (check _ _ _) as [[]|]; [|cbn in Hin; set_solver].
  destruct (_ =? 0)%nat; [cbn in Hin; set_solver|]. rewrite bind_lift in *.
  destruct (an_isUserEntitledToKeyExchange an (ks_streamId item) (ks_fromUserId item) false) as [[|]|] eqn:Hen;
    cbn [negb] in *; try (cbn in Hin; set_solver). rewrite bind_lift in *.
  destruct (export_sessions an (ks_streamId item) (replySessionIds an item)) as [l|] eqn:Hex; [|cbn in Hin; set_solver].
  destruct (Nat.eqb_spec (length l) 0) as [|Hl]; [cbn in Hin; set_solver|].
  rewrite bind_emit, bind_lift in *. destruct (an_sendKeyFulfillment an) as [[]|]; [|cbn in Hin; set_solver].
  rewrite bind_emit in *. cbn in Hin |- *.
  assert (Heq : streamId = ks_streamId item /\ item' = item /\ sessions = l) by set_solver. destruct Heq as (-> & -> & ->).
  split_and!; try done; [by intros ->|]. intros g Hg.
  destruct (export_sessions_Ok _ _ _ _ Hex g Hg) as (id & Hid & Hexp). exists id. apply replySessionIds_spec in Hid as [? ?]. done.
Qed.

(** A request for keys names the sessions that content is waiting for, sorted,
    without repetition and at most 100 of them; it is sent only for a stream the user
    is entitled to, when this device has no request that is as good, and says that
    the device is new exactly when it has no session of the stream. *)
Theorem key_request_sound hasStream s item streamId ids an s' streamId' isNew ids' :
  begin_processMissingKeys hasStream s item = ProcessMissingKeys streamId ids ->
  (streamId = mk_streamId item /\ hasStream streamId = true /\ (1 <= length ids <= 100)%nat /\ NoDup ids
   /\ Sorted str_le ids /\ (forall id, id ∈ ids -> is_Some (failures_of s streamId !! id)))
  /\ (SendKeySolicitation streamId' isNew ids' ∈ emits (processMissingKeys an streamId ids s') ->
      streamId' = streamId /\ ids' = ids
      /\ an_isUserEntitledToKeyExchange an streamId (userId s') true = Ok true
      /\ (isNew = true <-> default [] (an_getInboundGroupSessionIds an streamId) = [])
      /\ (forall r, find (fun x => String.eqb (ksc_deviceKey x) (deviceKey s')) (an_getKeySolicitations an streamId) = Some r ->
           ksc_isNewDevice r = false /\ ksc_sessionIds r <> ids)).
Proof.
  unfold begin_processMissingKeys, takeFirst. set (l := sort_strings (elements (dom (failures_of s (mk_streamId item))))).
  destruct (Nat.eqb_spec (length (take 100 l)) 0) as [|Hlen]; [done|].
  destruct (hasStream (mk_streamId item)) eqn:Hh; [|done]. cbn [negb]. intros [= <- <-].
  assert (Hperm : l ≡ₚ elements (dom (failures_of s (mk_streamId item)))) by apply js_sort_perm. split.
  - split_and!; try done; [lia|rewrite length_take; lia| | |].
    + apply NoDup_take. rewrite Hperm. apply NoDup_elements.
    + apply Sorted_take. apply sort_strings_sorted.
    + intros id Hid. apply elem_of_dom, elem_of_elements. rewrite <-Hperm, <-(take_drop 100 l). set_solver.
  - unfold processMissingKeys. intros Hin. rewrite get_bind_run, bind_lift in Hin.
    destruct (an_isUserEntitledToKeyExchange _ _ _ _) as [[|]|] eqn:Hen; cbn [negb] in Hin; try (cbn in Hin; set_solver).
    destruct (_ || _) eqn:Hno; [cbn in Hin; set_solver|]. rewrite bind_emit in Hin. cbn in Hin.
    apply list_elem_of_singleton in Hin. injection Hin as -> -> ->. apply orb_false_iff in Hno as [Hnew Hsame].
    split_and!; try done.
    + rewrite Nat.eqb_eq. apply length_zero_iff_nil.
    + intros r Hr. rewrite Hr in Hnew, Hsame. cbn in Hnew, Hsame. split; [done|]. intros Heq.
      rewrite (proj2 (sortedArraysEqual_spec _ _) Heq) in Hsame. done.
Qed.

(** Keys that arrive bring back what failed for want of them: the failures of
    every imported session are in the queue again and no longer among the failures,
    those of other sessions and streams stay. *)
Theorem imported_sessions_requeue an session c s keys :
  let streamId := bin_toHexString (ges_streamId session) in
  let imported := map (fun i => default "" (ges_sessionIds session !! i)) (neededKeyIndexs an streamId 0 (ges_sessionIds session)) in
  imported <> [] -> an_decryptWithDeviceKey an c (ges_senderKey session) = Ok keys ->
  length keys = length (ges_sessionIds session) -> an_importSessionKeys an = Ok tt ->
  let s' := post (processNewGroupSession an session c s) in
  (forall id, id ∈ imported -> failures_of s' streamId !! id = None
     /\ forall item, item ∈ default [] (failures_of s streamId !! id) -> item ∈ encryptedContent (qs s'))
  /\ (forall sid id, sid <> streamId \/ id ∉ imported -> failures_of s' sid !! id = failures_of s sid !! id)
  /\ (exists l, encryptedContent (qs s') = encryptedContent (qs s) ++ l).
Proof.
  intros streamId imported Hne Hdec Hlen Himp s'.
  set (needed := neededKeyIndexs an streamId 0 (ges_sessionIds session)) in *.
  set (sessions := map (make_session streamId (ges_sessionIds session) keys) needed).
  assert (Hids : map gs_sessionId sessions = imported) by (unfold sessions, imported; by rewrite map_map).
  assert (Hs' : s' = post (js_for sessions (requeue_failures streamId) s)).
  { unfold s', processNewGroupSession. fold streamId needed. rewrite (proj2 (Nat.eqb_neq _ _)); [|by destruct needed].
    rewrite Hdec, bind_lift. unfold js_check. rewrite Hlen, Nat.eqb_refl, bind_lift. cbn [check].
    fold sessions. rewrite bind_emit, Himp, bind_lift. cbn [post].
    destruct (requeue_all streamId sessions s) as (Hok & _). rewrite (emits_bind_total _ _ _ tt Hok). cbn [post].
    rewrite get_bind_run. unfold js_when. by destruct (_ =? 0)%nat. }
  destruct (requeue_all streamId sessions s) as (_ & Hl & Hf & Hin). rewrite Hids, <-Hs' in *. split_and!.
  - intros id Hid. split; [rewrite Hf, decide_True; done|]. intros item. by apply Hin.
  - intros sid id Hor. rewrite Hf, decide_False; [done|]. naive_solver.
  - exact Hl.
Qed.
End Steps.

(** ** Concrete runs *)

#[global] Instance enabled_dec s e : Decision (enabled s e).
Proof. destruct e; cbn; apply _. Defined.

Fixpoint eval_run `{Externals} (es : list event) (s : t) : option t :=
  match es with
  | [] => Some s
  | e :: es => if decide (enabled s e) then eval_run es (after e s) else None
  end.

Lemma eval_run_runs `{Externals} s0 es0 es s s' : runs s0 es0 s -> eval_run es s = Some s' -> runs s0 (es0 ++ es) s'.
Proof.
  revert es0 s. induction es as [|e es IH]; cbn; intros es0 s Hr Hx.
  - injection Hx as <-. by rewrite app_nil_r.
  - case_decide; [|done]. rewrite cons_middle, app_assoc. eapply IH; [|exact Hx]. by constructor.
Qed.

Definition demo_session : GroupEncryptionSession := mkGroupEncryptionSession "05" "k" "key" GROUP_ENCRYPTION_ALGORITHM.

(** No key is there, every call succeeds but the decryption of content. *)
Definition demo_answers : answers :=
  mkAnswers (fun _ _ => false) (fun _ _ => Ok ["key"]) (Ok tt) (Ok tt) (Ok tt)
    (fun _ => Throw (JsError "Session not found")) (fun _ => true) (fun _ _ _ => Ok true) (fun _ => [])
    (fun _ => Some ["k"]) (fun _ _ => Ok (Some demo_session)) (Ok tt) (Ok tt) (Ok tt).

Definition demo_data : EncryptedData := mkEncryptedData "c" "a" "sender" "k" None None.
Definition demo_new : t := new "d" "u" (Some "a1") {["a1"; "05"]}.

(** Content that fails twice for want of its session. *)
Definition demo_failing : list event :=
  [Start; TimerFires 0 (fun _ => true); JobAnswered demo_answers 0; TimerFires 15 (fun _ => true); JobAnswered demo_answers 15;
   NewEncryptedContent "05" "e1" "text" demo_data; TimerFires 30 (fun _ => true); JobAnswered demo_answers 30;
   TimerFires 3030 (fun _ => true); JobAnswered demo_answers 3030].
Definition demo_failed : t := default demo_new (eval_run demo_failing demo_new).

Lemma demo_failing_runs : runs demo_new demo_failing demo_failed.
Proof. apply (eval_run_runs demo_new [] demo_failing demo_new); [constructor|vm_compute; reflexivity]. Qed.

(** One item among the failures, and keys to ask for. *)
Example demo_failed_state :
  map ci_eventId (failure_items (decryptionFailures demo_failed)) = ["e1"]
  /\ missingKeys (qs demo_failed) = [mkMissingKeysItem "05" 4030].
Proof. vm_compute. auto. Qed.

Lemma content_conserved_witness : NoDup (map ci_ref (items demo_failed)).
Proof. exact (proj1 (content_conserved "d" "u" (Some "a1") {["a1"; "05"]} demo_failing demo_failed demo_failing_runs)). Defined.

Lemma stop_is_final_witness :
  armed (after (NewEncryptedContent "05" "e2" "text" demo_data) (after Stop demo_failed)) = false.
Proof.
  refine (proj1 (stop_is_final "d" "u" (Some "a1") {["a1"; "05"]} demo_failing demo_failed
    [NewEncryptedContent "05" "e2" "text" demo_data] _ demo_failing_runs _)).
  apply (runs_snoc _ [] _ (NewEncryptedContent "05" "e2" "text" demo_data)); [constructor|exact I].
Defined.

Definition demo_solicitation : KeySolicitationItem :=
  mkSolicitationItem "05" "v" [] (mkKeySolicitationContent "d2" "f2" false ["k"]) 0.

Lemma key_reply_sound_witness :
  an_isUserEntitledToKeyExchange demo_answers "05" "v" false = Ok true.
Proof.
  refine (proj1 (proj2 (proj2 (proj2 (key_reply_sound demo_answers demo_solicitation demo_new "05" demo_solicitation
    [demo_session] _))))).
  vm_compute. right. left.
Defined.

Lemma key_request_sound_witness :
  an_isUserEntitledToKeyExchange demo_answers "05" (userId demo_failed) true = Ok true.
Proof.
  refine (proj1 (proj2 (proj2 (proj2 (key_request_sound (fun _ => true) demo_failed (mkMissingKeysItem "05" 4030) "05" ["k"]
    demo_answers demo_failed "05" false ["k"] _) _)))).
  - vm_compute. reflexivity.
  - vm_compute. left.
Defined.

Definition demo_keys : GroupEncryptionSessions := mkGroupEncryptionSessions [x05] "sender" ["k"] {["d" := "cipher"]}.

Lemma imported_sessions_requeue_witness :
  failures_of (post (processNewGroupSession demo_answers demo_keys "cipher" demo_failed))
    (bin_toHexString (ges_streamId demo_keys)) !! "k" = None.
Proof.
  assert (Hne : map (fun i => default "" (ges_sessionIds demo_keys !! i))
    (neededKeyIndexs demo_answers (bin_toHexString (ges_streamId demo_keys)) 0 (ges_sessionIds demo_keys)) <> [])
    by (vm_compute; discriminate).
  destruct (imported_sessions_requeue demo_answers demo_keys "cipher" demo_failed ["key"] Hne eq_refl eq_refl eq_refl)
    as [Hall _].
  refine (proj1 (Hall "k" _)). vm_compute. left.
Defined.
