(* ===== verification/Payloads.v ===== *)
(** * Payloads of events (core/sdk/src/types.ts)

    The constructors of the payloads the client sends, and the accessors of the
    payloads it receives. *)

From S2P Require Import Prelude Proto Externals Binary StreamId Types.

(** [/^[A-Za-z0-9+/]{16,}$/] on the first 16 code units. *)
Definition is_base64_char (c : Ascii.ascii) : bool :=
  let n := Ascii.nat_of_ascii c in
  ((65 <=? n) && (n <=? 90) || (97 <=? n) && (n <=? 122) || (48 <=? n) && (n <=? 57) || (n =? 43) || (n =? 47))%nat.

Definition isCiphertext (text : string) : bool :=
  let prefix := slice 0 16 text in
  str_forallb is_base64_char prefix && (16 <=? String.length prefix)%nat.

(** ** Payloads of events *)

Definition make_MemberPayload_Membership (value : Membership) : StreamEvent_payload :=
  Payload_memberPayload (Some (MemberPayload_membership value)).
Definition make_UserPayload_Inception (value : Inception) : StreamEvent_payload :=
  Payload_userPayload (Some (UserPayload_inception value)).
Definition make_UserPayload_UserMembership (value : UserMembership) : StreamEvent_payload :=
  Payload_userPayload (Some (UserPayload_userMembership value)).
Definition make_UserPayload_UserMembershipAction (value : UserMembershipAction) : StreamEvent_payload :=
  Payload_userPayload (Some (UserPayload_userMembershipAction value)).
Definition make_SpacePayload_Inception (value : Inception) : StreamEvent_payload :=
  Payload_spacePayload (Some (SpacePayload_inception value)).
Definition make_MemberPayload_DisplayName (value : EncryptedData) : StreamEvent_payload :=
  Payload_memberPayload (Some (MemberPayload_displayName value)).
Definition make_MemberPayload_Username (value : EncryptedData) : StreamEvent_payload :=
  Payload_memberPayload (Some (MemberPayload_username value)).
Definition make_MemberPayload_EnsAddress (value : bytes) : StreamEvent_payload :=
  Payload_memberPayload (Some (MemberPayload_ensAddress value)).
Definition make_MemberPayload_Nft (value : Nft) : StreamEvent_payload :=
  Payload_memberPayload (Some (MemberPayload_nft value)).
Definition make_ChannelPayload_Inception (value : ChannelInception) : StreamEvent_payload :=
  Payload_channelPayload (Some (ChannelPayload_inception value)).
Definition make_DMChannelPayload_Inception (value : DmChannelInception) : StreamEvent_payload :=
  Payload_dmChannelPayload (Some (DmChannelPayload_inception value)).
Definition make_GDMChannelPayload_Inception (value : GdmChannelInception) : StreamEvent_payload :=
  Payload_gdmChannelPayload (Some (GdmChannelPayload_inception value)).
Definition make_GDMChannelPayload_ChannelProperties (value : EncryptedData) : StreamEvent_payload :=
  Payload_gdmChannelPayload (Some (GdmChannelPayload_channelProperties value)).
Definition make_UserSettingsPayload_Inception (value : Inception) : StreamEvent_payload :=
  Payload_userSettingsPayload (Some (UserSettingsPayload_inception value)).
Definition make_UserSettingsPayload_FullyReadMarkers (value : SettingsFullyReadMarkers) : StreamEvent_payload :=
  Payload_userSettingsPayload (Some (UserSettingsPayload_fullyReadMarkers value)).
Definition make_UserSettingsPayload_UserBlock (value : UserBlock) : StreamEvent_payload :=
  Payload_userSettingsPayload (Some (UserSettingsPayload_userBlock value)).
Definition make_UserDeviceKeyPayload_Inception (value : Inception) : StreamEvent_payload :=
  Payload_userDeviceKeyPayload (Some (UserDeviceKeyPayload_inception value)).
Definition make_UserInboxPayload_Inception (value : Inception) : StreamEvent_payload :=
  Payload_userInboxPayload (Some (UserInboxPayload_inception value)).
Definition make_UserInboxPayload_GroupEncryptionSessions (value : GroupEncryptionSessions) : StreamEvent_payload :=
  Payload_userInboxPayload (Some (UserInboxPayload_groupEncryptionSessions value)).
Definition make_UserInboxPayload_Ack (value : UserInboxAck) : StreamEvent_payload :=
  Payload_userInboxPayload (Some (UserInboxPayload_ack value)).
Definition make_UserDeviceKeyPayload_EncryptionDevice (value : EncryptionDevice) : StreamEvent_payload :=
  Payload_userDeviceKeyPayload (Some (UserDeviceKeyPayload_encryptionDevice value)).
Definition make_SpacePayload_Channel (value : SpaceChannel) : StreamEvent_payload :=
  Payload_spacePayload (Some (SpacePayload_channel value)).
Definition make_ChannelPayload_Message (value : EncryptedData) : StreamEvent_payload :=
  Payload_channelPayload (Some (ChannelPayload_message value)).
Definition make_ChannelPayload_Redaction (eventId : bytes) : StreamEvent_payload :=
  Payload_channelPayload (Some (ChannelPayload_redaction eventId)).
Definition make_MemberPayload_KeyFulfillment (value : KeyFulfillment) : StreamEvent_payload :=
  Payload_memberPayload (Some (MemberPayload_keyFulfillment value)).
Definition make_MemberPayload_KeySolicitation (content : KeySolicitation) : StreamEvent_payload :=
  Payload_memberPayload (Some (MemberPayload_keySolicitation content)).
Definition make_DMChannelPayload_Message (value : EncryptedData) : StreamEvent_payload :=
  Payload_dmChannelPayload (Some (DmChannelPayload_message value)).
Definition make_GDMChannelPayload_Message (value : EncryptedData) : StreamEvent_payload :=
  Payload_gdmChannelPayload (Some (GdmChannelPayload_message value)).
Definition make_MediaPayload_Inception (value : MediaInception) : StreamEvent_payload :=
  Payload_mediaPayload (Some (MediaPayload_inception value)).
Definition make_MediaPayload_Chunk (value : MediaChunk) : StreamEvent_payload :=
  Payload_mediaPayload (Some (MediaPayload_chunk value)).

(** ** Messages *)

Definition make_ChannelMessage_Post_Content_Text (body : string) (mentions : option (list Mention)) : ChannelMessage :=
  mkChannelMessage (Some (ChannelMessage_post
    (mkPost None None None None (Some (PostContent_text body (default [] mentions) []))))).
Definition make_ChannelMessage_Post_Content_GM (typeUrl : string) (value : option bytes) : ChannelMessage :=
  mkChannelMessage (Some (ChannelMessage_post (mkPost None None None None (Some (PostContent_gm typeUrl value))))).
Definition make_ChannelMessage_Reaction (refEventId reaction : string) : ChannelMessage :=
  mkChannelMessage (Some (ChannelMessage_reaction refEventId reaction)).
Definition make_ChannelMessage_Edit (refEventId : string) (post : Post) : ChannelMessage :=
  mkChannelMessage (Some (ChannelMessage_edit refEventId (Some post))).
Definition make_ChannelMessage_Redaction (refEventId : string) (reason : option string) : ChannelMessage :=
  mkChannelMessage (Some (ChannelMessage_redaction refEventId reason)).
Definition make_ChannelProperties (channelName channelTopic : string) : ChannelProperties :=
  mkChannelProperties channelName channelTopic.

Definition getRefEventIdFromChannelMessage (message : ChannelMessage) : option string :=
  match cmsg_payload message with
  | Some (ChannelMessage_edit refEventId _) | Some (ChannelMessage_reaction refEventId _)
  | Some (ChannelMessage_redaction refEventId _) => Some refEventId
  | Some (ChannelMessage_post (mkPost threadId _ _ _ _)) => threadId
  | None => None
  end.

(** ** Accessors *)

Definition getUserPayload_Membership (event : option StreamEvent) : option UserMembership :=
  match event with
  | Some e => match se_payload e with
              | Some (Payload_userPayload (Some (UserPayload_userMembership v))) => Some v
              | _ => None
              end
  | None => None
  end.

Definition getChannelPayload (event : option StreamEvent) : option SpaceChannel :=
  match event with
  | Some e => match se_payload e with
              | Some (Payload_spacePayload (Some (SpacePayload_channel v))) => Some v
              | _ => None
              end
  | None => None
  end.

Definition getMessagePayload (event : option StreamEvent) : option EncryptedData :=
  match event with
  | Some e => match se_payload e with
              | Some (Payload_channelPayload (Some (ChannelPayload_message v))) => Some v
              | _ => None
              end
  | None => None
  end.

Definition getMiniblockHeader (event : option StreamEvent) : option MiniblockHeader :=
  match event with
  | Some e => match se_payload e with
              | Some (Payload_miniblockHeader v) => Some v
              | _ => None
              end
  | None => None
  end.

Section Messages.
Context `{Externals}.

Definition getMessagePayloadContent (event : option StreamEvent) : result (option ChannelMessage) :=
  match getMessagePayload event with
  | None => mret None
  | Some payload => m ← ChannelMessage_fromJsonString (ed_ciphertext payload); mret (Some m)
  end.

Definition getMessagePayloadContent_Text (event : option StreamEvent) : result (option PostContent) :=
  content ← getMessagePayloadContent event;
  match content with
  | None => mret None
  | Some m =>
      match cmsg_payload m with
      | Some (ChannelMessage_post (mkPost _ _ _ _ (Some (PostContent_text body mentions attachments)))) =>
          mret (Some (PostContent_text body mentions attachments))
      | Some (ChannelMessage_post _) => Throw (JsError "Expected text message")
      | _ => Throw (JsError "Expected post message")
      end
  end.

(** The deprecated form with ids as strings. *)
Definition make_MemberPayload_Membership2 (userId : string) (op : MembershipOp) (initiatorId : string)
    (streamParentId : option string) : result StreamEvent_payload :=
  userAddress ← addressFromUserId userId;
  initiatorAddress ← addressFromUserId initiatorId;
  parent ← match truthy_str streamParentId with
           | Some p => b ← streamIdAsBytes (IdString p); mret (Some b)
           | None => mret None
           end;
  mret (make_MemberPayload_Membership (mkMembership op userAddress initiatorAddress parent)).
End Messages.
