(* ===== verification/RpcClient.v ===== *)
(** * Retries and errors of the RPC client (core/sdk/src/makeStreamRpcClient.ts)

    The interceptor that repeats failed calls, the delays between them, and how
    errors of the node are told apart by their messages. The transport is the
    function [next]. *)

From S2P Require Import Prelude Proto Externals DecryptionQueues.

(** ** Error messages *)

Inductive Err := Err_RESOURCE_EXHAUSTED | Err_DEBUG_ERROR | Err_BAD_PREV_MINIBLOCK_HASH.

(** [`${error.valueOf()}:${Err[error]}`]. *)
Definition err_tag (error : Err) : string :=
  match error with
  | Err_RESOURCE_EXHAUSTED => "8:RESOURCE_EXHAUSTED"
  | Err_DEBUG_ERROR => "17:DEBUG_ERROR"
  | Err_BAD_PREV_MINIBLOCK_HASH => "24:BAD_PREV_MINIBLOCK_HASH"
  end.

Definition message_of (err : js_error) : string :=
  match err with CodeException message _ | JsError message => message end.

Definition errorContains (err : js_error) (error : Err) : bool := includes (message_of err) (err_tag error).

(** [s.split(sep)] for a separator that is not empty: [skip] units of a separator are
    still to be passed, [acc] is the current part. *)
Fixpoint split_loop (sep s : string) (skip : nat) (acc : string) : list string :=
  match s with
  | EmptyString => [acc]
  | String c s' =>
      match skip with
      | S k => split_loop sep s' k acc
      | O =>
          if startsWith s sep then acc :: split_loop sep s' (String.length sep - 1) ""
          else split_loop sep s' 0 (acc +:+ String c "")
      end
  end.

Definition split (s sep : string) : list string := split_loop sep s 0 "".

(** White space among the code units below 256. *)
Definition is_space (c : Ascii.ascii) : bool :=
  let n := Ascii.nat_of_ascii c in ((9 <=? n) && (n <=? 13) || (n =? 32) || (n =? 160))%nat.

Fixpoint trimStart (s : string) : string :=
  match s with
  | EmptyString => EmptyString
  | String c s' => if is_space c then trimStart s' else s
  end.

Fixpoint trimEnd (s : string) : string :=
  match s with
  | EmptyString => EmptyString
  | String c s' =>
      match trimEnd s' with
      | EmptyString => if is_space c then EmptyString else String c EmptyString
      | r => String c r
      end
  end.

Definition trim (s : string) : string := trimEnd (trimStart s).

Definition getRpcErrorProperty (err : js_error) (prop : string) : option string :=
  match split (message_of err) (prop +:+ " = ") with
  | [_; part] => Some (trim (List.hd "" (split part " ")))
  | _ => None
  end.

(** ** Retries *)

Record RetryParams := mkRetryParams {
  maxAttempts : Z;
  initialRetryDelay : Z;
  maxRetryDelay : Z;
}.

(** The default argument of [makeStreamRpcClient]. *)
Definition defaultRetryParams : RetryParams := mkRetryParams 3 2000 6000.

(** The errors that are worth a retry. *)
Definition retryable (error : js_error) : bool :=
  includes (toLowerCase (message_of error)) "fetch failed"
  || includes (toLowerCase (message_of error)) "failed to fetch"
  || errorContains error Err_RESOURCE_EXHAUSTED || errorContains error Err_DEBUG_ERROR.

(** The interceptor counts [attempts] from 1, as the [check] of the code demands. *)
Definition getRetryDelay (error : js_error) (attempts : Z) (params : RetryParams) : Z :=
  if maxAttempts params <? attempts then -1
  else
    let retryDelay := Z.min (maxRetryDelay params) (initialRetryDelay params * 2 ^ attempts) in
    if retryable error then retryDelay else -1.

(** [isBaseUrlIncluded] of utils.ts; [fullUrlBase] is the protocol and host of the url,
    as the [URL] class reads them. *)
Definition isBaseUrlIncluded (baseUrls : list string) (fullUrlBase : string) : bool :=
  existsb (fun baseUrl => String.eqb fullUrlBase (trim baseUrl)) baseUrls.

(** The url the client connects to; [random] is the value of [Math.random() * u.length],
    rounded down. *)
Definition randomUrlSelector (urls : string) (random : nat) : option string :=
  match split urls "," with
  | [u] => Some u
  | u => u !! random
  end.

Section Interceptor.
Context {A : Type}.
(** The url of the request, its protocol and host, and the answer of the transport and
    of the registry at each attempt ([None]: there is no [refreshNodeUrl]). *)
Context (url urlBase : string) (next : Z -> result A) (refreshNodeUrl : option (Z -> result string)).

(** May attempt [attempt] be followed by another one at this node? *)
Definition checkNodeUrl (attempt : Z) : result unit :=
  match refreshNodeUrl with
  | None => Ok tt
  | Some f =>
      urls ← f attempt;
      if isBaseUrlIncluded (split urls ",") urlBase then Ok tt
      else Throw (JsError ("Node url " +:+ url +:+ " no longer operationl in registry"))
  end.

(** The loop of [retryInterceptor], from attempt [attempt] on. The waits are collected;
    [None] when the fuel is used up. *)
Fixpoint retry_loop (fuel : nat) (params : RetryParams) (attempt : Z) : option (result A * list Z) :=
  match fuel with
  | O => None
  | S fuel =>
      match next attempt with
      | Ok a => Some (Ok a, [])
      | Throw e =>
          let retryDelay := getRetryDelay e attempt params in
          if retryDelay <=? 0 then Some (Throw e, [])
          else
            match checkNodeUrl attempt with
            | Throw e' => Some (Throw e', [])
            | Ok _ =>
                match retry_loop fuel params (attempt + 1) with
                | Some (r, delays) => Some (r, retryDelay :: delays)
                | None => None
                end
            end
      end
  end.

Definition retryInterceptor (fuel : nat) (params : RetryParams) : option (result A * list Z) :=
  retry_loop fuel params 1.

(** ** Properties *)

(** The delays of the attempts [from], [from + 1], ... *)
Definition delays_from (params : RetryParams) (from : Z) (n : nat) : list Z :=
  map (fun i => Z.min (maxRetryDelay params) (initialRetryDelay params * 2 ^ i)) (seqZ from (Z.of_nat n)).

(** Why the loop gives up at attempt [attempt] with error [e]. *)
Definition gives_up (params : RetryParams) (attempt : Z) (e : js_error) : Prop :=
  (next attempt = Throw e /\ getRetryDelay e attempt params <= 0)
  \/ ((exists e0, next attempt = Throw e0) /\ checkNodeUrl attempt = Throw e).

(** What the loop from [attempt] on returns after [n] waits. *)
Definition retried (params : RetryParams) (attempt : Z) (r : result A) (n : nat) : Prop :=
  Z.of_nat n <= Z.max 0 (maxAttempts params - attempt + 1)
  /\ (forall i, 0 <= i < Z.of_nat n ->
       exists e, next (attempt + i) = Throw e /\ retryable e = true /\ checkNodeUrl (attempt + i) = Ok tt)
  /\ match r with
     | Ok a => next (attempt + Z.of_nat n) = Ok a
     | Throw e => gives_up params (attempt + Z.of_nat n) e
     end.

Lemma retried_stop params attempt r :
  match r with Ok a => next attempt = Ok a | Throw e => gives_up params attempt e end -> retried params attempt r 0.
Proof. intros Hr. split_and!; [lia|lia|]. by rewrite Z.add_0_r. Qed.

Lemma retried_step params attempt r n e : attempt <= maxAttempts params ->
  next attempt = Throw e -> retryable e = true -> checkNodeUrl attempt = Ok tt ->
  retried params (attempt + 1) r n -> retried params attempt r (S n).
Proof.
  intros Hle Hn Hr Hc (Hb & Hall & Hlast). split_and!; [lia| |].
  - intros i Hi. destruct (decide (i = 0)) as [->|]; [rewrite Z.add_0_r; eauto|].
    replace (attempt + i) with (attempt + 1 + (i - 1)) by lia. apply Hall. lia.
  - by replace (attempt + Z.of_nat (S n)) with (attempt + 1 + Z.of_nat n) by lia.
Qed.

Lemma retry_loop_returns params fuel attempt :
  1 <= attempt -> maxAttempts params - attempt + 2 <= Z.of_nat fuel -> 1 <= Z.of_nat fuel ->
  exists r n, retry_loop fuel params attempt = Some (r, delays_from params attempt n) /\ retried params attempt r n.
Proof.
  revert attempt. induction fuel as [|fuel IH]; intros attempt Ha Hf H1; [lia|]. cbn [retry_loop].
  destruct (next attempt) as [a|e] eqn:Hn; [by exists (Ok a), 0%nat; split; [|apply retried_stop]|].
  destruct (Z.leb_spec (getRetryDelay e attempt params) 0) as [Hd|Hd].
  { exists (Throw e), 0%nat. split; [done|]. apply retried_stop. left. done. }
  destruct (checkNodeUrl attempt) as [[]|e'] eqn:Hc.
  2:{ exists (Throw e'), 0%nat. split; [done|]. apply retried_stop. right. eauto. }
  assert (attempt <= maxAttempts params /\ retryable e = true
      /\ getRetryDelay e attempt params = Z.min (maxRetryDelay params) (initialRetryDelay params * 2 ^ attempt)) as (Hle & Hr & ->).
  { unfold getRetryDelay in *. destruct (Z.ltb_spec (maxAttempts params) attempt); [lia|]. destruct (retryable e); [done|lia]. }
  destruct (IH (attempt + 1)) as (r & n & -> & Hres); [lia|lia|lia|].
  exists r, (S n). split; [|by eapply retried_step].
  unfold delays_from. rewrite (seqZ_cons attempt) by lia.
  by replace (Z.pred (Z.of_nat (S n))) with (Z.of_nat n) by lia.
Qed.

(** C32: the retry loop of the transport ends: a call is made at most one time more
    than [maxAttempts], it is repeated only after errors that are worth it and while
    the registry lists the node, the waits double from twice the initial delay up to
    the largest one, and what is returned is the answer of the last call, or the error
    that the node is no longer listed. *)
Theorem retries_bounded params fuel :
  0 <= maxAttempts params -> maxAttempts params + 1 <= Z.of_nat fuel ->
  exists r n, retryInterceptor fuel params = Some (r, delays_from params 1 n)
    /\ Z.of_nat n <= maxAttempts params
    /\ (forall i, 1 <= i <= Z.of_nat n ->
         exists e, next i = Throw e /\ retryable e = true /\ checkNodeUrl i = Ok tt)
    /\ match r with
       | Ok a => next (Z.of_nat n + 1) = Ok a
       | Throw e => gives_up params (Z.of_nat n + 1) e
       end.
Proof.
  intros Hm Hf. destruct (retry_loop_returns params fuel 1) as (r & n & Hr & Hn & Hall & Hlast); [lia|lia|lia|].
  exists r, n. rewrite (Z.add_comm _ 1). split_and!; [done|lia| |done].
  intros i Hi. replace i with (1 + (i - 1)) by lia. apply Hall. lia.
Qed.
End Interceptor.

(** *** Properties in messages *)

(** No separator starts inside [a] when [b] follows it. *)
Fixpoint no_start (sep a b : string) : bool :=
  match a with
  | EmptyString => true
  | String c a' => negb (startsWith (a +:+ b) sep) && no_start sep a' b
  end.

Lemma split_loop_skip sep a b acc : split_loop sep (a +:+ b) (String.length a) acc = split_loop sep b 0 acc.
Proof. induction a as [|c a IH]; [done|]. exact IH. Qed.

(** The part before the first separator. *)
Lemma split_loop_first sep a b acc : sep <> "" -> no_start sep a (sep +:+ b) = true ->
  split_loop sep (a +:+ sep +:+ b) 0 acc = (acc +:+ a) :: split_loop sep b 0 "".
Proof.
  intros Hsep. revert acc. induction a as [|c a IH]; intros acc Hn.
  - rewrite str_app_nil_r. destruct sep as [|d sep]; [done|]. change ("" +:+ ?x) with x.
    change (String d sep +:+ b) with (String d (sep +:+ b)). cbn [split_loop].
    change (String d (sep +:+ b)) with (String d sep +:+ b). rewrite startsWith_app. cbn [String.length].
    rewrite Nat.sub_succ, Nat.sub_0_r. by rewrite split_loop_skip.
  - cbn [no_start] in Hn. apply andb_true_iff in Hn as [Hs Hn]. apply negb_true_iff in Hs.
    change (String c a +:+ sep +:+ b) with (String c (a +:+ sep +:+ b)) in *. cbn [split_loop]. rewrite Hs, (IH _ Hn).
    by rewrite str_app_assoc.
Qed.

(** No separator: one part. *)
Lemma split_loop_none sep a acc : includes a sep = false -> split_loop sep a 0 acc = [acc +:+ a].
Proof.
  revert acc. induction a as [|c a IH]; intros acc Hn; [by rewrite str_app_nil_r|].
  cbn [includes] in Hn. apply orb_false_iff in Hn as [Hs Hn]. cbn [split_loop]. rewrite Hs, (IH _ Hn).
  by rewrite str_app_assoc.
Qed.

Lemma trimStart_id s : str_forallb (fun c => negb (is_space c)) s = true -> trimStart s = s.
Proof. destruct s as [|c s]; [done|]. cbn. intros [Hc _]%andb_true_iff. by rewrite (proj1 (negb_true_iff _) Hc). Qed.

Lemma trimEnd_id s : str_forallb (fun c => negb (is_space c)) s = true -> trimEnd s = s.
Proof.
  induction s as [|c s IH]; [done|]. cbn. intros [Hc Hs]%andb_true_iff. rewrite (IH Hs).
  destruct s; [|done]. by rewrite (proj1 (negb_true_iff _) Hc).
Qed.

Lemma starts_space c s : negb (is_space c) = true -> startsWith (String c s) " " = false.
Proof.
  intros Hc. destruct (startsWith _ _) eqn:Hs; [|done]. apply startsWith_inv in Hs as [t Ht]. injection Ht as -> _. done.
Qed.

Lemma no_space_start v rest : str_forallb (fun c => negb (is_space c)) v = true -> no_start " " v rest = true.
Proof.
  induction v as [|c v IH]; [done|]. cbn [str_forallb no_start]. intros [Hc Hv]%andb_true_iff. rewrite (IH Hv), andb_true_r.
  change (String c v +:+ rest) with (String c (v +:+ rest)). by rewrite starts_space.
Qed.

Lemma no_space_includes v : str_forallb (fun c => negb (is_space c)) v = true -> includes v " " = false.
Proof.
  induction v as [|c v IH]; [done|]. cbn [str_forallb includes]. intros [Hc Hv]%andb_true_iff. rewrite (IH Hv), orb_false_r.
  by rewrite starts_space.
Qed.

(** A property of an error of the node is read back: when the message names it
    once, what stands behind it up to the next space is returned. *)
Theorem error_property_roundtrip before prop v rest :
  let sep := prop +:+ " = " in
  let after := v +:+ rest in
  no_start sep before (sep +:+ after) = true -> includes after sep = false ->
  str_forallb (fun c => negb (is_space c)) v = true -> (rest = "" \/ exists r, rest = " " +:+ r) ->
  getRpcErrorProperty (JsError (before +:+ sep +:+ after)) prop = Some v.
Proof.
  intros sep after Hb Hi Hv Hr. unfold getRpcErrorProperty, message_of, split. fold sep.
  assert (Hsep : sep <> "") by (unfold sep; by destruct prop).
  rewrite (split_loop_first sep before after "" Hsep Hb), (split_loop_none sep after "" Hi).
  change ("" +:+ after) with after. unfold after. f_equal.
  assert (Hhd : List.hd "" (split_loop " " (v +:+ rest) 0 "") = v).
  { destruct Hr as [->|[r ->]].
    - rewrite str_app_nil_r, split_loop_none by by apply no_space_includes. done.
    - rewrite split_loop_first; [done|done|]. by apply no_space_start. }
  rewrite Hhd. unfold trim. rewrite (trimStart_id v Hv). by apply trimEnd_id.
Qed.

(** ** Concrete calls *)

Definition demo_next (i : Z) : result Z := if i <? 3 then Throw (JsError "Failed to fetch") else Ok i.
Definition demo_urls : option (Z -> result string) := Some (fun _ => Ok "https://a.b, https://c.d").

Lemma retries_bounded_witness :
  exists r n, retryInterceptor "https://c.d/x" "https://c.d" demo_next demo_urls 4 defaultRetryParams
      = Some (r, delays_from defaultRetryParams 1 n)
    /\ Z.of_nat n <= 3
    /\ (forall i, 1 <= i <= Z.of_nat n ->
         exists e, demo_next i = Throw e /\ retryable e = true
           /\ checkNodeUrl "https://c.d/x" "https://c.d" demo_urls i = Ok tt)
    /\ match r with
       | Ok a => demo_next (Z.of_nat n + 1) = Ok a
       | Throw e => gives_up "https://c.d/x" "https://c.d" demo_next demo_urls defaultRetryParams (Z.of_nat n + 1) e
       end.
Proof.
  apply (retries_bounded "https://c.d/x" "https://c.d" demo_next demo_urls defaultRetryParams 4); cbn; lia.
Defined.

Example demo_retried : retryInterceptor "https://c.d/x" "https://c.d" demo_next demo_urls 4 defaultRetryParams = Some (Ok 3, [4000; 6000]).
Proof. vm_compute. reflexivity. Qed.

Lemma error_property_roundtrip_witness :
  getRpcErrorProperty (JsError ("24:BAD_PREV_MINIBLOCK_HASH: " +:+ ("expected" +:+ " = ") +:+ ("0a1b" +:+ " prev = 00"))) "expected"
  = Some "0a1b".
Proof.
  apply (error_property_roundtrip "24:BAD_PREV_MINIBLOCK_HASH: " "expected" "0a1b" " prev = 00").
  - vm_compute. reflexivity.
  - vm_compute. reflexivity.
  - vm_compute. reflexivity.
  - right. exists "prev = 00". reflexivity.
Defined.
