(* ===== verification/Async.v ===== *)
(** * Asynchronous methods

    An [async] method runs without interruption from one [await] to the next; at an
    [await] other methods of the same object may run before it is resumed with an
    answer, or with an error it may catch. A method is a finite tree of accesses to the
    state of the object and of awaited calls, and it is run against the [moment]s of
    its environment: what each call answers, and what the others did to the state
    meanwhile. *)

From S2P Require Import Prelude.

Section Async.
(** The state of the object, the calls it awaits, and what they answer. *)
Context {S C : Type} {ans : C -> Type}.

Inductive async (A : Type) :=
| Done (r : result A)
| Await (c : C) (k : result (ans c) -> async A)
| Get (k : S -> async A)
| Put (s : S) (p : async A).
Arguments Done {_} _.
Arguments Await {_} _ _.
Arguments Get {_} _.
Arguments Put {_} _ _.

#[global] Instance async_mret : MRet async := fun A a => Done (Ok a).

#[global] Instance async_mbind : MBind async := fun A B k =>
  fix bind p :=
    match p with
    | Done (Ok a) => k a
    | Done (Throw e) => Done (Throw e)
    | Await c f => Await c (fun r => bind (f r))
    | Get f => Get (fun s => bind (f s))
    | Put s p => Put s (bind p)
    end.

(** [try { p } catch (e) { h(e) }] with awaits in both. *)
Fixpoint a_try {A} (p : async A) (h : js_error -> async A) : async A :=
  match p with
  | Done (Ok a) => Done (Ok a)
  | Done (Throw e) => h e
  | Await c f => Await c (fun r => a_try (f r) h)
  | Get f => Get (fun s => a_try (f s) h)
  | Put s p => Put s (a_try p h)
  end.

(** [k] is run with the completion of [p]. *)
Fixpoint a_after {A B} (p : async A) (k : result A -> async B) : async B :=
  match p with
  | Done r => k r
  | Await c f => Await c (fun r => a_after (f r) k)
  | Get f => Get (fun s => a_after (f s) k)
  | Put s p => Put s (a_after p k)
  end.

(** [try { return p } finally { f }], for an [f] that only writes. *)
Definition a_finally {A} (p : async A) (f : S -> S) : async A :=
  let fin (r : result A) := Get (fun s => Put (f s) (Done r)) in
  a_try (a ← p; fin (Ok a)) (fun e => fin (Throw e)).

Definition a_get : async S := Get (fun s => Done (Ok s)).
Definition a_modify (f : S -> S) : async unit := Get (fun s => Put (f s) (Done (Ok tt))).
Definition a_lift {A} (r : result A) : async A := Done r.
Definition a_throw {A} (e : js_error) : async A := Done (Throw e).
Definition a_await (c : C) : async (ans c) := Await c Done.

(** A method that does not await. *)
Definition a_do {A} (m : S -> result A * S) : async A :=
  Get (fun s => let r := m s in Put r.2 (Done r.1)).

Definition a_check (b : bool) (message : string) : async unit :=
  if b then Done (Ok tt) else Done (Throw (JsError message)).

(** [for (const x of xs) await f(x)]. *)
Fixpoint a_for {X} (xs : list X) (f : X -> async unit) : async unit :=
  match xs with
  | [] => Done (Ok tt)
  | x :: xs => _ ← f x; a_for xs f
  end.

(** ** Runs *)

(** One await: the answers of the environment, and what happens to the state before
    the method is resumed. *)
Record moment := mkMoment {
  answer : forall c, result (ans c);
  world : S -> S;
}.

(** An awaited call and its answer. *)
Record event := mkEvent { ev_call : C; ev_answer : result (ans ev_call) }.

(** A method has completed, or waits for a call. *)
Inductive progress (A : Type) :=
| Ended (r : result A)
| Waits (c : C).
Arguments Ended {_} _.
Arguments Waits {_} _.

(** How far a method got, the state, the calls that were answered and the moments that
    are left. *)
Record run_end (A : Type) := mkEnd {
  got : progress A;
  state : S;
  trace : list event;
  left : list moment;
}.
Arguments mkEnd {_} _ _ _ _.
Arguments got {_} _.
Arguments state {_} _.
Arguments trace {_} _.
Arguments left {_} _.

Definition after {A} (tr : list event) (e : run_end A) : run_end A :=
  mkEnd (got e) (state e) (tr ++ trace e) (left e).

Fixpoint run {A} (p : async A) (o : list moment) (s : S) : run_end A :=
  match p with
  | Done r => mkEnd (Ended r) s [] o
  | Await c k =>
      match o with
      | [] => mkEnd (Waits c) s [] []
      | m :: o => after [mkEvent c (answer m c)] (run (k (answer m c)) o (world m s))
      end
  | Get k => run (k s) o s
  | Put s p => run p o s
  end.

(** Run to the next [await]. *)
Fixpoint settle {A} (p : async A) (s : S) : async A * S :=
  match p with
  | Get k => settle (k s) s
  | Put s p => settle p s
  | Done r => (Done r, s)
  | Await c k => (Await c k, s)
  end.

(** What is run after the completion of [e]. *)
Definition continue {A B} (e : run_end A) (k : result A -> async B) : run_end B :=
  match got e with
  | Waits c => mkEnd (Waits c) (state e) (trace e) (left e)
  | Ended r => after (trace e) (run (k r) (left e) (state e))
  end.

Lemma after_nil {A} (e : run_end A) : after [] e = e.
Proof. by destruct e. Qed.

Lemma after_after {A} tr tr' (e : run_end A) : after tr (after tr' e) = after (tr ++ tr') e.
Proof. unfold after. cbn. by rewrite (assoc_L (++)). Qed.

Lemma continue_after {A B} tr (e : run_end A) (k : result A -> async B) :
  continue (after tr e) k = after tr (continue e k).
Proof. unfold continue. cbn. destruct (got e); cbn; [by rewrite after_after|done]. Qed.

Lemma run_bind {A B} (p : async A) (k : A -> async B) o s :
  run (p ≫= k) o s = continue (run p o s) (fun r => match r with Ok a => k a | Throw e => Done (Throw e) end).
Proof.
  revert o s. induction p as [r|c f IH|f IH|s' p IH]; intros o s; unfold mbind; cbn [async_mbind run].
  - unfold continue. cbn. rewrite after_nil. by destruct r.
  - destruct o as [|m o]; [done|]. rewrite continue_after. f_equal. apply IH.
  - apply IH.
  - apply IH.
Qed.

Lemma run_try {A} (p : async A) (h : js_error -> async A) o s :
  run (a_try p h) o s = continue (run p o s) (fun r => match r with Ok a => Done (Ok a) | Throw e => h e end).
Proof.
  revert o s. induction p as [r|c f IH|f IH|s' p IH]; intros o s; cbn [a_try run].
  - unfold continue. cbn. rewrite after_nil. by destruct r.
  - destruct o as [|m o]; [done|]. rewrite continue_after. f_equal. apply IH.
  - apply IH.
  - apply IH.
Qed.

Lemma run_after {A B} (p : async A) (k : result A -> async B) o s :
  run (a_after p k) o s = continue (run p o s) k.
Proof.
  revert o s. induction p as [r|c f IH|f IH|s' p IH]; intros o s; cbn [a_after run].
  - unfold continue. cbn. by rewrite after_nil.
  - destruct o as [|m o]; [done|]. rewrite continue_after. f_equal. apply IH.
  - apply IH.
  - apply IH.
Qed.

(** ** Reasoning about runs *)

(** The others only do steps of [R] between the awaits, and the answers satisfy [P]. *)
Definition within (R : S -> S -> Prop) (P : event -> Prop) (o : list moment) : Prop :=
  Forall (fun m => (forall s, R s (world m s)) /\ (forall c, P (mkEvent c (answer m c)))) o.

Definition any_answer (e : event) : Prop := True.

(** [spec R P n p s Q]: started in [s], while the others only do steps of [R] and calls are
    answered with [P], [p] completes after at most [n] awaits, and its completion, the
    state it leaves and the calls it made satisfy [Q]. *)
Definition spec {A} (R : S -> S -> Prop) (P : event -> Prop) (n : nat) (p : async A) (s : S)
    (Q : result A -> S -> list event -> Prop) : Prop :=
  forall o, within R P o -> (n <= length o)%nat ->
  exists r, got (run p o s) = Ended r /\ Q r (state (run p o s)) (trace (run p o s))
    /\ (length o - n <= length (left (run p o s)))%nat /\ within R P (left (run p o s)).

Lemma spec_done {A} R P n (r : result A) s (Q : result A -> S -> list event -> Prop) : Q r s [] -> spec R P n (Done r) s Q.
Proof. intros HQ o Ho Hn. exists r. cbn. split_and!; [done|done|lia|done]. Qed.

Lemma spec_get {A} R P n (k : S -> async A) s Q : spec R P n (k s) s Q -> spec R P n (Get k) s Q.
Proof. done. Qed.

Lemma spec_put {A} R P n (p : async A) s s' Q : spec R P n p s' Q -> spec R P n (Put s' p) s Q.
Proof. done. Qed.

Lemma spec_await {A} R P n c (k : result (ans c) -> async A) s (Q : result A -> S -> list event -> Prop) :
  (forall r s', R s s' -> P (mkEvent c r) -> spec R P n (k r) s' (fun a s tr => Q a s (mkEvent c r :: tr))) ->
  spec R P (Datatypes.S n) (Await c k) s Q.
Proof.
  intros Hk [|m o] Ho Hn; [cbn in Hn; lia|]. inversion Ho as [|? ? [Hm Ha] Ho']; subst.
  destruct (Hk (answer m c) (world m s) (Hm s) (Ha c) o Ho') as (r & Hr & HQ & Hl & Hf); [cbn in Hn; lia|].
  exists r. cbn [run after got state trace left length]. split_and!; [done|done|cbn in *; lia|done].
Qed.

Lemma spec_continue {A B} R P n m (p : async A) (p' : async B) (k : result A -> async B) s
    (Q : result B -> S -> list event -> Prop) :
  (forall o s, run p' o s = continue (run p o s) k) ->
  spec R P n p s (fun r s' tr => spec R P m (k r) s' (fun b s'' tr' => Q b s'' (tr ++ tr'))) -> spec R P (n + m) p' s Q.
Proof.
  intros Heq Hp o Ho Hn. rewrite !Heq. destruct (Hp o Ho) as (r & Hr & Hk & Hl & Hf); [lia|].
  destruct (Hk _ Hf) as (b & Hb & HQ & Hl' & Hf'); [lia|].
  exists b. unfold continue. rewrite Hr. cbn [after got state trace left]. split_and!; [done|done|lia|done].
Qed.

Lemma spec_bind {A B} R P n m (p : async A) (k : A -> async B) s (Q : result B -> S -> list event -> Prop) :
  spec R P n p s (fun r s' tr =>
    spec R P m (match r with Ok a => k a | Throw e => Done (Throw e) end) s' (fun b s'' tr' => Q b s'' (tr ++ tr'))) ->
  spec R P (n + m) (p ≫= k) s Q.
Proof. apply spec_continue. intros. apply run_bind. Qed.

Lemma spec_try {A} R P n m (p : async A) (h : js_error -> async A) s (Q : result A -> S -> list event -> Prop) :
  spec R P n p s (fun r s' tr =>
    spec R P m (match r with Ok a => Done (Ok a) | Throw e => h e end) s' (fun b s'' tr' => Q b s'' (tr ++ tr'))) ->
  spec R P (n + m) (a_try p h) s Q.
Proof. apply spec_continue. intros. apply run_try. Qed.

Lemma spec_mono {A} R P n n' (p : async A) s (Q Q' : result A -> S -> list event -> Prop) :
  spec R P n p s Q -> (n <= n')%nat -> (forall r s tr, Q r s tr -> Q' r s tr) -> spec R P n' p s Q'.
Proof.
  intros Hp Hn HQ o Ho Hl. destruct (Hp o Ho) as (r & Hr & Hq & Hb & Hf); [lia|]. exists r. split_and!; auto; lia.
Qed.

(** A loop whose rounds do not fail: the calls of each round, one after the other. *)
Lemma spec_for {X} R P n (f : X -> async unit) (I : S -> Prop) (T : X -> list event -> Prop) xs s :
  (forall x s, x ∈ xs -> I s -> spec R P n (f x) s (fun r s' tr => r = Ok tt /\ I s' /\ T x tr)) -> I s ->
  spec R P (length xs * n) (a_for xs f) s
    (fun r s' tr => r = Ok tt /\ I s' /\ exists trs, tr = concat trs /\ Forall2 T xs trs).
Proof.
  revert s. induction xs as [|x xs IH]; intros s Hf Hs; cbn [a_for length Nat.mul].
  - apply spec_done. split_and!; [done|done|]. exists []. split; [done|constructor].
  - apply spec_bind. eapply spec_mono; [apply Hf; [by left|done]|done|].
    intros r s1 tr (-> & Hs1 & Ht). eapply spec_mono; [apply IH; [|done]|done|].
    + intros y s2 Hy. apply Hf. by right.
    + intros r s2 tr2 (-> & Hs2 & trs & -> & Ht2). split_and!; [done|done|]. exists (tr :: trs). split; [done|by constructor].
Qed.

(** ** Histories *)

(** The calls that are answered in a run, each with the state the method is resumed in. *)
Fixpoint history {A} (p : async A) (o : list moment) (s : S) : list (event * S) :=
  match p with
  | Done _ => []
  | Await c k =>
      match o with
      | [] => []
      | m :: o => (mkEvent c (answer m c), world m s) :: history (k (answer m c)) o (world m s)
      end
  | Get k => history (k s) o s
  | Put s p => history p o s
  end.

Lemma history_trace {A} (p : async A) o s : (history p o s).*1 = trace (run p o s).
Proof.
  revert o s. induction p as [r|c f IH|f IH|s' p IH]; intros o s; cbn [history run]; [done| |apply IH|apply IH].
  destruct o as [|m o]; [done|]. cbn. f_equal. apply IH.
Qed.

(** What is answered after the completion of [p]. *)
Definition later {A B} (p : async A) (k : result A -> async B) (o : list moment) (s : S) : list (event * S) :=
  match got (run p o s) with
  | Waits _ => []
  | Ended r => history (k r) (left (run p o s)) (state (run p o s))
  end.

Lemma history_bind {A B} (p : async A) (k : A -> async B) o s :
  history (p ≫= k) o s
  = history p o s ++ later p (fun r => match r with Ok a => k a | Throw e => Done (Throw e) end) o s.
Proof.
  revert o s. induction p as [r|c f IH|f IH|s' p IH]; intros o s; unfold mbind; cbn [async_mbind history].
  - by destruct r.
  - destruct o as [|m o]; [done|]. cbn [app]. f_equal. apply IH.
  - apply IH.
  - apply IH.
Qed.

Lemma history_try {A} (p : async A) (h : js_error -> async A) o s :
  history (a_try p h) o s
  = history p o s ++ later p (fun r => match r with Ok a => Done (Ok a) | Throw e => h e end) o s.
Proof.
  revert o s. induction p as [r|c f IH|f IH|s' p IH]; intros o s; cbn [a_try history].
  - by destruct r.
  - destruct o as [|m o]; [done|]. cbn [app]. f_equal. apply IH.
  - apply IH.
  - apply IH.
Qed.

(** [spec] with a postcondition on the history instead of the calls. *)
Definition hspec {A} (R : S -> S -> Prop) (P : event -> Prop) (n : nat) (p : async A) (s : S)
    (Q : result A -> S -> list (event * S) -> Prop) : Prop :=
  forall o, within R P o -> (n <= length o)%nat ->
  exists r, got (run p o s) = Ended r /\ Q r (state (run p o s)) (history p o s)
    /\ (length o - n <= length (left (run p o s)))%nat /\ within R P (left (run p o s)).

Lemma hspec_of_spec {A} R P n (p : async A) s (Q : result A -> S -> list event -> Prop) :
  spec R P n p s Q -> hspec R P n p s (fun r s' h => Q r s' h.*1).
Proof.
  intros Hp o Ho Hn. destruct (Hp o Ho Hn) as (r & Hr & HQ & Hl). exists r. rewrite history_trace. done.
Qed.

Lemma hspec_done {A} R P n (r : result A) s (Q : result A -> S -> list (event * S) -> Prop) :
  Q r s [] -> hspec R P n (Done r) s Q.
Proof. intros HQ o Ho Hn. exists r. cbn. split_and!; [done|done|lia|done]. Qed.

Lemma hspec_get {A} R P n (k : S -> async A) s Q : hspec R P n (k s) s Q -> hspec R P n (Get k) s Q.
Proof. done. Qed.

Lemma hspec_put {A} R P n (p : async A) s s' Q : hspec R P n p s' Q -> hspec R P n (Put s' p) s Q.
Proof. done. Qed.

Lemma hspec_await {A} R P n c (k : result (ans c) -> async A) s (Q : result A -> S -> list (event * S) -> Prop) :
  (forall r s', R s s' -> P (mkEvent c r) -> hspec R P n (k r) s' (fun a s2 h => Q a s2 ((mkEvent c r, s') :: h))) ->
  hspec R P (Datatypes.S n) (Await c k) s Q.
Proof.
  intros Hk [|m o] Ho Hn; [cbn in Hn; lia|]. inversion Ho as [|? ? [Hm Ha] Ho']; subst.
  destruct (Hk (answer m c) (world m s) (Hm s) (Ha c) o Ho') as (r & Hr & HQ & Hl & Hf); [cbn in Hn; lia|].
  exists r. cbn [run after got state history left length]. split_and!; [done|done|cbn in *; lia|done].
Qed.

Lemma hspec_mono {A} R P n n' (p : async A) s (Q Q' : result A -> S -> list (event * S) -> Prop) :
  hspec R P n p s Q -> (n <= n')%nat -> (forall r s h, Q r s h -> Q' r s h) -> hspec R P n' p s Q'.
Proof.
  intros Hp Hn HQ o Ho Hl. destruct (Hp o Ho) as (r & Hr & Hq & Hb & Hf); [lia|]. exists r. split_and!; auto; lia.
Qed.

Lemma hspec_continue {A B} R P n m (p : async A) (p' : async B) (k : result A -> async B) s
    (Q : result B -> S -> list (event * S) -> Prop) :
  (forall o s, run p' o s = continue (run p o s) k) -> (forall o s, history p' o s = history p o s ++ later p k o s) ->
  hspec R P n p s (fun r s' h => hspec R P m (k r) s' (fun b s'' h' => Q b s'' (h ++ h'))) -> hspec R P (n + m) p' s Q.
Proof.
  intros Heq Hh Hp o Ho Hn. rewrite !Heq, Hh. destruct (Hp o Ho) as (r & Hr & Hk & Hl & Hf); [lia|].
  destruct (Hk _ Hf) as (b & Hb & HQ & Hl' & Hf'); [lia|].
  exists b. unfold continue, later. rewrite Hr. cbn [after got state left]. split_and!; [done|done|lia|done].
Qed.

Lemma hspec_bind {A B} R P n m (p : async A) (k : A -> async B) s (Q : result B -> S -> list (event * S) -> Prop) :
  hspec R P n p s (fun r s' h =>
    hspec R P m (match r with Ok a => k a | Throw e => Done (Throw e) end) s' (fun b s'' h' => Q b s'' (h ++ h'))) ->
  hspec R P (n + m) (p ≫= k) s Q.
Proof. apply hspec_continue; intros; [apply run_bind|apply history_bind]. Qed.

Lemma hspec_try {A} R P n m (p : async A) (h : js_error -> async A) s (Q : result A -> S -> list (event * S) -> Prop) :
  hspec R P n p s (fun r s' h1 =>
    hspec R P m (match r with Ok a => Done (Ok a) | Throw e => h e end) s' (fun b s'' h' => Q b s'' (h1 ++ h'))) ->
  hspec R P (n + m) (a_try p h) s Q.
Proof. apply hspec_continue; intros; [apply run_try|apply history_try]. Qed.

(** A method that only reads: what changes, others have changed. *)
Fixpoint only_reads {A} (p : async A) : Prop :=
  match p with
  | Done _ => True
  | Await c k => forall r, only_reads (k r)
  | Get k => forall s, only_reads (k s)
  | Put _ _ => False
  end.

Lemma only_reads_bind {A B} (p : async A) (k : A -> async B) :
  only_reads p -> (forall a, only_reads (k a)) -> only_reads (p ≫= k).
Proof.
  intros Hp Hk. induction p as [[a|e]|c f IH|f IH|s p IH]; cbn in *; auto.
Qed.

Lemma only_reads_try {A} (p : async A) (h : js_error -> async A) :
  only_reads p -> (forall e, only_reads (h e)) -> only_reads (a_try p h).
Proof.
  intros Hp Hh. induction p as [[a|e]|c f IH|f IH|s p IH]; cbn in *; auto.
Qed.

Lemma only_reads_state {A} (R : S -> S -> Prop) `{!PreOrder R} P (p : async A) o s :
  only_reads p -> within R P o -> R s (state (run p o s)).
Proof.
  intros Hp. revert o s. induction p as [r|c f IH|f IH|s' p IH]; intros o s Hw; cbn in *; [done| | |done].
  - destruct o as [|m o]; cbn; [done|]. inversion Hw as [|? ? [Hm _] Hw']; subst. etrans; [apply Hm|]. by apply IH.
  - by apply IH.
Qed.

(** ** Properties of every environment *)

(** However the calls are answered and whatever others do to the state, the completion of
    [p] and the calls it made satisfy [Q]. *)
Fixpoint ensures {A} (p : async A) (Q : result A -> list event -> Prop) : Prop :=
  match p with
  | Done r => Q r []
  | Await c k => forall r, ensures (k r) (fun a tr => Q a (mkEvent c r :: tr))
  | Get k => forall s, ensures (k s) Q
  | Put _ p => ensures p Q
  end.

(** The same from a state, for the state that is left and the states in which the calls are
    answered. *)
Fixpoint hensures {A} (p : async A) (s : S) (Q : result A -> S -> list (event * S) -> Prop) : Prop :=
  match p with
  | Done r => Q r s []
  | Await c k => forall r s', hensures (k r) s' (fun a s2 h => Q a s2 ((mkEvent c r, s') :: h))
  | Get k => hensures (k s) s Q
  | Put s' p => hensures p s' Q
  end.

(** At every moment of a run of [p] the calls made so far satisfy [I]. *)
Fixpoint always {A} (p : async A) (I : list event -> Prop) : Prop :=
  I [] /\
  match p with
  | Done _ => True
  | Await c k => forall r, always (k r) (fun tr => I (mkEvent c r :: tr))
  | Get k => forall s, always (k s) I
  | Put _ p => always p I
  end.

Lemma ensures_mono {A} (p : async A) (Q Q' : result A -> list event -> Prop) :
  (forall r tr, Q r tr -> Q' r tr) -> ensures p Q -> ensures p Q'.
Proof.
  revert Q Q'. induction p as [r|c f IH|f IH|s p IH]; intros Q Q' HQ; cbn; [auto| | |].
  - intros Hp r. eapply IH, Hp. intros a tr. apply HQ.
  - intros Hp s. by eapply IH, Hp.
  - by apply IH.
Qed.

Lemma ensures_bind {A B} (p : async A) (k : A -> async B) (Q : result B -> list event -> Prop) :
  ensures p (fun r tr => match r with
                         | Ok a => ensures (k a) (fun b tr' => Q b (tr ++ tr'))
                         | Throw e => Q (Throw e) tr
                         end) ->
  ensures (p ≫= k) Q.
Proof.
  revert Q. induction p as [[a|e]|c f IH|f IH|s p IH]; intros Q; unfold mbind; cbn; [done|done| | |].
  - intros Hp r. apply IH, Hp.
  - intros Hp s. apply IH, Hp.
  - apply IH.
Qed.

Lemma ensures_run {A} (p : async A) (Q : result A -> list event -> Prop) o s r :
  ensures p Q -> got (run p o s) = Ended r -> Q r (trace (run p o s)).
Proof.
  revert Q o s. induction p as [r'|c f IH|f IH|s' p IH]; intros Q o s Hp; cbn in *.
  - by intros [= <-].
  - destruct o as [|m o]; [done|]. intros Hr. by apply (IH _ _ _ _ (Hp _)).
  - by apply IH.
  - by apply IH.
Qed.

Lemma hensures_mono {A} (p : async A) s (Q Q' : result A -> S -> list (event * S) -> Prop) :
  (forall r s' h, Q r s' h -> Q' r s' h) -> hensures p s Q -> hensures p s Q'.
Proof.
  revert s Q Q'. induction p as [r|c f IH|f IH|s0 p IH]; intros s Q Q' HQ; cbn; [auto| |by apply IH|by apply IH].
  intros Hp r s'. eapply IH, Hp. intros a s2 h. apply HQ.
Qed.

Lemma hensures_bind {A B} (p : async A) (k : A -> async B) s (Q : result B -> S -> list (event * S) -> Prop) :
  hensures p s (fun r s' h => match r with
                              | Ok a => hensures (k a) s' (fun b s2 h' => Q b s2 (h ++ h'))
                              | Throw e => Q (Throw e) s' h
                              end) ->
  hensures (p ≫= k) s Q.
Proof.
  revert s Q. induction p as [[a|e]|c f IH|f IH|s0 p IH]; intros s Q; unfold mbind; cbn; [done|done| |apply IH|apply IH].
  intros Hp r s'. apply IH, Hp.
Qed.

Lemma hensures_of_ensures {A} (p : async A) s (Q : result A -> list event -> Prop) :
  ensures p Q -> hensures p s (fun r _ h => Q r h.*1).
Proof.
  revert s Q. induction p as [r|c f IH|f IH|s0 p IH]; intros s Q Hp; cbn in *; [done| |by apply IH|by apply IH].
  intros r s'. apply (IH r s' (fun a tr => Q a (mkEvent c r :: tr))), Hp.
Qed.

Lemma settle_hensures {A} (p : async A) s (Q : result A -> S -> list (event * S) -> Prop) :
  hensures p s Q -> hensures (settle p s).1 (settle p s).2 Q.
Proof. revert s. induction p as [r|c k IH|k IH|s' p IH]; intros s Hp; cbn in *; [done|done| |]; by apply IH. Qed.

(** [p] started in [s] may make the calls [tr], complete with [r] and leave [s'], when a call
    [c] that is made in [s1] may be answered with [a] in [s2] only if [W s1 c a s2]. *)
Inductive behaves {A} (W : S -> forall c, result (ans c) -> S -> Prop) : async A -> S -> list event -> result A -> S -> Prop :=
| behaves_done r s : behaves W (Done r) s [] r s
| behaves_await c k s a s1 tr r s' : W s c a s1 -> behaves W (k a) s1 tr r s' -> behaves W (Await c k) s (mkEvent c a :: tr) r s'
| behaves_get k s tr r s' : behaves W (k s) s tr r s' -> behaves W (Get k) s tr r s'
| behaves_put p s s1 tr r s' : behaves W p s1 tr r s' -> behaves W (Put s1 p) s tr r s'.

Lemma ensures_behaves {A} W (p : async A) (Q : result A -> list event -> Prop) s tr r s' :
  ensures p Q -> behaves W p s tr r s' -> Q r tr.
Proof.
  intros HQ Hb. revert Q HQ. induction Hb as [r s|c k s a s1 tr r s' _ Hb IH|k s tr r s' Hb IH|p s s1 tr r s' Hb IH];
    intros Q HQ; cbn in HQ; [done| | |].
  - apply (IH (fun r tr => Q r (mkEvent c a :: tr))), HQ.
  - by apply IH.
  - by apply IH.
Qed.

Lemma always_bind {A B} (p : async A) (k : A -> async B) (I : list event -> Prop) :
  always p I -> ensures p (fun r tr => match r with Ok a => always (k a) (fun tr' => I (tr ++ tr')) | Throw _ => True end) ->
  always (p ≫= k) I.
Proof.
  revert I. induction p as [[a|e]|c f IH|f IH|s p IH]; intros I [HI Hp] Hk; unfold mbind; cbn in *.
  - done.
  - done.
  - split; [done|]. intros r. by apply IH.
  - split; [done|]. intros s. by apply IH.
  - split; [done|]. by apply IH.
Qed.

Lemma always_true {A} (p : async A) (I : list event -> Prop) : (forall tr, I tr) -> always p I.
Proof. revert I. induction p as [r|c f IH|f IH|s p IH]; intros I HI; cbn; eauto. Qed.

Lemma always_run {A} (p : async A) (I : list event -> Prop) o s : always p I -> I (trace (run p o s)).
Proof.
  revert I o s. induction p as [r|c f IH|f IH|s' p IH]; intros I o s [HI Hp]; cbn in *; [done| | |].
  - destruct o as [|m o]; [done|]. apply (IH _ _ _ _ (Hp (answer m c))).
  - by apply IH.
  - by apply IH.
Qed.

Lemma within_left {A} (R : S -> S -> Prop) P (p : async A) o s : within R P o -> within R P (left (run p o s)).
Proof.
  revert o s. induction p as [r|c f IH|f IH|s' p IH]; intros o s Hw; cbn; [done| | |].
  - destruct o as [|m o]; [constructor|]. inversion Hw; subst. cbn. by apply IH.
  - by apply IH.
  - by apply IH.
Qed.
End Async.

Arguments async _ {_} _ _.
Arguments moment _ {_} _.
Arguments mkMoment {_ _ _} _ _.
Arguments run_end _ {_} _ _.
Arguments Done {_ _ _ _} _.
Arguments Await {_ _ _ _} _ _.
Arguments Get {_ _ _ _} _.
Arguments Put {_ _ _ _} _ _.
Arguments event {_} _.
Arguments mkEvent {_ _} _ _.
Arguments Ended {_ _} _.
Arguments Waits {_ _} _.
Arguments mkEnd {_ _ _ _} _ _ _ _.
Arguments got {_ _ _ _} _.
Arguments state {_ _ _ _} _.
Arguments trace {_ _ _ _} _.
Arguments left {_ _ _ _} _.
