(* ===== verification/ClientState.v ===== *)
(** * State of the client (core/sdk/src/client.ts)

    What the methods of [Client] share: the streams, the requests that are under way,
    the local store. A [SyncedStream] is an object: the map of streams, and methods that
    wait, hold references to it, so the streams live in a heap. The methods themselves
    are in [ClientStreams] and [ClientSend]; they are [async] trees over the calls
    below, so that whatever else happens to the client while one of them waits is part
    of the model. *)

From S2P Require Import Prelude Proto Externals Binary StreamId Types Sign Persistence.
From S2P Require Import StreamStateView SyncedStream DecryptionExtensions Async.

(** Coding of messages to JSON, in generated code. *)
Class JsonStrings := {
  ChannelMessage_toJsonString : ChannelMessage -> string;
  ChannelProperties_toJsonString : ChannelProperties -> string;
  FullyReadMarkers_toJsonString : FullyReadMarkers -> string;
  SessionKeys_toJsonString : list string -> string;
}.

(** ** Awaited calls *)

(** A chunk of the answer of [getStreamEx]; [Chunk_end] has no case. *)
Inductive GetStreamExChunk :=
| Chunk_miniblock (v : Miniblock)
| Chunk_minipool
| Chunk_end.

(** The calls of the node, of the sync loop, of the encryption device, of the delegate
    that reads entitlements from the chain, and of the local databases that a method
    awaits, and the events it waits for. [Entropy] is the making of an event, [StoreAccess] an access to the local store, [ViewSettled p] and
    [ScrollbackSettled p] a promise of another call, [Turn] any other [await]. *)
Inductive call :=
| Turn
| Entropy
| StoreAccess
| RpcGetStream (streamId : bytes) (optional : bool)
| RpcGetStreamEx (streamId : bytes)
| RpcCreateStream (streamId : bytes) (events : list Envelope) (metadata : option bytes)
| RpcAddEvent (streamId : bytes) (event : Envelope)
| RpcGetMiniblocks (streamId : bytes) (fromInclusive toExclusive : Z)
| RpcGetLastMiniblockHash (streamId : bytes)
| AddStreamToSync (cookie : SyncCookie)
| RemoveStreamFromSync (streamId : string)
| EncryptGroupEvent (streamId cleartext : string)
| DecryptGroupEvent (streamId : string) (data : EncryptedData)
| EncryptWithDeviceKeys (payload : string) (deviceKeys : list UserDevice)
| GetUserDevices (userId : string)
| SaveUserDevices (userId : string) (devices : list UserDevice)
| DeleteAccount (userId : string)
| InitCrypto
| IsEntitled (spaceId channelId userId permission : string)
| WaitForStreamInitialized (streamId : id_arg)
| WaitForMembership (r : nat) (op : MembershipOp)
| WaitForUserStreamUpdate (streamId : string)
| ViewSettled (p : nat)
| ScrollbackSettled (p : nat).

(** [{ terminus, firstEvent }]. *)
Record scrollback_result := mkScrollback { terminus : bool; firstEvent : option ref }.

(** What they answer; the salt and the clock of a new event are answers, too. An answer
    of [getStreamEx] is the chunks that arrived, and the error that ended them. *)
Definition ans (c : call) : Type :=
  match c with
  | Turn | StoreAccess | AddStreamToSync _ | RemoveStreamFromSync _ | SaveUserDevices _ _ | DeleteAccount _
  | WaitForStreamInitialized _ | WaitForMembership _ _ | WaitForUserStreamUpdate _ | ViewSettled _ | ScrollbackSettled _ => unit
  | Entropy => bytes * Z
  | RpcGetStream _ _ | RpcCreateStream _ _ _ => option StreamAndCookie
  | RpcGetStreamEx _ => list GetStreamExChunk * option js_error
  | RpcAddEvent _ _ => unit
  | RpcGetMiniblocks _ _ _ => list Miniblock * bool
  | RpcGetLastMiniblockHash _ => bytes
  | EncryptGroupEvent _ _ => EncryptedData
  | DecryptGroupEvent _ _ => string
  | EncryptWithDeviceKeys _ _ => gmap string string
  | GetUserDevices _ => list UserDevice
  | InitCrypto => UserDevice
  | IsEntitled _ _ _ _ => bool
  end.

Section ClientState.
Context `{Externals, Database}.

(** A [SyncedStream] without the store, which it shares with the client. *)
Record sobj := mkObj {
  o_view : StreamStateView.t;
  o_stopped : bool;
  o_isUpToDate : bool;
}.

(** The fields of [Client]: [cryptoBackend] is the keys of its device once it is
    initialized, [streams] the map of the [SyncedStreams] object, [objs] the streams
    themselves, [viewPromises] and [scrollbackPromises] the promises the request maps
    refer to, [None] while they are pending, and [emitted] what was emitted so far. *)
Record t := mk {
  userId : string;
  signerContext : SignerContext;
  userStreamId : option string;
  userSettingsStreamId : option string;
  userDeviceKeyStreamId : option string;
  userInboxStreamId : option string;
  cryptoBackend : option UserDevice;
  streams : jsmap nat;
  objs : gmap nat sobj;
  persistenceStore : store;
  getStreamRequests : jsmap nat;
  getStreamExRequests : jsmap nat;
  viewPromises : gmap nat (option (result StreamStateView.t));
  getScrollbackRequests : jsmap nat;
  scrollbackPromises : gmap nat (option (result scrollback_result));
  creatingStreamIds : gset string;
  emitted : list StreamEvents;
}.

Definition set_userStreamId (v : option string) (s : t) : t := mk (userId s) (signerContext s) v
  (userSettingsStreamId s) (userDeviceKeyStreamId s) (userInboxStreamId s) (cryptoBackend s) (streams s) (objs
  s) (persistenceStore s) (getStreamRequests s) (getStreamExRequests s) (viewPromises s) (getScrollbackRequests
  s) (scrollbackPromises s) (creatingStreamIds s) (emitted s).
Definition set_userSettingsStreamId (v : option string) (s : t) : t := mk (userId s) (signerContext s)
  (userStreamId s) v (userDeviceKeyStreamId s) (userInboxStreamId s) (cryptoBackend s) (streams s) (objs s)
  (persistenceStore s) (getStreamRequests s) (getStreamExRequests s) (viewPromises s) (getScrollbackRequests s)
  (scrollbackPromises s) (creatingStreamIds s) (emitted s).
Definition set_userDeviceKeyStreamId (v : option string) (s : t) : t := mk (userId s) (signerContext s)
  (userStreamId s) (userSettingsStreamId s) v (userInboxStreamId s) (cryptoBackend s) (streams s) (objs s)
  (persistenceStore s) (getStreamRequests s) (getStreamExRequests s) (viewPromises s) (getScrollbackRequests s)
  (scrollbackPromises s) (creatingStreamIds s) (emitted s).
Definition set_userInboxStreamId (v : option string) (s : t) : t := mk (userId s) (signerContext s)
  (userStreamId s) (userSettingsStreamId s) (userDeviceKeyStreamId s) v (cryptoBackend s) (streams s) (objs s)
  (persistenceStore s) (getStreamRequests s) (getStreamExRequests s) (viewPromises s) (getScrollbackRequests s)
  (scrollbackPromises s) (creatingStreamIds s) (emitted s).
Definition set_cryptoBackend (v : option UserDevice) (s : t) : t := mk (userId s) (signerContext s)
  (userStreamId s) (userSettingsStreamId s) (userDeviceKeyStreamId s) (userInboxStreamId s) v (streams s) (objs
  s) (persistenceStore s) (getStreamRequests s) (getStreamExRequests s) (viewPromises s) (getScrollbackRequests
  s) (scrollbackPromises s) (creatingStreamIds s) (emitted s).
Definition set_streams (v : jsmap nat) (s : t) : t := mk (userId s) (signerContext s) (userStreamId s)
  (userSettingsStreamId s) (userDeviceKeyStreamId s) (userInboxStreamId s) (cryptoBackend s) v (objs s)
  (persistenceStore s) (getStreamRequests s) (getStreamExRequests s) (viewPromises s) (getScrollbackRequests s)
  (scrollbackPromises s) (creatingStreamIds s) (emitted s).
Definition set_objs (v : gmap nat sobj) (s : t) : t := mk (userId s) (signerContext s) (userStreamId s)
  (userSettingsStreamId s) (userDeviceKeyStreamId s) (userInboxStreamId s) (cryptoBackend s) (streams s) v
  (persistenceStore s) (getStreamRequests s) (getStreamExRequests s) (viewPromises s) (getScrollbackRequests s)
  (scrollbackPromises s) (creatingStreamIds s) (emitted s).
Definition set_persistenceStore (v : store) (s : t) : t := mk (userId s) (signerContext s) (userStreamId s)
  (userSettingsStreamId s) (userDeviceKeyStreamId s) (userInboxStreamId s) (cryptoBackend s) (streams s) (objs
  s) v (getStreamRequests s) (getStreamExRequests s) (viewPromises s) (getScrollbackRequests s)
  (scrollbackPromises s) (creatingStreamIds s) (emitted s).
Definition set_getStreamRequests (v : jsmap nat) (s : t) : t := mk (userId s) (signerContext s) (userStreamId
  s) (userSettingsStreamId s) (userDeviceKeyStreamId s) (userInboxStreamId s) (cryptoBackend s) (streams s)
  (objs s) (persistenceStore s) v (getStreamExRequests s) (viewPromises s) (getScrollbackRequests s)
  (scrollbackPromises s) (creatingStreamIds s) (emitted s).
Definition set_getStreamExRequests (v : jsmap nat) (s : t) : t := mk (userId s) (signerContext s)
  (userStreamId s) (userSettingsStreamId s) (userDeviceKeyStreamId s) (userInboxStreamId s) (cryptoBackend s)
  (streams s) (objs s) (persistenceStore s) (getStreamRequests s) v (viewPromises s) (getScrollbackRequests s)
  (scrollbackPromises s) (creatingStreamIds s) (emitted s).
Definition set_viewPromises (v : gmap nat (option (result StreamStateView.t))) (s : t) : t := mk (userId s)
  (signerContext s) (userStreamId s) (userSettingsStreamId s) (userDeviceKeyStreamId s) (userInboxStreamId s)
  (cryptoBackend s) (streams s) (objs s) (persistenceStore s) (getStreamRequests s) (getStreamExRequests s) v
  (getScrollbackRequests s) (scrollbackPromises s) (creatingStreamIds s) (emitted s).
Definition set_getScrollbackRequests (v : jsmap nat) (s : t) : t := mk (userId s) (signerContext s)
  (userStreamId s) (userSettingsStreamId s) (userDeviceKeyStreamId s) (userInboxStreamId s) (cryptoBackend s)
  (streams s) (objs s) (persistenceStore s) (getStreamRequests s) (getStreamExRequests s) (viewPromises s) v
  (scrollbackPromises s) (creatingStreamIds s) (emitted s).
Definition set_scrollbackPromises (v : gmap nat (option (result scrollback_result))) (s : t) : t := mk (userId
  s) (signerContext s) (userStreamId s) (userSettingsStreamId s) (userDeviceKeyStreamId s) (userInboxStreamId s)
  (cryptoBackend s) (streams s) (objs s) (persistenceStore s) (getStreamRequests s) (getStreamExRequests s)
  (viewPromises s) (getScrollbackRequests s) v (creatingStreamIds s) (emitted s).
Definition set_creatingStreamIds (v : gset string) (s : t) : t := mk (userId s) (signerContext s)
  (userStreamId s) (userSettingsStreamId s) (userDeviceKeyStreamId s) (userInboxStreamId s) (cryptoBackend s)
  (streams s) (objs s) (persistenceStore s) (getStreamRequests s) (getStreamExRequests s) (viewPromises s)
  (getScrollbackRequests s) (scrollbackPromises s) v (emitted s).
Definition set_emitted (v : list StreamEvents) (s : t) : t := mk (userId s) (signerContext s) (userStreamId s)
  (userSettingsStreamId s) (userDeviceKeyStreamId s) (userInboxStreamId s) (cryptoBackend s) (streams s) (objs
  s) (persistenceStore s) (getStreamRequests s) (getStreamExRequests s) (viewPromises s) (getScrollbackRequests
  s) (scrollbackPromises s) (creatingStreamIds s) v.

Abbreviation M := (async t ans).

(** The constructor of [Client], given a signer context. *)
Definition new (context : SignerContext) (store : store) : result t :=
  assert (length (creatorAddress context) =? 20)%nat "creatorAddress must be set";;
  assert (String.length (signerPrivateKey context) =? 64)%nat "signerPrivateKey must be set";;
  userId ← userIdFromAddress (creatorAddress context);
  mret (mk userId context None None None None None [] ∅ store [] [] ∅ [] ∅ ∅ []).

(** ** Access to streams *)

(** [this.stream(streamId)]: a reference, or undefined. *)
Definition stream (streamId : id_arg) (s : t) : option nat := jm_get (streamIdAsString streamId) (streams s).

(** Run a method of a stream object. *)
Definition on_stream {A} (r : nat) (m : SM SyncedStream.t A) (s : t) : result A * t :=
  match objs s !! r with
  | None => (Throw (JsError "Cannot read properties of undefined"), s)
  | Some o =>
      let out := m (SyncedStream.mkT (o_view o) (o_stopped o) (o_isUpToDate o) (persistenceStore s)) in
      let o' := post out in
      (res out,
       set_emitted (emitted s ++ emits out)
         (set_persistenceStore (SyncedStream.persistenceStore o')
           (set_objs (<[r := mkObj (SyncedStream.view o') (SyncedStream.stopped o') (SyncedStream.isUpToDate o')]> (objs s)) s)))
  end.

(** Run a method of the view of a stream object. *)
Definition on_view {A} (r : nat) (m : SM StreamStateView.t A) : t -> result A * t :=
  on_stream r (js_zoom SyncedStream.viewL m).

(** Read the view a stream has now. *)
Definition view_of (r : nat) (s : t) : result StreamStateView.t :=
  match objs s !! r with
  | Some o => Ok (o_view o)
  | None => Throw (JsError "Cannot read properties of undefined")
  end.

(** [check(isDefined(x), message)], of core/dlog, and [assert], of the SDK. *)
Definition a_some {A} (x : option A) (message : string) : M A :=
  match x with
  | Some a => mret a
  | None => a_lift (throwWithCode (Some message) None)
  end.
Definition a_assert {A} (x : option A) (message : string) : M A :=
  match x with
  | Some a => mret a
  | None => a_throw (JsError message)
  end.
Definition a_must (b : bool) (message : string) : M unit := a_lift (check b (Some message) None).

Definition createSyncedStream (streamId : id_arg) : M nat :=
  self ← a_get;
  a_must (negb (is_defined (stream streamId self))) "stream already exists";;
  obj ← a_lift (SyncedStream.new (userId self) (streamIdAsString streamId) (persistenceStore self));
  let r := fresh (dom (objs self)) in
  a_modify (fun s => set_streams (jm_set (streamIdAsString streamId) r (streams s))
    (set_objs (<[r := mkObj (SyncedStream.view obj) false false]> (objs s)) s));;
  mret r.

(** [this.streams.delete(streamId)]: the stream is stopped and forgotten. *)
Definition deleteStream (streamId : id_arg) : M unit :=
  self ← a_get;
  match stream streamId self with
  | Some r => a_do (on_stream r (js_modify SyncedStream.stop))
  | None => mret tt
  end;;
  a_modify (fun s => set_streams (jm_delete (streamIdAsString streamId) (streams s)) s).

Definition userDeviceKey : M UserDevice :=
  self ← a_get;
  a_assert (cryptoBackend self) "cryptoBackend not initialized".
End ClientState.

(** The methods of the client. *)
Abbreviation ClientM := (async ClientState.t ClientState.ans).
