(* ===== verification/ClientSend.v ===== *)
(** * Sending events (core/sdk/src/client.ts)

    How the client adds an event to a stream: it is signed over the last known
    miniblock, a local copy is shown meanwhile, and when the node knows a newer
    miniblock the event is made again. On it the methods that send messages,
    memberships, names, settings, keys and acknowledgements. *)

From S2P Require Import Prelude Proto Externals Binary StreamId Types Sign Payloads Persistence.
From S2P Require Import StreamStateView SyncedStream DecryptionExtensions RpcClient Async ClientState.

Section ClientSend.
Context `{Externals, Database, Crypto, JsonStrings}.

(** [stream?.view.updateLocalEvent(localId, eventId, status, this)] where the stream may
    be gone. *)
Definition updateLocalEventOf (streamId : id_arg) (localId eventId : string) (status : LocalEventStatus) : ClientM unit :=
  self ← a_get;
  match stream streamId self with
  | Some r => a_do (on_view r (StreamStateView.updateLocalEvent localId eventId status true))
  | None => mret tt
  end.

(** [makeEvent(this.signerContext, payload, prevMiniblockHash)]. *)
Definition makeEventOf (payload : StreamEvent_payload) (prevMiniblockHash : option bytes) : ClientM Envelope :=
  self ← a_get;
  e ← a_await Entropy;
  a_lift (makeEvent e.1 e.2 (signerContext self) (Some payload) prevMiniblockHash).

(** The local event, if there is one, takes the id of the event. *)
Definition showSending (streamId : id_arg) (localId : option string) (eventId : string) : ClientM unit :=
  match truthy_str localId with
  | Some localId =>
      self ← a_get;
      _ ← a_assert (stream streamId self) ("unknown stream " +:+ streamIdAsString streamId);
      updateLocalEventOf streamId localId eventId Status_sending
  | None => mret tt
  end.

Definition cacheCleartext (eventId : string) (cleartext : option string) : ClientM unit :=
  match truthy_str cleartext with
  | Some cleartext =>
      a_await StoreAccess;;
      a_modify (fun s => set_persistenceStore (saveCleartext eventId cleartext (persistenceStore s)) s)
  | None => mret tt
  end.

Definition showStatus (streamId : id_arg) (localId : option string) (eventId : string) (status : LocalEventStatus)
    : ClientM unit :=
  match truthy_str localId with
  | Some localId => updateLocalEventOf streamId localId eventId status
  | None => mret tt
  end.

(** [retries] is how many retries are left, 3 at first. *)
Fixpoint makeEventWithHashAndAddToStream (retries : nat) (streamId : id_arg) (payload : StreamEvent_payload)
    (prevMiniblockHash : bytes) (localId cleartext : option string) : ClientM (bytes * string) :=
  event ← makeEventOf payload (Some prevMiniblockHash);
  let eventId := bin_toHexString (env_hash event) in
  showSending streamId localId eventId;;
  cacheCleartext eventId cleartext;;
  a_try
    (id ← a_lift (streamIdAsBytes streamId);
     a_await (RpcAddEvent id event);;
     showStatus streamId localId eventId Status_sent;;
     mret (prevMiniblockHash, eventId))
    (fun err =>
       match errorContains err Err_BAD_PREV_MINIBLOCK_HASH, retries with
       | true, S retries =>
           expectedHash ← a_some (getRpcErrorProperty err "expected") "expected hash not found in error";
           prev ← a_lift (bin_fromHexString expectedHash);
           makeEventWithHashAndAddToStream retries streamId payload prev
             (if is_defined localId then Some eventId else None) cleartext
       | _, _ =>
           showStatus streamId localId eventId Status_failed;;
           a_throw err
       end).

Definition MAX_RETRIES : nat := 3.

Definition makeEventAndAddToStream (streamId : id_arg) (payload : StreamEvent_payload)
    (localId cleartext : option string) : ClientM string :=
  self ← a_get;
  _ ← a_assert (userStreamId self) "userStreamId must be set";
  r ← a_assert (stream streamId self) ("unknown stream " +:+ streamIdAsString streamId);
  view ← a_lift (view_of r self);
  prevHash ← a_assert (prevMiniblockHash view) ("no prev miniblock hash for stream " +:+ streamIdAsString streamId);
  added ← makeEventWithHashAndAddToStream MAX_RETRIES streamId payload prevHash localId cleartext;
  mret added.2.

(** ** Messages *)

Definition encryptGroupEvent (event : ChannelMessage) (streamId : string) : ClientM EncryptedData :=
  self ← a_get;
  _ ← a_assert (cryptoBackend self) "crypto backend not initialized";
  a_await (EncryptGroupEvent streamId (ChannelMessage_toJsonString event)).

Definition set_refEventId (refEventId : option string) (d : EncryptedData) : EncryptedData :=
  mkEncryptedData (ed_ciphertext d) (ed_algorithm d) (ed_senderKey d) (ed_sessionId d) (ed_checksum d) refEventId.
Definition set_checksum (checksum : option string) (d : EncryptedData) : EncryptedData :=
  mkEncryptedData (ed_ciphertext d) (ed_algorithm d) (ed_senderKey d) (ed_sessionId d) checksum (ed_refEventId d).

Definition makeAndSendChannelMessageEvent (streamId : string) (payload : ChannelMessage) (localId : option string)
    : ClientM string :=
  let id := IdString streamId in
  self ← a_get;
  _ ← a_some (stream id self) "stream not found";
  let cleartext := ChannelMessage_toJsonString payload in
  data ← encryptGroupEvent payload streamId;
  let message := set_refEventId (getRefEventIdFromChannelMessage payload) data in
  if isChannelStreamId id then
    makeEventAndAddToStream id (make_ChannelPayload_Message message) localId (Some cleartext)
  else if isDMChannelStreamId id then
    makeEventAndAddToStream id (make_DMChannelPayload_Message message) localId (Some cleartext)
  else if isGDMChannelStreamId id then
    makeEventAndAddToStream id (make_GDMChannelPayload_Message message) localId (Some cleartext)
  else a_throw (JsError ("invalid streamId: " +:+ streamId)).

(** [localId] and [now] are what [genLocalId] and the clock give [appendLocalEvent];
    [hook] whether there is a [beforeSendEventHook] to await. *)
Definition sendChannelMessage (localId : string) (now : Z) (streamId : string) (payload : ChannelMessage)
    (hook : bool) : ClientM string :=
  self ← a_get;
  r ← a_some (stream (IdString streamId) self) "stream not found";
  localId ← a_do (on_view r (StreamStateView.appendLocalEvent localId now payload Status_sending true));
  (if hook then a_await Turn else mret tt);;
  makeAndSendChannelMessageEvent streamId payload (Some localId).

Definition sendChannelMessage_Text localId now streamId (threadId threadPreview replyId replyPreview : option string)
    (body : string) (mentions : list Mention) (attachments : list Attachment) hook : ClientM string :=
  sendChannelMessage localId now streamId (mkChannelMessage (Some (ChannelMessage_post
    (mkPost threadId threadPreview replyId replyPreview (Some (PostContent_text body mentions attachments)))))) hook.

Definition sendMessage localId now streamId (body : string) (mentions : option (list Mention))
    (attachments : list Attachment) : ClientM string :=
  sendChannelMessage_Text localId now streamId None None None None body (default [] mentions) attachments false.

Definition sendChannelMessage_Image localId now streamId (threadId threadPreview replyId replyPreview : option string)
    (content : Image) hook : ClientM string :=
  sendChannelMessage localId now streamId (mkChannelMessage (Some (ChannelMessage_post
    (mkPost threadId threadPreview replyId replyPreview (Some (PostContent_image content)))))) hook.

Definition sendChannelMessage_GM localId now streamId (threadId threadPreview replyId replyPreview : option string)
    (typeUrl : string) (value : option bytes) hook : ClientM string :=
  sendChannelMessage localId now streamId (mkChannelMessage (Some (ChannelMessage_post
    (mkPost threadId threadPreview replyId replyPreview (Some (PostContent_gm typeUrl value)))))) hook.

Definition sendChannelMessage_Reaction localId now streamId (refEventId reaction : string) hook : ClientM string :=
  sendChannelMessage localId now streamId (make_ChannelMessage_Reaction refEventId reaction) hook.

Definition sendChannelMessage_Redaction localId now streamId (refEventId : string) (reason : option string) : ClientM string :=
  self ← a_get;
  r ← a_assert (stream (IdString streamId) self) ("stream not found: " +:+ streamId);
  view ← a_lift (view_of r self);
  _ ← a_assert (events view !! refEventId) ("ref event not found: " +:+ refEventId);
  sendChannelMessage localId now streamId (make_ChannelMessage_Redaction refEventId reason) false.

Definition sendChannelMessage_Edit localId now streamId (refEventId : string) (newPost : Post) : ClientM string :=
  sendChannelMessage localId now streamId (make_ChannelMessage_Edit refEventId newPost) false.

Definition sendChannelMessage_Edit_Text localId now streamId (refEventId : string)
    (threadId threadPreview replyId replyPreview : option string)
    (body : string) (mentions : list Mention) (attachments : list Attachment) : ClientM string :=
  sendChannelMessage_Edit localId now streamId refEventId
    (mkPost threadId threadPreview replyId replyPreview (Some (PostContent_text body mentions attachments))).

Definition redactMessage (streamId eventId : string) : ClientM string :=
  self ← a_get;
  _ ← a_some (stream (IdString streamId) self) "stream not found";
  hash ← a_lift (bin_fromHexString eventId);
  makeEventAndAddToStream (IdString streamId) (make_ChannelPayload_Redaction hash) None None.

Definition retrySendMessage (streamId localId : string) : ClientM unit :=
  self ← a_get;
  r ← a_some (stream (IdString streamId) self) ("stream not found" +:+ streamId);
  view ← a_lift (view_of r self);
  er ← a_some (events view !! localId) "event not found";
  event ← a_some (heap view !! er) "event not found";
  localEvent ← a_some (te_localEvent event) "event not found";
  a_must (match le_status localEvent with Status_failed => true | _ => false end) "event not in failed state";;
  _ ← makeAndSendChannelMessageEvent streamId (le_channelMessage localEvent) (Some (te_hashStr event));
  mret tt.

Definition sendMediaPayload (streamId : string) (data : bytes) (chunkIndex : Z) (prevMiniblockHash : bytes) : ClientM bytes :=
  added ← makeEventWithHashAndAddToStream MAX_RETRIES (IdString streamId) (make_MediaPayload_Chunk (mkMediaChunk data chunkIndex))
    prevMiniblockHash None None;
  mret added.1.
End ClientSend.
