(* ===== verification/ClientStreams.v ===== *)
(** * Streams of the client (core/sdk/src/client.ts)

    How the client gets at streams: views of any stream straight from the node, the
    streams of the user from the local store or from the node, new streams, and the
    history of a stream, miniblock by miniblock. *)

From S2P Require Import Prelude Proto Externals Binary StreamId Types Content User Sign Payloads Persistence.
From S2P Require Import StreamStateView SyncedStream DecryptionExtensions Async ClientState ClientSend.

Section ClientStreams.
Context `{Externals, Database, Crypto, JsonStrings}.

(** ** Views from the node *)

Definition streamViewFromUnpackedResponse (userId : string) (streamId : id_arg) (unpackedResponse : ParsedStreamResponse)
    : result StreamStateView.t :=
  streamView ← StreamStateView.new userId (streamIdAsString streamId);
  let sc := psr_streamAndCookie unpackedResponse in
  let o := StreamStateView.initialize (psc_nextSyncCookie sc) (psc_events sc) (psr_snapshot unpackedResponse)
             (psc_miniblocks sc) [] (psr_prevSnapshotMiniblockNum unpackedResponse) None [] false streamView in
  _ ← res o;
  mret (post o).

Definition _getStream (streamId : string) : ClientM StreamStateView.t :=
  self ← a_get;
  id ← a_lift (streamIdAsBytes (IdString streamId));
  response ← a_await (RpcGetStream id false);
  unpackedResponse ← a_lift (unpackStream response);
  a_lift (streamViewFromUnpackedResponse (userId self) (IdString streamId) unpackedResponse).

(** The chunks of [getStreamEx]: the miniblocks, and whether the end was seen. *)
Fixpoint read_chunks (streamId : string) (chunks : list GetStreamExChunk) (seenEndOfStream : bool)
    : result (list Miniblock * bool) :=
  match chunks with
  | [] => mret ([], seenEndOfStream)
  | Chunk_miniblock mb :: chunks =>
      if seenEndOfStream
      then Throw (JsError ("GetStreamEx: received miniblock after minipool contents for stream " +:+ streamId +:+ "."))
      else rest ← read_chunks streamId chunks seenEndOfStream; mret (mb :: rest.1, rest.2)
  | Chunk_minipool :: chunks => read_chunks streamId chunks seenEndOfStream
  | Chunk_end :: chunks => read_chunks streamId chunks true
  end.

Definition _getStreamEx (streamId : string) : ClientM StreamStateView.t :=
  self ← a_get;
  id ← a_lift (streamIdAsBytes (IdString streamId));
  response ← a_await (RpcGetStreamEx id);
  read ← a_lift (read_chunks streamId response.1 false);
  match response.2 with
  | Some err => a_throw err
  | None => mret tt
  end;;
  if negb read.2
  then a_throw (JsError ("Failed receive all getStreamEx streaming responses for stream " +:+ streamId +:+ "."))
  else
    unpackedResponse ← a_lift (unpackStreamEx read.1);
    a_lift (streamViewFromUnpackedResponse (userId self) (IdString streamId) unpackedResponse).

(** Run [p] as the body of promise [n]. *)
Definition settle_view (n : nat) (p : ClientM StreamStateView.t) : ClientM StreamStateView.t :=
  let set (r : result StreamStateView.t) := a_modify (fun s => set_viewPromises (<[n := Some r]> (viewPromises s)) s) in
  a_try (v ← p; set (Ok v);; mret v) (fun e => set (Throw e);; a_throw e).

(** [await request]: resumed once the promise is settled. *)
Definition await_view (n : nat) : ClientM StreamStateView.t :=
  Await (ViewSettled n) (fun _ =>
    self ← a_get;
    match viewPromises self !! n with
    | Some (Some r) => a_lift r
    | _ => a_throw (JsError "pending")
    end).

Definition getStream (streamId : string) : ClientM StreamStateView.t :=
  self ← a_get;
  match jm_get streamId (getStreamRequests self) with
  | Some existingRequest => await_view existingRequest
  | None =>
      let request := fresh (dom (viewPromises self)) in
      a_modify (fun s => set_getStreamRequests (jm_set streamId request (getStreamRequests s))
        (set_viewPromises (<[request := None]> (viewPromises s)) s));;
      streamView ← settle_view request (_getStream streamId);
      a_modify (fun s => set_getStreamRequests (jm_delete streamId (getStreamRequests s)) s);;
      mret streamView
  end.

Definition getStreamEx (streamId : string) : ClientM StreamStateView.t :=
  self ← a_get;
  match jm_get streamId (getStreamExRequests self) with
  | Some existingRequest => await_view existingRequest
  | None =>
      let request := fresh (dom (viewPromises self)) in
      a_modify (fun s => set_getStreamExRequests (jm_set streamId request (getStreamExRequests s))
        (set_viewPromises (<[request := None]> (viewPromises s)) s));;
      streamView ← settle_view request (_getStreamEx streamId);
      a_modify (fun s => set_getStreamExRequests (jm_delete streamId (getStreamExRequests s)) s);;
      mret streamView
  end.

(** ** Streams that are kept in sync *)

(** [await stream.initializeFromPersistence()]. *)
Definition initFromPersistence (r : nat) : ClientM bool :=
  a_await StoreAccess;;
  a_do (on_stream r SyncedStream.initializeFromPersistence).

(** [if (stream.view.syncCookie) await this.streams.addStreamToSync(...)]. *)
Definition addToSync (r : nat) : ClientM unit :=
  self ← a_get;
  view ← a_lift (view_of r self);
  match syncCookie view with
  | Some cookie => a_await (AddStreamToSync cookie)
  | None => mret tt
  end.

Definition waitForStream (streamId : id_arg) : ClientM nat :=
  self ← a_get;
  let initialized :=
    match stream streamId self with
    | Some r => match view_of r self with Ok v => isInitialized v | Throw _ => false end
    | None => false
    end in
  match stream streamId self, initialized with
  | Some r, true => mret r
  | _, _ =>
      a_await (WaitForStreamInitialized streamId);;
      self ← a_get;
      a_assert (stream streamId self) ("Stream " +:+ streamIdAsString streamId +:+ " not found after waiting")
  end.

(** The part of [initStream] that asks the node. *)
Definition initFromNode (streamId : id_arg) (r : nat) : ClientM unit :=
  id ← a_lift (streamIdAsBytes streamId);
  response ← a_await (RpcGetStream id false);
  unpacked ← a_lift (unpackStream response);
  a_do (on_stream r (SyncedStream.initializeFromResponse unpacked));;
  addToSync r.

Definition initStream (streamId : id_arg) (allowGetStream : bool) : ClientM nat :=
  self ← a_get;
  match stream streamId self with
  | Some r =>
      view ← a_lift (view_of r self);
      if StreamStateView.isInitialized view then mret r else waitForStream streamId
  | None =>
      r ← createSyncedStream streamId;
      initialized ← initFromPersistence r;
      if (initialized : bool) then
        addToSync r;;
        mret r
      else if negb allowGetStream then
        deleteStream streamId;;
        a_throw (JsError ("Failed to initialize stream " +:+ streamIdAsString streamId +:+ " from persistence"))
      else
        a_try (initFromNode streamId r) (fun _ => deleteStream streamId);;
        mret r
  end.

(** Handlers of the events of the user stream. *)
Definition onJoinedStream (streamId : string) : ClientM unit :=
  self ← a_get;
  if negb (bool_decide (streamId ∈ creatingStreamIds self)) then
    _ ← initStream (IdString streamId) true; mret tt
  else mret tt.

Definition onInvitedToStream (streamId : string) : ClientM unit :=
  if isDMChannelStreamId (IdString streamId) || isGDMChannelStreamId (IdString streamId) then
    _ ← initStream (IdString streamId) true; mret tt
  else mret tt.

Definition onLeftStream (streamId : string) : ClientM unit := a_await (RemoveStreamFromSync streamId).

(** The streams of the user that are to be loaded: those joined, and the direct messages
    the user is invited to. *)
Definition isLoaded (streamId : string) (payload : UserMembership) : bool :=
  bool_decide (um_op payload = SO_JOIN)
  || bool_decide (um_op payload = SO_INVITE) && (isDMChannelStreamId (IdString streamId) || isGDMChannelStreamId (IdString streamId)).

(** What [initUserJoinedStreams] hands to [setStreamIds]. *)
Definition joinedStreamIds (memberships : gmap string UserMembership) : list string :=
  map fst (filter (fun m => isLoaded m.1 m.2 = true) (map_to_list memberships)).

Definition initUserJoinedStreams : ClientM (list string) :=
  self ← a_get;
  id ← a_assert (userStreamId self) "userStreamId must be set";
  r ← a_assert (stream (IdString id) self) "userStream must be set";
  view ← a_lift (view_of r self);
  user ← a_lift (userContent view);
  mret (joinedStreamIds (streamMemberships user)).

(** ** The streams of the user *)

Definition getUserStream (streamId : id_arg) : ClientM (option ParsedStreamResponse) :=
  id ← a_lift (streamIdAsBytes streamId);
  response ← a_await (RpcGetStream id true);
  match response with
  | Some stream => unpacked ← a_lift (unpackStream (Some stream)); mret (Some unpacked)
  | None => mret None
  end.

(** [createUserStream], [createUserDeviceKeyStream], [createUserInboxStream] and
    [createUserSettingsStream]: they differ in the inception payload. *)
Definition createStreamOfUser (inception : Inception -> StreamEvent_payload) (streamId : id_arg) (metadata : option bytes)
    : ClientM ParsedStreamResponse :=
  id ← a_lift (streamIdAsBytes streamId);
  event ← makeEventOf (inception (mkInception id None)) None;
  response ← a_await (RpcCreateStream id [event] metadata);
  a_lift (unpackStream response).
Definition createUserStream := createStreamOfUser make_UserPayload_Inception.
Definition createUserDeviceKeyStream := createStreamOfUser make_UserDeviceKeyPayload_Inception.
Definition createUserInboxStream := createStreamOfUser make_UserInboxPayload_Inception.
Definition createUserSettingsStream := createStreamOfUser make_UserSettingsPayload_Inception.

(** [initUserStream], [initUserInboxStream], [initUserDeviceKeyStream] and
    [initUserSettingsStream], after the id was stored by [setId]. *)
Definition initStreamOfUser (makeId : id_arg -> string -> result string) (setId : option string -> t -> t)
    (create : id_arg -> option bytes -> ClientM ParsedStreamResponse) (metadata : option bytes) : ClientM unit :=
  self ← a_get;
  sid ← a_lift (makeId (IdString (userId self)) (userId self));
  a_modify (setId (Some sid));;
  r ← createSyncedStream (IdString sid);
  initialized ← initFromPersistence r;
  if (initialized : bool) then mret tt
  else
    found ← getUserStream (IdString sid);
    response ← match found with
               | Some response => mret response
               | None => create (IdString sid) metadata
               end;
    a_do (on_stream r (SyncedStream.initializeFromResponse response)).
Definition initUserStream := initStreamOfUser makeUserStreamId set_userStreamId createUserStream.
Definition initUserInboxStream := initStreamOfUser makeUserInboxStreamId set_userInboxStreamId createUserInboxStream.
Definition initUserDeviceKeyStream :=
  initStreamOfUser makeUserDeviceKeyStreamId set_userDeviceKeyStreamId createUserDeviceKeyStream.
Definition initUserSettingsStream :=
  initStreamOfUser makeUserSettingsStreamId set_userSettingsStreamId createUserSettingsStream.

(** ** New streams *)

Definition createStreamAndSync (streamId : bytes) (events : list Envelope) : ClientM string :=
  let sid := streamIdAsString (IdBytes streamId) in
  a_try
    (a_modify (fun s => set_creatingStreamIds ({[sid]} ∪ creatingStreamIds s) s);;
     response ← a_await (RpcCreateStream streamId events None);
     r ← createSyncedStream (IdString sid);
     response ← match response with
                | Some _ => mret response
                | None => a_await (RpcGetStream streamId false)
                end;
     unpacked ← a_lift (unpackStream response);
     a_do (on_stream r (SyncedStream.initializeFromResponse unpacked));;
     addToSync r;;
     mret sid)
    (fun err =>
       a_modify (fun s => set_creatingStreamIds (creatingStreamIds s ∖ {[sid]}) s);;
       a_throw err).

(** [make_MemberPayload_Membership2] of a user that joins, sent by this client. *)
Definition makeJoinEvent (user : string) : ClientM Envelope :=
  self ← a_get;
  payload ← a_lift (make_MemberPayload_Membership2 user SO_JOIN (userId self) None);
  makeEventOf payload None.

Definition createSpace (spaceAddressOrId : string) : ClientM string :=
  self ← a_get;
  oSpaceId ← (if (String.length spaceAddressOrId =? STREAM_ID_STRING_LENGTH)%nat then mret spaceAddressOrId
              else a_lift (makeSpaceStreamId spaceAddressOrId));
  spaceId ← a_lift (streamIdAsBytes (IdString oSpaceId));
  _ ← a_assert (userStreamId self) "streamId must be set";
  a_lift (assert (isSpaceStreamId (IdBytes spaceId)) "spaceId must be a valid streamId");;
  inceptionEvent ← makeEventOf (make_SpacePayload_Inception (mkInception spaceId None)) None;
  joinEvent ← makeJoinEvent (userId self);
  createStreamAndSync spaceId [inceptionEvent; joinEvent].

Definition createChannel (spaceId inChannelId : id_arg) (streamSettings : option StreamSettings) : ClientM string :=
  self ← a_get;
  channelId ← a_lift (streamIdAsBytes inChannelId);
  _ ← a_assert (userStreamId self) "userStreamId must be set";
  a_lift (assert (isSpaceStreamId spaceId) "spaceId must be a valid streamId");;
  a_lift (assert (isChannelStreamId (IdBytes channelId)) "channelId must be a valid streamId");;
  space ← a_lift (streamIdAsBytes spaceId);
  inceptionEvent ← makeEventOf (make_ChannelPayload_Inception (mkChannelInception channelId space streamSettings)) None;
  joinEvent ← makeJoinEvent (userId self);
  createStreamAndSync channelId [inceptionEvent; joinEvent].

Definition createDMChannel (user : string) (streamSettings : option StreamSettings) : ClientM string :=
  self ← a_get;
  channelIdStr ← a_lift (makeDMStreamId (userId self) user);
  channelId ← a_lift (streamIdAsBytes (IdString channelIdStr));
  secondParty ← a_lift (addressFromUserId user);
  inceptionEvent ← makeEventOf (make_DMChannelPayload_Inception
    (mkDmChannelInception channelId (creatorAddress (signerContext self)) secondParty streamSettings)) None;
  joinEvent ← makeJoinEvent (userId self);
  inviteEvent ← makeJoinEvent user;
  createStreamAndSync channelId [inceptionEvent; joinEvent; inviteEvent].

Fixpoint makeJoinEvents (users : list string) : ClientM (list Envelope) :=
  match users with
  | [] => mret []
  | user :: users =>
      inviteEvent ← makeJoinEvent user;
      rest ← makeJoinEvents users;
      mret (inviteEvent :: rest)
  end.

(** [random] is what [genId] returns. *)
Definition createGDMChannel (random : string) (userIds : list string) (channelProperties : option EncryptedData)
    (streamSettings : option StreamSettings) : ClientM string :=
  self ← a_get;
  channelIdStr ← a_lift (makeUniqueGDMChannelStreamId random);
  channelId ← a_lift (streamIdAsBytes (IdString channelIdStr));
  inceptionEvent ← makeEventOf (make_GDMChannelPayload_Inception
    (mkGdmChannelInception channelId channelProperties streamSettings)) None;
  joinEvent ← makeJoinEvent (userId self);
  invites ← makeJoinEvents userIds;
  createStreamAndSync channelId (inceptionEvent :: joinEvent :: invites).

(** The id of the new stream and the hash its first chunk has to refer to. *)
Definition createMediaStream (random : string) (channelId : id_arg) (spaceId : option id_arg) (chunkCount : Z)
    (streamSettings : option StreamSettings) : ClientM (string * bytes) :=
  streamId ← a_lift (makeUniqueMediaStreamId random);
  self ← a_get;
  _ ← a_assert (userStreamId self) "userStreamId must be set";
  a_lift (assert (isChannelStreamId channelId || isDMChannelStreamId channelId || isGDMChannelStreamId channelId)
            "channelId must be a valid streamId");;
  id ← a_lift (streamIdAsBytes (IdString streamId));
  channel ← a_lift (streamIdAsBytes channelId);
  space ← match spaceId with
          | Some i =>
              if match i with IdString s => String.eqb s "" | IdBytes _ => false end then mret None
              else b ← a_lift (streamIdAsBytes i); mret (Some b)
          | None => mret None
          end;
  inceptionEvent ← makeEventOf (make_MediaPayload_Inception (mkMediaInception id channel chunkCount streamSettings space)) None;
  response ← a_await (RpcCreateStream id [inceptionEvent] None);
  unpackedResponse ← a_lift (unpackStream response);
  streamView ← a_lift (streamViewFromUnpackedResponse (userId self) (IdString streamId) unpackedResponse);
  hash ← a_some (prevMiniblockHash streamView) "prevMiniblockHash must be defined";
  mret (streamId, hash).

(** ** History *)

(** What the loop over the local store found: the miniblocks in the order they were
    read, the end of what is still missing, and whether it ended without an error. *)
Record cached := mkCached { c_blocks : list ParsedMiniblock; c_toExclusive : Z; c_completed : bool }.

(** The loop from miniblock [i] down, [n] of them. *)
Fixpoint read_cached (streamId : string) (n : nat) (i toExclusive : Z) (acc : list ParsedMiniblock) : ClientM cached :=
  match n with
  | O => mret (mkCached acc toExclusive true)
  | S n =>
      read ← a_try
        (a_await StoreAccess;;
         self ← a_get;
         miniblock ← a_lift (getMiniblock streamId i (persistenceStore self));
         mret (Some miniblock))
        (fun _ => mret None);
      match read with
      | None => mret (mkCached acc toExclusive false)
      | Some None => mret (mkCached acc toExclusive true)
      | Some (Some miniblock) => read_cached streamId n (i - 1) i (acc ++ [miniblock])
      end
  end.

(** The order in which [getMiniblocks] uses them: the array is reversed at the end of the
    loop, which an error skips. *)
Definition cached_in_order (c : cached) : list ParsedMiniblock :=
  if c_completed c then rev (c_blocks c) else c_blocks c.

Fixpoint unpackMiniblocks (miniblocks : list Miniblock) : result (list ParsedMiniblock) :=
  match miniblocks with
  | [] => mret []
  | miniblock :: miniblocks =>
      unpackedMiniblock ← unpackMiniblock miniblock false;
      rest ← unpackMiniblocks miniblocks;
      mret (unpackedMiniblock :: rest)
  end.

Definition getMiniblocks (streamId : id_arg) (fromInclusive toExclusive : Z) : ClientM (list ParsedMiniblock * bool) :=
  let sid := streamIdAsString streamId in
  c ← read_cached sid (Z.to_nat (toExclusive - fromInclusive)) (toExclusive - 1) toExclusive [];
  let cachedMiniblocks := cached_in_order c in
  let toExclusive := c_toExclusive c in
  if toExclusive =? fromInclusive then mret (cachedMiniblocks, toExclusive =? 0)
  else
    id ← a_lift (streamIdAsBytes streamId);
    response ← a_await (RpcGetMiniblocks id fromInclusive toExclusive);
    unpackedMiniblocks ← a_lift (unpackMiniblocks response.1);
    a_await StoreAccess;;
    self ← a_get;
    store ← a_lift (saveMiniblocks sid unpackedMiniblocks (persistenceStore self));
    a_modify (set_persistenceStore store);;
    mret (unpackedMiniblocks ++ cachedMiniblocks, response.2).

Definition min_of (r : nat) (s : t) : result (option Z) :=
  view ← view_of r s;
  mret (mbi_min <$> miniblockInfo view).

Definition first_of (r : nat) (terminus : bool) : ClientM scrollback_result :=
  self ← a_get;
  view ← a_lift (view_of r self);
  mret (mkScrollback terminus (head (timeline view))).

Definition _scrollback (streamId : string) : ClientM scrollback_result :=
  self ← a_get;
  r ← a_some (stream (IdString streamId) self) ("stream not found: " +:+ streamId);
  view ← a_lift (view_of r self);
  info ← a_some (miniblockInfo view) ("stream not initialized: " +:+ streamId);
  if mbi_terminusReached info then first_of r true
  else
    a_lift (check (prevSnapshotMiniblockNum view <=? mbi_min info) None None);;
    let toExclusive := mbi_min info in
    let fromInclusive := prevSnapshotMiniblockNum view in
    response ← getMiniblocks (IdString streamId) fromInclusive toExclusive;
    let eventIds := event_ids response.1 in
    a_await StoreAccess;;
    self ← a_get;
    let cleartexts := getCleartexts eventIds (persistenceStore self) in
    min ← a_lift (min_of r self);
    if default (-1) min =? toExclusive then
      a_do (on_stream r (SyncedStream.prependEvents response.1 cleartexts response.2));;
      first_of r response.2
    else first_of r false.

(** Run [p] as the body of promise [n]. *)
Definition settle_scrollback (n : nat) (p : ClientM scrollback_result) : ClientM scrollback_result :=
  let set (r : result scrollback_result) := a_modify (fun s => set_scrollbackPromises (<[n := Some r]> (scrollbackPromises s)) s) in
  a_try (v ← p; set (Ok v);; mret v) (fun e => set (Throw e);; a_throw e).

Definition scrollback (streamId : string) : ClientM scrollback_result :=
  self ← a_get;
  match jm_get streamId (getScrollbackRequests self) with
  | Some n =>
      Await (ScrollbackSettled n) (fun _ =>
        self ← a_get;
        match scrollbackPromises self !! n with
        | Some (Some r) => a_lift r
        | _ => a_throw (JsError "pending")
        end)
  | None =>
      let n := fresh (dom (scrollbackPromises self)) in
      a_modify (fun s => set_getScrollbackRequests (jm_set streamId n (getScrollbackRequests s))
        (set_scrollbackPromises (<[n := None]> (scrollbackPromises s)) s));;
      a_finally (settle_scrollback n (_scrollback streamId))
        (fun s => set_getScrollbackRequests (jm_delete streamId (getScrollbackRequests s)) s)
  end.

(** The loop [onStreamInitialized] starts, [n] rounds of it: [false] when it goes on. *)
Fixpoint scrollbackUntilContentFound (n : nat) (streamId : string) (r : nat) : ClientM bool :=
  self ← a_get;
  view ← a_lift (view_of r self);
  if content_needsScrollback (content view) then
    match n with
    | O => mret false
    | S n =>
        back ← scrollback streamId;
        if terminus back then mret true else scrollbackUntilContentFound n streamId r
    end
  else mret true.

Definition onStreamInitialized (n : nat) (streamId : string) : ClientM bool :=
  self ← a_get;
  r ← a_some (stream (IdString streamId) self) "stream not found";
  scrollbackUntilContentFound n streamId r.
End ClientStreams.
