(* ===== verification/ClientOps.v ===== *)
(** * Operations of the client (core/sdk/src/client.ts)

    Memberships, names, settings, devices and keys: the methods that read the streams
    of the client and send an event of their own. *)

From S2P Require Import Prelude Proto Externals Binary StreamId Types Usernames UserMetadata Members Content Space User UserInbox UserSettings UserDeviceKeys.
From S2P Require Import Sign Payloads Persistence StreamStateView SyncedStream DecryptionExtensions Async ClientState ClientSend ClientStreams.

Section ClientOps.
Context `{Externals, Database, Crypto, JsonStrings}.

(** ** Channels and names *)

Definition updateChannel (spaceId channelId : id_arg) : ClientM string :=
  a_lift (assert (isSpaceStreamId spaceId) "spaceId must be a valid streamId");;
  a_lift (assert (isChannelStreamId channelId) "channelId must be a valid streamId");;
  id ← a_lift (streamIdAsBytes channelId);
  makeEventAndAddToStream spaceId (make_SpacePayload_Channel (mkSpaceChannel CO_UPDATED id None)) None None.

Definition updateGDMChannelProperties (streamId channelName channelTopic : string) : ClientM string :=
  a_lift (assert (isGDMChannelStreamId (IdString streamId)) "streamId must be a valid GDM stream id");;
  self ← a_get;
  a_lift (check (is_defined (cryptoBackend self)) None None);;
  let channelProps := ChannelProperties_toJsonString (make_ChannelProperties channelName channelTopic) in
  encryptedData ← a_await (EncryptGroupEvent streamId channelProps);
  makeEventAndAddToStream (IdString streamId) (make_GDMChannelPayload_ChannelProperties encryptedData) None None.

Definition setDisplayName (streamId displayName : string) : ClientM unit :=
  self ← a_get;
  a_lift (check (is_defined (cryptoBackend self)) None None);;
  encryptedData ← a_await (EncryptGroupEvent streamId displayName);
  _ ← makeEventAndAddToStream (IdString streamId) (make_MemberPayload_DisplayName encryptedData) None None;
  mret tt.

(** Run a method of the usernames of a stream. *)
Definition on_usernames {A} (r : nat) (m : SM Usernames.t A) : t -> result A * t :=
  on_view r (js_zoom membersL (js_zoom Members.userMetadataL (js_zoom UserMetadata.usernamesL m))).

Definition setUsername (streamId username : string) : ClientM unit :=
  self ← a_get;
  a_lift (check (is_defined (cryptoBackend self)) None None);;
  r ← a_some (stream (IdString streamId) self) "stream not found";
  a_do (on_usernames r (Usernames.setLocalUsername (ClientState.userId self) username false));;
  data ← a_await (EncryptGroupEvent streamId username);
  let encryptedData := set_checksum (Some (usernameChecksum username streamId)) data in
  a_try
    (_ ← makeEventAndAddToStream (IdString streamId) (make_MemberPayload_Username encryptedData) None None;
     mret tt)
    (fun err =>
       a_do (on_usernames r (Usernames.resetLocalUsername (ClientState.userId self) false));;
       a_throw err).

Definition setEnsAddress (streamId : string) (walletAddress : id_arg) : ClientM unit :=
  self ← a_get;
  a_lift (check (is_defined (cryptoBackend self)) None None);;
  bytes ← a_lift (match walletAddress with
                  | IdString s => addressFromUserId s
                  | IdBytes b => mret b
                  end);
  _ ← makeEventAndAddToStream (IdString streamId) (make_MemberPayload_EnsAddress bytes) None None;
  mret tt.

Definition setNft (streamId tokenId : string) (chainId : Z) (contractAddress : string) : ClientM unit :=
  payload ← (if (0 <? String.length tokenId)%nat then
               address ← a_lift (bin_fromHexString contractAddress);
               mret (mkNft chainId address (bin_fromString tokenId))
             else mret (mkNft 0 [] []));
  _ ← makeEventAndAddToStream (IdString streamId) (make_MemberPayload_Nft payload) None None;
  mret tt.

Definition isUsernameAvailable (streamId username : string) (s : t) : result bool :=
  match stream (IdString streamId) s with
  | None => throwWithCode (Some "stream not found") None
  | Some r =>
      view ← view_of r s;
      mret (cleartextUsernameAvailable (UserMetadata.usernames (getUserMetadata view)) username)
  end.

(** ** Settings *)

Definition sendFullyReadMarkers (channelId : id_arg) (fullyReadMarkers : gmap string FullyReadMarker) : ClientM string :=
  self ← a_get;
  settings ← a_assert (userSettingsStreamId self) "userSettingsStreamId is not defined";
  let data := FullyReadMarkers_toJsonString (mkFullyReadMarkers fullyReadMarkers) in
  id ← a_lift (streamIdAsBytes channelId);
  makeEventAndAddToStream (IdString settings)
    (make_UserSettingsPayload_FullyReadMarkers (mkSettingsFullyReadMarkers id (Some (mkMarkerContent data)))) None None.

(** [this.stream(id)?.view.userSettingsContent.getLastBlock(userId)]. *)
Definition lastBlockOf (settings userId : string) (s : t) : result (option Block) :=
  match stream (IdString settings) s with
  | None => mret None
  | Some r =>
      view ← view_of r s;
      content ← userSettingsContent view;
      mret (getLastBlock content userId)
  end.

(** [this.stream(dmStreamId)?.view.lastEventNum ?? 0n]. *)
Definition lastEventNumOf (streamId : string) (s : t) : result Z :=
  match stream (IdString streamId) s with
  | None => mret 0
  | Some r => view ← view_of r s; mret (lastEventNum view)
  end.

(** The number of the new block, or an error when nothing would change. *)
Definition nextBlockNum (lastBlock : option Block) (isBlocked : bool) (eventNum : Z) : result Z :=
  match lastBlock with
  | Some b =>
      if Bool.eqb (blk_isBlocked b) isBlocked
      then Throw (JsError ("updateUserBlock isBlocked<" +:+ (if isBlocked then "true" else "false")
                             +:+ "> must be different from existing value"))
      else mret (if eventNum <=? blk_eventNum b then blk_eventNum b + 1 else eventNum)
  | None => mret eventNum
  end.

Definition updateUserBlock (user : string) (isBlocked : bool) : ClientM string :=
  self ← a_get;
  settings ← a_assert (userSettingsStreamId self) "userSettingsStreamId is not defined";
  dmStreamId ← a_lift (makeDMStreamId (ClientState.userId self) user);
  lastBlock ← a_lift (lastBlockOf settings user self);
  eventNum0 ← a_lift (lastEventNumOf dmStreamId self);
  eventNum ← a_lift (nextBlockNum lastBlock isBlocked eventNum0);
  address ← a_lift (addressFromUserId user);
  makeEventAndAddToStream (IdString settings) (make_UserSettingsPayload_UserBlock (mkUserBlock address isBlocked eventNum)) None None.

(** ** Memberships *)

(** [inviteUser] and [joinUser]. *)
Definition sendMembershipAction (op : MembershipOp) (streamId : id_arg) (user : string) : ClientM string :=
  self ← a_get;
  userStream ← a_some (userStreamId self) "Unknown";
  address ← a_lift (addressFromUserId user);
  id ← a_lift (streamIdAsBytes streamId);
  makeEventAndAddToStream (IdString userStream) (make_UserPayload_UserMembershipAction (mkUserMembershipAction id address op None)) None None.
Definition inviteUser (streamId : id_arg) (user : string) : ClientM string :=
  _ ← initStream streamId true; sendMembershipAction SO_INVITE streamId user.
Definition joinUser (streamId : id_arg) (user : string) : ClientM string :=
  _ ← initStream streamId true; sendMembershipAction SO_JOIN streamId user.

Definition userContentOf (r : nat) : ClientM User.t :=
  self ← a_get;
  view ← a_lift (view_of r self);
  a_lift (userContent view).

Definition joinStream (streamId : id_arg) (skipWaitForMiniblockConfirmation skipWaitForUserStreamUpdate : bool) : ClientM nat :=
  self ← a_get;
  userStreamId ← a_some (ClientState.userStreamId self) "Unknown";
  userStream ← a_some (stream (IdString userStreamId) self) "userStream not found";
  let streamIdStr := streamIdAsString streamId in
  r ← initStream streamId true;
  user ← userContentOf userStream;
  if User.isJoined user streamIdStr then mret r
  else
    id ← a_lift (streamIdAsBytes streamId);
    self ← a_get;
    view ← a_lift (view_of r self);
    parent ← a_lift (match getStreamParentIdAsBytes (content view) with
                     | Some p => b ← p; mret (Some b)
                     | None => mret None
                     end);
    _ ← makeEventAndAddToStream (IdString userStreamId) (make_UserPayload_UserMembership (mkUserMembership id SO_JOIN None parent)) None None;
    (if skipWaitForMiniblockConfirmation then mret tt else a_await (WaitForMembership r SO_JOIN));;
    (if skipWaitForUserStreamUpdate then mret tt
     else
       user ← userContentOf userStream;
       if User.isJoined user streamIdStr then mret tt else a_await (WaitForUserStreamUpdate streamIdStr));;
    mret r.

(** The channels of a space, [[]] when its stream is not there. *)
Definition channelIdsOf (streamId : id_arg) (s : t) : result (list string) :=
  match stream streamId s with
  | None => mret []
  | Some r =>
      view ← view_of r s;
      space ← spaceContent view;
      mret (jm_keys (Space.spaceChannelsMetadata space))
  end.

(** [userStream?.view.userContent.streamMemberships[channelId]?.op === SO_JOIN]. *)
Definition joinedInStream (userStream : option nat) (channelId : string) (s : t) : result bool :=
  match userStream with
  | None => mret false
  | Some r =>
      view ← view_of r s;
      user ← userContent view;
      mret (User.isJoined user channelId)
  end.

(** [fuel] bounds the depth of the recursion; the channels are those the space has when it
    is left, in the code the iterator would also see channels added while it waits. *)
Fixpoint leaveStream (fuel : nat) (streamId : id_arg) : ClientM string :=
  match fuel with
  | O => a_throw (JsError "out of fuel")
  | S fuel =>
      self ← a_get;
      userStreamId ← a_some (ClientState.userStreamId self) "Unknown";
      (if isSpaceStreamId streamId then
         channelIds ← a_lift (channelIdsOf streamId self);
         let userStream := stream (IdString userStreamId) self in
         a_for channelIds (fun channelId =>
           self ← a_get;
           joined ← a_lift (joinedInStream userStream channelId self);
           if (joined : bool) then _ ← leaveStream fuel (IdString channelId); mret tt else mret tt)
       else mret tt);;
      id ← a_lift (streamIdAsBytes streamId);
      makeEventAndAddToStream (IdString userStreamId) (make_UserPayload_UserMembership (mkUserMembership id SO_LEAVE None None)) None None
  end.

Fixpoint removeUser (fuel : nat) (streamId : id_arg) (user : string) : ClientM string :=
  match fuel with
  | O => a_throw (JsError "out of fuel")
  | S fuel =>
      self ← a_get;
      userStreamId ← a_some (ClientState.userStreamId self) "Unknown";
      (if isSpaceStreamId streamId then
         channelIds ← a_lift (channelIdsOf streamId self);
         otherStreamId ← a_lift (makeUserStreamId (IdString user) user);
         userStream ← getStream otherStreamId;
         a_for channelIds (fun channelId =>
           content ← a_lift (userContent userStream);
           if User.isJoined content channelId then _ ← removeUser fuel (IdString channelId) user; mret tt else mret tt)
       else mret tt);;
      address ← a_lift (addressFromUserId user);
      id ← a_lift (streamIdAsBytes streamId);
      makeEventAndAddToStream (IdString userStreamId)
        (make_UserPayload_UserMembershipAction (mkUserMembershipAction id address SO_LEAVE None)) None None
  end.

(** ** Devices and keys *)

(** [arr.slice(-n)]. *)
Definition slice_last {A} (n : nat) (l : list A) : list A := drop (length l - n) l.

Definition DEVICE_LOOKBACK : nat := 10.

Definition downloadDevicesOf (forceDownload : bool) (user : string) : ClientM (list UserDevice) :=
  self ← a_get;
  streamId ← a_lift (makeUserDeviceKeyStreamId (IdString user) user);
  a_try
    (stored ← (if negb forceDownload && negb (String.eqb user (ClientState.userId self))
               then a_await (GetUserDevices user) else mret []);
     match stored with
     | _ :: _ => mret stored
     | [] =>
         view ← getStream streamId;
         content ← a_lift (userDeviceKeyContent view);
         let userDevices := slice_last DEVICE_LOOKBACK (deviceKeys content) in
         a_await (SaveUserDevices user userDevices);;
         mret userDevices
     end)
    (fun _ => mret []).

(** The requests of all users run at once in the code; here one after the other. *)
Fixpoint downloadAll (forceDownload : bool) (userIds : list string) (acc : jsmap (list UserDevice))
    : ClientM (jsmap (list UserDevice)) :=
  match userIds with
  | [] => mret acc
  | user :: userIds =>
      devices ← downloadDevicesOf forceDownload user;
      downloadAll forceDownload userIds (jm_set user devices acc)
  end.

Definition downloadUserDeviceInfo (userIds : list string) : ClientM (jsmap (list UserDevice)) :=
  downloadAll (length userIds <=? 10)%nat userIds [].

Definition getDevicesInStream (stream_id : string) : ClientM (jsmap (list UserDevice)) :=
  self ← a_get;
  let known :=
    match stream (IdString stream_id) self with
    | Some r => match view_of r self with Ok v => if isInitialized v then Some v else None | Throw _ => None end
    | None => None
    end in
  view ← match known with
         | Some v => mret v
         | None => getStream stream_id
         end;
  downloadUserDeviceInfo (elements (getUsersEntitledToKeyExchange view)).

Definition downloadNewInboxMessages : ClientM unit :=
  self ← a_get;
  inbox ← a_some (userInboxStreamId self) "Unknown";
  r ← a_some (stream (IdString inbox) self) "Unknown";
  view ← a_lift (view_of r self);
  info ← a_some (miniblockInfo view) "Unknown";
  if mbi_terminusReached info then mret tt
  else
    content ← a_lift (userInboxContent view);
    device ← userDeviceKey;
    match UserInbox.deviceSummary content !! ud_deviceKey device with
    | None => mret tt
    | Some deviceSummary =>
        if ds_lowerBound deviceSummary <? mbi_min info then
          response ← ClientStreams.getMiniblocks (IdString inbox) (ds_lowerBound deviceSummary) (mbi_min info);
          a_await StoreAccess;;
          self ← a_get;
          let cleartexts := getCleartexts (event_ids response.1) (ClientState.persistenceStore self) in
          a_do (on_stream r (SyncedStream.prependEvents response.1 cleartexts response.2))
        else mret tt
    end.

Definition initCrypto : ClientM unit :=
  self ← a_get;
  match cryptoBackend self with
  | Some _ => mret tt
  | None =>
      device ← a_await InitCrypto;
      a_modify (set_cryptoBackend (Some device))
  end.

(** The streams that are then handed to the extension that loads them. The four streams of
    the user are initialized at once in the code; here one after the other. *)
Definition initializeUser (newUserMetadata : option id_arg) : ClientM (list string) :=
  metadata ← a_lift (match newUserMetadata with
                     | Some spaceId => b ← streamIdAsBytes spaceId; mret (Some b)
                     | None => mret None
                     end);
  self ← a_get;
  a_lift (assert (negb (is_defined (ClientState.userStreamId self))) "already initialized");;
  initCrypto;;
  initUserStream metadata;;
  initUserInboxStream metadata;;
  initUserDeviceKeyStream metadata;;
  initUserSettingsStream metadata;;
  initUserJoinedStreams.

Definition uploadDeviceKeys : ClientM string :=
  self ← a_get;
  _ ← a_some (cryptoBackend self) "crypto backend not initialized";
  id ← a_some (userDeviceKeyStreamId self) "Unknown";
  _ ← a_some (stream (IdString id) self) "device key stream not found";
  device ← userDeviceKey;
  makeEventAndAddToStream (IdString id)
    (make_UserDeviceKeyPayload_EncryptionDevice (mkEncryptionDevice (ud_deviceKey device) (ud_fallbackKey device))) None None.

Definition resetCrypto : ClientM string :=
  self ← a_get;
  a_modify (set_cryptoBackend None);;
  a_await (DeleteAccount (ClientState.userId self));;
  initCrypto;;
  uploadDeviceKeys.

Definition ackInboxStream : ClientM unit :=
  self ← a_get;
  inbox ← a_some (userInboxStreamId self) "user to device stream not found";
  _ ← a_some (cryptoBackend self) "crypto backend not initialized";
  r ← a_some (stream (IdString inbox) self) "user to device stream not found";
  view ← a_lift (view_of r self);
  info ← a_some (miniblockInfo view) "miniblockNum not found";
  let miniblockNum := mbi_max info in
  content ← a_lift (userInboxContent view);
  device ← userDeviceKey;
  let acked :=
    match UserInbox.deviceSummary content !! ud_deviceKey device with
    | Some previousAck => miniblockNum <=? ds_lowerBound previousAck
    | None => false
    end in
  if acked then mret tt
  else
    _ ← makeEventAndAddToStream (IdString inbox) (make_UserInboxPayload_Ack (mkUserInboxAck (ud_deviceKey device) miniblockNum)) None None;
    mret tt.

Definition cleartextForGroupEvent (streamId eventId : string) (encryptedData : EncryptedData) : ClientM string :=
  a_await StoreAccess;;
  self ← a_get;
  match truthy_str (getCleartext eventId (ClientState.persistenceStore self)) with
  | Some cached => mret cached
  | None =>
      _ ← a_assert (cryptoBackend self) "crypto backend not initialized";
      cleartext ← a_await (DecryptGroupEvent streamId encryptedData);
      a_await StoreAccess;;
      a_modify (fun s => set_persistenceStore (saveCleartext eventId cleartext (ClientState.persistenceStore s)) s);;
      mret cleartext
  end.

(** The kinds [isEncryptedContentKind] accepts. *)
Definition kind_of_string (kind : string) : option content_kind :=
  if String.eqb kind "text" then Some Kind_text
  else if String.eqb kind "channelMessage" then Some Kind_channelMessage
  else if String.eqb kind "channelProperties" then Some Kind_channelProperties
  else None.

Definition decryptGroupEvent (streamId eventId kind : string) (encryptedData : EncryptedData) : ClientM unit :=
  self ← a_get;
  r ← a_some (stream (IdString streamId) self) "stream not found";
  k ← a_some (kind_of_string kind) ("invalid kind " +:+ kind);
  cleartext ← cleartextForGroupEvent streamId eventId encryptedData;
  decryptedContent ← a_lift (toDecryptedContent k cleartext);
  a_do (on_view r (StreamStateView.updateDecryptedContent eventId decryptedContent true)).

(** Keys are not encrypted for the own device. *)
Definition encryptWithDeviceKeys (payload : string) (deviceKeys : list UserDevice) : ClientM (gmap string string) :=
  self ← a_get;
  _ ← a_some (cryptoBackend self) "crypto backend not initialized";
  device ← userDeviceKey;
  a_await (EncryptWithDeviceKeys payload (filter (fun key => ud_deviceKey key <> ud_deviceKey device) deviceKeys)).

(** The keys sent to one user; errors are only logged. *)
Definition shareWithUser (streamId : bytes) (payload : string) (sessionIds : list string) (userDevice : UserDevice)
    (user : string) (deviceKeys : list UserDevice) : ClientM unit :=
  a_try
    (ciphertext ← encryptWithDeviceKeys payload deviceKeys;
     if decide (ciphertext = ∅) then mret tt
     else
       toStreamId ← a_lift (makeUserInboxStreamId (IdString user) user);
       to ← a_lift (streamIdAsBytes (IdString toStreamId));
       miniblockHash ← a_await (RpcGetLastMiniblockHash to);
       _ ← makeEventWithHashAndAddToStream MAX_RETRIES (IdString toStreamId)
             (make_UserInboxPayload_GroupEncryptionSessions
                (mkGroupEncryptionSessions streamId (ud_deviceKey userDevice) sessionIds ciphertext)) miniblockHash None None;
       mret tt)
    (fun _ => mret tt).

(** The users are served at once in the code; here one after the other. *)
Definition encryptAndShareGroupSessions (inStreamId : id_arg) (sessions : list GroupEncryptionSession)
    (toDevices : jsmap (list UserDevice)) : ClientM unit :=
  let streamIdStr := streamIdAsString inStreamId in
  streamIdBytes ← a_lift (streamIdAsBytes inStreamId);
  self ← a_get;
  _ ← a_some (cryptoBackend self) "crypto backend isn't initialized";
  a_must (0 <=? Z.of_nat (length sessions)) "no sessions to encrypt";;
  a_must (size (list_to_set (map gs_streamId sessions) : gset string) =? 1)%nat "sessions should all be from the same stream";;
  a_must (bool_decide (gs_streamId <$> head sessions = Some streamIdStr)) "streamId mismatch";;
  userDevice ← userDeviceKey;
  let sessionIds := map gs_sessionId sessions in
  let payload := SessionKeys_toJsonString (map gs_sessionKey sessions) in
  a_for toDevices (fun d => shareWithUser streamIdBytes payload sessionIds userDevice d.1 d.2).
End ClientOps.
