(* ===== verification/Sending.v ===== *)
(** * Properties of sending (core/sdk/src/client.ts)

    What becomes of an event the client sends, and of the message shown for it, whatever
    the node answers and whatever else the client does meanwhile. *)

From S2P Require Import Prelude Proto Externals ToyExternals Binary StreamId Types Usernames Sign Payloads Persistence.
From S2P Require Import StreamStateView Timeline StreamView SyncedStream Restore RpcClient Envelopes Async ClientState ClientSend.

Section Sending.
Context `{Externals, Database, Crypto, JsonStrings} `{!HexLaws, !CryptoLaws}.

(** ** The message on the screen *)

(** The entry [er] of the view of the stream is a local event of message [msg], registered
    under its hash [hash]. *)
Definition shows (id : id_arg) (er : ref) (localId : string) (msg : ChannelMessage) (hash : string)
    (status : LocalEventStatus) (s : ClientState.t) : Prop :=
  exists r o ev, stream id s = Some r /\ objs s !! r = Some o
    /\ events (o_view o) !! hash = Some er /\ heap (o_view o) !! er = Some ev
    /\ te_hashStr ev = hash /\ te_localEvent ev = Some (mkLocalEvent localId msg status).

(** [er] is also found under [key]. *)
Definition known_as (id : id_arg) (er : ref) (key : string) (s : ClientState.t) : Prop :=
  exists r o, stream id s = Some r /\ objs s !! r = Some o /\ events (o_view o) !! key = Some er.

(** What others may do while a message is sent: anything that leaves its entry in the
    view, with its hash, its message and its status. *)
Definition leaves_entry (id : id_arg) (er : ref) (s s' : ClientState.t) : Prop :=
  signerContext s' = signerContext s
  /\ (forall key, known_as id er key s -> known_as id er key s')
  /\ (forall localId msg hash status, shows id er localId msg hash status s -> shows id er localId msg hash status s').

(** The keys of the entry are kept. *)
Definition leaves_keys (id : id_arg) (er : ref) (s s' : ClientState.t) : Prop :=
  signerContext s' = signerContext s /\ (forall key, known_as id er key s -> known_as id er key s').

(** ** The calls that add events *)

(** The events that were sent to the node and its answers. *)
Definition add_of (e : event ans) : option (Envelope * result unit) :=
  match e with
  | mkEvent c a =>
      match c return result (ans c) -> option (Envelope * result unit) with
      | RpcAddEvent _ env => fun a => Some (env, a)
      | _ => fun _ => None
      end a
  end.
Definition adds (tr : list (event ans)) : list (Envelope * result unit) := omap add_of tr.

(** Each event is made of the payload over a miniblock hash: the first over [prev], each
    further one over the hash the node asked for in its answer to the one before. *)
Fixpoint chained (context : SignerContext) (payload : StreamEvent_payload) (prev : bytes)
    (l : list (Envelope * result unit)) : Prop :=
  match l with
  | [] => True
  | (env, a) :: rest =>
      (exists salt now, makeEvent salt now context (Some payload) (Some prev) = Ok env)
      /\ match rest with
         | [] => True
         | _ => exists err hash prev', a = Throw err /\ errorContains err Err_BAD_PREV_MINIBLOCK_HASH = true
                  /\ getRpcErrorProperty err "expected" = Some hash /\ bin_fromHexString hash = Ok prev'
                  /\ chained context payload prev' rest
         end
  end.

(** The id of an event. *)
Definition event_id (env : Envelope) : string := bin_toHexString (env_hash env).

(** *** Lemmas *)

Lemma makeEvent_hash_length salt now context pl prev env :
  makeEvent salt now context pl prev = Ok env -> length (env_hash env) = 32%nat.
Proof.
  unfold makeEvent, _impl_makeEvent_impl_, riverSign, checkHash. intros Hm. destruct pl as [pl|]; [|done].
  split_Ok Hm. injection Hm as <-. split_Ok Ha3. apply assertBytes_spec in Ha4 as [|Hl]; [done|].
  by apply list_elem_of_singleton in Hl.
Qed.

Lemma event_id_truthy salt now context pl prev env :
  makeEvent salt now context pl prev = Ok env -> truthy_str (Some (event_id env)) = Some (event_id env).
Proof.
  intros Hm%makeEvent_hash_length. apply truthy_str_Some. split; [done|].
  intros Heq. pose proof (hex_length (env_hash env)) as Hl. unfold event_id, bin_toHexString in Heq.
  rewrite Heq, Hm in Hl. done.
Qed.

(** Renaming the local event and setting its status. *)
Lemma run_update id er localId msg hash st key eid status o s :
  shows id er localId msg hash st s -> known_as id er key s ->
  exists s', run (updateLocalEventOf id key eid status) o s = mkEnd (Ended (Ok tt)) s' [] o
    /\ shows id er localId msg eid status s' /\ leaves_keys id er s s'.
Proof.
  intros (r & ob & ev & Hs & Ho & He & Hh & Hhash & Hl) (r' & o' & Hs' & Ho' & Hk).
  assert (r' = r) as -> by congruence. assert (o' = ob) as -> by congruence.
  pose proof (updateLocalEvent_spec key eid status true (o_view ob)) as U. cbv zeta in U. rewrite Hk in U.
  specialize (U ev Hh). rewrite Hl in U. destruct U as (Hres & Hskel & Hheap).
  unfold updateLocalEventOf, a_get. cbn [mbind async_mbind run]. rewrite Hs.
  unfold a_do. cbn [run]. unfold on_view, on_stream. rewrite Ho. unfold js_zoom. cbn [Prelude.view SyncedStream.viewL SyncedStream.view].
  destruct (StreamStateView.updateLocalEvent key eid status true (o_view ob)) as [res post em] eqn:Hu.
  cbn in Hres, Hskel, Hheap |- *. subst res.
  assert (Hev : events post = <[eid := er]> (events (o_view ob))) by exact (f_equal sk_events Hskel).
  eexists. split_and!; [done| |].
  - exists r. eexists _, _. cbn. rewrite lookup_insert_eq. split_and!; [done|done| |exact Hheap|done|done].
    cbn. by rewrite Hev, lookup_insert_eq.
  - split; [done|]. intros k (r' & o' & Hr' & Ho'' & Hk'). assert (r' = r) as -> by congruence.
    assert (o' = ob) as -> by congruence. exists r. eexists. cbn. rewrite lookup_insert_eq. split_and!; [done|done|].
    cbn. rewrite Hev. destruct (decide (eid = k)) as [->|]; [by rewrite lookup_insert_eq|by rewrite lookup_insert_ne].
Qed.

Lemma spec_update R n id er localId msg hash st key eid status s Q :
  shows id er localId msg hash st s -> known_as id er key s ->
  (forall s', shows id er localId msg eid status s' -> leaves_keys id er s s' -> Q (Ok tt) s' []) ->
  spec R any_answer n (updateLocalEventOf id key eid status) s Q.
Proof.
  intros Hs Hk HQ o Ho Hn. destruct (run_update _ _ _ _ _ _ _ eid status o _ Hs Hk) as (s' & -> & Hs' & Hk').
  exists (Ok tt). cbn. split_and!; [done|by apply HQ|lia|done].
Qed.

Lemma shows_known id er localId msg hash st s : shows id er localId msg hash st s -> known_as id er hash s.
Proof. intros (r & o & ev & ? & ? & ? & _). by exists r, o. Qed.

(** The id in [{ prevMiniblockHash, eventId }]. *)
Definition added_id (r : result (bytes * string)) : result string := added ← r; mret added.2.

(** How sending ends, [retries] retries from [prev] on, for a message that had status
    [st] before. *)
Definition sending_ends (id : id_arg) (er : ref) (localId : string) (msg : ChannelMessage) (st : LocalEventStatus)
    (context : SignerContext) (payload : StreamEvent_payload) (retries : nat) (prev : bytes)
    (r : result string) (s : ClientState.t) (tr : list (event ans)) : Prop :=
  chained context payload prev (adds tr) /\ (length (adds tr) <= S retries)%nat
  /\ match r with
     | Ok eventId =>
         exists env, last (adds tr) = Some (env, Ok tt) /\ eventId = event_id env
           /\ shows id er localId msg (event_id env) Status_sent s
     | Throw e =>
         (exists env, last (adds tr) = Some (env, Throw e) /\ shows id er localId msg (event_id env) Status_failed s
            /\ (errorContains e Err_BAD_PREV_MINIBLOCK_HASH = false \/ length (adds tr) = S retries))
         \/ (Forall (fun a => exists err, a.2 = Throw err /\ errorContains err Err_BAD_PREV_MINIBLOCK_HASH = true) (adds tr)
            /\ exists hash st', shows id er localId msg hash st' s /\ (st' = st \/ st' = Status_sending))
     end.

(** Another attempt in front. *)
Lemma sending_ends_again id er localId msg st context payload retries prev env err hash prev' r s tr tr0 :
  adds tr0 = [(env, Throw err)] ->
  (exists salt now, makeEvent salt now context (Some payload) (Some prev) = Ok env) ->
  errorContains err Err_BAD_PREV_MINIBLOCK_HASH = true -> getRpcErrorProperty err "expected" = Some hash ->
  bin_fromHexString hash = Ok prev' ->
  sending_ends id er localId msg Status_sending context payload retries prev' r s tr ->
  sending_ends id er localId msg st context payload (S retries) prev r s (tr0 ++ tr).
Proof.
  intros Ht0 Hm He Hx Hp (Hc & Hl & Hr). unfold sending_ends. unfold adds in *. rewrite omap_app, Ht0.
  set (l := omap add_of tr) in *. cbn [app]. split_and!.
  - split; [done|]. destruct l as [|a l]; [done|]. exists err, hash, prev'. done.
  - cbn. lia.
  - destruct r as [added|e].
    + destruct Hr as (env' & Hlast & ?). exists env'. split; [|done]. destruct l; [done|exact Hlast].
    + destruct Hr as [(env' & Hlast & Hs & Hd)|(Hall & h & st' & Hs & Hd)].
      * left. exists env'. split_and!; [by destruct l|done|]. destruct Hd as [|Hd]; [by left|right]. cbn. by rewrite Hd.
      * right. split; [constructor; [by eauto|done]|]. exists h, st'. split; [done|]. right. naive_solver.
Qed.

Lemma spec_makeEventOf R n payload prev s Q :
  (forall e s', R s s' -> Q (Throw e) s' [mkEvent Entropy (Throw e)]) ->
  (forall salt now s', R s s' -> Q (makeEvent salt now (signerContext s) (Some payload) prev) s' [mkEvent Entropy (Ok (salt, now))]) ->
  spec R any_answer (S n) (makeEventOf payload prev) s Q.
Proof.
  intros HT HO. unfold makeEventOf, a_get, a_await. apply spec_get. cbn [mbind async_mbind].
  apply spec_await. intros [[salt now]|e] s' HR _; cbn [mbind async_mbind]; apply spec_done; auto.
Qed.

Lemma spec_cacheCleartext R n eid cleartext s (Q : result unit -> ClientState.t -> list (event ans) -> Prop) :
  (forall r s' tr, (s' = s \/ exists s1, R s s1 /\ (s' = s1 \/ exists st, s' = set_persistenceStore st s1)) ->
     adds tr = [] -> Q r s' tr) ->
  spec R any_answer (S n) (cacheCleartext eid cleartext) s Q.
Proof.
  intros HQ. unfold cacheCleartext. destruct (truthy_str cleartext) as [c|].
  - unfold a_await. cbn [mbind async_mbind]. apply spec_await. intros [[]|e] s' HR _; cbn [mbind async_mbind].
    + unfold a_modify. apply spec_get, spec_put, spec_done. apply HQ; [|done]. right. exists s'. split; [done|]. right. eauto.
    + apply spec_done, HQ; [|done]. right. eauto.
  - apply spec_done, HQ; [by left|done].
Qed.
Lemma shows_store id er localId msg hash st s d :
  shows id er localId msg hash st s -> shows id er localId msg hash st (set_persistenceStore d s).
Proof. done. Qed.

Lemma adds_app tr1 tr2 : adds (tr1 ++ tr2) = adds tr1 ++ adds tr2.
Proof. apply omap_app. Qed.

Lemma leaves_shows id er localId msg hash st s s' :
  leaves_entry id er s s' -> shows id er localId msg hash st s -> shows id er localId msg hash st s'.
Proof. intros (_ & _ & Hl). apply Hl. Qed.

Lemma leaves_known id er key s s' : leaves_entry id er s s' -> known_as id er key s -> known_as id er key s'.
Proof. intros (_ & Hl & _). apply Hl. Qed.

(** One attempt with [handler] for the errors of the call that adds the event. *)
Lemma spec_attempt id idb er localId msg st h payload prev key cleartext s m handler
    (Q : result (bytes * string) -> ClientState.t -> list (event ans) -> Prop) :
  streamIdAsBytes id = Ok idb -> shows id er localId msg h st s -> known_as id er key s -> key <> "" ->
  (forall e s' tr h' st', adds tr = [] -> shows id er localId msg h' st' s' -> st' = st \/ st' = Status_sending ->
     Q (Throw e) s' tr) ->
  (forall salt now env s' tr, makeEvent salt now (signerContext s) (Some payload) (Some prev) = Ok env ->
     adds tr = [(env, Ok tt)] -> shows id er localId msg (event_id env) Status_sent s' -> Q (Ok (prev, event_id env)) s' tr) ->
  (forall salt now env err s' tr, makeEvent salt now (signerContext s) (Some payload) (Some prev) = Ok env ->
     adds tr = [(env, Throw err)] -> shows id er localId msg (event_id env) Status_sending s' ->
     known_as id er key s' -> signerContext s' = signerContext s ->
     spec (leaves_entry id er) any_answer m (handler env err) s' (fun r s'' tr' => Q r s'' (tr ++ tr'))) ->
  spec (leaves_entry id er) any_answer (3 + m)
    (event ← makeEventOf payload (Some prev);
     let eventId := bin_toHexString (env_hash event) in
     showSending id (Some key) eventId;;
     cacheCleartext eventId cleartext;;
     a_try
       (id' ← a_lift (streamIdAsBytes id);
        a_await (RpcAddEvent id' event);;
        showStatus id (Some key) eventId Status_sent;;
        mret (prev, eventId))
       (handler event)) s Q.
Proof.
  intros Hid Hs Hk Hkey HT HO HH. change (3 + m)%nat with (1 + (0 + (1 + (1 + m))))%nat.
  assert (Hkt : truthy_str (Some key) = Some key) by by apply truthy_str_Some.
  apply spec_bind, spec_makeEventOf.
  { intros e s' HR. apply spec_done. eapply HT; [done|by eapply leaves_shows|by left]. }
  intros salt now s1 HR. destruct (makeEvent _ _ _ _ _) as [env|e] eqn:Hm.
  2:{ apply spec_done. eapply HT; [done|by eapply leaves_shows|by left]. }
  cbn zeta. apply spec_bind. unfold showSending. rewrite Hkt.
  pose proof (leaves_shows _ _ _ _ _ _ _ _ HR Hs) as Hs1. pose proof (leaves_known _ _ _ _ _ HR Hk) as Hk1.
  unfold a_get. cbn [mbind async_mbind]. apply spec_get. cbn [mbind async_mbind].
  pose proof Hs1 as (r & o & ev & Hr & _). rewrite Hr. cbn [a_assert mret async_mret mbind async_mbind].
  eapply spec_update; [exact Hs1|exact Hk1|]. intros s2 Hs2 [Hc2 Hk2]. cbn [app].
  apply spec_bind, spec_cacheCleartext. intros r3 s3 tr3 Hs3 Htr3.
  assert (Hs3' : shows id er localId msg (event_id env) Status_sending s3 /\ known_as id er key s3
      /\ signerContext s3 = signerContext s).
  { destruct HR as (Hc1 & _). apply Hk2 in Hk1.
    destruct Hs3 as [->|(s' & HR3 & [->|[d ->]])]; [split_and!; [done|done|congruence]| |].
    all: pose proof HR3 as (Hc3 & _). all: split_and!; [by eapply leaves_shows in HR3|by eapply leaves_known in HR3|cbn; congruence]. }
  destruct Hs3' as (Hs3' & Hk3 & Hc3). destruct r3 as [[]|e].
  2:{ apply spec_done. eapply HT; [|exact Hs3'|by right]. cbn. by rewrite adds_app, Htr3. }
  apply spec_try. rewrite Hid. cbn [a_lift mbind async_mbind a_await]. apply spec_await.
  assert (Htr : forall c a, adds (mkEvent Entropy (Ok (salt, now)) :: tr3 ++ [mkEvent c a]) = adds [mkEvent c a])
    by (intros; cbn; by rewrite adds_app, Htr3).
  intros [[]|err] s4 HR4 _; cbn [mbind async_mbind].
  - unfold showStatus. rewrite Hkt.
    assert (Hs4 := leaves_shows _ _ _ _ _ _ _ _ HR4 Hs3'). assert (Hk4 := leaves_known _ _ _ _ _ HR4 Hk3).
    rewrite <- (Nat.add_0_r 0). apply spec_bind.
    eapply spec_update; [exact Hs4|exact Hk4|]. intros s5 Hs5 _. apply spec_done, spec_done.
    eapply HO; [exact Hm| |exact Hs5]. cbn. by rewrite adds_app, Htr3.
  - apply spec_done. eapply spec_mono.
    + eapply (HH salt now env err s4 (mkEvent Entropy (Ok (salt, now)) :: tr3 ++ [mkEvent (RpcAddEvent idb env) (Throw err)]));
        [exact Hm|by rewrite Htr|by eapply leaves_shows in HR4|by eapply leaves_known in HR4|].
      destruct HR4 as (Hc4 & _). congruence.
    + lia.
    + intros r0 s0 tr HQ. cbn in HQ. by rewrite <- app_assoc in HQ.
Qed.

Lemma sending_fails_early id er localId msg st context payload retries prev e s tr h' st' :
  adds tr = [] -> shows id er localId msg h' st' s -> st' = st \/ st' = Status_sending ->
  sending_ends id er localId msg st context payload retries prev (Throw e) s tr.
Proof.
  intros Ht Hs Hst. unfold sending_ends. rewrite Ht. split_and!; [done|cbn; lia|]. right. split; [constructor|]. by exists h', st'.
Qed.

(** The last attempt: the node refused, and it is not tried again. *)
Lemma spec_refused R n id er localId msg st context payload retries prev salt now env err key s tr :
  makeEvent salt now context (Some payload) (Some prev) = Ok env -> adds tr = [(env, Throw err)] ->
  shows id er localId msg (event_id env) Status_sending s -> known_as id er key s -> key <> "" ->
  errorContains err Err_BAD_PREV_MINIBLOCK_HASH = false \/ retries = 0%nat ->
  spec R any_answer n (showStatus id (Some key) (event_id env) Status_failed;; a_throw err) s
    (fun r s' tr' => sending_ends id er localId msg st context payload retries prev (added_id r) s' (tr ++ tr')).
Proof.
  intros Hm Ht Hs Hk Hkey Hwhy. unfold showStatus. replace (truthy_str (Some key)) with (Some key) by by symmetry; apply truthy_str_Some.
  change n with (0 + n)%nat. apply spec_bind. eapply spec_update; [exact Hs|exact Hk|]. intros s' Hs' _.
  apply spec_done. cbn [app]. unfold sending_ends. rewrite app_nil_r, Ht. split_and!; [|cbn; lia|].
  - split; [by eauto|done].
  - left. exists env. split_and!; [done|done|]. destruct Hwhy as [?|Hz]; [by left|right; by rewrite Hz].
Qed.

Lemma message_sending id idb er localId msg st h payload retries prev key cleartext s :
  streamIdAsBytes id = Ok idb -> shows id er localId msg h st s -> known_as id er key s -> key <> "" ->
  spec (leaves_entry id er) any_answer (3 * S retries)
    (makeEventWithHashAndAddToStream retries id payload prev (Some key) cleartext) s
    (fun r => sending_ends id er localId msg st (signerContext s) payload retries prev (added_id r)).
Proof.
  intros Hid. revert s st h prev key. induction retries as [|retries IH]; intros s st h prev key Hs Hk Hkey.
  all: cbn [makeEventWithHashAndAddToStream].
  all: eapply spec_mono; [eapply spec_attempt; [exact Hid|exact Hs|exact Hk|exact Hkey| | |]|..| intros * HQ; exact HQ].
  all: try (intros; by eapply sending_fails_early).
  all: try (intros salt now env s' tr Hm Ht Hsent; unfold sending_ends; rewrite Ht; split_and!;
            [split; [by eauto|done]|cbn; lia|by exists env]).
  - intros salt now env err s' tr Hm Ht Hs' Hk' Hc. cbn.
    destruct (errorContains err _) eqn:Hbad; eapply (spec_refused _ 0); eauto.
  - done.
  - intros salt now env err s' tr Hm Ht Hs' Hk' Hc. cbn [is_defined].
    destruct (errorContains err _) eqn:Hbad; [|eapply spec_refused; eauto].
    assert (Hgive : forall e, sending_ends id er localId msg st (signerContext s) payload (S retries) prev (Throw e) s' tr).
    { intros e. unfold sending_ends. rewrite Ht. split_and!; [split; [by eauto|done]|cbn; lia|].
      right. split; [constructor; [by eauto|constructor]|]. exists (event_id env), Status_sending. auto. }
    destruct (getRpcErrorProperty err "expected") as [x|] eqn:Hx; cbn [a_some mret async_mret mbind async_mbind a_lift].
    2:{ apply spec_done. rewrite app_nil_r. apply Hgive. }
    destruct (bin_fromHexString x) as [prev'|e] eqn:Hp; cbn [mbind async_mbind].
    2:{ apply spec_done. rewrite app_nil_r. apply Hgive. }
    eapply spec_mono; [eapply (IH s' Status_sending (event_id env) prev' (event_id env))|..].
    + exact Hs'.
    + by eapply shows_known.
    + pose proof (event_id_truthy _ _ _ _ _ _ Hm) as Htr. by apply truthy_str_Some in Htr as [_ ?].
    + reflexivity.
    + intros r0 s0 tr0 HQ. rewrite Hc in HQ. by eapply sending_ends_again; eauto.
  - lia.
Qed.
(** ** Messages *)

(** The payload a message becomes in the kinds of streams that take messages. *)
Definition message_payload (id : id_arg) (message : EncryptedData) : option StreamEvent_payload :=
  if isChannelStreamId id then Some (make_ChannelPayload_Message message)
  else if isDMChannelStreamId id then Some (make_DMChannelPayload_Message message)
  else if isGDMChannelStreamId id then Some (make_GDMChannelPayload_Message message)
  else None.

(** The hash of the last miniblock in the view the client has of the stream. *)
Definition prev_hash (id : id_arg) (s : ClientState.t) : option bytes :=
  match stream id s with
  | Some r => match view_of r s with Ok v => prevMiniblockHash v | Throw _ => None end
  | None => None
  end.

(** How sending a message ends: at most four events were sent, each with the text as it
    was encrypted, the first over the hash the view had when the encryption was done; and
    the node took the last one just when the id of that event is returned and the message
    is shown as sent under it. When an error is returned no event was taken, and the
    message is shown as failed unless the error was not the node's. *)
Definition message_ends (id : id_arg) (er : ref) (localId : string) (msg : ChannelMessage) (st : LocalEventStatus)
    (context : SignerContext) (streamId : string) (r : result string) (s : ClientState.t)
    (h : list (event ans * ClientState.t)) : Prop :=
  let tr := h.*1 in
  (length (adds tr) <= 4)%nat
  /\ (adds tr = [] \/ exists data payload encrypted prev,
        (mkEvent (EncryptGroupEvent streamId (ChannelMessage_toJsonString msg)) (Ok data), encrypted) ∈ h
        /\ prev_hash id encrypted = Some prev
        /\ message_payload id (set_refEventId (getRefEventIdFromChannelMessage msg) data) = Some payload
        /\ chained context payload prev (adds tr))
  /\ match r with
     | Ok eventId =>
         exists env, last (adds tr) = Some (env, Ok tt) /\ eventId = event_id env
           /\ shows id er localId msg (event_id env) Status_sent s
     | Throw e =>
         (exists env, last (adds tr) = Some (env, Throw e) /\ shows id er localId msg (event_id env) Status_failed s
            /\ (errorContains e Err_BAD_PREV_MINIBLOCK_HASH = false \/ length (adds tr) = 4%nat))
         \/ (Forall (fun a => exists err, a.2 = Throw err /\ errorContains err Err_BAD_PREV_MINIBLOCK_HASH = true) (adds tr)
            /\ exists hash st', shows id er localId msg hash st' s /\ (st' = st \/ st' = Status_sending))
     end.

Lemma message_fails_early id er localId msg st context sid e s h hash :
  adds h.*1 = [] -> shows id er localId msg hash st s -> message_ends id er localId msg st context sid (Throw e) s h.
Proof.
  intros Ht Hs. unfold message_ends. rewrite Ht. split_and!; [cbn; lia|by left|]. right. split; [constructor|]. exists hash, st. auto.
Qed.

Lemma spec_makeEventAndAdd id idb er localId msg st h payload key cleartext s :
  streamIdAsBytes id = Ok idb -> shows id er localId msg h st s -> known_as id er key s -> key <> "" ->
  spec (leaves_entry id er) any_answer 12 (makeEventAndAddToStream id payload (Some key) cleartext) s
    (fun r s' tr => (exists e, r = Throw e /\ tr = [] /\ s' = s)
       \/ exists prev, prev_hash id s = Some prev /\ sending_ends id er localId msg st (signerContext s) payload 3 prev r s' tr).
Proof.
  intros Hid Hs Hk Hkey. unfold prev_hash, makeEventAndAddToStream, a_get. apply spec_get. cbn [mbind async_mbind].
  assert (Hearly : forall e (Q : result string -> ClientState.t -> list (event ans) -> Prop),
    spec (leaves_entry id er) any_answer 12 (Done (Throw e)) s
      (fun r s' tr => (exists e, r = Throw e /\ tr = [] /\ s' = s) \/ Q r s' tr)).
  { intros e Q. apply spec_done. left. eauto. }
  destruct (userStreamId s) as [u|]; cbn [a_assert mret async_mret mbind async_mbind a_throw]; [|apply Hearly].
  destruct (stream id s) as [r|]; cbn [a_assert mret async_mret mbind async_mbind a_throw]; [|apply Hearly].
  destruct (view_of r s) as [v|e]; cbn [a_lift mbind async_mbind]; [|apply Hearly].
  destruct (prevMiniblockHash v) as [prev|]; cbn [a_assert mret async_mret mbind async_mbind a_throw]; [|apply Hearly].
  change 12%nat with (3 * 4 + 0)%nat. apply spec_bind. eapply spec_mono; [by eapply (message_sending id idb)|done|].
  intros r0 s' tr Hends. destruct r0 as [added|e]; apply spec_done; rewrite app_nil_r; right; by exists prev.
Qed.

(** Encrypting and sending, for an entry that exists. *)
Lemma spec_makeAndSend id idb sid er localId msg st h key s :
  id = IdString sid -> streamIdAsBytes id = Ok idb -> shows id er localId msg h st s -> known_as id er key s -> key <> "" ->
  hspec (leaves_entry id er) any_answer 13 (makeAndSendChannelMessageEvent sid msg (Some key)) s
    (message_ends id er localId msg st (signerContext s) sid).
Proof.
  intros -> Hid Hs Hk Hkey. unfold makeAndSendChannelMessageEvent, encryptGroupEvent, a_get. apply hspec_get. cbn [mbind async_mbind].
  assert (Hearly : forall e n, hspec (leaves_entry (IdString sid) er) any_answer n (Done (Throw e)) s (message_ends (IdString sid) er localId msg st (signerContext s) sid)).
  { intros e n. apply hspec_done. by eapply message_fails_early. }
  pose proof Hs as (r & o & ev & Hr & _). rewrite Hr. cbn [a_some mret async_mret mbind async_mbind]. apply hspec_get.
  destruct (cryptoBackend s) as [k|]; cbn [a_assert mret async_mret mbind async_mbind a_throw]; [|apply Hearly].
  unfold a_await. cbn [mbind async_mbind]. apply hspec_await. intros [data|e] s1 HR _; cbn [mbind async_mbind].
  2:{ apply hspec_done. eapply message_fails_early; [done|]. by eapply leaves_shows. }
  pose proof HR as (Hc & _). pose proof (leaves_shows _ _ _ _ _ _ _ _ HR Hs) as Hs1. pose proof (leaves_known _ _ _ _ _ HR Hk) as Hk1.
  set (message := set_refEventId _ data).
  assert (Hsend : forall payload, message_payload (IdString sid) message = Some payload ->
    hspec (leaves_entry (IdString sid) er) any_answer 12 (makeEventAndAddToStream (IdString sid) payload (Some key) (Some (ChannelMessage_toJsonString msg))) s1
      (fun a s0 h => message_ends (IdString sid) er localId msg st (signerContext s) sid a s0
         ((mkEvent (EncryptGroupEvent sid (ChannelMessage_toJsonString msg)) (Ok data), s1) :: h))).
  { intros payload Hp. eapply hspec_mono; [by eapply hspec_of_spec, (spec_makeEventAndAdd _ idb)|done|].
    intros r0 s2 h0 [(e & -> & Hh & ->)|(prev & Hprev & Hch & Hlen & Hr0)].
    { eapply message_fails_early; [|done]. cbn. by rewrite Hh. }
    split_and!; [exact Hlen|right|exact Hr0]. exists data, payload, s1, prev. split_and!; [by left|done|done|].
    by rewrite <- Hc. }
  unfold message_payload in Hsend. destruct (isChannelStreamId _); [by apply Hsend|].
  destruct (isDMChannelStreamId _); [by apply Hsend|]. destruct (isGDMChannelStreamId _); [by apply Hsend|].
  apply hspec_done. by eapply message_fails_early.
Qed.

(** The entry of a new message. *)
Lemma appended_shows id r o localId now msg s :
  stream id s = Some r -> objs s !! r = Some o ->
  exists s', on_view r (StreamStateView.appendLocalEvent localId now msg Status_sending true) s = (Ok localId, s')
    /\ shows id (next_ref (o_view o)) localId msg localId Status_sending s' /\ signerContext s' = signerContext s.
Proof.
  intros Hr Ho. unfold on_view, on_stream. rewrite Ho. unfold js_zoom.
  cbn [Prelude.view SyncedStream.viewL SyncedStream.view].
  pose proof (appendLocalEvent_spec localId now msg Status_sending true (o_view o)) as [Hres Hskel].
  pose proof (appendLocalEvent_heap localId now msg Status_sending true (o_view o)) as Hheap.
  destruct (StreamStateView.appendLocalEvent _ _ _ _ _ _) as [res post em]. cbn in Hres, Hskel, Hheap |- *. subst res.
  eexists. split_and!; [done| |done]. exists r. eexists _, _. cbn. rewrite lookup_insert_eq.
  split_and!; [done|done| |exact Hheap|done|done]. cbn.
  assert (Hev : events post = sk_events (append_skel localId (skel (o_view o)))) by exact (f_equal sk_events Hskel).
  rewrite Hev. apply lookup_insert_eq.
Qed.

Lemma message_ends_skip id er localId msg st context sid e s1 res s h : add_of e = None ->
  message_ends id er localId msg st context sid res s h -> message_ends id er localId msg st context sid res s ((e, s1) :: h).
Proof.
  intros He. unfold message_ends. replace (adds ((e, s1) :: h).*1) with (adds h.*1) by (cbn; by rewrite He).
  intros (Hl & Hd & Hr). split_and!; [done| |done]. destruct Hd as [|(data & payload & s2 & prev & Hin & ?)]; [by left|right].
  exists data, payload, s2, prev. split; [by right|done].
Qed.

(** ** Messages that get stuck *)

Lemma retry_refused id er localId msg hash st s o sid :
  id = IdString sid -> shows id er localId msg hash st s -> st <> Status_failed ->
  got (run (retrySendMessage sid hash) o s)
  = Ended (Throw (CodeException "event not in failed state" Err_ERR_UNSPECIFIED)).
Proof.
  intros -> (r & ob & ev & Hr & Ho & He & Hh & _ & Hl) Hst. unfold retrySendMessage, a_get. cbn [mbind async_mbind run].
  rewrite Hr. cbn [a_some mret async_mret mbind async_mbind]. unfold view_of. rewrite Ho. cbn [a_lift mbind async_mbind].
  rewrite He. cbn [a_some mret async_mret mbind async_mbind]. rewrite Hh. cbn [a_some mret async_mret mbind async_mbind].
  rewrite Hl. cbn [a_some mret async_mret mbind async_mbind le_status]. by destruct st.
Qed.

(** A message whose encryption fails is stuck: the caller gets the error, but the
    message stays marked as being sent, and since only failed messages may be sent again,
    [retrySendMessage] refuses it. *)
Theorem unencrypted_message_stuck localId now sid msg s m o err r ob k o' :
  let id := IdString sid in
  let er := next_ref (o_view ob) in
  let e := run (sendChannelMessage localId now sid msg false) (m :: o) s in
  stream id s = Some r -> objs s !! r = Some ob -> cryptoBackend s = Some k ->
  answer m (EncryptGroupEvent sid (ChannelMessage_toJsonString msg)) = Throw err ->
  (forall s, leaves_entry id er s (world m s)) ->
  got e = Ended (Throw err) /\ adds (trace e) = []
  /\ shows id er localId msg localId Status_sending (state e)
  /\ got (run (retrySendMessage sid localId) o' (state e))
     = Ended (Throw (CodeException "event not in failed state" Err_ERR_UNSPECIFIED)).
Proof.
  cbv zeta. intros Hr Ho Hk Ha Hw. destruct (appended_shows _ _ _ localId now msg _ Hr Ho) as (s1 & Hdo & Hs1 & Hc1).
  assert (Hk1 : cryptoBackend s1 = Some k).
  { unfold on_view, on_stream in Hdo. rewrite Ho in Hdo. injection Hdo as _ <-. done. }
  pose proof Hs1 as (r1 & ? & ? & Hr1 & _).
  assert (Hrun : run (sendChannelMessage localId now sid msg false) (m :: o) s
    = mkEnd (Ended (Throw err)) (world m s1)
        [mkEvent (EncryptGroupEvent sid (ChannelMessage_toJsonString msg)) (Throw err)] o).
  { unfold sendChannelMessage, a_get. cbn [mbind async_mbind run]. rewrite Hr. cbn [a_some mret async_mret mbind async_mbind].
    unfold a_do. cbn [mbind async_mbind run]. rewrite Hdo. cbn [fst snd run mbind async_mbind].
    unfold makeAndSendChannelMessageEvent, encryptGroupEvent, a_get. cbn [mbind async_mbind run]. rewrite Hr1.
    cbn [a_some mret async_mret mbind async_mbind run]. rewrite Hk1. cbn [a_assert mret async_mret mbind async_mbind a_await run].
    rewrite Ha. done. }
  rewrite Hrun. cbn [got trace state].
  assert (Hs2 : shows (IdString sid) (next_ref (o_view ob)) localId msg localId Status_sending (world m s1)).
  { by eapply leaves_shows. }
  split_and!; [done|done|done|]. by eapply retry_refused.
Qed.

Lemma run_update_missing id key eid status o s r ob :
  stream id s = Some r -> objs s !! r = Some ob -> events (o_view ob) !! key = None ->
  exists s', run (updateLocalEventOf id key eid status) o s
    = mkEnd (Ended (Throw (CodeException ("Local event not found " +:+ key) Err_ERR_UNSPECIFIED))) s' [] o
    /\ stream id s' = Some r /\ exists ob', objs s' !! r = Some ob' /\ o_view ob' = o_view ob.
Proof.
  intros Hr Ho He. pose proof (updateLocalEvent_spec key eid status true (o_view ob)) as U. cbv zeta in U. rewrite He in U.
  destruct U as [Hres Hpost]. unfold updateLocalEventOf, a_get. cbn [mbind async_mbind run]. rewrite Hr. unfold a_do. cbn [run].
  unfold on_view, on_stream. rewrite Ho. unfold js_zoom. cbn [Prelude.view SyncedStream.viewL SyncedStream.view].
  destruct (StreamStateView.updateLocalEvent _ _ _ _ _) as [res post em]. cbn in Hres, Hpost |- *. subst.
  eexists. split_and!; [done|done|]. eexists. cbn. by rewrite lookup_insert_eq.
Qed.

(** The attempt, with the handler of its errors: other errors than a stale hash end it. *)
Lemma makeEventWithHash_eq retries streamId payload prev localId cleartext :
  exists handler, makeEventWithHashAndAddToStream retries streamId payload prev localId cleartext
    = (event ← makeEventOf payload (Some prev);
       let eventId := bin_toHexString (env_hash event) in
       showSending streamId localId eventId;;
       cacheCleartext eventId cleartext;;
       a_try
         (id ← a_lift (streamIdAsBytes streamId);
          a_await (RpcAddEvent id event);;
          showStatus streamId localId eventId Status_sent;;
          mret (prev, eventId))
         (handler event))
    /\ (forall event err, errorContains err Err_BAD_PREV_MINIBLOCK_HASH = false ->
         handler event err = (showStatus streamId localId (bin_toHexString (env_hash event)) Status_failed;; a_throw err)).
Proof.
  destruct retries as [|n]; cbn [makeEventWithHashAndAddToStream]; eexists; (split; [reflexivity|]).
  all: intros event err Herr; cbn beta; by rewrite Herr.
Qed.

(** An event the node took may be reported as failed: when the view of the stream is
    replaced while the event is added, as happens on a sync reset, the local event is not
    found again; the error of this bookkeeping is what the caller gets. *)
Theorem accepted_event_reported_failed retries id idb payload prev key s m1 m2 o salt now env er localId msg h st r ob :
  streamIdAsBytes id = Ok idb -> shows id er localId msg h st s -> known_as id er key s -> key <> "" ->
  answer m1 Entropy = Ok (salt, now) -> (forall s, leaves_entry id er s (world m1 s)) ->
  makeEvent salt now (signerContext s) (Some payload) (Some prev) = Ok env ->
  answer m2 (RpcAddEvent idb env) = Ok tt ->
  (forall s, stream id (world m2 s) = Some r /\ objs (world m2 s) !! r = Some ob) -> events (o_view ob) !! key = None ->
  let err := CodeException ("Local event not found " +:+ key) Err_ERR_UNSPECIFIED in
  errorContains err Err_BAD_PREV_MINIBLOCK_HASH = false ->
  let e := run (makeEventWithHashAndAddToStream retries id payload prev (Some key) None) (m1 :: m2 :: o) s in
  adds (trace e) = [(env, Ok tt)] /\ got e = Ended (Throw err).
Proof.
  intros Hid Hs Hk Hkey Ha1 Hw1 Hm Ha2 Hw2 He err Hbad. cbn zeta.
  assert (Hkt : truthy_str (Some key) = Some key) by by apply truthy_str_Some.
  cut (exists s', run (makeEventWithHashAndAddToStream retries id payload prev (Some key) None) (m1 :: m2 :: o) s
    = mkEnd (Ended (Throw err)) s' [mkEvent Entropy (Ok (salt, now)); mkEvent (RpcAddEvent idb env) (Ok tt)] o).
  { by intros [s' ->]. }
  destruct (makeEventWithHash_eq retries id payload prev (Some key) None) as (handler & -> & Hh).
  rewrite run_bind. unfold makeEventOf, a_get. cbn [mbind async_mbind a_await run].
  rewrite Ha1. cbn [mbind async_mbind a_lift run fst snd]. rewrite Hm. unfold continue at 1. cbn [got after trace left state app].
  rewrite run_bind. unfold showSending. rewrite Hkt. unfold a_get. cbn [mbind async_mbind run].
  assert (Hs1 := leaves_shows _ _ _ _ _ _ _ _ (Hw1 s) Hs). assert (Hk1 := leaves_known _ _ _ _ _ (Hw1 s) Hk).
  pose proof Hs1 as (r1 & o1 & ev1 & Hr1 & _). rewrite Hr1. cbn [a_assert mret async_mret mbind async_mbind].
  destruct (run_update id er localId msg h st key (bin_toHexString (env_hash env)) Status_sending (m2 :: o) (world m1 s) Hs1 Hk1)
    as (s2 & -> & _). unfold continue at 1. cbn [got after trace left state app cacheCleartext truthy_str mbind async_mbind mret async_mret].
  destruct (Hw2 s2) as [Hr2 Ho2].
  rewrite run_try. rewrite Hid. cbn [a_lift mbind async_mbind a_await run]. rewrite Ha2. cbn [mbind async_mbind].
  rewrite run_bind. unfold showStatus. rewrite Hkt.
  destruct (run_update_missing id key (bin_toHexString (env_hash env)) Status_sent o (world m2 s2) r ob Hr2 Ho2 He)
    as (s3 & -> & Hr3 & ob3 & Ho3 & Hv3).
  unfold continue at 1. cbn [got after trace left state app mbind async_mbind run continue]. rewrite (Hh _ _ Hbad).
  rewrite run_bind. unfold showStatus. rewrite Hkt.
  destruct (run_update_missing id key (bin_toHexString (env_hash env)) Status_failed o s3 r ob3 Hr3 Ho3 ltac:(by rewrite Hv3))
    as (s4 & -> & _). by exists s4.
Qed.
End Sending.

(** ** Concrete runs *)

(** Signatures and coding good enough to tell events apart. *)
#[local] Instance demo_Crypto : Crypto := {|
  assertBytes := @assertBytes toy_Crypto;
  keccak256_updates := @keccak256_updates toy_Crypto;
  signSync := @signSync toy_Crypto;
  verify := @verify toy_Crypto;
  recoverPublicKey := @recoverPublicKey toy_Crypto;
  hashPersonalMessage := @hashPersonalMessage toy_Crypto;
  fromRpcSig := @fromRpcSig toy_Crypto;
  ecrecover := @ecrecover toy_Crypto;
  StreamEvent_toBinary := fun e => Ok (se_creatorAddress e ++ default [] (se_prevMiniblockHash e) ++ se_salt e);
  StreamEvent_fromBinary := fun _ => Throw (JsError "not supported");
|}.

#[local] Instance demo_CryptoLaws : @CryptoLaws toy demo_Crypto.
Proof. destruct toy_CryptoLaws as [H1 H2]. by split. Qed.

#[export] Instance toy_JsonStrings : JsonStrings := {|
  ChannelMessage_toJsonString := fun _ => "{}";
  ChannelProperties_toJsonString := fun p => cp_name p;
  FullyReadMarkers_toJsonString := fun _ => "{}";
  SessionKeys_toJsonString := fun keys => String.concat "," keys;
|}.

Definition demo_hash : bytes := replicate 32 x00.
Definition demo_msg : ChannelMessage := make_ChannelMessage_Post_Content_Text "hi" None.
Definition demo_obj : sobj := mkObj (set_prevMiniblockHash (Some demo_hash) demo_view) false true.
Definition demo_device : UserDevice := mkUserDevice "device" "fallback".
Definition demo_context : SignerContext := mkSignerContext "alice" (replicate 20 x01) None None.
Definition demo_data : EncryptedData := mkEncryptedData "cipher" "alg" "device" "session" None None.

(** A client with one channel, and its empty store. *)
Definition demo_client : ClientState.t :=
  ClientState.mk "u" demo_context (Some "a8") None None None (Some demo_device) [("20", 0%nat)] {[0%nat := demo_obj]}
    empty_store [] [] ∅ [] ∅ ∅ [].

(** Answers of the environment: the node answers with [add]. *)
Definition demo_answer (add : result unit) (enc : result EncryptedData) (c : call) : result (ans c) :=
  match c with
  | Entropy => Ok ([x07], 5)
  | EncryptGroupEvent _ _ => enc
  | RpcAddEvent _ _ => add
  | Turn | StoreAccess => Ok tt
  | _ => Throw (JsError "no answer")
  end.

Definition demo_moment (add : result unit) : moment ClientState.t ans := mkMoment (demo_answer add (Ok demo_data)) (fun s => s).

Lemma leaves_entry_refl id er s : leaves_entry id er s s.
Proof. by split. Qed.

Definition demo_stale : js_error :=
  JsError ("24:BAD_PREV_MINIBLOCK_HASH: expected = " +:+ bytesToHex (replicate 32 x02) +:+ " event = 00").

(** A message that needs a second attempt. *)
Example demo_send_retried :
  let e := run (sendChannelMessage "~1" 5 "20" demo_msg false)
    [demo_moment (Ok tt); demo_moment (Ok tt); demo_moment (Ok tt); demo_moment (Throw demo_stale);
     demo_moment (Ok tt); demo_moment (Ok tt); demo_moment (Ok tt)] demo_client in
  length (adds (trace e)) = 2%nat /\ (exists id, got e = Ended (Ok id)).
Proof. split; [vm_compute; reflexivity|]. eexists. vm_compute. reflexivity. Qed.


Lemma unencrypted_message_stuck_witness :
  let m := mkMoment (demo_answer (Ok tt) (Throw (JsError "no session"))) (fun s => s) in
  let e := run (sendChannelMessage "~1" 5 "20" demo_msg false) [m] demo_client in
  got e = Ended (Throw (JsError "no session")) /\ adds (trace e) = []
  /\ shows (IdString "20") (next_ref (o_view demo_obj)) "~1" demo_msg "~1" Status_sending (state e)
  /\ got (run (retrySendMessage "20" "~1") [] (state e))
     = Ended (Throw (CodeException "event not in failed state" Err_ERR_UNSPECIFIED)).
Proof.
  refine (unencrypted_message_stuck "~1" 5 "20" demo_msg demo_client
    (mkMoment (demo_answer (Ok tt) (Throw (JsError "no session"))) (fun s => s)) [] (JsError "no session") 0%nat demo_obj demo_device [] _ _ _ _ _).
  - vm_compute. reflexivity.
  - vm_compute. reflexivity.
  - reflexivity.
  - reflexivity.
  - intros s. apply leaves_entry_refl.
Defined.

(** The state in which a message is shown, and one after a reset. *)
Definition demo_showing : ClientState.t := (on_view 0 (StreamStateView.appendLocalEvent "~1" 5 demo_msg Status_sending true) demo_client).2.

Definition demo_env : Envelope :=
  match makeEvent [x07] 5 demo_context (Some (make_ChannelPayload_Message demo_data)) (Some demo_hash) with
  | Ok env => env
  | Throw _ => mkEnvelope [] [] []
  end.

Lemma demo_shown : shows (IdString "20") (next_ref (o_view demo_obj)) "~1" demo_msg "~1" Status_sending demo_showing.
Proof.
  destruct (appended_shows (IdString "20") 0 demo_obj "~1" 5 demo_msg demo_client) as (s' & Hs & Hshow & _);
    [vm_compute; reflexivity|vm_compute; reflexivity|].
  unfold demo_showing. by rewrite Hs.
Qed.

Lemma accepted_event_reported_failed_witness :
  let reset := mkMoment (demo_answer (Ok tt) (Ok demo_data)) (fun _ => demo_client) in
  let e := run (makeEventWithHashAndAddToStream 3 (IdString "20") (make_ChannelPayload_Message demo_data) demo_hash (Some "~1") None)
             [demo_moment (Ok tt); reset] demo_showing in
  adds (trace e) = [(demo_env, Ok tt)]
  /\ got e = Ended (Throw (CodeException "Local event not found ~1" Err_ERR_UNSPECIFIED)).
Proof.
  refine (accepted_event_reported_failed 3 (IdString "20") [x20] (make_ChannelPayload_Message demo_data) demo_hash "~1" demo_showing
    (demo_moment (Ok tt)) (mkMoment (demo_answer (Ok tt) (Ok demo_data)) (fun _ => demo_client)) [] [x07] 5 demo_env
    (next_ref (o_view demo_obj)) "~1" demo_msg "~1" Status_sending 0%nat demo_obj _ demo_shown (shows_known _ _ _ _ _ _ _ demo_shown)
    _ _ _ _ _ _ _ _).
  - vm_compute. reflexivity.
  - discriminate.
  - reflexivity.
  - intros s. apply leaves_entry_refl.
  - vm_compute. reflexivity.
  - reflexivity.
  - intros s. split; vm_compute; reflexivity.
  - vm_compute. reflexivity.
  - vm_compute. reflexivity.
Defined.
