(* ===== verification/Fetching.v ===== *)
(** * Properties of loading streams and their history (core/sdk/src/client.ts)

    Which miniblocks the client ends up with when part of them is stored locally, how
    scrolling back survives a stream that is reset meanwhile, and what failed requests
    leave behind. *)

From stdpp Require Import pretty.
From S2P Require Import Prelude Proto Externals ToyExternals Binary StreamId Types Sign Persistence.
From S2P Require Import StreamStateView SyncedStream Restore Envelopes Async ClientState ClientSend ClientStreams.

Section Fetching.
Context `{Externals, Database, Crypto, JsonStrings}.

(** ** Miniblocks from the store and from the node *)

(** The stored miniblocks of the stream can be decoded. *)
Definition readable (sid : string) (s : store) : Prop := forall n, exists o, getMiniblock sid n s = Ok o.

(** What is known of the store of the client, with [clean] also that it can be read. *)
Definition store_ok (clean : Prop) (sid : string) (s : ClientState.t) : Prop :=
  keyed sid (persistenceStore s) /\ (clean -> readable sid (persistenceStore s)).

(** The others keep the store like this. *)
Definition keeps_store (clean : Prop) (sid : string) (s s' : ClientState.t) : Prop :=
  store_ok clean sid s -> store_ok clean sid s'.

(** The node answers with the miniblocks it was asked for, and with [clean] the local
    database works. *)
Definition honest (clean : Prop) (e : event ans) : Prop :=
  match e with
  | mkEvent c a =>
      match c return result (ans c) -> Prop with
      | RpcGetMiniblocks _ from to => fun a => forall blocks term mbs,
          a = Ok (blocks, term) -> unpackMiniblocks blocks = Ok mbs -> map block_num mbs = seqZ from (to - from)
      | StoreAccess => fun a => clean -> a = Ok tt
      | _ => fun _ => True
      end a
  end.

Definition read_failed (tr : list (event ans)) : Prop := exists e, mkEvent StoreAccess (Throw e) ∈ tr.

Lemma seqZ_snoc a k : 0 <= k -> seqZ a (k + 1) = seqZ a k ++ [a + k].
Proof. intros Hk. rewrite seqZ_app by lia. f_equal. Qed.

(** What the loop over the store returns. *)
Definition reads_back (clean : Prop) (sid : string) (n : nat) (i : Z) (acc : list ParsedMiniblock)
    (r : result cached) (s : ClientState.t) (tr : list (event ans)) : Prop :=
  store_ok clean sid s
  /\ exists k blocks completed, (k <= n)%nat
       /\ r = Ok (mkCached (acc ++ blocks) (i + 1 - Z.of_nat k) completed)
       /\ map block_num blocks = rev (seqZ (i + 1 - Z.of_nat k) (Z.of_nat k))
       /\ (clean -> completed = true) /\ (completed = true -> ~ read_failed tr).

Lemma reads_back_stop clean sid n i acc s tr completed :
  store_ok clean sid s -> (clean -> completed = true) -> (completed = true -> ~ read_failed tr) ->
  reads_back clean sid n i acc (Ok (mkCached acc (i + 1) completed)) s tr.
Proof.
  intros Hs Hc Hf. split; [done|]. exists 0%nat, [], completed. rewrite app_nil_r, Z.sub_0_r.
  split_and!; [lia|done|done|done|done].
Qed.

Lemma reads_back_more clean sid n i acc mb r s tr : block_num mb = i ->
  reads_back clean sid n (i - 1) (acc ++ [mb]) r s tr ->
  reads_back clean sid (S n) i acc r s (mkEvent StoreAccess (Ok tt) :: tr).
Proof.
  intros Hmb (Hs & k & blocks & completed & Hk & -> & Hn & Hc & Hf). split; [done|].
  exists (S k), (mb :: blocks), completed. replace (i + 1 - Z.of_nat (S k)) with (i - 1 + 1 - Z.of_nat k) by lia.
  rewrite <- app_assoc. split_and!; [lia|done| |done|].
  - cbn [map]. rewrite Hmb, Hn. replace (Z.of_nat (S k)) with (Z.of_nat k + 1) by lia.
    rewrite seqZ_snoc, rev_app_distr by lia. cbn [rev app]. f_equal. lia.
  - intros Ht [e [He|He]%elem_of_cons]; [done|]. apply (Hf Ht). by exists e.
Qed.

Lemma spec_read_cached clean sid n i acc s :
  store_ok clean sid s ->
  spec (keeps_store clean sid) (honest clean) n (read_cached sid n i (i + 1) acc) s (reads_back clean sid n i acc).
Proof.
  revert i acc s. induction n as [|n IH]; intros i acc s Hs; cbn [read_cached].
  { apply spec_done. apply reads_back_stop; [done|done|]. intros _ [e He]. by apply elem_of_nil in He. }
  unfold a_await, a_get. cbn [mbind async_mbind a_try]. apply spec_await. intros [[]|e] s1 HR HP; apply HR in Hs; cbn [mbind async_mbind a_try].
  - apply spec_get. destruct (getMiniblock sid i (persistenceStore s1)) as [[mb|]|e] eqn:Hg; cbn [mbind async_mbind a_try a_lift mret async_mret].
    + destruct Hs as [Hk Hr]. eapply spec_mono; [replace i with (i - 1 + 1) at 2 by lia; apply IH; done|lia|].
      intros r s2 tr Hb. apply (reads_back_more _ _ _ _ _ mb); [by apply (Hk _ _ Hg)|done].
    + apply spec_done. apply reads_back_stop; [done|done|]. intros _ [e [He|He]%elem_of_cons]; [done|by apply elem_of_nil in He].
    + apply spec_done. apply reads_back_stop; [done| |done]. intros Hclean. destruct Hs as [_ Hr].
      destruct (Hr Hclean i) as [o Ho]. congruence.
  - apply spec_done. apply reads_back_stop; [done| |done]. intros Hclean. by specialize (HP Hclean).
Qed.

(** What [getMiniblocks] returns: the miniblocks of the node up to [mid], then the stored
    ones, in order if no read failed. *)
Definition fetches (clean : Prop) (from to : Z) (r : result (list ParsedMiniblock * bool)) (tr : list (event ans)) : Prop :=
  match r with
  | Throw _ => True
  | Ok (mbs, term) =>
      exists mid (completed : bool), from <= mid <= to
        /\ map block_num mbs = seqZ from (mid - from) ++ (if completed then seqZ mid (to - mid) else rev (seqZ mid (to - mid)))
        /\ (clean -> completed = true) /\ (completed = true -> ~ read_failed tr)
        /\ ((mid = from /\ term = (from =? 0))
            \/ exists idb blocks, mkEvent (RpcGetMiniblocks idb from mid) (Ok (blocks, term)) ∈ tr)
  end.

Lemma rev_numbers mbs l : map block_num mbs = rev l -> map block_num (rev mbs) = l.
Proof. intros Hm. by rewrite map_rev, Hm, rev_involutive. Qed.

Lemma cached_numbers blocks to completed l :
  map block_num blocks = rev l ->
  map block_num (cached_in_order (mkCached blocks to completed)) = (if completed then l else rev l).
Proof. intros Hm. unfold cached_in_order. cbn. destruct completed; [by apply rev_numbers|done]. Qed.

Lemma not_failed_snoc tr tr' : ~ read_failed tr -> Forall (fun e => forall x, e <> mkEvent StoreAccess (Throw x)) tr' -> ~ read_failed (tr ++ tr').
Proof.
  intros Hn Hf [e He]. apply elem_of_app in He as [He|He]; [apply Hn; by exists e|].
  rewrite Forall_forall in Hf. by apply (Hf _ He e).
Qed.

Lemma spec_getMiniblocks clean sid from to s :
  from <= to -> store_ok clean (streamIdAsString sid) s ->
  spec (keeps_store clean (streamIdAsString sid)) (honest clean) (Z.to_nat (to - from) + 2) (getMiniblocks sid from to) s
    (fun r s' tr => fetches clean from to r tr).
Proof.
  intros Hft Hs. unfold getMiniblocks. apply spec_bind.
  replace to with (to - 1 + 1) at 4 by lia. eapply spec_mono; [by apply spec_read_cached|done|].
  intros r s1 tr (Hs1 & k & blocks & completed & Hk & -> & Hn & Hc & Hf). cbn beta iota zeta. cbn [c_toExclusive app].
  set (mid := to - 1 + 1 - Z.of_nat k) in *. assert (Hmid : from <= mid <= to) by lia.
  replace (Z.of_nat k) with (to - mid) in Hn by lia.
  pose proof (cached_numbers blocks mid completed _ Hn) as Hnum. destruct (Z.eqb_spec mid from) as [Heq|Hne].
  { apply spec_done. rewrite app_nil_r. exists mid, completed. rewrite Hnum, Heq, Z.sub_diag. split_and!; [lia|lia|done|done|done|by left]. }
  destruct (streamIdAsBytes sid) as [idb|e]; cbn [a_lift mbind async_mbind]; [|by apply spec_done].
  unfold a_await, a_get. cbn [mbind async_mbind]. apply spec_await. intros [[mbs term]|e] s2 _ Hhon; cbn [mbind async_mbind]; [|by apply spec_done].
  cbn [fst snd]. destruct (unpackMiniblocks mbs) as [pbs|e] eqn:Hu; cbn [mbind async_mbind]; [|by apply spec_done].
  apply spec_await. intros [[]|e] s3 _ _; cbn [mbind async_mbind]; [|by apply spec_done].
  apply spec_get. destruct (saveMiniblocks _ _ _) as [st|e]; cbn [mbind async_mbind]; [|by apply spec_done].
  unfold a_modify. apply spec_get, spec_put, spec_done. cbn [fst snd].
  exists mid, completed. rewrite map_app, Hnum, (Hhon _ _ _ eq_refl Hu). split_and!; [lia|lia|done|done| |].
  - intros Ht. apply not_failed_snoc; [by apply Hf|]. repeat constructor; done.
  - right. exists idb, mbs. apply elem_of_app. right. by left.
Qed.

Lemma spec_run {A} R P n (p : ClientM A) s Q o :
  spec R P n p s Q -> within R P o -> (n <= length o)%nat ->
  exists r, got (run p o s) = Ended r /\ Q r (state (run p o s)) (trace (run p o s)).
Proof. intros Hsp Hw Hn. destruct (Hsp o Hw Hn) as (r & Hr & HQ & _). eauto. Qed.

(** A range of miniblocks is fetched without gaps and in order. The newest ones are
    read from the local store as long as they are there, only the rest is asked of the
    node, and the result is exactly the miniblocks of the range in order; this when the
    local database works, and however the store grows meanwhile. The call ends after at
    most two awaits more than there are miniblocks. *)
Theorem miniblocks_in_order sid from to o s :
  from <= to -> store_ok True (streamIdAsString sid) s ->
  within (keeps_store True (streamIdAsString sid)) (honest True) o -> (Z.to_nat (to - from) + 2 <= length o)%nat ->
  let e := run (getMiniblocks sid from to) o s in
  exists r, got e = Ended r
    /\ forall mbs term, r = Ok (mbs, term) -> map block_num mbs = seqZ from (to - from)
       /\ ((term = (from =? 0)) \/ exists idb mid blocks, mkEvent (RpcGetMiniblocks idb from mid) (Ok (blocks, term)) ∈ trace e).
Proof.
  cbv zeta. intros Hft Hs Hw Hn. destruct (spec_run _ _ _ _ _ _ _ (spec_getMiniblocks True sid from to s Hft Hs) Hw Hn) as (r & Hr & HQ).
  exists r. split; [done|]. intros mbs term ->. destruct HQ as (mid & completed & Hmid & Hnum & Hc & _ & Ht).
  rewrite (Hc Logic.I), seqZ_glue in Hnum by lia. split; [done|]. destruct Ht as [[_ ?]|(idb & blocks & ?)]; [by left|right; eauto].
Qed.

(** After an error of the local database the miniblocks are out of order: those read
    before the error were collected from the newest down, and the error skips the step
    that reverses them. *)
Theorem failed_read_reverses sid from to o s mbs term :
  from <= to -> store_ok False (streamIdAsString sid) s ->
  within (keeps_store False (streamIdAsString sid)) (honest False) o -> (Z.to_nat (to - from) + 2 <= length o)%nat ->
  let e := run (getMiniblocks sid from to) o s in
  got e = Ended (Ok (mbs, term)) -> read_failed (trace e) ->
  exists mid, from <= mid <= to /\ map block_num mbs = seqZ from (mid - from) ++ rev (seqZ mid (to - mid)).
Proof.
  cbv zeta. intros Hft Hs Hw Hn Hgot Hfail.
  destruct (spec_run _ _ _ _ _ _ _ (spec_getMiniblocks False sid from to s Hft Hs) Hw Hn) as (r & Hr & HQ).
  rewrite Hgot in Hr. injection Hr as <-. destruct HQ as (mid & completed & Hmid & Hnum & _ & Hf & _).
  exists mid. split; [done|]. destruct completed; [by destruct Hf|done].
Qed.

(** ** Scrolling back *)

(** How a scrollback of the stream object [r] ends when it started with a view that goes
    back to [min] and whose previous snapshot is [prev]. It is decided in the state in
    which the last call was answered: when the view still starts at [min] there, the
    miniblocks from [prev] to [min] are put in front of it, with their cleartexts, and
    whether the beginning is reached is what the node said or whether [prev] is zero;
    otherwise the state is left as it is. *)
Definition scrolled (r : nat) (prev min : Z) (res : result scrollback_result) (s : ClientState.t)
    (h : list (event ans * ClientState.t)) : Prop :=
  match res with
  | Throw _ => True
  | Ok back =>
      exists ev last_state min', last h = Some (ev, last_state) /\ min_of r last_state = Ok min'
      /\ if decide (default (-1) min' = min)
         then exists mbs, map block_num mbs = seqZ prev (min - prev)
           /\ on_stream r (SyncedStream.prependEvents mbs (getCleartexts (event_ids mbs) (persistenceStore last_state)) (terminus back))
                last_state = (Ok tt, s)
           /\ (terminus back = (prev =? 0)
               \/ exists idb mid blocks, mkEvent (RpcGetMiniblocks idb prev mid) (Ok (blocks, terminus back)) ∈ h.*1)
         else s = last_state /\ terminus back = false
  end.

Lemma hspec_first_of R P n r term s (Q : result scrollback_result -> ClientState.t -> list (event ans * ClientState.t) -> Prop) :
  (forall e, Q (Throw e) s []) -> (forall first, Q (Ok (mkScrollback term first)) s []) -> hspec R P n (first_of r term) s Q.
Proof.
  intros HT HO. unfold first_of, a_get. cbn [mbind async_mbind]. apply hspec_get.
  destruct (view_of r s); cbn [a_lift mbind async_mbind]; by apply hspec_done.
Qed.

Lemma hspec_scrollback sid s r v info :
  store_ok True sid s -> stream (IdString sid) s = Some r -> view_of r s = Ok v -> miniblockInfo v = Some info ->
  mbi_terminusReached info = false ->
  hspec (keeps_store True sid) (honest True) (Z.to_nat (mbi_min info - prevSnapshotMiniblockNum v) + 3) (_scrollback sid) s
    (scrolled r (prevSnapshotMiniblockNum v) (mbi_min info)).
Proof.
  intros Hs Hr Hv Hi Ht. unfold _scrollback, a_get. cbn [mbind async_mbind]. apply hspec_get. rewrite Hr.
  cbn [a_some mret async_mret mbind async_mbind]. rewrite Hv. cbn [a_lift mbind async_mbind]. rewrite Hi.
  cbn [a_some mret async_mret mbind async_mbind]. rewrite Ht. unfold check, throwWithCode.
  destruct (Z.leb_spec (prevSnapshotMiniblockNum v) (mbi_min info)) as [Hle|]; cbn [a_lift mbind async_mbind]; [|by apply hspec_done].
  replace (Z.to_nat (mbi_min info - prevSnapshotMiniblockNum v) + 3)%nat
    with (Z.to_nat (mbi_min info - prevSnapshotMiniblockNum v) + 2 + 1)%nat by lia.
  apply hspec_bind. eapply hspec_mono; [by apply hspec_of_spec, (spec_getMiniblocks True (IdString sid))|done|].
  intros [[mbs term]|e] s1 h Hf; [|by apply hspec_done]. destruct Hf as (mid & completed & Hmid & Hnum & Hc & _ & Hterm).
  rewrite (Hc Logic.I), seqZ_glue in Hnum by lia.
  unfold a_await. cbn [mbind async_mbind fst snd]. apply hspec_await. intros [[]|e] s2 _ _; cbn [mbind async_mbind]; [|by apply hspec_done].
  apply hspec_get. destruct (min_of r s2) as [min'|e] eqn:Hmin; cbn [a_lift mbind async_mbind]; [|by apply hspec_done].
  destruct (Z.eqb_spec (default (-1) min') (mbi_min info)) as [Heq|Hne].
  - unfold a_do. cbn [mbind async_mbind]. apply hspec_get, hspec_put.
    destruct (on_stream r _ s2) as [[[]|e] s3] eqn:Hp; cbn [fst snd mbind async_mbind]; [|by apply hspec_done].
    apply hspec_first_of; [done|]. intros first. eexists _, s2, min'. split_and!; [by rewrite last_snoc|done|].
    rewrite decide_True by done. exists mbs. split_and!; [done|done|]. cbn [terminus]. rewrite fmap_app.
    destruct Hterm as [[_ ->]|(idb & blocks & Hin)]; [by left|right]. exists idb, mid, blocks. apply elem_of_app. by left.
  - apply hspec_first_of; [done|]. intros first. eexists _, s2, min'. split_and!; [by rewrite last_snoc|done|].
    by rewrite decide_False.
Qed.

Lemma settled_result n p o s r :
  got (run p o s) = Ended r ->
  run (settle_scrollback n p) o s
    = mkEnd (Ended r) (set_scrollbackPromises (<[n := Some r]> (scrollbackPromises (state (run p o s)))) (state (run p o s)))
        (trace (run p o s)) (left (run p o s))
  /\ history (settle_scrollback n p) o s = history p o s.
Proof.
  intros Hr. unfold settle_scrollback. rewrite run_try, history_try, run_bind, history_bind. unfold later.
  rewrite run_bind. unfold continue, after. rewrite Hr. destruct r as [v|e]; cbn; by rewrite ?app_nil_r.
Qed.

(** What follows the fetching only writes: the calls and the states they are answered in
    are those of [_scrollback]. *)
Lemma scrollback_run sid o s res :
  jm_get sid (getScrollbackRequests s) = None ->
  let n := fresh (dom (scrollbackPromises s)) in
  let s1 := set_getScrollbackRequests (jm_set sid n (getScrollbackRequests s))
        (set_scrollbackPromises (<[n := None]> (scrollbackPromises s)) s) in
  got (run (_scrollback sid) o s1) = Ended res ->
  got (run (scrollback sid) o s) = Ended res
  /\ objs (state (run (scrollback sid) o s)) = objs (state (run (_scrollback sid) o s1))
  /\ getScrollbackRequests (state (run (scrollback sid) o s))
     = jm_delete sid (getScrollbackRequests (state (run (_scrollback sid) o s1)))
  /\ history (scrollback sid) o s = history (_scrollback sid) o s1.
Proof.
  cbv zeta. intros Hreq. set (n := fresh (dom (scrollbackPromises s))). set (s1 := set_getScrollbackRequests _ _). intros Hgot.
  destruct (settled_result n _ o s1 _ Hgot) as [Hrun Hhist].
  unfold scrollback, a_get. cbn [mbind async_mbind run history]. rewrite Hreq. unfold a_modify. cbn [mbind async_mbind run history]. fold n s1.
  unfold a_finally. rewrite run_try, history_try, run_bind, history_bind. unfold later. rewrite run_bind, Hrun, Hhist.
  destruct res; unfold continue, after; cbn; by rewrite ?app_nil_r.
Qed.

(** C29: scrolling back keeps the history without gaps, provided the node answers with
    exactly the miniblocks it is asked for and the local store can be read without errors
    and holds miniblocks under their own numbers. The call always completes. When it
    returns, for a view that started at miniblock [min], one of two things was done in the
    state in which its last call was answered. If the view still started at [min] there,
    exactly the miniblocks from the previous snapshot up to [min], in order, were put in
    front of it, and nothing else was changed; whether the beginning is reached is what the
    node said, or whether the previous snapshot is miniblock zero. If the view had another
    start, because the stream was reset while the miniblocks were fetched, all stream
    objects are left as they were. The request is forgotten again in every case. *)
Theorem scrollback_gapless sid o s r v info :
  store_ok True sid s -> stream (IdString sid) s = Some r -> view_of r s = Ok v -> miniblockInfo v = Some info ->
  mbi_terminusReached info = false -> jm_get sid (getScrollbackRequests s) = None ->
  within (keeps_store True sid) (honest True) o ->
  (Z.to_nat (mbi_min info - prevSnapshotMiniblockNum v) + 3 <= length o)%nat ->
  let e := run (scrollback sid) o s in
  exists res s', got e = Ended res /\ objs (state e) = objs s'
    /\ scrolled r (prevSnapshotMiniblockNum v) (mbi_min info) res s' (history (scrollback sid) o s)
    /\ getScrollbackRequests (state e) = jm_delete sid (getScrollbackRequests s').
Proof.
  cbv zeta. intros Hs Hr Hv Hi Ht Hreq Hw Hn. set (n := fresh (dom (scrollbackPromises s))).
  set (s1 := set_getScrollbackRequests (jm_set sid n (getScrollbackRequests s))
        (set_scrollbackPromises (<[n := None]> (scrollbackPromises s)) s)).
  destruct (hspec_scrollback sid s1 r v info Hs Hr Hv Hi Ht o Hw Hn) as (res & Hgot & Hres & _).
  destruct (scrollback_run sid o s res Hreq Hgot) as (Hg & Ho & Hq & Hh).
  exists res, (state (run (_scrollback sid) o s1)). by rewrite Hh.
Qed.

(** ** Failed requests *)

(** The others leave the request for [sid] alone, and a settled promise stays settled. *)
Definition keeps_request (sid : string) (s s' : ClientState.t) : Prop :=
  (forall p, jm_get sid (getStreamRequests s) = Some p -> jm_get sid (getStreamRequests s') = Some p)
  /\ (forall p r, viewPromises s !! p = Some (Some r) -> viewPromises s' !! p = Some (Some r)).

Lemma keeps_request_refl sid s : keeps_request sid s s.
Proof. by split. Qed.

Lemma spec_getStream sid s P :
  spec (keeps_request sid) P 1 (_getStream sid) s (fun r s' tr => keeps_request sid s s').
Proof.
  unfold _getStream, a_get. cbn [mbind async_mbind]. apply spec_get.
  destruct (streamIdAsBytes _) as [idb|e]; cbn [a_lift mbind async_mbind]; [|apply spec_done, keeps_request_refl].
  unfold a_await. cbn [mbind async_mbind]. apply spec_await. intros [a|e] s1 HR _; cbn [mbind async_mbind]; [|by apply spec_done].
  destruct (unpackStream a) as [u|e]; cbn [mbind async_mbind]; by apply spec_done.
Qed.

Lemma settled_view_result n p o s r :
  got (run p o s) = Ended r ->
  run (settle_view n p) o s
  = mkEnd (Ended r) (set_viewPromises (<[n := Some r]> (viewPromises (state (run p o s)))) (state (run p o s)))
      (trace (run p o s)) (left (run p o s)).
Proof.
  intros Hr. unfold settle_view. rewrite run_try, run_bind. unfold continue at 2. rewrite Hr.
  destruct r as [v|e]; unfold a_modify, continue, after; cbn; by rewrite ?app_nil_r.
Qed.

(** A failed [getStream] is never repeated: the request that failed stays in the map
    of requests under way, and every later call for this stream returns its error
    without asking the node. *)
Theorem failed_request_kept sid o s err :
  jm_get sid (getStreamRequests s) = None -> within (keeps_request sid) any_answer o -> (1 <= length o)%nat ->
  let e := run (getStream sid) o s in
  got e = Ended (Throw err) ->
  exists p, forall m o', (forall s, keeps_request sid s (world m s)) ->
    let e' := run (getStream sid) (m :: o') (state e) in
    got e' = Ended (Throw err) /\ trace e' = [mkEvent (ViewSettled p) (answer m (ViewSettled p))].
Proof.
  cbv zeta. intros Hreq Hw Hn Hgot. set (p := fresh (dom (viewPromises s))).
  set (s1 := set_getStreamRequests (jm_set sid p (getStreamRequests s)) (set_viewPromises (<[p := None]> (viewPromises s)) s)).
  destruct (spec_run _ _ _ _ _ _ _ (spec_getStream sid s1 any_answer) Hw Hn) as (r & Hr & Hk & _).
  assert (Hrun : run (getStream sid) o s = continue (run (settle_view p (_getStream sid)) o s1) (fun r => match r return ClientM StreamStateView.t with
      | Ok v => a_modify (fun s => set_getStreamRequests (jm_delete sid (getStreamRequests s)) s);; mret v
      | Throw e => Done (Throw e) end)).
  { unfold getStream, a_get. cbn [mbind async_mbind run]. rewrite Hreq. unfold a_modify. cbn [mbind async_mbind run].
    fold p s1. apply (run_bind (settle_view p (_getStream sid))). }
  rewrite (settled_view_result _ _ _ _ _ Hr) in Hrun. set (s0 := state (run (_getStream sid) o s1)) in *.
  set (s2 := set_viewPromises (<[p := Some r]> (viewPromises s0)) s0) in *. rewrite Hrun in Hgot |- *.
  destruct r as [v|e]; [done|]. assert (e = err) as -> by (cbn in Hgot; congruence). cbn [continue got state after run].
  assert (Hreq2 : jm_get sid (getStreamRequests s2) = Some p).
  { apply (Hk p). apply jm_get_set_eq. }
  exists p. intros m o' Hm. destruct (Hm s2) as [_ Hp].
  unfold getStream, a_get. cbn [mbind async_mbind run]. rewrite Hreq2. unfold await_view, a_get. cbn [mbind async_mbind run].
  rewrite (Hp p (Throw err)); [done|]. apply lookup_insert_eq.
Qed.

(** ** Streams that fail to load *)

(** The others leave the stream object under [id] alone. *)
Definition keeps_stream (id : id_arg) (s s' : ClientState.t) : Prop :=
  forall r o, stream id s = Some r -> objs s !! r = Some o -> stream id s' = Some r /\ objs s' !! r = Some o.

Lemma run_create id s o obj :
  stream id s = None -> SyncedStream.new (userId s) (streamIdAsString id) (persistenceStore s) = Ok obj ->
  let r := fresh (dom (objs s)) in
  let s1 := set_streams (jm_set (streamIdAsString id) r (streams s))
              (set_objs (<[r := mkObj (SyncedStream.view obj) false false]> (objs s)) s) in
  run (createSyncedStream id) o s = mkEnd (Ended (Ok r)) s1 [] o
  /\ stream id s1 = Some r /\ objs s1 !! r = Some (mkObj (SyncedStream.view obj) false false).
Proof.
  cbv zeta. intros Hn Hnew. unfold createSyncedStream, a_get. cbn [mbind async_mbind run]. unfold a_must, check. rewrite Hn.
  cbn [is_defined negb a_lift mbind async_mbind run]. rewrite Hnew. cbn [mbind async_mbind run a_modify].
  split_and!; [done|apply jm_get_set_eq|apply lookup_insert_eq].
Qed.

Lemma new_not_initialized user sid st obj : SyncedStream.new user sid st = Ok obj -> isInitialized (SyncedStream.view obj) = false.
Proof.
  unfold SyncedStream.new. intros (v & Hv & [= <-])%result_bind_Ok. cbn. unfold StreamStateView.new in Hv.
  by case_match; simplify_eq.
Qed.

(** A stream whose stored state cannot be read is lost for the session: [initStream]
    reports the error but leaves the new, empty stream among the streams of the client, and
    every later [initStream] waits for it to be initialized, which nothing does. *)
Theorem unreadable_stream_blocks id allow s m o err obj :
  stream id s = None -> SyncedStream.new (userId s) (streamIdAsString id) (persistenceStore s) = Ok obj ->
  answer m StoreAccess = Throw err -> (forall s, keeps_stream id s (world m s)) ->
  let e := run (initStream id allow) (m :: o) s in
  got e = Ended (Throw err)
  /\ (forall s' allow', keeps_stream id (state e) s' ->
       run (initStream id allow') [] s' = mkEnd (Waits (WaitForStreamInitialized id)) s' [] []).
Proof.
  cbv zeta. intros Hn Hnew Ha Hw. destruct (run_create id s (m :: o) obj Hn Hnew) as (Hrun & Hs1 & Ho1). cbv zeta in Hrun, Hs1, Ho1.
  set (r := fresh (dom (objs s))) in *. set (s1 := set_streams _ _) in *. pose proof (new_not_initialized _ _ _ _ Hnew) as Hni.
  assert (Hall : run (initStream id allow) (m :: o) s = mkEnd (Ended (Throw err)) (world m s1) [mkEvent StoreAccess (Throw err)] o).
  { unfold initStream, a_get. cbn [mbind async_mbind run]. rewrite Hn, run_bind, Hrun. unfold continue. cbn [got state trace left].
    rewrite run_bind. unfold initFromPersistence, a_await. cbn [mbind async_mbind run]. by rewrite Ha. }
  rewrite Hall. cbn [got state]. split; [done|]. destruct (Hw s1 _ _ Hs1 Ho1) as [Hs2 Ho2].
  intros s' allow' Hk. destruct (Hk _ _ Hs2 Ho2) as [Hs3 Ho3].
  unfold initStream, waitForStream, view_of, a_get. cbn [mbind async_mbind run]. rewrite Hs3, Ho3.
  cbn [a_lift mbind async_mbind run o_view]. rewrite Hni. cbn [mbind async_mbind run].
  rewrite Hs3, Ho3. cbn [o_view]. by rewrite Hni.
Qed.

(** [initStream] hides errors of the node: when the stream is not stored and the node
    fails, the stream is stopped and taken out of the client again, but the caller gets it
    as if it had been initialized. *)
Theorem node_error_hidden id s m1 m2 o err obj idb s2 ob :
  stream id s = None -> SyncedStream.new (userId s) (streamIdAsString id) (persistenceStore s) = Ok obj ->
  streamIdAsBytes id = Ok idb -> answer m1 StoreAccess = Ok tt ->
  let r := fresh (dom (objs s)) in
  (forall s, on_stream r SyncedStream.initializeFromPersistence (world m1 s) = (Ok false, s2)) ->
  answer m2 (RpcGetStream idb false) = Throw err ->
  stream id (world m2 s2) = Some r -> objs (world m2 s2) !! r = Some ob -> NoDup (jm_keys (streams (world m2 s2))) ->
  let e := run (initStream id true) (m1 :: m2 :: o) s in
  got e = Ended (Ok r) /\ stream id (state e) = None
  /\ objs (state e) !! r = Some (mkObj (o_view ob) true (o_isUpToDate ob)).
Proof.
  cbv zeta. intros Hn Hnew Hid Ha1 Hp Ha2 Hs3 Ho3 Hnd.
  destruct (run_create id s (m1 :: m2 :: o) obj Hn Hnew) as (Hrun & _ & _). cbv zeta in Hrun.
  set (r := fresh (dom (objs s))) in *. set (s1 := set_streams _ _) in *. set (s3 := world m2 s2) in *.
  set (s4 := set_streams (jm_delete (streamIdAsString id) (streams s3)) (on_stream r (js_modify SyncedStream.stop) s3).2).
  assert (Hdel : run (deleteStream id) o s3 = mkEnd (Ended (Ok tt)) s4 [] o).
  { unfold deleteStream, a_get. cbn [mbind async_mbind run]. rewrite Hs3. unfold a_do, a_modify. cbn [mbind async_mbind run].
    unfold s4, on_stream. by rewrite Ho3. }
  assert (Hall : run (initStream id true) (m1 :: m2 :: o) s
    = mkEnd (Ended (Ok r)) s4 [mkEvent StoreAccess (Ok tt); mkEvent (RpcGetStream idb false) (Throw err)] o).
  { unfold initStream, a_get. cbn [mbind async_mbind run]. rewrite Hn, run_bind, Hrun. unfold continue at 1. cbn [got state trace left].
    rewrite run_bind. unfold initFromPersistence, a_await, a_do. cbn [mbind async_mbind run]. rewrite Ha1. cbn [mbind async_mbind run].
    rewrite Hp. unfold continue at 1. cbn [fst snd got state trace left after run].
    cbn [negb]. rewrite run_bind, run_try. unfold initFromNode, a_await. rewrite Hid. cbn [a_lift mbind async_mbind run]. rewrite Ha2.
    cbn [mbind async_mbind run]. unfold continue at 2. cbn [got state trace left after run]. fold s3. rewrite Hdel. done. }
  rewrite Hall. cbn [got state]. split_and!; [done| |].
  - unfold s4, stream. cbn. rewrite jm_get_delete by done. by rewrite decide_True.
  - unfold s4, on_stream. rewrite Ho3. cbn. apply lookup_insert_eq.
Qed.

(** ** Streams created by the client *)

(** The others do not take the id out of [creatingStreamIds]; only a failed creation of
    the same stream would. *)
Definition keeps_creating (sid : string) (s s' : ClientState.t) : Prop :=
  sid ∈ creatingStreamIds s -> sid ∈ creatingStreamIds s'.

Lemma on_stream_creating {A} r (m : SM SyncedStream.t A) s : creatingStreamIds (on_stream r m s).2 = creatingStreamIds s.
Proof. unfold on_stream. by destruct (objs s !! r). Qed.

Lemma spec_creating_addToSync sid r s (Q : result unit -> ClientState.t -> list (event ans) -> Prop) :
  sid ∈ creatingStreamIds s -> (forall a s' tr, sid ∈ creatingStreamIds s' -> Q a s' tr) ->
  spec (keeps_creating sid) any_answer 1 (addToSync r) s Q.
Proof.
  intros Hs HQ. unfold addToSync, a_get. cbn [mbind async_mbind]. apply spec_get.
  destruct (view_of r s) as [v|e]; cbn [a_lift mbind async_mbind]; [|by apply spec_done, HQ].
  destruct (syncCookie v); [|by apply spec_done, HQ]. apply spec_await. intros a s' HR _. apply spec_done, HQ. by apply HR.
Qed.

Lemma spec_creating_create sid id n s (Q : result nat -> ClientState.t -> list (event ans) -> Prop) :
  sid ∈ creatingStreamIds s -> (forall a s' tr, sid ∈ creatingStreamIds s' -> Q a s' tr) ->
  spec (keeps_creating sid) any_answer n (createSyncedStream id) s Q.
Proof.
  intros Hs HQ. unfold createSyncedStream, a_get, a_must. cbn [mbind async_mbind]. apply spec_get.
  destruct (check _ _ _) as [[]|e]; cbn [a_lift mbind async_mbind]; [|by apply spec_done, HQ].
  destruct (SyncedStream.new _ _ _) as [obj|e]; cbn [mbind async_mbind]; [|by apply spec_done, HQ].
  unfold a_modify. cbn [mbind async_mbind]. by apply spec_get, spec_put, spec_done, HQ.
Qed.

Lemma spec_created streamId evs s :
  let sid := streamIdAsString (IdBytes streamId) in
  spec (keeps_creating sid) any_answer 3 (createStreamAndSync streamId evs) s
    (fun r s' _ => match r with Ok sid' => sid' = sid /\ sid ∈ creatingStreamIds s' | Throw _ => True end).
Proof.
  cbv zeta. set (sid := streamIdAsString (IdBytes streamId)). unfold createStreamAndSync. fold sid.
  rewrite <- (Nat.add_0_r 3). apply spec_try. eapply (spec_mono _ _ 3 3 _ _
    (fun r s' _ => match r with Ok sid' => sid' = sid /\ sid ∈ creatingStreamIds s' | Throw _ => True end)); [|done|].
  2:{ intros [sid'|e] s' tr Hr; [by apply spec_done|]. unfold a_modify. cbn [mbind async_mbind]. by apply spec_get, spec_put, spec_done. }
  unfold a_modify, a_await. cbn [mbind async_mbind]. apply spec_get, spec_put, spec_await.
  set (s1 := set_creatingStreamIds _ s). assert (Hs1 : sid ∈ creatingStreamIds s1) by (cbn; set_solver).
  intros [resp|e] s2 HR _; cbn [mbind async_mbind]; [|by apply spec_done]. apply HR in Hs1.
  change 2%nat with (0 + (1 + (1 + 0)))%nat. apply spec_bind, spec_creating_create; [done|].
  intros [r|e] s3 tr3 Hs3; [|by apply spec_done]. apply spec_bind.
  eapply (spec_mono _ _ 1 1 _ _ (fun _ s' _ => sid ∈ creatingStreamIds s')); [|done|].
  { destruct resp; [by apply spec_done|]. apply spec_await. intros a s4 HR4 _. apply spec_done. by apply HR4. }
  intros [resp'|e] s4 tr4 Hs4; [|by apply spec_done].
  destruct (unpackStream resp') as [u|e]; cbn [a_lift mbind async_mbind]; [|by apply spec_done].
  unfold a_do. cbn [mbind async_mbind]. apply spec_get, spec_put.
  destruct (on_stream r _ s4) as [[[]|e] s5] eqn:Hos; cbn [fst snd mbind async_mbind]; [|by apply spec_done].
  assert (Hs5 : sid ∈ creatingStreamIds s5).
  { by rewrite <- (on_stream_creating r (SyncedStream.initializeFromResponse u) s4), Hos in Hs4. }
  apply spec_bind, spec_creating_addToSync; [done|]. intros [[]|e] s6 tr6 Hs6; by apply spec_done.
Qed.

(** A stream this client created is not loaded again after it was left: creating it
    marks its id for good, and [onJoinedStream] ignores marked ids. *)
Theorem created_stream_not_rejoined streamId evs o s :
  let sid := streamIdAsString (IdBytes streamId) in
  within (keeps_creating sid) any_answer o -> (3 <= length o)%nat ->
  let e := run (createStreamAndSync streamId evs) o s in
  got e = Ended (Ok sid) ->
  forall s' o', keeps_creating sid (state e) s' -> run (onJoinedStream sid) o' s' = mkEnd (Ended (Ok tt)) s' [] o'.
Proof.
  cbv zeta. set (sid := streamIdAsString (IdBytes streamId)). intros Hw Hn Hgot s' o' Hk.
  destruct (spec_run _ _ _ _ _ _ _ (spec_created streamId evs s) Hw Hn) as (r & Hr & HQ).
  rewrite Hgot in Hr. injection Hr as <-. destruct HQ as [_ Hin]. apply Hk in Hin.
  unfold onJoinedStream, a_get. cbn [mbind async_mbind run]. by rewrite bool_decide_true.
Qed.
End Fetching.

(** ** Concrete runs *)

(** Every event is the header of miniblock 3; the table of miniblocks keeps their numbers. *)
Definition fetch_header : MiniblockHeader := mkMiniblockHeader 3 [] None [] None 0 0 true.
#[local] Instance fetch_Crypto : Crypto := {|
  assertBytes := @assertBytes toy_Crypto;
  keccak256_updates := @keccak256_updates toy_Crypto;
  signSync := @signSync toy_Crypto;
  verify := @verify toy_Crypto;
  recoverPublicKey := @recoverPublicKey toy_Crypto;
  hashPersonalMessage := @hashPersonalMessage toy_Crypto;
  fromRpcSig := @fromRpcSig toy_Crypto;
  ecrecover := @ecrecover toy_Crypto;
  StreamEvent_toBinary := fun _ => Ok [x03];
  StreamEvent_fromBinary := fun _ => Ok (mkStreamEvent demo_address [] [] None 0 0 (Some (Payload_miniblockHeader fetch_header)));
|}.

#[local] Instance fetch_Database : Database := {|
  table K V := K -> option V;
  table_put K V dec k v t := fun k' => if decide (k' = k) then Some v else t k';
  table_get K V dec k t := t k;
  PersistedMiniblock_toBinary m := Ok [byte_of_Z (default 0 (mh_miniblockNum <$> psm_header m))];
  PersistedMiniblock_fromBinary b :=
    match b with
    | [n] => Ok (toy_persisted_block (Z_of_byte n) x00)
    | _ => Throw (JsError "not supported")
    end;
  PersistedSyncedStream_toBinary _ := Throw (JsError "not supported");
  PersistedSyncedStream_fromBinary _ := Throw (JsError "not supported");
|}.

#[local] Instance fetch_JsonStrings : JsonStrings := {|
  ChannelMessage_toJsonString := fun _ => "{}";
  ChannelProperties_toJsonString := fun _ => "{}";
  FullyReadMarkers_toJsonString := fun _ => "{}";
  SessionKeys_toJsonString := fun _ => "{}";
|}.

Definition fetch_miniblock : Miniblock :=
  match riverHash [x03] with
  | Ok hash => mkMiniblock [] (Some (mkEnvelope hash (demo_creatorPub ++ [x00]) [x03]))
  | Throw _ => mkMiniblock [] None
  end.

(** Miniblocks 4 and 5 are stored. *)
Definition fetch_store : store := mkStore (fun _ => None) (fun _ => None)
  (fun k => if decide (k = miniblock_key "20" 4) then Some [x04] else if decide (k = miniblock_key "20" 5) then Some [x05] else None).

Definition fetch_view : StreamStateView.t :=
  StreamStateView.mk "20" "u" (C_channel (Channel.new "20")) ∅ 0%nat [] ∅ true None None 0 4
    (Some (mkMiniblockInfo 6 6 false)) None (Members.new "20").
Definition fetch_client : ClientState.t :=
  ClientState.mk "u" (mkSignerContext "alice" [] None None) None None None None None [("20", 0%nat)] {[0%nat := mkObj fetch_view false true]}
    fetch_store [] [] ∅ [] ∅ ∅ [].

Definition fetch_answer (store node : bool) (c : call) : result (ans c) :=
  match c with
  | StoreAccess => if store then Ok tt else Throw (JsError "aborted")
  | RpcGetMiniblocks _ from to =>
      if node && (from =? 3) && (to =? 4) then Ok ([fetch_miniblock], false) else Throw (JsError "not available")
  | _ => Throw (JsError "not available")
  end.
Definition fetch_moment (store node : bool) : moment ClientState.t ans := mkMoment (fetch_answer store node) (fun s => s).

Lemma fetch_keyed : keyed "20" fetch_store.
Proof.
  intros n mb. unfold getMiniblock. cbn [table_get fetch_Database miniblocks fetch_store].
  case_decide as H4; [|case_decide as H5]; [| |done]; intros [= <-]; [apply key_inj in H4|apply key_inj in H5]; by subst.
Qed.

Lemma fetch_ok clean : store_ok clean "20" fetch_client.
Proof.
  split; [exact fetch_keyed|]. intros _ n. unfold getMiniblock. cbn [table_get fetch_Database miniblocks fetch_store persistenceStore fetch_client].
  case_decide; [|case_decide]; eexists; reflexivity.
Qed.

Lemma fetch_honest (clean : Prop) store node o sid : (clean -> store = true) ->
  (forall m, m ∈ o -> m = fetch_moment store node \/ m = fetch_moment true node) ->
  within (keeps_store clean sid) (honest clean) o.
Proof.
  intros Hc Ho. apply Forall_forall. intros m Hm. split; [|].
  { intros s Hx. destruct (Ho m Hm) as [->| ->]; exact Hx. }
  assert (Hh : forall b, (clean -> b = true) -> forall c, honest clean (mkEvent c (fetch_answer b node c))).
  { intros b Hb c. destruct c; try done.
    - intros Hcl. cbn. by rewrite (Hb Hcl).
    - intros blocks term mbs. cbn [fetch_answer ans]. destruct node; [|done]. cbn [andb].
      destruct (Z.eqb_spec fromInclusive 3) as [->|]; [|done]. destruct (Z.eqb_spec toExclusive 4) as [->|]; [|done].
      cbn [andb]. intros [= <- <-] Hu. vm_compute in Hu. by injection Hu as <-. }
  intros c. destruct (Ho m Hm) as [->| ->]; by apply Hh.
Qed.

Lemma miniblocks_in_order_witness :
  let o := replicate 4 (fetch_moment true false) in
  let e := run (ClientStreams.getMiniblocks (IdString "20") 4 6) o fetch_client in
  exists r, got e = Ended r
    /\ forall mbs term, r = Ok (mbs, term) -> map block_num mbs = seqZ 4 (6 - 4)
       /\ ((term = (4 =? 0)) \/ exists idb mid blocks, mkEvent (RpcGetMiniblocks idb 4 mid) (Ok (blocks, term)) ∈ trace e).
Proof.
  refine (miniblocks_in_order (IdString "20") 4 6 (replicate 4 (fetch_moment true false)) fetch_client _ (fetch_ok True) _ _).
  - lia.
  - apply (fetch_honest True true false); [done|]. intros m [-> _]%elem_of_replicate. by left.
  - rewrite length_replicate. lia.
Defined.

Definition fetch_failing : list (moment ClientState.t ans) :=
  [fetch_moment true true; fetch_moment true true; fetch_moment false true; fetch_moment true true; fetch_moment true true].

Lemma failed_read_reverses_witness :
  exists mbs term, got (run (ClientStreams.getMiniblocks (IdString "20") 3 6) fetch_failing fetch_client) = Ended (Ok (mbs, term))
    /\ map block_num mbs = [3; 5; 4]
    /\ exists mid, 3 <= mid <= 6 /\ map block_num mbs = seqZ 3 (mid - 3) ++ rev (seqZ mid (6 - mid)).
Proof.
  do 2 eexists. split; [vm_compute; reflexivity|]. split; [vm_compute; reflexivity|].
  refine (failed_read_reverses (IdString "20") 3 6 fetch_failing fetch_client _ _ _ (fetch_ok False) _ _ _ _).
  - lia.
  - apply (fetch_honest False false true); [done|]. intros m Hm. unfold fetch_failing in Hm. set_solver.
  - cbn. lia.
  - vm_compute. reflexivity.
  - exists (JsError "aborted"). vm_compute. right. right. left.
Defined.

Lemma scrollback_gapless_witness :
  let o := replicate 5 (fetch_moment true false) in
  let e := run (ClientStreams.scrollback "20") o fetch_client in
  exists res s', got e = Ended res /\ objs (state e) = objs s'
    /\ scrolled 0 4 6 res s' (history (ClientStreams.scrollback "20") o fetch_client)
    /\ getScrollbackRequests (state e) = jm_delete "20" (getScrollbackRequests s').
Proof.
  refine (scrollback_gapless "20" (replicate 5 (fetch_moment true false)) fetch_client 0%nat fetch_view (mkMiniblockInfo 6 6 false)
    (fetch_ok True) _ _ _ _ _ _ _).
  - vm_compute. reflexivity.
  - vm_compute. reflexivity.
  - reflexivity.
  - reflexivity.
  - reflexivity.
  - apply (fetch_honest True true false); [done|]. intros m [-> _]%elem_of_replicate. by left.
  - rewrite length_replicate. cbn. lia.
Defined.

Lemma failed_request_kept_witness :
  let e := run (getStream "30") [fetch_moment true true] fetch_client in
  exists p, forall m o', (forall s, keeps_request "30" s (world m s)) ->
    let e' := run (getStream "30") (m :: o') (state e) in
    got e' = Ended (Throw (JsError "not available")) /\ trace e' = [mkEvent (ViewSettled p) (answer m (ViewSettled p))].
Proof.
  refine (failed_request_kept "30" [fetch_moment true true] fetch_client (JsError "not available") _ _ _ _).
  - reflexivity.
  - constructor; [|constructor]. split; [|done]. intros s. apply keeps_request_refl.
  - cbn. lia.
  - vm_compute. reflexivity.
Defined.

Definition new_stream (sid : string) : SyncedStream.t :=
  match SyncedStream.new "u" sid fetch_store with
  | Ok s => s
  | Throw _ => SyncedStream.mkT fetch_view false false fetch_store
  end.

Lemma unreadable_stream_blocks_witness :
  let e := run (initStream (IdString "2030") true) [fetch_moment false true] fetch_client in
  got e = Ended (Throw (JsError "aborted"))
  /\ (forall s' allow', keeps_stream (IdString "2030") (state e) s' ->
       run (initStream (IdString "2030") allow') [] s' = mkEnd (Waits (WaitForStreamInitialized (IdString "2030"))) s' [] []).
Proof.
  refine (unreadable_stream_blocks (IdString "2030") true fetch_client (fetch_moment false true) [] (JsError "aborted") (new_stream "2030") _ _ _ _).
  - reflexivity.
  - vm_compute. reflexivity.
  - reflexivity.
  - intros s r o Hr Ho. by split.
Defined.

(** The client after the stream was created; nothing of it is stored. *)
Definition created_client : ClientState.t := state (run (createSyncedStream (IdString "2030")) [] fetch_client).

Lemma node_error_hidden_witness :
  let m1 := mkMoment (fetch_answer true true) (fun _ => created_client) in
  let e := run (initStream (IdString "2030") true) [m1; fetch_moment true true] fetch_client in
  got e = Ended (Ok 1%nat) /\ stream (IdString "2030") (state e) = None
  /\ objs (state e) !! 1%nat = Some (mkObj (SyncedStream.view (new_stream "2030")) true false).
Proof.
  refine (node_error_hidden (IdString "2030") fetch_client (mkMoment (fetch_answer true true) (fun _ => created_client)) (fetch_moment true true) []
    (JsError "not available") (new_stream "2030") [x20; x30]
    (on_stream 1 SyncedStream.initializeFromPersistence created_client).2 (mkObj (SyncedStream.view (new_stream "2030")) false false)
    _ _ _ _ _ _ _ _ _).
  - reflexivity.
  - vm_compute. reflexivity.
  - vm_compute. reflexivity.
  - reflexivity.
  - intros s. vm_compute. reflexivity.
  - reflexivity.
  - vm_compute. reflexivity.
  - vm_compute. reflexivity.
  - vm_compute. repeat constructor; set_solver.
Defined.
