(* ===== verification/ClientProperties.v ===== *)
(** * Properties of the operations of the client (core/sdk/src/client.ts)

    Blocking users, acknowledging the inbox, sharing keys, names and decrypted texts. *)

From S2P Require Import Prelude Proto Externals ToyExternals Binary StreamId Types Usernames UserMetadata Members Content Space User UserInbox UserSettings UserDeviceKeys.
From S2P Require Import Sign Payloads Persistence StreamStateView StreamView SyncedStream Restore DecryptionExtensions RpcClient Envelopes Async ClientState ClientSend ClientStreams ClientOps Sending.

Section ClientProperties.
Context `{Externals, Database, Crypto, JsonStrings}.

(** ** Events without a local copy *)

(** [signerContext] is never assigned. *)
Definition keeps_context (s s' : ClientState.t) : Prop := signerContext s' = signerContext s.

(** How adding an event ends that is not shown before. *)
Definition adding_ends (context : SignerContext) (payload : StreamEvent_payload) (retries : nat) (prev : bytes)
    (r : result string) (tr : list (event ans)) : Prop :=
  chained context payload prev (adds tr) /\ (length (adds tr) <= S retries)%nat
  /\ match r with
     | Ok eventId => exists env, last (adds tr) = Some (env, Ok tt) /\ eventId = event_id env
     | Throw _ => Forall (fun a => exists err, a.2 = Throw err) (adds tr)
     end.

Lemma adding_fails_early context payload retries prev e tr :
  adds tr = [] -> adding_ends context payload retries prev (Throw e) tr.
Proof. intros Ht. unfold adding_ends. rewrite Ht. split_and!; [done|cbn; lia|constructor]. Qed.

Lemma adding_ends_again context payload retries prev env err hash prev' r tr tr0 :
  adds tr0 = [(env, Throw err)] ->
  (exists salt now, makeEvent salt now context (Some payload) (Some prev) = Ok env) ->
  errorContains err Err_BAD_PREV_MINIBLOCK_HASH = true -> getRpcErrorProperty err "expected" = Some hash ->
  bin_fromHexString hash = Ok prev' ->
  adding_ends context payload retries prev' r tr -> adding_ends context payload (S retries) prev r (tr0 ++ tr).
Proof.
  intros Ht0 Hm He Hx Hp (Hc & Hl & Hr). unfold adding_ends. rewrite adds_app, Ht0.
  set (l := adds tr) in *. cbn [app]. split_and!.
  - split; [done|]. destruct l as [|a l]; [done|]. exists err, hash, prev'. done.
  - cbn. lia.
  - destruct r as [eid|e]; [|constructor; [by eauto|done]].
    destruct Hr as (env' & Hlast & ?). exists env'. split; [|done]. destruct l; [done|exact Hlast].
Qed.

Lemma spec_adding streamId idb payload retries prev s :
  streamIdAsBytes streamId = Ok idb ->
  spec keeps_context any_answer (2 * S retries)
    (makeEventWithHashAndAddToStream retries streamId payload prev None None) s
    (fun r s' tr => adding_ends (signerContext s) payload retries prev (added_id r) tr).
Proof.
  intros Hid. revert s prev. induction retries as [|retries IH]; intros s prev; cbn [makeEventWithHashAndAddToStream].
  2: replace (2 * S (S retries))%nat with (S (S (2 * S retries))) by lia.
  all: unfold makeEventOf, a_get, a_await; cbn [mbind async_mbind]; apply spec_get, spec_await.
  all: intros [[salt now]|e] s1 HR1 _; cbn [mbind async_mbind a_lift fst snd]; [|by apply spec_done, adding_fails_early].
  all: destruct (makeEvent _ _ _ _ _) as [env|e] eqn:Hm; cbn [mbind async_mbind]; [|by apply spec_done, adding_fails_early].
  all: cbn [showSending truthy_str cacheCleartext mret async_mret mbind async_mbind a_lift].
  all: rewrite Hid; cbn [mbind async_mbind a_try]; apply spec_await.
  all: intros [[]|err] s2 HR2 _; cbn [mbind async_mbind a_try showStatus truthy_str mret async_mret a_throw is_defined].
  1,3: apply spec_done; split_and!; [split; [by eauto|done]|cbn; lia|by exists env].
  all: assert (Hend : forall e n tr, adds tr = [(env, Throw err)] -> adding_ends (signerContext s) payload n prev (added_id (Throw e)) tr)
    by (intros e n tr Ht; unfold adding_ends; rewrite Ht; split_and!; [split; [by eauto|done]|cbn; lia|repeat constructor; by eauto]).
  - destruct (errorContains err _); by apply spec_done, Hend.
  - destruct (errorContains err _) eqn:Hbad; [|by apply spec_done, Hend].
    destruct (getRpcErrorProperty err "expected") as [x|] eqn:Hx; cbn [a_some mret async_mret mbind async_mbind a_lift]; [|by apply spec_done, Hend].
    destruct (bin_fromHexString x) as [prev'|e] eqn:Hp; cbn [mbind async_mbind]; [|by apply spec_done, Hend].
    eapply spec_mono; [apply IH|lia|]. intros r s3 tr HQ. replace (signerContext s2) with (signerContext s) in HQ by congruence.
    by apply (adding_ends_again _ _ _ _ env err x prev' _ tr
      [mkEvent Entropy (Ok (salt, now)); mkEvent (RpcAddEvent idb env) (Throw err)]); eauto.
Qed.

(** [makeEventAndAddToStream] without a local copy: over the hash the view has. *)
Lemma spec_addingToStream streamId idb payload s :
  streamIdAsBytes streamId = Ok idb ->
  spec keeps_context any_answer 8 (makeEventAndAddToStream streamId payload None None) s
    (fun r s' tr => (exists e, r = Throw e /\ tr = [])
       \/ exists n view prev, stream streamId s = Some n /\ view_of n s = Ok view /\ prevMiniblockHash view = Some prev
            /\ adding_ends (signerContext s) payload 3 prev r tr).
Proof.
  intros Hid. unfold makeEventAndAddToStream, a_get. apply spec_get. cbn [mbind async_mbind].
  destruct (ClientState.userStreamId s); cbn [a_assert mret async_mret mbind async_mbind a_throw]; [|apply spec_done; left; eauto].
  destruct (stream streamId s) as [n|] eqn:Hn; cbn [a_assert mret async_mret mbind async_mbind a_throw]; [|apply spec_done; left; eauto].
  destruct (view_of n s) as [v|e] eqn:Hv; cbn [a_lift mbind async_mbind]; [|apply spec_done; left; eauto].
  destruct (prevMiniblockHash v) as [prev|] eqn:Hp; cbn [a_assert mret async_mret mbind async_mbind a_throw]; [|apply spec_done; left; eauto].
  change 8%nat with (2 * 4 + 0)%nat. apply spec_bind. eapply spec_mono; [by eapply spec_adding|done|].
  intros r0 s' tr Hends. destruct r0 as [added|e]; apply spec_done; rewrite app_nil_r; right; exists n, v, prev; by split_and!.
Qed.

(** ** Blocking users *)

Lemma nextBlockNum_spec lastBlock b num0 num :
  nextBlockNum lastBlock b num0 = Ok num <->
  (forall blk, lastBlock = Some blk -> blk_isBlocked blk = negb b)
  /\ num = match lastBlock with Some blk => Z.max num0 (blk_eventNum blk + 1) | None => num0 end.
Proof.
  unfold nextBlockNum, mret, result_mret. destruct lastBlock as [[bb n]|]; cbn [blk_isBlocked blk_eventNum].
  - assert (Hmax : (if num0 <=? n then n + 1 else num0) = Z.max num0 (n + 1)) by (destruct (Z.leb_spec num0 n); lia).
    rewrite Hmax. destruct (Bool.eqb_spec bb b) as [->|Hne].
    + split; [done|]. intros [Hx _]. specialize (Hx _ eq_refl). cbn in Hx. by destruct b.
    + split; [|by intros [_ ->]]. intros [= <-]. split; [|done]. intros blk [= <-]. cbn. by destruct bb, b.
  - split; [intros [= <-]; by split|by intros [_ ->]].
Qed.

(** Blocking and unblocking a user alternate, with growing event numbers: an event is
    sent only when it changes what the last one said, and its number lies above the last
    one and at or above the last event of the conversation; else nothing is sent. *)
Theorem block_events_advance user b s o settings idb dm lastBlock num0 :
  userSettingsStreamId s = Some settings -> streamIdAsBytes (IdString settings) = Ok idb ->
  makeDMStreamId (ClientState.userId s) user = Ok dm -> lastBlockOf settings user s = Ok lastBlock -> lastEventNumOf dm s = Ok num0 ->
  within keeps_context any_answer o -> (8 <= length o)%nat ->
  let e := run (updateUserBlock user b) o s in
  exists r, got e = Ended r
    /\ (trace e = [] /\ (exists err, r = Throw err)
        \/ exists address num prev, (forall blk, lastBlock = Some blk -> blk_isBlocked blk = negb b /\ blk_eventNum blk < num)
             /\ num0 <= num
             /\ adding_ends (signerContext s) (make_UserSettingsPayload_UserBlock (mkUserBlock address b num)) 3 prev r (trace e)).
Proof.
  cbv zeta. intros Hset Hid Hdm Hlast Hnum Hw Hn.
  cut (spec keeps_context any_answer 8 (updateUserBlock user b) s (fun r s' tr =>
    tr = [] /\ (exists err, r = Throw err)
        \/ exists address num prev, (forall blk, lastBlock = Some blk -> blk_isBlocked blk = negb b /\ blk_eventNum blk < num)
             /\ num0 <= num
             /\ adding_ends (signerContext s) (make_UserSettingsPayload_UserBlock (mkUserBlock address b num)) 3 prev r tr)).
  { intros Hsp. destruct (Hsp o Hw Hn) as (r & Hr & HQ & _). by exists r. }
  unfold updateUserBlock, a_get. apply spec_get. cbn [mbind async_mbind]. rewrite Hset.
  cbn [a_assert mret async_mret mbind async_mbind a_lift]. rewrite Hdm. cbn [mbind async_mbind]. rewrite Hlast. cbn [mbind async_mbind].
  rewrite Hnum. cbn [mbind async_mbind].
  destruct (nextBlockNum lastBlock b num0) as [num|e] eqn:Hnext; cbn [mbind async_mbind]; [|apply spec_done; left; eauto].
  destruct (addressFromUserId user) as [address|e]; cbn [mbind async_mbind]; [|apply spec_done; left; eauto].
  eapply spec_mono; [by eapply spec_addingToStream|done|]. apply nextBlockNum_spec in Hnext as [Hflip Hnum'].
  intros r s' tr [(e & -> & ->)|(n & v & prev & _ & _ & _ & Hends)]; [left; eauto|]. right. exists address, num, prev.
  split_and!; [| |done].
  - intros blk ->. split; [by apply Hflip|lia].
  - destruct lastBlock; lia.
Qed.

(** ** Names *)

(** What is shown for the user of this client in a stream. *)
Definition shown_name (r : nat) (s : ClientState.t) : option string :=
  match objs s !! r with
  | Some o => plaintextUsernames (UserMetadata.usernames (getUserMetadata (o_view o))) !! ClientState.userId s
  | None => None
  end.

(** The user id is never assigned, and stream objects stay in memory. *)
Definition keeps_objects (s s' : ClientState.t) : Prop :=
  ClientState.userId s' = ClientState.userId s /\ forall r, is_Some (objs s !! r) -> is_Some (objs s' !! r).

#[local] Instance keeps_objects_preorder : PreOrder keeps_objects.
Proof. split; [by split|]. intros s1 s2 s3 [H12 O12] [H23 O23]. split; [congruence|auto]. Qed.

Lemma adding_only_reads streamId payload retries prev :
  only_reads (makeEventWithHashAndAddToStream retries streamId payload prev None None).
Proof.
  revert prev. induction retries as [|retries IH]; intros prev; cbn [makeEventWithHashAndAddToStream].
  all: apply only_reads_bind; [intros s r; by destruct r|]; intros env.
  all: cbn [showSending truthy_str cacheCleartext mret async_mret mbind async_mbind].
  all: apply only_reads_try.
  all: try (destruct (streamIdAsBytes streamId); [|done]; by intros [[]|]).
  all: intros err; destruct (errorContains err _); try done.
  destruct (getRpcErrorProperty err "expected") as [x|]; [|done]. cbn [a_some mret async_mret mbind async_mbind a_lift].
  destruct (bin_fromHexString x); [apply IH|done].
Qed.

Lemma addingToStream_only_reads streamId payload : only_reads (makeEventAndAddToStream streamId payload None None).
Proof.
  unfold makeEventAndAddToStream, a_get. intros s. cbn [mbind async_mbind].
  destruct (ClientState.userStreamId s); [|done]. cbn [a_assert mret async_mret mbind async_mbind].
  destruct (stream streamId s) as [n|]; [|done]. cbn [a_assert mret async_mret mbind async_mbind].
  destruct (view_of n s) as [v|]; [|done]. cbn [a_lift mbind async_mbind].
  destruct (prevMiniblockHash v); [|done]. cbn [a_assert mret async_mret mbind async_mbind].
  apply only_reads_bind; [apply adding_only_reads|done].
Qed.

Lemma reset_name r s : is_Some (objs s !! r) ->
  (on_usernames r (Usernames.resetLocalUsername (ClientState.userId s) false) s).1 = Ok tt
  /\ shown_name r (on_usernames r (Usernames.resetLocalUsername (ClientState.userId s) false) s).2 = None.
Proof.
  intros [o Ho]. unfold on_usernames, on_view, on_stream. rewrite Ho. split; [done|]. unfold shown_name. cbn.
  rewrite lookup_insert_eq. cbn. apply lookup_delete_eq.
Qed.

(** A failed change of the username takes away the name the user had: the name shown
    is overwritten before the event is sent, and when sending fails it is deleted instead
    of being put back. *)
Theorem failed_rename_loses_name sid name s m o err data r k :
  stream (IdString sid) s = Some r -> is_Some (objs s !! r) -> cryptoBackend s = Some k ->
  answer m (EncryptGroupEvent sid name) = Ok data ->
  within keeps_objects any_answer (m :: o) ->
  let e := run (setUsername sid name) (m :: o) s in
  got e = Ended (Throw err) -> shown_name r (state e) = None.
Proof.
  cbv zeta. intros Hr Ho Hk Ha Hw. inversion Hw as [|? ? [Hm _] Hw']; subst.
  unfold setUsername, a_get. cbn [mbind async_mbind run]. rewrite Hk. cbn [is_defined check a_lift mbind async_mbind run].
  rewrite Hr. cbn [a_some mret async_mret mbind async_mbind run]. unfold a_do. cbn [mbind async_mbind run].
  set (s1 := (on_usernames r (Usernames.setLocalUsername (ClientState.userId s) name false) s).2).
  assert (Hs1 : (on_usernames r (Usernames.setLocalUsername (ClientState.userId s) name false) s).1 = Ok tt /\ keeps_objects s s1).
  { destruct Ho as [ob Ho]. unfold s1, on_usernames, on_view, on_stream. rewrite Ho. split; [done|]. split; [done|].
    intros r' Hr'. cbn. by apply lookup_insert_is_Some; destruct (decide (r = r')); [left|right]. }
  destruct Hs1 as [-> Hk1]. cbn [mbind async_mbind a_await run]. rewrite Ha. cbn [mbind async_mbind].
  rewrite run_try, run_bind. cbn [got state after].
  set (p := makeEventAndAddToStream _ _ _ _). set (s2 := world m s1). set (e := run p o s2).
  assert (Hk2 : keeps_objects s (state e)).
  { etrans; [exact Hk1|]. etrans; [apply Hm|]. apply (only_reads_state keeps_objects any_answer); [apply addingToStream_only_reads|done]. }
  unfold continue. destruct (got e) as [[a|er]|c]; cbn [after got state run mret async_mret]; [done| |done].
  cbn [mbind async_mbind run]. destruct Hk2 as [Hu Hobj]. rewrite <- Hu.
  destruct (reset_name r (state e) (Hobj _ Ho)) as [Hres Hname]. rewrite Hres. cbn. done.
Qed.

(** ** Sharing keys *)

(** The device and the signer of the client stay the same. *)
Definition keeps_device (device : UserDevice) (context : SignerContext) (s s' : ClientState.t) : Prop :=
  cryptoBackend s = Some device /\ signerContext s = context -> cryptoBackend s' = Some device /\ signerContext s' = context.

(** The calls with which an event of the payload is added to the stream [idb], over the
    hash [prev] at first: the event is made and sent; when the node refuses it for its hash
    and names another, it is made again over that one, [retries] times at most; and
    nothing else is called. *)
Inductive sent_to (context : SignerContext) (idb : bytes) (payload : StreamEvent_payload) :
    nat -> bytes -> list (event ans) -> Prop :=
| sent_no_entropy n prev e : sent_to context idb payload n prev [mkEvent Entropy (Throw e)]
| sent_not_made n prev salt now e :
    makeEvent salt now context (Some payload) (Some prev) = Throw e ->
    sent_to context idb payload n prev [mkEvent Entropy (Ok (salt, now))]
| sent_taken n prev salt now env :
    makeEvent salt now context (Some payload) (Some prev) = Ok env ->
    sent_to context idb payload n prev [mkEvent Entropy (Ok (salt, now)); mkEvent (RpcAddEvent idb env) (Ok tt)]
| sent_refused n prev salt now env err :
    makeEvent salt now context (Some payload) (Some prev) = Ok env ->
    n = 0%nat \/ errorContains err Err_BAD_PREV_MINIBLOCK_HASH = false
    \/ (forall hash prev', getRpcErrorProperty err "expected" = Some hash -> bin_fromHexString hash <> Ok prev') ->
    sent_to context idb payload n prev [mkEvent Entropy (Ok (salt, now)); mkEvent (RpcAddEvent idb env) (Throw err)]
| sent_again n prev salt now env err hash prev' tr :
    makeEvent salt now context (Some payload) (Some prev) = Ok env ->
    errorContains err Err_BAD_PREV_MINIBLOCK_HASH = true -> getRpcErrorProperty err "expected" = Some hash ->
    bin_fromHexString hash = Ok prev' -> sent_to context idb payload n prev' tr ->
    sent_to context idb payload (S n) prev (mkEvent Entropy (Ok (salt, now)) :: mkEvent (RpcAddEvent idb env) (Throw err) :: tr).

Lemma spec_sent_to streamId idb payload retries prev device context s :
  streamIdAsBytes streamId = Ok idb -> cryptoBackend s = Some device /\ signerContext s = context ->
  spec (keeps_device device context) any_answer (2 * S retries)
    (makeEventWithHashAndAddToStream retries streamId payload prev None None) s
    (fun r s' tr => (cryptoBackend s' = Some device /\ signerContext s' = context) /\ sent_to context idb payload retries prev tr).
Proof.
  intros Hid. revert s prev. induction retries as [|retries IH]; intros s prev Hs; cbn [makeEventWithHashAndAddToStream].
  2: replace (2 * S (S retries))%nat with (S (S (2 * S retries))) by lia.
  all: unfold makeEventOf, a_get, a_await; cbn [mbind async_mbind]; apply spec_get, spec_await.
  all: intros [[salt now]|e] s1 HR1 _; pose proof (HR1 Hs) as Hs1; cbn [mbind async_mbind a_lift fst snd];
    [|apply spec_done; split; [done|constructor]].
  all: destruct Hs as [_ Hctx]; rewrite Hctx.
  all: destruct (makeEvent _ _ _ _ _) as [env|e] eqn:Hm; cbn [mbind async_mbind];
    [|apply spec_done; split; [done|by econstructor]].
  all: cbn [showSending truthy_str cacheCleartext mret async_mret mbind async_mbind a_lift].
  all: rewrite Hid; cbn [mbind async_mbind a_try]; apply spec_await.
  all: intros [[]|err] s2 HR2 _; pose proof (HR2 Hs1) as Hs2;
    cbn [mbind async_mbind a_try showStatus truthy_str mret async_mret a_throw is_defined];
    [apply spec_done; split; [done|by constructor]|].
  { destruct (errorContains err _); apply spec_done; (split; [done|constructor; auto]). }
  destruct (errorContains err _) eqn:Hbad; [|apply spec_done; split; [done|constructor; auto]].
  destruct (getRpcErrorProperty err "expected") as [x|] eqn:Hx; cbn [a_some mret async_mret mbind async_mbind a_lift].
  2:{ apply spec_done. split; [done|]. apply sent_refused; [done|]. right. right. intros h p' Hh. congruence. }
  destruct (bin_fromHexString x) as [prev'|e] eqn:Hp; cbn [mbind async_mbind].
  2:{ apply spec_done. split; [done|]. apply sent_refused; [done|]. right. right. intros h p' Hh. simplify_eq. by rewrite Hp. }
  eapply spec_mono; [by apply IH|lia|]. intros r s3 tr [Hs3 Ht]. split; [done|]. by eapply sent_again.
Qed.

(** The calls with which the keys [payload] of the sessions are shared with the user [d.1]
    and their devices [d.2]: the keys are encrypted for these devices except the own one;
    unless that failed or there was nobody to encrypt for, an event with exactly the texts
    it gave is sent to the inbox of the user, over the hash its node names. *)
Definition served (context : SignerContext) (device : UserDevice) (streamId : bytes) (payload : string)
    (sessionIds : list string) (d : string * list UserDevice) (tr : list (event ans)) : Prop :=
  exists a rest,
    tr = mkEvent (EncryptWithDeviceKeys payload (filter (fun key => ud_deviceKey key <> ud_deviceKey device) d.2)) a :: rest /\
  match a return Prop with
  | Throw _ => rest = []
  | Ok ciphertext =>
      if decide (ciphertext = ∅) then rest = []
      else
        match (inbox ← makeUserInboxStreamId (IdString d.1) d.1; streamIdAsBytes (IdString inbox)) with
        | Throw _ => rest = []
        | Ok idb =>
            exists b rest', rest = mkEvent (RpcGetLastMiniblockHash idb) b :: rest' /\
            match b return Prop with
            | Throw _ => rest' = []
            | Ok hash =>
                sent_to context idb (make_UserInboxPayload_GroupEncryptionSessions
                  (mkGroupEncryptionSessions streamId (ud_deviceKey device) sessionIds ciphertext)) 3 hash rest'
            end
        end
  end.

Lemma spec_shareWithUser context device streamId payload sessionIds d s :
  cryptoBackend s = Some device /\ signerContext s = context ->
  spec (keeps_device device context) any_answer 10 (shareWithUser streamId payload sessionIds device d.1 d.2) s
    (fun r s' tr => r = Ok tt /\ (cryptoBackend s' = Some device /\ signerContext s' = context)
       /\ served context device streamId payload sessionIds d tr).
Proof.
  intros Hs. unfold shareWithUser. change 10%nat with (10 + 0)%nat. apply spec_try.
  eapply (spec_mono _ _ 10 10 _ _ (fun r s' tr => (cryptoBackend s' = Some device /\ signerContext s' = context)
       /\ served context device streamId payload sessionIds d tr)); [|done|].
  2:{ intros [[]|e] s' tr [[? ?] Ht]; apply spec_done; rewrite app_nil_r; by split_and!. }
  unfold encryptWithDeviceKeys, userDeviceKey, a_get. cbn [mbind async_mbind]. apply spec_get. rewrite (proj1 Hs).
  cbn [a_some mret async_mret mbind async_mbind]. apply spec_get. rewrite (proj1 Hs). cbn [a_assert mret async_mret mbind async_mbind].
  unfold a_await. cbn [mbind async_mbind]. apply spec_await. intros a s1 HR1 _. pose proof (HR1 Hs) as Hs1.
  set (keys := filter _ d.2).
  destruct a as [ciphertext|e]; cbn [mbind async_mbind]; [cbn in ciphertext|apply spec_done; split; [done|]; by eexists _, []].
  destruct (decide (ciphertext = ∅)) as [Hne|Hne]; [apply spec_done; split; [done|]; eexists _, []; split; [done|]; cbn beta iota; by rewrite decide_True|].
  destruct (makeUserInboxStreamId _ _) as [inbox|e] eqn:Hin; cbn [a_lift mbind async_mbind].
  2:{ apply spec_done; split; [done|]; eexists _, []; split; [done|]. cbn beta iota. by rewrite decide_False, Hin by done. }
  destruct (streamIdAsBytes (IdString inbox)) as [idb|e] eqn:Hid; cbn [mbind async_mbind].
  2:{ apply spec_done; split; [done|]; eexists _, []; split; [done|]. cbn beta iota. rewrite decide_False, Hin by done. cbn [mbind result_mbind]. by rewrite Hid. }
  apply spec_await. intros b s2 HR2 _. pose proof (HR2 Hs1) as Hs2.
  assert (Hserved : forall s' rest',
    (cryptoBackend s' = Some device /\ signerContext s' = context)
    /\ match b return Prop with
       | Throw _ => rest' = []
       | Ok hash => sent_to context idb (make_UserInboxPayload_GroupEncryptionSessions
                  (mkGroupEncryptionSessions streamId (ud_deviceKey device) sessionIds ciphertext)) 3 hash rest'
       end ->
    (cryptoBackend s' = Some device /\ signerContext s' = context)
    /\ served context device streamId payload sessionIds d
         (mkEvent (EncryptWithDeviceKeys payload keys) (Ok ciphertext) :: mkEvent (RpcGetLastMiniblockHash idb) b :: rest')).
  { intros s' rest' [? Hr]. split; [done|]. eexists _, _. split; [done|]. cbn beta iota. rewrite decide_False by done.
    rewrite Hin. cbn [mbind result_mbind]. rewrite Hid. eexists _, _. split; [done|]. exact Hr. }
  destruct b as [hash|e]; cbn [mbind async_mbind]; [|apply spec_done; by apply (Hserved s2 [])].
  change 8%nat with (2 * 4 + 0)%nat. apply spec_bind. eapply spec_mono; [by apply (spec_sent_to _ idb)|done|].
  intros r s3 tr [Hs3 Ht]. destruct r as [added|e]; apply spec_done; rewrite app_nil_r; by apply (Hserved s3 tr).
Qed.

(** Are there sessions, and all of the stream [sid]. *)
Definition of_stream (sid : string) (sessions : list GroupEncryptionSession) : bool :=
  match sessions with
  | [] => false
  | _ => forallb (fun g => String.eqb (gs_streamId g) sid) sessions
  end.

(** The checks on the sessions refuse exactly the others. *)
Lemma session_checks sid sessions :
  (size (list_to_set (map gs_streamId sessions) : gset string) =? 1)%nat && bool_decide (gs_streamId <$> head sessions = Some sid)
  = of_stream sid sessions.
Proof.
  destruct sessions as [|g gs]; [done|]. apply eq_true_iff_eq. unfold of_stream. cbn [head fmap option_fmap option_map].
  rewrite andb_true_iff, Nat.eqb_eq, bool_decide_eq_true, forallb_forall. split.
  - intros [Hsize [= <-]] x Hx. apply String.eqb_eq. apply size_1_elem_of in Hsize as [y Hy].
    assert (Hin : forall z, z ∈ g :: gs -> gs_streamId z = y).
    { intros z Hz. apply (elem_of_singleton (C := gset string)). rewrite <- Hy, elem_of_list_to_set. by apply (list_elem_of_fmap_2 gs_streamId). }
    rewrite (Hin x), (Hin g); [done|by left|by apply list_elem_of_In].
  - intros Hall. assert (Heq : forall x, x ∈ g :: gs -> gs_streamId x = sid)
      by (intros x Hx; apply String.eqb_eq, Hall, list_elem_of_In, Hx).
    split; [|f_equal; apply Heq; by left].
    replace (list_to_set (map gs_streamId (g :: gs)) : gset string) with ({[sid]} : gset string); [apply size_singleton|].
    apply set_eq. intros x. rewrite elem_of_list_to_set, list_elem_of_fmap, elem_of_singleton. split.
    + intros ->. exists g. split; [symmetry; apply Heq; by left|by left].
    + intros (z & -> & Hz). by apply Heq.
Qed.

(** C31: sharing keys is safe and does not stop half way. Unless there are sessions and
    all are of this stream, the call is refused before anything is done. Otherwise it
    succeeds, whatever the calls it makes answer, and every receiver is served, whatever
    went wrong with the others: the keys are encrypted for exactly their devices except
    the own one; if that gives any text, the hash of their inbox is asked for; if it is
    known, an event with the session ids and exactly these texts is signed over it and
    sent to that inbox, again over the hash the node names when it refuses the first, up
    to three times; and nothing else is called. The receivers are served in turn here and
    side by side in the code, where they share nothing but the client they read. *)
Theorem key_sharing_safe id sid idb sessions toDevices device s o :
  streamIdAsString id = sid -> streamIdAsBytes id = Ok idb -> cryptoBackend s = Some device ->
  within (keeps_device device (signerContext s)) any_answer o -> (length toDevices * 10 <= length o)%nat ->
  let e := run (encryptAndShareGroupSessions id sessions toDevices) o s in
  if of_stream sid sessions
  then got e = Ended (Ok tt)
    /\ exists trs, trace e = concat trs
       /\ Forall2 (served (signerContext s) device idb (SessionKeys_toJsonString (map gs_sessionKey sessions)) (map gs_sessionId sessions))
            toDevices trs
  else exists err, e = mkEnd (Ended (Throw err)) s [] o.
Proof.
  cbv zeta. intros Hsid Hid Hdev Hw Hn. pose proof (session_checks sid sessions) as Hchecks.
  destruct (of_stream sid sessions) eqn:Hof.
  - set (T := served (signerContext s) device idb (SessionKeys_toJsonString (map gs_sessionKey sessions)) (map gs_sessionId sessions)).
    set (Q := fun (r : result unit) (s' : ClientState.t) tr => r = Ok tt /\ (cryptoBackend s' = Some device /\ signerContext s' = signerContext s)
      /\ exists trs, tr = concat trs /\ Forall2 T toDevices trs).
    cut (spec (keeps_device device (signerContext s)) any_answer (length toDevices * 10) (encryptAndShareGroupSessions id sessions toDevices) s Q).
    { intros Hsp. destruct (Hsp o Hw Hn) as (r & Hr & (-> & _ & Ht) & _). done. }
    apply andb_true_iff in Hchecks as [Hsize Hhead].
    unfold encryptAndShareGroupSessions. rewrite Hid. unfold a_get, userDeviceKey. cbn [a_lift mbind async_mbind]. apply spec_get. rewrite Hdev.
    cbn [a_some mret async_mret mbind async_mbind]. unfold a_must.
    rewrite (proj2 (Z.leb_le 0 _)) by lia. cbn [check a_lift mbind async_mbind]. rewrite Hsid, Hsize. cbn [check a_lift mbind async_mbind].
    rewrite Hhead. cbn [check a_lift mbind async_mbind]. apply spec_get. rewrite Hdev. cbn [a_assert mret async_mret mbind async_mbind].
    apply (spec_for _ _ 10 _ (fun s' => cryptoBackend s' = Some device /\ signerContext s' = signerContext s)); [|done].
    intros d s' Hd Hs'. by apply spec_shareWithUser.
  - unfold encryptAndShareGroupSessions. rewrite Hid. unfold a_get. cbn [a_lift mbind async_mbind run]. rewrite Hdev.
    cbn [a_some mret async_mret mbind async_mbind]. unfold a_must. rewrite (proj2 (Z.leb_le 0 _)) by lia. cbn [check a_lift mbind async_mbind].
    rewrite Hsid. apply andb_false_iff in Hchecks as [->|Hhead]; [by eexists|].
    destruct (_ =? 1)%nat; cbn [check a_lift mbind async_mbind run]; [|by eexists]. rewrite Hhead. by eexists.
Qed.
End ClientProperties.

(** ** Concrete runs *)

#[local] Existing Instance demo_Crypto.

Definition ops_moment (add : result unit) : moment ClientState.t ans := demo_moment add.

Lemma ops_keeps_objects o : (forall m, m ∈ o -> exists add, m = ops_moment add) -> within keeps_objects any_answer o.
Proof. intros Ho. apply Forall_forall. intros m Hm. destruct (Ho m Hm) as [add ->]. split; [|done]. intros s. by split. Qed.

Lemma failed_rename_loses_name_witness :
  let o := replicate 3 (ops_moment (Throw (JsError "refused"))) in
  let e := run (setUsername "20" "bob") o demo_client in
  got e = Ended (Throw (JsError "refused")) /\ shown_name 0 (state e) = None.
Proof.
  split; [vm_compute; reflexivity|].
  refine (failed_rename_loses_name "20" "bob" demo_client (ops_moment (Throw (JsError "refused")))
    (replicate 2 (ops_moment (Throw (JsError "refused")))) (JsError "refused") demo_data 0%nat demo_device _ _ _ _ _ _).
  - vm_compute. reflexivity.
  - eexists. vm_compute. reflexivity.
  - reflexivity.
  - reflexivity.
  - apply ops_keeps_objects. intros m Hm. exists (Throw (JsError "refused")). cbn in Hm. set_solver.
  - vm_compute. reflexivity.
Defined.

Definition demo_session : GroupEncryptionSession := mkGroupEncryptionSession "20" "session" "key" "alg".
Definition demo_devices : jsmap (list UserDevice) :=
  [("bob", [demo_device; mkUserDevice "other" "fallback2"]); ("carol", [mkUserDevice "third" "fallback3"])].

Lemma key_sharing_safe_witness :
  let e := run (encryptAndShareGroupSessions (IdString "20") [demo_session] demo_devices) (replicate 20 (ops_moment (Ok tt))) demo_client in
  got e = Ended (Ok tt)
  /\ exists trs, trace e = concat trs /\ Forall2 (served demo_context demo_device [x20] "key" ["session"]) demo_devices trs.
Proof.
  refine (key_sharing_safe (IdString "20") "20" [x20] [demo_session] demo_devices demo_device demo_client
    (replicate 20 (ops_moment (Ok tt))) _ _ _ _ _).
  - reflexivity.
  - vm_compute. reflexivity.
  - reflexivity.
  - apply Forall_replicate. split; [|done]. intros s Hs. exact Hs.
  - rewrite length_replicate. cbn. lia.
Defined.

(** Keys of another stream among those to share. *)
Example mixed_keys_refused :
  trace (run (encryptAndShareGroupSessions (IdString "20") [demo_session; mkGroupEncryptionSession "21" "session2" "key2" "alg"] demo_devices)
    (replicate 20 (ops_moment (Ok tt))) demo_client) = [].
Proof. vm_compute. reflexivity. Qed.

(** A client whose settings say that user [0x0101...] was blocked by event 4. *)
Definition blocked_user : string := "0x0101010101010101010101010101010101010101".
Definition settings_obj : sobj :=
  mkObj (StreamStateView.mk "a5" "u" (C_userSettings (post (userBlockUpdate (mkUserBlock (replicate 20 x01) true 4) true (UserSettings.new "a5"))))
    ∅ 0%nat [] ∅ true None (Some demo_hash) 0 0 None None (Members.new "a5")) false true.
Definition settings_client : ClientState.t :=
  ClientState.mk "u" demo_context (Some "a8") (Some "a5") None None (Some demo_device) [("a5", 0%nat)] {[0%nat := settings_obj]}
    empty_store [] [] ∅ [] ∅ ∅ [].
Definition blocked_dm : string :=
  match makeDMStreamId "u" blocked_user with Ok id => id | Throw _ => "" end.

Lemma block_events_advance_witness :
  let e := run (updateUserBlock blocked_user false) (replicate 8 (ops_moment (Ok tt))) settings_client in
  exists r, got e = Ended r
    /\ (trace e = [] /\ (exists err, r = Throw err)
        \/ exists address num prev, (forall blk, Some (mkBlock true 4) = Some blk -> blk_isBlocked blk = negb false /\ blk_eventNum blk < num)
             /\ 0 <= num
             /\ adding_ends demo_context (make_UserSettingsPayload_UserBlock (mkUserBlock address false num)) 3 prev r (trace e)).
Proof.
  refine (block_events_advance blocked_user false settings_client (replicate 8 (ops_moment (Ok tt))) "a5" [xa5] blocked_dm (Some (mkBlock true 4)) 0
    _ _ _ _ _ _ _).
  - reflexivity.
  - vm_compute. reflexivity.
  - vm_compute. reflexivity.
  - vm_compute. reflexivity.
  - vm_compute. reflexivity.
  - apply Forall_replicate. split; [|done]. intros s. reflexivity.
  - rewrite length_replicate. lia.
Defined.

(** The event that is sent unblocks with number 5. *)
Example demo_unblocked :
  got (run (updateUserBlock blocked_user false) (replicate 8 (ops_moment (Ok tt))) settings_client) <> Waits Turn
  /\ nextBlockNum (Some (mkBlock true 4)) false 0 = Ok 5
  /\ length (adds (trace (run (updateUserBlock blocked_user false) (replicate 8 (ops_moment (Ok tt))) settings_client))) = 1%nat.
Proof. split; [vm_compute; discriminate|]. split; vm_compute; reflexivity. Qed.
