(* ===== verification/ClientDecryption.v ===== *)
(** * The client as the delegate of the decryption (core/sdk/src/clientDecryptionExtensions.ts)

    [ClientDecryptionExtensions] connects the queues of [DecryptionExtensions] with the
    client: events of the client go into the queues, and what a tick asks for is answered
    from the streams of the client or done by its methods. *)

From S2P Require Import Prelude Proto Externals ToyExternals Binary StreamId Types Solicitations Members Channel UserInbox Sign Payloads Persistence.
From S2P Require Import StreamStateView SyncedStream Restore DecryptionExtensions Async ClientState ClientSend ClientStreams ClientOps Sending.

Section ClientDecryption.
Context `{Externals, Database, Crypto, JsonStrings}.

(** ** Construction and events *)

(** The streams that are up to date when the object is made. *)
Definition upToDateStreamsOf (client : ClientState.t) : gset string :=
  list_to_set (omap (fun kr : string * nat =>
    match objs client !! kr.2 with
    | Some o => if o_isUpToDate o then Some (StreamStateView.streamId (o_view o)) else None
    | None => None
    end) (streams client)).

Definition new (client : ClientState.t) (userId : string) (userDevice : UserDevice) : DecryptionExtensions.t :=
  DecryptionExtensions.new (ud_deviceKey userDevice) userId (userInboxStreamId client) (upToDateStreamsOf client).

(** [getRespondDelayMSForKeySolicitation]; [random n] is [n * Math.random()] in whole
    milliseconds. *)
Definition getRespondDelayMSForKeySolicitation (random : Z -> Z) (self : DecryptionExtensions.t) (client : ClientState.t)
    (streamId userId : string) : result Z :=
  match stream (IdString streamId) client with
  | None => throwWithCode (Some "stream not found") None
  | Some r =>
      view ← view_of r client;
      let numMembers := Z.of_nat (size (Members.participants (getMembers view))) in
      let maxWaitTimeSeconds := Z.max 5 (Z.min 30 numMembers) in
      let waitTime := random (maxWaitTimeSeconds * 1000) in
      Ok (if String.eqb userId (DecryptionExtensions.userId self) then waitTime / 2 else waitTime)
  end.

Definition kind_name (k : content_kind) : string :=
  match k with
  | Kind_text => "text"
  | Kind_channelMessage => "channelMessage"
  | Kind_channelProperties => "channelProperties"
  end.

(** What the listeners of the constructor do with an event of the client. *)
Definition onClientEvent (random : Z -> Z) (now : Z) (client : ClientState.t) (e : StreamEvents) : DM unit :=
  match e with
  | streamUpToDate streamId => setStreamUpToDate streamId
  | newGroupSessions sessions _ => enqueueNewGroupSessions sessions
  | newEncryptedContent streamId eventId content =>
      enqueueNewEncryptedContent streamId eventId (kind_name (ec_kind content)) (ec_content content)
  | newKeySolicitation streamId fromUserId fromUserAddress keySolicitation
  | updatedKeySolicitation streamId fromUserId fromUserAddress keySolicitation =>
      self ← js_get;
      enqueueKeySolicitation now (getRespondDelayMSForKeySolicitation random self client streamId fromUserId)
        streamId fromUserId fromUserAddress keySolicitation
  | streamNewUserJoined streamId userId =>
      self ← js_get;
      if String.eqb userId (DecryptionExtensions.userId self) then retryDecryptionFailures now streamId else js_return
  | _ => js_return
  end.

(** After [_onStopFn] the listeners are gone. *)
Definition onEvent (random : Z -> Z) (now : Z) (client : ClientState.t) (e : StreamEvents) : DM unit :=
  self ← js_get;
  if onStopFn self then onClientEvent random now client e else js_return.

(** ** What is read from the streams of the client *)

Definition hasStream (client : ClientState.t) (streamId : string) : bool :=
  is_defined (stream (IdString streamId) client).

Definition getKeySolicitations (client : ClientState.t) (userId streamId : string) : list KeySolicitationContent :=
  match stream (IdString streamId) client with
  | None => []
  | Some r =>
      match view_of r client with
      | Throw _ => []
      | Ok view =>
          match jm_get userId (Members.joined (getMembers view)) with
          | Some member => Solicitations.solicitations member
          | None => []
          end
      end
  end.

Definition hasUnprocessedSession (client : ClientState.t) (deviceKey : string) (item : EncryptedContentItem) : result bool :=
  match userInboxStreamId client with
  | None => throwWithCode (Some "userInboxStreamId not found") None
  | Some inbox =>
      match stream (IdString inbox) client with
      | None => throwWithCode (Some "inboxStream not found") None
      | Some r =>
          view ← view_of r client;
          content ← StreamStateView.userInboxContent view;
          Ok (UserInbox.hasPendingSessionId content deviceKey (ed_sessionId (ci_encryptedData item)))
      end
  end.

(** ** What is done by the client *)

Definition isUserEntitledToKeyExchange (streamId userId : string) (skipOnChainValidation : bool) : ClientM bool :=
  self ← a_get;
  r ← a_some (stream (IdString streamId) self) "stream not found";
  view ← a_lift (view_of r self);
  if negb (userIsEntitledToKeyExchange view userId) then mret false
  else if bool_decide (contentKind (content view) = Types.channelContent) && negb skipOnChainValidation then
    channel ← a_lift (StreamStateView.channelContent view);
    a_await (IsEntitled (Channel.spaceId channel) streamId userId "Read")
  else mret true.

Definition onDecryptionError (item : EncryptedContentItem) (err : DecryptionSessionError) : ClientM unit :=
  self ← a_get;
  match stream (IdString (ci_streamId item)) self with
  | None => mret tt
  | Some r =>
      a_do (on_view r (StreamStateView.updateDecryptedContentError (ci_eventId item)
        (mkDecryptionSessionError (dse_missingSession err) (dse_kind err) (ci_encryptedData item) (dse_error err)) true))
  end.

Definition ackNewGroupSession : ClientM unit := ackInboxStream.

(** [chunk(xs, size)] of lodash. *)
Fixpoint chunk_loop {A} (fuel size : nat) (xs : list A) : list (list A) :=
  match fuel, xs with
  | S fuel, _ :: _ => take size xs :: chunk_loop fuel size (drop size xs)
  | _, _ => []
  end.
Definition chunk {A} (xs : list A) (size : nat) : list (list A) := chunk_loop (length xs) size xs.

Definition encryptAndShareGroupSessions (streamId : string) (item : KeySolicitationItem)
    (sessions : list GroupEncryptionSession) : ClientM unit :=
  a_for (chunk sessions 100) (fun c =>
    ClientOps.encryptAndShareGroupSessions (IdString streamId) c
      [(ks_fromUserId item,
        [mkUserDevice (ksc_deviceKey (ks_solicitation item)) (ksc_fallbackKey (ks_solicitation item))])]).

Definition sendKeySolicitation (userDevice : UserDevice) (streamId : string) (isNewDevice : bool)
    (missingSessionIds : list string) : ClientM unit :=
  _ ← makeEventAndAddToStream (IdString streamId)
    (make_MemberPayload_KeySolicitation (mkKeySolicitation (ud_deviceKey userDevice) (ud_fallbackKey userDevice)
       isNewDevice (if isNewDevice then [] else missingSessionIds))) None None;
  mret tt.

Definition sendKeyFulfillment (streamId : string) (userAddress : bytes) (deviceKey : string) (sessionIds : list string) :
    ClientM unit :=
  _ ← makeEventAndAddToStream (IdString streamId)
    (make_MemberPayload_KeyFulfillment (mkKeyFulfillment userAddress deviceKey sessionIds)) None None;
  mret tt.

(** ** Theorems *)

(** Keys are exchanged only with users the client has seen to be members: the answer is yes only
    for a user the stream entitles, and in a channel only when, in addition, the
    delegate found the Read permission for this user and channel on the chain, unless that check
    is skipped; such a user is never refused. At most one call is awaited. *)
Theorem key_exchange_entitled R P streamId userId skip s r view :
  stream (IdString streamId) s = Some r -> view_of r s = Ok view ->
  spec R P 1 (isUserEntitledToKeyExchange streamId userId skip) s (fun res s' tr =>
    let asks := bool_decide (contentKind (content view) = Types.channelContent) && negb skip in
    match res with
    | Ok true => userIsEntitledToKeyExchange view userId = true /\
        (asks = true -> exists spaceId, tr = [mkEvent (IsEntitled spaceId streamId userId "Read") (Ok true)])
    | Ok false => userIsEntitledToKeyExchange view userId = false \/
        (exists spaceId, tr = [mkEvent (IsEntitled spaceId streamId userId "Read") (Ok false)])
    | Throw e => asks = true /\
        (exists spaceId, tr = [mkEvent (IsEntitled spaceId streamId userId "Read") (Throw e)])
    end).
Proof.
  intros Hr Hv. unfold isUserEntitledToKeyExchange. apply spec_get. rewrite Hr. cbn -[spec].
  rewrite Hv. cbn -[spec contentKind userIsEntitledToKeyExchange].
  destruct (userIsEntitledToKeyExchange view userId) eqn:Hent; cbn [negb]; [|apply spec_done; by left].
  destruct (bool_decide (contentKind (content view) = Types.channelContent)) eqn:Hk; cbn [andb].
  - destruct skip; cbn [negb andb]; [by apply spec_done|].
    apply bool_decide_eq_true in Hk. unfold StreamStateView.channelContent.
    destruct (content view) eqn:Hc; try done. cbn -[spec].
    apply spec_await. intros [[|]|e] s' _ _; apply spec_done; eauto.
  - by apply spec_done.
Qed.

(** The delay before a request for keys is answered is at most half a minute, and half of
    that for a request of another device of the user. *)
Theorem respond_delay_bounds random self client streamId userId delay :
  (forall n, 0 < n -> 0 <= random n < n) ->
  getRespondDelayMSForKeySolicitation random self client streamId userId = Ok delay ->
  0 <= delay < if String.eqb userId (DecryptionExtensions.userId self) then 15000 else 30000.
Proof.
  intros Hr Hd. unfold getRespondDelayMSForKeySolicitation in Hd.
  destruct (stream _ client) as [r|]; [|discriminate Hd]. split_Ok Hd. injection Hd as <-.
  set (n := Z.max 5 _). pose proof (Hr (n * 1000)).
  destruct (String.eqb _ _); [|lia].
  split; [apply Z.div_pos; lia|]. apply Z.div_lt_upper_bound; lia.
Qed.

Lemma chunk_loop_spec {A} fuel size (xs : list A) :
  (0 < size)%nat -> (length xs <= fuel)%nat ->
  mjoin (chunk_loop fuel size xs) = xs /\ Forall (fun c => 0 < length c <= size)%nat (chunk_loop fuel size xs).
Proof.
  intros Hs. revert xs. induction fuel as [|fuel IH]; intros xs Hl.
  - destruct xs; [done|]. simpl in Hl. lia.
  - destruct xs as [|x xs]; [done|]. set (l := x :: xs) in *.
    change (chunk_loop (S fuel) size l) with (take size l :: chunk_loop fuel size (drop size l)).
    assert (0 < length l)%nat by (simpl; lia).
    destruct (IH (drop size l)) as [Hj Hf]; [rewrite length_drop; lia|].
    split; [simpl; rewrite Hj; apply take_drop|]. constructor; [|done]. rewrite length_take. lia.
Qed.

(** Shared keys are sent in portions of at most 100: each session is in exactly one portion, in
    order, and no portion is empty, which the client would refuse. *)
Theorem key_portions {A} (sessions : list A) :
  mjoin (chunk sessions 100) = sessions /\ Forall (fun c => 0 < length c <= 100)%nat (chunk sessions 100).
Proof. apply chunk_loop_spec; lia. Qed.
End ClientDecryption.

(** A stranger is refused without asking the chain. *)
Lemma key_exchange_entitled_witness :
  got (run (isUserEntitledToKeyExchange "20" "mallory" false) (replicate 1 (demo_moment (Ok tt))) demo_client) =
    Ended (Ok false).
Proof.
  destruct (key_exchange_entitled (fun _ _ => True) any_answer "20" "mallory" false demo_client 0%nat
    (o_view demo_obj) eq_refl eq_refl (replicate 1 (demo_moment (Ok tt)))) as (r & Hr & HQ & _).
  - apply Forall_replicate. by split.
  - rewrite length_replicate. lia.
  - rewrite Hr. vm_compute in Hr. congruence.
Defined.
