(* ===== verification/Entitlement.v ===== *)
(** * Entitlement rules (core/web3/src/entitlement.ts, data)

    A rule is a tree of checks joined by AND and OR. The contract stores it flat: an
    array of operations in post-order that point into an array of checks and an
    array of logical operations. This file holds both forms and the conversions
    between them; [EntitlementEval] holds the evaluation of a rule. The ABI coding
    of the flat form is third-party code. *)

From S2P Require Import Prelude.

(** ** Data *)

(** [OperationType], [CheckOperationType] and [LogicalOperationType]: numbers that
    are read from a contract, so other values than the named ones occur. *)
Definition OperationType_NONE : Z := 0.
Definition OperationType_CHECK : Z := 1.
Definition OperationType_LOGICAL : Z := 2.

Definition CheckOperationType_NONE : Z := 0.
Definition CheckOperationType_MOCK : Z := 1.
Definition CheckOperationType_ERC20 : Z := 2.
Definition CheckOperationType_ERC721 : Z := 3.
Definition CheckOperationType_ERC1155 : Z := 4.
Definition CheckOperationType_ISENTITLED : Z := 5.

Definition LogicalOperationType_NONE : Z := 0.
Definition LogicalOperationType_AND : Z := 1.
Definition LogicalOperationType_OR : Z := 2.

Record ContractOperation := {
  co_opType : Z;
  co_index : Z;
}.

Record ContractLogicalOperation := {
  cl_logOpType : Z;
  cl_leftOperationIndex : Z;
  cl_rightOperationIndex : Z;
}.

(** The fields a check has in both forms. *)
Record CheckOperation := {
  checkType : Z;
  chainId : Z;
  contractAddress : string;
  threshold : Z;
}.

(** [RuleDataStruct]. *)
Record RuleData := {
  operations : option (list ContractOperation);
  checkOperations : list CheckOperation;
  logicalOperations : list ContractLogicalOperation;
}.

(** A tree whose children may be undefined: they are when an index is out of range. *)
Inductive Operation :=
| Check (c : CheckOperation)
| Logical (logicalType : Z) (leftOperation rightOperation : option Operation)
| NoOperation (index : Z).

Definition NoopOperation : Operation := NoOperation 0.

Definition NoopRuleData : RuleData := {|
  operations := Some [{| co_opType := OperationType_NONE; co_index := 0 |}];
  checkOperations := []; logicalOperations := [] |}.

Definition isCheckOperation (o : Operation) : bool :=
  match o with Check _ => true | _ => false end.
Definition isLogicalOperation (o : Operation) : bool :=
  match o with Logical _ _ _ => true | _ => false end.

(** Induction on trees, with the hypothesis for the children that exist. *)
Section OperationInd.
Variable P : Operation -> Prop.
Hypothesis Hcheck : forall c, P (Check c).
Hypothesis Hlogical : forall ty l r,
  (forall o, l = Some o -> P o) -> (forall o, r = Some o -> P o) -> P (Logical ty l r).
Hypothesis Hnoop : forall i, P (NoOperation i).

Fixpoint Operation_tree_ind (o : Operation) : P o.
Proof.
  destruct o as [c|ty l r|i].
  - apply Hcheck.
  - apply Hlogical.
    + destruct l as [l'|]; intros o' [= <-]. apply Operation_tree_ind.
    + destruct r as [r'|]; intros o' [= <-]. apply Operation_tree_ind.
  - apply Hnoop.
Defined.
End OperationInd.

(** ** From the array to the tree *)

Definition missing_operations : js_error :=
  JsError "Invalid post-order array, missing operations".

(** The body of the loop; the top of the stack is the head of the list. The objects of
    the array are changed in place, here the pushed operation is the changed one. *)
Definition postOrder_step (stack : list Operation) (op : Operation) : result (list Operation) :=
  match op with
  | Logical ty _ _ =>
      match stack with
      | rightOp :: leftOp :: stack => Ok (Logical ty (Some leftOp) (Some rightOp) :: stack)
      | _ => Throw missing_operations
      end
  | _ => Ok (op :: stack)
  end.

Fixpoint postOrder_loop (stack ops : list Operation) : result (list Operation) :=
  match ops with
  | [] => Ok stack
  | op :: ops => stack ← postOrder_step stack op; postOrder_loop stack ops
  end.

Definition postOrderArrayToTree (ops : list Operation) : result Operation :=
  stack ← postOrder_loop [] ops;
  match stack with
  | root :: _ => Ok root
  | [] => Throw (JsError "Invalid post-order array")
  end.

(** ** From the flat form to the array *)

Definition undefined_field (f : string) : js_error :=
  JsError ("Cannot read properties of undefined (reading '" +:+ f +:+ "')").

(** [xs[i]]. *)
Definition at_index {A} (xs : list A) (i : Z) : option A :=
  if 0 <=? i then xs !! Z.to_nat i else None.

(** The body of the loop, [decoded] the operations pushed so far. *)
Definition decode_operation (d : RuleData) (decoded : list Operation) (o : ContractOperation) :
    result (list Operation) :=
  if co_opType o =? OperationType_CHECK then
    match at_index (checkOperations d) (co_index o) with
    | Some c => Ok (decoded ++ [Check c])
    | None => Throw (undefined_field "opType")
    end
  else if co_opType o =? OperationType_LOGICAL then
    match at_index (logicalOperations d) (co_index o) with
    | Some lo =>
        Ok (decoded ++ [Logical (cl_logOpType lo)
          (at_index decoded (cl_leftOperationIndex lo))
          (at_index decoded (cl_rightOperationIndex lo))])
    | None => Throw (undefined_field "logOpType")
    end
  else if co_opType o =? OperationType_NONE then Ok (decoded ++ [NoopOperation])
  else Throw (JsError "Unknown logical operation type").

Fixpoint decode_loop (d : RuleData) (decoded : list Operation) (os : list ContractOperation) :
    result (list Operation) :=
  match os with
  | [] => Ok decoded
  | o :: os => decoded ← decode_operation d decoded o; decode_loop d decoded os
  end.

Definition ruleDataToOperations (data : list RuleData) : result (list Operation) :=
  match data with
  | [] => Ok []
  | firstData :: _ =>
      match operations firstData with
      | None => Ok []
      | Some os => decode_loop firstData [] os
      end
  end.

(** ** From the tree to the flat form *)

(** [data.xs.push(..)] on the struct that is built. *)
Definition push_operation (o : ContractOperation) (d : RuleData) : RuleData := {|
  operations := (fun os => os ++ [o]) <$> operations d;
  checkOperations := checkOperations d; logicalOperations := logicalOperations d |}.
Definition push_check (c : CheckOperation) (d : RuleData) : RuleData := {|
  operations := operations d;
  checkOperations := checkOperations d ++ [c]; logicalOperations := logicalOperations d |}.
Definition push_logical (o : ContractLogicalOperation) (d : RuleData) : RuleData := {|
  operations := operations d;
  checkOperations := checkOperations d; logicalOperations := logicalOperations d ++ [o] |}.

Definition Zlength {A} (xs : list A) : Z := Z.of_nat (length xs).

Fixpoint postOrderTraversal (operation : Operation) (data : RuleData) : result RuleData :=
  match operation with
  | Check c =>
      let data := push_check c data in
      Ok (push_operation {| co_opType := OperationType_CHECK;
                            co_index := Zlength (checkOperations data) - 1 |} data)
  | Logical ty l r =>
      data ← match l with
             | Some l => postOrderTraversal l data
             | None => Throw (undefined_field "opType")
             end;
      data ← match r with
             | Some r => postOrderTraversal r data
             | None => Throw (undefined_field "opType")
             end;
      let data := push_logical {|
        cl_logOpType := ty;
        cl_leftOperationIndex := Zlength (logicalOperations data);
        cl_rightOperationIndex := Zlength (logicalOperations data) + 1 |} data in
      Ok (push_operation {| co_opType := OperationType_LOGICAL;
                            co_index := Zlength (logicalOperations data) - 1 |} data)
  | NoOperation _ => Ok data
  end.

Definition empty_rule : RuleData :=
  {| operations := Some []; checkOperations := []; logicalOperations := [] |}.

Definition treeToRuleData (root : Operation) : result RuleData := postOrderTraversal root empty_rule.

(** ** Rules from lists of checks *)

Record ContractCheckOperation := {
  cc_type : Z;
  cc_chainId : Z;
  cc_address : string;
  cc_threshold : option Z;
}.

Definition check_of (op : ContractCheckOperation) : CheckOperation := {|
  checkType := cc_type op; chainId := cc_chainId op; contractAddress := cc_address op;
  threshold := default 1 (cc_threshold op) |}.

(** The inner loop: neighbours are joined by AND, an odd one is passed on. *)
Fixpoint pair_up (ops : list Operation) : list Operation :=
  match ops with
  | a :: b :: ops => Logical LogicalOperationType_AND (Some a) (Some b) :: pair_up ops
  | ops => ops
  end.

(** [while (operations.length > 1)], with the rounds left. *)
Fixpoint pair_loop (rounds : nat) (ops : list Operation) : list Operation :=
  match rounds with
  | O => ops
  | S rounds => if (1 <? length ops)%nat then pair_loop rounds (pair_up ops) else ops
  end.

Definition createOperationsTree (checkOp : list ContractCheckOperation) : result RuleData :=
  match checkOp with
  | [] => Ok NoopRuleData
  | _ =>
      match pair_loop (length checkOp) (map (fun op => Check (check_of op)) checkOp) with
      | root :: _ => treeToRuleData root
      | [] => Throw (undefined_field "opType")
      end
  end.

Definition createExternalTokenStruct (addresses : list string) : result RuleData :=
  match addresses with
  | [] => Ok NoopRuleData
  | _ =>
      createOperationsTree (map (fun address => {|
        cc_type := CheckOperationType_ERC20; cc_chainId := 1; cc_address := address;
        cc_threshold := None |}) addresses)
  end.

Definition createExternalNFTStruct (addresses : list string) : result RuleData :=
  match addresses with
  | [] => Ok NoopRuleData
  | _ =>
      createOperationsTree (map (fun address => {|
        cc_type := CheckOperationType_ERC721; cc_chainId := 31337; cc_address := address;
        cc_threshold := None |}) addresses)
  end.

Definition contract_check (c : CheckOperation) : ContractCheckOperation := {|
  cc_type := checkType c; cc_chainId := chainId c; cc_address := contractAddress c;
  cc_threshold := Some (threshold c) |}.

(** The checks among operations, in the form of the contract. *)
Definition checks_of (ops : list Operation) : list ContractCheckOperation :=
  omap (fun o => match o with Check c => Some (contract_check c) | _ => None end) ops.

Definition createContractCheckOperationFromTree (entitlementData : RuleData) :
    result (list ContractCheckOperation) :=
  operations ← ruleDataToOperations [entitlementData];
  Ok (checks_of operations).

(** ** ABI coding and reading a rule from the contract *)

Section Abi.
(** [encodeAbiParameters] and [decodeAbiParameters] at the types of the contract; the
    coded data is opaque to the SDK. *)
Context {Hex : Type}.
Variable encodeAbiParameters : RuleData -> Hex.
Variable decodeAbiParameters : Hex -> result (list RuleData).

Definition encodeEntitlementData (ruleData : RuleData) : Hex := encodeAbiParameters ruleData.
Definition decodeEntitlementData (entitlementData : Hex) : result (list RuleData) :=
  decodeAbiParameters entitlementData.

(** [entitlementData] is what the contract answers to [getEntitlementDataByRoleId]. *)
Definition getOperationTree (entitlementData : result Hex) : result Operation :=
  entitlementData ← entitlementData;
  data ← decodeEntitlementData entitlementData;
  operations ← ruleDataToOperations data;
  postOrderArrayToTree operations.
End Abi.

(** ** Trees that a rule can hold *)

(** All children are defined and there is no [NoOperation]. *)
Fixpoint complete (o : Operation) : bool :=
  match o with
  | Check _ => true
  | Logical _ (Some l) (Some r) => complete l && complete r
  | _ => false
  end.

(** Its checks and its logical operations, in post-order. *)
Fixpoint tree_checks (o : Operation) : list CheckOperation :=
  match o with
  | Check c => [c]
  | Logical _ l r =>
      match l with Some l => tree_checks l | None => [] end ++
      match r with Some r => tree_checks r | None => [] end
  | NoOperation _ => []
  end.

(** How many logical operations it has. *)
Fixpoint logical_count (o : Operation) : nat :=
  match o with
  | Logical _ l r =>
      S (match l with Some l => logical_count l | None => 0 end +
         match r with Some r => logical_count r | None => 0 end)
  | _ => 0
  end.

(** Every logical operation is an AND. *)
Fixpoint all_and (o : Operation) : bool :=
  match o with
  | Logical ty l r =>
      (ty =? LogicalOperationType_AND) &&
      match l with Some l => all_and l | None => true end &&
      match r with Some r => all_and r | None => true end
  | _ => true
  end.

(** ** The flat form of a tree, in closed form *)

Section Flat.
(** The operations and the logical operations that the traversal of a tree pushes after
    [nc] checks and [nl] logical operations. *)
Fixpoint flat_logical (nl : nat) (o : Operation) : list ContractLogicalOperation :=
  match o with
  | Logical ty (Some l) (Some r) =>
      let n := (nl + logical_count l + logical_count r)%nat in
      flat_logical nl l ++ flat_logical (nl + logical_count l) r ++
      [{| cl_logOpType := ty; cl_leftOperationIndex := Z.of_nat n;
          cl_rightOperationIndex := Z.of_nat n + 1 |}]
  | _ => []
  end.

Fixpoint flat_operations (nc nl : nat) (o : Operation) : list ContractOperation :=
  match o with
  | Check _ => [{| co_opType := OperationType_CHECK; co_index := Z.of_nat nc |}]
  | Logical _ (Some l) (Some r) =>
      flat_operations nc nl l ++
      flat_operations (nc + length (tree_checks l)) (nl + logical_count l) r ++
      [{| co_opType := OperationType_LOGICAL;
          co_index := Z.of_nat (nl + logical_count l + logical_count r) |}]
  | _ => []
  end.

(** The array that the decoding loop has when it has worked on the operations of a
    tree, beginning with [prev]. *)
Fixpoint decoded (prev : list Operation) (nl : nat) (o : Operation) : list Operation :=
  match o with
  | Logical ty (Some l) (Some r) =>
      let p := decoded (decoded prev nl l) (nl + logical_count l) r in
      let n := (nl + logical_count l + logical_count r)%nat in
      p ++ [Logical ty (p !! n) (p !! S n)]
  | Check _ => prev ++ [o]
  | _ => prev
  end.
End Flat.

Lemma complete_logical ty l r :
  complete (Logical ty l r) = true ->
  exists l' r', l = Some l' /\ r = Some r' /\ complete l' = true /\ complete r' = true.
Proof. destruct l as [l'|], r as [r'|]; try done. simpl. intros [? ?]%andb_true_iff. by exists l', r'. Qed.

Lemma flat_logical_length o nl :
  complete o = true -> length (flat_logical nl o) = logical_count o.
Proof.
  revert nl. induction o as [c|ty l r IHl IHr|i] using Operation_tree_ind; intros nl H; [done| |done].
  destruct (complete_logical _ _ _ H) as (l' & r' & -> & -> & Hl & Hr). simpl.
  rewrite !length_app, IHl, IHr by done. simpl. lia.
Qed.

(** Induction on complete trees: two defined children. *)
Ltac complete_ind o H :=
  induction o as [c|ty l r IHl IHr|i] using Operation_tree_ind; intros H; [| |done];
  [|destruct (complete_logical _ _ _ H) as (l' & r' & -> & -> & Hl & Hr);
    specialize (IHl _ eq_refl Hl); specialize (IHr _ eq_refl Hr); clear H].

Lemma postOrderTraversal_flat o :
  complete o = true -> forall os cs ls,
  postOrderTraversal o {| operations := Some os; checkOperations := cs; logicalOperations := ls |} =
  Ok {| operations := Some (os ++ flat_operations (length cs) (length ls) o);
        checkOperations := cs ++ tree_checks o;
        logicalOperations := ls ++ flat_logical (length ls) o |}.
Proof.
  complete_ind o H; intros os cs ls.
  - cbn. unfold push_operation, push_check, Zlength; cbn. rewrite length_app, app_nil_r. cbn.
    repeat f_equal. lia.
  - cbn [postOrderTraversal]. rewrite IHl. res_simpl. rewrite IHr. res_simpl.
    unfold push_operation, push_logical, Zlength; cbn.
    rewrite !length_app, !flat_logical_length by done. cbn.
    rewrite <- !app_assoc. repeat f_equal; lia.
Qed.

Lemma at_index_nat {A} (xs : list A) (n : nat) : at_index xs (Z.of_nat n) = xs !! n.
Proof. unfold at_index. rewrite Nat2Z.id. by destruct (Z.leb_spec 0 (Z.of_nat n)); [|lia]. Qed.

(** [sub] lies in [xs] from position [n] on. *)
Definition has_at {A} (xs : list A) (n : nat) (sub : list A) : Prop :=
  exists pre post, xs = pre ++ sub ++ post /\ length pre = n.

Lemma has_at_app {A} (xs : list A) n (s1 s2 : list A) :
  has_at xs n (s1 ++ s2) -> has_at xs n s1 /\ has_at xs (n + length s1) s2.
Proof.
  intros (pre & post & -> & <-). split.
  - exists pre, (s2 ++ post). by rewrite <- !app_assoc.
  - exists (pre ++ s1), post. by rewrite <- !app_assoc, length_app.
Qed.

Lemma has_at_lookup {A} (xs : list A) n x : has_at xs n [x] -> xs !! n = Some x.
Proof. intros (pre & post & -> & <-). by rewrite lookup_app_r, Nat.sub_diag by lia. Qed.

Lemma decode_flat d o :
  complete o = true -> forall nc nl prev rest,
  has_at (checkOperations d) nc (tree_checks o) -> has_at (logicalOperations d) nl (flat_logical nl o) ->
  decode_loop d prev (flat_operations nc nl o ++ rest) = decode_loop d (decoded prev nl o) rest.
Proof.
  complete_ind o H; intros nc nl prev rest Hc Hlo.
  - simpl. unfold decode_operation; simpl.
    by rewrite at_index_nat, (has_at_lookup _ _ _ Hc).
  - simpl in Hc, Hlo |- *. apply has_at_app in Hc as [Hc1 Hc2].
    apply has_at_app in Hlo as [Hl1 Hl2]. rewrite flat_logical_length in Hl2 by done.
    apply has_at_app in Hl2 as [Hl2 Hl3]. rewrite flat_logical_length in Hl3 by done.
    rewrite <- !app_assoc, IHl, IHr by done. simpl. unfold decode_operation; simpl.
    rewrite at_index_nat, (has_at_lookup _ _ _ Hl3). res_simpl. simpl.
    replace (Z.of_nat _ + 1) with (Z.of_nat (S (nl + logical_count l' + logical_count r'))) by lia.
    by rewrite !at_index_nat.
Qed.

(** What decoding the flat form of a tree yields. *)
Lemma has_at_self {A} (xs : list A) : has_at xs 0 xs.
Proof. exists [], []. by rewrite app_nil_r. Qed.

Lemma decode_tree o :
  complete o = true ->
  exists d, treeToRuleData o = Ok d /\ ruleDataToOperations [d] = Ok (decoded [] 0 o).
Proof.
  intros Ho. eexists. split; [by apply postOrderTraversal_flat|].
  cbn [ruleDataToOperations operations app length].
  rewrite <- (app_nil_r (flat_operations 0 0 o)) at 2.
  by rewrite decode_flat; [|done|apply has_at_self..].
Qed.

(** The stale children of the decoded operations do not matter when the tree is
    rebuilt with the stack. *)
Lemma postOrder_decoded o :
  complete o = true -> forall prev nl, exists sfx,
  decoded prev nl o = prev ++ sfx /\
  (forall stack rest, postOrder_loop stack (sfx ++ rest) = postOrder_loop (o :: stack) rest).
Proof.
  complete_ind o H; intros prev nl; simpl; [by eexists|].
  destruct (IHl prev nl) as (s1 & -> & H1).
  destruct (IHr (prev ++ s1) (nl + logical_count l')%nat) as (s2 & -> & H2).
  eexists (s1 ++ s2 ++ [_]). split; [by rewrite <- !app_assoc|].
  intros stack rest. rewrite <- !app_assoc, H1, H2. done.
Qed.

Lemma decoded_length o :
  complete o = true -> forall prev nl,
  length (decoded prev nl o) = (length prev + 2 * logical_count o + 1)%nat.
Proof.
  complete_ind o H; intros prev nl; simpl; rewrite length_app; simpl; [lia|].
  rewrite IHr, IHl. lia.
Qed.

Lemma checks_of_app o1 o2 : checks_of (o1 ++ o2) = checks_of o1 ++ checks_of o2.
Proof. apply omap_app. Qed.

Lemma decoded_checks o :
  complete o = true -> forall prev nl,
  checks_of (decoded prev nl o) = checks_of prev ++ map contract_check (tree_checks o).
Proof.
  complete_ind o H; intros prev nl; simpl; rewrite checks_of_app; [done|].
  rewrite IHr, IHl. cbn. by rewrite app_nil_r, map_app, app_assoc.
Qed.

(** ** The loop that joins checks *)

(** The checks of some operations, in order. *)
Definition all_checks (ops : list Operation) : list CheckOperation := ops ≫= tree_checks.

(** What the loop keeps of the operations it joins. *)
Definition joinable (ops : list Operation) : Prop :=
  Forall (fun o => complete o = true /\ all_and o = true) ops.

Lemma pair_up_spec ops :
  joinable ops ->
  joinable (pair_up ops) /\ all_checks (pair_up ops) = all_checks ops /\
  (2 * length (pair_up ops) <= length ops + 1)%nat /\ (0 < length ops -> 0 < length (pair_up ops))%nat.
Proof.
  induction ops as [ops IH] using (well_founded_induction (Wf_nat.well_founded_ltof _ (@length Operation))).
  unfold Wf_nat.ltof in IH.
  intros Hops.
  destruct ops as [|a [|b ops]]; [by split_and!; simpl; (done || lia)..|].
  inversion Hops as [|? ? Ha Hb]; subst. inversion Hb as [|? ? Hb' Hr]; subst.
  destruct (IH ops) as (H1 & H2 & H3 & H4); [simpl; lia|done|].
  destruct Ha as [Hca Haa], Hb' as [Hcb Hab]. split_and!; simpl; [| |lia|lia].
  - constructor; [|done]. simpl. by rewrite Hca, Hcb, Haa, Hab.
  - unfold all_checks in *; simpl. rewrite H2. by rewrite <- app_assoc.
Qed.

Lemma pair_loop_spec rounds ops :
  joinable ops -> (0 < length ops <= S rounds)%nat ->
  exists root, pair_loop rounds ops = [root] /\ complete root = true /\ all_and root = true /\
    tree_checks root = all_checks ops.
Proof.
  revert ops. induction rounds as [|rounds IH]; intros ops Hj Hl.
  - destruct ops as [|o [|]]; simpl in *; [lia| |lia]. inversion Hj as [|? ? []]; subst.
    exists o. unfold all_checks; simpl. by rewrite app_nil_r.
  - simpl. destruct (Nat.ltb_spec 1 (length ops)) as [Hlt|Hge].
    + destruct (pair_up_spec _ Hj) as (H1 & H2 & H3 & H4).
      destruct (IH (pair_up ops)) as (root & Hr & Hc & Ha & Ht); [done|lia|].
      exists root. by rewrite Ht, H2.
    + destruct ops as [|o [|]]; simpl in *; [lia| |lia]. inversion Hj as [|? ? []]; subst.
      exists o. unfold all_checks; simpl. by rewrite app_nil_r.
Qed.

(** ** Theorems *)

(** C35: a rule tree survives the contract: written in the flat form, read back into an array and
    rebuilt from it in post-order it is the same tree, provided the tree is complete (all
    children defined, no [NoOperation]) and the ABI coding returns what was coded. The
    child indices that are written are not those of the children; the rebuilding does not
    use them. *)
Theorem rule_tree_roundtrip {Hex} (encode : RuleData -> Hex) decode (o : Operation) :
  (forall d, decode (encode d) = Ok [d]) -> complete o = true ->
  exists d, treeToRuleData o = Ok d /\
    getOperationTree decode (Ok (encodeEntitlementData encode d)) = Ok o.
Proof.
  intros Habi Ho. destruct (decode_tree o Ho) as (d & Hd & Hops). exists d. split; [done|].
  unfold getOperationTree, decodeEntitlementData, encodeEntitlementData. res_simpl.
  rewrite Habi. res_simpl. rewrite Hops. res_simpl. unfold postOrderArrayToTree.
  destruct (postOrder_decoded o Ho [] 0) as (sfx & -> & Hs). simpl.
  by rewrite <- (app_nil_r sfx), Hs.
Qed.

(** The operation that is evaluated, the last one of [ruleDataToOperations], has the
    children at the positions written by [postOrderTraversal], and these are wrong: in a
    tree whose right child is a check and whose left child is a logical operation, the
    operation that is evaluated is the same for every right child. The last requirement
    of such a rule is never looked at. *)
Theorem last_requirement_ignored ty (l : Operation) :
  complete l = true -> isLogicalOperation l = true ->
  exists root, forall c, exists d ops,
    treeToRuleData (Logical ty (Some l) (Some (Check c))) = Ok d /\
    ruleDataToOperations [d] = Ok ops /\ last ops = Some root.
Proof.
  intros Hl Hlog. set (p := decoded [] 0 l).
  exists (Logical ty (p !! logical_count l) (p !! S (logical_count l))). intros c.
  destruct (decode_tree (Logical ty (Some l) (Some (Check c)))) as (d & Hd & Hops); [by simpl; rewrite Hl|].
  exists d. eexists. split; [done|]. split; [done|]. simpl. fold p. rewrite last_snoc.
  rewrite Nat.add_0_r. pose proof (decoded_length l Hl [] 0) as Hlen. fold p in Hlen. simpl in Hlen.
  assert (0 < logical_count l)%nat by (destruct l; simpl in *; [done|lia|done]).
  by rewrite !lookup_app_l by lia.
Qed.

(** [createOperationsTree] requires all the checks it is given and nothing else: the rule is
    a tree of ANDs over exactly these checks, in their order and with threshold 1 where
    none is given, and [createContractCheckOperationFromTree] reads them back. *)
Theorem created_rule_checks (checkOp : list ContractCheckOperation) :
  checkOp <> [] ->
  exists root d,
    createOperationsTree checkOp = Ok d /\ treeToRuleData root = Ok d /\
    complete root = true /\ all_and root = true /\ tree_checks root = map check_of checkOp /\
    createContractCheckOperationFromTree d = Ok (map (fun op => contract_check (check_of op)) checkOp).
Proof.
  intros Hne. set (ops := map (fun op => Check (check_of op)) checkOp).
  assert (Hj : joinable ops) by (apply Forall_map, Forall_true; done).
  assert (Hc : all_checks ops = map check_of checkOp).
  { unfold all_checks, ops. clear. induction checkOp as [|x xs IH]; [done|]. simpl. by f_equal. }
  destruct (pair_loop_spec (length checkOp) ops Hj) as (root & Hroot & Hcr & Har & Htr).
  { unfold ops. rewrite length_map. destruct checkOp; [done|]. simpl. lia. }
  destruct (decode_tree root Hcr) as (d & Hd & Hops). exists root, d.
  assert (Hcreate : createOperationsTree checkOp = Ok d).
  { unfold createOperationsTree. fold ops. rewrite Hroot. by destruct checkOp. }
  split_and!; try done; [by rewrite Htr|].
  unfold createContractCheckOperationFromTree. rewrite Hops. res_simpl.
  rewrite decoded_checks by done. cbn. by rewrite Htr, Hc, map_map.
Qed.

(** ** Witnesses *)

Definition demo_check (address : string) : CheckOperation := {|
  checkType := CheckOperationType_ERC721; chainId := 1; contractAddress := address; threshold := 1 |}.
Definition demo_both : Operation :=
  Logical LogicalOperationType_AND (Some (Check (demo_check "a"))) (Some (Check (demo_check "b"))).
Definition demo_three : Operation :=
  Logical LogicalOperationType_OR (Some demo_both) (Some (Check (demo_check "c"))).

(** A coding that returns what was coded. *)
Definition demo_decode (d : RuleData) : result (list RuleData) := Ok [d].

Lemma rule_tree_roundtrip_witness :
  exists d, treeToRuleData demo_three = Ok d /\
    getOperationTree demo_decode (Ok (encodeEntitlementData id d)) = Ok demo_three.
Proof. apply (rule_tree_roundtrip id demo_decode demo_three); reflexivity. Defined.

Lemma last_requirement_ignored_witness :
  complete demo_both = true /\ isLogicalOperation demo_both = true /\
  exists root, forall c, exists d ops,
    treeToRuleData (Logical LogicalOperationType_AND (Some demo_both) (Some (Check c))) = Ok d /\
    ruleDataToOperations [d] = Ok ops /\ last ops = Some root.
Proof.
  split; [reflexivity|]. split; [reflexivity|].
  apply last_requirement_ignored; reflexivity.
Defined.

Lemma created_rule_checks_witness :
  exists root d,
    createOperationsTree (map contract_check [demo_check "a"; demo_check "b"; demo_check "c"]) = Ok d /\
    treeToRuleData root = Ok d /\
    tree_checks root = [demo_check "a"; demo_check "b"; demo_check "c"].
Proof.
  destruct (created_rule_checks (map contract_check [demo_check "a"; demo_check "b"; demo_check "c"]))
    as (root & d & H1 & H2 & _ & _ & H5 & _); [discriminate|].
  exists root, d. split; [exact H1|]. split; [exact H2|exact H5].
Defined.
