(* ===== verification/EntitlementEval.v ===== *)
(** * Evaluation of entitlement rules (core/web3/src/entitlement.ts, evaluation)

    The checks of a rule run concurrently, and a logical operation is decided as soon
    as one of its operands decides it. An evaluation is a tree of promises
    ([evaluation]), and [step] is what may happen to it next: a check is answered, or
    an operation is decided by operands that are settled. The order is the
    environment's, so the theorems hold for every order in which the chains answer.

    An abort only reaches checks below the controller it is called on. The aborts of
    the logical operations go to operands whose race is already decided by the interrupt
    flag, so they change no result; the one abort that does is made by
    [evaluateOperationsForEntitledWallet] right after the start: [aborted] says
    whether it is. The chains ([balanceOf]) and the address syntax ([isAddress]) are
    third-party code. *)

From S2P Require Import Prelude Entitlement.

(** [ethers.constants.AddressZero]. *)
Definition zeroAddress : string := "0x" +:+ str_repeat "0" 40.
Definition MOCK_ADDRESS : string := "0xdeadbeefdeadbeefdeadbeefdeadbeefdeadbeef".

(** [Number(z)]: the nearest double, ties to even. *)
Definition Number (z : Z) : Z :=
  let e := Z.log2 (Z.abs z) - 52 in
  if e <=? 0 then z
  else
    let u := 2 ^ e in
    let q := Z.abs z / u in let r := Z.abs z mod u in
    let q := if (2 * r <? u) || ((2 * r =? u) && Z.even q) then q else q + 1 in
    Z.sgn z * q * u.

(** A [StaticJsonRpcProvider]: what its promise [ready] is settled with, its network. *)
Record provider := {
  p_ready : result unit;
  p_chainId : Z;
}.

(** [Promise.all(providers.map((p) => p.ready))]. *)
Fixpoint all_ready (providers : list provider) : result unit :=
  match providers with
  | [] => Ok tt
  | p :: ps => _ ← p_ready p; all_ready ps
  end.

Definition findProviderFromChainId (providers : list provider) (chain : Z) : option provider :=
  List.find (fun p => p_chainId p =? Number chain) providers.

(** The promise of an evaluation. *)
Inductive evaluation :=
| Pending (c : CheckOperation)
| AndEval (l r : evaluation)
| OrEval (l r : evaluation)
| Settled (res : result string).

Section Evaluation.
Context (isAddress : string -> bool) (balanceOf : Z -> string -> string -> result Z).
Context (aborted : bool) (linkedWallets : list string) (providers : list provider).

Definition isValidAddress (value : string) : bool :=
  isAddress value && negb (String.eqb value zeroAddress).

(** ** Checks *)

(** A failing call counts as no balance. *)
Definition wallet_balance (p : provider) (operation : CheckOperation) (wallet : string) : Z :=
  match balanceOf (p_chainId p) (contractAddress operation) wallet with
  | Ok balance => balance
  | Throw _ => 0
  end.

Definition evaluateERC721Operation (operation : CheckOperation) (p : provider) : string :=
  let walletBalances := map (fun w => (w, wallet_balance p operation w)) linkedWallets in
  let walletsWithAsset := List.filter (fun wb => 0 <? wb.2) walletBalances in
  let accumulatedBalance := foldl (fun acc wb => acc + wb.2) 0 walletsWithAsset in
  match walletsWithAsset with
  | (wallet, _) :: _ => if threshold operation <=? accumulatedBalance then wallet else zeroAddress
  | [] => zeroAddress
  end.

(** The timer of [threshold] milliseconds, or the abort before it. *)
Definition evaluateMockOperation (operation : CheckOperation) : string :=
  if aborted then zeroAddress
  else if chainId operation =? 1 then MOCK_ADDRESS else zeroAddress.

Definition evaluateCheckOperation (operation : CheckOperation) : result string :=
  let ty := checkType operation in
  if ty =? CheckOperationType_MOCK then Ok (evaluateMockOperation operation)
  else if ty =? CheckOperationType_ISENTITLED then
    Throw (JsError "CheckOperationType.ISENTITLED not implemented")
  else if ty =? CheckOperationType_ERC20 then Throw (JsError "CheckOperationType.ERC20 not implemented")
  else if ty =? CheckOperationType_ERC721 then
    _ ← all_ready providers;
    match findProviderFromChainId providers (chainId operation) with
    | None => Ok zeroAddress
    | Some p => Ok (evaluateERC721Operation operation p)
    end
  else if ty =? CheckOperationType_ERC1155 then Throw (JsError "CheckOperationType.ERC1155 not implemented")
  else Throw (JsError "Unknown check operation type").

(** Whether the check awaits anything before its result is known. *)
Definition check_awaits (operation : CheckOperation) : bool :=
  (checkType operation =? CheckOperationType_MOCK) || (checkType operation =? CheckOperationType_ERC721).

(** ** The start of an evaluation: what [evaluateTree] does before it first waits *)

Fixpoint evaluateTree (entry : Operation) : evaluation :=
  match entry with
  | Logical ty (Some l) (Some r) =>
      if ty =? LogicalOperationType_AND then AndEval (evaluateTree l) (evaluateTree r)
      else if ty =? LogicalOperationType_OR then OrEval (evaluateTree l) (evaluateTree r)
      else Settled (Throw (JsError "Unknown operation type"))
  | Logical ty _ _ =>
      if (ty =? LogicalOperationType_AND) || (ty =? LogicalOperationType_OR) then Settled (Ok zeroAddress)
      else Settled (Throw (JsError "Unknown operation type"))
  | Check c => if check_awaits c then Pending c else Settled (evaluateCheckOperation c)
  | NoOperation _ => Settled (Throw (JsError "Unknown operation type"))
  end.

Definition evaluateEntry (entry : option Operation) : evaluation :=
  match entry with
  | Some entry => evaluateTree entry
  | None => Settled (Ok zeroAddress)
  end.

(** The last operation of the array is evaluated; the abort that follows at once is the
    parameter [aborted]. *)
Definition evaluateOperationsForEntitledWallet (ops : list Operation) : evaluation :=
  evaluateEntry (last ops).

(** ** What may happen next *)

Inductive step : evaluation -> evaluation -> Prop :=
(* a check is answered *)
| step_check c : step (Pending c) (Settled (evaluateCheckOperation c))
(* an operand goes on *)
| step_and_left l l' r : step l l' -> step (AndEval l r) (AndEval l' r)
| step_and_right l r r' : step r r' -> step (AndEval l r) (AndEval l r')
| step_or_left l l' r : step l l' -> step (OrEval l r) (OrEval l' r)
| step_or_right l r r' : step r r' -> step (OrEval l r) (OrEval l r')
(* evaluateAndOperation: a racer that is not valid interrupts the other *)
| step_and_fails_left w r : isValidAddress w = false ->
    step (AndEval (Settled (Ok w)) r) (Settled (Ok zeroAddress))
| step_and_fails_right l w : isValidAddress w = false ->
    step (AndEval l (Settled (Ok w))) (Settled (Ok zeroAddress))
| step_and_holds wl wr : isValidAddress wl = true -> isValidAddress wr = true ->
    step (AndEval (Settled (Ok wl)) (Settled (Ok wr))) (Settled (Ok wl))
| step_and_throws_left e r : step (AndEval (Settled (Throw e)) r) (Settled (Throw e))
| step_and_throws_right l e : step (AndEval l (Settled (Throw e))) (Settled (Throw e))
(* evaluateOrOperation: a racer that is valid interrupts the other *)
| step_or_holds_left w r : isValidAddress w = true ->
    step (OrEval (Settled (Ok w)) r) (Settled (Ok w))
| step_or_holds_right l w : isValidAddress w = true ->
    step (OrEval l (Settled (Ok w))) (Settled (Ok w))
| step_or_fails wl wr : isValidAddress wl = false -> isValidAddress wr = false ->
    step (OrEval (Settled (Ok wl)) (Settled (Ok wr))) (Settled (Ok zeroAddress))
| step_or_throws_left e r : step (OrEval (Settled (Throw e)) r) (Settled (Throw e))
| step_or_throws_right l e : step (OrEval l (Settled (Throw e))) (Settled (Throw e)).

(** ** What a rule means *)

(** The tokens all linked wallets own together. *)
Definition owned (p : provider) (c : CheckOperation) : Z :=
  foldr Z.add 0 (map (wallet_balance p c) linkedWallets).

Definition check_holds (c : CheckOperation) : bool :=
  if checkType c =? CheckOperationType_MOCK then negb aborted && (chainId c =? 1)
  else
    match findProviderFromChainId providers (chainId c) with
    | Some p => Z.max 1 (threshold c) <=? owned p c
    | None => false
    end.

Fixpoint holds (o : Operation) : bool :=
  match o with
  | Check c => check_holds c
  | Logical ty (Some l) (Some r) =>
      if ty =? LogicalOperationType_AND then holds l && holds r else holds l || holds r
  | _ => false
  end.

(** The rules whose evaluation is implemented. *)
Fixpoint supported (o : Operation) : bool :=
  match o with
  | Check c => check_awaits c
  | Logical ty (Some l) (Some r) =>
      ((ty =? LogicalOperationType_AND) || (ty =? LogicalOperationType_OR)) && supported l && supported r
  | _ => false
  end.

(** What is right for a rule: a wallet of the user if it holds, else the zero address. *)
Definition answers (o : Operation) (w : string) : Prop :=
  if holds o then isValidAddress w = true /\ (w ∈ linkedWallets \/ aborted = false /\ w = MOCK_ADDRESS)
  else w = zeroAddress.

(** The steps an evaluation can still make. *)
Fixpoint weight (e : evaluation) : nat :=
  match e with
  | Pending _ => 1
  | AndEval l r | OrEval l r => S (weight l + weight r)
  | Settled _ => 0
  end.

(** ** Laws of the outside world *)

Record world_ok := {
  wallets_valid : Forall (fun w => isValidAddress w = true) linkedWallets;
  mock_valid : isAddress MOCK_ADDRESS = true;
  balances_unsigned : forall chain token w b, balanceOf chain token w = Ok b -> 0 <= b;
  providers_ready : Forall (fun p => p_ready p = Ok tt) providers;
}.
Hypothesis Hworld : world_ok.

Lemma zero_invalid : isValidAddress zeroAddress = false.
Proof. unfold isValidAddress. by rewrite String.eqb_refl, andb_false_r. Qed.

Lemma all_ready_ok : all_ready providers = Ok tt.
Proof.
  pose proof (providers_ready Hworld) as H. clear Hworld.
  induction H as [|p ps Hp _ IH]; [done|]. simpl. by rewrite Hp.
Qed.

Lemma balance_nonneg p c w : 0 <= wallet_balance p c w.
Proof.
  unfold wallet_balance. destruct (balanceOf _ _ w) eqn:E; [|done].
  by eapply balances_unsigned.
Qed.

Lemma foldl_balances (wbs : list (string * Z)) z :
  foldl (fun acc wb => acc + wb.2) z wbs = z + foldr Z.add 0 (map snd wbs).
Proof. revert z. induction wbs as [|wb wbs IH]; intros z; simpl; [|rewrite IH]; lia. Qed.

(** Leaving out wallets without tokens does not change the sum. *)
Lemma assets_sum p c ws :
  foldr Z.add 0 (map snd (List.filter (fun wb => 0 <? wb.2) (map (fun w => (w, wallet_balance p c w)) ws))) =
  foldr Z.add 0 (map (wallet_balance p c) ws).
Proof.
  induction ws as [|w ws IH]; [done|]. simpl. pose proof (balance_nonneg p c w).
  destruct (Z.ltb_spec 0 (wallet_balance p c w)); simpl; rewrite IH; lia.
Qed.

Lemma assets_sum_pos (wbs : list (string * Z)) :
  Forall (fun wb => 0 < wb.2) wbs -> 0 <= foldr Z.add 0 (map snd wbs).
Proof. induction 1; simpl; lia. Qed.

(** The ERC721 check asks for [threshold] tokens, and at least one. *)
Lemma erc721_answers p c :
  if Z.max 1 (threshold c) <=? owned p c
  then evaluateERC721Operation c p ∈ linkedWallets
  else evaluateERC721Operation c p = zeroAddress.
Proof.
  unfold evaluateERC721Operation. rewrite foldl_balances, assets_sum, Z.add_0_l.
  pose proof (assets_sum p c linkedWallets) as Hsum. fold (owned p c) in *.
  set (l := List.filter _ _) in *.
  assert (Hin : forall wb, wb ∈ l -> wb.1 ∈ linkedWallets /\ 0 < wb.2).
  { intros wb [Hm Hlt]%list_elem_of_In%filter_In. apply in_map_iff in Hm as (w & <- & Hw).
    split; [by apply list_elem_of_In|simpl in *; lia]. }
  destruct l as [|[w b] l].
  - simpl in Hsum. by destruct (Z.leb_spec (Z.max 1 (threshold c)) (owned p c)); [lia|].
  - destruct (Hin (w, b)) as [Hw Hb]; [left|]. simpl in Hw, Hb, Hsum.
    assert (0 <= foldr Z.add 0 (map snd l)).
    { apply assets_sum_pos, Forall_forall. intros wb Hwb. apply Hin. by right. }
    destruct (Z.leb_spec (threshold c) (owned p c)), (Z.leb_spec (Z.max 1 (threshold c)) (owned p c));
      done || lia.
Qed.

Lemma check_answers c :
  check_awaits c = true -> exists w, evaluateCheckOperation c = Ok w /\ answers (Check c) w.
Proof.
  unfold check_awaits, evaluateCheckOperation, answers. cbn [holds]. unfold check_holds.
  intros [Hm|Hm]%orb_true_iff; rewrite ?Hm.
  - eexists. split; [done|]. unfold evaluateMockOperation. destruct aborted eqn:Ea; [done|].
    destruct (chainId c =? 1); simpl; [|done]. split; [|by right].
    unfold isValidAddress. by rewrite (mock_valid Hworld).
  - apply Z.eqb_eq in Hm. rewrite Hm. cbn -[Z.max]. rewrite all_ready_ok. res_simpl.
    destruct (findProviderFromChainId providers (chainId c)) as [p|]; [|by eexists].
    eexists. split; [done|]. pose proof (erc721_answers p c) as He.
    destruct (Z.max 1 (threshold c) <=? owned p c); [|done]. split; [|by left].
    pose proof (wallets_valid Hworld) as Hv. rewrite Forall_forall in Hv. by apply Hv.
Qed.

(** ** Every order of answers *)

(** [tracks o e]: the evaluation [e] of the rule [o] has made no wrong decision. *)
Inductive tracks : Operation -> evaluation -> Prop :=
| tracks_settled o w : answers o w -> tracks o (Settled (Ok w))
| tracks_check c : check_awaits c = true -> tracks (Check c) (Pending c)
| tracks_and l r el er : tracks l el -> tracks r er ->
    tracks (Logical LogicalOperationType_AND (Some l) (Some r)) (AndEval el er)
| tracks_or l r el er : tracks l el -> tracks r er ->
    tracks (Logical LogicalOperationType_OR (Some l) (Some r)) (OrEval el er).
Hint Constructors step tracks : core.

Lemma answers_valid o w : answers o w -> isValidAddress w = holds o.
Proof. unfold answers. destruct (holds o); [by intros [? _]|intros ->; apply zero_invalid]. Qed.

Lemma start_tracks o : supported o = true -> tracks o (evaluateTree o).
Proof.
  induction o as [c|ty [l|] [r|] IHl IHr|i] using Operation_tree_ind; simpl; try done.
  - intros Hc. rewrite Hc. auto.
  - intros [[Hty Hl]%andb_true_iff Hr]%andb_true_iff.
    apply orb_true_iff in Hty as [->%Z.eqb_eq| ->%Z.eqb_eq]; simpl; auto.
Qed.

Lemma settled_answers o w : tracks o (Settled (Ok w)) -> answers o w.
Proof. by inversion 1. Qed.

(** Whether a settled operand is valid says whether it holds. *)
Lemma settled_holds o w b : tracks o (Settled (Ok w)) -> isValidAddress w = b -> holds o = b.
Proof. by intros <-%settled_answers%answers_valid. Qed.

Lemma settled_no_throw o e : ~ tracks o (Settled (Throw e)).
Proof. by inversion 1. Qed.

Lemma answers_copy o o' w : holds o = true -> holds o' = true -> answers o w -> answers o' w.
Proof. unfold answers. by intros -> ->. Qed.

Lemma answers_zero o : holds o = false -> answers o zeroAddress.
Proof. unfold answers. by intros ->. Qed.

Lemma step_tracks o e e' : tracks o e -> step e e' -> tracks o e'.
Proof.
  intros Ht. revert e'. induction Ht as [o w Hw|c Hc|l r el er Hl IHl Hr IHr|l r el er Hl IHl Hr IHr];
    intros e' Hs; inversion Hs; subst; auto;
    repeat match goal with
    | H : tracks ?o (Settled (Throw ?e)) |- _ => by destruct (settled_no_throw o e)
    | H : tracks _ (Settled (Ok ?w)), Hv : isValidAddress ?w = _ |- _ =>
        pose proof (settled_holds _ _ _ H Hv); clear Hv
    end;
    try solve [constructor; apply answers_zero; simpl; rewrite ?andb_false_iff, ?orb_false_iff; auto].
  - destruct (check_answers c Hc) as (w & -> & Hw). auto.
  - constructor; apply (answers_copy l); [done|simpl; by apply andb_true_iff|by apply settled_answers].
  - constructor; apply (answers_copy l); [done|simpl; by apply orb_true_iff; left|by apply settled_answers].
  - constructor; apply (answers_copy r); [done|simpl; by apply orb_true_iff; right|by apply settled_answers].
Qed.

Lemma step_weight e e' : step e e' -> (weight e' < weight e)%nat.
Proof. induction 1; simpl; lia. Qed.

(** An evaluation that is not settled can go on. *)
Lemma tracks_progress o e :
  tracks o e -> (exists w, e = Settled (Ok w) /\ answers o w) \/ exists e', step e e'.
Proof.
  induction 1 as [o w Hw|c Hc|l r el er Hl IHl Hr IHr|l r el er Hl IHl Hr IHr]; [by eauto..| |].
  all: destruct IHl as [(wl & -> & _)|[el' ?]]; [|by eauto].
  all: destruct IHr as [(wr & -> & _)|[er' ?]]; [|by eauto].
  all: right; destruct (isValidAddress wl) eqn:?, (isValidAddress wr) eqn:?; eauto.
Qed.

Lemma nsteps_tracks n o e e' :
  tracks o e -> nsteps step n e e' -> tracks o e' /\ (n + weight e' <= weight e)%nat.
Proof.
  intros Ht Hn. induction Hn as [e|n e1 e2 e3 Hs Hn IH]; [split; [done|lia]|].
  pose proof (step_weight _ _ Hs). destruct IH; [by eapply step_tracks|]. split; [done|lia].
Qed.
End Evaluation.

(** ** Theorems *)

(** In whatever order the chains answer, the evaluation of a rule ends, after at most as many
    steps as the rule has operations, with the right answer: a valid wallet of the user
    when the rule holds (the AND of both sides, the OR of either, tokens counted over
    all linked wallets), the zero address when it does not. *)
Theorem evaluation_correct isAddress balanceOf aborted wallets providers (o : Operation) n e :
  world_ok isAddress balanceOf wallets providers -> supported o = true ->
  nsteps (step isAddress balanceOf aborted wallets providers) n
    (evaluateTree balanceOf aborted wallets providers o) e ->
  (n <= weight (evaluateTree balanceOf aborted wallets providers o))%nat /\
  ((exists e', step isAddress balanceOf aborted wallets providers e e') \/
   (exists w, e = Settled (Ok w) /\ answers isAddress balanceOf aborted wallets providers o w)).
Proof.
  intros Hw Ho Hn.
  eapply nsteps_tracks in Hn as [Ht Hle]; [|done|by apply start_tracks].
  split; [lia|]. destruct (tracks_progress _ _ _ _ _ _ _ Ht); auto.
Qed.

(** The zero address is the answer of every rule of mock checks when the evaluation is
    aborted, as [evaluateOperationsForEntitledWallet] does: their timers are cleared. *)
Theorem mock_rules_refused isAddress balanceOf wallets providers (o : Operation) w :
  Forall (fun c => checkType c = CheckOperationType_MOCK) (tree_checks o) ->
  answers isAddress balanceOf true wallets providers o w -> w = zeroAddress.
Proof.
  intros Hm. assert (Hh : holds balanceOf true wallets providers o = false).
  { induction o as [c|ty [l|] [r|] IHl IHr|i] using Operation_tree_ind; simpl in *; try done.
    - inversion Hm as [|? ? Hc _]; subst. unfold check_holds. by rewrite Hc.
    - apply Forall_app in Hm as [Hl Hr]. rewrite (IHl l eq_refl Hl), (IHr r eq_refl Hr). by case_match. }
  unfold answers. by rewrite Hh.
Qed.

(** Of a rule that asks for three tokens, [(a AND b) AND c], the first two are
    evaluated and the third is not. *)
Theorem third_token_not_required balanceOf aborted wallets providers a b c :
  let both := Logical LogicalOperationType_AND (Some (Check a)) (Some (Check b)) in
  let rule := Logical LogicalOperationType_AND (Some both) (Some (Check c)) in
  exists d ops root,
    treeToRuleData rule = Ok d /\ ruleDataToOperations [d] = Ok ops /\ last ops = Some root /\
    holds balanceOf aborted wallets providers root = holds balanceOf aborted wallets providers both.
Proof.
  do 3 eexists. split; [reflexivity|]. split; [reflexivity|]. split; [reflexivity|].
  simpl. by destruct (check_holds _ _ _ _ a), (check_holds _ _ _ _ b).
Qed.

(** ** Witness *)

Definition demo_balanceOf (chain : Z) (token wallet : string) : result Z :=
  if String.eqb token "a" && String.eqb wallet "0x2" then Ok 3 else Ok 0.

Lemma demo_world :
  world_ok (fun _ => true) demo_balanceOf ["0x1"; "0x2"] [{| p_ready := Ok tt; p_chainId := 1 |}].
Proof.
  split; [by repeat constructor|done| |by repeat constructor].
  intros chain token w b. unfold demo_balanceOf. case_match; intros [= <-]; lia.
Qed.

(** The user owns the token of the first check only: the AND of both is refused. *)
Lemma evaluation_correct_witness :
  exists n e,
    nsteps (step (fun _ => true) demo_balanceOf false ["0x1"; "0x2"] [{| p_ready := Ok tt; p_chainId := 1 |}]) n
      (evaluateTree demo_balanceOf false ["0x1"; "0x2"] [{| p_ready := Ok tt; p_chainId := 1 |}] demo_both) e /\
    (n <= 3)%nat /\ e = Settled (Ok zeroAddress).
Proof.
  assert (Hn : nsteps (step (fun _ => true) demo_balanceOf false ["0x1"; "0x2"]
    [{| p_ready := Ok tt; p_chainId := 1 |}]) 2
    (evaluateTree demo_balanceOf false ["0x1"; "0x2"] [{| p_ready := Ok tt; p_chainId := 1 |}] demo_both)
    (Settled (Ok zeroAddress))).
  { eapply nsteps_l; [apply step_and_right, step_check|].
    eapply nsteps_l; [apply step_and_fails_right; reflexivity|constructor]. }
  destruct (evaluation_correct (fun _ => true) demo_balanceOf false ["0x1"; "0x2"]
    [{| p_ready := Ok tt; p_chainId := 1 |}] demo_both 2 (Settled (Ok zeroAddress))) as [Hle _].
  - apply demo_world.
  - reflexivity.
  - exact Hn.
  - exists 2%nat, (Settled (Ok zeroAddress)). split; [exact Hn|]. split; [exact Hle || lia|reflexivity].
Defined.
