(* ===== verification/SpaceDapp.v ===== *)
(** * Spaces on the chain (core/web3/src/v3/SpaceDapp.ts, Space.ts, RiverRegistry.ts and helpers)

    What the SDK makes of the answers of the contracts of a space: its channels and
    roles, who may join, the calls that update the roles of a channel, and the nodes
    of the registry. A contract read is a field of [SpaceReads], settled with a value or
    an error; the ABI coding of call data is third-party code, so a call is kept as
    what it encodes. *)

From S2P Require Import Prelude Proto Externals ToyExternals DecryptionQueues RpcClient Entitlement EntitlementEval.

Definition EVERYONE_ADDRESS : string := "0x0000000000000000000000000000000000000001".

Inductive EntitlementModuleType := UserEntitlement | RuleEntitlement.
#[global] Instance EntitlementModuleType_eq_dec : EqDecision EntitlementModuleType.
Proof. solve_decision. Defined.

(** The type a contract names, if it is a known one. *)
Definition moduleType_of (s : string) : option EntitlementModuleType :=
  if String.eqb s "UserEntitlement" then Some UserEntitlement
  else if String.eqb s "RuleEntitlement" then Some RuleEntitlement else None.

Record ChannelStruct := {
  ch_id : string;
  ch_disabled : bool;
  ch_metadata : string;
  ch_roleIds : list Z;
}.

Record RoleStruct := {
  ro_id : Z;
  ro_name : string;
  ro_permissions : list string;
}.

Record ChannelMetadata := {
  cm_name : string;
  cm_description : string;
  cm_channelNetworkId : string;
  cm_disabled : bool;
}.

(** What [getEntitlementDetails] takes for the rule of a role: a struct, or an array
    without elements that is not one. *)
Inductive RuleValue := RuleStruct (d : RuleData) | EmptyArray.

Record EntitlementDetails := {
  ed_users : list string;
  ed_ruleData : RuleValue;
}.

Record RoleEntitlements := {
  re_roleId : Z;
  re_name : string;
  re_permissions : list string;
  re_users : list string;
  re_ruleData : RuleValue;
}.

Record RoleDetails := {
  rd_id : Z;
  rd_name : string;
  rd_permissions : list string;
  rd_users : list string;
  rd_ruleData : RuleValue;
  rd_channels : list ChannelMetadata;
}.

Record ChannelDetails := {
  cd_spaceNetworkId : string;
  cd_channelNetworkId : string;
  cd_name : string;
  cd_description : string;
  cd_disabled : bool;
  cd_roles : list RoleEntitlements;
}.

(** One row of [getEntitlementDataByPermission]. *)
Record EntitlementData := {
  ent_type : string;
  ent_data : bytes;
}.

(** A row with its data decoded. *)
Record DecodedEntitlement := {
  de_type : EntitlementModuleType;
  de_rule : option (list RuleData);
  de_users : option (list string);
}.

(** The contract reads of a space, and the decoders of ABI data. *)
Record SpaceReads := {
  read_getChannel : string -> result ChannelStruct;
  read_getChannels : result (list ChannelStruct);
  read_getRoleById : Z -> result RoleStruct;
  read_getRoles : result (list RoleStruct);
  read_getEntitlements : result (list (string * string));
  read_getEntitlement : string -> result string;
  read_userEntitlement : string -> Z -> result (list string);
  read_getRuleData : string -> Z -> result RuleData;
  read_getEntitlementDataByPermission : string -> result (list EntitlementData);
  abi_decodeRuleData : bytes -> result (list RuleData);
  abi_decodeAddresses : bytes -> result (list string);
  json_parseMetadata : string -> option (string * string);
}.

(** ** Helpers *)

(** [BigNumber.toNumber]: throws outside of the safe integers. *)
Definition toNumber (z : Z) : result Z :=
  if Z.abs z <=? 9007199254740991 then Ok z else Throw (JsError "overflow").

Fixpoint all_results {A B} (f : A -> result B) (xs : list A) : result (list B) :=
  match xs with
  | [] => Ok []
  | x :: xs => y ← f x; ys ← all_results f xs; Ok (y :: ys)
  end.

(** [id.startsWith('0x') ? id : `0x${id}`]. *)
Definition hexId (id : string) : string := if startsWith id "0x" then id else "0x" +:+ id.

(** [s.replace('0x', '')]: the first occurrence. *)
Fixpoint replace0x (s : string) : string :=
  match s with
  | EmptyString => EmptyString
  | String c s' => if startsWith s "0x" then slice_from 2 s else String c (replace0x s')
  end.

(** A [Set] of numbers in insertion order. *)
Definition set_add (xs : list Z) (x : Z) : list Z := if existsb (Z.eqb x) xs then xs else xs ++ [x].
Definition set_of (xs : list Z) : list Z := foldl set_add [] xs.

Definition isRoleIdInArray (roleIds : list Z) (roleId : Z) : bool := existsb (fun r => r =? roleId) roleIds.

(** [isStringArray]: an array of strings that is not empty. *)
Definition isStringArray (users : list string) : bool := match users with [] => false | _ => true end.

Section Space.
Context (R : SpaceReads) (spaceId : string).

Definition parseChannelMetadataJSON (metadataStr : string) : string * string :=
  match json_parseMetadata R metadataStr with
  | Some nd => nd
  | None => (metadataStr, "")
  end.

Definition metadata_of (c : ChannelStruct) : ChannelMetadata :=
  let '(name, description) := parseChannelMetadataJSON (ch_metadata c) in
  {| cm_name := name; cm_description := description; cm_channelNetworkId := replace0x (ch_id c);
     cm_disabled := ch_disabled c |}.

Definition getChannelMetadata (channelNetworkId : string) : result ChannelMetadata :=
  channelInfo ← read_getChannel R (hexId channelNetworkId);
  Ok (metadata_of channelInfo).

Definition getChannels : result (list ChannelMetadata) :=
  getOutput ← read_getChannels R;
  Ok (map metadata_of getOutput).

(** A shim is its address and its type. *)
Definition getEntitlementByAddress (address : string) : result (string * EntitlementModuleType) :=
  moduleType ← read_getEntitlement R address;
  match moduleType_of moduleType with
  | Some ty => Ok (address, ty)
  | None => Throw (JsError ("Unsupported entitlement module type: " +:+ moduleType))
  end.

(** With the cache [addressToEntitlement] of the types by address: what is known is not
    read again. [getEntitlementByAddress] is the reference ([cache_transparent]). *)
Definition getEntitlementByAddress_cached (address : string) (cache : jsmap EntitlementModuleType) :
    result (string * EntitlementModuleType) * jsmap EntitlementModuleType :=
  match jm_get address cache with
  | Some ty => (Ok (address, ty), cache)
  | None =>
      match getEntitlementByAddress address with
      | Ok shim => (Ok shim, jm_set address shim.2 cache)
      | Throw e => (Throw e, cache)
      end
  end.

Definition getEntitlementShims : result (list (string * EntitlementModuleType)) :=
  entitlementInfo ← read_getEntitlements R;
  all_results (fun info => getEntitlementByAddress info.1) entitlementInfo.

Definition findEntitlementByType (entitlementType : EntitlementModuleType) :
    result (option (string * EntitlementModuleType)) :=
  entitlements ← getEntitlementShims;
  Ok (List.find (fun e => bool_decide (e.2 = entitlementType)) entitlements).

(** [RuleEntitlementShim.getRoleEntitlement]. *)
Definition getRoleRule (address : string) (roleId : Z) : result RuleData :=
  if roleId =? 0 then Ok empty_rule else read_getRuleData R address roleId.

(** What one entitlement module says of a role. *)
Inductive RoleAnswer := Users (users : list string) | Rule (d : RuleData).

Definition getRoleEntitlement (roleId : Z) (shim : string * EntitlementModuleType) : result RoleAnswer :=
  match shim.2 with
  | UserEntitlement => users ← read_userEntitlement R shim.1 roleId; Ok (Users users)
  | RuleEntitlement => ruleData ← getRoleRule shim.1 roleId; Ok (Rule ruleData)
  end.

(** The body of the loop: an array of strings that is not empty is added to the users,
    anything else that is defined is taken for the rule. *)
Definition addEntitlement (acc : list string * option RuleValue) (entitlement : RoleAnswer) :
    list string * option RuleValue :=
  match entitlement with
  | Users users =>
      if isStringArray users then (acc.1 ++ users, acc.2) else (acc.1, Some EmptyArray)
  | Rule d => (acc.1, Some (RuleStruct d))
  end.

Definition getEntitlementDetails (shims : list (string * EntitlementModuleType)) (roleId : Z) :
    result EntitlementDetails :=
  entitlements ← all_results (getRoleEntitlement roleId) shims;
  let '(users, ruleData) := foldl addEntitlement ([], None) entitlements in
  Ok {| ed_users := users; ed_ruleData := default (RuleStruct NoopRuleData) ruleData |}.

(** Any error means that the role does not exist. *)
Definition getRoleInfo (roleId : Z) : option RoleStruct :=
  match read_getRoleById R roleId with
  | Ok role => Some role
  | Throw _ => None
  end.

Definition getRoleEntitlements (shims : list (string * EntitlementModuleType)) (roleId : Z) :
    result (option RoleEntitlements) :=
  entitlementDetails ← getEntitlementDetails shims roleId;
  match getRoleInfo roleId with
  | None => Ok None
  | Some roleInfo =>
      id ← toNumber (ro_id roleInfo);
      Ok (Some {| re_roleId := id; re_name := ro_name roleInfo; re_permissions := ro_permissions roleInfo;
                  re_users := ed_users entitlementDetails; re_ruleData := ed_ruleData entitlementDetails |})
  end.

Definition getChannelRoleEntitlements (channelInfo : ChannelStruct) : result (list RoleEntitlements) :=
  shims ← getEntitlementShims;
  all ← all_results (getRoleEntitlements shims) (ch_roleIds channelInfo);
  Ok (omap (M:=list) id all).

Definition getChannel (channelNetworkId : string) : result ChannelDetails :=
  channelInfo ← read_getChannel R (hexId channelNetworkId);
  roles ← getChannelRoleEntitlements channelInfo;
  let '(name, description) := parseChannelMetadataJSON (ch_metadata channelInfo) in
  Ok {| cd_spaceNetworkId := spaceId; cd_channelNetworkId := replace0x channelNetworkId;
        cd_name := name; cd_description := description; cd_disabled := ch_disabled channelInfo;
        cd_roles := roles |}.

(** The map by channel id keeps the first channel of an id. *)
Definition addChannelWithRole (roleId : Z) (acc : jsmap ChannelMetadata) (c : ChannelStruct) :
    jsmap ChannelMetadata :=
  if negb (jm_has (ch_id c) acc) && isRoleIdInArray (ch_roleIds c) roleId
  then jm_set (ch_id c) (metadata_of c) acc else acc.

Definition getChannelsWithRole (roleId : Z) : result (list ChannelMetadata) :=
  allChannels ← read_getChannels R;
  Ok (jm_values (foldl (addChannelWithRole roleId) [] allChannels)).

Definition getRole (roleId : Z) : result (option RoleDetails) :=
  shims ← getEntitlementShims;
  roleEntitlements ← getRoleEntitlements shims roleId;
  channels ← getChannelsWithRole roleId;
  match roleEntitlements with
  | None => Ok None
  | Some e =>
      Ok (Some {| rd_id := re_roleId e; rd_name := re_name e; rd_permissions := re_permissions e;
                  rd_channels := channels; rd_users := re_users e; rd_ruleData := re_ruleData e |})
  end.

(** The set of role ids seen is never added to: a role is read once per occurrence. *)
Definition getRolesInfo (roleIds : list Z) : result (list RoleStruct) :=
  all_results (read_getRoleById R) roleIds.

Definition getChannelRoles (channelNetworkId : string) : result (list RoleStruct) :=
  channelInfo ← read_getChannel R (hexId channelNetworkId);
  getRolesInfo (ch_roleIds channelInfo).

Definition getRoles : result (list (Z * string)) :=
  roles ← read_getRoles R;
  all_results (fun role => id ← toNumber (ro_id role); Ok (id, ro_name role)) roles.

(** ** Who may join *)

(** [RuleEntitlementShim.decodeGetRuleData]: errors and empty answers are undefined. *)
Definition decodeGetRuleData (data : bytes) : option (list RuleData) :=
  match abi_decodeRuleData R data with
  | Ok [] | Throw _ => None
  | Ok decoded => Some decoded
  end.

(** [UserEntitlementShim.decodeGetAddresses]. *)
Definition decodeGetAddresses (data : bytes) : option (list string) :=
  match abi_decodeAddresses R data with
  | Ok out => Some out
  | Throw _ => None
  end.

(** One row; without the shim of its type the data stays undefined. *)
Definition decodeEntitlement (user rule : option (string * EntitlementModuleType)) (e : EntitlementData) :
    result DecodedEntitlement :=
  match moduleType_of (ent_type e) with
  | Some RuleEntitlement =>
      Ok {| de_type := RuleEntitlement; de_users := None;
            de_rule := if is_defined rule then decodeGetRuleData (ent_data e) else None |}
  | Some UserEntitlement =>
      Ok {| de_type := UserEntitlement; de_rule := None;
            de_users := if is_defined user then decodeGetAddresses (ent_data e) else None |}
  | None => Throw (JsError "Unknown entitlement type")
  end.

Definition getEntitlementsForPermission (permission : string) : result (list DecodedEntitlement) :=
  entitlementData ← read_getEntitlementDataByPermission R permission;
  user ← findEntitlementByType UserEntitlement;
  rule ← findEntitlementByType RuleEntitlement;
  all_results (decodeEntitlement user rule) entitlementData.

Definition isEveryOneSpace (entitlements : list DecodedEntitlement) : bool :=
  existsb (fun e =>
    match de_users e with
    | Some users => existsb (String.eqb EVERYONE_ADDRESS) users
    | None => false
    end) entitlements.

(** The rules of the entitlements. *)
Definition ruleEntitlements (entitlements : list DecodedEntitlement) : list (option (list RuleData)) :=
  map de_rule (List.filter (fun e => bool_decide (de_type e = RuleEntitlement)) entitlements).

(** The wallets the rules are answered with, if every rule is: [wallets] are the settled
    evaluations, in the order of the rules. *)
Definition joining_wallet (wallets : list string) : option string :=
  if forallb (fun w => negb (String.eqb w zeroAddress)) wallets then head wallets else None.

(** The evaluations that [getEntitledWalletForJoiningSpace] starts: the wallet that is
    returned at once, or one evaluation for each rule. *)
Definition joining_evaluations (balanceOf : Z -> string -> string -> result Z) (rootKey : string)
    (linkedWallets : list string) (providers : list provider) : result (string + list evaluation) :=
  let allWallets := rootKey :: linkedWallets in
  entitlements ← getEntitlementsForPermission "JoinSpace";
  if isEveryOneSpace entitlements then Ok (inl rootKey)
  else
    _ ← all_ready providers;
    evaluations ← all_results (fun ruleData =>
      match ruleData with
      | None => Throw (JsError "Rule data not found")
      | Some ruleData =>
          operations ← ruleDataToOperations ruleData;
          Ok (evaluateOperationsForEntitledWallet balanceOf true allWallets providers operations)
      end) (ruleEntitlements entitlements);
    Ok (inr evaluations).

(** ** Updates of channels and roles *)

(** The calls of the contract of a space, as they are before they are encoded. *)
Inductive ContractCall :=
| call_updateChannel (channelId name : string) (disabled : bool)
| call_addRoleToChannel (channelId : string) (roleId : Z)
| call_removeRoleFromChannel (channelId : string) (roleId : Z).

Definition encodeAddRolesToChannel (channelNetworkId : string) (roleIds : list Z) : list ContractCall :=
  map (call_addRoleToChannel (hexId channelNetworkId)) roleIds.

Definition encodeRemoveRolesFromChannel (channelNetworkId : string) (roleIds : list Z) : list ContractCall :=
  map (call_removeRoleFromChannel (hexId channelNetworkId)) roleIds.

Definition set_has (xs : list Z) (x : Z) : bool := existsb (Z.eqb x) xs.

Definition encodeUpdateChannelRoles (channelNetworkId : string) (_updatedRoleIds : list Z) :
    result (list ContractCall) :=
  let channelId := hexId channelNetworkId in
  channelInfo ← read_getChannel R channelId;
  _ ← getEntitlementShims;
  ids ← all_results toNumber (ch_roleIds channelInfo);
  let currentRoleIds := set_of ids in
  let updatedRoleIds := set_of _updatedRoleIds in
  let rolesToAdd := List.filter (fun r => negb (set_has currentRoleIds r)) updatedRoleIds in
  let rolesToRemove := List.filter (fun r => negb (set_has updatedRoleIds r)) currentRoleIds in
  Ok (encodeRemoveRolesFromChannel channelId rolesToRemove ++
      encodeAddRolesToChannel channelId rolesToAdd).

Record UpdateChannelParams := {
  uc_channelId : string;
  uc_channelName : string;
  uc_roleIds : list Z;
  uc_disabled : option bool;
}.

Definition encodedUpdateChannelData (params : UpdateChannelParams) : result (list ContractCall) :=
  encodedUpdateChannelRoles ← encodeUpdateChannelRoles (uc_channelId params) (uc_roleIds params);
  Ok (call_updateChannel (hexId (uc_channelId params)) (uc_channelName params)
        (default false (uc_disabled params)) :: encodedUpdateChannelRoles).

(** An entitlement of a role that is created or updated: its module and what its data
    encodes. *)
Inductive EntitlementStruct :=
| UserStruct (module : string) (users : list string)
| RuleEntitlementStruct (module : string) (ruleData : RuleData).

Definition users_struct (module : option string) (users : list string) : list EntitlementStruct :=
  match module, users with
  | Some address, _ :: _ => [UserStruct address users]
  | _, _ => []
  end.
Definition rule_struct (module : option string) (ruleData : option RuleData) : list EntitlementStruct :=
  match module, ruleData with
  | Some address, Some d => [RuleEntitlementStruct address d]
  | _, _ => []
  end.

Definition createUpdatedEntitlements (users : list string) (ruleData : option RuleData) :
    result (list EntitlementStruct) :=
  userEntitlement ← findEntitlementByType UserEntitlement;
  ruleEntitlement ← findEntitlementByType RuleEntitlement;
  Ok (users_struct (truthy_str (fst <$> userEntitlement)) users ++
      rule_struct (truthy_str (fst <$> ruleEntitlement)) ruleData).

(** The last module of a type. *)
Definition module_address (ty : EntitlementModuleType) (modules : list (string * string)) : option string :=
  truthy_str (fst <$> last (List.filter (fun m => bool_decide (moduleType_of m.2 = Some ty)) modules)).

Definition createEntitlementStruct (users : list string) (ruleData : option RuleData) :
    result (list EntitlementStruct) :=
  entitlementModules ← read_getEntitlements R;
  match module_address UserEntitlement entitlementModules, module_address RuleEntitlement entitlementModules with
  | None, _ => Throw (JsError "User entitlement moodule address not found.")
  | _, None => Throw (JsError "Rule entitlement moodule address not found.")
  | user, rule => Ok (users_struct user users ++ rule_struct rule ruleData)
  end.
End Space.

(** ** The registry of nodes (RiverRegistry.ts) *)

Record NodeStruct := {
  node_status : Z;
  node_url : string;
  node_address : string;
}.

(** [if (nodeStatus && node.status != nodeStatus) continue]: a status of 0 is no filter. *)
Definition node_selected (nodeStatus : option Z) (node : NodeStruct) : bool :=
  match truthy_bigint nodeStatus with
  | Some status => node_status node =? status
  | None => true
  end.

(** [getAllNodes] on the registry kept in memory: the answer and the registry after it. *)
Definition getAllNodes (nodeStatus : option Z) (allNodes : list NodeStruct) (registry : gmap string NodeStruct) :
    option (gmap string NodeStruct) * gmap string NodeStruct :=
  match allNodes with
  | [] => (None, registry)
  | _ =>
      let add (m : gmap string NodeStruct) node := <[node_address node := node]> m in
      let selected := List.filter (node_selected nodeStatus) allNodes in
      let registry := foldl add registry selected in
      (Some (if is_defined nodeStatus then foldl add ∅ selected else registry), registry)
  end.

(** [getAllNodeUrls]: the urls and the registry after it. *)
Definition getAllNodeUrls (nodeStatus : option Z) (allNodes : list NodeStruct) (registry : gmap string NodeStruct) :
    option (list string) * gmap string NodeStruct :=
  match allNodes with
  | [] => (None, registry)
  | _ =>
      let selected := List.filter (node_selected nodeStatus) allNodes in
      (Some (map node_url selected),
       foldl (fun m node => <[node_address node := node]> m) registry selected)
  end.

Definition NODE_OPERATIONAL : Z := 2.

(** [urls.join(',')]. *)
Definition join_urls (urls : list string) : string := String.concat "," urls.

Definition getOperationalNodeUrls (allNodes : list NodeStruct) (registry : gmap string NodeStruct) :
    result string * gmap string NodeStruct :=
  let '(nodeUrls, registry) := getAllNodeUrls (Some NODE_OPERATIONAL) allNodes registry in
  (match nodeUrls with
   | None | Some [] => Throw (JsError "No operational nodes found in registry")
   | Some urls => Ok (join_urls urls)
   end, registry).

(** ** The channels of a space on the chain

    contracts/src/spaces/facets/channels: [ChannelService.sol] keeps the channels and
    their roles, [ChannelBase.sol] and [Channels.sol] are called, after a check that the
    sender may modify channels ([Entitled.sol]). A call that reverts throws; [multicall]
    runs its calls in order, and reverts when one does. *)

Module ChannelService.
(** [ChannelStorage.Channel] *)
Record Channel := mkChannel { chn_id : string; chn_disabled : bool; chn_metadata : string }.

(** [ChannelStorage.Layout]: a set is the values it lists, an absent entry is zero. *)
Record Layout := mkLayout {
  channelIds : list string;
  channelById : gmap string Channel;
  rolesByChannelId : gmap string (list Z);
}.
Definition channel_of (l : Layout) (id : string) : Channel := default (mkChannel "" false "") (channelById l !! id).
Definition roles_of (l : Layout) (id : string) : list Z := default [] (rolesByChannelId l !! id).
Definition set_channel (id : string) (c : Channel) (l : Layout) : Layout :=
  mkLayout (channelIds l) (<[id := c]> (channelById l)) (rolesByChannelId l).
Definition set_roles (id : string) (roles : list Z) (l : Layout) : Layout :=
  mkLayout (channelIds l) (channelById l) (<[id := roles]> (rolesByChannelId l)).

Definition revert {A} (error : string) : result A := Throw (JsError error).

Definition checkChannelExists (l : Layout) (channelId : string) : result unit :=
  if negb (bool_decide (channelId ∈ channelIds l)) then revert "ChannelService__ChannelDoesNotExist" else Ok tt.
Definition checkChannelNotDisabled (l : Layout) (channelId : string) : result unit :=
  if chn_disabled (channel_of l channelId) then revert "ChannelService__ChannelDisabled" else Ok tt.

(** [_getChannel] of [ChannelBase.sol] *)
Definition _getChannel (l : Layout) (channelId : string) : result ChannelStruct :=
  checkChannelExists l channelId;;
  let c := channel_of l channelId in
  Ok {| ch_id := channelId; ch_disabled := chn_disabled c; ch_metadata := chn_metadata c; ch_roleIds := roles_of l channelId |}.

Section Facet.
(** The hash of a text, a word; the sets; whether the sender is the owner of the space, whether
    it is paused, and whether the entitlements let the sender modify channels: those of
    the space, or of a channel, which depend on its roles. *)
Context (keccak256 : string -> Z) `{EnumerableSet Z}.
Context (is_owner paused : bool) (isEntitled : Layout -> option string -> bool).

Definition updateChannel (l : Layout) (channelId metadata : string) (disabled : bool) : result Layout :=
  checkChannelExists l channelId;;
  let channelInfo := channel_of l channelId in
  let metadata' :=
    if negb (String.eqb metadata "") && negb (bool_decide (keccak256 metadata = keccak256 (chn_metadata channelInfo)))
    then metadata else chn_metadata channelInfo in
  let disabled' := if negb (Bool.eqb (chn_disabled channelInfo) disabled) then disabled else chn_disabled channelInfo in
  Ok (set_channel channelId (mkChannel (chn_id channelInfo) disabled' metadata') l).

Definition addRoleToChannel (l : Layout) (channelId : string) (roleId : Z) : result Layout :=
  checkChannelExists l channelId;;
  checkChannelNotDisabled l channelId;;
  if bool_decide (roleId ∈ roles_of l channelId) then revert "ChannelService__RoleAlreadyExists"
  else Ok (set_roles channelId (es_add roleId (roles_of l channelId)) l).

Definition removeRoleFromChannel (l : Layout) (channelId : string) (roleId : Z) : result Layout :=
  checkChannelExists l channelId;;
  checkChannelNotDisabled l channelId;;
  if negb (bool_decide (roleId ∈ roles_of l channelId)) then revert "ChannelService__RoleDoesNotExist"
  else Ok (set_roles channelId (es_remove roleId (roles_of l channelId)) l).

Definition _isAllowed (l : Layout) (channelId : option string) : bool :=
  is_owner || (negb paused && isEntitled l channelId).
Definition validate (l : Layout) (channelId : option string) : result unit :=
  if negb (_isAllowed l channelId) then revert "Entitlement__NotAllowed" else Ok tt.

(** The calls of [Channels.sol] *)
Definition exec_channel_call (l : Layout) (c : ContractCall) : result Layout :=
  match c with
  | call_updateChannel channelId metadata disabled =>
      validate l None;; updateChannel l channelId metadata disabled
  | call_addRoleToChannel channelId roleId =>
      validate l (Some channelId);; addRoleToChannel l channelId roleId
  | call_removeRoleFromChannel channelId roleId =>
      validate l (Some channelId);; removeRoleFromChannel l channelId roleId
  end.

Fixpoint multicall (l : Layout) (data : list ContractCall) : result Layout :=
  match data with
  | [] => Ok l
  | c :: data => l ← exec_channel_call l c; multicall l data
  end.

(** *** Sequences of calls *)

Lemma multicall_app l data data' : multicall l (data ++ data') = l' ← multicall l data; multicall l' data'.
Proof.
  revert l. induction data as [|c data IH]; intros l; [done|]. cbn. destruct (exec_channel_call l c); cbn; [apply IH|done].
Qed.

(** Only the roles of the channel have changed. *)
Definition same_but_roles (id : string) (l l' : Layout) : Prop :=
  channelIds l' = channelIds l /\ channelById l' = channelById l
  /\ forall id', id' <> id -> roles_of l' id' = roles_of l id'.

Lemma same_but_roles_set id roles l l' : same_but_roles id (set_roles id roles l) l' -> same_but_roles id l l'.
Proof.
  intros (H1 & H2 & H3). split_and!; [done|done|]. intros id' Hne. rewrite H3 by done.
  unfold roles_of. cbn. by rewrite lookup_insert_ne.
Qed.

Lemma channel_of_set id c l : channel_of (set_channel id c l) id = c.
Proof. unfold channel_of. cbn. by rewrite lookup_insert_eq. Qed.
Lemma channel_of_set_ne id id' c l : id' <> id -> channel_of (set_channel id c l) id' = channel_of l id'.
Proof. intros Hne. unfold channel_of. cbn. by rewrite lookup_insert_ne. Qed.

Lemma roles_of_set id roles l : roles_of (set_roles id roles l) id = roles.
Proof. unfold roles_of. cbn. by rewrite lookup_insert_eq. Qed.

Context `{!EnumerableSetLaws Z} (Hallowed : forall l c, _isAllowed l c = true).

Lemma validate_ok l c : validate l c = Ok tt.
Proof. unfold validate. by rewrite Hallowed. Qed.

Lemma checkChannelExists_ok l id : id ∈ channelIds l -> checkChannelExists l id = Ok tt.
Proof. intros Hid. unfold checkChannelExists. by case_bool_decide. Qed.

(** The two calls on the roles of an enabled channel. *)
Lemma removeRole_ok l id r :
  id ∈ channelIds l -> chn_disabled (channel_of l id) = false -> r ∈ roles_of l id ->
  removeRoleFromChannel l id r = Ok (set_roles id (es_remove r (roles_of l id)) l).
Proof.
  intros Hid Hdis Hr. unfold removeRoleFromChannel, checkChannelNotDisabled. rewrite checkChannelExists_ok, Hdis by done.
  res_simpl. by case_bool_decide.
Qed.
Lemma addRole_ok l id r :
  id ∈ channelIds l -> chn_disabled (channel_of l id) = false -> r ∉ roles_of l id ->
  addRoleToChannel l id r = Ok (set_roles id (es_add r (roles_of l id)) l).
Proof.
  intros Hid Hdis Hr. unfold addRoleToChannel, checkChannelNotDisabled. rewrite checkChannelExists_ok, Hdis by done.
  res_simpl. by case_bool_decide.
Qed.

(** On an enabled channel, roles that are there can be removed, and others added. *)
Lemma multicall_removes id rs l :
  id ∈ channelIds l -> chn_disabled (channel_of l id) = false -> NoDup (roles_of l id) -> NoDup rs ->
  (forall r, r ∈ rs -> r ∈ roles_of l id) ->
  exists l', multicall l (map (call_removeRoleFromChannel id) rs) = Ok l' /\ same_but_roles id l l'
    /\ NoDup (roles_of l' id) /\ forall r, r ∈ roles_of l' id <-> r ∈ roles_of l id /\ r ∉ rs.
Proof.
  intros Hid Hdis Hnd Hrs. revert l Hid Hdis Hnd. induction Hrs as [|r rs Hr Hrs IH]; intros l Hid Hdis Hnd Hin; cbn.
  { exists l. split; [done|]. split; [by split_and!|]. split; [done|]. set_solver. }
  rewrite validate_ok. res_simpl. rewrite removeRole_ok by set_solver. res_simpl.
  set (l1 := set_roles id (es_remove r (roles_of l id)) l).
  assert (Hroles : roles_of l1 id = es_remove r (roles_of l id)) by apply roles_of_set.
  destruct (IH l1) as (l' & Hrun & Hsame & Hnd' & Hel); [done|done|rewrite Hroles; by apply es_remove_NoDup| |].
  { intros x Hx. rewrite Hroles, es_remove_elem by done. split; [set_solver|]. by intros ->. }
  exists l'. split_and!; [done|by eapply same_but_roles_set|done|].
  intros x. rewrite Hel, Hroles, es_remove_elem by done. set_solver.
Qed.

Lemma multicall_adds id rs l :
  id ∈ channelIds l -> chn_disabled (channel_of l id) = false -> NoDup (roles_of l id) -> NoDup rs ->
  (forall r, r ∈ rs -> r ∉ roles_of l id) ->
  exists l', multicall l (map (call_addRoleToChannel id) rs) = Ok l' /\ same_but_roles id l l'
    /\ NoDup (roles_of l' id) /\ forall r, r ∈ roles_of l' id <-> r ∈ roles_of l id \/ r ∈ rs.
Proof.
  intros Hid Hdis Hnd Hrs. revert l Hid Hdis Hnd. induction Hrs as [|r rs Hr Hrs IH]; intros l Hid Hdis Hnd Hin; cbn.
  { exists l. split; [done|]. split; [by split_and!|]. split; [done|]. set_solver. }
  rewrite validate_ok. res_simpl. rewrite addRole_ok by set_solver. res_simpl.
  set (l1 := set_roles id (es_add r (roles_of l id)) l).
  assert (Hroles : roles_of l1 id = es_add r (roles_of l id)) by apply roles_of_set.
  destruct (IH l1) as (l' & Hrun & Hsame & Hnd' & Hel); [done|done|rewrite Hroles; by apply es_add_NoDup| |].
  { intros x Hx. rewrite Hroles, es_add_elem by done. set_solver. }
  exists l'. split_and!; [done|by eapply same_but_roles_set|done|].
  intros x. rewrite Hel, Hroles, es_add_elem by done. set_solver.
Qed.

(** On a disabled channel the first of them reverts. *)
Lemma multicall_disabled id removes adds l :
  id ∈ channelIds l -> chn_disabled (channel_of l id) = true -> removes ++ adds <> [] ->
  multicall l (map (call_removeRoleFromChannel id) removes ++ map (call_addRoleToChannel id) adds)
  = revert "ChannelService__ChannelDisabled".
Proof.
  intros Hid Hdis Hne. destruct removes as [|r removes]; [destruct adds as [|r adds]; [done|]|]; cbn; rewrite validate_ok; cbn.
  all: unfold addRoleToChannel, removeRoleFromChannel, checkChannelNotDisabled; by rewrite checkChannelExists_ok, Hdis by done.
Qed.
End Facet.
End ChannelService.

(** ** Theorems *)

Lemma existsb_Z_elem (x : Z) xs : existsb (Z.eqb x) xs = true <-> x ∈ xs.
Proof.
  rewrite existsb_exists, list_elem_of_In. split; [|intros Hx; exists x; by rewrite Z.eqb_refl].
  intros (y & Hy & ->%Z.eqb_eq). done.
Qed.

Lemma set_has_false xs x : negb (set_has xs x) = true <-> x ∉ xs.
Proof. unfold set_has. rewrite negb_true_iff, <- not_true_iff_false, existsb_Z_elem. done. Qed.

Lemma set_of_spec xs : NoDup (set_of xs) /\ forall x, x ∈ set_of xs <-> x ∈ xs.
Proof.
  unfold set_of. cut (forall acc, NoDup acc -> NoDup (foldl set_add acc xs) /\
    forall x, x ∈ foldl set_add acc xs <-> x ∈ acc \/ x ∈ xs).
  { intros H. destruct (H [] (NoDup_nil_2)) as [H1 H2]. split; [done|]. set_solver. }
  induction xs as [|x xs IH]; intros acc Hacc; simpl; [set_solver|].
  assert (Hadd : NoDup (set_add acc x) /\ forall y, y ∈ set_add acc x <-> y ∈ acc \/ y = x).
  { unfold set_add. destruct (existsb (Z.eqb x) acc) eqn:E.
    - apply existsb_Z_elem in E. set_solver.
    - apply not_true_iff_false in E. rewrite existsb_Z_elem in E. split; [|set_solver].
      apply NoDup_app. split_and!; [done| |apply NoDup_singleton]. intros y Hy ->%list_elem_of_singleton. done. }
  destruct Hadd as [H1 H2]. destruct (IH _ H1) as [H3 H4]. split; [done|]. intros y. rewrite H4, H2. set_solver.
Qed.

Lemma hexId_idem id : hexId (hexId id) = hexId id.
Proof. unfold hexId. destruct (startsWith id "0x") eqn:E; [by rewrite E|]. by destruct id. Qed.

Lemma elem_of_lfilter {A} (f : A -> bool) xs x : x ∈ List.filter f xs <-> x ∈ xs /\ f x = true.
Proof. by rewrite !list_elem_of_In, filter_In. Qed.

Lemma NoDup_lfilter {A} (f : A -> bool) xs : NoDup xs -> NoDup (List.filter f xs).
Proof. rewrite !NoDup_ListNoDup. apply List.NoDup_filter. Qed.

Lemma toNumber_all rs :
  Forall (fun r => 0 <= r <= 9007199254740991) rs -> all_results toNumber rs = Ok rs.
Proof.
  induction 1 as [|r rs Hr _ IH]; [done|]. simpl.
  replace (toNumber r) with (Ok r); [res_simpl; by rewrite IH|].
  unfold toNumber. by destruct (Z.leb_spec (Z.abs r) 9007199254740991); [|lia].
Qed.

(** The roles that are in the one list and not in the other, as the update computes them. *)
Definition roles_missing (xs ys : list Z) : list Z :=
  List.filter (fun r => negb (set_has (set_of ys) r)) (set_of xs).

Lemma roles_missing_spec xs ys :
  NoDup (roles_missing xs ys) /\ forall r, r ∈ roles_missing xs ys <-> r ∈ xs /\ r ∉ ys.
Proof.
  destruct (set_of_spec xs) as [Hnd Hin], (set_of_spec ys) as [_ Hin']. split; [by apply NoDup_lfilter|].
  intros r. unfold roles_missing. by rewrite elem_of_lfilter, set_has_false, Hin, Hin'.
Qed.

(** None is missing either way exactly when the roles are the same. *)
Lemma roles_missing_none xs ys :
  list_to_set xs =@{gset Z} list_to_set ys <-> roles_missing xs ys ++ roles_missing ys xs = [].
Proof.
  destruct (roles_missing_spec xs ys) as [_ H1], (roles_missing_spec ys xs) as [_ H2].
  rewrite (set_eq (C := gset Z)). setoid_rewrite elem_of_list_to_set. split.
  - intros Heq. destruct (roles_missing xs ys ++ _) as [|r rest] eqn:E; [done|].
    assert (Hr : r ∈ roles_missing xs ys ++ roles_missing ys xs) by (rewrite E; left).
    apply elem_of_app in Hr as [[? Hr]%H1|[? Hr]%H2]; exfalso; apply Hr, Heq; done.
  - intros [Er Ea]%app_eq_nil r. specialize (H1 r). specialize (H2 r). rewrite Er in H1. rewrite Ea in H2.
    destruct (decide (r ∈ xs)), (decide (r ∈ ys)); set_solver.
Qed.

Section ChannelUpdate.
Import ChannelService.
Context (keccak256 : string -> Z) `{!EnumerableSet Z, !EnumerableSetLaws Z}.
Context (is_owner paused : bool) (isEntitled : Layout -> option string -> bool).

(** What the update asks for: the roles are these, the flag and the text are set, other
    channels are as they were. *)
Definition channel_updated (params : UpdateChannelParams) (l l' : Layout) : Prop :=
  let id := hexId (uc_channelId params) in
  channelIds l' = channelIds l
  /\ NoDup (roles_of l' id) /\ (forall r, r ∈ roles_of l' id <-> r ∈ uc_roleIds params)
  /\ chn_disabled (channel_of l' id) = default false (uc_disabled params)
  /\ (if String.eqb (uc_channelName params) "" then chn_metadata (channel_of l' id) = chn_metadata (channel_of l id)
      else keccak256 (chn_metadata (channel_of l' id)) = keccak256 (uc_channelName params))
  /\ forall id', id' <> id -> channel_of l' id' = channel_of l id' /\ roles_of l' id' = roles_of l id'.

Lemma updateChannel_run l id metadata disabled :
  id ∈ channelIds l ->
  exists l1, updateChannel keccak256 l id metadata disabled = Ok l1 /\ channelIds l1 = channelIds l
    /\ (forall id', roles_of l1 id' = roles_of l id') /\ chn_disabled (channel_of l1 id) = disabled
    /\ (if String.eqb metadata "" then chn_metadata (channel_of l1 id) = chn_metadata (channel_of l id)
        else keccak256 (chn_metadata (channel_of l1 id)) = keccak256 metadata)
    /\ forall id', id' <> id -> channel_of l1 id' = channel_of l id'.
Proof.
  intros Hid. unfold updateChannel. rewrite checkChannelExists_ok by done. res_simpl.
  eexists. split; [reflexivity|]. rewrite !channel_of_set. cbn [chn_disabled chn_metadata]. split_and!; [done|done| | |].
  - by destruct (chn_disabled (channel_of l id)), disabled.
  - destruct (String.eqb metadata ""); cbn; [done|]. by case_bool_decide.
  - intros id' Hne. by apply channel_of_set_ne.
Qed.

(** The calls an update consists of, read from a channel of the contract. *)
Lemma update_calls R params l info shims :
  let id := hexId (uc_channelId params) in
  read_getChannel R id = _getChannel l id -> _getChannel l id = Ok info ->
  getEntitlementShims R = Ok shims -> Forall (fun r => 0 <= r <= 9007199254740991) (ch_roleIds info) ->
  id ∈ channelIds l /\ ch_roleIds info = roles_of l id
  /\ encodedUpdateChannelData R params =
       Ok (call_updateChannel id (uc_channelName params) (default false (uc_disabled params))
           :: map (call_removeRoleFromChannel id) (roles_missing (roles_of l id) (uc_roleIds params))
           ++ map (call_addRoleToChannel id) (roles_missing (uc_roleIds params) (roles_of l id))).
Proof.
  cbv zeta. set (id := hexId (uc_channelId params)). intros Hread Hget Hshims Hids.
  assert (id ∈ channelIds l /\ ch_roleIds info = roles_of l id) as [Hid Hroles].
  { unfold _getChannel, checkChannelExists in Hget. case_bool_decide; [|done]. by injection Hget as <-. }
  split_and!; [done|done|]. assert (Hidem : hexId id = id) by apply hexId_idem.
  unfold encodedUpdateChannelData, encodeUpdateChannelRoles. fold id. rewrite Hread, Hget. res_simpl. rewrite Hshims. res_simpl.
  rewrite toNumber_all by done. res_simpl. unfold encodeRemoveRolesFromChannel, encodeAddRolesToChannel. by rewrite Hidem, Hroles.
Qed.

(** The changes of the roles, after the update of an enabled channel. *)
Lemma role_calls_run l id wanted :
  (forall l c, _isAllowed is_owner paused isEntitled l c = true) ->
  id ∈ channelIds l -> chn_disabled (channel_of l id) = false -> NoDup (roles_of l id) ->
  exists l', multicall keccak256 is_owner paused isEntitled l
      (map (call_removeRoleFromChannel id) (roles_missing (roles_of l id) wanted)
       ++ map (call_addRoleToChannel id) (roles_missing wanted (roles_of l id))) = Ok l'
    /\ same_but_roles id l l' /\ NoDup (roles_of l' id) /\ forall r, r ∈ roles_of l' id <-> r ∈ wanted.
Proof.
  intros Hall Hid Hdis Hnd. rewrite multicall_app.
  destruct (roles_missing_spec (roles_of l id) wanted) as [Nr Hrem], (roles_missing_spec wanted (roles_of l id)) as [Na Hadd].
  destruct (multicall_removes keccak256 _ _ _ Hall id (roles_missing (roles_of l id) wanted) l)
    as (l2 & -> & (I2 & C2 & O2) & N2 & E2); [done..|by intros r [? _]%Hrem|]. res_simpl.
  destruct (multicall_adds keccak256 _ _ _ Hall id (roles_missing wanted (roles_of l id)) l2)
    as (l3 & -> & (I3 & C3 & O3) & N3 & E3); [by rewrite I2|unfold channel_of; by rewrite C2|done|done| |].
  { intros r [_ Hr]%Hadd [Hr' _]%E2. done. }
  exists l3. split; [done|]. split; [|split; [done|]].
  - split_and!; [by rewrite I3|by rewrite C3|]. intros id' Hne. by rewrite O3, O2.
  - intros r. rewrite E3, E2, Hrem, Hadd. destruct (decide (r ∈ roles_of l id)), (decide (r ∈ wanted)); tauto.
Qed.

(** C39: an update of a channel, read from and sent to the same state of the contract by
    someone who is allowed to modify channels throughout, does what it asks for, or
    reverts as a whole. The channel exists, its role ids and the wanted ones are safe
    integers, which the coder of calls takes, and the modules of the space can be read. If the update leaves the channel enabled, or does not change its
    roles, no call reverts: afterwards the channel has exactly the wanted roles, each once,
    even if the parameters name a role twice; its flag is the wanted one, which is
    enabled by default; its text is the wanted one up to its hash, unless that is empty;
    and other channels are as they were. If the update disables the channel and changes its
    roles, it reverts: the channel is disabled first, and the roles of a disabled channel
    cannot be changed. *)
Theorem channel_roles_updated R params l info shims :
  let id := hexId (uc_channelId params) in
  (forall l c, _isAllowed is_owner paused isEntitled l c = true) ->
  read_getChannel R id = _getChannel l id -> _getChannel l id = Ok info -> NoDup (roles_of l id) ->
  getEntitlementShims R = Ok shims -> Forall (fun r => 0 <= r <= 9007199254740991) (ch_roleIds info) ->
  Forall (fun r => 0 <= r <= 9007199254740991) (uc_roleIds params) ->
  exists calls, encodedUpdateChannelData R params = Ok calls
    /\ if default false (uc_disabled params)
          && negb (bool_decide (list_to_set (ch_roleIds info) =@{gset Z} list_to_set (uc_roleIds params)))
       then multicall keccak256 is_owner paused isEntitled l calls = Throw (JsError "ChannelService__ChannelDisabled")
       else exists l', multicall keccak256 is_owner paused isEntitled l calls = Ok l' /\ channel_updated params l l'.
Proof.
  cbv zeta. intros Hall Hread Hget Hnd Hshims Hids _.
  destruct (update_calls R params l info shims Hread Hget Hshims Hids) as (Hid & -> & Hcalls).
  eexists. split; [exact Hcalls|]. clear Hcalls Hread Hget Hids.
  unfold channel_updated. set (id := hexId (uc_channelId params)) in *.
  cbn [multicall exec_channel_call]. rewrite (validate_ok _ _ _ Hall). res_simpl.
  destruct (updateChannel_run l id (uc_channelName params) (default false (uc_disabled params)) Hid)
    as (l1 & -> & Hids1 & Hroles1 & Hdis1 & Hmeta1 & Hoth1). res_simpl.
  assert (Hid1 : id ∈ channelIds l1) by by rewrite Hids1.
  destruct (default false (uc_disabled params)); cbn [andb].
  - case_bool_decide as Heq; cbn [negb]; [|apply (multicall_disabled _ _ _ _ Hall); [done|done|by rewrite <- roles_missing_none]].
    destruct (app_eq_nil _ _ (proj1 (roles_missing_none _ _) Heq)) as [-> ->]. exists l1. split; [done|].
    rewrite Hroles1. rewrite (set_eq (C := gset Z)) in Heq. setoid_rewrite elem_of_list_to_set in Heq.
    split_and!; [done|done|done|done|done|]. intros id' Hne. by split; [apply Hoth1|].
  - rewrite <- Hroles1. destruct (role_calls_run l1 id (uc_roleIds params)) as (l' & Hrun & (I & C & O) & N & E); [done|done|done|by rewrite Hroles1|].
    exists l'. split; [exact Hrun|]. assert (Hch : forall x, channel_of l' x = channel_of l1 x) by (intros x; unfold channel_of; by rewrite C).
    rewrite Hch. split_and!; [by rewrite I|done|done|done|done|]. intros id' Hne. rewrite Hch, O, Hroles1 by done. by split; [apply Hoth1|].
Qed.
End ChannelUpdate.

(** An evaluation that is settled has answered its rule. *)
Lemma settled_evaluation isAddress balanceOf wallets providers o w :
  world_ok isAddress balanceOf wallets providers -> supported o = true ->
  rtc (step isAddress balanceOf true wallets providers)
    (evaluateTree balanceOf true wallets providers o) (Settled (Ok w)) ->
  answers isAddress balanceOf true wallets providers o w.
Proof.
  intros Hw Ho [n Hn]%rtc_nsteps. eapply nsteps_tracks in Hn as [Ht _]; [|done|by apply start_tracks].
  by eapply settled_answers.
Qed.

Lemma answers_not_zero isAddress balanceOf wallets providers o w :
  answers isAddress balanceOf true wallets providers o w ->
  negb (String.eqb w zeroAddress) = holds balanceOf true wallets providers o.
Proof.
  unfold answers. destruct (holds _ _ _ _ o); [|intros ->; by rewrite String.eqb_refl].
  intros [Hv _]. unfold isValidAddress in Hv. by apply andb_true_iff in Hv as [_ ->].
Qed.

(** The operation of a rule that is evaluated. *)
Definition evaluated_root (rule : option (list RuleData)) (o : Operation) : Prop :=
  exists data ops, rule = Some data /\ ruleDataToOperations data = Ok ops /\ last ops = Some o /\
    supported o = true.

Lemma evaluations_of_roots balanceOf all providers rules roots :
  Forall2 evaluated_root rules roots ->
  all_results (fun ruleData =>
    match ruleData with
    | None => Throw (JsError "Rule data not found")
    | Some ruleData =>
        operations ← ruleDataToOperations ruleData;
        Ok (evaluateOperationsForEntitledWallet balanceOf true all providers operations)
    end) rules = Ok (map (evaluateTree balanceOf true all providers) roots).
Proof.
  induction 1 as [|rule o rules roots (data & ops & -> & Hops & Hlast & _) _ IH]; [done|].
  cbn [all_results map]. rewrite Hops. res_simpl. rewrite IH. res_simpl.
  unfold evaluateOperationsForEntitledWallet. by rewrite Hlast.
Qed.

(** What the wallets of answered rules say. *)
Lemma joining_wallet_answers isAddress balanceOf all providers roots wallets :
  Forall2 (answers isAddress balanceOf true all providers) roots wallets ->
  match joining_wallet wallets with
  | Some w => w ∈ all /\ roots <> [] /\ Forall (fun o => holds balanceOf true all providers o = true) roots
  | None => roots = [] \/ Exists (fun o => holds balanceOf true all providers o = false) roots
  end.
Proof.
  intros Ha. unfold joining_wallet. destruct (forallb _ wallets) eqn:Hall.
  - assert (Hh : Forall (fun o => holds balanceOf true all providers o = true) roots).
    { induction Ha as [|o w os ws Hao _ IH]; [done|]. simpl in Hall.
      apply andb_true_iff in Hall as [H1 H2]. constructor; [|by apply IH].
      by rewrite <- (answers_not_zero _ _ _ _ _ _ Hao). }
    destruct Ha as [|o w os ws Hao _]; simpl; [by left|]. split; [|done].
    inversion Hh as [|? ? Hho _]; subst. unfold answers in Hao. rewrite Hho in Hao.
    by destruct Hao as [_ [|[? _]]].
  - right. induction Ha as [|o w os ws Hao _ IH]; [done|]. simpl in Hall.
    rewrite (answers_not_zero _ _ _ _ _ _ Hao) in Hall.
    destruct (holds _ _ _ _ o) eqn:Hho; [right; by apply IH|by left].
Qed.


Lemma starts_comma c s t : startsWith (String c s) "," = startsWith (String c t) ",".
Proof. unfold startsWith. cbn [String.prefix]. destruct (Ascii.ascii_dec _ c); [by destruct s, t|done]. Qed.

Lemma no_start_comma a b : includes a "," = false -> no_start "," a b = true.
Proof.
  induction a as [|c a IH]; [done|]. cbn [includes no_start]. intros [Hc Ha]%orb_false_iff.
  change (String c a +:+ b) with (String c (a +:+ b)). by rewrite (IH Ha), (starts_comma c _ a), Hc.
Qed.

Lemma split_join_urls urls :
  urls <> [] -> Forall (fun u => includes u "," = false) urls -> split (join_urls urls) "," = urls.
Proof.
  unfold split, join_urls. intros Hne Hall. induction Hall as [|u urls Hu Hall IH]; [done|].
  destruct urls as [|v urls]; [by apply split_loop_none|].
  change (String.concat "," (u :: v :: urls)) with (u +:+ "," +:+ String.concat "," (v :: urls)).
  rewrite split_loop_first; [|done|by apply no_start_comma]. by rewrite IH.
Qed.

(** The registry and the retries of requests agree on the operational nodes: the url of a
    request is still accepted exactly when an operational node has it. *)
Theorem operational_urls_accepted allNodes registry registry' urls url :
  getOperationalNodeUrls allNodes registry = (Ok urls, registry') ->
  Forall (fun node => includes (node_url node) "," = false /\ trim (node_url node) = node_url node) allNodes ->
  isBaseUrlIncluded (split urls ",") url = true <->
  exists node, node ∈ allNodes /\ node_status node = NODE_OPERATIONAL /\ node_url node = url.
Proof.
  intros Hget Hnodes. unfold getOperationalNodeUrls, getAllNodeUrls in Hget.
  destruct allNodes as [|n0 nodes0]; [done|]. set (allNodes := n0 :: nodes0) in *.
  set (sel := List.filter _ allNodes) in *.
  assert (Hsel : forall node, node ∈ sel <-> node ∈ allNodes /\ node_status node = NODE_OPERATIONAL).
  { intros node. unfold sel. rewrite elem_of_lfilter. unfold node_selected. simpl. by rewrite Z.eqb_eq. }
  rewrite Forall_forall in Hnodes.
  assert (Hurls : urls = join_urls (map node_url sel) /\ map node_url sel <> []).
  { destruct (map node_url sel); [done|]. by injection Hget as <- _. }
  destruct Hurls as [-> Hne]. rewrite split_join_urls; [|done|].
  2:{ apply Forall_map, Forall_forall. intros node Hn. by apply Hnodes, Hsel. }
  unfold isBaseUrlIncluded. rewrite existsb_exists. split.
  - intros (u & Hu & Heq%String.eqb_eq). apply in_map_iff in Hu as (node & <- & Hin%list_elem_of_In).
    apply Hsel in Hin as [Hin Hst]. exists node. destruct (Hnodes node Hin) as [_ Ht]. by rewrite Heq, Ht.
  - intros (node & Hin & Hst & <-). exists (node_url node). split.
    + apply in_map, list_elem_of_In, Hsel. done.
    + destruct (Hnodes node Hin) as [_ ->]. apply String.eqb_refl.
Qed.

Lemma all_results_app {A B} (f : A -> result B) xs x ys y :
  all_results f xs = Ok ys -> f x = Ok y -> all_results f (xs ++ [x]) = Ok (ys ++ [y]).
Proof.
  revert ys. induction xs as [|x' xs IH]; intros ys; simpl.
  - intros [= <-] ->. done.
  - intros H Hx. split_Ok H. injection H as <-. rewrite Ha. res_simpl. by rewrite (IH _ Ha0 Hx).
Qed.

(** The empty list of users of a role is not seen as users but taken for its rule: when the
    module of the users comes last, the rule that the role has is lost. *)
Theorem no_users_taken_for_rule R roleId shims user answered :
  all_results (getRoleEntitlement R roleId) shims = Ok answered ->
  getRoleEntitlement R roleId user = Ok (Users []) ->
  exists users, getEntitlementDetails R (shims ++ [user]) roleId =
    Ok {| ed_users := users; ed_ruleData := EmptyArray |}.
Proof.
  intros H1 H2. unfold getEntitlementDetails. rewrite (all_results_app _ _ _ _ _ H1 H2). res_simpl.
  rewrite foldl_app. simpl. destruct (foldl _ _ answered) as [users rule]. by exists users.
Qed.

(** ** Witnesses *)

Definition demo_rule (address : string) : RuleData :=
  match treeToRuleData (Check (demo_check address)) with Ok d => d | Throw _ => empty_rule end.

(** A space whose channel has the roles 1 and 2, with one rule for joining. *)
Definition demo_reads : SpaceReads := {|
  read_getChannel _ := Ok {| ch_id := "0xc"; ch_disabled := false; ch_metadata := "general"; ch_roleIds := [1; 2] |};
  read_getChannels := Ok []; read_getRoleById _ := Throw (JsError "none"); read_getRoles := Ok [];
  read_getEntitlements := Ok [("0xu", "UserEntitlement"); ("0xr", "RuleEntitlement")];
  read_getEntitlement a := if String.eqb a "0xu" then Ok "UserEntitlement" else Ok "RuleEntitlement";
  read_userEntitlement _ _ := Ok []; read_getRuleData _ _ := Ok empty_rule;
  read_getEntitlementDataByPermission _ := Ok [{| ent_type := "RuleEntitlement"; ent_data := [] |}];
  abi_decodeRuleData _ := Ok [demo_rule "a"]; abi_decodeAddresses _ := Ok [];
  json_parseMetadata _ := None |}.

(** The state of the contract these reads are of. *)
Definition demo_layout : ChannelService.Layout :=
  ChannelService.mkLayout ["0xc"] {["0xc" := ChannelService.mkChannel "0xc" false "general"]} {["0xc" := [1; 2]]}.
Definition demo_update (disabled : bool) : UpdateChannelParams :=
  {| uc_channelId := "c"; uc_channelName := "renamed"; uc_roleIds := [2; 3; 3]; uc_disabled := Some disabled |}.

Definition demo_keccak (s : string) : Z := Zpos (encode s).

Lemma channel_roles_updated_witness :
  exists calls l', encodedUpdateChannelData demo_reads (demo_update false) = Ok calls
    /\ ChannelService.multicall demo_keccak true false (fun _ _ => false) demo_layout calls = Ok l'
    /\ channel_updated demo_keccak (demo_update false) demo_layout l'.
Proof.
  destruct (channel_roles_updated demo_keccak true false (fun _ _ => false) demo_reads (demo_update false) demo_layout
    {| ch_id := "0xc"; ch_disabled := false; ch_metadata := "general"; ch_roleIds := [1; 2] |}
    [("0xu", UserEntitlement); ("0xr", RuleEntitlement)]) as (calls & Hc & l' & Hl & Hu).
  - reflexivity.
  - reflexivity.
  - reflexivity.
  - apply (bool_decide_unpack _). vm_compute. done.
  - reflexivity.
  - repeat constructor; lia.
  - repeat constructor; lia.
  - exists calls, l'. split; [exact Hc|]. split; [exact Hl|exact Hu].
Defined.

(** An update that disables the channel and changes its roles reverts. *)
Example disabling_update_reverts :
  (calls ← encodedUpdateChannelData demo_reads (demo_update true);
   ChannelService.multicall demo_keccak true false (fun _ _ => false) demo_layout calls)
  = Throw (JsError "ChannelService__ChannelDisabled").
Proof. vm_compute. reflexivity. Qed.

(** A sender who may modify the channel because of role 1 replaces it by role 3, which
    would let them too: role 1 is removed first, and then the sender may not add role 3. *)
Example own_role_replaced_reverts :
  (calls ← encodedUpdateChannelData demo_reads (demo_update false);
   ChannelService.multicall demo_keccak false false
     (fun l c => match c with
                 | None => true
                 | Some id => existsb (fun r => (r =? 1) || (r =? 3)) (ChannelService.roles_of l id)
                 end) demo_layout calls)
  = Throw (JsError "Entitlement__NotAllowed").
Proof. vm_compute. reflexivity. Qed.


(** ** The cache of entitlement modules *)

Section Cache.
Context (R : SpaceReads).

(** The cache says what the contract says. *)
Definition cache_correct (cache : jsmap EntitlementModuleType) : Prop :=
  forall address ty, jm_get address cache = Some ty -> getEntitlementByAddress R address = Ok (address, ty).

(** A series of look-ups that share the cache. *)
Fixpoint lookups (addresses : list string) (cache : jsmap EntitlementModuleType) : list (result (string * EntitlementModuleType)) :=
  match addresses with
  | [] => []
  | a :: addresses => let '(r, cache) := getEntitlementByAddress_cached R a cache in r :: lookups addresses cache
  end.

Lemma getEntitlementByAddress_address a shim : getEntitlementByAddress R a = Ok shim -> shim.1 = a.
Proof.
  unfold getEntitlementByAddress. intros Hs. split_Ok Hs. destruct (moduleType_of _); [|done]. by injection Hs as <-.
Qed.

Lemma cached_lookup a cache : cache_correct cache ->
  (getEntitlementByAddress_cached R a cache).1 = getEntitlementByAddress R a
  /\ cache_correct (getEntitlementByAddress_cached R a cache).2.
Proof.
  intros Hc. unfold getEntitlementByAddress_cached. destruct (jm_get a cache) as [ty|] eqn:Hg; [by rewrite (Hc _ _ Hg)|].
  destruct (getEntitlementByAddress R a) as [[a' ty]|e] eqn:Ha; [|done]. split; [done|].
  intros b ty'. cbn. rewrite jm_get_set. case_decide as Hb; [|apply Hc]. intros [= <-]. subst b.
  pose proof (getEntitlementByAddress_address _ _ Ha) as Heq. cbn in Heq. by subst a'.
Qed.

(** The cache changes no answer: as long as the contract answers the same, look-ups that
    share a cache, empty at first, give what look-ups without one give. *)
Theorem cache_transparent addresses : lookups addresses [] = map (getEntitlementByAddress R) addresses.
Proof.
  assert (Hg : forall cache, cache_correct cache -> lookups addresses cache = map (getEntitlementByAddress R) addresses);
    [|by apply Hg].
  induction addresses as [|a l IH]; intros cache Hc; cbn [lookups map]; [done|].
  destruct (cached_lookup a cache Hc) as [H1 H2]. destruct (getEntitlementByAddress_cached R a cache) as [r cache'].
  cbn in *. by rewrite H1, IH.
Qed.
End Cache.
