(* ===== verification/CryptoStore.v ===== *)
(** * The crypto store (core/encryption/src/cryptoStore.ts, storeTypes.ts)

    A Dexie database of four tables. A table is a finite map from its primary key to
    its rows; [toArray] lists rows in the order of the primary key. The methods run on
    the store inside the state of whoever owns it; [withAccountTx] and
    [withGroupSessions] are Dexie's read-write transactions: the tables they name go
    back to what they were when the callback throws. *)

From S2P Require Import Prelude Types.

Record AccountRecord := mkAccountRecord { ar_id : string; ar_accountPickle : string }.

Record GroupSessionRecord := mkGroupSessionRecord {
  gsr_sessionId : string;
  gsr_session : string;
  gsr_streamId : string;
}.

Record UserDeviceRecord := mkUserDeviceRecord {
  udr_userId : string;
  udr_deviceKey : string;
  udr_fallbackKey : string;
  udr_expirationTimestamp : Z;
}.

(** The data kept about an inbound group session; [igs_session] is its pickle. *)
Record InboundGroupSessionData := mkInboundGroupSessionData {
  igs_stream_id : string;
  igs_session : string;
  igs_keysClaimed : jsmap string;
  igs_untrusted : option bool;
}.

Record CryptoStore := mkCryptoStore {
  account : gmap string AccountRecord;
  outboundGroupSessions : gmap string GroupSessionRecord;
  inboundGroupSessions : gmap (string * string) InboundGroupSessionData;
  devices : gmap (string * string) UserDeviceRecord;
  userId : string;
}.

Definition set_account (f : gmap string AccountRecord -> gmap string AccountRecord) (s : CryptoStore) : CryptoStore :=
  mkCryptoStore (f (account s)) (outboundGroupSessions s) (inboundGroupSessions s) (devices s) (userId s).
Definition set_outbound (f : gmap string GroupSessionRecord -> gmap string GroupSessionRecord) (s : CryptoStore) : CryptoStore :=
  mkCryptoStore (account s) (f (outboundGroupSessions s)) (inboundGroupSessions s) (devices s) (userId s).
Definition set_inbound (f : gmap (string * string) InboundGroupSessionData -> gmap (string * string) InboundGroupSessionData)
    (s : CryptoStore) : CryptoStore :=
  mkCryptoStore (account s) (outboundGroupSessions s) (f (inboundGroupSessions s)) (devices s) (userId s).
Definition set_devices (f : gmap (string * string) UserDeviceRecord -> gmap (string * string) UserDeviceRecord)
    (s : CryptoStore) : CryptoStore :=
  mkCryptoStore (account s) (outboundGroupSessions s) (inboundGroupSessions s) (f (devices s)) (userId s).

Definition DEFAULT_USER_DEVICE_EXPIRATION_TIME_MS : Z := 15 * 60 * 1000.

(** [new CryptoStore(databaseName, userId)] on a database with no rows. *)
Definition new_CryptoStore (userId : string) : CryptoStore := mkCryptoStore ∅ ∅ ∅ ∅ userId.

Section CryptoStore.
Context {E : Type} (now : Z).
Abbreviation StoreM := (JS E CryptoStore).

(** The rows [table.where('expirationTimestamp').below(now)] are deleted. *)
Definition initialize : StoreM unit :=
  js_modify (set_devices (filter (fun kv => ~ udr_expirationTimestamp kv.2 < now))).

Definition deleteAllData : StoreM unit := js_throw (JsError "Method not implemented.").

Definition deleteInboundGroupSessions (streamId sessionId : string) : StoreM unit :=
  js_modify (set_inbound (delete (streamId, sessionId))).

Definition deleteAccount (userId : string) : StoreM unit := js_modify (set_account (delete userId)).

Definition getAccount : StoreM string :=
  self ← js_get;
  match account self !! userId self with
  | None => js_throw (JsError "account not found")
  | Some account => mret (ar_accountPickle account)
  end.

Definition storeAccount (accountPickle : string) : StoreM unit :=
  js_modify (fun self => set_account <[userId self := mkAccountRecord (userId self) accountPickle]> self).

Definition storeEndToEndOutboundGroupSession (sessionId sessionData streamId : string) : StoreM unit :=
  js_modify (set_outbound <[streamId := mkGroupSessionRecord sessionId sessionData streamId]>).

Definition getEndToEndOutboundGroupSession (streamId : string) : StoreM string :=
  self ← js_get;
  match outboundGroupSessions self !! streamId with
  | None => js_throw (JsError "session not found")
  | Some session => mret (gsr_session session)
  end.

Definition getEndToEndInboundGroupSession (streamId sessionId : string) : StoreM (option InboundGroupSessionData) :=
  self ← js_get;
  mret (inboundGroupSessions self !! (streamId, sessionId)).

Definition storeEndToEndInboundGroupSession (streamId sessionId : string) (sessionData : InboundGroupSessionData) : StoreM unit :=
  js_modify (set_inbound <[(streamId, sessionId) := sessionData]>).

Definition getInboundGroupSessionIds (streamId : string) : StoreM (list string) :=
  self ← js_get;
  mret (js_sort String.leb
          (map (fun kv => kv.1.2) (map_to_list (filter (fun kv => kv.1.1 = streamId) (inboundGroupSessions self))))).

Definition deviceRecordCount : StoreM Z :=
  self ← js_get;
  mret (Z.of_nat (size (devices self))).

Definition saveUserDevices (userId : string) (userDevices : list UserDevice) (expirationMs : Z) : StoreM unit :=
  let expirationTimestamp := now + expirationMs in
  js_for userDevices (fun device =>
    js_modify (set_devices <[(userId, ud_deviceKey device) :=
      mkUserDeviceRecord userId (ud_deviceKey device) (ud_fallbackKey device) expirationTimestamp]>)).

Definition getUserDevices (userId : string) : StoreM (list UserDevice) :=
  self ← js_get;
  let records := js_sort (fun a b => String.leb (udr_deviceKey a) (udr_deviceKey b))
    (map snd (map_to_list (filter (fun kv => kv.1.1 = userId /\ now < udr_expirationTimestamp kv.2) (devices self)))) in
  mret (map (fun record => mkUserDevice (udr_deviceKey record) (udr_fallbackKey record)) records).
End CryptoStore.

(** ** Transactions *)
Section Transactions.
Context {E S : Type} (l : lens S CryptoStore).

Definition withAccountTx {A} (fn : JS E S A) : JS E S A := fun s =>
  match fn s with
  | Outcome (Throw e) s1 w => Outcome (Throw e) (update l (set_account (fun _ => account (view l s)) (view l s1)) s1) w
  | ok => ok
  end.

Definition withGroupSessions {A} (fn : JS E S A) : JS E S A := fun s =>
  match fn s with
  | Outcome (Throw e) s1 w =>
      Outcome (Throw e)
        (update l (set_outbound (fun _ => outboundGroupSessions (view l s))
                    (set_inbound (fun _ => inboundGroupSessions (view l s)) (view l s1))) s1) w
  | ok => ok
  end.
End Transactions.

(** ** Stored devices *)

(** A row's key is made of its fields. *)
Definition devices_keyed (s : CryptoStore) : Prop :=
  forall k r, devices s !! k = Some r -> k = (udr_userId r, udr_deviceKey r).

Section Devices.
Context {E : Type}.
Implicit Types (s : CryptoStore).

(** The device of a user that a store would return at time [now]. *)
Definition stored_device (now : Z) (userId : string) (d : UserDevice) s : Prop :=
  exists r, devices s !! (userId, ud_deviceKey d) = Some r /\ udr_fallbackKey r = ud_fallbackKey d
    /\ now < udr_expirationTimestamp r.

Lemma getUserDevices_elem now uid s ds d :
  devices_keyed s -> res ((getUserDevices now uid : JS E _ _) s) = Ok ds ->
  d ∈ ds <-> stored_device now uid d s.
Proof.
  intros Hk Hds. unfold getUserDevices in Hds. js_unfold. simpl in Hds. injection Hds as <-.
  rewrite list_elem_of_In, in_map_iff. setoid_rewrite <- list_elem_of_In.
  setoid_rewrite js_sort_elem. setoid_rewrite list_elem_of_In. setoid_rewrite in_map_iff.
  setoid_rewrite <- list_elem_of_In.
  split.
  - intros (r & <- & ([k r'] & Hr & Hin)). simpl in Hr. subst r'.
    apply elem_of_map_to_list, map_lookup_filter_Some in Hin as [Hin [Hu Hn]]. simpl in *.
    pose proof (Hk _ _ Hin) as ->. simpl in Hu. subst uid. exists r. by simpl.
  - intros (r & Hr & Hf & Hn). exists r. pose proof (Hk _ _ Hr) as Heq. injection Heq as Hu Hd.
    split; [destruct d; simpl in *; congruence|].
    exists ((uid, ud_deviceKey d), r). split; [done|].
    apply elem_of_map_to_list, map_lookup_filter_Some. by simpl.
Qed.

Lemma saveUserDevices_keyed now uid ds ms : preserves devices_keyed (saveUserDevices now uid ds ms : JS E _ _).
Proof.
  apply preserves_for. intros d _. apply preserves_modify. intros s Hk k r.
  simpl. rewrite lookup_insert_Some. intros [[<- <-]|[_ Hr]]; [done|eauto].
Qed.

Lemma initialize_keyed now : preserves devices_keyed (initialize now : JS E _ _).
Proof.
  apply preserves_modify. intros s Hk k r. simpl. rewrite map_lookup_filter_Some. intros [Hr _]. eauto.
Qed.

(** The row a save leaves for a device key: the last of the list with that key. *)
Lemma saveUserDevices_lookup now uid ds ms s k :
  devices (post ((saveUserDevices now uid ds ms : JS E _ _) s)) !! k =
  match (if decide (k.1 = uid) then last (filter (fun d => ud_deviceKey d = k.2) ds) else None) with
  | Some d => Some (mkUserDeviceRecord uid (ud_deviceKey d) (ud_fallbackKey d) (now + ms))
  | None => devices s !! k
  end.
Proof.
  unfold saveUserDevices. revert s. induction ds as [|d ds IH]; intros s.
  - simpl. by destruct (decide _).
  - simpl js_for. js_unfold. simpl. specialize (IH (set_devices <[(uid, ud_deviceKey d) :=
      mkUserDeviceRecord uid (ud_deviceKey d) (ud_fallbackKey d) (now + ms)]> s)).
    destruct (js_for ds _ _) as [r s1 w]. simpl in *. rewrite IH. clear IH.
    destruct k as [ku kd]; simpl. destruct (decide (ku = uid)) as [->|Hu].
    + rewrite filter_cons. destruct (decide (ud_deviceKey d = kd)) as [<-|Hd].
      * rewrite last_cons. destruct (last _); [done|]. by rewrite lookup_insert_eq.
      * destruct (last _); [done|]. rewrite lookup_insert_ne; [done|congruence].
    + rewrite lookup_insert_ne; [done|congruence].
Qed.
End Devices.

(** With distinct device keys, the last of the list with a key is the one with it. *)
Lemma last_with_key k (ds : list UserDevice) :
  NoDup (map ud_deviceKey ds) ->
  match last (filter (fun d => ud_deviceKey d = k) ds) with
  | Some d => d ∈ ds /\ ud_deviceKey d = k /\ (forall d', d' ∈ ds -> ud_deviceKey d' = k -> d' = d)
  | None => k ∉ map ud_deviceKey ds
  end.
Proof.
  induction ds as [|d ds IH]; intros Hnd; [apply not_elem_of_nil|]. simpl in Hnd.
  apply NoDup_cons in Hnd as [Hd Hnd]. specialize (IH Hnd). rewrite filter_cons.
  destruct (decide (ud_deviceKey d = k)) as [<-|Hne].
  - rewrite last_cons. destruct (last _) as [e|] eqn:He.
    + destruct IH as (Hin & Hk & _). destruct Hd. rewrite <- Hk.
      by apply list_elem_of_In, in_map, list_elem_of_In.
    + split_and!; [left|done|]. intros d' [->|Hin]%elem_of_cons Hk; [done|]. destruct Hd. rewrite <- Hk.
      by apply list_elem_of_In, in_map, list_elem_of_In.
  - destruct (last _) as [e|].
    + destruct IH as (Hin & Hk & Hu). split_and!; [by right|done|]. intros d' [->|Hin']%elem_of_cons Hk'; [done|]. auto.
    + simpl. intros [->|Hin]%elem_of_cons; done.
Qed.

(** The cache of device keys: devices saved for a user are returned until the
    moment they expire and not after; saving replaces the entries of the same device
    keys and leaves the user's other unexpired devices to be returned as before. *)
Theorem saved_devices_returned {E} now t uid ds ms s :
  devices_keyed s -> NoDup (map ud_deviceKey ds) ->
  exists out, res ((getUserDevices t uid : JS E _ _) (post ((saveUserDevices now uid ds ms : JS E _ _) s))) = Ok out
    /\ forall d, d ∈ out <-> (d ∈ ds /\ t < now + ms) \/ ((ud_deviceKey d ∉ map ud_deviceKey ds) /\ stored_device t uid d s).
Proof.
  intros Hk Hnd. eexists. split; [reflexivity|]. intros d.
  rewrite (getUserDevices_elem (E := E) t uid (post ((saveUserDevices now uid ds ms : JS E _ _) s)))
    by (reflexivity || by apply saveUserDevices_keyed).
  unfold stored_device. setoid_rewrite (saveUserDevices_lookup (E := E)). simpl. rewrite decide_True by done.
  pose proof (last_with_key (ud_deviceKey d) ds Hnd) as Hlast. destruct (last _) as [e|].
  - destruct Hlast as (Hin & Hke & Hu). split.
    + intros (r & [= <-] & Hf & Ht). simpl in *. left. split; [|done].
      replace d with e; [done|]. destruct d, e; simpl in *; congruence.
    + intros [[Hd Ht]|[Hno _]].
      * rewrite (Hu d Hd eq_refl) in *. eexists. split; [done|]. done.
      * destruct Hno. rewrite <- Hke. by apply list_elem_of_In, in_map, list_elem_of_In.
  - split.
    + intros (r & Hr & Hf & Ht). right. split; [done|]. by exists r.
    + intros [[Hd _]|[_ Hs]]; [|done]. destruct Hlast. by apply list_elem_of_In, in_map, list_elem_of_In.
Qed.

Lemma saved_devices_returned_witness :
  let ds := [mkUserDevice "d1" "f1"; mkUserDevice "d2" "f2"] in
  exists out, res ((getUserDevices 5 "alice" : JS unit _ _) (post ((saveUserDevices 0 "alice" ds 10 : JS unit _ _) (new_CryptoStore "me")))) = Ok out
    /\ forall d, d ∈ out <-> (d ∈ ds /\ 5 < 0 + 10)
         \/ ((ud_deviceKey d ∉ map ud_deviceKey ds) /\ stored_device 5 "alice" d (new_CryptoStore "me")).
Proof.
  intros ds. apply (saved_devices_returned 0 5 "alice" ds 10 (new_CryptoStore "me")).
  - by intros k r.
  - apply NoDup_cons. split; [vm_compute; set_solver|apply NoDup_singleton].
Defined.
