(* ===== verification/Olm.v ===== *)
(** * The Olm library (@matrix-org/olm), as the encryption device uses it

    The library is not part of the repository. [Olm] has the operations
    core/encryption/src/encryptionDevice.ts calls on the library's objects, with the
    random numbers a call draws as an argument and the objects' state explicit;
    [OlmLaws] states what its documentation promises and the device relies on. The
    texts [identity_keys()] and [unpublished_fallback_key()] return are given as the
    objects they are parsed into. [ToyOlm] is a small instance, for witnesses. *)

From Stdlib Require Import Ascii.
From S2P Require Import Prelude.

(** [{ curve25519, ed25519 }]. *)
Record IdentityKeys := mkIdentityKeys { ik_curve25519 : string; ik_ed25519 : string }.

Class Olm := {
  Account : Type;
  OutboundGroupSession : Type;
  InboundGroupSession : Type;
  Session : Type;
  (* the library itself: [Olm.init()], and whether [get_library_version] is a function after it *)
  olm_init : result unit;
  has_library_version : bool;
  (* Account *)
  account_create : nat -> Account;
  account_pickle : string -> Account -> string;
  account_unpickle : string -> string -> result Account;
  identity_keys : Account -> IdentityKeys;
  (** the object under [curve25519]: key ids to keys *)
  unpublished_fallback_key : Account -> jsmap string;
  generate_fallback_key : nat -> Account -> Account;
  forget_old_fallback_key : Account -> Account;
  mark_keys_as_published : Account -> Account;
  account_sign : Account -> string -> string;
  (* OutboundGroupSession *)
  out_create : nat -> OutboundGroupSession;
  out_pickle : string -> OutboundGroupSession -> string;
  out_unpickle : string -> string -> result OutboundGroupSession;
  session_id : OutboundGroupSession -> string;
  session_key : OutboundGroupSession -> string;
  message_index : OutboundGroupSession -> Z;
  out_encrypt : OutboundGroupSession -> string -> string * OutboundGroupSession;
  (* InboundGroupSession *)
  in_create : string -> result InboundGroupSession;
  import_session : string -> result InboundGroupSession;
  in_pickle : string -> InboundGroupSession -> string;
  in_unpickle : string -> string -> result InboundGroupSession;
  in_session_id : InboundGroupSession -> string;
  first_known_index : InboundGroupSession -> Z;
  export_session : InboundGroupSession -> Z -> result string;
  in_decrypt : InboundGroupSession -> string -> result string;
  (* Session *)
  create_outbound : nat -> Account -> string -> string -> result Session;
  encrypt : Session -> string -> Z * string;
  create_inbound_from : Account -> string -> string -> result (Session * Account);
  decrypt : Session -> Z -> string -> result string;
  (* Utility *)
  ed25519_verify : string -> string -> string -> result unit;
}.

(** [curve25519 key of the account], and the fallback keys it answers to. *)
Definition curve25519 `{Olm} (a : Account) : string := ik_curve25519 (identity_keys a).

Class OlmLaws `{Olm} := {
  olm_init_ok : olm_init = Ok tt;
  has_library_version_ok : has_library_version = true;
  account_unpickle_pickle k a : account_unpickle k (account_pickle k a) = Ok a;
  out_unpickle_pickle k o : out_unpickle k (out_pickle k o) = Ok o;
  in_unpickle_pickle k i : in_unpickle k (in_pickle k i) = Ok i;
  out_pickle_nonempty k o : out_pickle k o <> "";
  (* keys, session ids and ciphertexts are non-empty base64 texts *)
  curve25519_nonempty a : curve25519 a <> "";
  session_id_nonempty o : session_id o <> "";
  ciphertext_nonempty o m : (out_encrypt o m).1 <> "";
  (* the identity of an account is fixed; a generated fallback key is there *)
  identity_keys_generate n a : identity_keys (generate_fallback_key n a) = identity_keys a;
  generated_fallback_key n a : exists keyId key, keyId <> "" /\ key <> ""
    /\ unpublished_fallback_key (generate_fallback_key n a) = [(keyId, key)];
  (* a group session's ratchet: [follows i o] when [i] has the ratchet of [o] from
     [o]'s present index or an earlier one *)
  follows : InboundGroupSession -> OutboundGroupSession -> Prop;
  out_create_index n : message_index (out_create n) = 0;
  session_id_encrypt o m : session_id (out_encrypt o m).2 = session_id o;
  follows_encrypt i o m : follows i o -> follows i (out_encrypt o m).2;
  follows_decrypt i o m : follows i o -> in_decrypt i (out_encrypt o m).1 = Ok m;
  first_known_index_nonneg i : 0 <= first_known_index i;
  in_create_session_key o : exists i, in_create (session_key o) = Ok i
    /\ in_session_id i = session_id o /\ first_known_index i = message_index o /\ follows i o;
  (* an exported session can be imported and has the same ratchet from that index *)
  export_import i : exists key i', export_session i (first_known_index i) = Ok key
    /\ import_session key = Ok i' /\ in_session_id i' = in_session_id i
    /\ first_known_index i' = first_known_index i /\ (forall o, follows i o -> follows i' o);
  (* the first message of a session made with the keys of an account is a pre-key
     message that account reads *)
  pre_key_message n a b keyId fallbackKey rest m :
    unpublished_fallback_key b = (keyId, fallbackKey) :: rest ->
    exists s body s' b', create_outbound n a (curve25519 b) fallbackKey = Ok s
      /\ encrypt s m = (0, body)
      /\ create_inbound_from b (curve25519 a) body = Ok (s', b') /\ decrypt s' 0 body = Ok m
      /\ identity_keys b' = identity_keys b
      /\ unpublished_fallback_key b' = unpublished_fallback_key b;
}.

(** ** A toy instance

    Objects are tuples of numbers and strings, written as texts of binary digits. *)
Fixpoint pos_text (p : positive) : string :=
  match p with
  | xH => "!"
  | xO p => String "0"%char (pos_text p)
  | xI p => String "1"%char (pos_text p)
  end.

Fixpoint text_pos (s : string) : option positive :=
  match s with
  | String "!"%char EmptyString => Some xH
  | String "0"%char s => xO <$> text_pos s
  | String "1"%char s => xI <$> text_pos s
  | _ => None
  end.

Lemma text_pos_text p : text_pos (pos_text p) = Some p.
Proof. induction p as [p IH|p IH|]; simpl; rewrite ?IH; done. Qed.

Definition to_text {A} `{Countable A} (a : A) : string := pos_text (encode a).
Definition of_text {A} `{Countable A} (s : string) : result A :=
  match text_pos s ≫= decode with
  | Some a => Ok a
  | None => Throw (JsError "OLM.BAD_FORMAT")
  end.

Lemma of_to_text {A} `{Countable A} (a : A) : of_text (to_text a) = Ok a.
Proof. unfold of_text, to_text. by rewrite text_pos_text; simpl; rewrite decode_encode. Qed.

Lemma to_text_nonempty {A} `{Countable A} (a : A) : to_text a <> "".
Proof. unfold to_text. by destruct (encode a). Qed.

(** An account is a seed and its fallback key, if one is generated; a group session a
    seed and an index; a message carries the index, a session the keys it is between. *)
#[global] Instance ToyOlm : Olm := {|
  Account := nat * option nat;
  OutboundGroupSession := nat * nat;
  InboundGroupSession := nat * nat;
  Session := string * string * string;
  olm_init := Ok tt;
  has_library_version := true;
  account_create n := (n, None);
  account_pickle _ a := to_text a;
  account_unpickle _ s := of_text s;
  identity_keys a := mkIdentityKeys (to_text a.1) ("ed" +:+ to_text a.1);
  unpublished_fallback_key a := match a.2 with Some n => [("1", to_text n)] | None => [] end;
  generate_fallback_key n a := (a.1, Some n);
  forget_old_fallback_key a := a;
  mark_keys_as_published a := (a.1, None);
  account_sign a m := to_text (a.1, m);
  out_create n := (n, 0%nat);
  out_pickle _ o := to_text o;
  out_unpickle _ s := of_text s;
  session_id o := to_text o.1;
  session_key o := "key" +:+ to_text o;
  message_index o := Z.of_nat o.2;
  out_encrypt o m := (to_text (o, m), (o.1, S o.2));
  in_create k := if startsWith k "key" then of_text (slice_from 3 k) else Throw (JsError "OLM.BAD_SESSION_KEY");
  import_session k := of_text k;
  in_pickle _ i := to_text i;
  in_unpickle _ s := of_text s;
  in_session_id i := to_text i.1;
  first_known_index i := Z.of_nat i.2;
  export_session i n := if n <? Z.of_nat i.2 then Throw (JsError "OLM.UNKNOWN_MESSAGE_INDEX") else Ok (to_text (i.1, Z.to_nat n));
  in_decrypt i c :=
    x ← of_text (A := nat * nat * string) c;
    if decide (x.1.1 = i.1 /\ (i.2 <= x.1.2)%nat) then Ok x.2 else Throw (JsError "OLM.UNKNOWN_MESSAGE_INDEX");
  create_outbound _ a theirs fallbackKey := Ok (to_text a.1, theirs, fallbackKey);
  encrypt s m := (0, to_text (s, m));
  create_inbound_from a theirs c :=
    x ← of_text (A := string * string * string * string) c;
    if decide (x.1 = (theirs, to_text a.1, match a.2 with Some n => to_text n | None => "" end))
    then Ok (x.1, a) else Throw (JsError "OLM.BAD_MESSAGE_KEY_ID");
  decrypt s _ c :=
    x ← of_text (A := string * string * string * string) c;
    if decide (x.1 = s) then Ok x.2 else Throw (JsError "OLM.BAD_MESSAGE_MAC");
  ed25519_verify _ _ _ := Ok tt;
|}.

#[global] Instance ToyOlmLaws : OlmLaws.
Proof.
  refine {| follows (i o : @InboundGroupSession ToyOlm) := (i.1 = o.1 /\ (i.2 <= o.2)%nat) |};
    cbn -[to_text of_text startsWith slice_from Z.ltb]; intros;
    rewrite ?of_to_text; try done; try apply to_text_nonempty; try lia.
  - exists "1", (to_text n). split_and!; try done. apply to_text_nonempty.
  - res_simpl. case_decide as Hd; [done|]. destruct Hd. simpl. naive_solver.
  - exists o. rewrite startsWith_app. change 3%nat with (String.length "key"). by rewrite slice_from_app, of_to_text.
  - exists (to_text i), i. by rewrite Z.ltb_irrefl, Nat2Z.id, <- surjective_pairing, of_to_text.
  - destruct b as [b [f|]]; simpl in *; simplify_eq.
    set (s := (to_text a.1, to_text b, to_text f)).
    exists s, (to_text (s, m)), s, (b, Some f). rewrite of_to_text. res_simpl.
    rewrite !decide_True by done. done.
Qed.
