(* ===== verification/EncryptionDevice.v ===== *)
(** * The encryption device (core/encryption/src/encryptionDevice.ts, encryptionDelegate.ts)

    A device keeps its Olm account and its group sessions, pickled, in the crypto store
    and unpickles them for each operation. [DeviceState] is the object with its store;
    [entropy] counts the random numbers drawn from the library. The fields
    [sessionsInProgress], [olmPrekeyPromise] and [inboundGroupSessionMessageIndexes] of
    the source are never read or written and left out; [free()] only releases memory. *)

From Stdlib Require Import Ascii.
From stdpp Require Import pretty.
From S2P Require Import Prelude Types DecryptionExtensions CryptoStore Olm.

(** [JSON.stringify] of a string. *)
Definition json_escape (c : ascii) : string :=
  let n := nat_of_ascii c in
  let hex d := String (ascii_of_nat (if (d <? 10)%nat then 48 + d else 87 + d)) "" in
  if (n =? 34)%nat || (n =? 92)%nat then "\" +:+ String c ""
  else if (n =? 8)%nat then "\b" else if (n =? 9)%nat then "\t" else if (n =? 10)%nat then "\n"
  else if (n =? 12)%nat then "\f" else if (n =? 13)%nat then "\r"
  else if (n <? 32)%nat then "\u00" +:+ hex (n / 16)%nat +:+ hex (n mod 16)%nat
  else String c "".
Fixpoint json_escapes (s : string) : string :=
  match s with
  | EmptyString => ""
  | String c s => json_escape c +:+ json_escapes s
  end.
Definition JSON_stringify (s : string) : string :=
  let quote := String (ascii_of_nat 34) "" in quote +:+ json_escapes s +:+ quote.

(** [(<Error>e).message]. *)
Definition error_message (e : js_error) : string :=
  match e with
  | CodeException message _ | JsError message => message
  end.

Definition MAX_PLAINTEXT_LENGTH : Z := (65536 * 3) / 4.

Definition checkPayloadLength (payloadString : string) : result unit :=
  let length := Z.of_nat (String.length payloadString) in
  if MAX_PLAINTEXT_LENGTH <? length then
    Throw (JsError ("Message too long (" +:+ pretty length +:+ " bytes). "
      +:+ "The maximum for an encrypted message is " +:+ pretty MAX_PLAINTEXT_LENGTH +:+ " bytes."))
  else Ok tt.

Record FallbackKey := mkFallbackKey { fk_keyId : string; fk_key : string }.

Record DeviceState := mkDeviceState {
  pickleKey : string;
  deviceCurve25519Key : option string;
  deviceDoNotUseKey : option string;
  fallbackKey : FallbackKey;
  delegate_initialized : bool;
  cryptoStore : CryptoStore;
  entropy : nat;
}.

Definition set_keys (ks : IdentityKeys) (s : DeviceState) : DeviceState :=
  mkDeviceState (pickleKey s) (Some (ik_curve25519 ks)) (Some (ik_ed25519 ks)) (fallbackKey s)
    (delegate_initialized s) (cryptoStore s) (entropy s).
Definition set_fallbackKey (k : FallbackKey) (s : DeviceState) : DeviceState :=
  mkDeviceState (pickleKey s) (deviceCurve25519Key s) (deviceDoNotUseKey s) k
    (delegate_initialized s) (cryptoStore s) (entropy s).
Definition set_initialized (b : bool) (s : DeviceState) : DeviceState :=
  mkDeviceState (pickleKey s) (deviceCurve25519Key s) (deviceDoNotUseKey s) (fallbackKey s)
    b (cryptoStore s) (entropy s).
Definition set_cryptoStore (c : CryptoStore) (s : DeviceState) : DeviceState :=
  mkDeviceState (pickleKey s) (deviceCurve25519Key s) (deviceDoNotUseKey s) (fallbackKey s)
    (delegate_initialized s) c (entropy s).
Definition draw_entropy (s : DeviceState) : DeviceState :=
  mkDeviceState (pickleKey s) (deviceCurve25519Key s) (deviceDoNotUseKey s) (fallbackKey s)
    (delegate_initialized s) (cryptoStore s) (S (entropy s)).

(** [new EncryptionDevice(delegate, cryptoStore)] *)
Definition new_EncryptionDevice (initialized : bool) (store : CryptoStore) (entropy : nat) : DeviceState :=
  mkDeviceState "DEFAULT_KEY" None None (mkFallbackKey "" "") initialized store entropy.

Definition store_lens : lens DeviceState CryptoStore := Lens cryptoStore set_cryptoStore.

Section Device.
Context `{Olm} {E : Type}.
Abbreviation DM := (JS E DeviceState).

Definition on_store {A} (m : JS E CryptoStore A) : DM A := js_zoom store_lens m.

(** The random numbers of one call of the library. *)
Definition draw : DM nat :=
  self ← js_get;
  js_modify draw_entropy;;
  mret (entropy self).

(** ** The delegate *)

Definition delegate_init : DM unit :=
  self ← js_get;
  if delegate_initialized self then js_return
  else js_lift olm_init;; js_modify (set_initialized has_library_version).

(** [createAccount], [createSession], [createInboundGroupSession],
    [createOutboundGroupSession] and [createUtility] hand out an empty object. *)
Definition delegate_create : DM unit :=
  self ← js_get;
  if delegate_initialized self then js_return else js_throw (JsError "olm not initialized").

(** ** The account *)

Definition getAccount : DM Account :=
  pickledAccount ← on_store CryptoStore.getAccount;
  delegate_create;;
  self ← js_get;
  js_lift (account_unpickle (pickleKey self) pickledAccount).

Definition storeAccount (account : Account) : DM unit :=
  self ← js_get;
  on_store (CryptoStore.storeAccount (account_pickle (pickleKey self) account)).

(** Returns what the [account] argument is after the call. *)
Definition initializeAccount : DM Account :=
  js_try
    (pickledAccount ← on_store CryptoStore.getAccount;
     self ← js_get;
     js_lift (account_unpickle (pickleKey self) pickledAccount))
    (fun _ =>
       n ← draw;
       let account := account_create n in
       storeAccount account;;
       mret account).

Definition getFallbackKey : DM FallbackKey :=
  account ← getAccount;
  match unpublished_fallback_key account with
  | (keyId, key) :: _ =>
      if bool_decide (key = "") || bool_decide (keyId = "") then js_throw (JsError "No fallback key")
      else mret (mkFallbackKey keyId key)
  | [] => js_throw (JsError "No fallback key")
  end.

Definition generateFallbackKeyIfNeeded : DM unit :=
  js_try (_ ← getFallbackKey; js_return)
    (fun _ =>
       account ← getAccount;
       n ← draw;
       storeAccount (generate_fallback_key n account)).

Definition init : DM unit :=
  self ← js_get;
  js_when (negb (delegate_initialized self)) delegate_init;;
  delegate_create;;
  account ← initializeAccount;
  generateFallbackKeyIfNeeded;;
  key ← getFallbackKey;
  js_modify (set_fallbackKey key);;
  js_modify (set_keys (identity_keys account)).

Definition sign (message : string) : DM string :=
  account ← getAccount;
  mret (account_sign account message).

Definition markKeysAsPublished : DM unit :=
  account ← getAccount;
  storeAccount (mark_keys_as_published account).

Definition forgetOldFallbackKey : DM unit :=
  account ← getAccount;
  storeAccount (forget_old_fallback_key account).

Definition verifySignature (key message signature : string) : DM unit :=
  delegate_create;;
  js_lift (ed25519_verify key message signature).

(** ** Outbound group sessions *)

Definition saveOutboundGroupSession (session : OutboundGroupSession) (streamId : string) : DM unit :=
  withGroupSessions store_lens
    (self ← js_get;
     on_store (storeEndToEndOutboundGroupSession (session_id session) (out_pickle (pickleKey self) session) streamId)).

Definition getOutboundGroupSession (streamId : string) : DM OutboundGroupSession :=
  withGroupSessions store_lens
    (pickled ← on_store (getEndToEndOutboundGroupSession streamId);
     if bool_decide (pickled = "") then js_throw (JsError ("Unknown outbound group session " +:+ streamId))
     else
       delegate_create;;
       self ← js_get;
       js_lift (out_unpickle (pickleKey self) pickled)).

(** The chain index and the secret key. *)
Definition getOutboundGroupSessionKey (streamId : string) : DM (Z * string) :=
  session ← getOutboundGroupSession streamId;
  mret (message_index session, session_key session).

Definition createOutboundGroupSession (streamId : string) : DM string :=
  withGroupSessions store_lens
    (delegate_create;;
     delegate_create;;
     n ← draw;
     let session := out_create n in
     let sessionId := session_id session in
     saveOutboundGroupSession session streamId;;
     inboundSession ← js_lift (in_create (session_key session));
     self ← js_get;
     on_store (storeEndToEndInboundGroupSession streamId sessionId
       (mkInboundGroupSessionData streamId (in_pickle (pickleKey self) inboundSession) [] None));;
     mret sessionId).

(** ** Inbound group sessions *)

Definition unpickleInboundGroupSession (sessionData : InboundGroupSessionData) : DM InboundGroupSession :=
  delegate_create;;
  self ← js_get;
  js_lift (in_unpickle (pickleKey self) (igs_session sessionData)).

(** [getInboundGroupSession] from the row the store has answered: the session and its
    data, both or none of them defined. *)
Definition inbound_of (sessionInfo : option InboundGroupSessionData)
    : DM (option (InboundGroupSession * InboundGroupSessionData)) :=
  match sessionInfo with
  | None => mret None
  | Some data =>
      session ← unpickleInboundGroupSession data;
      mret (Some (session, data))
  end.

Definition getInboundGroupSession (streamId sessionId : string)
    : DM (option (InboundGroupSession * InboundGroupSessionData)) :=
  sessionInfo ← on_store (getEndToEndInboundGroupSession streamId sessionId);
  inbound_of sessionInfo.

(** [session.import_session(sessionKey)], and [session.create(sessionKey)] where it throws. *)
Definition read_session_key (sessionKey : string) : result InboundGroupSession :=
  match import_session sessionKey with
  | Ok session => Ok session
  | Throw _ => in_create sessionKey
  end.

(** The last step: the new session replaces what is stored. *)
Definition store_session (streamId sessionId : string) (session : InboundGroupSession)
    (keysClaimed : jsmap string) (untrusted : option bool) : DM unit :=
  self ← js_get;
  on_store (storeEndToEndInboundGroupSession streamId sessionId
    (mkInboundGroupSessionData streamId (in_pickle (pickleKey self) session) keysClaimed untrusted)).

(** [addInboundGroupSession] after the stored session has been read. *)
Definition add_to_existing (existing : option (InboundGroupSession * InboundGroupSessionData))
    (streamId sessionId sessionKey : string) (keysClaimed : jsmap string) (untrusted : option bool) : DM unit :=
  delegate_create;;
  session ← js_lift (read_session_key sessionKey);
  if negb (bool_decide (sessionId = in_session_id session)) then
    js_throw (JsError ("Mismatched group session ID from streamId: " +:+ streamId))
  else
    match existing with
    | Some (existingSession, data) =>
        if first_known_index existingSession <=? first_known_index session then
          if negb (default false (igs_untrusted data)) || default false untrusted then js_return
          else if first_known_index existingSession <? first_known_index session then
            old ← js_lift (export_session existingSession (first_known_index session));
            new ← js_lift (export_session session (first_known_index session));
            js_when (bool_decide (old = new))
              (on_store (storeEndToEndInboundGroupSession streamId sessionId
                 (mkInboundGroupSessionData (igs_stream_id data) (igs_session data) (igs_keysClaimed data) (Some false))))
          else store_session streamId sessionId session keysClaimed untrusted
        else store_session streamId sessionId session keysClaimed untrusted
    | None => store_session streamId sessionId session keysClaimed untrusted
    end.

Definition addInboundGroupSession (streamId sessionId sessionKey : string) (keysClaimed : jsmap string)
    (_exportFormat : bool) (untrusted : option bool) : DM unit :=
  existing ← getInboundGroupSession streamId sessionId;
  add_to_existing existing streamId sessionId sessionKey keysClaimed untrusted.

(** ** Messages *)

Definition encryptGroupMessage (payloadString streamId : string) : DM (string * string) :=
  withGroupSessions store_lens
    (js_lift (checkPayloadLength payloadString);;
     session ← getOutboundGroupSession streamId;
     let '(ciphertext, session') := out_encrypt session payloadString in
     saveOutboundGroupSession session' streamId;;
     mret (ciphertext, session_id session')).

Definition encryptUsingFallbackKey (theirIdentityKey fallbackKey payload : string) : DM (Z * string) :=
  js_lift (checkPayloadLength payload);;
  withAccountTx store_lens
    (delegate_create;;
     account ← getAccount;
     n ← draw;
     session ← js_lift (create_outbound n account theirIdentityKey fallbackKey);
     mret (encrypt session payload)).

Definition decryptMessage (ciphertext theirDeviceIdentityKey : string) (messageType : Z) : DM string :=
  if negb (messageType =? 0) then js_throw (JsError "Only pre-key messages supported")
  else
    js_lift (checkPayloadLength ciphertext);;
    withAccountTx store_lens
      (account ← getAccount;
       delegate_create;;
       js_try
         ('(session, account') ← js_lift (create_inbound_from account theirDeviceIdentityKey ciphertext);
          storeAccount account';;
          js_lift (decrypt session messageType ciphertext))
         (fun e => js_throw (JsError ("Error decrypting prekey message: " +:+ JSON_stringify (error_message e))))).

(** ** Keys this device has *)

Definition getInboundGroupSessionIds (streamId : string) : DM (list string) :=
  on_store (CryptoStore.getInboundGroupSessionIds streamId).

Definition hasInboundSessionKeys (streamId sessionId : string) : DM bool :=
  sessionData ← withGroupSessions store_lens (on_store (getEndToEndInboundGroupSession streamId sessionId));
  match sessionData with
  | None => mret false
  | Some data => mret (bool_decide (streamId = igs_stream_id data))
  end.

Definition exportInboundGroupSession (streamId sessionId : string) : DM (option GroupEncryptionSession) :=
  sessionData ← on_store (getEndToEndInboundGroupSession streamId sessionId);
  match sessionData with
  | None => mret None
  | Some data =>
      session ← unpickleInboundGroupSession data;
      sessionKey ← js_lift (export_session session (first_known_index session));
      mret (Some (mkGroupEncryptionSession streamId sessionId sessionKey GROUP_ENCRYPTION_ALGORITHM))
  end.
End Device.
