(* ===== verification/GroupEncryption.v ===== *)
(** * Group encryption (core/encryption/src/groupEncryption.ts, groupDecryption.ts,
      groupEncryptionCrypto.ts)

    The algorithms on top of the device: messages of a stream are encrypted with the
    device's outbound session for it, whose key is shared with the devices of the
    members; keys others share are imported. The client behind
    [IGroupEncryptionClient] gives answers; what is asked of it, and a share that is
    started without waiting for it, are emitted. *)

From S2P Require Import Prelude Proto Binary Types DecryptionExtensions CryptoStore Olm EncryptionDevice.

Definition OLM_ALGORITHM : string := "r.olm.v1.curve25519-aes-sha2".

(** The answers of the client (base.ts). *)
Record IGroupEncryptionClient := mkGroupEncryptionClient {
  gc_getDevicesInStream : string -> result (jsmap (list UserDevice));
  gc_encryptAndShareGroupSessions : string -> list GroupEncryptionSession -> jsmap (list UserDevice) -> result unit;
}.

Inductive CryptoEvent :=
| ShareSession (streamId sessionId : string)
| EncryptAndShareGroupSessions (streamId : string) (sessions : list GroupEncryptionSession) (devicesInRoom : jsmap (list UserDevice)).

Section GroupEncryption.
Context `{Olm} (client : IGroupEncryptionClient).
Abbreviation CM := (JS CryptoEvent DeviceState).

(** ** groupEncryption.ts *)

Definition shareSession (streamId sessionId : string) : CM unit :=
  devicesInRoom ← js_lift (gc_getDevicesInStream client streamId);
  session ← exportInboundGroupSession streamId sessionId;
  match session with
  | None => js_throw (JsError ("Session key not found for session " +:+ sessionId))
  | Some session =>
      js_emit true (EncryptAndShareGroupSessions streamId [session] devicesInRoom);;
      js_lift (gc_encryptAndShareGroupSessions client streamId [session] devicesInRoom)
  end.

(** Without [awaitInitialShareSession] the share runs later on its own; its start is
    emitted. *)
Definition ensureOutboundSession (streamId : string) (awaitInitialShareSession : bool) : CM unit :=
  js_try (_ ← getOutboundGroupSessionKey streamId; js_return)
    (fun _ =>
       sessionId ← createOutboundGroupSession streamId;
       if awaitInitialShareSession then shareSession streamId sessionId
       else js_emit true (ShareSession streamId sessionId)).

Definition encryptGroupEvent (streamId payload : string) : CM EncryptedData :=
  ensureOutboundSession streamId false;;
  '(ciphertext, sessionId) ← encryptGroupMessage payload streamId;
  self ← js_get;
  mret (mkEncryptedData ciphertext GROUP_ENCRYPTION_ALGORITHM (default "" (deviceCurve25519Key self)) sessionId None None).

(** ** groupDecryption.ts *)

(** The error of the missing fields is a [DecryptionError]. *)
Definition decryptGroupEvent (streamId : string) (content : EncryptedData) : CM string :=
  if bool_decide (ed_senderKey content = "") || bool_decide (ed_sessionId content = "") || bool_decide (ed_ciphertext content = "")
  then js_throw (JsError "Missing fields in input")
  else
    session ← getInboundGroupSession streamId (ed_sessionId content);
    match session with
    | None => js_throw (JsError "Session not found")
    | Some (session, _) => js_lift (in_decrypt session (ed_ciphertext content))
    end.

(** [importStreamKey] from the row the store has answered; errors are only logged. *)
Definition importStreamKey_from (row : option InboundGroupSessionData) (streamId : string)
    (session : GroupEncryptionSession) : CM unit :=
  js_try
    (existing ← inbound_of row;
     add_to_existing existing streamId (gs_sessionId session) (gs_sessionKey session) [] None)
    (fun _ => js_return).

Definition importStreamKey (streamId : string) (session : GroupEncryptionSession) : CM unit :=
  row ← on_store (getEndToEndInboundGroupSession streamId (gs_sessionId session));
  importStreamKey_from row streamId session.

(** ** groupEncryptionCrypto.ts *)

Definition crypto_init : CM unit := init.

(** The devices are encrypted for at once in the code, their transactions queue up;
    here one after the other. A later entry for the same device key wins. *)
Fixpoint encryptWithDeviceKeys (payload : string) (deviceKeys : list UserDevice) : CM (gmap string string) :=
  match deviceKeys with
  | [] => mret ∅
  | deviceKey :: rest =>
      '(type, body) ← encryptUsingFallbackKey (ud_deviceKey deviceKey) (ud_fallbackKey deviceKey) payload;
      js_lift (check (type =? 0) (Some "expecting only prekey messages at this time") None);;
      ciphertextRecord ← encryptWithDeviceKeys payload rest;
      mret (ciphertextRecord ∪ {[ud_deviceKey deviceKey := body]})
  end.

Definition decryptWithDeviceKey (ciphertext senderDeviceKey : string) : CM string :=
  decryptMessage ciphertext senderDeviceKey 0.

(** The imports of one call start together: each reads its row before any of them
    writes, then they continue in order. *)
Definition importSessionKeys (streamId : string) (keys : list GroupEncryptionSession) : CM unit :=
  withGroupSessions store_lens
    (self ← js_get;
     js_for keys (fun key =>
       js_try (importStreamKey_from (inboundGroupSessions (cryptoStore self) !! (streamId, gs_sessionId key)) streamId key)
         (fun _ => js_return))).
End GroupEncryption.

(** ** Lemmas on the encryption device

    How the operations of the device and of the algorithms on it run, and what they
    keep: the pickle key, and every stored inbound session that is trusted and known
    from its first message on. *)

Create HintDb device.

Abbreviation inbound a := (inboundGroupSessions (cryptoStore a)).
Abbreviation outbound a := (outboundGroupSessions (cryptoStore a)).

Lemma set_cryptoStore_same a : set_cryptoStore (cryptoStore a) a = a.
Proof. by destruct a. Qed.

Lemma set_tables_same c :
  set_outbound (fun _ => outboundGroupSessions c) (set_inbound (fun _ => inboundGroupSessions c) c) = c.
Proof. by destruct c. Qed.

Section Lemmas.
Context `{OlmLaws}.

(** ** Invariants of the group session tables *)
Section Tables.
Context {E : Type} (pk : string) (ini : bool).
Context (P : gmap string GroupSessionRecord -> gmap (string * string) InboundGroupSessionData -> Prop).

Definition group_inv (a : DeviceState) : Prop :=
  (pickleKey a = pk /\ (ini = true -> delegate_initialized a = true)) /\ P (outbound a) (inbound a).

(** A method of the store that leaves the tables of sessions alone. *)
Definition spares_sessions {A} (m : JS E CryptoStore A) : Prop :=
  forall c, outboundGroupSessions (post (m c)) = outboundGroupSessions c
    /\ inboundGroupSessions (post (m c)) = inboundGroupSessions c.

Lemma inv_on_store {A} (m : JS E CryptoStore A) : spares_sessions m -> preserves group_inv (on_store m).
Proof.
  intros Hm a [Hk HP]. unfold on_store, js_zoom. specialize (Hm (cryptoStore a)). simpl.
  destruct (m (cryptoStore a)) as [r c w]. unfold group_inv. simpl in *. destruct Hm as [-> ->]. done.
Qed.

Lemma inv_draw : preserves group_inv (draw : JS E _ _).
Proof. intros a Ha. exact Ha. Qed.

Lemma inv_delegate_create : preserves group_inv (delegate_create : JS E _ _).
Proof. intros a Ha. unfold delegate_create. js_unfold. by destruct (delegate_initialized a). Qed.

Lemma inv_delegate_init : preserves group_inv (delegate_init : JS E _ _).
Proof.
  intros a Ha. unfold delegate_init. js_unfold. rewrite olm_init_ok.
  destruct (delegate_initialized a); [done|]. destruct Ha as [[Hk _] HP]. split; [split; [done|intros _]|done].
  apply has_library_version_ok.
Qed.

Lemma inv_withAccountTx {A} (m : JS E DeviceState A) :
  preserves group_inv m -> preserves group_inv (withAccountTx store_lens m).
Proof. intros Hm a Ha. specialize (Hm a Ha). unfold withAccountTx. by destruct (m a) as [[x|e] a1 w]. Qed.

Lemma inv_withGroupSessions {A} (m : JS E DeviceState A) :
  preserves group_inv m -> preserves group_inv (withGroupSessions store_lens m).
Proof.
  intros Hm a Ha. specialize (Hm a Ha). unfold withGroupSessions. destruct (m a) as [[x|e] a1 w]; [done|].
  split; [apply Hm|apply Ha].
Qed.

Lemma spares_getAccount : spares_sessions CryptoStore.getAccount.
Proof. intros c. unfold CryptoStore.getAccount. js_unfold. by destruct (account c !! userId c). Qed.

Lemma spares_storeAccount p : spares_sessions (CryptoStore.storeAccount p).
Proof. by intros c. Qed.

Lemma spares_getOutbound s : spares_sessions (getEndToEndOutboundGroupSession s).
Proof. intros c. unfold getEndToEndOutboundGroupSession. js_unfold. by destruct (outboundGroupSessions c !! s). Qed.

Lemma spares_getInbound s i : spares_sessions (getEndToEndInboundGroupSession s i).
Proof. by intros c. Qed.
Local Hint Resolve inv_on_store inv_draw inv_delegate_create inv_delegate_init inv_withAccountTx inv_withGroupSessions
  spares_getAccount spares_storeAccount spares_getOutbound spares_getInbound : device.

Ltac inv_auto := repeat (first
  [ apply inv_delegate_init | apply preserves_bind; [|intros ?] | apply preserves_try; [|intros ?]
  | apply preserves_get | apply preserves_lift | apply preserves_mret | apply preserves_ret
  | apply preserves_return | apply preserves_throw | apply preserves_emit
  | apply inv_withGroupSessions | apply inv_withAccountTx
  | solve [eauto with device]
  | apply preserves_modify; intros ? ?; assumption
  | case_match ]).

Lemma inv_getAccount : preserves group_inv (getAccount : JS E _ _).
Proof. unfold getAccount. inv_auto. Qed.

Lemma inv_storeAccount acc : preserves group_inv (storeAccount acc : JS E _ _).
Proof. unfold storeAccount. inv_auto. Qed.
Local Hint Resolve inv_getAccount inv_storeAccount : device.

Lemma inv_getFallbackKey : preserves group_inv (getFallbackKey : JS E _ _).
Proof. unfold getFallbackKey. inv_auto. Qed.
Local Hint Resolve inv_getFallbackKey : device.

(** Starting the device again. *)
Lemma inv_init : preserves group_inv (init : JS E _ _).
Proof.
  unfold init, initializeAccount, generateFallbackKeyIfNeeded, js_when. inv_auto.
Qed.

Lemma inv_getOutbound s : preserves group_inv (getOutboundGroupSession s : JS E _ _).
Proof. unfold getOutboundGroupSession. inv_auto. Qed.

Lemma inv_unpickle d : preserves group_inv (unpickleInboundGroupSession d : JS E _ _).
Proof. unfold unpickleInboundGroupSession. inv_auto. Qed.
Local Hint Resolve inv_getOutbound inv_unpickle : device.

Lemma inv_inbound_of row : preserves group_inv (inbound_of row : JS E _ _).
Proof. unfold inbound_of. inv_auto. Qed.
Local Hint Resolve inv_inbound_of : device.

Lemma inv_getInbound s i : preserves group_inv (getInboundGroupSession s i : JS E _ _).
Proof. unfold getInboundGroupSession. inv_auto. Qed.

Lemma inv_export s i : preserves group_inv (exportInboundGroupSession s i : JS E _ _).
Proof. unfold exportInboundGroupSession. inv_auto. Qed.

Lemma inv_encryptUsingFallbackKey k f m : preserves group_inv (encryptUsingFallbackKey k f m : JS E _ _).
Proof. unfold encryptUsingFallbackKey. inv_auto. Qed.

Lemma inv_decryptMessage c k t : preserves group_inv (decryptMessage c k t : JS E _ _).
Proof. unfold decryptMessage. inv_auto. Qed.

Lemma inv_mark : preserves group_inv (markKeysAsPublished : JS E _ _).
Proof. unfold markKeysAsPublished. inv_auto. Qed.

Lemma inv_forget : preserves group_inv (forgetOldFallbackKey : JS E _ _).
Proof. unfold forgetOldFallbackKey. inv_auto. Qed.

Lemma inv_hasInbound s i : preserves group_inv (hasInboundSessionKeys s i : JS E _ _).
Proof. unfold hasInboundSessionKeys. inv_auto. Qed.
End Tables.

#[local] Hint Resolve inv_init inv_getInbound inv_export inv_encryptUsingFallbackKey inv_decryptMessage inv_mark inv_forget
  inv_hasInbound : device.

(** ** How the operations run *)
Section Runs.
Context {E : Type}.

Lemma bind_run {A B} (m : JS E DeviceState A) (k : A -> JS E DeviceState B) a r :
  m a = Outcome r a [] ->
  (m ≫= k) a = match r with Ok x => k x a | Throw e => Outcome (Throw e) a [] end.
Proof. intros Hm. unfold mbind, JS_mbind, js_bind. rewrite Hm. destruct r as [x|e]; [by destruct (k x a)|done]. Qed.

Lemma tx_run {A} (m : JS E DeviceState A) a r :
  m a = Outcome r a [] -> withGroupSessions store_lens m a = Outcome r a [].
Proof.
  intros Hm. unfold withGroupSessions. rewrite Hm. destruct r as [x|e]; [done|].
  simpl. by rewrite set_tables_same, set_cryptoStore_same.
Qed.

Lemma tx_Ok {A} (m : JS E DeviceState A) a x a1 w :
  m a = Outcome (Ok x) a1 w -> withGroupSessions store_lens m a = Outcome (Ok x) a1 w.
Proof. intros Hm. unfold withGroupSessions. by rewrite Hm. Qed.

Lemma delegate_create_run a :
  (delegate_create : JS E _ _) a
  = Outcome (if delegate_initialized a then Ok tt else Throw (JsError "olm not initialized")) a [].
Proof. unfold delegate_create. js_unfold. by destruct (delegate_initialized a). Qed.

(** The stored outbound session of a stream. *)
Definition outbound_session (a : DeviceState) (s : string) : result OutboundGroupSession :=
  match outbound a !! s with
  | None => Throw (JsError "session not found")
  | Some r =>
      if bool_decide (gsr_session r = "") then Throw (JsError ("Unknown outbound group session " +:+ s))
      else if delegate_initialized a then out_unpickle (pickleKey a) (gsr_session r)
      else Throw (JsError "olm not initialized")
  end.

Lemma getOutbound_run s a : (getOutboundGroupSession s : JS E _ _) a = Outcome (outbound_session a s) a [].
Proof.
  unfold getOutboundGroupSession, outbound_session, on_store, getEndToEndOutboundGroupSession. apply tx_run.
  unfold mbind, JS_mbind, js_bind, js_zoom. simpl.
  destruct (outbound a !! s) as [r|]; simpl; rewrite set_cryptoStore_same; [|done].
  case_bool_decide; [done|]. rewrite delegate_create_run. by destruct (delegate_initialized a).
Qed.

(** The stored inbound session of a row. *)
Definition inbound_session (a : DeviceState) (d : InboundGroupSessionData) : result InboundGroupSession :=
  if delegate_initialized a then in_unpickle (pickleKey a) (igs_session d) else Throw (JsError "olm not initialized").

Lemma unpickle_run d a : (unpickleInboundGroupSession d : JS E _ _) a = Outcome (inbound_session a d) a [].
Proof.
  unfold unpickleInboundGroupSession, inbound_session. rewrite (bind_run _ _ _ _ (delegate_create_run a)).
  by destruct (delegate_initialized a).
Qed.

Lemma inbound_of_run row a :
  (inbound_of row : JS E _ _) a
  = Outcome (match row with None => Ok None | Some d => i ← inbound_session a d; Ok (Some (i, d)) end) a [].
Proof.
  destruct row as [d|]; [|done]. unfold inbound_of. rewrite (bind_run _ _ _ _ (unpickle_run d a)).
  by destruct (inbound_session a d).
Qed.

Lemma getInboundRow_run s i a :
  (on_store (getEndToEndInboundGroupSession s i) : JS E _ _) a = Outcome (Ok (inbound a !! (s, i))) a [].
Proof. unfold on_store, js_zoom, getEndToEndInboundGroupSession. js_unfold. simpl. by rewrite set_cryptoStore_same. Qed.

Lemma export_run s i d sess key a :
  inbound a !! (s, i) = Some d -> inbound_session a d = Ok sess ->
  export_session sess (first_known_index sess) = Ok key ->
  (exportInboundGroupSession s i : JS E _ _) a
  = Outcome (Ok (Some (mkGroupEncryptionSession s i key GROUP_ENCRYPTION_ALGORITHM))) a [].
Proof.
  intros Hd Hs Hk. unfold exportInboundGroupSession. rewrite (bind_run _ _ _ _ (getInboundRow_run s i a)), Hd.
  rewrite (bind_run _ _ _ _ (unpickle_run d a)), Hs. unfold js_lift. rewrite Hk. done.
Qed.

(** The tables after a message: the advanced session is stored. *)
Definition put_outbound (s : string) (o : OutboundGroupSession) (a : DeviceState) : DeviceState :=
  set_cryptoStore (set_outbound <[s := mkGroupSessionRecord (session_id o) (out_pickle (pickleKey a) o) s]> (cryptoStore a)) a.

Lemma saveOutbound_run o s a : (saveOutboundGroupSession o s : JS E _ _) a = Outcome (Ok tt) (put_outbound s o a) [].
Proof. done. Qed.

Lemma encryptGroupMessage_run m s o a :
  checkPayloadLength m = Ok tt -> outbound_session a s = Ok o ->
  (encryptGroupMessage m s : JS E _ _) a
  = Outcome (Ok ((out_encrypt o m).1, session_id o)) (put_outbound s (out_encrypt o m).2 a) [].
Proof.
  intros Hm Ho. unfold encryptGroupMessage. apply tx_Ok. unfold js_lift at 1. rewrite Hm.
  unfold mbind, JS_mbind, js_bind at 1. simpl. unfold js_bind at 1. rewrite getOutbound_run, Ho.
  destruct (out_encrypt o m) as [c o'] eqn:Heq. simpl.
  pose proof (session_id_encrypt o m) as Hid. rewrite Heq in Hid. simpl in Hid. unfold put_outbound. by rewrite Hid.
Qed.

Lemma encryptGroupMessage_fails m s a e :
  checkPayloadLength m = Throw e \/ outbound_session a s = Throw e ->
  post ((encryptGroupMessage m s : JS E _ _) a) = a.
Proof.
  intros Hf. unfold encryptGroupMessage.
  assert (exists e', forall k, ((js_lift (checkPayloadLength m) : JS E _ _) ≫= fun _ => getOutboundGroupSession s ≫= k) a
      = (Outcome (Throw e') a [] : outcome E DeviceState (string * string))) as [e' He].
  { destruct (checkPayloadLength m) as [[]|e0] eqn:Hm; [|by exists e0].
    destruct Hf as [?|Ho]; [done|]. exists e. intros k. unfold mbind at 1, JS_mbind at 1, js_bind at 1. simpl.
    rewrite (bind_run _ _ _ _ (getOutbound_run s a)), Ho. done. }
  rewrite (tx_run _ _ _ (He _)). done.
Qed.

(** A new session: its inbound counterpart is stored with it. *)
Definition put_session (s : string) (o : OutboundGroupSession) (i : InboundGroupSession) (a : DeviceState) : DeviceState :=
  let a1 := put_outbound s o (draw_entropy a) in
  set_cryptoStore (set_inbound <[(s, session_id o) := mkInboundGroupSessionData s (in_pickle (pickleKey a) i) [] None]>
                     (cryptoStore a1)) a1.

Lemma createOutbound_run s a i :
  delegate_initialized a = true -> in_create (session_key (out_create (entropy a))) = Ok i ->
  (createOutboundGroupSession s : JS E _ _) a
  = Outcome (Ok (session_id (out_create (entropy a)))) (put_session s (out_create (entropy a)) i a) [].
Proof.
  intros Hi Hc. unfold createOutboundGroupSession. apply tx_Ok.
  rewrite !(bind_run _ _ _ _ (delegate_create_run a)), Hi.
  js_unfold. simpl. rewrite Hc. done.
Qed.

Lemma createOutbound_fails s a :
  delegate_initialized a = false ->
  (createOutboundGroupSession s : JS E _ _) a = Outcome (Throw (JsError "olm not initialized")) a [].
Proof.
  intros Hi. unfold createOutboundGroupSession. apply tx_run.
  by rewrite (bind_run _ _ _ _ (delegate_create_run a)), Hi.
Qed.
End Runs.

(** ** What is never lost *)

(** A trusted session known from its first message on. *)
Definition protected (pk : string) (d : InboundGroupSessionData) : Prop :=
  igs_untrusted d <> Some true
  /\ exists i, in_unpickle pk (igs_session d) = Ok i /\ first_known_index i = 0.

Definition keeps (pk : string) (i0 i1 : gmap (string * string) InboundGroupSessionData) : Prop :=
  forall k d, i0 !! k = Some d -> protected pk d -> i1 !! k = Some d.

#[global] Instance keeps_preorder pk : PreOrder (keeps pk).
Proof. split; [by intros i k d|]. intros i0 i1 i2 H1 H2 k d Hd Hp. eauto. Qed.

Definition writable (pk : string) (i0 : gmap (string * string) InboundGroupSessionData) (k : string * string) : Prop :=
  forall d, i0 !! k = Some d -> ~ protected pk d.

(** An import writes at most the row of its session. *)
Lemma add_inv {E} pk ini P existing s i key claimed untrusted :
  (forall o t d, P o t -> P o (<[(s, i) := d]> t)) ->
  preserves (group_inv pk ini P) (add_to_existing existing s i key claimed untrusted : JS E _ _).
Proof.
  intros HP.
  assert (forall d, preserves (group_inv pk ini P) (on_store (storeEndToEndInboundGroupSession s i d) : JS E _ _)) as Hput.
  { intros d a [Hk Ht]. split; [done|]. by apply HP. }
  unfold add_to_existing, store_session.
  repeat (first [ apply Hput | apply inv_delegate_create | apply preserves_bind; [|intros ?]
    | apply preserves_get | apply preserves_lift | apply preserves_return | apply preserves_throw
    | apply preserves_when; intros _ | case_match ]).
Qed.

Section Keeps.
Context {E : Type} (pk : string) (ini : bool) (o0 : gmap string GroupSessionRecord) (i0 : gmap (string * string) InboundGroupSessionData).

Definition kept_tables : DeviceState -> Prop := group_inv pk ini (fun o i => o = o0 /\ keeps pk i0 i).

Lemma add_writable existing s i key claimed untrusted :
  writable pk i0 (s, i) -> preserves kept_tables (add_to_existing existing s i key claimed untrusted : JS E _ _).
Proof.
  intros Hw. apply add_inv. intros o t d [Ho Ht]. split; [done|]. intros k d' Hd Hp.
  rewrite lookup_insert_ne; [eauto|]. intros <-. by eapply Hw.
Qed.

(** A protected session is kept whatever key is offered for it. *)
Lemma add_protected existing d s i key claimed untrusted :
  igs_untrusted d <> Some true -> first_known_index existing = 0 ->
  preserves kept_tables (add_to_existing (Some (existing, d)) s i key claimed untrusted : JS E _ _).
Proof.
  intros Ht Hz. unfold add_to_existing.
  apply preserves_bind; [apply inv_delegate_create|intros _]. apply preserves_bind; [apply preserves_lift|intros sess].
  case_match; [apply preserves_throw|]. rewrite Hz.
  pose proof (first_known_index_nonneg sess). rewrite (proj2 (Z.leb_le _ _)) by done.
  replace (negb (default false (igs_untrusted d))) with true; [apply preserves_return|].
  by destruct (igs_untrusted d) as [[]|].
Qed.

Lemma add_keeps s i key claimed untrusted :
  preserves kept_tables
    (inbound_of (i0 !! (s, i)) ≫= fun existing => add_to_existing existing s i key claimed untrusted : JS E _ _).
Proof.
  intros a Ha. rewrite (bind_run _ _ _ _ (inbound_of_run (i0 !! (s, i)) a)).
  destruct (i0 !! (s, i)) as [d|] eqn:Hd; [|by apply add_writable; [unfold writable; rewrite Hd|]].
  unfold inbound_session. destruct (delegate_initialized a); [|done]. destruct Ha as [[Hk Hini] Ht]. rewrite Hk.
  destruct (in_unpickle pk (igs_session d)) as [sess|e] eqn:Hu; [|done]. res_simpl.
  assert (kept_tables a) as Ha by done.
  destruct (decide (igs_untrusted d = Some true)) as [Hun|Hun];
    [|destruct (decide (first_known_index sess = 0)) as [Hz|Hz]; [by apply add_protected|]];
    (apply add_writable; [|done]; intros d' Hd' (Htr & sess' & Hu' & Hz'); congruence).
Qed.
End Keeps.

Lemma importStreamKey_from_keeps pk ini o0 i0 s session :
  preserves (kept_tables pk ini o0 i0) (importStreamKey_from (i0 !! (s, gs_sessionId session)) s session).
Proof. apply preserves_try; [apply add_keeps|intros _; apply preserves_return]. Qed.

Lemma kept_tables_self a : kept_tables (pickleKey a) (delegate_initialized a) (outbound a) (inbound a) a.
Proof. split_and!; try done. Qed.

Lemma importSessionKeys_keeps s keys a :
  kept_tables (pickleKey a) (delegate_initialized a) (outbound a) (inbound a) (post (importSessionKeys s keys a)).
Proof.
  set (body := js_for keys (fun key =>
    js_try (importStreamKey_from (inbound a !! (s, gs_sessionId key)) s key) (fun _ => js_return))).
  assert (importSessionKeys s keys a = withGroupSessions store_lens body a) as ->.
  { unfold importSessionKeys, withGroupSessions. rewrite (bind_run _ _ _ (Ok a)) by done. done. }
  refine (inv_withGroupSessions _ _ _ _ _ a (kept_tables_self a)).
  apply preserves_for. intros key _. apply preserves_try; [|intros _; apply preserves_return].
  apply importStreamKey_from_keeps.
Qed.
End Lemmas.
