(* ===== verification/GroupMessages.v ===== *)
(** * Encrypted messages between devices

    What a device does over time is a sequence of operations ([crypto_op]) on its
    state. Whatever they are, the sessions a device encrypts with stay readable from
    their first message on, so that what it encrypts can be read by every device that
    imports the exported session, at any later time. *)

From S2P Require Import Prelude Proto Types DecryptionQueues DecryptionExtensions CryptoStore Olm EncryptionDevice GroupEncryption.

(** The calls made on a device and its store by the client. *)
Inductive crypto_op :=
| OpInit
| OpMarkKeysAsPublished
| OpForgetOldFallbackKey
| OpEnsureOutboundSession (streamId : string) (awaitInitialShareSession : bool)
| OpShareSession (streamId sessionId : string)
| OpEncryptGroupEvent (streamId payload : string)
| OpDecryptGroupEvent (streamId : string) (content : EncryptedData)
| OpImportSessionKeys (streamId : string) (keys : list GroupEncryptionSession)
| OpExportInboundGroupSession (streamId sessionId : string)
| OpHasInboundSessionKeys (streamId sessionId : string)
| OpEncryptWithDeviceKeys (payload : string) (deviceKeys : list UserDevice)
| OpDecryptWithDeviceKey (ciphertext senderDeviceKey : string)
| OpInitializeStore (now : Z)
| OpSaveUserDevices (now : Z) (userId : string) (devices : list UserDevice) (expirationMs : Z)
| OpDeleteAccount (userId : string).

Definition ignore {E S A} (m : JS E S A) : JS E S unit := _ ← m; js_return.

Section GroupMessages.
Context `{OlmLaws}.

Definition run_op (client : IGroupEncryptionClient) (op : crypto_op) : JS CryptoEvent DeviceState unit :=
  match op with
  | OpInit => crypto_init
  | OpMarkKeysAsPublished => markKeysAsPublished
  | OpForgetOldFallbackKey => forgetOldFallbackKey
  | OpEnsureOutboundSession streamId await => ensureOutboundSession client streamId await
  | OpShareSession streamId sessionId => shareSession client streamId sessionId
  | OpEncryptGroupEvent streamId payload => ignore (encryptGroupEvent client streamId payload)
  | OpDecryptGroupEvent streamId content => ignore (decryptGroupEvent streamId content)
  | OpImportSessionKeys streamId keys => importSessionKeys streamId keys
  | OpExportInboundGroupSession streamId sessionId => ignore (exportInboundGroupSession streamId sessionId)
  | OpHasInboundSessionKeys streamId sessionId => ignore (hasInboundSessionKeys streamId sessionId)
  | OpEncryptWithDeviceKeys payload deviceKeys => ignore (encryptWithDeviceKeys payload deviceKeys)
  | OpDecryptWithDeviceKey ciphertext senderDeviceKey => ignore (decryptWithDeviceKey ciphertext senderDeviceKey)
  | OpInitializeStore now => on_store (initialize now)
  | OpSaveUserDevices now userId devices ms => on_store (saveUserDevices now userId devices ms)
  | OpDeleteAccount userId => on_store (deleteAccount userId)
  end.

(** The id of the next session made is new: ids are public keys of key pairs drawn at
    random. *)
Definition unused_id (a : DeviceState) : Prop :=
  forall s, inbound a !! (s, session_id (out_create (entropy a))) = None.

Inductive crypto_step : DeviceState -> DeviceState -> Prop :=
| crypto_step_op client op a : unused_id a -> crypto_step a (post (run_op client op a)).

(** ** Every session a device encrypts with can be exported from its first message *)

Definition source (a : DeviceState) (s : string) (o : OutboundGroupSession) : Prop :=
  exists d i, inbound a !! (s, session_id o) = Some d /\ igs_stream_id d = s /\ igs_untrusted d <> Some true
    /\ in_unpickle (pickleKey a) (igs_session d) = Ok i /\ first_known_index i = 0
    /\ in_session_id i = session_id o /\ follows i o.

Definition own_sessions_ok (a : DeviceState) : Prop :=
  forall s r, outbound a !! s = Some r ->
    exists o, gsr_session r <> "" /\ out_unpickle (pickleKey a) (gsr_session r) = Ok o
      /\ gsr_sessionId r = session_id o /\ gsr_streamId r = s /\ source a s o.

(** What a step may do to the device. *)
Definition advances (a a' : DeviceState) : Prop :=
  pickleKey a' = pickleKey a /\ (delegate_initialized a = true -> delegate_initialized a' = true)
  /\ keeps (pickleKey a) (inbound a) (inbound a').

#[global] Instance advances_preorder : PreOrder advances.
Proof.
  split; [intros a; split_and!; [done|done|reflexivity]|].
  intros a b c (Hk1 & Hi1 & Hp1) (Hk2 & Hi2 & Hp2). rewrite Hk1 in Hk2, Hp2.
  split_and!; [done|auto|by etrans].
Qed.

Lemma source_advances a a' s o : advances a a' -> source a s o -> source a' s o.
Proof.
  intros (Hk & _ & Hp) (d & i & Hd & Hs & Ht & Hu & Hz & Hid & Hf). exists d, i.
  rewrite Hk. split_and!; try done. apply Hp; [done|]. split; eauto.
Qed.

Lemma kept_advances a a' :
  kept_tables (pickleKey a) (delegate_initialized a) (outbound a) (inbound a) a' -> advances a a'.
Proof. intros [[Hk Hi] [_ Hp]]. done. Qed.

Lemma own_sessions_kept a a' :
  kept_tables (pickleKey a) (delegate_initialized a) (outbound a) (inbound a) a' ->
  own_sessions_ok a -> own_sessions_ok a'.
Proof.
  intros Hkept Ha s r Hr. pose proof (kept_advances _ _ Hkept) as Hadv.
  destruct Hkept as [[Hk _] [Ho _]]. rewrite Ho in Hr.
  destruct (Ha s r Hr) as (o & Hne & Hu & Hid & Hst & Hsrc). exists o. rewrite Hk.
  split_and!; try done. by eapply source_advances.
Qed.

(** *** A message *)

Lemma outbound_session_own a s o :
  own_sessions_ok a -> outbound_session a s = Ok o -> source a s o.
Proof.
  intros Ha Ho. unfold outbound_session in Ho. destruct (outbound a !! s) as [r|] eqn:Hr; [|done].
  destruct (Ha s r Hr) as (o' & Hne & Hu & _ & _ & Hsrc). rewrite bool_decide_false in Ho by done.
  destruct (delegate_initialized a); [|done]. congruence.
Qed.

Lemma put_outbound_advances s o a : advances a (put_outbound s o a).
Proof. split_and!; [done|done|reflexivity]. Qed.

Lemma put_outbound_own s o a : own_sessions_ok a -> source a s o -> own_sessions_ok (put_outbound s o a).
Proof.
  intros Ha Hsrc s' r. simpl. rewrite lookup_insert_Some. intros [[<- <-]|[Hne Hr]].
  - exists o. simpl. rewrite out_unpickle_pickle. pose proof (out_pickle_nonempty (pickleKey a) o).
    split_and!; try done; by eapply source_advances.
  - destruct (Ha s' r Hr) as (o' & ? & ? & ? & ? & ?). exists o'. split_and!; try done.
Qed.

Lemma source_encrypt a s o m : source a s o -> source a s (out_encrypt o m).2.
Proof.
  intros (d & i & Hd & Hs & Ht & Hu & Hz & Hid & Hf). exists d, i. rewrite session_id_encrypt.
  split_and!; try done. by apply follows_encrypt.
Qed.

(** *** A new session *)

Lemma put_session_advances s i a : unused_id a -> advances a (put_session s (out_create (entropy a)) i a).
Proof.
  intros Hn. split_and!; [done|done|]. intros k d Hd _. simpl. rewrite lookup_insert_ne; [done|].
  intros <-. by rewrite Hn in Hd.
Qed.

Lemma put_session_source s a i :
  in_create (session_key (out_create (entropy a))) = Ok i ->
  source (put_session s (out_create (entropy a)) i a) s (out_create (entropy a)).
Proof.
  intros Hc. destruct (in_create_session_key (out_create (entropy a))) as (i' & Hc' & Hid & Hz & Hf).
  rewrite Hc in Hc'. injection Hc' as <-. eexists _, i. simpl. rewrite lookup_insert_eq.
  split_and!; [done|done|done|apply in_unpickle_pickle| |done|done]. by rewrite Hz, out_create_index.
Qed.

Lemma put_session_own s a i :
  unused_id a -> own_sessions_ok a -> in_create (session_key (out_create (entropy a))) = Ok i ->
  own_sessions_ok (put_session s (out_create (entropy a)) i a).
Proof.
  intros Hn Ha Hc s' r. simpl. rewrite lookup_insert_Some. intros [[<- <-]|[Hne Hr]].
  - exists (out_create (entropy a)). simpl. rewrite out_unpickle_pickle.
    pose proof (out_pickle_nonempty (pickleKey a) (out_create (entropy a))).
    split_and!; try done. by apply put_session_source.
  - destruct (Ha s' r Hr) as (o' & ? & ? & ? & ? & ?). exists o'. split_and!; try done.
    eapply source_advances; [by apply put_session_advances|done].
Qed.

(** *** The operations that make sessions *)

Lemma getKey_run {E} s a :
  (getOutboundGroupSessionKey s : JS E _ _) a
  = Outcome (o ← outbound_session a s; Ok (message_index o, session_key o)) a [].
Proof.
  unfold getOutboundGroupSessionKey. rewrite (bind_run _ _ _ _ (getOutbound_run s a)).
  by destruct (outbound_session a s).
Qed.

Lemma ensure_run client s await a :
  ensureOutboundSession client s await a =
  match outbound_session a s with
  | Ok _ => Outcome (Ok tt) a []
  | Throw _ =>
      (sessionId ← createOutboundGroupSession s;
       if await then shareSession client s sessionId else js_emit true (ShareSession s sessionId)) a
  end.
Proof.
  unfold ensureOutboundSession, js_try. rewrite (bind_run _ _ _ _ (getKey_run s a)).
  destruct (outbound_session a s) as [o|e]; [done|]. res_simpl.
  match goal with |- match ?x with Outcome _ _ _ => _ end = _ => by destruct x end.
Qed.

Lemma share_kept client s i pk ini P : preserves (group_inv pk ini P) (shareSession client s i).
Proof.
  unfold shareSession. apply preserves_bind; [apply preserves_lift|intros ds].
  apply preserves_bind; [apply inv_export|]. intros [session|]; [|apply preserves_throw].
  apply preserves_bind; [apply preserves_emit|intros _; apply preserves_lift].
Qed.

(** A step the device makes keeps what was said of it. *)
Definition good (a a' : DeviceState) : Prop := advances a a' /\ own_sessions_ok a'.

Lemma good_kept a a' :
  own_sessions_ok a -> kept_tables (pickleKey a) (delegate_initialized a) (outbound a) (inbound a) a' -> good a a'.
Proof. intros Ha Hk. split; [by apply kept_advances|by eapply own_sessions_kept]. Qed.

Lemma good_preserves {E A} (m : JS E DeviceState A) a :
  own_sessions_ok a -> (forall pk ini P, preserves (group_inv pk ini P) m) -> good a (post (m a)).
Proof. intros Ha Hm. apply good_kept; [done|]. apply Hm, kept_tables_self. Qed.

Lemma good_bind {E A B} (m : JS E DeviceState A) (k : A -> JS E DeviceState B) a :
  good a (post (m a)) -> (forall x a1, own_sessions_ok a1 -> good a1 (post (k x a1))) -> good a (post ((m ≫= k) a)).
Proof.
  intros [Hadv Hown] Hk. unfold mbind, JS_mbind, js_bind. destruct (m a) as [[x|e] a1 w]; [|done]. simpl in *.
  destruct (Hk x a1 Hown) as [Hadv' Hown']. destruct (k x a1). simpl in *. split; [by etrans|done].
Qed.

Lemma ensure_ok client s await a :
  unused_id a -> own_sessions_ok a -> good a (post (ensureOutboundSession client s await a)).
Proof.
  intros Hn Ha. rewrite ensure_run. destruct (outbound_session a s); [done|].
  destruct (delegate_initialized a) eqn:Hi; [|by rewrite (bind_run _ _ _ _ (createOutbound_fails s a Hi))].
  destruct (in_create_session_key (out_create (entropy a))) as (i & Hc & _).
  rewrite (bind_Ok _ _ _ _ _ _ (createOutbound_run s a i Hi Hc)). cbn [post].
  pose proof (put_session_advances s i a Hn) as Hadv. pose proof (put_session_own s a i Hn Ha Hc) as Hown.
  set (a1 := put_session _ _ _ _) in *. destruct await; [|done].
  pose proof (share_kept client s (session_id (out_create (entropy a))) _ _ _ a1 (kept_tables_self a1)) as Hk.
  destruct (good_kept _ _ Hown Hk) as [Hadv' Hown']. split; [by etrans|done].
Qed.

Lemma encryptMessage_ok {E} m s a :
  own_sessions_ok a -> good a (post ((encryptGroupMessage m s : JS E _ _) a)).
Proof.
  intros Ha. destruct (checkPayloadLength m) as [[]|e] eqn:Hm; [|by rewrite (encryptGroupMessage_fails m s a e) by eauto].
  destruct (outbound_session a s) as [o|e] eqn:Ho; [|by rewrite (encryptGroupMessage_fails m s a e) by eauto].
  rewrite (encryptGroupMessage_run m s o a Hm Ho). simpl. split; [apply put_outbound_advances|].
  apply put_outbound_own; [done|]. by apply source_encrypt, outbound_session_own.
Qed.

Lemma inv_encryptWithDeviceKeys pk ini P m ds : preserves (group_inv pk ini P) (encryptWithDeviceKeys m ds).
Proof.
  induction ds as [|d ds IH]; simpl; [apply preserves_mret|].
  apply preserves_bind; [apply inv_encryptUsingFallbackKey|]. intros [t body].
  apply preserves_bind; [apply preserves_lift|intros _]. apply preserves_bind; [done|intros r; apply preserves_mret].
Qed.

Lemma spares_saveUserDevices {E} now uid ds ms : spares_sessions (saveUserDevices now uid ds ms : JS E _ _).
Proof.
  intros c. enough (preserves (fun c' => outboundGroupSessions c' = outboundGroupSessions c
    /\ inboundGroupSessions c' = inboundGroupSessions c) (saveUserDevices now uid ds ms : JS E _ _)) as Hp by by apply Hp.
  apply preserves_for. intros d _. by apply preserves_modify.
Qed.

Lemma inv_decryptGroupEvent pk ini P s c : preserves (group_inv pk ini P) (decryptGroupEvent s c).
Proof.
  unfold decryptGroupEvent. case_match; [apply preserves_throw|]. apply preserves_bind; [apply inv_getInbound|].
  intros [[i d]|]; [apply preserves_lift|apply preserves_throw].
Qed.

(** The operation keeps every invariant of the tables, by the given lemma. *)
Tactic Notation "kept" uconstr(l) := apply good_preserves; [assumption|intros ? ? ?; apply l; try done].

Lemma run_op_good client op a : unused_id a -> own_sessions_ok a -> good a (post (run_op client op a)).
Proof.
  intros Hn Ha. destruct op; cbn [run_op]; unfold ignore;
    try match goal with |- good _ (post ((_ ≫= _) _)) => apply good_bind; [|by intros x a1 Ha1] end.
  - kept inv_init.
  - kept inv_mark.
  - kept inv_forget.
  - by apply ensure_ok.
  - kept share_kept.
  - apply good_bind; [by apply ensure_ok|]. intros _ a1 Ha1.
    apply good_bind; [by apply encryptMessage_ok|]. by intros [c i] a2 Ha2.
  - kept inv_decryptGroupEvent.
  - apply good_kept; [done|]. apply importSessionKeys_keeps.
  - kept inv_export.
  - kept inv_hasInbound.
  - kept inv_encryptWithDeviceKeys.
  - kept inv_decryptMessage.
  - kept inv_on_store.
  - kept inv_on_store. apply spares_saveUserDevices.
  - kept inv_on_store.
Qed.

Lemma steps_good a a' : rtc crypto_step a a' -> own_sessions_ok a -> good a a'.
Proof.
  induction 1 as [a|a b c [client op a' Hn] _ IH]; intros Ha; [done|].
  destruct (run_op_good client op a' Hn Ha) as [Hadv Hown]. destruct (IH Hown) as [Hadv' Hown'].
  split; [by etrans|done].
Qed.

(** ** Stored inbound sessions are well formed *)

Definition inbound_wf (pk : string) (t : gmap (string * string) InboundGroupSessionData) : Prop :=
  forall s i d, t !! (s, i) = Some d ->
    igs_stream_id d = s /\ exists x, in_unpickle pk (igs_session d) = Ok x /\ in_session_id x = i.

Section WellFormed.
Context {E : Type} (pk : string) (ini : bool).
Abbreviation wf := (group_inv pk ini (fun _ t => inbound_wf pk t)).

Lemma wf_put s i d :
  igs_stream_id d = s -> (exists x, in_unpickle pk (igs_session d) = Ok x /\ in_session_id x = i) ->
  preserves wf (on_store (storeEndToEndInboundGroupSession s i d) : JS E _ _).
Proof.
  intros Hs Hx a [Hk Hwf]. split; [done|]. intros s' i' d'. simpl.
  rewrite lookup_insert_Some. intros [[Heq <-]|[_ Hd]]; [injection Heq as <- <-; done|eauto].
Qed.

Lemma wf_store_session s x claimed untrusted :
  preserves wf (store_session s (in_session_id x) x claimed untrusted : JS E _ _).
Proof.
  apply preserves_get_bind. intros a Ha. apply wf_put; [done| |done]. simpl.
  destruct Ha as [[-> _] _]. exists x. split; [apply in_unpickle_pickle|done].
Qed.

Lemma wf_add existing s i key claimed untrusted :
  (forall x d, existing = Some (x, d) ->
     igs_stream_id d = s /\ exists y, in_unpickle pk (igs_session d) = Ok y /\ in_session_id y = i) ->
  preserves wf (add_to_existing existing s i key claimed untrusted : JS E _ _).
Proof.
  intros Hex. unfold add_to_existing.
  apply preserves_bind; [apply inv_delegate_create|intros _]. apply preserves_bind; [apply preserves_lift|intros x].
  case_bool_decide as Hid; simpl; [|apply preserves_throw]. subst i.
  pose proof (wf_store_session s x claimed untrusted) as Hst.
  destruct existing as [[y d]|]; [|done]. case_match; [|done]. case_match; [apply preserves_return|]. case_match; [|done].
  apply preserves_bind; [apply preserves_lift|intros old]. apply preserves_bind; [apply preserves_lift|intros new].
  apply preserves_when. intros _. destruct (Hex y d eq_refl). by apply wf_put.
Qed.

Lemma wf_inbound_of t s i a existing a1 w :
  inbound_wf pk t -> (inbound_of (t !! (s, i)) : JS E _ _) a = Outcome (Ok existing) a1 w ->
  forall x d, existing = Some (x, d) ->
    igs_stream_id d = s /\ exists y, in_unpickle pk (igs_session d) = Ok y /\ in_session_id y = i.
Proof.
  intros Ht Hrun x d ->. rewrite inbound_of_run in Hrun. destruct (t !! (s, i)) as [d'|] eqn:Hd; [|done].
  destruct (inbound_session a d'); [|done]. res_simpl_in Hrun. simplify_eq. eauto.
Qed.

Lemma wf_import_row t s i key claimed untrusted :
  inbound_wf pk t ->
  preserves wf (inbound_of (t !! (s, i)) ≫= fun existing => add_to_existing existing s i key claimed untrusted : JS E _ _).
Proof.
  intros Ht a Ha. destruct ((inbound_of (t !! (s, i)) : JS E _ _) a) as [[existing|e] a1 w] eqn:Hrun.
  - rewrite (bind_Ok _ _ _ _ _ _ Hrun). simpl. apply wf_add; [by eapply wf_inbound_of|].
    rewrite inbound_of_run in Hrun. by simplify_eq.
  - rewrite (bind_Throw _ _ _ _ _ _ Hrun). simpl. rewrite inbound_of_run in Hrun. by simplify_eq.
Qed.

Lemma wf_createOutbound s : preserves wf (createOutboundGroupSession s : JS E _ _).
Proof.
  intros a Ha. destruct (delegate_initialized a) eqn:Hi; [|by rewrite createOutbound_fails].
  destruct (in_create_session_key (out_create (entropy a))) as (x & Hc & Hid & _).
  rewrite (createOutbound_run s a x Hi Hc). destruct Ha as [[Hk Hini] Hwf]. split; [done|].
  intros s' i d. simpl. rewrite lookup_insert_Some. intros [[Heq <-]|[_ Hd]]; [|eauto].
  injection Heq as <- <-. split; [done|]. exists x. simpl. rewrite Hk. split; [apply in_unpickle_pickle|done].
Qed.

Lemma wf_encryptGroupMessage m s : preserves wf (encryptGroupMessage m s : JS E _ _).
Proof.
  unfold encryptGroupMessage. apply inv_withGroupSessions.
  apply preserves_bind; [apply preserves_lift|intros _]. apply preserves_bind; [apply inv_getOutbound|intros o].
  destruct (out_encrypt o m) as [c o']. apply preserves_bind; [by intros a Ha|intros _; apply preserves_mret].
Qed.
End WellFormed.

Lemma wf_ensure pk ini client s await :
  preserves (group_inv pk ini (fun _ t => inbound_wf pk t)) (ensureOutboundSession client s await).
Proof.
  apply preserves_try.
  - apply preserves_bind; [|intros _; apply preserves_return]. intros a Ha. by rewrite getKey_run.
  - intros _. apply preserves_bind; [apply wf_createOutbound|intros i].
    destruct await; [apply share_kept|apply preserves_emit].
Qed.

Lemma wf_importSessionKeys pk ini s keys :
  preserves (group_inv pk ini (fun _ t => inbound_wf pk t)) (importSessionKeys s keys).
Proof.
  apply inv_withGroupSessions, preserves_get_bind. intros a Ha. assert (inbound_wf pk (inbound a)) as Ht by apply Ha.
  apply preserves_for; [|done]. intros key _.
  do 2 (apply preserves_try; [|intros _; apply preserves_return]). by apply wf_import_row.
Qed.

Lemma run_op_wf pk ini client op : preserves (group_inv pk ini (fun _ t => inbound_wf pk t)) (run_op client op).
Proof.
  destruct op; cbn [run_op]; unfold ignore;
    try match goal with |- preserves _ (_ ≫= _) => apply preserves_bind; [|intros x; apply preserves_return] end.
  - apply inv_init.
  - apply inv_mark.
  - apply inv_forget.
  - apply wf_ensure.
  - apply share_kept.
  - apply preserves_bind; [apply wf_ensure|intros _]. apply preserves_bind; [apply wf_encryptGroupMessage|].
    intros [c i]. apply preserves_bind; [apply preserves_get|intros self; apply preserves_mret].
  - apply inv_decryptGroupEvent.
  - apply wf_importSessionKeys.
  - apply inv_export.
  - apply inv_hasInbound.
  - apply inv_encryptWithDeviceKeys.
  - apply inv_decryptMessage.
  - by apply inv_on_store.
  - apply inv_on_store, spares_saveUserDevices.
  - by apply inv_on_store.
Qed.

Lemma crypto_steps_wf pk ini a a' :
  rtc crypto_step a a' -> group_inv pk ini (fun _ t => inbound_wf pk t) a -> group_inv pk ini (fun _ t => inbound_wf pk t) a'.
Proof. induction 1 as [a|a b c [client op a' Hn] _ IH]; intros Ha; [done|]. by apply IH, run_op_wf. Qed.

(** ** Importing a key *)

Lemma import_new_run s key x b :
  delegate_initialized b = true -> inbound b !! (s, gs_sessionId key) = None ->
  import_session (gs_sessionKey key) = Ok x -> in_session_id x = gs_sessionId key ->
  importSessionKeys s [key] b
  = Outcome (Ok tt) (set_cryptoStore (set_inbound <[(s, gs_sessionId key) :=
        mkInboundGroupSessionData s (in_pickle (pickleKey b) x) [] None]> (cryptoStore b)) b) [].
Proof.
  intros Hi Hn Hx Hid. unfold importSessionKeys. apply tx_Ok. rewrite (bind_run _ _ _ (Ok b)) by done.
  simpl js_for. rewrite Hn. unfold importStreamKey_from, inbound_of. unfold add_to_existing.
  unfold js_try, delegate_create, store_session, on_store, read_session_key. js_unfold. simpl.
  rewrite Hi, Hx, Hid, bool_decide_true by done. done.
Qed.

Lemma decrypt_run s c b d x m :
  delegate_initialized b = true -> ed_senderKey c <> "" -> ed_sessionId c <> "" -> ed_ciphertext c <> "" ->
  inbound b !! (s, ed_sessionId c) = Some d -> in_unpickle (pickleKey b) (igs_session d) = Ok x ->
  in_decrypt x (ed_ciphertext c) = Ok m ->
  decryptGroupEvent s c b = Outcome (Ok m) b [].
Proof.
  intros Hi H1' H2' H3' Hd Hu Hm. unfold decryptGroupEvent. rewrite !bool_decide_false by done. cbn [orb].
  assert (getInboundGroupSession s (ed_sessionId c) b
    = (Outcome (Ok (Some (x, d))) b [] : outcome CryptoEvent _ _)) as Hrun.
  { unfold getInboundGroupSession. rewrite (bind_run _ _ _ _ (getInboundRow_run s (ed_sessionId c) b)), Hd, inbound_of_run.
    unfold inbound_session. by rewrite Hi, Hu. }
  rewrite (bind_run _ _ _ _ Hrun). unfold js_lift. by rewrite Hm.
Qed.

Lemma decrypt_missing s c b :
  ed_senderKey c <> "" -> ed_sessionId c <> "" -> ed_ciphertext c <> "" -> inbound b !! (s, ed_sessionId c) = None ->
  exists e, res (decryptGroupEvent s c b) = Throw e /\ isSessionNotFoundError e = true.
Proof.
  intros H1' H2' H3' Hn. unfold decryptGroupEvent. rewrite !bool_decide_false by done. cbn [orb].
  assert (getInboundGroupSession s (ed_sessionId c) b = (Outcome (Ok None) b [] : outcome CryptoEvent _ _)) as Hrun.
  { unfold getInboundGroupSession. by rewrite (bind_run _ _ _ _ (getInboundRow_run s (ed_sessionId c) b)), Hn. }
  rewrite (bind_run _ _ _ _ Hrun). by eexists.
Qed.

(** ** Theorems *)

Definition new_device (ini : bool) (uid : string) (n : nat) : DeviceState :=
  new_EncryptionDevice ini (new_CryptoStore uid) n.

(** C20: at every moment of a device's life, whatever keys it is offered, the stored
    sessions are well formed: a row of an inbound session unpickles to a session of
    that id and names its stream; the outbound session of a stream has a trusted
    inbound counterpart in the store that reads all its messages from the first one
    on, under the same session id. *)
Theorem stored_sessions_typed ini uid n a :
  rtc crypto_step (new_device ini uid n) a ->
  inbound_wf "DEFAULT_KEY" (inbound a) /\ own_sessions_ok a.
Proof.
  intros Hsteps. split.
  - refine (proj2 (crypto_steps_wf "DEFAULT_KEY" false _ _ Hsteps _)). by split; [|intros s i d].
  - apply (steps_good _ _ Hsteps). by intros s r.
Qed.

(** A device that may send: started, with a key. *)
Definition ready (a : DeviceState) : Prop :=
  delegate_initialized a = true /\ exists k, deviceCurve25519Key a = Some k /\ k <> "".

(** What a device encrypts for a stream, and the state after. *)
Lemma encryptGroupEvent_ok client s m a :
  ready a -> unused_id a -> own_sessions_ok a -> checkPayloadLength m = Ok tt ->
  exists data a1 w o, encryptGroupEvent client s m a = Outcome (Ok data) a1 w
    /\ ed_ciphertext data = (out_encrypt o m).1 /\ ed_sessionId data = session_id o /\ ed_senderKey data <> ""
    /\ source a1 s o /\ own_sessions_ok a1 /\ delegate_initialized a1 = true.
Proof.
  intros [Hi (k & Hkey & Hne)] Hn Ha Hm. unfold encryptGroupEvent.
  assert (exists a1 w o, ensureOutboundSession client s false a = Outcome (Ok tt) a1 w /\ outbound_session a1 s = Ok o
    /\ own_sessions_ok a1 /\ delegate_initialized a1 = true /\ deviceCurve25519Key a1 = Some k)
    as (a1 & w & o & Hens & Ho & Hown & Hi1 & Hk1).
  { pose proof (proj2 (ensure_ok client s false a Hn Ha)) as Hown. rewrite ensure_run in *.
    destruct (outbound_session a s) as [o|e] eqn:Ho; [by exists a, [], o|].
    destruct (in_create_session_key (out_create (entropy a))) as (i & Hc & _).
    rewrite (bind_Ok _ _ _ _ _ _ (createOutbound_run s a i Hi Hc)) in *. eexists _, _, (out_create (entropy a)).
    split; [done|]. split_and!; try done. unfold outbound_session. simpl. rewrite lookup_insert_eq. simpl.
    rewrite bool_decide_false by apply out_pickle_nonempty. rewrite Hi. apply out_unpickle_pickle. }
  pose proof (outbound_session_own a1 s o Hown Ho) as Hsrc.
  rewrite (bind_Ok _ _ _ _ _ _ Hens). rewrite (bind_Ok _ _ _ _ _ _ (encryptGroupMessage_run m s o a1 Hm Ho)).
  eexists _, _, _, o. split; [done|]. simpl. rewrite Hk1. split_and!; try done.
  apply put_outbound_own; [done|]. by apply source_encrypt.
Qed.

Lemma message_readable client s m a :
  ready a -> unused_id a -> own_sessions_ok a -> Z.of_nat (String.length m) <= MAX_PLAINTEXT_LENGTH ->
  exists data a1 w, encryptGroupEvent client s m a = Outcome (Ok data) a1 w
    /\ forall a2, rtc crypto_step a1 a2 ->
        res (decryptGroupEvent s data a2) = Ok m
        /\ exists key, (exportInboundGroupSession s (ed_sessionId data) a2 : outcome CryptoEvent _ _) = Outcome (Ok (Some key)) a2 []
        /\ forall b, delegate_initialized b = true -> own_sessions_ok b -> inbound b !! (s, ed_sessionId data) = None ->
            (exists e, res (decryptGroupEvent s data b) = Throw e /\ isSessionNotFoundError e = true)
            /\ forall b2, rtc crypto_step (post (importSessionKeys s [key] b)) b2 -> res (decryptGroupEvent s data b2) = Ok m.
Proof.
  intros Hr Hn Ha Hm. assert (checkPayloadLength m = Ok tt) as Hlen.
  { unfold checkPayloadLength. by rewrite (proj2 (Z.ltb_ge _ _)) by lia. }
  destruct (encryptGroupEvent_ok client s m a Hr Hn Ha Hlen) as (data & a1 & w & o & Hrun & Hc & Hid & Hsk & Hsrc & Hown & Hi1).
  exists data, a1, w. split; [done|]. intros a2 Hsteps.
  assert (ed_sessionId data <> "" /\ ed_ciphertext data <> "") as [Hne1 Hne2].
  { rewrite Hid, Hc. split; [apply session_id_nonempty|apply ciphertext_nonempty]. }
  destruct (steps_good _ _ Hsteps Hown) as [Hadv _]. pose proof (source_advances _ _ _ _ Hadv Hsrc) as Hsrc2.
  destruct Hadv as (_ & Hi2 & _). specialize (Hi2 Hi1).
  destruct Hsrc2 as (d & i & Hd & _ & _ & Hu & Hz & Hsid & Hf). rewrite <- Hid in Hd.
  split; [erewrite decrypt_run; try done; rewrite Hc; by apply follows_decrypt|].
  destruct (export_import i) as (key & i' & Hexp & Himp & Hid' & Hz' & Hf').
  eexists. split; [apply (export_run _ _ d i key a2 Hd); [|done]; unfold inbound_session; by rewrite Hi2|].
  intros b Hib Hownb Hnone. split; [by apply decrypt_missing|]. intros b2 Hstepsb.
  rewrite (import_new_run _ _ i') in Hstepsb; simpl in *; try done; [|congruence].
  set (b1 := set_cryptoStore _ b) in Hstepsb.
  assert (own_sessions_ok b1) as Hown1.
  { eapply own_sessions_kept; [|exact Hownb]. split; [done|]. split; [done|]. intros k d' Hd' _. simpl.
    rewrite lookup_insert_ne; [done|]. intros <-. congruence. }
  destruct (steps_good _ _ Hstepsb Hown1) as [(Hkb & Hib2 & Hkeep) _].
  erewrite decrypt_run; try done; [by apply Hib2|apply Hkeep; [by apply lookup_insert_eq|]| |]; simpl.
  - split; [done|]. exists i'. split; [apply in_unpickle_pickle|congruence].
  - rewrite Hkb. apply in_unpickle_pickle.
  - rewrite Hc. by apply follows_decrypt, Hf'.
Qed.

(** C21: what a device encrypts for a stream is read back. Encrypting succeeds for
    every text within the length limit; at any later time, whatever the device and
    its peers have done, the device can read the message and can export the session,
    and any device that has no key for that session fails with an error the decryption
    extension takes for a missing session, and reads the message from the moment on
    it imports the exported key. *)
Theorem group_message_roundtrip client s m a :
  ready a -> unused_id a -> own_sessions_ok a -> Z.of_nat (String.length m) <= MAX_PLAINTEXT_LENGTH ->
  exists data a1 w, encryptGroupEvent client s m a = Outcome (Ok data) a1 w
    /\ forall a2, rtc crypto_step a1 a2 ->
        res (decryptGroupEvent s data a2) = Ok m
        /\ exists key, (exportInboundGroupSession s (ed_sessionId data) a2 : outcome CryptoEvent _ _) = Outcome (Ok (Some key)) a2 []
        /\ forall b, delegate_initialized b = true -> own_sessions_ok b -> inbound b !! (s, ed_sessionId data) = None ->
            (exists e, res (decryptGroupEvent s data b) = Throw e /\ isSessionNotFoundError e = true)
            /\ forall b2, rtc crypto_step (post (importSessionKeys s [key] b)) b2 -> res (decryptGroupEvent s data b2) = Ok m.
Proof. apply message_readable. Qed.
End GroupMessages.

(** ** Example device *)
Definition demo_device : DeviceState := post (crypto_init (new_device true "alice" 3)).
Definition demo_client : IGroupEncryptionClient := mkGroupEncryptionClient (fun _ => Ok []) (fun _ _ _ => Ok tt).

Lemma demo_ready : ready demo_device /\ unused_id demo_device /\ own_sessions_ok demo_device.
Proof.
  assert (outbound demo_device = ∅ /\ inbound demo_device = ∅) as [Ho Hi] by (vm_compute; done).
  split_and!.
  - split; [vm_compute; reflexivity|]. eexists. split; [vm_compute; reflexivity|discriminate].
  - intros s. by rewrite Hi.
  - intros s r. by rewrite Ho.
Qed.

Lemma stored_sessions_typed_witness :
  rtc crypto_step (new_device true "alice" 3) demo_device /\ inbound_wf "DEFAULT_KEY" (inbound demo_device) /\ own_sessions_ok demo_device.
Proof.
  assert (rtc crypto_step (new_device true "alice" 3) demo_device) as Hs
    by (apply rtc_once, (crypto_step_op demo_client OpInit); by intros s).
  split; [exact Hs|]. exact (stored_sessions_typed true "alice" 3 demo_device Hs).
Defined.

Lemma group_message_roundtrip_witness :
  exists data a1 w, encryptGroupEvent demo_client "20" "hello" demo_device = Outcome (Ok data) a1 w
    /\ forall a2, rtc crypto_step a1 a2 ->
        res (decryptGroupEvent "20" data a2) = Ok "hello"
        /\ exists key, (exportInboundGroupSession "20" (ed_sessionId data) a2 : outcome CryptoEvent _ _) = Outcome (Ok (Some key)) a2 []
        /\ forall b, delegate_initialized b = true -> own_sessions_ok b -> inbound b !! ("20", ed_sessionId data) = None ->
            (exists e, res (decryptGroupEvent "20" data b) = Throw e /\ isSessionNotFoundError e = true)
            /\ forall b2, rtc crypto_step (post (importSessionKeys "20" [key] b)) b2 -> res (decryptGroupEvent "20" data b2) = Ok "hello".
Proof. apply (group_message_roundtrip demo_client "20" "hello" demo_device); try apply demo_ready. vm_compute. congruence. Defined.
