(* ===== verification/DeviceKeys.v ===== *)
(** * Device keys and messages to devices

    Starting a device gives it keys, the same ones on every start with the same store;
    what is encrypted for the published keys of a device is read by it, as long as the
    encrypted text is within the limit the device sets for reading. The second part is
    about the import of session keys. *)

From S2P Require Import Prelude Proto Types DecryptionExtensions CryptoStore Olm EncryptionDevice GroupEncryption.

Section DeviceKeys.
Context `{OlmLaws}.

(** The account in the store. *)
Definition stored_account (a : DeviceState) : result Account :=
  match account (cryptoStore a) !! userId (cryptoStore a) with
  | None => Throw (JsError "account not found")
  | Some r => account_unpickle (pickleKey a) (ar_accountPickle r)
  end.

Definition fallback_of (acc : Account) : result FallbackKey :=
  match unpublished_fallback_key acc with
  | (keyId, key) :: _ =>
      if bool_decide (key = "") || bool_decide (keyId = "") then Throw (JsError "No fallback key")
      else Ok (mkFallbackKey keyId key)
  | [] => Throw (JsError "No fallback key")
  end.

Definition put_account (acc : Account) (a : DeviceState) : DeviceState :=
  set_cryptoStore (set_account <[userId (cryptoStore a) := mkAccountRecord (userId (cryptoStore a)) (account_pickle (pickleKey a) acc)]>
                     (cryptoStore a)) a.

Lemma stored_put acc a : stored_account (put_account acc a) = Ok acc.
Proof. unfold stored_account. simpl. rewrite lookup_insert_eq. apply account_unpickle_pickle. Qed.

Section Runs.
Context {E : Type}.

Lemma getAccount_run a :
  delegate_initialized a = true -> (getAccount : JS E _ _) a = Outcome (stored_account a) a [].
Proof.
  intros Hi. unfold getAccount, stored_account, on_store, CryptoStore.getAccount, delegate_create. js_unfold. simpl.
  destruct (account _ !! _) as [r|]; simpl; rewrite set_cryptoStore_same; [|done]. by rewrite Hi.
Qed.

Lemma getFallbackKey_run a acc :
  delegate_initialized a = true -> stored_account a = Ok acc ->
  (getFallbackKey : JS E _ _) a = Outcome (fallback_of acc) a [].
Proof.
  intros Hi Hacc. unfold getFallbackKey, fallback_of. rewrite (bind_run _ _ _ _ (getAccount_run a Hi)), Hacc.
  destruct (unpublished_fallback_key acc) as [|[keyId key] rest]; [done|]. by case_match.
Qed.

Lemma storeAccount_run acc a : (storeAccount acc : JS E _ _) a = Outcome (Ok tt) (put_account acc a) [].
Proof. done. Qed.

(** The account a start works with: the stored one, or a new one. *)
Lemma initializeAccount_run a :
  exists acc a1, (initializeAccount : JS E _ _) a = Outcome (Ok acc) a1 []
    /\ stored_account a1 = Ok acc /\ delegate_initialized a1 = delegate_initialized a
    /\ (forall acc0, stored_account a = Ok acc0 -> acc = acc0 /\ a1 = a).
Proof.
  unfold initializeAccount, js_try.
  assert ((pickledAccount ← on_store CryptoStore.getAccount; self ← js_get;
           js_lift (account_unpickle (pickleKey self) pickledAccount)) a
          = (Outcome (stored_account a) a [] : outcome E _ _)) as ->.
  { unfold stored_account, on_store, CryptoStore.getAccount. js_unfold. simpl.
    destruct (account _ !! _); simpl; by rewrite set_cryptoStore_same. }
  destruct (stored_account a) as [acc|e] eqn:Hacc.
  - exists acc, a. split_and!; try done. by intros acc0 [= ->].
  - exists (account_create (entropy a)), (put_account (account_create (entropy a)) (draw_entropy a)).
    split_and!; try done. apply stored_put.
Qed.

Lemma generateFallbackKey_run a acc :
  delegate_initialized a = true -> stored_account a = Ok acc ->
  exists acc1 a1 key, (generateFallbackKeyIfNeeded : JS E _ _) a = Outcome (Ok tt) a1 []
    /\ stored_account a1 = Ok acc1 /\ delegate_initialized a1 = true /\ identity_keys acc1 = identity_keys acc
    /\ fallback_of acc1 = Ok key /\ (forall k, fallback_of acc = Ok k -> acc1 = acc /\ a1 = a).
Proof.
  intros Hi Hacc. unfold generateFallbackKeyIfNeeded, js_try.
  rewrite (bind_run _ _ _ _ (getFallbackKey_run a acc Hi Hacc)).
  destruct (fallback_of acc) as [k|e] eqn:Hk; [by exists acc, a, k|].
  destruct (generated_fallback_key (entropy a) acc) as (keyId & key & Hne1 & Hne2 & Hgen).
  rewrite (bind_run _ _ _ _ (getAccount_run a Hi)), Hacc.
  exists (generate_fallback_key (entropy a) acc), (put_account (generate_fallback_key (entropy a) acc) (draw_entropy a)), (mkFallbackKey keyId key).
  split_and!; try done; [apply stored_put|apply identity_keys_generate|].
  unfold fallback_of. rewrite Hgen. by rewrite !bool_decide_false.
Qed.
End Runs.

(** A started device: its keys are those of the stored account. *)
Record started (a : DeviceState) (acc : Account) : Prop := {
  started_initialized : delegate_initialized a = true;
  started_account : stored_account a = Ok acc;
  started_curve : deviceCurve25519Key a = Some (ik_curve25519 (identity_keys acc));
  started_ed : deviceDoNotUseKey a = Some (ik_ed25519 (identity_keys acc));
  started_fallback : fallback_of acc = Ok (fallbackKey a);
}.

Lemma init_run {E} a :
  exists acc a1, (init : JS E _ _) a = Outcome (Ok tt) a1 [] /\ started a1 acc
    /\ (forall acc0 k, stored_account a = Ok acc0 -> fallback_of acc0 = Ok k -> acc = acc0 /\ cryptoStore a1 = cryptoStore a).
Proof.
  set (a0 := if delegate_initialized a then a else set_initialized true a).
  assert (delegate_initialized a0 = true /\ stored_account a0 = stored_account a /\ cryptoStore a0 = cryptoStore a) as (Hi & Hst & Hcs).
  { unfold a0. by destruct (delegate_initialized a) eqn:Hd. }
  destruct (@initializeAccount_run E a0) as (acc & a1 & Hrun1 & Hacc1 & Hi1 & Hsame1). rewrite Hi in Hi1.
  destruct (@generateFallbackKey_run E a1 acc Hi1 Hacc1) as (acc2 & a2 & key & Hrun2 & Hacc2 & Hi2 & Hid & Hkey & Hsame2).
  exists acc2, (set_keys (identity_keys acc) (set_fallbackKey key a2)). split; [|split].
  - unfold init. rewrite (bind_run _ _ _ (Ok a)) by done.
    assert (js_when (negb (delegate_initialized a)) delegate_init a = (Outcome (Ok tt) a0 [] : outcome E _ _)) as Hd.
    { unfold a0, js_when, delegate_init. js_unfold. rewrite olm_init_ok, has_library_version_ok.
      destruct (delegate_initialized a) eqn:Hd; simpl; by rewrite ?Hd. }
    rewrite (bind_Ok _ _ _ _ _ _ Hd). rewrite (bind_run _ _ _ _ (delegate_create_run a0)), Hi.
    rewrite (bind_Ok _ _ _ _ _ _ Hrun1), (bind_Ok _ _ _ _ _ _ Hrun2).
    rewrite (bind_run _ _ _ _ (getFallbackKey_run a2 acc2 Hi2 Hacc2)), Hkey. done.
  - split; simpl; try done; by rewrite Hid.
  - intros acc0 k Hs0 Hk0. rewrite <- Hst in Hs0. destruct (Hsame1 _ Hs0) as [-> ->].
    destruct (Hsame2 _ Hk0) as [-> ->]. done.
Qed.

(** ** Messages to devices *)

Lemma fallback_of_head acc key :
  fallback_of acc = Ok key -> exists rest, unpublished_fallback_key acc = (fk_keyId key, fk_key key) :: rest.
Proof.
  unfold fallback_of. destruct (unpublished_fallback_key acc) as [|[keyId k] rest]; [done|].
  case_match; [done|]. intros [= <-]. by exists rest.
Qed.

Lemma withAccountTx_Ok {E A} (m : JS E DeviceState A) a x a1 w :
  m a = Outcome (Ok x) a1 w -> withAccountTx store_lens m a = Outcome (Ok x) a1 w.
Proof. intros Hm. unfold withAccountTx. by rewrite Hm. Qed.

(** The published keys of a device. *)
Definition device_of (b : DeviceState) (accb : Account) : UserDevice :=
  mkUserDevice (curve25519 accb) (fk_key (fallbackKey b)).

(** Encrypting for one device gives a text its account reads. *)
Lemma encryptForDevice_run m a acc b accb :
  started a acc -> started b accb -> checkPayloadLength m = Ok tt ->
  exists body s' accb', encryptWithDeviceKeys m [device_of b accb] a
      = Outcome (Ok {[curve25519 accb := body]}) (draw_entropy a) []
    /\ create_inbound_from accb (curve25519 acc) body = Ok (s', accb') /\ decrypt s' 0 body = Ok m
    /\ identity_keys accb' = identity_keys accb /\ unpublished_fallback_key accb' = unpublished_fallback_key accb.
Proof.
  intros Ha Hb Hm. destruct (fallback_of_head _ _ (started_fallback _ _ Hb)) as [rest Hrest].
  destruct (pre_key_message (entropy a) acc accb _ _ rest m Hrest) as (s & body & s' & b' & Hout & Henc & Hin & Hdec & Hid & Hfk).
  exists body, s', b'. split; [|done]. simpl.
  assert (encryptUsingFallbackKey (curve25519 accb) (fk_key (fallbackKey b)) m a
    = (Outcome (Ok (0, body)) (draw_entropy a) [] : outcome CryptoEvent _ _)) as Hrun.
  { unfold encryptUsingFallbackKey. rewrite (bind_run _ _ _ (Ok tt)) by (unfold js_lift; by rewrite Hm).
    apply withAccountTx_Ok. rewrite (bind_run _ _ _ _ (delegate_create_run a)), (started_initialized _ _ Ha).
    rewrite (bind_run _ _ _ _ (getAccount_run a (started_initialized _ _ Ha))), (started_account _ _ Ha).
    js_unfold. simpl. by rewrite Hout, Henc. }
  rewrite (bind_Ok _ _ _ _ _ _ Hrun). js_unfold. simpl. by rewrite (left_id_L ∅ (∪)).
Qed.

Lemma decrypt_long body k b e :
  checkPayloadLength body = Throw e -> decryptWithDeviceKey body k b = Outcome (Throw e) b [].
Proof. intros Hl. unfold decryptWithDeviceKey, decryptMessage. js_unfold. simpl. by rewrite Hl. Qed.

Lemma decrypt_short body k b accb s' accb' m :
  started b accb -> checkPayloadLength body = Ok tt ->
  create_inbound_from accb k body = Ok (s', accb') -> decrypt s' 0 body = Ok m ->
  decryptWithDeviceKey body k b = Outcome (Ok m) (put_account accb' b) [].
Proof.
  intros Hb Hl Hin Hdec. unfold decryptWithDeviceKey, decryptMessage. cbn [Z.eqb negb].
  rewrite (bind_run _ _ _ (Ok tt)) by (unfold js_lift; by rewrite Hl). apply withAccountTx_Ok.
  rewrite (bind_run _ _ _ _ (getAccount_run b (started_initialized _ _ Hb))), (started_account _ _ Hb).
  rewrite (bind_run _ _ _ _ (delegate_create_run b)), (started_initialized _ _ Hb).
  unfold js_try. js_unfold. simpl. rewrite Hin. simpl. by rewrite Hdec.
Qed.

(** The message reads back exactly when its encrypted text is within the limit. *)
Definition readable (body : string) : Prop := Z.of_nat (String.length body) <= MAX_PLAINTEXT_LENGTH.

Lemma checkPayloadLength_cases m :
  (readable m /\ checkPayloadLength m = Ok tt) \/ (~ readable m /\ exists e, checkPayloadLength m = Throw e).
Proof. unfold checkPayloadLength, readable. case_match eqn:Hm; [right|left]; split; eauto; lia. Qed.

(** C24: two devices that have been started exchange messages with their device keys:
    a text within the limit, encrypted for the published keys of a device, gives one
    entry under its device key; the receiver reads the text with the sender's device
    key and still answers to the same keys. But the receiver applies the limit for
    plaintexts to the encrypted text: when that is longer, it throws and reads
    nothing. *)
Theorem device_message_delivery a0 b0 m :
  Z.of_nat (String.length m) <= MAX_PLAINTEXT_LENGTH ->
  exists a b acca accb body a1,
    (init : JS CryptoEvent _ _) a0 = Outcome (Ok tt) a [] /\ started a acca
    /\ (init : JS CryptoEvent _ _) b0 = Outcome (Ok tt) b [] /\ started b accb
    /\ encryptWithDeviceKeys m [device_of b accb] a = Outcome (Ok {[curve25519 accb := body]}) a1 []
    /\ (readable body -> exists b1 accb', decryptWithDeviceKey body (curve25519 acca) b = Outcome (Ok m) b1 []
          /\ started b1 accb' /\ device_of b1 accb' = device_of b accb)
    /\ (~ readable body -> exists e, decryptWithDeviceKey body (curve25519 acca) b = Outcome (Throw e) b []).
Proof.
  intros Hm. destruct (@init_run CryptoEvent a0) as (acca & a & Ha & Hsa & _).
  destruct (@init_run CryptoEvent b0) as (accb & b & Hb & Hsb & _).
  destruct (checkPayloadLength_cases m) as [[_ Hl]|[Hno _]]; [|by destruct Hno].
  destruct (encryptForDevice_run m a acca b accb Hsa Hsb Hl) as (body & s' & accb' & Henc & Hin & Hdec & Hid & Hfk).
  exists a, b, acca, accb, body, (draw_entropy a). split_and!; try done.
  - intros Hr. destruct (checkPayloadLength_cases body) as [[_ Hlb]|[Hno _]]; [|done].
    exists (put_account accb' b), accb'. split; [by eapply decrypt_short|].
    destruct Hsb as [Hi Hacc Hc He Hf]. split; [split; simpl; try done|].
    + apply stored_put.
    + by rewrite Hid.
    + by rewrite Hid.
    + unfold fallback_of in *. by rewrite Hfk.
    + unfold device_of, curve25519. simpl. by rewrite Hid.
  - intros Hno. destruct (checkPayloadLength_cases body) as [[Hr _]|[_ [e He]]]; [done|].
    exists e. by apply decrypt_long.
Qed.

(** C25: the identity of a device is kept in its store: a device started once and
    started again from its store (a reload of the application) has the same device
    keys and fallback key, and the second start changes nothing in the store. *)
Theorem restart_keeps_keys a0 a n :
  (init : JS CryptoEvent _ _) a0 = Outcome (Ok tt) a [] -> pickleKey a0 = "DEFAULT_KEY" ->
  exists a', (init : JS CryptoEvent _ _) (new_EncryptionDevice false (cryptoStore a) n) = Outcome (Ok tt) a' []
    /\ deviceCurve25519Key a' = deviceCurve25519Key a /\ deviceDoNotUseKey a' = deviceDoNotUseKey a
    /\ fallbackKey a' = fallbackKey a /\ cryptoStore a' = cryptoStore a.
Proof.
  intros Hrun Hpk. destruct (@init_run CryptoEvent a0) as (acc & a1 & Hrun1 & Hs & _).
  rewrite Hrun in Hrun1. injection Hrun1 as <-.
  assert (pickleKey a = "DEFAULT_KEY") as Hpa.
  { pose proof (inv_init (E := CryptoEvent) "DEFAULT_KEY" false (fun _ _ => True) a0) as Hinv.
    rewrite Hrun in Hinv. by apply Hinv. }
  destruct (@init_run CryptoEvent (new_EncryptionDevice false (cryptoStore a) n)) as (acc' & a' & Hrun' & Hs' & Hsame).
  destruct Hs as [Hi Hacc Hc He Hf]. destruct (Hsame acc (fallbackKey a)) as [-> Hcs]; [|done|].
  { unfold stored_account in *. simpl. by rewrite <- Hpa. }
  exists a'. destruct Hs' as [Hi' Hacc' Hc' He' Hf']. split_and!; try done; congruence.
Qed.
End DeviceKeys.

(** ** Example devices *)
Definition demo_alice : DeviceState := new_EncryptionDevice false (new_CryptoStore "alice") 1.
Definition demo_bob : DeviceState := new_EncryptionDevice true (new_CryptoStore "bob") 5.

Lemma device_message_delivery_witness :
  Z.of_nat (String.length "hi") <= MAX_PLAINTEXT_LENGTH /\
  exists a b acca accb body a1,
    (init : JS CryptoEvent _ _) demo_alice = Outcome (Ok tt) a [] /\ started a acca
    /\ (init : JS CryptoEvent _ _) demo_bob = Outcome (Ok tt) b [] /\ started b accb
    /\ encryptWithDeviceKeys "hi" [device_of b accb] a = Outcome (Ok {[curve25519 accb := body]}) a1 []
    /\ (readable body -> exists b1 accb', decryptWithDeviceKey body (curve25519 acca) b = Outcome (Ok "hi") b1 []
          /\ started b1 accb' /\ device_of b1 accb' = device_of b accb)
    /\ (~ readable body -> exists e, decryptWithDeviceKey body (curve25519 acca) b = Outcome (Throw e) b []).
Proof. split; [vm_compute; congruence|]. apply (device_message_delivery demo_alice demo_bob "hi"). vm_compute. congruence. Defined.

Lemma restart_keeps_keys_witness :
  let a := post ((init : JS CryptoEvent _ _) demo_bob) in
  exists a', (init : JS CryptoEvent _ _) (new_EncryptionDevice false (cryptoStore a) 9) = Outcome (Ok tt) a' []
    /\ deviceCurve25519Key a' = deviceCurve25519Key a /\ deviceDoNotUseKey a' = deviceDoNotUseKey a
    /\ fallbackKey a' = fallbackKey a /\ cryptoStore a' = cryptoStore a.
Proof. intros a. apply (restart_keeps_keys demo_bob a 9); [vm_compute; reflexivity|reflexivity]. Defined.

(** ** Importing session keys

    What an import may change: one row, and never for the worse. The imports of one
    call run interleaved, which makes no difference when they are of different
    sessions; two keys of one session in one call can leave the worse one. *)

Section KeyImport.
Context `{OlmLaws}.

(** ** One key *)

(** What an import of [key] may make of the row [d] of the session [i], which holds [x]:
    nothing; the session of the key in its place, when it is of this id and known from
    an earlier message on, or from the same one and only the key is trusted; or the same
    session trusted, when a trusted key of this id is known from a later message on and
    the two agree from there on. *)
Inductive row_import (pk s i : string) (d : InboundGroupSessionData) (x : InboundGroupSession) (key : string)
    (claimed : jsmap string) (untrusted : option bool) : InboundGroupSessionData -> Prop :=
| row_kept : row_import pk s i d x key claimed untrusted d
| row_replaced y :
    read_session_key key = Ok y -> in_session_id y = i ->
    first_known_index y < first_known_index x
    \/ (first_known_index y = first_known_index x /\ igs_untrusted d = Some true /\ untrusted <> Some true) ->
    row_import pk s i d x key claimed untrusted (mkInboundGroupSessionData s (in_pickle pk y) claimed untrusted)
| row_vouched y text :
    read_session_key key = Ok y -> in_session_id y = i -> first_known_index x < first_known_index y ->
    igs_untrusted d = Some true -> untrusted <> Some true ->
    export_session x (first_known_index y) = Ok text -> export_session y (first_known_index y) = Ok text ->
    row_import pk s i d x key claimed untrusted
      (mkInboundGroupSessionData (igs_stream_id d) (igs_session d) (igs_keysClaimed d) (Some false)).

(** The row then knows at least what it knew, and is not less trusted than both. *)
Lemma row_import_no_worse pk s i d x key claimed untrusted d' :
  in_unpickle pk (igs_session d) = Ok x -> row_import pk s i d x key claimed untrusted d' ->
  exists x', in_unpickle pk (igs_session d') = Ok x' /\ first_known_index x' <= first_known_index x
    /\ (igs_untrusted d <> Some true -> untrusted <> Some true -> igs_untrusted d' <> Some true).
Proof.
  intros Hu [|y Hy Hi Hle|y text Hy Hi Hlt _ _ _ _]; cbn.
  - exists x. split_and!; [done|lia|done].
  - exists y. split_and!; [apply in_unpickle_pickle|lia|done].
  - exists x. split_and!; [done|lia|done].
Qed.

Lemma getInbound_run {E} s i a :
  (getInboundGroupSession s i : JS E _ _) a
  = Outcome (match inbound a !! (s, i) with None => Ok None | Some d => x ← inbound_session a d; Ok (Some (x, d)) end) a [].
Proof.
  unfold getInboundGroupSession. by rewrite (bind_run _ _ _ _ (getInboundRow_run s i a)), inbound_of_run.
Qed.

Lemma row_stored {E} s i d (P : InboundGroupSessionData -> Prop) a :
  P d -> exists d', inbound (post ((on_store (storeEndToEndInboundGroupSession s i d) : JS E _ _) a)) !! (s, i) = Some d' /\ P d'.
Proof. intros HP. exists d. simpl. by rewrite lookup_insert_eq. Qed.

Lemma add_row_import {E} a s i d x key claimed untrusted :
  inbound a !! (s, i) = Some d -> in_unpickle (pickleKey a) (igs_session d) = Ok x ->
  exists d', inbound (post ((add_to_existing (Some (x, d)) s i key claimed untrusted : JS E _ _) a)) !! (s, i) = Some d'
    /\ row_import (pickleKey a) s i d x key claimed untrusted d'.
Proof.
  intros Hd Hu.
  assert (Hself : exists d', inbound a !! (s, i) = Some d' /\ row_import (pickleKey a) s i d x key claimed untrusted d').
  { exists d. split; [done|constructor]. }
  unfold add_to_existing. rewrite (bind_run _ _ _ _ (delegate_create_run a)). destruct (delegate_initialized a); [|done].
  rewrite (bind_run _ _ _ (read_session_key key)) by done. destruct (read_session_key key) as [y|e] eqn:Hy; [|done].
  case_bool_decide as Hid; [change (negb true) with false; cbn iota|done].
  destruct (Z.leb_spec (first_known_index x) (first_known_index y)) as [Hle|Hgt].
  2:{ unfold store_session. rewrite (bind_run _ _ _ (Ok a)) by done. apply row_stored, row_replaced; auto. }
  destruct (negb _ || _) eqn:Ht; [done|].
  assert (igs_untrusted d = Some true /\ untrusted <> Some true) as [Hd1 Hun].
  { by destruct (igs_untrusted d) as [[]|], untrusted as [[]|]. }
  destruct (Z.ltb_spec (first_known_index x) (first_known_index y)) as [Hlt|Hge].
  2:{ unfold store_session. rewrite (bind_run _ _ _ (Ok a)) by done. apply row_stored, row_replaced; auto.
      right. split_and!; [lia|done|done]. }
  rewrite (bind_run _ _ _ (export_session x (first_known_index y))) by done. destruct (export_session x _) as [t1|] eqn:H1; [|done].
  rewrite (bind_run _ _ _ (export_session y (first_known_index y))) by done. destruct (export_session y _) as [t2|] eqn:H2; [|done].
  case_bool_decide; [|done]. subst t2. by apply row_stored, (row_vouched _ _ _ _ _ _ _ _ y t1).
Qed.

(** A key of the session that is known from an earlier message on is taken. *)
Lemma add_better {E} a s i d x y key claimed untrusted :
  delegate_initialized a = true -> read_session_key key = Ok y -> in_session_id y = i -> first_known_index y < first_known_index x ->
  inbound (post ((add_to_existing (Some (x, d)) s i key claimed untrusted : JS E _ _) a)) !! (s, i)
  = Some (mkInboundGroupSessionData s (in_pickle (pickleKey a) y) claimed untrusted).
Proof.
  intros Hi Hy Hid Hlt. unfold add_to_existing. rewrite (bind_run _ _ _ _ (delegate_create_run a)), Hi.
  rewrite (bind_run _ _ _ (read_session_key key)) by done. rewrite Hy, bool_decide_true by done. cbn [negb].
  replace (first_known_index x <=? first_known_index y) with false by (symmetry; by apply Z.leb_gt).
  unfold store_session. rewrite (bind_run _ _ _ (Ok a)) by done. simpl. by rewrite lookup_insert_eq.
Qed.

(** C22: importing a key never makes a stored session worse, whatever text is offered as
    its key and whether or not the import throws. The row of the session is as it was, or
    it holds the session of the key, and then the key is of this session id and known
    from an earlier message on (or from the same one, and trusted where the row was not),
    or it holds the same session marked as trusted, and then a trusted key of this id
    agrees with it from the first message the key knows. So the row still holds a session
    that is known at least from the same message on, trusted if the old one was and the
    new key is not marked as untrusted. A key of this session that is known from an
    earlier message on is always taken. The rows of other sessions and the outbound
    sessions are as they were. *)
Theorem import_never_worse {E} a s i d x key claimed fmt untrusted :
  inbound a !! (s, i) = Some d -> in_unpickle (pickleKey a) (igs_session d) = Ok x ->
  let a' := post ((addInboundGroupSession s i key claimed fmt untrusted : JS E _ _) a) in
  (exists d' x', inbound a' !! (s, i) = Some d' /\ row_import (pickleKey a) s i d x key claimed untrusted d'
    /\ in_unpickle (pickleKey a) (igs_session d') = Ok x' /\ first_known_index x' <= first_known_index x
    /\ (igs_untrusted d <> Some true -> untrusted <> Some true -> igs_untrusted d' <> Some true))
  /\ (forall y, delegate_initialized a = true -> read_session_key key = Ok y -> in_session_id y = i ->
       first_known_index y < first_known_index x ->
       inbound a' !! (s, i) = Some (mkInboundGroupSessionData s (in_pickle (pickleKey a) y) claimed untrusted))
  /\ (forall k, k <> (s, i) -> inbound a' !! k = inbound a !! k) /\ outbound a' = outbound a.
Proof.
  intros Hd Hu a'. subst a'.
  assert (forall t : gmap (string * string) InboundGroupSessionData, (exists d', t !! (s, i) = Some d' /\ row_import (pickleKey a) s i d x key claimed untrusted d') ->
    exists d' x', t !! (s, i) = Some d' /\ row_import (pickleKey a) s i d x key claimed untrusted d'
      /\ in_unpickle (pickleKey a) (igs_session d') = Ok x' /\ first_known_index x' <= first_known_index x
      /\ (igs_untrusted d <> Some true -> untrusted <> Some true -> igs_untrusted d' <> Some true)) as Hworse.
  { intros t (d' & Ht & Hr). destruct (row_import_no_worse _ _ _ _ _ _ _ _ _ Hu Hr) as (x' & ?). by exists d', x'. }
  unfold addInboundGroupSession. rewrite (bind_run _ _ _ _ (getInbound_run s i a)), Hd. unfold inbound_session.
  destruct (delegate_initialized a) eqn:Hi; simpl.
  - rewrite Hu. simpl. split_and!; [by apply Hworse, add_row_import|intros y _; by apply add_better|..].
    all: enough (group_inv (pickleKey a) false (fun o t => (forall k, k <> (s, i) -> t !! k = inbound a !! k) /\ o = outbound a)
      (post ((add_to_existing (Some (x, d)) s i key claimed untrusted : JS E _ _) a))) as Hinv by apply Hinv.
    all: apply add_inv; [|done]; intros o t d' [Ht Ho]; split; [|done]; intros k Hk; rewrite lookup_insert_ne; auto.
  - split_and!; [|done|done|done]. apply Hworse. exists d. split; [done|constructor].
Qed.

(** ** Several keys *)

(** The imports of a list of keys one after the other. *)
Definition import_in_turn (s : string) (keys : list GroupEncryptionSession) : JS CryptoEvent DeviceState unit :=
  withGroupSessions store_lens (js_for keys (fun key => importStreamKey s key)).

Lemma importStreamKey_other t s key a k :
  k <> (s, gs_sessionId key) ->
  inbound (post (importStreamKey_from t s key a)) !! k = inbound a !! k.
Proof.
  intros Hk.
  enough (preserves (group_inv (pickleKey a) false (fun _ t' => t' !! k = inbound a !! k)) (importStreamKey_from t s key)) as Hp
    by by apply Hp.
  apply preserves_try; [|intros _; apply preserves_return]. apply preserves_bind; [apply inv_inbound_of|intros existing].
  apply add_inv. intros o t' d Ht. by rewrite lookup_insert_ne.
Qed.

Lemma importStreamKey_run s key a :
  importStreamKey s key a = importStreamKey_from (inbound a !! (s, gs_sessionId key)) s key a.
Proof. unfold importStreamKey. by rewrite (bind_run _ _ _ _ (getInboundRow_run _ _ a)). Qed.

Lemma importStreamKey_from_total t s key a : res (importStreamKey_from t s key a) = Ok tt.
Proof. unfold importStreamKey_from, js_try. by destruct (_ ≫= _) as [[[]|e] a1 w]. Qed.

Lemma imports_snapshot (t : gmap (string * string) InboundGroupSessionData) s keys a :
  NoDup (map gs_sessionId keys) ->
  (forall key, key ∈ keys -> t !! (s, gs_sessionId key) = inbound a !! (s, gs_sessionId key)) ->
  js_for keys (fun key => js_try (importStreamKey_from (t !! (s, gs_sessionId key)) s key) (fun _ => js_return)) a
  = js_for keys (fun key => importStreamKey s key) a.
Proof.
  revert a. induction keys as [|key keys IH]; intros a Hnd Ht; [done|]. simpl.
  inversion Hnd as [|? ? Hnot Hnd']; subst.
  pose proof (importStreamKey_from_total (t !! (s, gs_sessionId key)) s key a) as Htot.
  assert (js_try (importStreamKey_from (t !! (s, gs_sessionId key)) s key) (fun _ => js_return) a = importStreamKey s key a) as Heq.
  { rewrite importStreamKey_run, <- Ht by left. unfold js_try.
    destruct (importStreamKey_from _ s key a) as [[x|e] a1 w]; done. }
  unfold mbind, JS_mbind, js_bind. rewrite Heq. destruct (importStreamKey s key a) as [[x|e] a1 w] eqn:Hrun; [|done].
  rewrite IH; [done|done|]. intros key' Hin. rewrite Ht by by right.
  rewrite importStreamKey_run in Hrun. symmetry.
  pose proof (importStreamKey_other (inbound a !! (s, gs_sessionId key)) s key a (s, gs_sessionId key')) as Hoth.
  rewrite Hrun in Hoth. apply Hoth. intros [= Hid]. apply Hnot. rewrite <- Hid.
  apply list_elem_of_In, in_map, list_elem_of_In, Hin.
Qed.

(** C23: the imports of one call start together, each reading its row before any
    writes; when the keys are of different sessions the outcome is that of importing
    them one after the other. *)
Theorem imports_as_in_turn s keys a :
  NoDup (map gs_sessionId keys) -> importSessionKeys s keys a = import_in_turn s keys a.
Proof.
  intros Hnd. unfold importSessionKeys, import_in_turn, withGroupSessions.
  rewrite (bind_run _ _ _ (Ok a)) by done. by rewrite (imports_snapshot (inbound a) s keys a Hnd).
Qed.

(** A key that cannot be read: the import ends like a successful one. *)
Lemma failed_import_hidden s key a e :
  inbound a !! (s, gs_sessionId key) = None -> read_session_key (gs_sessionKey key) = Throw e ->
  importSessionKeys s [key] a = Outcome (Ok tt) a [].
Proof.
  intros Hn Hr. unfold importSessionKeys. apply tx_run. rewrite (bind_run _ _ _ (Ok a)) by done.
  simpl js_for. rewrite Hn. unfold importStreamKey_from, inbound_of, add_to_existing, js_try, delegate_create.
  js_unfold. simpl. rewrite Hr. by destruct (delegate_initialized a).
Qed.
End KeyImport.

(** ** Example keys *)
Definition demo_device : DeviceState := new_EncryptionDevice true (new_CryptoStore "alice") 0.
Definition demo_key (seed index : nat) : GroupEncryptionSession :=
  mkGroupEncryptionSession "20" (to_text seed) (to_text (seed, index)) GROUP_ENCRYPTION_ALGORITHM.
Definition known_from (s : string) (key : GroupEncryptionSession) (a : DeviceState) : option Z :=
  d ← inbound a !! (s, gs_sessionId key);
  match inbound_session a d with Ok x => Some (first_known_index x) | Throw _ => None end.

(** A key of the stored session, from whatever message on it is known. *)
Lemma import_never_worse_witness :
  exists a d x, inbound a !! ("20", to_text 3%nat) = Some d /\ in_unpickle (pickleKey a) (igs_session d) = Ok x
  /\ (forall index : nat, exists d', inbound (post ((addInboundGroupSession "20" (to_text 3%nat) (to_text (3, index)%nat) [] false None : JS CryptoEvent _ _) a))
         !! ("20", to_text 3%nat) = Some d'
       /\ row_import (pickleKey a) "20" (to_text 3%nat) d x (to_text (3, index)%nat) [] None d').
Proof.
  exists (post (importSessionKeys "20" [demo_key 3 1] demo_device)), (mkInboundGroupSessionData "20" (to_text (3, 1)%nat) [] None), (3, 1)%nat.
  assert (Hrow : inbound (post (importSessionKeys "20" [demo_key 3 1] demo_device)) !! ("20", to_text 3%nat)
    = Some (mkInboundGroupSessionData "20" (to_text (3, 1)%nat) [] None)) by (vm_compute; reflexivity).
  assert (Hu : in_unpickle (pickleKey (post (importSessionKeys "20" [demo_key 3 1] demo_device))) (to_text (3, 1)%nat) = Ok (3, 1)%nat)
    by (vm_compute; reflexivity).
  split; [exact Hrow|]. split; [exact Hu|]. intros index.
  destruct (import_never_worse (E := CryptoEvent) _ _ _ _ _ (to_text (3, index)%nat) [] false None Hrow Hu) as ((d' & _ & Hd' & Hr & _) & _).
  exists d'. split; [exact Hd'|exact Hr].
Defined.

Lemma imports_as_in_turn_witness :
  NoDup (map gs_sessionId [demo_key 1 0; demo_key 2 0])
  /\ importSessionKeys "20" [demo_key 1 0; demo_key 2 0] demo_device = import_in_turn "20" [demo_key 1 0; demo_key 2 0] demo_device.
Proof.
  assert (NoDup (map gs_sessionId [demo_key 1 0; demo_key 2 0])) as Hnd by (apply NoDup_cons; split; [vm_compute; set_solver|apply NoDup_singleton]).
  split; [exact Hnd|]. exact (imports_as_in_turn "20" [demo_key 1 0; demo_key 2 0] demo_device Hnd).
Defined.

(** Two keys of one session in one call: both imports read that the session is not
    stored, and the second write wins though it knows less. *)
Example duplicate_keys_race :
  known_from "20" (demo_key 3 0) (post (importSessionKeys "20" [demo_key 3 0; demo_key 3 2] demo_device)) = Some 2
  /\ known_from "20" (demo_key 3 0) (post (import_in_turn "20" [demo_key 3 0; demo_key 3 2] demo_device)) = Some 0.
Proof. vm_compute. done. Qed.
