(* ===== verification/UnauthenticatedClient.v ===== *)
(** * The unauthenticated client (core/sdk/src/unauthenticatedClient.ts)

    A client without a user: it looks at streams through the node and scrolls back in
    their history. The views it returns are objects ([views]) that whoever holds them
    may change while a request of the client is under way. The calls it awaits are
    those of the client ([ClientState.call]); [clock] is what [Date.now()] returns. *)

From S2P Require Import Prelude Proto Externals ToyExternals Binary StreamId Types StreamStateView Sign Envelopes Async ClientState.

Definition SCROLLBACK_MAX_COUNT : nat := 20.
Definition SCROLLBACK_MULTIPLIER : Z := 4.
Definition unauthenticatedClientUser : string := "unauthenticatedClientUser".

(** [{ terminus, firstEvent }], the event as it is when it is returned. *)
Record scroll := mkScroll { sc_terminus : bool; sc_firstEvent : option StreamTimelineEvent }.

Record uclient := mkUclient {
  views : gmap nat StreamStateView.t;
  scrollRequests : jsmap nat;
  scrollPromises : gmap nat (option (result scroll));
  clock : Z;
}.
Definition set_views (v : gmap nat StreamStateView.t) (s : uclient) : uclient :=
  mkUclient v (scrollRequests s) (scrollPromises s) (clock s).
Definition set_scrollRequests (v : jsmap nat) (s : uclient) : uclient :=
  mkUclient (views s) v (scrollPromises s) (clock s).
Definition set_scrollPromises (v : gmap nat (option (result scroll))) (s : uclient) : uclient :=
  mkUclient (views s) (scrollRequests s) v (clock s).

(** [new UnauthenticatedClient(rpcClient)] *)
Definition new_client (clock : Z) : uclient := mkUclient ∅ [] ∅ clock.

Section UnauthenticatedClient.
Context `{Externals, Crypto}.
Abbreviation UM := (async uclient ans).

(** ** Streams *)

Definition userExists (userId : string) : UM bool :=
  userStreamId ← a_lift (makeUserStreamId (IdString userId) userId);
  id ← a_lift (streamIdAsBytes (IdString userStreamId));
  response ← a_await (RpcGetStream id true);
  mret (is_defined response).

Definition userWithAddressExists (address : bytes) : UM bool :=
  userId ← a_lift (userIdFromAddress address);
  userExists userId.

(** The view of an unpacked response. *)
Definition view_of_response (streamId : id_arg) (r : ParsedStreamResponse) : result StreamStateView.t :=
  streamView ← StreamStateView.new unauthenticatedClientUser (streamIdAsString streamId);
  let sc := psr_streamAndCookie r in
  let o := StreamStateView.initialize (psc_nextSyncCookie sc) (psc_events sc) (psr_snapshot r) (psc_miniblocks sc) []
             (psr_prevSnapshotMiniblockNum r) None [] false streamView in
  _ ← res o;
  mret (post o).

(** The reference of the new view. *)
Definition getStream (streamId : id_arg) : UM nat :=
  id ← a_lift (streamIdAsBytes streamId);
  response ← a_await (RpcGetStream id false);
  a_lift (check (match response with Some stream => (0 <? length (sac_miniblocks stream))%nat | None => false end)
            (Some "got bad stream") None);;
  unpacked ← a_lift (unpackStream response);
  streamView ← a_lift (view_of_response streamId unpacked);
  self ← a_get;
  let r := fresh (dom (views self)) in
  a_modify (fun s => set_views (<[r := streamView]> (views s)) s);;
  mret r.

(** ** History *)

Fixpoint unpackMiniblocks (miniblocks : list Miniblock) : result (list ParsedMiniblock) :=
  match miniblocks with
  | [] => mret []
  | miniblock :: miniblocks =>
      unpackedMiniblock ← unpackMiniblock miniblock true;
      rest ← unpackMiniblocks miniblocks;
      mret (unpackedMiniblock :: rest)
  end.

Definition getMiniblocks (streamId : id_arg) (fromInclusive toExclusive : Z) : UM (list ParsedMiniblock * bool) :=
  if toExclusive =? fromInclusive then mret ([], toExclusive =? 0)
  else
    id ← a_lift (streamIdAsBytes streamId);
    response ← a_await (RpcGetMiniblocks id fromInclusive toExclusive);
    unpackedMiniblocks ← a_lift (unpackMiniblocks response.1);
    mret (unpackedMiniblocks, response.2).

Definition isWithin (now number time : Z) : bool := now - time <? number.

Definition view_at (r : nat) (s : uclient) : result StreamStateView.t :=
  match views s !! r with
  | Some v => Ok v
  | None => Throw (JsError "Cannot read properties of undefined")
  end.

(** [streamView.timeline.at(0)] *)
Definition oldest (v : StreamStateView.t) : option StreamTimelineEvent :=
  head (timeline v) ≫= fun r => heap v !! r.

(** The block the next request starts at: four times as far back as the previous
    snapshot, not before the first block. *)
Definition fromInclusiveNew (prev min : Z) : Z :=
  let from := min - (min - prev) * SCROLLBACK_MULTIPLIER in
  if from <? 0 then 0 else from.

Definition oldest_of (r : nat) (terminus : bool) : UM scroll :=
  self ← a_get;
  v ← a_lift (view_at r self);
  mret (mkScroll terminus (oldest v)).

Definition _scrollback (r : nat) : UM scroll :=
  self ← a_get;
  streamView ← a_lift (view_at r self);
  match miniblockInfo streamView with
  | None => a_lift (throwWithCode (Some ("stream not initialized: " +:+ streamId streamView)) None)
  | Some info =>
      if mbi_terminusReached info then mret (mkScroll true (oldest streamView))
      else
        a_lift (check (prevSnapshotMiniblockNum streamView <=? mbi_min info) None None);;
        let toExclusive := mbi_min info in
        response ← getMiniblocks (IdString (streamId streamView))
                     (fromInclusiveNew (prevSnapshotMiniblockNum streamView) toExclusive) toExclusive;
        self ← a_get;
        streamView ← a_lift (view_at r self);
        if default (-1) (mbi_min <$> miniblockInfo streamView) =? toExclusive then
          a_do (fun s =>
            let o := StreamStateView.prependEvents response.1 None response.2 false false streamView in
            (res o, set_views (<[r := post o]> (views s)) s));;
          oldest_of r response.2
        else mret (mkScroll false (oldest streamView))
  end.

(** The promise of a request, shared by all who ask while it is under way. *)
Definition settle_scroll (n : nat) (p : UM scroll) : UM scroll :=
  let set (r : result scroll) := a_modify (fun s => set_scrollPromises (<[n := Some r]> (scrollPromises s)) s) in
  a_try (v ← p; set (Ok v);; mret v) (fun e => set (Throw e);; a_throw e).

Definition scrollback (r : nat) : UM scroll :=
  self ← a_get;
  streamView ← a_lift (view_at r self);
  let sid := streamId streamView in
  match jm_get sid (scrollRequests self) with
  | Some n =>
      Await (ScrollbackSettled n) (fun _ =>
        self ← a_get;
        match scrollPromises self !! n with
        | Some (Some r) => a_lift r
        | _ => a_throw (JsError "pending")
        end)
  | None =>
      let n := fresh (dom (scrollPromises self)) in
      a_modify (fun s => set_scrollRequests (jm_set sid n (scrollRequests s))
        (set_scrollPromises (<[n := None]> (scrollPromises s)) s));;
      a_finally (settle_scroll n (_scrollback r))
        (fun s => set_scrollRequests (jm_delete sid (scrollRequests s)) s)
  end.

(** [n] more rounds of the loop. *)
Fixpoint scroll_rounds (n : nat) (r : nat) (toDate : Z) : UM unit :=
  match n with
  | O => mret tt
  | S n =>
      result ← scrollback r;
      if sc_terminus result then mret tt
      else
        self ← a_get;
        match sc_firstEvent result with
        | Some event => if negb (isWithin (clock self) (te_createdAtEpochMs event) toDate) then mret tt else scroll_rounds n r toDate
        | None => scroll_rounds n r toDate
        end
  end.

Definition scrollbackToDate (r : nat) (toDate : Z) : UM unit := scroll_rounds SCROLLBACK_MAX_COUNT r toDate.
End UnauthenticatedClient.

(** ** Scrolling back without a user

    How much the unauthenticated client asks for and what it does with the answers. *)

Section Scroll.
Context `{Externals, Crypto}.
Implicit Types (s : uclient).

(** A request for blocks asks for some, none before the first. *)
Definition sane (e : event ans) : Prop :=
  match ev_call e with
  | RpcGetMiniblocks _ from to => 0 <= from /\ (0 <= to -> from < to)
  | ScrollbackSettled _ => True
  | _ => False
  end.

Lemma fromInclusiveNew_bounds prev min :
  prev <= min -> 0 <= fromInclusiveNew prev min /\ (0 <= min -> fromInclusiveNew prev min <= min)
    /\ (0 <= prev -> fromInclusiveNew prev min <= prev).
Proof. unfold fromInclusiveNew, SCROLLBACK_MULTIPLIER. destruct (Z.ltb_spec (min - (min - prev) * 4) 0); lia. Qed.

(** The node answers with the miniblocks it was asked for. *)
Definition honest_node (e : event ans) : Prop :=
  match e with
  | mkEvent c a =>
      match c return result (ans c) -> Prop with
      | RpcGetMiniblocks _ from to => fun a => forall blocks term mbs,
          a = Ok (blocks, term) -> unpackMiniblocks blocks = Ok mbs
          -> map (fun mb => mh_miniblockNum (pmb_header mb)) mbs = seqZ from (to - from)
      | _ => fun _ => True
      end a
  end.

(** How a scrollback ends that found a view from [min] on, with the previous snapshot
    at [prev]. *)
Definition scrolled_back (r : nat) (prev min : Z) (res : result scroll) s : Prop :=
  match res with
  | Throw _ => True
  | Ok back =>
      (exists v mbs term, default (-1) (mbi_min <$> miniblockInfo v) = min
         /\ map (fun mb => mh_miniblockNum (pmb_header mb)) mbs = seqZ (fromInclusiveNew prev min) (min - fromInclusiveNew prev min)
         /\ let o := StreamStateView.prependEvents mbs None term false false v in
            views s !! r = Some (post o) /\ back = mkScroll term (oldest (post o)))
      \/ (exists v, views s !! r = Some v /\ default (-1) (mbi_min <$> miniblockInfo v) <> min
            /\ back = mkScroll false (oldest v))
  end.

(** Started in [s0]: a sane request, and with honest answers the history grows without
    gaps. *)
Definition scroll_ends (r : nat) (s0 : uclient) (res : result scroll) s (tr : list (event ans)) : Prop :=
  Forall sane tr /\
  forall v info, views s0 !! r = Some v -> miniblockInfo v = Some info -> mbi_terminusReached info = false ->
    Forall honest_node tr -> scrolled_back r (prevSnapshotMiniblockNum v) (mbi_min info) res s.

Lemma scroll_ends_throw r s0 e s tr : Forall sane tr -> scroll_ends r s0 (Throw e) s tr.
Proof. by split. Qed.

Lemma spec_unauthenticated_getMiniblocks R P sid from min s :
  0 <= from -> (0 <= min -> from <= min) ->
  spec R P 1 (getMiniblocks sid from min) s (fun res s' tr => Forall sane tr
    /\ forall mbs term, res = Ok (mbs, term) -> Forall honest_node tr ->
         map (fun mb => mh_miniblockNum (pmb_header mb)) mbs = seqZ from (min - from)).
Proof.
  intros Hpos Hle. unfold getMiniblocks. destruct (Z.eqb_spec min from) as [Heq|Hne].
  - apply spec_done. split; [constructor|]. intros mbs term [= <- <-] _. by replace (min - from) with 0 by lia.
  - destruct (streamIdAsBytes sid) as [id|e]; cbn [a_lift mbind async_mbind]; [|by apply spec_done; split; [constructor|]].
    unfold a_await. cbn [mbind async_mbind]. apply spec_await. intros a s' _ _.
    assert (forall tr, tr = [mkEvent (RpcGetMiniblocks id from min) a : event ans] -> Forall sane tr) as Hs.
    { intros tr ->. constructor; [split; [done|lia]|constructor]. }
    destruct a as [[blocks term]|e]; cbn [mbind async_mbind fst snd]; [|apply spec_done; split; [by apply Hs|done]].
    destruct (unpackMiniblocks blocks) as [mbs|e] eqn:Hu; cbn [a_lift mbind async_mbind]; apply spec_done;
      (split; [by apply Hs|]); [|done].
    intros mbs' term' [= <- <-] Hh. inversion Hh as [|? ? Hh1 _]; subst. by eapply Hh1.
Qed.

Lemma view_at_Ok r s v : view_at r s = Ok v <-> views s !! r = Some v.
Proof. unfold view_at. destruct (views s !! r); naive_solver. Qed.

Lemma spec__scrollback R P r s : spec R P 1 (_scrollback r) s (scroll_ends r s).
Proof.
  unfold _scrollback, a_get. cbn [mbind async_mbind]. apply spec_get.
  destruct (view_at r s) as [v|] eqn:Hv; cbn [a_lift mbind async_mbind]; [|by apply spec_done, scroll_ends_throw].
  apply view_at_Ok in Hv.
  destruct (miniblockInfo v) as [info|] eqn:Hi; [|by apply spec_done, scroll_ends_throw].
  destruct (mbi_terminusReached info) eqn:Ht.
  { apply spec_done. split; [constructor|]. intros; simplify_eq. congruence. }
  unfold check. destruct (Z.leb_spec (prevSnapshotMiniblockNum v) (mbi_min info)) as [Hle|]; cbn [a_lift mbind async_mbind];
    [|by apply spec_done, scroll_ends_throw].
  replace 1%nat with (1 + 0)%nat by lia. apply spec_bind.
  destruct (fromInclusiveNew_bounds _ _ Hle) as (Hpos & Hfm & _).
  eapply spec_mono; [by apply spec_unauthenticated_getMiniblocks|done|].
  intros [[mbs term]|e] s' tr [Htr Hnum]; [|apply spec_done, scroll_ends_throw; by rewrite app_nil_r].
  cbn [fst snd]. apply spec_get.
  destruct (view_at r s') as [v'|] eqn:Hv'; cbn [a_lift mbind async_mbind];
    [|apply spec_done, scroll_ends_throw; by rewrite app_nil_r].
  apply view_at_Ok in Hv'.
  destruct (Z.eqb_spec (default (-1) (mbi_min <$> miniblockInfo v')) (mbi_min info)) as [Heq|Hne].
  - unfold a_do. cbn [mbind async_mbind]. apply spec_get, spec_put. cbn [fst snd].
    destruct (res _) as [[]|e]; cbn [mbind async_mbind]; [|apply spec_done, scroll_ends_throw; by rewrite app_nil_r].
    unfold oldest_of, a_get. cbn [mbind async_mbind]. apply spec_get. unfold view_at. cbn [views set_views].
    rewrite lookup_insert_eq. cbn [a_lift mbind async_mbind]. apply spec_done.
    rewrite app_nil_r. split; [done|]. intros v0 info0 Hv0 Hi0 _ Hh. simplify_eq.
    left. exists v', mbs, term. cbn [views set_views]. rewrite lookup_insert_eq. split_and!; [done|by eapply Hnum|done|done].
  - apply spec_done. rewrite app_nil_r. split; [done|]. intros v0 info0 Hv0 Hi0 _ _. simplify_eq. right. by exists v'.
Qed.

(** The bookkeeping around a request: its promise is settled and it is forgotten. *)
Lemma run_settled_scroll n p o s r :
  got (run p o s) = Ended r ->
  run (settle_scroll n p) o s
  = mkEnd (Ended r) (set_scrollPromises (<[n := Some r]> (scrollPromises (state (run p o s)))) (state (run p o s)))
      (trace (run p o s)) (left (run p o s)).
Proof.
  intros Hr. unfold settle_scroll. rewrite run_try, run_bind. unfold continue at 2. rewrite Hr.
  destruct r as [v|e]; unfold a_modify, continue, after; cbn; by rewrite ?app_nil_r.
Qed.

(** The view after the bookkeeping is the one the request left. *)
Definition request_ends (sid : string) (r : nat) (s0 : uclient) (res : result scroll) s (tr : list (event ans)) : Prop :=
  exists s1, scroll_ends r s0 res s1 tr /\ views s = views s1 /\ scrollRequests s = jm_delete sid (scrollRequests s1).

Lemma spec_unauthenticated_scrollback R P r s v :
  views s !! r = Some v -> jm_get (streamId v) (scrollRequests s) = None ->
  spec R P 1 (scrollback r) s (request_ends (streamId v) r s).
Proof.
  intros Hv Hreq o Ho Hn. unfold scrollback, a_get. cbn [mbind async_mbind run]. unfold view_at. rewrite Hv.
  cbn [a_lift mbind async_mbind]. rewrite Hreq. unfold a_modify. cbn [mbind async_mbind run].
  set (n := fresh _). set (s1 := set_scrollRequests _ _).
  destruct (spec__scrollback R P r s1 o Ho Hn) as (res & Hres & HQ & Hl & Hw).
  unfold a_finally. rewrite run_try, run_bind, (run_settled_scroll n _ o s1 res Hres).
  exists res. set (e := run (_scrollback r) o s1) in *.
  destruct res as [back|err]; unfold continue, after; cbn; rewrite ?app_nil_r; (split_and!; [done| |done|done]);
    exists (state e); by split_and!.
Qed.

Lemma run_length {A} (p : async uclient ans A) o s : (length (trace (run p o s)) + length (left (run p o s)) = length o)%nat.
Proof.
  revert o s. induction p as [r|c f IH|f IH|s' p IH]; intros o s; cbn; [done| |apply IH|apply IH].
  destruct o as [|m o]; [done|]. cbn. by rewrite IH.
Qed.

Lemma spec_scrollback_sane R P r s : spec R P 1 (scrollback r) s (fun _ _ tr => Forall sane tr).
Proof.
  destruct (views s !! r) as [v|] eqn:Hv.
  - destruct (jm_get (streamId v) (scrollRequests s)) as [n|] eqn:Hreq.
    + unfold scrollback, a_get. cbn [mbind async_mbind]. apply spec_get. unfold view_at. rewrite Hv.
      cbn [a_lift mbind async_mbind]. rewrite Hreq. apply spec_await. intros a s' _ _. apply spec_get.
      assert (Forall sane [mkEvent (ScrollbackSettled n) a : event ans]) as Hs by (constructor; [done|constructor]).
      repeat case_match; by apply spec_done.
    + eapply spec_mono; [by apply spec_unauthenticated_scrollback|done|]. by intros res s' tr (s1 & [Hs _] & _).
  - unfold scrollback, a_get. cbn [mbind async_mbind]. apply spec_get. unfold view_at. rewrite Hv. by apply spec_done.
Qed.

Lemma spec_rounds R P n r toDate s : spec R P n (scroll_rounds n r toDate) s (fun _ _ tr => Forall sane tr).
Proof.
  revert s. induction n as [|n IH]; intros s; [by apply spec_done|]. cbn [scroll_rounds].
  change (S n) with (1 + n)%nat. apply spec_bind. eapply spec_mono; [apply spec_scrollback_sane|done|].
  intros [back|e] s' tr Htr; [|apply spec_done; by rewrite app_nil_r].
  assert (spec R P n (scroll_rounds n r toDate) s' (fun _ _ tr' => Forall sane (tr ++ tr'))) as Hgo.
  { eapply spec_mono; [apply IH|done|]. intros x s'' tr' Htr'. by apply Forall_app. }
  assert (forall x : result unit, spec R P n (Done x) s' (fun _ _ tr' => Forall sane (tr ++ tr'))) as Hstop.
  { intros x. apply spec_done. by rewrite app_nil_r. }
  destruct (sc_terminus back); [apply Hstop|]. unfold a_get. cbn [mbind async_mbind]. apply spec_get.
  destruct (sc_firstEvent back); [|exact Hgo]. destruct (negb _); [apply Hstop|exact Hgo].
Qed.

Lemma run_answers {A} R P (p : async uclient ans A) o s : within R P o -> Forall P (trace (run p o s)).
Proof.
  revert o s. induction p as [r|c f IH|f IH|s' p IH]; intros o s Hw; cbn; [constructor| |by apply IH|by apply IH].
  destruct o as [|m o]; [constructor|]. inversion Hw as [|? ? [_ Ha] Hw']; subst. cbn. constructor; [apply Ha|by apply IH].
Qed.

(** The unauthenticated client widens the history of a view without gaps. A
    scrollback that no other is under way for asks for the blocks from four times the
    distance to the previous snapshot (at most from block 0) up to the start of the
    view, so at least back to that snapshot; exactly these are put in front of a view
    that still starts there; a view that was reset meanwhile is left alone. The
    request is forgotten when it ends, after at most one call. *)
Theorem unauthenticated_scrollback R o r s v info :
  within R honest_node o -> (1 <= length o)%nat ->
  views s !! r = Some v -> miniblockInfo v = Some info -> mbi_terminusReached info = false ->
  jm_get (streamId v) (scrollRequests s) = None -> 0 <= prevSnapshotMiniblockNum v ->
  let prev := prevSnapshotMiniblockNum v in let min := mbi_min info in
  let e := run (scrollback r) o s in
  exists res s1, got e = Ended res /\ views (state e) = views s1
    /\ scrollRequests (state e) = jm_delete (streamId v) (scrollRequests s1)
    /\ scrolled_back r prev min res s1
    /\ (prev <= min -> 0 <= fromInclusiveNew prev min <= prev) /\ (length (trace e) <= 1)%nat.
Proof.
  intros Hw Hn Hv Hi Ht Hreq Hprev. cbv zeta.
  destruct (spec_unauthenticated_scrollback R honest_node r s v Hv Hreq o Hw Hn) as (res & Hres & (s1 & [_ Hends] & Hvs & Hrq) & Hl & _).
  exists res, s1. pose proof (run_length (scrollback r) o s). split_and!; try done.
  - apply (Hends v info Hv Hi Ht). by eapply run_answers.
  - intros Hle. destruct (fromInclusiveNew_bounds _ _ Hle) as (? & _ & ?). lia.
  - lia.
Qed.

(** C30: scrolling back to a date ends: whatever the node answers and whoever changes
    the view meanwhile, after at most twenty calls, none of which asks for an empty
    range of blocks or for blocks before the first. *)
Theorem scrollbackToDate_ends R P o r toDate s :
  within R P o -> (20 <= length o)%nat ->
  let e := run (scrollbackToDate r toDate) o s in
  exists res, got e = Ended res /\ (length (trace e) <= 20)%nat /\ Forall sane (trace e).
Proof.
  intros Hw Hn. cbv zeta. unfold scrollbackToDate. pose proof (run_length (scroll_rounds SCROLLBACK_MAX_COUNT r toDate) o s).
  destruct (spec_rounds R P SCROLLBACK_MAX_COUNT r toDate s o Hw Hn) as (res & Hres & Hs & Hl & _).
  exists res. split_and!; [done| |done].
  change 20%nat with SCROLLBACK_MAX_COUNT in *. lia.
Qed.

End Scroll.

(** The [toDate] of [scrollbackToDate] is the age of the oldest event wanted: with a
    date (here: eleven days ago) an event from three years before is still taken to be
    within it. *)
Example date_taken_for_age : isWithin 1700000000000 1600000000000 1699000000000 = true.
Proof. reflexivity. Qed.

(** ** Example: a view from block 10 on, blocks 6 to 9 come from the node *)
#[local] Instance scroll_Crypto : Crypto := {|
  assertBytes := @assertBytes toy_Crypto;
  keccak256_updates := @keccak256_updates toy_Crypto;
  signSync := @signSync toy_Crypto;
  verify := @verify toy_Crypto;
  recoverPublicKey := @recoverPublicKey toy_Crypto;
  hashPersonalMessage := @hashPersonalMessage toy_Crypto;
  fromRpcSig := @fromRpcSig toy_Crypto;
  ecrecover := @ecrecover toy_Crypto;
  StreamEvent_toBinary := fun _ => Ok [x03];
  StreamEvent_fromBinary := fun b =>
    match b with
    | [n] => Ok (mkStreamEvent demo_address [] [] None 0 0
               (Some (Payload_miniblockHeader (mkMiniblockHeader (Z_of_byte n) [] None [] None 0 0 true))))
    | _ => Throw (JsError "bad event")
    end;
|}.

Definition demo_view : StreamStateView.t :=
  StreamStateView.mk "20" unauthenticatedClientUser (C_channel (Channel.new "20")) ∅ 0%nat [] ∅ true None None 0 9
    (Some (mkMiniblockInfo 12 10 false)) None (Members.new "20").
Definition demo_uclient : uclient := set_views {[0%nat := demo_view]} (new_client 1000).
Definition demo_block (n : byte) : Miniblock := mkMiniblock [] (Some (mkEnvelope [n] [x00] [n])).
Definition demo_answer (c : call) : result (ans c) :=
  match c with
  | RpcGetMiniblocks _ from to =>
      if (from =? 6) && (to =? 10) then Ok (map demo_block [x06; x07; x08; x09], false) else Throw (JsError "not available")
  | _ => Throw (JsError "not available")
  end.
Definition demo_moment : moment uclient ans := mkMoment demo_answer (fun s => s).

Lemma demo_within : within (fun s s' => s = s') honest_node [demo_moment].
Proof.
  constructor; [|constructor]. split; [done|]. intros c. destruct c; try done. intros blocks term mbs. cbn.
  destruct (Z.eqb_spec fromInclusive 6) as [->|]; [|done]. destruct (Z.eqb_spec toExclusive 10) as [->|]; [|done].
  cbn [andb]. intros [= <- <-] Hu. vm_compute in Hu. injection Hu as <-. vm_compute. reflexivity.
Qed.

Lemma unauthenticated_scrollback_witness :
  let e := run (scrollback 0) [demo_moment] demo_uclient in
  (exists back, got e = Ended (Ok back) /\ sc_terminus back = false)
  /\ exists res s1, got e = Ended res /\ views (state e) = views s1
    /\ scrollRequests (state e) = jm_delete "20" (scrollRequests s1)
    /\ scrolled_back 0 9 10 res s1
    /\ (9 <= 10 -> 0 <= fromInclusiveNew 9 10 <= 9) /\ (length (trace e) <= 1)%nat.
Proof.
  split; [eexists; split; vm_compute; reflexivity|].
  refine (unauthenticated_scrollback _ [demo_moment] 0 demo_uclient demo_view (mkMiniblockInfo 12 10 false) demo_within _ _ _ _ _ _);
    (reflexivity || (cbn; lia)).
Defined.

Lemma scrollbackToDate_ends_witness :
  let e := run (scrollbackToDate 0 500) (replicate 20 demo_moment) demo_uclient in
  exists res, got e = Ended res /\ (length (trace e) <= 20)%nat /\ Forall sane (trace e).
Proof.
  apply (scrollbackToDate_ends (fun s s' => s = s') (fun _ => True) (replicate 20 demo_moment) 0 500 demo_uclient).
  - apply Forall_replicate. done.
  - rewrite length_replicate. lia.
Defined.
