(* ===== verification/WalletLink.v ===== *)
(** * Linked wallets (core/web3/src/v3/WalletLink.ts and the contract it calls,
      contracts/src/factory/facets/wallet-link/WalletLinkBase.sol, diamond/utils/Nonces.sol)

    A user links wallets to a root key. The client asks the contract for the state of
    the link and the nonce of the root key, signs, and sends a call; the contract
    checks the signatures and the nonce. Both sides are modelled: [link_call] is what
    the client sends, [exec_call] what the contract makes of it. A reverted call
    changes nothing. Signing, hashing and the ABI coding of ethers and of the chain
    are the parameters of [EthSigning], the sets of the contract's storage those of
    [EnumerableSet]. *)

From S2P Require Import Prelude Proto Externals ToyExternals.

Definition AddressZero : string := "0x0000000000000000000000000000000000000000".

Class EthSigning := {
  Signer : Type;
  getAddress : Signer -> string;
  signMessage : Signer -> bytes -> result bytes;
  (** [abi.encode(address, uint256)] *)
  abi_encode : string -> Z -> bytes;
  keccak256 : bytes -> bytes;
  toEthSignedMessageHash : bytes -> bytes;
  (** [ECDSA.recover], which reverts on a malformed signature *)
  recover : bytes -> bytes -> result string;
}.

(** A message is signed under the prefix of signed messages, and the signer's address
    is recovered from the signature. *)
Class EthSigningLaws `{EthSigning} := {
  recover_sign k m sig : signMessage k m = Ok sig -> recover (toEthSignedMessageHash m) sig = Ok (getAddress k);
  getAddress_nonzero k : getAddress k <> AddressZero;
}.

(** ** The contract *)

(** [LinkedWallet] (IWalletLink.sol) *)
Record LinkedWallet := mkLinkedWallet { lw_addr : string; lw_signature : bytes }.

(** [WalletLinkStorage.Layout], and the nonces; an absent wallet has address zero. *)
Record WalletLinks := mkWalletLinks {
  walletsByRootKey : gmap string (list string);
  rootKeyByWallet : gmap string string;
  nonces : gmap string Z;
}.

Definition wallets_of (s : WalletLinks) (rootKey : string) : list string := default [] (walletsByRootKey s !! rootKey).
Definition root_of (s : WalletLinks) (wallet : string) : string := default AddressZero (rootKeyByWallet s !! wallet).

Definition revert {A} (error : string) : result A := Throw (JsError error).
Definition require (b : bool) (error : string) : result unit := if b then Ok tt else revert error.

Definition _latestNonce (s : WalletLinks) (owner : string) : Z := default 0 (nonces s !! owner).

(** [unchecked] increment of a [uint256]. *)
Definition _useNonce (s : WalletLinks) (owner : string) : Z * WalletLinks :=
  (_latestNonce s owner,
   mkWalletLinks (walletsByRootKey s) (rootKeyByWallet s) (<[owner := (_latestNonce s owner + 1) mod 2 ^ 256]> (nonces s))).

Definition _useCheckedNonce (s : WalletLinks) (owner : string) (nonce : Z) : result WalletLinks :=
  let '(current, s') := _useNonce s owner in
  require (nonce =? current) "InvalidAccountNonce";;
  Ok s'.

Definition _checkIfLinked (s : WalletLinks) (rootKey wallet : string) : bool := bool_decide (root_of s wallet = rootKey).

Definition _verifyWallets (s : WalletLinks) (wallet rootWallet : string) : result unit :=
  require (negb (bool_decide (wallet = AddressZero) || bool_decide (rootWallet = AddressZero))) "WalletLink__InvalidAddress";;
  require (negb (bool_decide (wallet = rootWallet))) "WalletLink__CannotLinkToSelf";;
  require (bool_decide (root_of s wallet = AddressZero)) "WalletLink__LinkAlreadyExists";;
  require (bool_decide (root_of s rootWallet = AddressZero)) "WalletLink__LinkedToAnotherRootKey";;
  require (length (wallets_of s wallet) =? 0)%nat "WalletLink__CannotLinkToRootWallet".

(** The two writes of a link. *)
Definition set_link `{EnumerableSet string} (s : WalletLinks) (wallet rootKey : string) : WalletLinks :=
  mkWalletLinks (<[rootKey := es_add wallet (wallets_of s rootKey)]> (walletsByRootKey s))
    (<[wallet := rootKey]> (rootKeyByWallet s)) (nonces s).

Section Contract.
Context `{EthSigning, EnumerableSet string}.

(** The signature of [signer] over an address and a nonce. *)
Definition verify_signature (signed : string) (nonce : Z) (signer : LinkedWallet) : result unit :=
  recovered ← recover (toEthSignedMessageHash (keccak256 (abi_encode signed nonce))) (lw_signature signer);
  require (bool_decide (recovered = lw_addr signer)) "WalletLink__InvalidSignature".

Definition _linkCallerToRootWallet (s : WalletLinks) (sender : string) (rootWallet : LinkedWallet) (nonce : Z) : result WalletLinks :=
  let newWallet := sender in
  _verifyWallets s newWallet (lw_addr rootWallet);;
  verify_signature newWallet nonce rootWallet;;
  s ← _useCheckedNonce s (lw_addr rootWallet) nonce;
  Ok (set_link s newWallet (lw_addr rootWallet)).

Definition _linkWalletToRootWallet (s : WalletLinks) (wallet rootWallet : LinkedWallet) (nonce : Z) : result WalletLinks :=
  _verifyWallets s (lw_addr wallet) (lw_addr rootWallet);;
  verify_signature (lw_addr wallet) nonce rootWallet;;
  verify_signature (lw_addr rootWallet) nonce wallet;;
  s ← _useCheckedNonce s (lw_addr rootWallet) nonce;
  Ok (set_link s (lw_addr wallet) (lw_addr rootWallet)).

Definition _removeLink (s : WalletLinks) (walletToRemove : string) (rootWallet : LinkedWallet) (nonce : Z) : result WalletLinks :=
  require (negb (bool_decide (walletToRemove = AddressZero) || bool_decide (lw_addr rootWallet = AddressZero))) "WalletLink__InvalidAddress";;
  require (negb (bool_decide (walletToRemove = lw_addr rootWallet))) "WalletLink__CannotRemoveRootWallet";;
  require (bool_decide (root_of s walletToRemove = lw_addr rootWallet)) "WalletLink__NotLinked";;
  verify_signature walletToRemove nonce rootWallet;;
  Ok (mkWalletLinks (<[lw_addr rootWallet := es_remove walletToRemove (wallets_of s (lw_addr rootWallet))]> (walletsByRootKey s))
        (<[walletToRemove := AddressZero]> (rootKeyByWallet s)) (nonces s)).

(** The calls of the contract, with who sends them. *)
Inductive link_call :=
| LinkCallerToRootKey (sender : string) (rootWallet : LinkedWallet) (nonce : Z)
| LinkWalletToRootKey (sender : string) (wallet rootWallet : LinkedWallet) (nonce : Z)
| RemoveLink (sender wallet : string) (rootWallet : LinkedWallet) (nonce : Z).

Definition exec_call (s : WalletLinks) (c : link_call) : result WalletLinks :=
  match c with
  | LinkCallerToRootKey sender rootWallet nonce => _linkCallerToRootWallet s sender rootWallet nonce
  | LinkWalletToRootKey _ wallet rootWallet nonce => _linkWalletToRootWallet s wallet rootWallet nonce
  | RemoveLink _ wallet rootWallet nonce => _removeLink s wallet rootWallet nonce
  end.

(** ** The client

    [s] is the state of the contract at the first read, [s'] at the read of the nonce. *)

(** [ethers.Signer | Address] *)
Inductive wallet_arg :=
| ByAddress (address : string)
| BySigner (signer : Signer).
Definition wallet_address (w : wallet_arg) : string :=
  match w with
  | ByAddress address => address
  | BySigner signer => getAddress signer
  end.

(** [nonce.toNumber()] throws beyond the safe integers. *)
Definition packAddressWithNonce (address : string) (nonce : Z) : result bytes :=
  if 2 ^ 53 - 1 <? nonce then Throw (JsError "overflow") else Ok (keccak256 (abi_encode address nonce)).

Definition assertNotAlreadyLinked (s : WalletLinks) (rootKey : Signer) (wallet : wallet_arg) : result (string * string) :=
  if _checkIfLinked s (getAddress rootKey) (wallet_address wallet) then Throw (JsError "Wallet is already linked")
  else Ok (getAddress rootKey, wallet_address wallet).

Definition assertAlreadyLinked (s : WalletLinks) (rootKey : Signer) (walletAddress : string) : result (string * string) :=
  if negb (_checkIfLinked s (getAddress rootKey) walletAddress) then Throw (JsError "Wallet is not linked")
  else Ok (getAddress rootKey, walletAddress).

Definition sign_address (signer : Signer) (address : string) (nonce : Z) : result bytes :=
  packed ← packAddressWithNonce address nonce;
  signMessage signer packed.

Definition generateLinkCallerData (s s' : WalletLinks) (rootKey : Signer) (wallet : wallet_arg) : result (LinkedWallet * Z) :=
  '(rootKeyAddress, walletAddress) ← assertNotAlreadyLinked s rootKey wallet;
  let nonce := _latestNonce s' rootKeyAddress in
  rootKeySignature ← sign_address rootKey walletAddress nonce;
  Ok (mkLinkedWallet rootKeyAddress rootKeySignature, nonce).

Definition generateLinkWalletData (s s' : WalletLinks) (rootKey wallet : Signer) : result (LinkedWallet * LinkedWallet * Z) :=
  '(rootKeyAddress, walletAddress) ← assertNotAlreadyLinked s rootKey (BySigner wallet);
  let nonce := _latestNonce s' rootKeyAddress in
  rootKeySignature ← sign_address rootKey walletAddress nonce;
  walletSignature ← sign_address wallet rootKeyAddress nonce;
  Ok (mkLinkedWallet walletAddress walletSignature, mkLinkedWallet rootKeyAddress rootKeySignature, nonce).

Definition generateRemoveLinkData (s s' : WalletLinks) (rootKey : Signer) (walletAddress : string) : result (LinkedWallet * Z) :=
  '(rootKeyAddress, _) ← assertAlreadyLinked s rootKey walletAddress;
  let nonce := _latestNonce s' rootKeyAddress in
  rootKeySignature ← sign_address rootKey walletAddress nonce;
  Ok (mkLinkedWallet rootKeyAddress rootKeySignature, nonce).

(** The methods that send a call. *)
Definition linkCallerToRootKey (s s' : WalletLinks) (rootKey wallet : Signer) : result link_call :=
  '(rootKeyData, nonce) ← generateLinkCallerData s s' rootKey (BySigner wallet);
  Ok (LinkCallerToRootKey (getAddress wallet) rootKeyData nonce).

Definition linkWalletToRootKey (s s' : WalletLinks) (rootKey wallet : Signer) : result link_call :=
  '(walletData, rootKeyData, nonce) ← generateLinkWalletData s s' rootKey wallet;
  Ok (LinkWalletToRootKey (getAddress rootKey) walletData rootKeyData nonce).

Definition removeLink (s s' : WalletLinks) (rootKey : Signer) (walletAddress : string) : result link_call :=
  '(rootKeyData, nonce) ← generateRemoveLinkData s s' rootKey walletAddress;
  Ok (RemoveLink (getAddress rootKey) walletAddress rootKeyData nonce).

(** The methods that encode the call for someone else to send it: [sender] sends it. *)
Definition encodeLinkCallerToRootKey (s s' : WalletLinks) (rootKey : Signer) (wallet sender : string) : result link_call :=
  '(rootKeyData, nonce) ← generateLinkCallerData s s' rootKey (ByAddress wallet);
  Ok (LinkCallerToRootKey sender rootKeyData nonce).

Definition encodeLinkWalletToRootKey (s s' : WalletLinks) (rootKey wallet : Signer) (sender : string) : result link_call :=
  '(walletData, rootKeyData, nonce) ← generateLinkWalletData s s' rootKey wallet;
  Ok (LinkWalletToRootKey sender walletData rootKeyData nonce).

Definition encodeRemoveLink (s s' : WalletLinks) (rootKey : Signer) (walletAddress sender : string) : result link_call :=
  '(rootKeyData, nonce) ← generateRemoveLinkData s s' rootKey walletAddress;
  Ok (RemoveLink sender walletAddress rootKeyData nonce).

Definition getLinkedWallets (s : WalletLinks) (rootKey : string) : list string := wallets_of s rootKey.
Definition getRootKeyForWallet (s : WalletLinks) (wallet : string) : string := root_of s wallet.
Definition checkIfLinked (s : WalletLinks) (rootKey : Signer) (wallet : string) : bool :=
  _checkIfLinked s (getAddress rootKey) wallet.
End Contract.

(** ** Properties of linked wallets

    The contract keeps a forest of depth one, whoever calls it; the calls of the client
    are accepted exactly when the contract allows the link; a link cannot be made
    twice with one signature, but the signatures for linking and for removing are the
    same and removing does not use up the nonce. *)

(** ** The contract *)

(** The wallets of a root key are those that name it, each once; a root key is not
    linked itself. *)
Record links_ok (s : WalletLinks) : Prop := {
  lo_nodup r : NoDup (wallets_of s r);
  lo_elem r w : w ∈ wallets_of s r <-> root_of s w = r /\ r <> AddressZero;
  lo_root r w : w ∈ wallets_of s r -> root_of s r = AddressZero;
  lo_self r w : w ∈ wallets_of s r -> w <> r;
  lo_nonce r : 0 <= _latestNonce s r;
}.

Definition no_links : WalletLinks := mkWalletLinks ∅ ∅ ∅.

Lemma require_Ok b e : require b e = Ok tt <-> b = true.
Proof. by destruct b. Qed.

Lemma verifyWallets_Ok s w r :
  _verifyWallets s w r = Ok tt <->
  w <> AddressZero /\ r <> AddressZero /\ w <> r /\ root_of s w = AddressZero /\ root_of s r = AddressZero /\ wallets_of s w = [].
Proof.
  unfold _verifyWallets. split.
  - intros Hok. split_Ok Hok. apply require_Ok in Ha, Ha0, Ha1, Ha2, Hok.
    apply negb_true_iff, orb_false_iff in Ha as [Ha Ha']. apply negb_true_iff in Ha0.
    apply bool_decide_eq_false in Ha, Ha', Ha0. apply bool_decide_eq_true in Ha1, Ha2.
    apply Nat.eqb_eq, length_zero_iff_nil in Hok. done.
  - intros (H1 & H1' & H2 & H3 & H4 & H5). rewrite H5.
    repeat first [rewrite bool_decide_false by done|rewrite bool_decide_true by done]. done.
Qed.

Lemma useCheckedNonce_Ok s o n s' :
  _useCheckedNonce s o n = Ok s' <-> n = _latestNonce s o /\ s' = (_useNonce s o).2.
Proof.
  unfold _useCheckedNonce. simpl. destruct (Z.eqb_spec n (_latestNonce s o)) as [->|Hne]; simpl; naive_solver.
Qed.

Section Links.
Context `{!EnumerableSet string, !EnumerableSetLaws string}.

Lemma root_of_set s w r x : root_of (set_link s w r) x = if decide (x = w) then r else root_of s x.
Proof.
  unfold root_of, set_link. simpl. destruct (decide (x = w)) as [->|Hne]; [by rewrite lookup_insert_eq|by rewrite lookup_insert_ne].
Qed.

Lemma wallets_of_set s w r x : wallets_of (set_link s w r) x = if decide (x = r) then es_add w (wallets_of s r) else wallets_of s x.
Proof.
  unfold wallets_of at 1, set_link. simpl. destruct (decide (x = r)) as [->|Hne]; [by rewrite lookup_insert_eq|by rewrite lookup_insert_ne].
Qed.

Lemma latestNonce_use s o x : _latestNonce (_useNonce s o).2 x = if decide (x = o) then (_latestNonce s o + 1) mod 2 ^ 256 else _latestNonce s x.
Proof.
  unfold _latestNonce at 1, _useNonce. simpl. destruct (decide (x = o)) as [->|Hne]; [by rewrite lookup_insert_eq|by rewrite lookup_insert_ne].
Qed.

(** Making a link that [_verifyWallets] allows. *)
Lemma set_link_ok s w r : links_ok s -> _verifyWallets s w r = Ok tt -> links_ok (set_link (_useNonce s r).2 w r).
Proof.
  intros [Hnd Hel Hroot Hself Hn] (Hw0 & Hr0 & Hne & Hw & Hr & Hno)%verifyWallets_Ok.
  assert (forall x, wallets_of (_useNonce s r).2 x = wallets_of s x) as Eq1 by done.
  assert (forall x, root_of (_useNonce s r).2 x = root_of s x) as Eq2 by done.
  assert (forall x, w ∉ wallets_of s x) as Hwno by (intros x [Hx Hx0]%Hel; congruence).
  split.
  - intros x. rewrite wallets_of_set, !Eq1. case_decide; [by apply es_add_NoDup|apply Hnd].
  - intros x y. rewrite wallets_of_set, root_of_set, !Eq1, Eq2.
    destruct (decide (x = r)) as [->|Hxr].
    + rewrite es_add_elem, Hel by done. destruct (decide (y = w)); naive_solver.
    + destruct (decide (y = w)) as [->|]; [|apply Hel]. split; [by intros ?%Hwno|naive_solver].
  - intros x y. rewrite wallets_of_set, root_of_set, !Eq1, Eq2.
    destruct (decide (x = w)) as [->|Hxw]; [|destruct (decide (x = r)) as [->|]; [done|apply Hroot]].
    rewrite decide_False by done. rewrite Hno. set_solver.
  - intros x y. rewrite wallets_of_set, !Eq1. destruct (decide (x = r)) as [->|]; [|apply Hself].
    rewrite es_add_elem by done. intros [->|Hy]; [done|]. by eapply Hself.
  - intros x. change (0 <= _latestNonce (_useNonce s r).2 x).
    rewrite latestNonce_use. case_decide; [|apply Hn]. apply Z.mod_pos_bound. lia.
Qed.

End Links.

Section LinkedWallets.
Context `{EthSigningLaws, !EnumerableSet string, !EnumerableSetLaws string}.

Lemma verify_signature_Ok signed n lw :
  verify_signature signed n lw = Ok tt
  <-> recover (toEthSignedMessageHash (keccak256 (abi_encode signed n))) (lw_signature lw) = Ok (lw_addr lw).
Proof.
  unfold verify_signature. destruct (recover _ _) as [x|e]; res_simpl; [|done].
  rewrite require_Ok, bool_decide_eq_true. naive_solver.
Qed.

(** The two writes of a removal. *)
Definition unlink (s : WalletLinks) (w r : string) : WalletLinks :=
  mkWalletLinks (<[r := es_remove w (wallets_of s r)]> (walletsByRootKey s)) (<[w := AddressZero]> (rootKeyByWallet s)) (nonces s).

Lemma wallets_of_unlink s w r x : wallets_of (unlink s w r) x = if decide (x = r) then es_remove w (wallets_of s r) else wallets_of s x.
Proof.
  unfold wallets_of at 1. simpl. case_decide as Hx; [rewrite Hx; by rewrite lookup_insert_eq|by rewrite lookup_insert_ne].
Qed.

Lemma root_of_unlink s w r x : root_of (unlink s w r) x = if decide (x = w) then AddressZero else root_of s x.
Proof.
  unfold root_of at 1. simpl. case_decide as Hx; [rewrite Hx; by rewrite lookup_insert_eq|by rewrite lookup_insert_ne].
Qed.

(** What the contract accepts. *)
Lemma exec_Ok s c s' :
  exec_call s c = Ok s' <->
  match c with
  | LinkCallerToRootKey w root n => _verifyWallets s w (lw_addr root) = Ok tt /\ verify_signature w n root = Ok tt
      /\ n = _latestNonce s (lw_addr root) /\ s' = set_link (_useNonce s (lw_addr root)).2 w (lw_addr root)
  | LinkWalletToRootKey _ w root n => _verifyWallets s (lw_addr w) (lw_addr root) = Ok tt
      /\ verify_signature (lw_addr w) n root = Ok tt /\ verify_signature (lw_addr root) n w = Ok tt
      /\ n = _latestNonce s (lw_addr root) /\ s' = set_link (_useNonce s (lw_addr root)).2 (lw_addr w) (lw_addr root)
  | RemoveLink _ w root n => w <> AddressZero /\ lw_addr root <> AddressZero /\ w <> lw_addr root
      /\ root_of s w = lw_addr root /\ verify_signature w n root = Ok tt
      /\ s' = unlink s w (lw_addr root)
  end.
Proof.
  destruct c as [w root n|sender w root n|sender w root n]; cbn [exec_call].
  - unfold _linkCallerToRootWallet. split.
    + intros Hok. split_Ok Hok. apply useCheckedNonce_Ok in Ha1 as [-> ->]. by injection Hok as <-.
    + intros (-> & -> & -> & ->). res_simpl. by rewrite (proj2 (useCheckedNonce_Ok s _ _ _) (conj eq_refl eq_refl)).
  - unfold _linkWalletToRootWallet. split.
    + intros Hok. split_Ok Hok. apply useCheckedNonce_Ok in Ha2 as [-> ->]. by injection Hok as <-.
    + intros (-> & -> & -> & -> & ->). res_simpl. by rewrite (proj2 (useCheckedNonce_Ok s _ _ _) (conj eq_refl eq_refl)).
  - unfold _removeLink. split.
    + intros Hok. split_Ok Hok. apply require_Ok in Ha, Ha0, Ha1. injection Hok as <-.
      apply negb_true_iff, orb_false_iff in Ha as [Ha Ha']. apply negb_true_iff in Ha0.
      apply bool_decide_eq_false in Ha, Ha', Ha0. apply bool_decide_eq_true in Ha1. done.
    + intros (H1' & H2 & H3 & H4 & -> & ->).
      repeat first [rewrite bool_decide_false by done|rewrite bool_decide_true by done]. done.
Qed.

Lemma remove_ok s w r :
  links_ok s -> r <> AddressZero -> w <> r -> root_of s w = r ->
  links_ok (unlink s w r).
Proof.
  intros [Hnd Hel Hroot Hself Hn] Hr Hne Hw. set (s' := unlink s w r).
  assert (w ∈ wallets_of s r) as Hin by by apply Hel.
  pose proof (wallets_of_unlink s w r) as Eq1. pose proof (root_of_unlink s w r) as Eq2. fold s' in Eq1, Eq2.
  assert (forall x y, y ∈ wallets_of s' x <-> y ∈ wallets_of s x /\ y <> w) as Eq3.
  { intros x y. rewrite Eq1. destruct (decide (x = r)) as [->|Hx]; [by rewrite es_remove_elem|].
    split; [|naive_solver]. intros Hy. split; [done|]. intros ->. apply Hel in Hy as [Hy _]. congruence. }
  split.
  - intros x. rewrite Eq1. case_decide; [by apply es_remove_NoDup|done].
  - intros x y. rewrite Eq3, Eq2, Hel. destruct (decide (y = w)); naive_solver.
  - intros x y [Hy _]%Eq3. rewrite Eq2. case_decide; [done|]. by eapply Hroot.
  - intros x y [Hy _]%Eq3. by eapply Hself.
  - exact Hn.
Qed.

Lemma exec_links_ok s c s' : links_ok s -> exec_call s c = Ok s' -> links_ok s'.
Proof.
  intros Hs Hok%exec_Ok. destruct c as [w root n|sender w root n|sender w root n].
  - destruct Hok as (Hv & _ & _ & ->). by apply set_link_ok.
  - destruct Hok as (Hv & _ & _ & _ & ->). by apply set_link_ok.
  - destruct Hok as (_ & Hr & Hne & Hw & _ & ->). by apply remove_ok.
Qed.

(** A call that anyone sends and the contract accepts. *)
Definition link_step (s s' : WalletLinks) : Prop := exists c, exec_call s c = Ok s'.

Lemma no_links_ok : links_ok no_links.
Proof.
  split; [intros; apply NoDup_nil_2| |by intros r w ?%not_elem_of_nil|by intros r w ?%not_elem_of_nil|done].
  intros r w. split; [by intros ?%not_elem_of_nil|by intros [<- ?]].
Qed.

(** C36: whoever sends whatever calls, the links are a forest of depth one: the
    wallets of a root key are exactly those linked to it, each listed once; a wallet
    has one root key; a root key with wallets is not linked itself, and no wallet is
    linked to itself. *)
Theorem links_stay_consistent s : rtc link_step no_links s -> links_ok s.
Proof.
  intros Hsteps. pose proof no_links_ok as Hok. revert Hok.
  induction Hsteps as [s|s1 s2 s3 [c Hc] _ IH]; [done|]. intros Hok. apply IH. by eapply exec_links_ok.
Qed.

(** ** The client *)

(** The contract allows the link. *)
Definition linkable (s : WalletLinks) (r w : string) : Prop :=
  w <> r /\ root_of s w = AddressZero /\ root_of s r = AddressZero /\ wallets_of s w = [] /\ _latestNonce s r <= 2 ^ 53 - 1.

(** The holder of a key signs what they are asked to. *)
Definition willing (k : Signer) : Prop := forall m, exists sig, signMessage k m = Ok sig.

Lemma sign_address_Ok k a n :
  willing k -> n <= 2 ^ 53 - 1 ->
  exists sig, sign_address k a n = Ok sig /\ verify_signature a n (mkLinkedWallet (getAddress k) sig) = Ok tt.
Proof.
  intros Hk Hn. destruct (Hk (keccak256 (abi_encode a n))) as [sig Hs]. exists sig.
  unfold sign_address, packAddressWithNonce. rewrite (proj2 (Z.ltb_ge _ _)) by lia. res_simpl.
  split; [done|]. apply verify_signature_Ok. simpl. by apply recover_sign.
Qed.

Lemma not_linked s r w : root_of s w = AddressZero -> r <> AddressZero -> _checkIfLinked s r w = false.
Proof. intros Hw Hr. apply bool_decide_eq_false. congruence. Qed.

Lemma linkable_verify s k w :
  linkable s (getAddress k) w -> w <> AddressZero -> _verifyWallets s w (getAddress k) = Ok tt.
Proof. intros (Hne & Hw & Hr & Hno & _) Hw0. apply verifyWallets_Ok. pose proof (getAddress_nonzero k). done. Qed.

(** The state after a link. *)
Definition linked_state (s s' : WalletLinks) (r w : string) : Prop :=
  root_of s' w = r /\ w ∈ wallets_of s' r /\ _latestNonce s' r = _latestNonce s r + 1.

Lemma linked_after s r w : NoDup (wallets_of s r) -> 0 <= _latestNonce s r <= 2 ^ 53 - 1 -> linked_state s (set_link (_useNonce s r).2 w r) r w.
Proof.
  intros Hnd Hn. split_and!.
  - rewrite root_of_set. by rewrite decide_True.
  - rewrite wallets_of_set, decide_True by done. apply es_add_elem; [done|]. by left.
  - change (_latestNonce (_useNonce s r).2 r = _latestNonce s r + 1). rewrite latestNonce_use, decide_True by done.
    apply Z.mod_small. lia.
Qed.

Lemma latestNonce_step s s' r :
  0 <= _latestNonce s r < 2 ^ 256 - 1 -> link_step s s' -> _latestNonce s r <= _latestNonce s' r <= _latestNonce s r + 1.
Proof.
  intros Hn [c Hc%exec_Ok].
  assert (forall w o, _latestNonce s r <= _latestNonce (set_link (_useNonce s o).2 w o) r <= _latestNonce s r + 1) as Hset.
  { intros w o. change (_latestNonce s r <= _latestNonce (_useNonce s o).2 r <= _latestNonce s r + 1).
    rewrite latestNonce_use. case_decide as Ho; [|lia]. subst o. rewrite Z.mod_small; lia. }
  destruct c as [w root n|sender w root n|sender w root n].
  - destruct Hc as (_ & _ & _ & ->). apply Hset.
  - destruct Hc as (_ & _ & _ & _ & ->). apply Hset.
  - destruct Hc as (_ & _ & _ & _ & _ & ->). change (_latestNonce s r <= _latestNonce s r <= _latestNonce s r + 1). lia.
Qed.

Lemma latestNonce_steps m s s' r :
  nsteps link_step m s s' -> 0 <= _latestNonce s r -> _latestNonce s r + Z.of_nat m < 2 ^ 256 - 1 ->
  _latestNonce s r <= _latestNonce s' r.
Proof.
  induction 1 as [s|m s1 s2 s3 H12 _ IH]; intros Hpos Hb; [lia|].
  pose proof (latestNonce_step s1 s2 r ltac:(lia) H12). etrans; [|apply IH; lia]. lia.
Qed.

(** C37: linking works and cannot be replayed. When the contract allows the link, the
    call of [linkCallerToRootKey] (sent by the wallet) and that of
    [linkWalletToRootKey] (sent by the root key) are accepted and the wallet is then
    linked to the root key and listed under it, and the nonce of the root key has
    moved on; none of the two calls is accepted again in any later state, short of
    2^200 further calls. *)
Theorem linking_works s k w :
  links_ok s -> willing k -> willing w -> linkable s (getAddress k) (getAddress w) ->
  forall build, build = linkCallerToRootKey \/ build = linkWalletToRootKey ->
  exists c s1, build s s k w = Ok c /\ exec_call s c = Ok s1
    /\ checkIfLinked s1 k (getAddress w) = true /\ linked_state s s1 (getAddress k) (getAddress w)
    /\ forall m s2, nsteps link_step m s1 s2 -> Z.of_nat m < 2 ^ 200 -> forall s3, exec_call s2 c <> Ok s3.
Proof.
  intros Hs Hk Hw Hl build Hbuild. pose proof Hl as (Hne & Hw0 & Hr0 & Hno & Hn).
  pose proof (linkable_verify s k (getAddress w) Hl (getAddress_nonzero w)) as Hver.
  pose proof (not_linked s (getAddress k) (getAddress w) Hw0 (getAddress_nonzero k)) as Hnl.
  pose proof (lo_nonce s Hs (getAddress k)) as Hpos. set (n := _latestNonce s (getAddress k)) in *.
  destruct (sign_address_Ok k (getAddress w) n Hk Hn) as (sig & Hsig & Hv1).
  destruct (sign_address_Ok w (getAddress k) n Hw Hn) as (sig2 & Hsig2 & Hv2).
  set (s1 := set_link (_useNonce s (getAddress k)).2 (getAddress w) (getAddress k)).
  assert (linked_state s s1 (getAddress k) (getAddress w)) as Hls by (apply linked_after; [apply (lo_nodup s Hs)|done]).
  assert (exists c, build s s k w = Ok c /\ exec_call s c = Ok s1
    /\ forall s2, n < _latestNonce s2 (getAddress k) -> forall s3, exec_call s2 c <> Ok s3) as (c & Hb & Hx & Hre).
  { destruct Hbuild as [->| ->].
    - exists (LinkCallerToRootKey (getAddress w) (mkLinkedWallet (getAddress k) sig) n).
      split. { unfold linkCallerToRootKey, generateLinkCallerData, assertNotAlreadyLinked. simpl. rewrite Hnl. res_simpl. fold n. by rewrite Hsig. }
      split; [by rewrite exec_Ok|]. intros s2 Hlt s3 (_ & _ & Heq & _)%exec_Ok. simpl in Heq. lia.
    - exists (LinkWalletToRootKey (getAddress k) (mkLinkedWallet (getAddress w) sig2) (mkLinkedWallet (getAddress k) sig) n).
      split. { unfold linkWalletToRootKey, generateLinkWalletData, assertNotAlreadyLinked. simpl. rewrite Hnl. res_simpl. fold n.
        rewrite Hsig. res_simpl. by rewrite Hsig2. }
      split; [by rewrite exec_Ok|].
      intros s2 Hlt s3 (_ & _ & _ & Heq & _)%exec_Ok. simpl in Heq. lia. }
  exists c, s1. split_and!; try done.
  - apply bool_decide_eq_true. apply Hls.
  - intros m s2 Hm Hlt. apply Hre. destruct Hls as (_ & _ & Hnn). fold n in Hnn.
    pose proof (latestNonce_steps m s1 s2 (getAddress k) Hm). lia.
Qed.

(** The signature that links a wallet also removes the link, and the signature
    that removed it links it again. After a wallet was linked by its own call, a call
    of [removeLink] with the root key's signature and nonce from that call is
    accepted, whoever sends it. After the root key has removed a wallet with the call
    of [removeLink], the wallet links itself again with the signature and nonce from
    that call, since removing does not use up the nonce. *)
Theorem link_signatures_reused s k w :
  links_ok s -> willing k ->
  (forall sender root n s1, exec_call s (LinkCallerToRootKey w root n) = Ok s1 -> exists s2, exec_call s1 (RemoveLink sender w root n) = Ok s2)
  /\ (root_of s w = getAddress k -> w <> AddressZero -> _latestNonce s (getAddress k) <= 2 ^ 53 - 1 ->
      exists root n s1 s2, removeLink s s k w = Ok (RemoveLink (getAddress k) w root n)
        /\ exec_call s (RemoveLink (getAddress k) w root n) = Ok s1 /\ checkIfLinked s1 k w = false
        /\ exec_call s1 (LinkCallerToRootKey w root n) = Ok s2 /\ checkIfLinked s2 k w = true).
Proof.
  intros Hs Hk. split.
  - intros sender root n s1 Hok%exec_Ok. destruct Hok as (Hv & Hsig & _ & ->). apply verifyWallets_Ok in Hv as (Hw0 & Hr0 & Hne & _).
    eexists. apply exec_Ok. split_and!; try done. rewrite root_of_set. by rewrite decide_True.
  - intros Hroot Hw0 Hn. pose proof (getAddress_nonzero k) as Hk0.
    assert (w ∈ wallets_of s (getAddress k)) as Hin by by apply (lo_elem s Hs).
    assert (w <> getAddress k) as Hne by by eapply (lo_self s Hs).
    destruct (sign_address_Ok k w (_latestNonce s (getAddress k)) Hk Hn) as (sig & Hsig & Hv).
    set (root := mkLinkedWallet (getAddress k) sig) in *.
    exists root, (_latestNonce s (getAddress k)).
    set (s1 := unlink s w (getAddress k)). set (s2 := set_link (_useNonce s1 (getAddress k)).2 w (getAddress k)).
    exists s1, s2.
    assert (_verifyWallets s1 w (getAddress k) = Ok tt) as Hver.
    { apply verifyWallets_Ok. unfold s1. rewrite !root_of_unlink, wallets_of_unlink. rewrite decide_True by done.
      rewrite !decide_False by done. split_and!; try done; [by eapply (lo_root s Hs)|].
      destruct (wallets_of s w) as [|x l] eqn:Hl; [done|]. assert (x ∈ wallets_of s w) as Hx by (rewrite Hl; left).
      pose proof (lo_root s Hs w x Hx). congruence. }
    split_and!.
    + unfold removeLink, generateRemoveLinkData, assertAlreadyLinked, _checkIfLinked. rewrite bool_decide_true by done.
      simpl. by rewrite Hsig.
    + by rewrite exec_Ok.
    + apply not_linked; [|done]. unfold s1. rewrite root_of_unlink. by rewrite decide_True.
    + by rewrite exec_Ok.
    + apply bool_decide_eq_true. unfold s2. rewrite root_of_set. by rewrite decide_True.
Qed.
End LinkedWallets.

(** ** Example: signers named by their addresses, signatures that contain the message *)
#[local] Instance byte_dec : EqDecision byte := Byte.byte_eq_dec.
#[local] Instance toy_EthSigning : EthSigning := {|
  Signer := string;
  getAddress k := if decide (k = AddressZero) then "signer" else k;
  signMessage k m := Ok (m ++ String.list_byte_of_string (if decide (k = AddressZero) then "signer" else k));
  abi_encode a n := String.list_byte_of_string a ++ [byte_of_Z n];
  keccak256 m := m;
  toEthSignedMessageHash m := m;
  recover h sig := if decide (take (length h) sig = h) then Ok (String.string_of_list_byte (drop (length h) sig))
                   else revert "ECDSAInvalidSignature";
|}.

#[local] Instance toy_EthSigningLaws : EthSigningLaws.
Proof.
  split; cbn [recover toy_EthSigning signMessage getAddress toEthSignedMessageHash].
  - intros k m sig [= <-]. rewrite take_app_length, drop_app_length, decide_True by done.
    by rewrite String.string_of_list_byte_of_string.
  - intros k. case_decide; done.
Qed.

Lemma toy_willing k : willing k.
Proof. intros m. eexists. reflexivity. Qed.

Definition demo_linked : WalletLinks := set_link (_useNonce no_links "root").2 "wallet" "root".

Lemma demo_step : link_step no_links demo_linked.
Proof.
  exists (LinkCallerToRootKey "wallet" (mkLinkedWallet "root" (String.list_byte_of_string "wallet" ++ [x00] ++ String.list_byte_of_string "root")) 0).
  vm_compute. reflexivity.
Qed.

Lemma demo_linked_ok : links_ok demo_linked.
Proof. destruct demo_step as [c Hc]. exact (exec_links_ok _ _ _ no_links_ok Hc). Qed.

Lemma links_stay_consistent_witness : rtc link_step no_links demo_linked /\ links_ok demo_linked.
Proof.
  assert (rtc link_step no_links demo_linked) as Hs by apply rtc_once, demo_step.
  split; [exact Hs|]. exact (links_stay_consistent demo_linked Hs).
Defined.

Lemma linking_works_witness :
  exists c s1, linkCallerToRootKey no_links no_links "root" "wallet" = Ok c /\ exec_call no_links c = Ok s1
    /\ checkIfLinked s1 "root" "wallet" = true /\ linked_state no_links s1 "root" "wallet"
    /\ forall m s2, nsteps link_step m s1 s2 -> Z.of_nat m < 2 ^ 200 -> forall s3, exec_call s2 c <> Ok s3.
Proof.
  refine (linking_works no_links "root" "wallet" no_links_ok (toy_willing _) (toy_willing _) _ linkCallerToRootKey (or_introl eq_refl)).
  vm_compute. split_and!; discriminate || reflexivity.
Defined.

Lemma link_signatures_reused_witness :
  root_of demo_linked "wallet" = "root" /\
  exists root n s1 s2, removeLink demo_linked demo_linked "root" "wallet" = Ok (RemoveLink "root" "wallet" root n)
    /\ exec_call demo_linked (RemoveLink "root" "wallet" root n) = Ok s1 /\ checkIfLinked s1 "root" "wallet" = false
    /\ exec_call s1 (LinkCallerToRootKey "wallet" root n) = Ok s2 /\ checkIfLinked s2 "root" "wallet" = true.
Proof.
  split; [reflexivity|].
  refine (proj2 (link_signatures_reused demo_linked "root" "wallet" demo_linked_ok (toy_willing _)) _ _ _).
  - reflexivity.
  - discriminate.
  - vm_compute. discriminate.
Defined.
