(* ===== verification/ContractShims.v ===== *)
(** * Contract shims and the registry of spaces (core/web3/src/v3/BaseContractShim.ts,
      SpaceRegistrar.ts, Space.ts, PricingModules.ts, IMembershipShim.ts; parsing of errors
      in SpaceDapp.ts)

    A shim wraps one contract: it makes the ethers contract objects when they are first
    needed and reads what went wrong out of the errors of a transaction. A space has a
    shim per facet, and an error is tried against all of them. The coding of ABIs, the
    parser of JSON and the addresses of ethers are parameters. *)

From Stdlib Require Import Ascii.
From stdpp Require Import pretty.
From S2P Require Import Prelude.

Definition UNKNOWN_ERROR : string := "UNKNOWN_ERROR".

(** ** The shim of a contract *)

(** [sh_readContract] and [sh_writeContract] are the cached contracts, the second by
    the identity of its signer. *)
Record Shim := mkShim {
  sh_address : string;
  sh_version : string;
  sh_provider : option nat;
  sh_readContract : option nat;
  sh_writeContract : option nat;
}.

Definition ContractVersions : list string := ["dev"; "v3"].

(** [new BaseContractShim(address, version, provider, abis)]: [abis] has the versions
    there is an ABI for. *)
Definition new_Shim (address version : string) (provider : option nat) (abis : list string) : result Shim :=
  if decide (version ∈ abis) then Ok (mkShim address version provider None None)
  else Throw (JsError ("No ABI for version " +:+ version)).

Section Shim.
Context {E : Type}.
Abbreviation ShM := (JS E Shim).

Definition check_version (self : Shim) : ShM unit :=
  if decide (sh_version self ∈ ContractVersions) then js_return
  else js_throw (JsError ("Unsupported version " +:+ sh_version self)).

(** [createReadContractInstance] *)
Definition createReadContractInstance (self : Shim) : result nat :=
  match sh_provider self with
  | None => Throw (JsError "No provider")
  | Some provider => Ok provider
  end.

(** [shim.read]: the provider the contract reads with. *)
Definition read : ShM nat :=
  self ← js_get;
  contract ← match sh_readContract self with
             | Some contract => mret contract
             | None =>
                 contract ← js_lift (createReadContractInstance self);
                 js_modify (fun s => mkShim (sh_address s) (sh_version s) (sh_provider s) (Some contract) (sh_writeContract s));;
                 mret contract
             end;
  check_version self;;
  mret contract.

(** The functions of a contract by their names, and the coding of their arguments and
    results, of the ethers library. *)
Record ContractInterface := mkContractInterface {
  ci_getFunction : string -> bool;
  ci_encodeFunctionData : string -> list string -> result string;
  ci_decodeFunctionData : string -> string -> result (list string);
  ci_decodeFunctionResult : string -> string -> result (list string);
}.

(** [this.interface] *)
Definition interface (contractInterface : ContractInterface) : ShM ContractInterface :=
  self ← js_get;
  check_version self;;
  mret contractInterface.

(** A function of that name, of the interface as it is read for the test and for the use. *)
Definition with_function {A} (contractInterface : ContractInterface) (functionName : string)
    (f : ContractInterface -> result A) : ShM A :=
  iface ← interface contractInterface;
  (if negb (ci_getFunction iface functionName)
   then js_throw (JsError ("Function " +:+ functionName +:+ " not found in contract interface"))
   else js_return);;
  iface ← interface contractInterface;
  js_lift (f iface).

Definition decodeFunctionResult (contractInterface : ContractInterface) (functionName data : string) : ShM (list string) :=
  with_function contractInterface functionName (fun i => ci_decodeFunctionResult i functionName data).

Definition decodeFunctionData (contractInterface : ContractInterface) (functionName data : string) : ShM (list string) :=
  with_function contractInterface functionName (fun i => ci_decodeFunctionData i functionName data).

Definition encodeFunctionData (contractInterface : ContractInterface) (functionName : string) (args : list string) : ShM string :=
  with_function contractInterface functionName (fun i => ci_encodeFunctionData i functionName args).

(** [shim.write(signer)]: the signer the contract writes with. *)
Definition write (signer : nat) : ShM nat :=
  self ← js_get;
  js_when (negb (bool_decide (sh_writeContract self = Some signer)))
    (js_modify (fun s => mkShim (sh_address s) (sh_version s) (sh_provider s) (sh_readContract s) (Some signer)));;
  check_version self;;
  mret signer.
End Shim.

(** ** Errors *)

(** What is read of a thrown value; [ae_error] is the error nested in it. *)
Inductive any_error := mkAnyError {
  ae_data : option string;
  ae_message : option string;
  ae_name : option string;
  ae_reason : option string;
  ae_code : option string;
  ae_error : option any_error;
}.

Record error_data := mkErrorData { ed_data : option string; ed_message : option string; ed_name : option string }.

Record parsed_error := mkParsedError { per_name : string; per_message : option string; per_code : option string }.

Section Errors.
(** [JSON.parse] of a text to the [data], [message] and [name] of the object. *)
Context (json_parse : string -> result error_data).

(** The regular expression of the source: the word error, a backslash, a quote, a colon
    and a text in braces, which is the match. *)
Definition error_prefix : string := "error\" +:+ String (ascii_of_nat 34) ":{".

Fixpoint until_brace (s : string) : option string :=
  match s with
  | EmptyString => None
  | String c s => if (c =? "}")%char then Some "" else String c <$> until_brace s
  end.

Fixpoint errorMatch (s : string) : option string :=
  match s with
  | EmptyString => None
  | String _ s' =>
      match (if startsWith s error_prefix then until_brace (slice_from (String.length error_prefix) s) else None) with
      | Some (String c g) => Some (String c g)
      | _ => errorMatch s'
      end
  end.

(** [replace(/\\/g, '')] *)
Fixpoint without_backslashes (s : string) : string :=
  match s with
  | EmptyString => ""
  | String c s => if (c =? "\")%char then without_backslashes s else String c (without_backslashes s)
  end.

Definition data_of (e : option any_error) : error_data :=
  mkErrorData (e ≫= ae_data) (e ≫= ae_message) (e ≫= ae_name).

Definition has_data (d : error_data) : bool := is_defined (truthy_str (ed_data d)).

Definition getErrorData (anyError : any_error) : error_data :=
  let nested := ae_error anyError ≫= ae_error in
  let d := data_of (nested ≫= ae_error) in
  let d := if has_data d then d else data_of nested in
  let d := if has_data d then d else data_of (Some anyError) in
  if has_data d then d
  else
    let reason := match truthy_str (ae_reason anyError) with Some r => Some r | None => ae_message anyError end in
    match reason ≫= errorMatch with
    | Some m =>
        match json_parse ("{" +:+ without_backslashes m +:+ "}") with
        | Ok parsed => parsed
        | Throw _ => d
        end
    | None => d
    end.

(** [parseError] of the shim whose interface decodes with [decode]: the name of the
    error, nothing for an unknown selector, or a throw for other data. *)
Definition parseError (decode : string -> result (option string)) (anyError : any_error) : parsed_error :=
  let d := getErrorData anyError in
  match truthy_str (ed_data d) with
  | None => mkParsedError (default UNKNOWN_ERROR (ed_name d)) (ed_message d) (ae_code anyError)
  | Some errorData =>
      match decode errorData with
      | Ok name => mkParsedError (default UNKNOWN_ERROR name) (ed_message d) None
      | Throw (CodeException m _) | Throw (JsError m) => mkParsedError UNKNOWN_ERROR (Some m) None
      end
  end.

(** [Space.parseError]: the first of the shims whose answer has a name. *)
Fixpoint parse_with (decoders : list (string -> result (option string))) (err : parsed_error) (anyError : any_error) : parsed_error :=
  match decoders with
  | [] => err
  | decode :: decoders =>
      let err := parseError decode anyError in
      if bool_decide (per_name err <> UNKNOWN_ERROR) then err else parse_with decoders err anyError
  end.

(** [getAllShims]: the decoders of the eleven facets of a space, in order. *)
Record space_decoders := mkSpaceDecoders {
  d_channel : string -> result (option string);
  d_others : list (string -> result (option string));
}.

Definition space_parseError (ds : space_decoders) (anyError : any_error) : parsed_error :=
  let err := parseError (d_channel ds) anyError in
  if bool_decide (per_name err <> UNKNOWN_ERROR) then err else parse_with (d_others ds) err anyError.

(** The decoders of the other contracts of the application. *)
Record dapp_decoders := mkDappDecoders {
  d_space : string -> result (option space_decoders);
  d_architect : string -> result (option string);
  d_pricing : string -> result (option string);
  d_prepay : string -> result (option string);
  d_walletLink : string -> result (option string);
}.

Definition space_not_found (spaceId : string) : js_error :=
  let quote := String (ascii_of_nat 34) "" in JsError ("Space with spaceId " +:+ quote +:+ spaceId +:+ quote +:+ " is not found.").

Definition parseSpaceFactoryError (ds : dapp_decoders) (anyError : any_error) : parsed_error :=
  parseError (d_architect ds) anyError.

Definition parsePrepayError (ds : dapp_decoders) (anyError : any_error) : parsed_error := parseError (d_prepay ds) anyError.

Definition parseSpaceError (ds : dapp_decoders) (spaceId : string) (anyError : any_error) : result parsed_error :=
  space ← d_space ds spaceId;
  match space with
  | None => Throw (space_not_found spaceId)
  | Some space => Ok (space_parseError space anyError)
  end.

Definition parseAllContractErrors (ds : dapp_decoders) (spaceId : option string) (anyError : any_error) : result parsed_error :=
  err ← match truthy_str spaceId with
        | Some spaceId => err ← parseSpaceError ds spaceId anyError; Ok (Some err)
        | None => Ok None
        end;
  let others := Ok (parse_with [d_architect ds; d_pricing ds; d_prepay ds; d_walletLink ds]
                      (mkParsedError UNKNOWN_ERROR None None) anyError) in
  match err with
  | Some err => if bool_decide (per_name err <> UNKNOWN_ERROR) then Ok err else others
  | None => others
  end.
End Errors.

(** [Space.parseLog]: the first facet that can parse it. *)
Section Logs.
Context {Log Description : Type} (stringify : Log -> string).

Fixpoint space_parseLog (shims : list (Log -> result Description)) (log : Log) : result Description :=
  match shims with
  | [] => Throw (JsError ("Failed to parse log: " +:+ stringify log))
  | parseLog :: shims =>
      match parseLog log with
      | Ok d => Ok d
      | Throw _ => space_parseLog shims log
      end
  end.

Definition parseSpaceLogs (spaceId : string) (space : option (list (Log -> result Description))) (logs : list Log)
    : result (list (option Description)) :=
  match space with
  | None => Throw (space_not_found spaceId)
  | Some shims => Ok (map (fun log => match space_parseLog shims log with Ok d => Some d | Throw _ => None end) logs)
  end.

(** [getSpaceAddress]: the [space] argument of the first [SpaceCreated] log of a receipt;
    [parseLog] of the architect gives the name and that argument. *)
Fixpoint created_space (parseLog : Log -> result (string * string)) (logs : list Log) : option string :=
  match logs with
  | [] => None
  | log :: logs =>
      match parseLog log with
      | Ok (name, space) => if bool_decide (name = "SpaceCreated") then Some space else created_space parseLog logs
      | Throw _ => created_space parseLog logs
      end
  end.

Definition getSpaceAddress (parseLog : Log -> result (string * string)) (status : Z) (logs : list Log) : option string :=
  if negb (status =? 1) then None else created_space parseLog logs.
End Logs.

(** ** The registry of spaces *)

Definition AddressZero : string := "0x0000000000000000000000000000000000000000".

(** The arguments of the constructor of [Space] that differ between spaces. *)
Record SpaceStub := mkSpaceStub { sp_address : string; sp_spaceId : string }.

Section Registrar.
Context (ethers_getAddress : string -> result string).

Definition SpaceAddressFromSpaceId (spaceId : string) : result string := ethers_getAddress (slice 2 42 spaceId).

(** [getSpace] on the map of the spaces made so far. *)
Definition getSpace {E} (spaceId : string) : JS E (jsmap SpaceStub) (option SpaceStub) :=
  spaces ← js_get;
  match jm_get spaceId spaces with
  | Some space => mret (Some space)
  | None =>
      spaceAddress ← js_lift (SpaceAddressFromSpaceId spaceId);
      if bool_decide (spaceAddress = "") || bool_decide (spaceAddress = AddressZero) then mret None
      else
        js_modify (jm_set spaceId (mkSpaceStub spaceAddress spaceId));;
        mret (Some (mkSpaceStub spaceAddress spaceId))
  end.
End Registrar.

(** ** Properties *)

(** The name a decoder has for the data. *)
Definition known_name (d : string) (decode : string -> result (option string)) : option string :=
  match decode d with
  | Ok (Some n) => if decide (n = UNKNOWN_ERROR) then None else Some n
  | _ => None
  end.

(** The name of the first decoder that has one. *)
Fixpoint first_name (d : string) (decoders : list (string -> result (option string))) : option string :=
  match decoders with
  | [] => None
  | decode :: decoders =>
      match known_name d decode with
      | Some n => Some n
      | None => first_name d decoders
      end
  end.

(** All contracts, in the order they are asked. *)
Definition all_decoders (ds : dapp_decoders) (space : option space_decoders) : list (string -> result (option string)) :=
  match space with Some s => d_channel s :: d_others s | None => [] end
  ++ [d_architect ds; d_pricing ds; d_prepay ds; d_walletLink ds].

Lemma first_name_app d fs gs :
  first_name d (fs ++ gs) = match first_name d fs with Some n => Some n | None => first_name d gs end.
Proof. induction fs as [|f fs IH]; simpl; [done|]. by destruct (known_name d f). Qed.

Lemma first_name_not_unknown d fs n : first_name d fs = Some n -> n <> UNKNOWN_ERROR.
Proof.
  induction fs as [|f fs IH]; simpl; [done|]. destruct (known_name d f) as [m|] eqn:Hk; [|done].
  intros [= ->]. unfold known_name in Hk. destruct (f d) as [[m|]|]; [|done|done]. by case_decide; simplify_eq.
Qed.

Section ErrorProperties.
Context (json_parse : string -> result error_data) (e : any_error) (d : string).
Context (Hd : truthy_str (ed_data (getErrorData json_parse e)) = Some d).

(** An answer with a name keeps the message of the error. *)
Definition answers (name : option string) (err : parsed_error) : Prop :=
  per_name err = default UNKNOWN_ERROR name
  /\ (is_Some name -> per_message err = ed_message (getErrorData json_parse e)).

Lemma parseError_answers decode : answers (known_name d decode) (parseError json_parse decode e).
Proof.
  unfold answers, parseError, known_name. rewrite Hd. destruct (decode d) as [[n|]|[m c|m]]; simpl; try (by split; [|intros [? ?]]).
  case_decide as Hn; simpl; split; try done; by intros [? ?].
Qed.

Lemma parse_with_answers fs err :
  answers None err -> answers (first_name d fs) (parse_with json_parse fs err e).
Proof.
  revert err. induction fs as [|f fs IH]; intros err He; simpl; [done|].
  pose proof (parseError_answers f) as Hf. destruct (known_name d f) as [n|] eqn:Hk.
  - rewrite bool_decide_true; [done|]. destruct Hf as [-> _]. simpl.
    apply (first_name_not_unknown d [f]). simpl. by rewrite Hk.
  - rewrite bool_decide_false; [by apply IH|]. destruct Hf as [Hn _]. intros Hx. by apply Hx.
Qed.

Lemma unknown_answers : answers None (mkParsedError UNKNOWN_ERROR None None).
Proof. split; [done|]. by intros [? ?]. Qed.

Lemma space_parseError_answers s : answers (first_name d (d_channel s :: d_others s)) (space_parseError json_parse s e).
Proof. exact (parse_with_answers (d_channel s :: d_others s) (mkParsedError UNKNOWN_ERROR None None) unknown_answers). Qed.
End ErrorProperties.

(** C38: an error that carries data is named by the first contract that knows it:
    the facets of the space in order, then the architect, the pricing modules, the
    prepayments and the wallet links; the message is the one that came with the data.
    When no contract knows it the name is UNKNOWN_ERROR; the call itself fails only
    for a space that does not exist. *)
Theorem contract_errors_named json_parse ds spaceId e d :
  truthy_str (ed_data (getErrorData json_parse e)) = Some d ->
  match truthy_str spaceId with
  | None => exists err, parseAllContractErrors json_parse ds spaceId e = Ok err
      /\ answers json_parse e (first_name d (all_decoders ds None)) err
  | Some id =>
      match d_space ds id with
      | Ok (Some space) => exists err, parseAllContractErrors json_parse ds spaceId e = Ok err
          /\ answers json_parse e (first_name d (all_decoders ds (Some space))) err
      | Ok None => parseAllContractErrors json_parse ds spaceId e = Throw (space_not_found id)
      | Throw err => parseAllContractErrors json_parse ds spaceId e = Throw err
      end
  end.
Proof.
  intros Hd. unfold parseAllContractErrors, parseSpaceError.
  pose proof (parse_with_answers json_parse e d Hd [d_architect ds; d_pricing ds; d_prepay ds; d_walletLink ds] _
    (unknown_answers json_parse e)) as Hrest.
  destruct (truthy_str spaceId) as [id|]; [|by eexists].
  destruct (d_space ds id) as [[space|]|err]; res_simpl; [|done|done].
  pose proof (space_parseError_answers json_parse e d Hd space) as Hs.
  unfold all_decoders. rewrite first_name_app.
  destruct (first_name d (d_channel space :: d_others space)) as [n|] eqn:Hn.
  - exists (space_parseError json_parse space e). split; [|done]. rewrite bool_decide_true; [done|].
    destruct Hs as [-> _]. by eapply first_name_not_unknown.
  - eexists. split; [|exact Hrest]. rewrite bool_decide_false; [done|]. destruct Hs as [Hu _]. intros Hx. by apply Hx.
Qed.

(** ** The shim and the registry *)

(** The same space is always the same object, made with the address in its id. *)
Lemma getSpace_cached {E} ga id spaces sp :
  (forall k x, jm_get k spaces = Some x -> sp_spaceId x = k /\ SpaceAddressFromSpaceId ga k = Ok (sp_address x)) ->
  res ((getSpace ga id : JS E _ _) spaces) = Ok (Some sp) ->
  sp_spaceId sp = id /\ SpaceAddressFromSpaceId ga id = Ok (sp_address sp)
  /\ res ((getSpace ga id : JS E _ _) (post ((getSpace ga id : JS E _ _) spaces))) = Ok (Some sp).
Proof.
  intros Hok. unfold getSpace. js_unfold. simpl. destruct (jm_get id spaces) as [x|] eqn:Hx; simpl.
  - intros [= <-]. rewrite Hx. destruct (Hok _ _ Hx). done.
  - destruct (SpaceAddressFromSpaceId ga id) as [a|err]; simpl; [|done].
    destruct (bool_decide (a = "") || bool_decide (a = AddressZero)); simpl; [done|].
    intros [= <-]. rewrite jm_get_set_eq. done.
Qed.

(** A failed decode: the name is unknown and the message is the decoder's, not that of
    the error. *)
Example decode_failure_hides_message :
  let e := mkAnyError (Some "0x00") (Some "execution reverted: sold out") None None None None in
  parseError (fun _ => Throw (JsError "bad json")) (fun _ => Throw (JsError "no matching error")) e
  = mkParsedError UNKNOWN_ERROR (Some "no matching error") None.
Proof. reflexivity. Qed.

(** An error whose message has the data in a nested text. *)
Definition demo_error : any_error :=
  let q := String (ascii_of_nat 34) "" in
  mkAnyError None (Some ("failed error\" +:+ q +:+ ":{data\}")) None None None None.
Definition demo_json (s : string) : result error_data :=
  if decide (s = "{data}") then Ok (mkErrorData (Some "0xab") (Some "reverted") None) else Throw (JsError "bad json").
Definition demo_decoders : dapp_decoders :=
  let none _ := Ok None in
  mkDappDecoders (fun _ => Ok (Some (mkSpaceDecoders none [none]))) none none
    (fun d => if decide (d = "0xab") then Ok (Some "Prepay__InvalidAmount") else Ok None) none.

Lemma contract_errors_named_witness :
  truthy_str (ed_data (getErrorData demo_json demo_error)) = Some "0xab"
  /\ exists err, parseAllContractErrors demo_json demo_decoders None demo_error = Ok err
     /\ answers demo_json demo_error (first_name "0xab" (all_decoders demo_decoders None)) err.
Proof.
  assert (truthy_str (ed_data (getErrorData demo_json demo_error)) = Some "0xab") as Hd by (vm_compute; reflexivity).
  split; [exact Hd|]. exact (contract_errors_named demo_json demo_decoders None demo_error "0xab" Hd).
Defined.

(** ** Coding of calls *)

(** What a shim of a known version encodes, it decodes, when the coder of the library
    does; neither changes the shim. A function it does not know is refused by both. *)
Theorem shim_coding_roundtrip {E} (i : ContractInterface) (self : Shim) name args :
  sh_version self ∈ ContractVersions ->
  (forall n a data, ci_encodeFunctionData i n a = Ok data -> ci_decodeFunctionData i n data = Ok a) ->
  post (encodeFunctionData (E := E) i name args self) = self
  /\ match res (encodeFunctionData (E := E) i name args self) with
     | Ok data => decodeFunctionData (E := E) i name data self = Outcome (Ok args) self []
     | Throw e => ci_getFunction i name = false
                  /\ e = JsError ("Function " +:+ name +:+ " not found in contract interface")
                  \/ ci_encodeFunctionData i name args = Throw e
     end.
Proof.
  intros Hv Hcode. unfold encodeFunctionData, decodeFunctionData, with_function, interface, check_version.
  js_unfold. simpl. rewrite !decide_True by done. simpl. destruct (ci_getFunction i name) eqn:Hf; simpl; [rewrite !decide_True by done; simpl|split; [done|]; by left].
  destruct (ci_encodeFunctionData i name args) as [data|e] eqn:He; simpl; [|split; [done|]; by right].
  split; [done|]. by rewrite (Hcode _ _ _ He).
Qed.

Definition demo_interface : ContractInterface :=
  mkContractInterface (fun _ => true) (fun _ a => match a with [d] => Ok d | _ => Throw (JsError "") end) (fun _ d => Ok [d]) (fun _ d => Ok [d]).

Lemma shim_coding_roundtrip_witness :
  decodeFunctionData (E := unit) demo_interface "f" "x" (mkShim "0x" "v3" None None None)
  = Outcome (Ok ["x"]) (mkShim "0x" "v3" None None None) [].
Proof.
  refine (proj2 (shim_coding_roundtrip (E := unit) demo_interface (mkShim "0x" "v3" None None None) "f" ["x"] _ _)).
  - apply list_elem_of_In. by right; left.
  - intros n [|d [|]] data; [done| |done]. by intros [= <-].
Defined.

(** ** Waiting for a membership token (core/web3/src/v3/IMembershipShim.ts)

    [listenForMembershipToken] returns a promise that listens to three sources: the
    contract's two events for the receiver, and the abort signal, its own with a timer
    of twenty seconds or one the caller provides. The listeners are a state machine on
    what can happen; [l_result] is what the promise resolved to. *)

(** [{ issued, tokenId }] *)
Inductive membership_result :=
| Issued (tokenId : string)
| NotIssued.
#[global] Instance membership_result_eq_dec : EqDecision membership_result.
Proof. solve_decision. Defined.

Record listener := mkListener {
  l_issued : bool;   (* the listeners that are registered *)
  l_rejected : bool;
  l_onAbort : bool;
  l_timer : bool;    (* the timer is set *)
  l_aborted : bool;  (* [abortController.signal.aborted] *)
  l_result : option membership_result;
}.

(** What happens around the promise: [recipient] is written as ethers decodes it. *)
Inductive occurrence :=
| MembershipTokenIssued (recipient : string) (tokenId : Z)
| MembershipTokenRejected (recipient : string)
| AbortCalled
| TimerFires.

(** [listenForMembershipToken(receiver, providedAbortController)]; the argument says
    whether a provided controller was aborted before. *)
Definition listenForMembershipToken (provided : option bool) : listener :=
  mkListener true true true (negb (is_defined provided)) (default false provided) None.

Definition cleanup (l : listener) : listener := mkListener false false false false (l_aborted l) (l_result l).

(** A promise resolves once. *)
Definition resolve (r : membership_result) (l : listener) : listener :=
  match l_result l with
  | Some _ => l
  | None => mkListener (l_issued l) (l_rejected l) (l_onAbort l) (l_timer l) (l_aborted l) (Some r)
  end.

Definition onAbort (l : listener) : listener := resolve NotIssued (cleanup l).

(** [abortController.abort()]: the signal is aborted once, its listeners are called. *)
Definition abort (l : listener) : listener :=
  if l_aborted l then l
  else
    let l := mkListener (l_issued l) (l_rejected l) (l_onAbort l) (l_timer l) true (l_result l) in
    if l_onAbort l then onAbort l else l.

(** The filters select the events of the receiver's address, in any spelling; the
    listeners compare the texts. *)
Definition same_address (a b : string) : bool := bool_decide (toLowerCase a = toLowerCase b).

Definition issuedListener (receiver recipient : string) (tokenId : Z) (l : listener) : listener :=
  if bool_decide (receiver = recipient) then resolve (Issued (pretty tokenId)) (cleanup l) else l.

Definition rejectedListener (receiver recipient : string) (l : listener) : listener :=
  if bool_decide (receiver = recipient) then resolve NotIssued (cleanup l) else l.

Definition occurs (receiver : string) (l : listener) (o : occurrence) : listener :=
  match o with
  | MembershipTokenIssued recipient tokenId =>
      if l_issued l && same_address receiver recipient then issuedListener receiver recipient tokenId l else l
  | MembershipTokenRejected recipient =>
      if l_rejected l && same_address receiver recipient then rejectedListener receiver recipient l else l
  | AbortCalled => abort l
  | TimerFires =>
      if l_timer l then abort (mkListener (l_issued l) (l_rejected l) (l_onAbort l) false (l_aborted l) (l_result l)) else l
  end.

(** [balanceOf] is a big number; [toNumber] throws beyond the safe integers. *)
Definition hasMembership (balanceOf : result Z) : result bool :=
  balance ← balanceOf;
  if 2 ^ 53 - 1 <? balance then Throw (JsError "overflow") else Ok (0 <? balance).

(** ** Specification: the first occurrence that decides *)

Definition decides (receiver : string) (provided : option bool) (o : occurrence) : option membership_result :=
  match o with
  | MembershipTokenIssued recipient tokenId => if decide (receiver = recipient) then Some (Issued (pretty tokenId)) else None
  | MembershipTokenRejected recipient => if decide (receiver = recipient) then Some NotIssued else None
  | AbortCalled => if default false provided then None else Some NotIssued
  | TimerFires => if is_defined provided then None else Some NotIssued
  end.

Fixpoint first_decision (receiver : string) (provided : option bool) (os : list occurrence) : option membership_result :=
  match os with
  | [] => None
  | o :: os =>
      match decides receiver provided o with
      | Some r => Some r
      | None => first_decision receiver provided os
      end
  end.

Definition settled (r : membership_result) (l : listener) : Prop :=
  l_issued l = false /\ l_rejected l = false /\ l_onAbort l = false /\ l_timer l = false /\ l_result l = Some r.

Lemma occurs_settled receiver r l o : settled r l -> settled r (occurs receiver l o).
Proof.
  intros (H1 & H2 & H3 & H4 & H5). destruct o; unfold occurs, abort; rewrite ?H1, ?H2, ?H4; simpl; try done.
  destruct (l_aborted l); [done|]. simpl. rewrite H3. done.
Qed.

Lemma listener_stays_settled receiver r os l : settled r l -> settled r (foldl (occurs receiver) l os).
Proof. revert l. induction os as [|o os IH]; intros l Hl; [done|]. apply IH. by apply occurs_settled. Qed.

Lemma occurs_waiting receiver provided o :
  match decides receiver provided o with
  | Some r => settled r (occurs receiver (listenForMembershipToken provided) o)
  | None => occurs receiver (listenForMembershipToken provided) o = listenForMembershipToken provided
  end.
Proof.
  unfold listenForMembershipToken. destruct o as [recipient tokenId|recipient| |]; unfold decides, occurs; simpl.
  - unfold issuedListener. destruct (decide (receiver = recipient)) as [->|Hne].
    + unfold same_address. rewrite !bool_decide_true by done. done.
    + rewrite (bool_decide_false (receiver = recipient)) by done. by destruct (same_address _ _).
  - unfold rejectedListener. destruct (decide (receiver = recipient)) as [->|Hne].
    + unfold same_address. rewrite !bool_decide_true by done. done.
    + rewrite (bool_decide_false (receiver = recipient)) by done. by destruct (same_address _ _).
  - by destruct provided as [[]|].
  - by destruct provided as [[]|].
Qed.

(** The promise resolves with what happens first: the token issued to the
    receiver, its rejection, the abort of a provided signal or the timer; whatever
    happens later does not change it, and from then on no listener and no timer is
    left; until then all listeners are there. *)
Theorem listener_first_decision receiver provided os :
  match first_decision receiver provided os with
  | Some r => settled r (foldl (occurs receiver) (listenForMembershipToken provided) os)
  | None => foldl (occurs receiver) (listenForMembershipToken provided) os = listenForMembershipToken provided
  end.
Proof.
  induction os as [|o os IH]; [done|]. simpl. pose proof (occurs_waiting receiver provided o) as Ho.
  destruct (decides receiver provided o) as [r|]; [by apply listener_stays_settled|]. by rewrite Ho.
Qed.

(** Without a provided controller the promise resolves when the timer fires. *)
Lemma timer_resolves receiver os :
  TimerFires ∈ os -> is_Some (l_result (foldl (occurs receiver) (listenForMembershipToken None) os)).
Proof.
  induction os as [|o os IH]; intros Hin; [by apply not_elem_of_nil in Hin|]. simpl.
  pose proof (occurs_waiting receiver None o) as Ho. destruct (decides receiver None o) as [r|] eqn:Hd.
  - destruct (listener_stays_settled receiver r os _ Ho) as (_ & _ & _ & _ & ->). done.
  - rewrite Ho. apply IH. apply elem_of_cons in Hin as [<-|Hin]; done.
Qed.

(** A controller that was aborted before is never heard of again. *)
Lemma aborted_controller_ignored receiver n :
  foldl (occurs receiver) (listenForMembershipToken (Some true)) (replicate n AbortCalled) = listenForMembershipToken (Some true).
Proof. induction n as [|n IH]; [done|]. simpl. exact IH. Qed.

(** The address of the receiver in small letters: the token is issued to it, but the
    promise says it was not. *)
Example small_letters_missed :
  let receiver := "0xab5801a7d398351b8be11c439e05c5b3259aec9b" in
  let checksummed := "0xAb5801a7D398351b8bE11C439e05C5B3259aeC9B" in
  same_address receiver checksummed = true
  /\ l_result (foldl (occurs receiver) (listenForMembershipToken None) [MembershipTokenIssued checksummed 7; TimerFires]) = Some NotIssued.
Proof. vm_compute. done. Qed.
