(* ===== verification/DappCalls.v ===== *)
(** * The methods of SpaceDapp (core/web3/src/v3/SpaceDapp.ts)

    Most methods look up a space, read what they need from its contracts and send one
    transaction, which [wrapTransaction] submits and confirms.
    Here a method is the transaction it sends, before it is encoded; the contracts'
    answers are the fields of [DappReads]. *)

From stdpp Require Import pretty.
From S2P Require Import Prelude Entitlement SpaceDapp ContractShims.

Record MembershipInfo := mkMembershipInfo {
  mi_price : Z;
  mi_maxSupply : Z;
  mi_currency : string;
  mi_feeRecipient : string;
  mi_duration : Z;
  mi_totalSupply : Z;
  mi_pricingModule : string;
}.

Record SpaceInfo := mkSpaceInfo {
  si_address : string;
  si_networkId : string;
  si_name : string;
  si_owner : string;
  si_disabled : bool;
}.

(** What the contracts of a space answer. *)
Record DappReads := {
  rd_space : SpaceReads;
  rd_tokensOfOwner : string -> result (list Z);
  rd_isBanned : option Z -> result bool;
  rd_banned : result (list Z);
  rd_ownerOf : Z -> result string;
  rd_owner : result string;
  rd_paused : result bool;
  rd_spaceInfo : result (option string * string);
  rd_balanceOf : string -> result Z;
  rd_totalSupply : result Z;
  rd_price : result Z;
  rd_limit : result Z;
  rd_currency : result string;
  rd_duration : result Z;
  rd_pricingModule : result string;
  rd_permissionsByRoleId : Z -> result (list string);
  rd_isEntitledToSpace : string -> string -> result bool;
  rd_isEntitledToChannel : string -> string -> string -> result bool;
  rd_prepayFee : Z -> result Z;
  rd_prepaidSupply : string -> result Z;
}.

Definition Permission_JoinSpace : string := "JoinSpace".

Section Dapp.
(** The struct of the membership of a new space. *)
Context {Membership : Type}.

(** The transactions, by the shim that sends them. *)
Inductive dapp_tx :=
| tx_addRoleToChannel (channelId : string) (roleId : Z)
| tx_ban (token : option Z)
| tx_unban (token : option Z)
| tx_createSpace (name uri : string) (membership : Membership) (channelMetadata : string)
| tx_createChannel (channelId metadata : string) (roleIds : list Z)
| tx_createRole (name : string) (permissions : list string) (entitlements : list EntitlementStruct)
| tx_removeRole (roleId : Z)
| tx_updateSpaceInfo (space name uri : string)
| tx_multicall (calls : list ContractCall)
| tx_updateRole (roleId : Z) (name : string) (permissions : list string) (entitlements : list EntitlementStruct)
| tx_pause
| tx_unpause
| tx_setMembershipPrice (priceInWei : Z)
| tx_setMembershipPricingModule (pricingModule : string)
| tx_setMembershipLimit (limit : Z)
| tx_setMembershipFreeAllocation (freeAllocation : Z)
| tx_prepayMembership (membership : string) (supply value : Z)
| tx_updateChannel (channelId metadata : string) (disabled : bool)
| tx_joinSpace (recipient : string) (gasLimit value : Z).

(** [this.getSpace(spaceId)] with the contracts behind it. *)
Context (getSpace : string -> result (option (SpaceStub * DappReads))).

Definition space_of (spaceId : string) : result (SpaceStub * DappReads) :=
  space ← getSpace spaceId;
  match space with
  | None => Throw (space_not_found spaceId)
  | Some space => Ok space
  end.

Definition addRoleToChannel (spaceId channelNetworkId : string) (roleId : Z) : result dapp_tx :=
  _ ← space_of spaceId;
  Ok (tx_addRoleToChannel channelNetworkId roleId).

(** [tokens[0]], undefined for a wallet without tokens. *)
Definition token_of (R : DappReads) (walletAddress : string) : result (option Z) :=
  tokens ← rd_tokensOfOwner R walletAddress;
  Ok (head tokens).

Definition banWalletAddress (spaceId walletAddress : string) : result dapp_tx :=
  space ← space_of spaceId;
  token ← token_of space.2 walletAddress;
  Ok (tx_ban token).

Definition unbanWalletAddress (spaceId walletAddress : string) : result dapp_tx :=
  space ← space_of spaceId;
  token ← token_of space.2 walletAddress;
  Ok (tx_unban token).

Definition walletAddressIsBanned (spaceId walletAddress : string) : result bool :=
  space ← space_of spaceId;
  token ← token_of space.2 walletAddress;
  rd_isBanned space.2 token.

Definition bannedWalletAddresses (spaceId : string) : result (list string) :=
  space ← space_of spaceId;
  bannedTokenIds ← rd_banned space.2;
  all_results (rd_ownerOf space.2) bannedTokenIds.

Definition createSpace (spaceName spaceMetadata channelName : string) (membership : Membership) : result dapp_tx :=
  Ok (tx_createSpace spaceName spaceMetadata membership channelName).

Definition createChannel (spaceId channelName channelNetworkId : string) (roleIds : list Z) : result dapp_tx :=
  _ ← space_of spaceId;
  Ok (tx_createChannel (hexId channelNetworkId) channelName roleIds).

Definition createRole (spaceId roleName : string) (permissions users : list string) (ruleData : option RuleData) : result dapp_tx :=
  space ← space_of spaceId;
  entitlements ← createEntitlementStruct (rd_space space.2) users ruleData;
  Ok (tx_createRole roleName permissions entitlements).

Definition deleteRole (spaceId : string) (roleId : Z) : result dapp_tx :=
  _ ← space_of spaceId;
  Ok (tx_removeRole roleId).

Definition dapp_getChannels (spaceId : string) : result (list ChannelMetadata) :=
  space ← space_of spaceId;
  getChannels (rd_space space.2).

Definition getChannelDetails (spaceId channelNetworkId : string) : result ChannelDetails :=
  space ← space_of spaceId;
  getChannel (rd_space space.2) (sp_spaceId space.1) (hexId channelNetworkId).

Definition getPermissionsByRoleId (spaceId : string) (roleId : Z) : result (list string) :=
  space ← space_of spaceId;
  rd_permissionsByRoleId space.2 roleId.

Definition dapp_getRole (spaceId : string) (roleId : Z) : result (option RoleDetails) :=
  space ← space_of spaceId;
  getRole (rd_space space.2) roleId.

Definition getSpaceInfo (spaceId : string) : result (option SpaceInfo) :=
  space ← getSpace spaceId;
  match space with
  | None => Ok None
  | Some (stub, R) =>
      owner ← rd_owner R;
      disabled ← rd_paused R;
      info ← rd_spaceInfo R;
      Ok (Some (mkSpaceInfo (sp_address stub) (sp_spaceId stub) (default "" info.1) owner disabled))
  end.

Definition updateSpaceName (spaceId name : string) : result dapp_tx :=
  space ← space_of spaceId;
  spaceInfo ← rd_spaceInfo space.2;
  Ok (tx_updateSpaceInfo (sp_address space.1) name spaceInfo.2).

Definition isEntitledToSpace (spaceId user permission : string) : result bool :=
  space ← getSpace spaceId;
  match space with
  | None => Ok false
  | Some (_, R) =>
      if bool_decide (permission = Permission_JoinSpace)
      then Throw (JsError "use getEntitledWalletForJoiningSpace instead of isEntitledToSpace")
      else rd_isEntitledToSpace R user permission
  end.

Definition isEntitledToChannel (spaceId channelNetworkId user permission : string) : result bool :=
  space ← getSpace spaceId;
  match space with
  | None => Ok false
  | Some (_, R) => rd_isEntitledToChannel R (hexId channelNetworkId) user permission
  end.

Definition updateChannel (spaceId : string) (params : UpdateChannelParams) : result dapp_tx :=
  space ← space_of spaceId;
  encodedCallData ← encodedUpdateChannelData (rd_space space.2) params;
  Ok (tx_multicall encodedCallData).

Definition updateRole (spaceId : string) (roleId : Z) (roleName : string) (permissions users : list string)
    (ruleData : option RuleData) : result dapp_tx :=
  space ← space_of spaceId;
  updatedEntitlements ← createUpdatedEntitlements (rd_space space.2) users ruleData;
  Ok (tx_updateRole roleId roleName permissions updatedEntitlements).

Definition setSpaceAccess (spaceId : string) (disabled : bool) : result dapp_tx :=
  _ ← space_of spaceId;
  Ok (if disabled then tx_pause else tx_unpause).

Definition setMembershipPrice (spaceId : string) (priceInWei : Z) : result dapp_tx :=
  _ ← space_of spaceId;
  Ok (tx_setMembershipPrice priceInWei).

Definition setMembershipPricingModule (spaceId pricingModule : string) : result dapp_tx :=
  _ ← space_of spaceId;
  Ok (tx_setMembershipPricingModule pricingModule).

Definition setMembershipLimit (spaceId : string) (limit : Z) : result dapp_tx :=
  _ ← space_of spaceId;
  Ok (tx_setMembershipLimit limit).

Definition setMembershipFreeAllocation (spaceId : string) (freeAllocation : Z) : result dapp_tx :=
  _ ← space_of spaceId;
  Ok (tx_setMembershipFreeAllocation freeAllocation).

Definition prepayMembership (spaceId : string) (supply : Z) : result dapp_tx :=
  space ← space_of spaceId;
  cost ← rd_prepayFee space.2 supply;
  Ok (tx_prepayMembership (sp_address space.1) supply cost).

Definition getPrepaidMembershipSupply (spaceId : string) : result Z :=
  space ← space_of spaceId;
  rd_prepaidSupply space.2 (sp_address space.1).

Definition setChannelAccess (spaceId channelNetworkId : string) (disabled : bool) : result dapp_tx :=
  _ ← space_of spaceId;
  Ok (tx_updateChannel (hexId channelNetworkId) "" disabled).

Definition getSpaceMembershipTokenAddress (spaceId : string) : result string :=
  space ← space_of spaceId;
  Ok (sp_address space.1).

Definition hasSpaceMembership (spaceId address : string) : result bool :=
  space ← space_of spaceId;
  hasMembership (rd_balanceOf space.2 address).

Definition getMembershipSupply (spaceId : string) : result Z :=
  space ← space_of spaceId;
  totalSupply ← rd_totalSupply space.2;
  toNumber totalSupply.

Definition getMembershipInfo (spaceId : string) : result MembershipInfo :=
  space ← space_of spaceId;
  let R := space.2 in
  price ← rd_price R;
  limit ← rd_limit R;
  currency ← rd_currency R;
  feeRecipient ← rd_owner R;
  duration ← rd_duration R;
  totalSupply ← rd_totalSupply R;
  pricingModule ← rd_pricingModule R;
  maxSupply ← toNumber limit;
  duration ← toNumber duration;
  totalSupply ← toNumber totalSupply;
  Ok (mkMembershipInfo price maxSupply currency feeRecipient duration totalSupply pricingModule).

(** [joinSpace]: the listener for the token is there before the price is read and the
    transaction sent. [before] is what happens to it until the transaction is confirmed
    ([confirmed]: how that ended), [after] what happens then. A promise that has not
    resolved by then is still waited for ([None]). The number of the block is asked for
    three times, only to be logged, and the call fails when one of them does. *)
Definition joinSpace (spaceId recipient : string) (blockNumber : result Z) (before : list occurrence) (confirmed : result unit)
    (blockNumberAfterTx : result Z) (after : list occurrence) (blockNumberAfter : result Z)
    : result (dapp_tx * option membership_result) :=
  space ← space_of spaceId;
  let listening := listenForMembershipToken None in
  _ ← blockNumber;
  price ← rd_price space.2;
  _ ← confirmed;
  _ ← blockNumberAfterTx;
  let issued := l_result (foldl (occurs recipient) listening (before ++ after)) in
  _ ← blockNumberAfter;
  Ok (tx_joinSpace recipient 1500000 price, issued).

Definition listenForMembershipEvent (spaceId : string) (abortController : option bool) : result listener :=
  _ ← space_of spaceId;
  Ok (listenForMembershipToken abortController).

(** [getFilteredRolesFromSpace] (ContractHelpers.ts) *)
Definition getFilteredRolesFromSpace (spaceId : string) : result (list (Z * string)) :=
  space ← space_of spaceId;
  roles ← getRoles (rd_space space.2);
  Ok (List.filter (fun r => negb (bool_decide (r.2 = "Owner"))) roles).

(** ** Pricing modules (web3/src/Utils.ts) *)

Record PricingModuleStruct := mkPricingModuleStruct { pm_name : string; pm_module : string; pm_isActive : bool }.

Definition TIERED_PRICING_ORACLE : string := "TieredLogPricingOracle".
Definition FIXED_PRICING : string := "FixedPricing".

Definition findDynamicPricingModule (pricingModules : list PricingModuleStruct) : option PricingModuleStruct :=
  List.find (fun m => String.eqb (pm_name m) TIERED_PRICING_ORACLE) pricingModules.
Definition findFixedPricingModule (pricingModules : list PricingModuleStruct) : option PricingModuleStruct :=
  List.find (fun m => String.eqb (pm_name m) FIXED_PRICING) pricingModules.

(** [listPricingModules] is the answer of the dapp, when there is one. *)
Definition getDynamicPricingModule (listPricingModules : option (result (list PricingModuleStruct))) : result PricingModuleStruct :=
  match listPricingModules with
  | None => Throw (JsError "getDynamicPricingModule: No spaceDapp")
  | Some answer =>
      pricingModules ← answer;
      match findDynamicPricingModule pricingModules with
      | None => Throw (JsError "getDynamicPricingModule: no dynamicPricingModule")
      | Some m => Ok m
      end
  end.
Definition getFixedPricingModule (listPricingModules : option (result (list PricingModuleStruct))) : result PricingModuleStruct :=
  match listPricingModules with
  | None => Throw (JsError "getFixedPricingModule: No spaceDapp")
  | Some answer =>
      pricingModules ← answer;
      match findFixedPricingModule pricingModules with
      | None => Throw (JsError "getFixedPricingModule: no fixedPricingModule")
      | Some m => Ok m
      end
  end.

(** ** ContractHelpers.ts *)

(** The struct of a membership of which only the name, the permissions and the
    requirements are given. *)
Record MembershipSettings := mkMembershipSettings {
  ms_name : string;
  ms_symbol : string;
  ms_price : Z;
  ms_maxSupply : Z;
  ms_duration : Z;
  ms_currency : string;
  ms_feeRecipient : string;
  ms_freeAllocation : Z;
  ms_pricingModule : string;
}.
Record MembershipStruct {Requirements : Type} := mkMembershipStruct {
  mst_settings : MembershipSettings;
  mst_permissions : list string;
  mst_requirements : Requirements;
}.
Arguments MembershipStruct : clear implicits.
Definition _createMembershipStruct {Requirements} (name : string) (permissions : list string) (requirements : Requirements)
    : MembershipStruct Requirements :=
  mkMembershipStruct Requirements (mkMembershipSettings name "MEMBER" 0 1000 0 AddressZero AddressZero 0 AddressZero) permissions requirements.

(** A call of the mock of an NFT, at the address of the configuration. *)
Inductive nft_call := Nft_mintTo (contract toAddress : string) | Nft_balanceOf (contract address : string).
Definition mock_nft (mockNFT : option string) (call : string -> nft_call) : result nft_call :=
  match truthy_str mockNFT with
  | None => Throw (JsError "No mock ERC721 address provided")
  | Some address => Ok (call address)
  end.
Definition mintMockNFT (mockNFT : option string) (toAddress : string) : result nft_call :=
  mock_nft mockNFT (fun contract => Nft_mintTo contract toAddress).
Definition balanceOfMockNFT (mockNFT : option string) (address : string) : result nft_call :=
  mock_nft mockNFT (fun contract => Nft_balanceOf contract address).

(** ** LocalhostWeb3Provider.ts *)

(** What the provider does with a request: answer with the accounts, sign with its
    wallet, or pass it on to the node. *)
Inductive provider_action :=
| Accounts (addresses : list string)
| SignMessage (message : string)
| SendToNode (method : string) (params : list string).

Section Provider.
(** The address of the wallet; texts of bytes in hex, and their reading, of ethers. *)
Context (address : string) (isHexString : string -> bool) (hex_toUtf8String : string -> result string).

Definition request (method : string) (params : list string) : result provider_action :=
  if String.eqb method "eth_requestAccounts" then Ok (Accounts [address])
  else if String.eqb method "eth_accounts" then Ok (Accounts [address])
  else if String.eqb method "personal_sign" then
    match params with
    | [] => Throw (JsError "Cannot sign undefined")
    | message :: _ =>
        if isHexString message then
          m2 ← hex_toUtf8String message;
          Ok (SignMessage m2)
        else Ok (SignMessage message)
    end
  else Ok (SendToNode method params).

(** [fundWallet]: the balance that is set, of the given account or of the wallet. *)
Definition fundWallet (walletToFund : option string) : provider_action :=
  SendToNode "anvil_setBalance" [default address walletToFund; "0x" +:+ "c097ce7bc90715b34b9f1000000000"].
End Provider.

(** ** Properties *)

(** The module that is found is one of those the contract lists, with the name that was
    asked for, and there is none only when no module has that name. *)
Lemma pricing_module_found modules : match getDynamicPricingModule (Some (Ok modules)) with
  | Ok m => m ∈ modules /\ pm_name m = TIERED_PRICING_ORACLE
  | Throw _ => forall m, m ∈ modules -> pm_name m <> TIERED_PRICING_ORACLE
  end.
Proof.
  cbn. unfold findDynamicPricingModule. destruct (List.find _ modules) as [m|] eqn:Hf.
  - apply find_some in Hf as [Hin Heq]. split; [by apply list_elem_of_In|by apply String.eqb_eq].
  - intros m Hm Heq. apply list_elem_of_In in Hm. pose proof (find_none _ _ Hf m Hm) as Hne. cbn in Hne.
    by rewrite Heq, String.eqb_refl in Hne.
Qed.

Lemma listener_decision recipient os :
  l_result (foldl (occurs recipient) (listenForMembershipToken None) os) = first_decision recipient None os.
Proof.
  induction os as [|o os IH]; [done|]. simpl.
  pose proof (occurs_waiting recipient None o) as Ho. destruct (decides recipient None o) as [x|].
  - by destruct (listener_stays_settled recipient x os _ Ho) as (_ & _ & _ & _ & ->).
  - by rewrite Ho.
Qed.

Lemma first_decision_after recipient before o r rest :
  (forall x, x ∈ before -> decides recipient None x = None) -> decides recipient None o = Some r ->
  first_decision recipient None ((before ++ [o]) ++ rest) = Some r.
Proof.
  intros Hb Ho. induction before as [|x before IH]; simpl; [by rewrite Ho|].
  rewrite (Hb x) by left. apply IH. intros y Hy. apply Hb. by right.
Qed.

(** What joining a space reports: the token that was issued to the recipient when
    that happens within the twenty seconds the listener has, counted from before the
    transaction is sent, and before a rejection; a token that is issued after the
    listener's timer is reported as not issued, although the transaction was
    confirmed. *)
Theorem join_reports_token spaceId recipient before after stub R price tokenId b0 b1 b2 :
  getSpace spaceId = Ok (Some (stub, R)) -> rd_price R = Ok price ->
  (forall o, o ∈ before -> decides recipient None o = None) ->
  joinSpace spaceId recipient (Ok b0) (before ++ [MembershipTokenIssued recipient tokenId]) (Ok tt) (Ok b1) after (Ok b2)
    = Ok (tx_joinSpace recipient 1500000 price, Some (Issued (pretty tokenId)))
  /\ joinSpace spaceId recipient (Ok b0) (before ++ [TimerFires]) (Ok tt) (Ok b1) (MembershipTokenIssued recipient tokenId :: after) (Ok b2)
    = Ok (tx_joinSpace recipient 1500000 price, Some NotIssued).
Proof.
  intros Hs Hp Hb. unfold joinSpace, space_of. rewrite Hs. res_simpl. simpl. rewrite Hp. res_simpl.
  rewrite !listener_decision. rewrite (first_decision_after _ _ _ (Issued (pretty tokenId))) by (done || (simpl; by rewrite decide_True)).
  by rewrite (first_decision_after _ _ _ NotIssued).
Qed.

(** The ids of channels in transactions are in hex form, but for [addRoleToChannel]. *)
Lemma hexId_prefixed id : startsWith (hexId id) "0x" = true.
Proof. unfold hexId. destruct (startsWith id "0x") eqn:Hs; [done|]. apply startsWith_app. Qed.
End Dapp.

(** ** Example *)
Definition demo_dapp_reads : DappReads := {|
  rd_space := demo_reads;
  rd_tokensOfOwner _ := Ok [];
  rd_isBanned _ := Ok false;
  rd_banned := Ok [];
  rd_ownerOf _ := Throw (JsError "no owner");
  rd_owner := Ok "0x1";
  rd_paused := Ok false;
  rd_spaceInfo := Ok (Some "space", "");
  rd_balanceOf _ := Ok 0;
  rd_totalSupply := Ok 1;
  rd_price := Ok 5;
  rd_limit := Ok 10;
  rd_currency := Ok "";
  rd_duration := Ok 0;
  rd_pricingModule := Ok "";
  rd_permissionsByRoleId _ := Ok [];
  rd_isEntitledToSpace _ _ := Ok true;
  rd_isEntitledToChannel _ _ _ := Ok true;
  rd_prepayFee _ := Ok 0;
  rd_prepaidSupply _ := Ok 0;
|}.
Definition demo_getSpace (spaceId : string) : result (option (SpaceStub * DappReads)) :=
  Ok (Some (mkSpaceStub "0xspace" spaceId, demo_dapp_reads)).

Lemma join_reports_token_witness :
  let before := [MembershipTokenRejected "0xother"] in
  joinSpace demo_getSpace (Membership := unit) "10" "0xme" (Ok 1) (before ++ [MembershipTokenIssued "0xme" 7]) (Ok tt) (Ok 2) [] (Ok 3)
    = Ok (tx_joinSpace "0xme" 1500000 5, Some (Issued (pretty 7)))
  /\ joinSpace demo_getSpace (Membership := unit) "10" "0xme" (Ok 1) (before ++ [TimerFires]) (Ok tt) (Ok 2) [MembershipTokenIssued "0xme" 7] (Ok 3)
    = Ok (tx_joinSpace "0xme" 1500000 5, Some NotIssued).
Proof.
  intros before. refine (join_reports_token demo_getSpace "10" "0xme" before [] (mkSpaceStub "0xspace" "10") demo_dapp_reads 5 7 1 2 3 _ _ _).
  - reflexivity.
  - reflexivity.
  - intros o [->|Hf]%elem_of_cons; [reflexivity|by apply not_elem_of_nil in Hf].
Defined.

(** ** Submitting transactions (core/web3/src/v3/SpaceDapp.ts, [wrapTransaction])

    A transaction is submitted, its receipt is polled until the transaction is mined,
    and when it fails it is submitted again. What the chain answers, and the clock, are
    functions of the attempt and of the poll. *)

(** What [tx.wait(0)] is settled with: a receipt and its status, nothing yet, an error
    with the code CALL_EXCEPTION, another error. *)
Inductive wait_answer :=
| Receipt (status : Z)
| NoReceipt
| CallException
| OtherError.

(** The outside of one submission: what [txFn] answers, what the polls answer, the time
    when the polling starts and the time after each pause. *)
Record submission (Tx : Type) := {
  sub_tx : result Tx;
  sub_wait : nat -> wait_answer;
  sub_start : Z;
  sub_now : nat -> Z;
}.
Arguments sub_tx {_} _.
Arguments sub_wait {_} _ _.
Arguments sub_start {_} _.
Arguments sub_now {_} _ _.

Definition confirmed_but_failed : js_error := JsError "Transaction confirmed but failed".
Definition confirmation_timed_out : js_error := JsError "Transaction confirmation timed out after: ".

(** [txnOpts?.retryCount ?? isJest() ? 3 : 0]: the conditional binds weaker than [??]. *)
Definition retryLimit (retryCount : option Z) (isJest : bool) : Z :=
  if match retryCount with Some n => negb (n =? 0) | None => isJest end then 3 else 0.

Section Transaction.
Context {Tx : Type}.

(** The loop of [confirmTransaction] from poll [i] on; [None] when [polls] are used up. *)
Fixpoint confirm_loop (s : submission Tx) (polls i : nat) : option (result unit) :=
  match polls with
  | O => None
  | S polls =>
      match sub_wait s i with
      | CallException => Some (Throw confirmed_but_failed)
      | Receipt status =>
          if status =? 1 then Some (Ok tt) else Some (Throw confirmed_but_failed)
      | NoReceipt | OtherError =>
          if 20000 <? sub_now s i - sub_start s then Some (Throw confirmation_timed_out)
          else confirm_loop s polls (S i)
      end
  end.

Definition confirmTransaction (s : submission Tx) (polls : nat) : option (result unit) :=
  confirm_loop s polls 0.

Definition failed_after_retries (e : js_error) : js_error :=
  JsError ("Transaction failed after retries: " +:+
           match e with CodeException message _ | JsError message => message end).

(** The loop of [runTx]: the submissions that were made, in order, and the outcome. *)
Fixpoint run_loop (limit : Z) (polls : nat) (env : nat -> submission Tx) (fuel i : nat) :
    option (list nat * result Tx) :=
  match fuel with
  | O => None
  | S fuel =>
      let s := env i in
      let failed e :=
        if limit <=? Z.of_nat i + 1 then Some ([i], Throw (failed_after_retries e))
        else '(ks, r) ← run_loop limit polls env fuel (S i); Some (i :: ks, r) in
      match sub_tx s with
      | Throw e => failed e
      | Ok tx =>
          match confirmTransaction s polls with
          | None => None
          | Some (Ok _) => Some ([i], Ok tx)
          | Some (Throw e) => failed e
          end
      end
  end.

Definition wrapTransaction (retryCount : option Z) (isJest : bool) (polls : nat)
    (env : nat -> submission Tx) (fuel : nat) : option (list nat * result Tx) :=
  run_loop (retryLimit retryCount isJest) polls env fuel 0.

(** ** Lemmas *)

(** Each pause lasts at least 100 milliseconds. *)
Definition clock_ok (s : submission Tx) : Prop :=
  forall i, sub_start s + 100 * Z.of_nat (S i) <= sub_now s i.

(** The polls before [j] found no receipt, none of them later than twenty seconds. *)
Definition polled (s : submission Tx) (j : nat) : Prop :=
  forall i, (i < j)%nat -> (sub_wait s i = NoReceipt \/ sub_wait s i = OtherError) /\ sub_now s i - sub_start s <= 20000.

(** The poll that ends the polling, of the first 202, finds a receipt with status 1. *)
Definition confirmed (s : submission Tx) : Prop :=
  exists j, (j < 202)%nat /\ polled s j /\ sub_wait s j = Receipt 1.

(** It finds a failed transaction, or twenty seconds have passed. *)
Definition unconfirmed (s : submission Tx) (e : js_error) : Prop :=
  exists j, (j < 202)%nat /\ polled s j /\
  match sub_wait s j with
  | Receipt status => status <> 1 /\ e = confirmed_but_failed
  | CallException => e = confirmed_but_failed
  | NoReceipt | OtherError => 20000 < sub_now s j - sub_start s /\ e = confirmation_timed_out
  end.

(** A submission is mined with this transaction, or fails with this error. *)
Definition succeeded (s : submission Tx) (tx : Tx) : Prop := sub_tx s = Ok tx /\ confirmed s.
Definition failed_with (s : submission Tx) (e : js_error) : Prop :=
  sub_tx s = Throw e \/ exists tx, sub_tx s = Ok tx /\ unconfirmed s e.

Lemma polled_S s i :
  polled s i -> (sub_wait s i = NoReceipt \/ sub_wait s i = OtherError) -> sub_now s i - sub_start s <= 20000 -> polled s (S i).
Proof. intros Hp Hw Hn k Hk. destruct (decide (k = i)) as [->|]; [done|]. apply Hp. lia. Qed.

Lemma confirm_loop_spec s polls i :
  clock_ok s -> (202 <= i + polls)%nat -> polled s i -> (i < 202)%nat ->
  confirm_loop s polls i = Some (Ok tt) /\ confirmed s
  \/ exists e, confirm_loop s polls i = Some (Throw e) /\ unconfirmed s e.
Proof.
  intros Hc. revert i. induction polls as [|polls IH]; intros i Hle Hp Hi; [lia|]. simpl. unfold unconfirmed.
  pose proof (polled_S s i Hp) as Hnext. pose proof (Hc i) as Hci.
  destruct (sub_wait s i) as [status| | |] eqn:E.
  - destruct (Z.eqb_spec status 1) as [->|]; [by left; split; [|exists i]|].
    right. eexists. split; [done|]. exists i. by rewrite E.
  - destruct (Z.ltb_spec 20000 (sub_now s i - sub_start s)); [right; eexists; split; [done|]; exists i; by rewrite E|].
    apply IH; [lia|by apply Hnext; [left|]|lia].
  - right. eexists. split; [done|]. exists i. by rewrite E.
  - destruct (Z.ltb_spec 20000 (sub_now s i - sub_start s)); [right; eexists; split; [done|]; exists i; by rewrite E|].
    apply IH; [lia|by apply Hnext; [right|]|lia].
Qed.

(** What a run of [runTx] that starts with submission [i] ends with: it submits until one
    succeeds, or the limit is reached. *)
Definition run_ok (limit : Z) (env : nat -> submission Tx) (i : nat) (o : list nat * result Tx) : Prop :=
  exists n, o.1 = seq i (S n) /\ (forall k, (i <= k < i + n)%nat -> exists e, failed_with (env k) e) /\
  match o.2 with
  | Ok tx => succeeded (env (i + n)%nat) tx /\ Z.of_nat (i + S n) <= Z.max (Z.of_nat i + 1) limit
  | Throw e' => exists e, failed_with (env (i + n)%nat) e /\ e' = failed_after_retries e
      /\ Z.of_nat (i + S n) = Z.max (Z.of_nat i + 1) limit
  end.

Lemma run_ok_failed limit polls env fuel i e :
  failed_with (env i) e ->
  (Z.of_nat i + 1 < limit -> exists o, run_loop limit polls env fuel (S i) = Some o /\ run_ok limit env (S i) o) ->
  exists o,
    (if limit <=? Z.of_nat i + 1 then Some ([i], Throw (failed_after_retries e))
     else '(ks, r) ← run_loop limit polls env fuel (S i); Some (i :: ks, r)) = Some o /\
    run_ok limit env i o.
Proof.
  intros He IH. destruct (Z.leb_spec limit (Z.of_nat i + 1)).
  - eexists. split; [done|]. exists 0%nat. simpl. rewrite Nat.add_0_r. split_and!; [done|lia|].
    exists e. split_and!; [done|done|lia].
  - destruct IH as ([ks r] & -> & n & Hn & Hall & Hr); [done|]. simpl in *. subst ks.
    eexists. split; [done|]. exists (S n). simpl. replace (i + S n)%nat with (S i + n)%nat by lia. split_and!; [done| |].
    + intros k Hk. destruct (decide (k = i)) as [->|]; [by eauto|]. apply Hall. lia.
    + destruct r as [tx|e']; [destruct Hr as [? ?]; split; [done|lia]|].
      destruct Hr as (e1 & ? & ? & ?). exists e1. split_and!; [done|done|lia].
Qed.

Lemma run_tx_ends limit polls env fuel i :
  (forall k, clock_ok (env k)) -> (202 <= polls)%nat -> limit <= Z.of_nat (i + fuel) -> (0 < fuel)%nat ->
  exists o, run_loop limit polls env fuel i = Some o /\ run_ok limit env i o.
Proof.
  intros Hc Hp. revert i. induction fuel as [|fuel IH]; intros i Hl Hf; [lia|]. simpl.
  destruct (sub_tx (env i)) as [tx|e] eqn:Etx; [|apply run_ok_failed; [by left|]; intros; apply IH; lia].
  unfold confirmTransaction.
  destruct (confirm_loop_spec (env i) polls 0) as [[-> Hok]|(e & -> & He)]; [done|lia|intros k; lia|lia| |].
  - eexists. split; [done|]. exists 0%nat. simpl. rewrite Nat.add_0_r. split_and!; [done|lia|done|lia].
  - apply run_ok_failed; [by right; exists tx|]. intros. apply IH; lia.
Qed.

(** A count other than zero is not looked at: it is as if it were 3. *)
Lemma retry_count_ignored retryCount isJest polls (env : nat -> submission Tx) fuel :
  retryCount <> 0 ->
  wrapTransaction (Some retryCount) isJest polls env fuel = wrapTransaction (Some 3) isJest polls env fuel.
Proof. intros Hne. unfold wrapTransaction, retryLimit. by rewrite (proj2 (Z.eqb_neq _ _) Hne). Qed.
End Transaction.


Definition demo_submission (mined : Z) : submission string :=
  {| sub_tx := Ok "tx"; sub_start := 0; sub_now i := 100 * Z.of_nat (S i);
     sub_wait i := match i with 5%nat => Receipt mined | _ => NoReceipt end |}.


Example second_submission_mined :
  wrapTransaction (Some 3) false 202 (fun k => demo_submission (Z.of_nat k)) 3 = Some ([0; 1]%nat, Ok "tx").
Proof. vm_compute. reflexivity. Qed.

(** Ten retries are asked for, and there are three submissions. *)
Example retries_ignored :
  wrapTransaction (Some 10) false 202 (fun _ => demo_submission 0) 11 =
  Some ([0; 1; 2]%nat, Throw (failed_after_retries confirmed_but_failed)).
Proof. vm_compute. reflexivity. Qed.
