(* ===== verification/Dlog.v ===== *)
(** * The logger (core/dlog/src/dlog.ts)

    Every component logs through [dlog], and what it is given may be any object graph
    of the application: cyclic, shared, as deep as it likes, with keys and session
    ids in it. The first part is [cloneAndFormat], which copies such a graph into
    plain data; the second the loggers, which of them are enabled, and how the
    arguments of a call are laid out. The `debug` package prints. *)

From stdpp Require Import pretty.
From S2P Require Import Prelude Proto Externals ToyExternals Binary.

(** ** Object graphs

    A value is a primitive or the address of an object; the heap says what is there.
    [MapObj] is iterated as fresh arrays of key and value. The properties of an object
    are its own enumerable ones, in the order of [for .. in]. *)

Inductive value :=
| VUndefined
| VNull
| VBool (b : bool)
| VNumber (n : Z)
| VString (s : string)
| VBigint (n : Z)
| VRef (a : nat).

Inductive cell :=
| Uint8Array (b : bytes)
| BigIntObj (n : Z)
| ArrayObj (l : list value)
| ErrorObj (stack message : string)
| IterableObj (l : list value)
| MapObj (l : list (value * value))
| PlainObj (props : list (string * value)).

Definition objects : Type := gmap nat cell.

(** The copy: plain data. *)
Inductive out :=
| OUndefined
| ONull
| OBool (b : bool)
| ONumber (n : Z)
| OString (s : string)
| OArray (l : list out)
| OObject (props : list (string * out)).

Definition MAX_CALL_STACK_SZ : nat := 18.

(** The visits of the elements of a list, one after the other, with the set of objects
    seen so far. *)
Fixpoint visit_all {A B} (f : A -> gset nat -> B * gset nat) (l : list A) (seen : gset nat) : list B * gset nat :=
  match l with
  | [] => ([], seen)
  | x :: l =>
      let y := f x seen in
      let ys := visit_all f l y.2 in
      (y.1 :: ys.1, ys.2)
  end.

Section Format.
Context `{Externals}.
Context (h : objects) (shorten : bool).

Definition format_string (s : string) : string := if isHexString s && shorten then shortenHexString s else s.

Definition format_bytes (b : bytes) : string :=
  if shorten then shortenHexString (bin_toHexString b) else bin_toHexString b.

(** [newObj[newKey] = ...] for the properties in turn: a key that is there already is
    overwritten. *)
Definition new_object (props : list (string * out)) : out :=
  OObject (foldl (fun o p => jm_set p.1 p.2 o) [] props).

(** [_cloneAndFormat(obj, depth, seen, shorten)] with [depth = MAX_CALL_STACK_SZ + 1 - levels]. *)
Fixpoint _cloneAndFormat (levels : nat) (obj : value) (seen : gset nat) : out * gset nat :=
  match levels with
  | O => (OString "MAX_CALL_STACK_SZ exceeded", seen)
  | S levels =>
      match obj with
      | VUndefined => (OUndefined, seen)
      | VNull => (ONull, seen)
      | VBool b => (OBool b, seen)
      | VNumber n => (ONumber n, seen)
      | VString s => (OString (format_string s), seen)
      | VBigint n => (OString (pretty n), seen)
      | VRef a =>
          if decide (a ∈ seen) then (OString "[circular reference]", seen)
          else
            let seen := {[a]} ∪ seen in
            match h !! a with
            | None => (OUndefined, seen)
            | Some (Uint8Array b) => (OString (format_bytes b), seen)
            | Some (BigIntObj n) => (OString (pretty n), seen)
            | Some (ArrayObj l) | Some (IterableObj l) =>
                let r := visit_all (_cloneAndFormat levels) l seen in (OArray r.1, r.2)
            | Some (ErrorObj stack message) => (OString (default message (truthy_str (Some stack))), seen)
            | Some (MapObj l) =>
                let entry e seen :=
                  match levels with
                  | O => (OString "MAX_CALL_STACK_SZ exceeded", seen)
                  | S levels => let r := visit_all (_cloneAndFormat levels) [e.1; e.2] seen in (OArray r.1, r.2)
                  end in
                let r := visit_all entry l seen in (OArray r.1, r.2)
            | Some (PlainObj props) =>
                let property p seen :=
                  let newKey := format_string p.1 in
                  if String.eqb p.1 "emitter" then (newKey, OString "[emitter]", seen)
                  else let r := _cloneAndFormat levels p.2 seen in (newKey, r.1, r.2) in
                let r := visit_all property props seen in (new_object r.1, r.2)
            end
      end
  end.

Definition cloneAndFormat (obj : value) : out := (_cloneAndFormat (MAX_CALL_STACK_SZ + 1) obj ∅).1.
End Format.

(** ** Loggers *)

Record DLogOpts := mkDLogOpts { defaultEnabled : option bool; allowJest : option bool; printStack : option bool }.

Record DLogger := mkDLogger { dl_namespace : string; dl_opts : option DLogOpts; dl_console_error : bool }.

Section Loggers.
Context {E : Type}.
Abbreviation LM := (JS E (jsmap DLogger)).

(** [makeDlog] on a debugger with this namespace, with [allDlogs] as the state. *)
Definition makeDlog (ns : string) (opts : option DLogOpts) : LM DLogger :=
  let d := mkDLogger ns opts (default false (opts ≫= printStack)) in
  js_modify (jm_set ns d);;
  mret d.

Definition dlog (ns : string) (opts : option DLogOpts) : LM DLogger := makeDlog ns opts.

Definition dlogError (ns : string) : LM DLogger := makeDlog ns (Some (mkDLogOpts (Some true) None (Some true))).

Definition dlogger (ns : string) : LM (DLogger * DLogger * DLogger) :=
  log ← makeDlog (ns +:+ ":log") None;
  info ← makeDlog (ns +:+ ":info") (Some (mkDLogOpts (Some true) (Some true) None));
  error ← dlogError (ns +:+ ":error");
  mret (log, info, error).

(** [dlog.extend]: the debug package joins the names with a colon unless it is given
    another delimiter. *)
Definition extend (d : DLogger) (sub : string) (delimiter : option string) : LM DLogger :=
  makeDlog (dl_namespace d +:+ default ":" delimiter +:+ sub) (dl_opts d).
End Loggers.

(** [debug.enabled], with the tests of the patterns that DEBUG skips and names. *)
Definition debug_enabled (isJest : bool) (skips names : list (string -> bool)) (allDlogs : jsmap DLogger) (ns : string) : bool :=
  if endsWith ns "*" then true
  else if existsb (fun s => s ns) skips then false
  else if existsb (fun s => s ns) names then true
  else
    match jm_get ns allDlogs ≫= dl_opts with
    | Some opts =>
        if negb (default false (allowJest opts)) && isJest then false else default false (defaultEnabled opts)
    | None => false
    end.

(** An argument of a call of a logger, and what the debug package is given for it. *)
Inductive printed := PString (s : string) | PData (o : out) | PValue (v : value) | PError (a : nat) | PNewline.

Record line := mkLine { fmt : list string; newArgs : list printed; tailArgs : list printed }.

Section Call.
Context `{Externals}.
Context (h : objects).

Definition is_error (v : value) : bool :=
  match v with
  | VRef a => match h !! a with Some (ErrorObj _ _) => true | _ => false end
  | _ => false
  end.

(** One round of the loop over the arguments. *)
Definition add_arg (l : line) (c : value) : line :=
  match c with
  | VString s =>
      mkLine (fmt l ++ ["%s "]) (newArgs l ++ [PString (if isHexString s then shortenHexString s else s)]) (tailArgs l)
  | VRef a =>
      if is_error c then mkLine (fmt l) (newArgs l) (tailArgs l ++ [PNewline; PError a])
      else mkLine (fmt l ++ ["%O" +:+ String (Ascii.ascii_of_nat 10) ""]) (newArgs l ++ [PData (cloneAndFormat h true c)]) (tailArgs l)
  | _ => mkLine (fmt l ++ ["%O "]) (newArgs l ++ [PValue c]) (tailArgs l)
  end.

(** What a call of a logger hands to the debug package. *)
Definition call_dlog (enabled : bool) (args : list value) : option (string * list printed) :=
  if negb enabled || (length args =? 0)%nat then None
  else
    let l := foldl add_arg (mkLine [] [] []) args in
    Some (String.concat "" (fmt l), newArgs l ++ tailArgs l).
End Call.

(** ** Specification *)

#[local] Open Scope nat_scope.

(** The nodes of a copy. *)
Fixpoint size (o : out) : nat :=
  match o with
  | OArray l => S (sum_list_with size l)
  | OObject l => S (sum_list_with (fun p => size p.2) l)
  | _ => 1
  end.

(** The slots of an object; an entry of a map is an array of two. *)
Definition slots (c : cell) : nat :=
  match c with
  | ArrayObj l | IterableObj l => length l
  | MapObj l => 3 * length l
  | PlainObj l => length l
  | _ => 0
  end.

Definition total_slots (h : objects) : nat := sum_list_with (fun p => slots p.2) (map_to_list h).

(** Every text in a copy, the keys included. *)
Fixpoint texts (o : out) : list string :=
  match o with
  | OString s => [s]
  | OArray l => flat_map texts l
  | OObject l => flat_map (fun p => p.1 :: texts p.2) l
  | _ => []
  end.

(** A hex text that is longer than what [shortenHexString] leaves. *)
Definition long_hex (s : string) : bool := isHexString s && (12 <? String.length s)%nat.

Section Plain.
Context `{Externals}.
Context (h : objects) (shorten : bool).

(** The copy of a graph by plain recursion, and the objects it comes by. *)
Fixpoint plain (levels : nat) (obj : value) : out :=
  match levels with
  | O => OString "MAX_CALL_STACK_SZ exceeded"
  | S levels =>
      match obj with
      | VUndefined => OUndefined
      | VNull => ONull
      | VBool b => OBool b
      | VNumber n => ONumber n
      | VString s => OString (format_string shorten s)
      | VBigint n => OString (pretty n)
      | VRef a =>
          match h !! a with
          | None => OUndefined
          | Some (Uint8Array b) => OString (format_bytes shorten b)
          | Some (BigIntObj n) => OString (pretty n)
          | Some (ArrayObj l) | Some (IterableObj l) => OArray (map (plain levels) l)
          | Some (ErrorObj stack message) => OString (default message (truthy_str (Some stack)))
          | Some (MapObj l) =>
              let entry e :=
                match levels with
                | O => OString "MAX_CALL_STACK_SZ exceeded"
                | S levels => OArray [plain levels e.1; plain levels e.2]
                end in
              OArray (map entry l)
          | Some (PlainObj props) =>
              let property p :=
                (format_string shorten p.1, if String.eqb p.1 "emitter" then OString "[emitter]" else plain levels p.2) in
              new_object (map property props)
          end
      end
  end.

Fixpoint visits (levels : nat) (obj : value) : list nat :=
  match levels, obj with
  | S levels, VRef a =>
      a :: match h !! a with
           | Some (ArrayObj l) | Some (IterableObj l) => flat_map (visits levels) l
           | Some (MapObj l) =>
               match levels with
               | O => []
               | S levels => flat_map (fun e => visits levels e.1 ++ visits levels e.2) l
               end
           | Some (PlainObj props) => flat_map (fun p => if String.eqb p.1 "emitter" then [] else visits levels p.2) props
           | _ => []
           end
  | _, _ => []
  end.
End Plain.

(** ** Size *)

Definition work (h : objects) (seen : gset nat) : nat :=
  sum_list_with (fun p => if decide (p.1 ∈ seen) then 0 else slots p.2) (map_to_list h).

Lemma sum_list_with_perm {A} (f : A -> nat) l k : l ≡ₚ k -> sum_list_with f l = sum_list_with f k.
Proof. induction 1; simpl; lia. Qed.

Lemma sum_list_with_ext {A} (f g : A -> nat) l : (forall x, x ∈ l -> f x = g x) -> sum_list_with f l = sum_list_with g l.
Proof. induction l as [|x l IH]; simpl; [done|]. intros Hfg. rewrite Hfg by left. rewrite IH; [done|]. intros y Hy. apply Hfg. by right. Qed.

Lemma work_add h seen a c : h !! a = Some c -> a ∉ seen -> work h ({[a]} ∪ seen) + slots c = work h seen.
Proof.
  intros Ha Hseen. unfold work.
  assert (map_to_list h ≡ₚ (a, c) :: map_to_list (delete a h)) as Hp
    by (rewrite <- (insert_delete_id h a c Ha) at 1; apply map_to_list_insert, lookup_delete_eq).
  rewrite !(sum_list_with_perm _ _ _ Hp). simpl. rewrite decide_True by set_solver. rewrite decide_False by done.
  rewrite (sum_list_with_ext (fun p => if decide (p.1 ∈ {[a]} ∪ seen) then 0 else slots p.2)
                             (fun p => if decide (p.1 ∈ seen) then 0 else slots p.2)); [lia|].
  intros [b d] Hb%elem_of_map_to_list. simpl. apply lookup_delete_Some in Hb as [Hb _].
  apply decide_ext. set_solver.
Qed.

Lemma work_none h seen a : h !! a = None -> work h ({[a]} ∪ seen) = work h seen.
Proof.
  intros Ha. apply sum_list_with_ext. intros [b d] Hb%elem_of_map_to_list. apply decide_ext. simpl.
  assert (h !! b = Some d) as Hd by exact Hb. assert (b <> a) by congruence. set_solver.
Qed.

Lemma work_empty h : work h ∅ = total_slots h.
Proof. unfold work, total_slots. apply sum_list_with_ext. intros p _. apply decide_False. apply not_elem_of_empty. Qed.

Lemma visit_all_bound {A B} (f : A -> gset nat -> B * gset nat) (sz : B -> nat) (w : gset nat -> nat) c :
  (forall x seen, sz (f x seen).1 + w (f x seen).2 <= c + w seen) ->
  forall l seen, sum_list_with sz (visit_all f l seen).1 + w (visit_all f l seen).2 <= c * length l + w seen.
Proof.
  intros Hf. induction l as [|x l IH]; intros seen; simpl; [lia|].
  specialize (Hf x seen). specialize (IH (f x seen).2). lia.
Qed.

Lemma size_jm_set k o m :
  sum_list_with (fun p => size p.2) (jm_set k o m) <= size o + sum_list_with (fun p => size p.2) m.
Proof. induction m as [|[k' o'] m IH]; simpl; [lia|]. case_match; simpl; lia. Qed.

Lemma size_new_object props : size (new_object props) <= S (sum_list_with (fun p => size p.2) props).
Proof.
  unfold new_object. simpl. apply le_n_S.
  enough (forall acc : list (string * out),
    sum_list_with (fun p => size p.2) (foldl (fun o p => jm_set p.1 p.2 o) acc props)
      <= sum_list_with (fun p => size p.2) acc + sum_list_with (fun p => size p.2) props) as He by apply (He []).
  induction props as [|[k o] props IH]; intros acc; simpl; [lia|].
  etrans; [apply IH|]. pose proof (size_jm_set k o acc). lia.
Qed.

Section Bounds.
Context `{Externals}.
Context (h : objects) (shorten : bool).

Lemma clone_bound levels obj seen :
  size (_cloneAndFormat h shorten levels obj seen).1 + work h (_cloneAndFormat h shorten levels obj seen).2 <= 1 + work h seen.
Proof.
  revert obj seen. induction levels as [levels IH] using lt_wf_ind. intros obj seen.
  destruct levels as [|levels]; [simpl; lia|].
  destruct obj as [| | | | | |a]; simpl; try lia.
  destruct (decide (a ∈ seen)); [simpl; lia|].
  destruct (h !! a) as [c|] eqn:Ha; [|simpl; rewrite (work_none h seen a Ha); lia].
  pose proof (work_add h seen a c Ha ltac:(done)) as Hw.
  assert (forall v seen, size (_cloneAndFormat h shorten levels v seen).1 + work h (_cloneAndFormat h shorten levels v seen).2
            <= 1 + work h seen) as IH1 by (intros; apply IH; lia).
  destruct c as [b|z|l|stack message|l|l|props]; simpl in *; try lia.
  - pose proof (visit_all_bound _ size (work h) 1 IH1 l ({[a]} ∪ seen)). lia.
  - pose proof (visit_all_bound _ size (work h) 1 IH1 l ({[a]} ∪ seen)). lia.
  - match goal with |- context [visit_all ?f l] => pose proof (visit_all_bound f size (work h) 3) as Hb end.
    ospecialize (Hb _ l ({[a]} ∪ seen)); [|lia].
    intros [k v] s. destruct levels as [|levels]; [simpl; lia|].
    pose proof (visit_all_bound (_cloneAndFormat h shorten levels) size (work h) 1 ltac:(intros; apply IH; lia) [k; v] s) as He.
    simpl in He |- *. lia.
  - match goal with |- context [visit_all ?f props] =>
      pose proof (visit_all_bound f (fun p => size p.2) (work h) 1) as Hb;
      pose proof (size_new_object (visit_all f props ({[a]} ∪ seen)).1) end.
    ospecialize (Hb _ props ({[a]} ∪ seen)); [|simpl in *; lia].
    intros [k v] s. simpl. destruct (String.eqb k "emitter"); simpl; [lia|apply IH1].
Qed.

(** What is logged of an object graph is at most as large as the graph, however
    its objects refer to each other: the copy has at most one node more than there are
    slots in all objects. *)
Theorem log_output_bounded obj : size (cloneAndFormat h shorten obj) <= 1 + total_slots h.
Proof.
  unfold cloneAndFormat. generalize (MAX_CALL_STACK_SZ + 1) as n. intros n. pose proof (clone_bound n obj ∅) as Hb.
  rewrite work_empty in Hb. lia.
Qed.
End Bounds.

(** ** Texts *)

Lemma visit_all_Forall {A B} (Q : B -> Prop) (f : A -> gset nat -> B * gset nat) :
  (forall x seen, Q (f x seen).1) -> forall l seen, Forall Q (visit_all f l seen).1.
Proof. intros Hf. induction l as [|x l IH]; intros seen; simpl; constructor; [apply Hf|apply IH]. Qed.

Lemma slice_length a b s : String.length (slice a b s) <= b - a.
Proof.
  unfold slice. generalize (b - a) as m. clear b. revert a. induction s as [|c s IH]; intros [|a] [|m]; simpl; try lia.
  - specialize (IH 0 m). simpl in IH. lia.
  - specialize (IH a 0). lia.
  - specialize (IH a (S m)). lia.
Qed.

Lemma shortened_length s : String.length (shortenHexString s) <= 12.
Proof.
  unfold shortenHexString.
  assert (forall n, 4 <= n -> String.length s = n -> String.length (slice_from (n - 4) s) <= 4) as Hlast.
  { intros n Hn <-. unfold slice_from. pose proof (slice_length (String.length s - 4) (String.length s) s) as Hs. unfold slice in Hs.
    etrans; [exact Hs|lia]. }
  destruct (startsWith s "0x").
  - destruct (Nat.ltb_spec 12 (String.length s)) as [Hl|]; [|lia].
    rewrite !str_length_app. pose proof (slice_length 0 6 s). specialize (Hlast (String.length s) ltac:(lia) eq_refl). simpl. lia.
  - destruct (Nat.ltb_spec 10 (String.length s)) as [Hl|]; [|lia].
    rewrite !str_length_app. pose proof (slice_length 0 4 s). specialize (Hlast (String.length s) ltac:(lia) eq_refl). simpl. lia.
Qed.

Definition discreet (s : string) : Prop := long_hex s = false \/ exists n : Z, s = pretty n.

Lemma discreet_short s : String.length s <= 12 -> discreet s.
Proof. intros Hs. left. unfold long_hex. rewrite (proj2 (Nat.ltb_ge _ _)) by done. apply andb_false_r. Qed.

Lemma discreet_format s : discreet (format_string true s).
Proof.
  unfold format_string. destruct (isHexString s) eqn:Hh; simpl; [apply discreet_short, shortened_length|].
  left. unfold long_hex. by rewrite Hh.
Qed.

Lemma texts_jm_set (Q : string -> Prop) k o m :
  Q k -> Forall Q (texts o) -> Forall Q (texts (OObject m)) -> Forall Q (texts (OObject (jm_set k o m))).
Proof.
  intros Hk Ho. induction m as [|[k' o'] m IH]; simpl; intros Hm.
  - rewrite app_nil_r. by constructor.
  - apply Forall_cons in Hm as [Hk' Hm]. apply Forall_app in Hm as [Ho' Hm]. specialize (IH Hm).
    case_match; simpl; (constructor; [done|]); by apply Forall_app.
Qed.

Lemma texts_new_object (Q : string -> Prop) props :
  Forall (fun p => Q p.1 /\ Forall Q (texts p.2)) props -> Forall Q (texts (new_object props)).
Proof.
  intros Hp. unfold new_object.
  enough (forall acc, Forall Q (texts (OObject acc)) -> Forall Q (texts (OObject (foldl (fun o p => jm_set p.1 p.2 o) acc props)))) as He
    by (apply He; constructor).
  induction Hp as [|[k o] props [Hk Ho] _ IH]; intros acc Hacc; simpl; [done|].
  apply IH. by apply (texts_jm_set Q k o acc).
Qed.

Lemma texts_array (Q : string -> Prop) l : Forall (fun o => Forall Q (texts o)) l -> Forall Q (texts (OArray l)).
Proof. simpl. induction 1; simpl; [constructor|by apply Forall_app]. Qed.

Section Discretion.
Context `{Externals}.
Context (h : objects).
(** The traces and messages of errors are shown as they are. *)
Context (Herr : forall a stack message, h !! a = Some (ErrorObj stack message) -> discreet stack /\ discreet message).

Lemma clone_discreet levels obj seen : Forall discreet (texts (_cloneAndFormat h true levels obj seen).1).
Proof.
  revert obj seen. induction levels as [levels IH] using lt_wf_ind. intros obj seen.
  destruct levels as [|levels]; [by repeat constructor|].
  assert (forall v seen, Forall discreet (texts (_cloneAndFormat h true levels v seen).1)) as IH1 by (intros; apply IH; lia).
  destruct obj as [| | | |s|z|a]; simpl; try by repeat constructor.
  - constructor; [apply discreet_format|constructor].
  - constructor; [right; by exists z|constructor].
  - destruct (decide (a ∈ seen)); [by repeat constructor|].
    destruct (h !! a) as [[b|z|l|stack message|l|l|props]|] eqn:Ha; try by repeat constructor.
    + constructor; [apply discreet_short, shortened_length|constructor].
    + constructor; [right; by exists z|constructor].
    + apply texts_array, visit_all_Forall, IH1.
    + constructor; [|constructor]. destruct (Herr _ _ _ Ha). by destruct stack.
    + apply texts_array, visit_all_Forall, IH1.
    + apply texts_array, visit_all_Forall. intros [k v] s. destruct levels as [|levels]; [by repeat constructor|].
      apply texts_array. repeat constructor; apply IH; lia.
    + apply texts_new_object, (visit_all_Forall (fun p => discreet p.1 /\ Forall discreet (texts p.2))). intros [k v] s. simpl.
      destruct (String.eqb k "emitter"); split; try apply discreet_format; [by repeat constructor|apply IH1].
Qed.

(** A logger never shows a long hex string of what it is given, neither as a text
    or a key nor the bytes of an array: every text in the copy of an object is no hex
    string of more than twelve characters, unless it is a number; the texts of errors
    are the exception the hypothesis of this section makes. *)
Theorem long_hex_not_logged obj s : s ∈ texts (cloneAndFormat h true obj) -> long_hex s = false \/ exists n : Z, s = pretty n.
Proof.
  unfold cloneAndFormat. generalize (MAX_CALL_STACK_SZ + 1) as n. intros n Hs.
  pose proof (clone_discreet n obj ∅) as Hc. rewrite Forall_forall in Hc. by apply Hc.
Qed.
End Discretion.

(** ** Graphs without sharing *)

Lemma visit_all_plain {A B} (f : A -> gset nat -> B * gset nat) (g : A -> B) (vs : A -> list nat) :
  (forall x seen, NoDup (vs x) -> list_to_set (vs x) ## seen -> f x seen = (g x, list_to_set (vs x) ∪ seen)) ->
  forall l seen, NoDup (flat_map vs l) -> list_to_set (flat_map vs l) ## seen ->
  visit_all f l seen = (map g l, list_to_set (flat_map vs l) ∪ seen).
Proof.
  intros Hf. induction l as [|x l IH]; intros seen Hn Hd; simpl in *; [by rewrite union_empty_l_L|].
  apply NoDup_app in Hn as (Hx & Hxl & Hl). rewrite list_to_set_app_L in Hd |- *.
  rewrite Hf by (done || set_solver). simpl. rewrite IH by (done || set_solver). simpl. f_equal. set_solver.
Qed.

Lemma visit_fresh (a : nat) l (seen : gset nat) :
  a ∉ l -> list_to_set (a :: l) ## seen -> list_to_set l ## {[a]} ∪ seen.
Proof. simpl. rewrite !elem_of_disjoint. intros Ha Hd x Hx Hs. apply elem_of_union in Hs as [->%elem_of_singleton|Hs].
  - apply Ha. by apply elem_of_list_to_set in Hx.
  - apply (Hd x); [set_solver|done].
Qed.

Lemma visit_union (a : nat) l (seen : gset nat) : list_to_set l ∪ ({[a]} ∪ seen) = {[a]} ∪ list_to_set l ∪ seen.
Proof. set_solver. Qed.

Lemma flat_map_nil {A B} (l : list A) : flat_map (fun _ => @nil B) l = [].
Proof. by induction l. Qed.

Section Shown.
Context `{Externals}.
Context (h : objects) (shorten : bool).

Lemma clone_plain levels obj seen :
  NoDup (visits h levels obj) -> list_to_set (visits h levels obj) ## seen ->
  _cloneAndFormat h shorten levels obj seen = (plain h shorten levels obj, list_to_set (visits h levels obj) ∪ seen).
Proof.
  revert obj seen. induction levels as [levels IH] using lt_wf_ind. intros obj seen.
  destruct levels as [|levels]; [intros _ _; simpl; by rewrite union_empty_l_L|].
  destruct obj as [| | | |s|z|a]; simpl; try (intros _ _; by rewrite union_empty_l_L).
  intros [Hfresh Hn]%NoDup_cons Hd. rewrite decide_False by set_solver.
  assert (forall v seen, NoDup (visits h levels v) -> list_to_set (visits h levels v) ## seen ->
    _cloneAndFormat h shorten levels v seen = (plain h shorten levels v, list_to_set (visits h levels v) ∪ seen)) as IH1
    by (intros; apply IH; [lia|done..]).
  pose proof (visit_fresh _ _ _ Hfresh Hd) as Hd'.
  rewrite <- visit_union.
  destruct (h !! a) as [[b|z|l|stack message|l|l|props]|] eqn:Ha; try (simpl; by rewrite union_empty_l_L).
  - by rewrite (visit_all_plain _ _ _ IH1 l _ Hn Hd').
  - by rewrite (visit_all_plain _ _ _ IH1 l _ Hn Hd').
  - destruct levels as [|levels].
    + rewrite (visit_all_plain _ (fun _ => OString "MAX_CALL_STACK_SZ exceeded") (fun _ => [])); rewrite ?flat_map_nil;
        [done|intros; simpl; by rewrite union_empty_l_L|constructor|apply disjoint_empty_l].
    + rewrite (visit_all_plain _ (fun e => OArray [plain h shorten levels e.1; plain h shorten levels e.2])
                 (fun e => visits h levels e.1 ++ visits h levels e.2)); [done| |done..].
      clear Hn Hd Hd' Hfresh. intros [k v] s (Hk & Hkv & Hv)%NoDup_app Hs. simpl in *.
      rewrite list_to_set_app_L in Hs |- *. apply disjoint_union_l in Hs as [Hs1 Hs2].
      rewrite IH by (done || lia). simpl. rewrite IH; [|lia|done|set_solver].
      simpl. f_equal. set_solver.
  - rewrite (visit_all_plain _ (fun p => (format_string shorten p.1, if String.eqb p.1 "emitter" then OString "[emitter]" else plain h shorten levels p.2))
               (fun p => if String.eqb p.1 "emitter" then [] else visits h levels p.2)); [done| |done..].
    intros [k v] s Hk Hs. simpl in *. destruct (String.eqb k "emitter"); [simpl; by rewrite union_empty_l_L|]. by rewrite IH1.
Qed.

(** An object graph in which no object is met twice is logged as the plain
    recursive copy of it, cut at the depth limit: no object of it is mistaken for one
    seen before. *)
Theorem distinct_objects_shown obj :
  NoDup (visits h (MAX_CALL_STACK_SZ + 1) obj) ->
  cloneAndFormat h shorten obj = plain h shorten (MAX_CALL_STACK_SZ + 1) obj.
Proof.
  unfold cloneAndFormat. generalize (MAX_CALL_STACK_SZ + 1) as n. intros n Hn.
  by rewrite clone_plain by (done || apply disjoint_empty_r).
Qed.
End Shown.

(** ** Calls of a logger *)

Section Layout.
Context `{Externals}.
Context (h : objects).

(** The specifier of an argument that is not an error, and what is printed for it. *)
Definition specifier (c : value) : string :=
  match c with
  | VString _ => "%s "
  | VRef _ => "%O" +:+ String (Ascii.ascii_of_nat 10) ""
  | _ => "%O "
  end.

Definition printed_of (c : value) : printed :=
  match c with
  | VString s => PString (format_string true s)
  | VRef _ => PData (cloneAndFormat h true c)
  | _ => PValue c
  end.

Definition error_part (c : value) : list printed :=
  match c with VRef a => if is_error h c then [PNewline; PError a] else [] | _ => [] end.

Lemma add_args l args :
  foldl (add_arg h) l args =
    let shown := List.filter (fun c => negb (is_error h c)) args in
    mkLine (fmt l ++ map specifier shown) (newArgs l ++ map printed_of shown) (tailArgs l ++ flat_map error_part args).
Proof.
  revert l. induction args as [|c args IH]; intros [f n t]; simpl; [by rewrite !app_nil_r|]. rewrite IH.
  destruct c as [| | | |s| |a]; simpl; rewrite <- ?app_assoc; try done.
  - unfold format_string. by rewrite andb_true_r.
  - destruct (h !! a) as [[]|]; simpl; by rewrite <- ?app_assoc.
Qed.

(** The arguments of a call of a logger and the specifiers of its format stay in
    step: the format has one specifier for each argument that is not an error, in
    their order, so that no text of an argument is taken for a specifier; the errors
    follow after all others, each on a line of its own. *)
Theorem logged_in_step args :
  args <> [] ->
  let shown := List.filter (fun c => negb (is_error h c)) args in
  call_dlog h true args = Some (String.concat "" (map specifier shown), map printed_of shown ++ flat_map error_part args).
Proof. intros Hargs. unfold call_dlog. rewrite add_args. by destruct args. Qed.
End Layout.

(** ** Concrete graphs *)

(** An object with a key and a cycle back to itself. *)
Definition demo_cycle : objects :=
  {[0%nat := PlainObj [("sessionId", VString "00112233445566778899aabbccddeeff"); ("self", VRef 0); ("list", VRef 1)];
    1%nat := ArrayObj [VNumber 1; VBigint 2; VRef 2];
    2%nat := Uint8Array [x01; x02]]}.

Example demo_cycle_logged :
  cloneAndFormat demo_cycle true (VRef 0)
  = OObject [("sessionId", OString "0011..eeff"); ("self", OString "[circular reference]");
             ("list", OArray [ONumber 1; OString "2"; OString "0102"])].
Proof. vm_compute. reflexivity. Qed.

(** An object that is referred to twice is shown once; the second time it is reported as
    a cycle, although there is none. *)
Example shared_object_called_circular :
  cloneAndFormat {[0%nat := ArrayObj [VRef 1; VRef 1]; 1%nat := ArrayObj [VNumber 7]]} true (VRef 0)
  = OArray [OArray [ONumber 7]; OString "[circular reference]"].
Proof. vm_compute. reflexivity. Qed.

(** Two keys that are shortened to the same text are one key of the copy: the first
    entry is not shown. *)
Example shortened_keys_collide :
  cloneAndFormat {[0%nat := PlainObj [("aaaa000000001111", VNumber 1); ("aaaa222222221111", VNumber 2)]]} true (VRef 0)
  = OObject [("aaaa..1111", ONumber 2)].
Proof. vm_compute. reflexivity. Qed.

(** Loggers of one namespace share their options: the one that is made last decides, here
    that errors of the namespace are no longer printed. *)
Example namespace_options_replaced :
  let s := post ((dlogError "csb:a" : JS unit _ _) []) in
  debug_enabled false [] [] s "csb:a" = true
  /\ debug_enabled false [] [] (post ((dlog "csb:a" None : JS unit _ _) s)) "csb:a" = false.
Proof. vm_compute. done. Qed.

Lemma long_hex_not_logged_witness :
  "0011..eeff" ∈ texts (cloneAndFormat demo_cycle true (VRef 0))
  /\ (long_hex "0011..eeff" = false \/ exists n : Z, "0011..eeff" = pretty n).
Proof.
  assert ("0011..eeff" ∈ texts (cloneAndFormat demo_cycle true (VRef 0))) as Hin
    by (rewrite demo_cycle_logged; simpl; set_solver).
  split; [exact Hin|]. apply (long_hex_not_logged demo_cycle) with (obj := VRef 0); [|exact Hin].
  intros a stack message Ha. unfold demo_cycle in Ha. 
  by repeat first [apply lookup_insert_Some in Ha as [[_ Ha]|[_ Ha]] | apply lookup_singleton_Some in Ha as [_ Ha]].
Defined.

Lemma distinct_objects_shown_witness :
  let h : objects := {[0%nat := PlainObj [("a", VRef 1); ("b", VRef 2)]; 1%nat := ArrayObj [VNumber 1]; 2%nat := ArrayObj []]} in
  NoDup (visits h (MAX_CALL_STACK_SZ + 1) (VRef 0))
  /\ cloneAndFormat h true (VRef 0) = plain h true (MAX_CALL_STACK_SZ + 1) (VRef 0)
  /\ plain h true (MAX_CALL_STACK_SZ + 1) (VRef 0) = OObject [("a", OArray [ONumber 1]); ("b", OArray [])].
Proof.
  assert (NoDup (visits {[0%nat := PlainObj [("a", VRef 1); ("b", VRef 2)]; 1%nat := ArrayObj [VNumber 1]; 2%nat := ArrayObj []]}
    (MAX_CALL_STACK_SZ + 1) (VRef 0))) as Hn by (apply (bool_decide_unpack _); vm_compute; exact I).
  split; [exact Hn|]. split; [apply distinct_objects_shown; exact Hn|vm_compute; reflexivity].
Defined.

Lemma logged_in_step_witness :
  [VString "100% done"; VNumber 3] <> []
  /\ call_dlog ∅ true [VString "100% done"; VNumber 3] = Some ("%s %O ", [PString "100% done"; PValue (VNumber 3)]).
Proof. split; [discriminate|]. rewrite (logged_in_step ∅) by discriminate. vm_compute. reflexivity. Defined.
