(* ===== verification/RpcLogging.v ===== *)
(** * The logging interceptor (core/sdk/src/makeStreamRpcClient.ts)

    Every request to a node passes through [loggingInterceptor]: it gives the request an
    id, counts calls and failures per method and stream in a histogram that a timer
    prints, and wraps the messages of streaming requests and responses in generators
    that count them. The state is the histogram; printed statistics are the emitted
    events, other log lines are left out. The transport is the function [next]. *)

From stdpp Require Import pretty.
From S2P Require Import Prelude Proto Externals ToyExternals Binary StreamId SdkUtils RpcClient.

(** ** The histogram *)

Record hentry := mkHentry { h_interval : Z; h_total : Z; h_error : option Z }.

Definition histogram : Type := jsmap hentry.

(** What the timer prints. *)
Inductive log_event := RpcStats (transportId interval total error : Z) (sorted : histogram).

Abbreviation HM := (JS log_event histogram).

Definition histogramIntervalMs : Z := 5000.

Definition sortObjectKey {V} (obj : jsmap V) : jsmap V :=
  foldl (fun sorted key => match jm_get key obj with Some v => jm_set key v sorted | None => sorted end) []
    (sort_strings (jm_keys obj)).

(** A suffix is a text or the bytes of an id; in a template an array of bytes is the
    decimal numbers of its elements, joined by commas, and it is truthy when empty. *)
Inductive suffix := NoSuffix | TextSuffix (s : string) | BytesSuffix (b : bytes).

Definition key_of (methodName : string) (sfx : suffix) : string :=
  match sfx with
  | NoSuffix => methodName
  | TextSuffix s => if String.eqb s "" then methodName else methodName +:+ " " +:+ s
  | BytesSuffix b => methodName +:+ " " +:+ String.concat "," (map (fun x => pretty (Z_of_byte x)) b)
  end.

Definition no_calls : hentry := mkHentry 0 0 None.

Definition counted (error : bool) (e : hentry) : hentry :=
  mkHentry (h_interval e + 1) (h_total e + 1) (if error then Some (default 0 (h_error e) + 1) else h_error e).

Definition updateHistogram (methodName : string) (sfx : suffix) (error : bool) : HM unit :=
  let name := key_of methodName sfx in
  js_modify (fun h => jm_set name (counted error (default no_calls (jm_get name h))) h).

Definition sum_by (f : hentry -> Z) (h : histogram) : Z := foldr (fun p n => f p.2 + n) 0 h.

(** The function given to [setInterval]. *)
Definition onHistogramTimer (transportId : Z) : HM unit :=
  h ← js_get;
  js_when (negb (length h =? 0)%nat)
    (let interval := sum_by h_interval h in
     js_when (0 <? interval)
       (js_emit true (RpcStats transportId interval (sum_by h_total h) (sum_by (fun e => default 0 (h_error e)) h) (sortObjectKey h));;
        js_modify (map (fun p => (p.1, mkHentry 0 (h_total p.2) (h_error p.2)))))).

(** ** Streams of messages

    A wrapped stream has the messages that are still to come and how it ends; a consumer
    asks for the next message, returns early, or throws an error into the generator. *)

Inductive thrown := ThrownString (s : string) | ThrownError (e : js_error).

Record generator (M : Type) := mkGenerator { g_rest : list M; g_ending : option thrown; g_started : bool; g_live : bool }.
Arguments mkGenerator {M}. Arguments g_rest {M}. Arguments g_ending {M}. Arguments g_started {M}. Arguments g_live {M}.

Inductive resumption := RNext | RReturn | RThrow (e : thrown).

Inductive pulled (M : Type) := Yield (m : M) | Done | Failed (e : thrown).
Arguments Yield {M}. Arguments Done {M}. Arguments Failed {M}.

Definition wrap {M} (messages : list M) (ending : option thrown) : generator M := mkGenerator messages ending false true.

Definition finished {M} (g : generator M) : generator M := mkGenerator [] None true false.

Section Streams.
Context {M : Type}.

(** The body of [logEachRequest] from one [yield] to the next. *)
Definition request_pull (name : string) (g : generator M) : HM (pulled M * generator M) :=
  match g_rest g with
  | m :: rest =>
      updateHistogram name NoSuffix false;;
      mret (Yield m, mkGenerator rest (g_ending g) true true)
  | [] =>
      match g_ending g with
      | None => mret (Done, finished g)
      | Some err => updateHistogram name NoSuffix true;; mret (Failed err, finished g)
      end
  end.

(** An error thrown at the [yield] is counted by the inner and the outer handler. *)
Definition request_thrown (name : string) (err : thrown) (g : generator M) : HM (pulled M * generator M) :=
  updateHistogram name NoSuffix true;;
  updateHistogram name NoSuffix true;;
  mret (Failed err, finished g).

(** [streamId_of] is [m.stream?.nextSyncCookie?.streamId]. *)
Context (streamId_of : M -> option bytes).

Definition response_pull (name : string) (g : generator M) : HM (pulled M * generator M) :=
  match g_rest g with
  | m :: rest =>
      updateHistogram (name +:+ " RECV") (match streamId_of m with Some b => BytesSuffix b | None => NoSuffix end) false;;
      mret (Yield m, mkGenerator rest (g_ending g) true true)
  | [] =>
      match g_ending g with
      | None => mret (Done, finished g)
      | Some err =>
          match err with
          | ThrownString "BLIP" => updateHistogram (name +:+ " BLIP") NoSuffix false
          | ThrownString "SHUTDOWN" => updateHistogram (name +:+ " SHUTDOWN") NoSuffix false
          | _ => updateHistogram (name +:+ " RECV") NoSuffix true
          end;;
          mret (Failed err, finished g)
      end
  end.

(** An error thrown at the [yield] of a response is counted and swallowed: the generator
    goes on with the next message. *)
Definition response_thrown (name : string) (err : thrown) (g : generator M) : HM (pulled M * generator M) :=
  updateHistogram (name +:+ " RECV") NoSuffix true;;
  response_pull name g.

(** A generator that has not started or has ended does not run its body for [throw] or
    [return]. *)
Definition resume (pull : generator M -> HM (pulled M * generator M)) (throw : thrown -> generator M -> HM (pulled M * generator M))
    (act : resumption) (g : generator M) : HM (pulled M * generator M) :=
  if negb (g_live g) then mret (match act with RThrow e => Failed e | _ => Done end, g)
  else
    match act with
    | RNext => pull g
    | RReturn => mret (Done, finished g)
    | RThrow e => if g_started g then throw e g else mret (Failed e, finished g)
    end.

Definition logEachRequest (name : string) : resumption -> generator M -> HM (pulled M * generator M) :=
  resume (request_pull name) (request_thrown name).
Definition logEachResponse (name : string) : resumption -> generator M -> HM (pulled M * generator M) :=
  resume (response_pull name) (response_thrown name).
End Streams.

(** ** Requests *)

Record request (M : Type) := mkRequest { r_method : string; r_header : jsmap string; r_message : M }.
Arguments mkRequest {M}. Arguments r_method {M}. Arguments r_header {M}. Arguments r_message {M}.

Definition with_id {M} (id : string) (req : request M) : request M :=
  mkRequest (r_method req) (jm_set "x-river-request-id" id (r_header req)) (r_message req).

Definition Code_NotFound : Z := 5.

(** [GetStream] of a stream that does not exist is no error worth counting. *)
Definition ignored (methodName : string) (e : js_error) : bool :=
  String.eqb methodName "GetStream" && match e with CodeException _ code => code =? Code_NotFound | JsError _ => false end.

(** What the transport answers, and what the caller is given. *)
Inductive response (A N : Type) := UnaryRes (a : A) | StreamRes (messages : list N) (ending : option thrown).
Arguments UnaryRes {A N}. Arguments StreamRes {A N}.
Inductive logged_response (A N : Type) := LoggedUnary (a : A) | LoggedStream (g : generator N).
Arguments LoggedUnary {A N}. Arguments LoggedStream {A N}.

Definition log_response {A N} (res : response A N) : logged_response A N :=
  match res with
  | UnaryRes a => LoggedUnary a
  | StreamRes messages ending => LoggedStream (wrap messages ending)
  end.

Section Requests.
Context `{Externals}.
Context {M A N : Type}.

Definition call_next {Req} (methodName : string) (sfx : suffix) (next : Req -> result (response A N)) (localReq : Req)
    : HM (logged_response A N) :=
  updateHistogram methodName sfx false;;
  js_try (res ← js_lift (next localReq); mret (log_response res)) (fun e =>
    js_when (negb (ignored methodName e)) (updateHistogram methodName sfx true);;
    js_throw e).

(** A unary request; [streamId_of] is [message['streamId']]. *)
Definition unary_suffix (streamId_of : M -> option bytes) (req : request M) : suffix :=
  match streamId_of (r_message req) with
  | Some b => TextSuffix (streamIdAsString (IdBytes b))
  | None => NoSuffix
  end.

Definition log_unary (streamId_of : M -> option bytes) (id : string) (next : request M -> result (response A N)) (req : request M)
    : HM (logged_response A N) :=
  call_next (r_method req) (unary_suffix streamId_of req) next (with_id id req).

(** A streaming request: its messages are wrapped before they are sent on. *)
Definition log_stream (id : string) (next : request (generator M) -> result (response A N)) (messages : list M) (ending : option thrown)
    (req : request unit) : HM (logged_response A N) :=
  let localReq := with_id id req in
  call_next (r_method req) NoSuffix next (mkRequest (r_method req) (r_header localReq) (wrap messages ending)).
End Requests.

(** ** Accounting *)

Fixpoint printed_intervals (w : list log_event) : Z :=
  match w with
  | [] => 0
  | RpcStats _ interval _ _ _ :: w => interval + printed_intervals w
  end.

(** Counts that are neither printed nor pending. *)
Definition lost (h : histogram) (w : list log_event) : Z := sum_by h_total h - sum_by h_interval h - printed_intervals w.

Definition accounts {A} (m : HM A) : Prop :=
  forall h, lost (post (m h)) (emits (m h)) = lost h [] /\ sum_by h_total h <= sum_by h_total (post (m h)).

Lemma printed_app w w' : printed_intervals (w ++ w') = printed_intervals w + printed_intervals w'.
Proof. induction w as [|[] w IH]; simpl; lia. Qed.

Lemma accounts_pure {A} (r : result A) : accounts (js_lift r).
Proof. intros h. split; [done|simpl; lia]. Qed.

Lemma accounts_bind {A B} (m : HM A) (k : A -> HM B) : accounts m -> (forall a, accounts (k a)) -> accounts (m ≫= k).
Proof.
  intros Hm Hk h. destruct (Hm h) as [H1 H2]. unfold mbind, JS_mbind, js_bind, lost in *.
  destruct (m h) as [[a|e] h' w]; simpl in *; [|split; lia].
  destruct (Hk a h') as [H3 H4]. unfold lost in H3. destruct (k a h') as [r h'' w']; simpl in *.
  rewrite printed_app. split; lia.
Qed.

Lemma accounts_try {A} (m : HM A) (k : js_error -> HM A) : accounts m -> (forall e, accounts (k e)) -> accounts (js_try m k).
Proof.
  intros Hm Hk h. destruct (Hm h) as [H1 H2]. unfold js_try, lost in *.
  destruct (m h) as [[a|e] h' w]; simpl in *; [split; lia|].
  destruct (Hk e h') as [H3 H4]. unfold lost in H3. destruct (k e h') as [r h'' w']; simpl in *.
  rewrite printed_app. split; lia.
Qed.

Lemma sum_by_set f name e h : sum_by f (jm_set name e h) = sum_by f h + f e - from_option f 0 (jm_get name h).
Proof. unfold sum_by. induction h as [|[k v] h IH]; simpl; [lia|]. destruct (String.eqb name k); simpl in *; lia. Qed.

Lemma accounts_update methodName sfx error : accounts (updateHistogram methodName sfx error).
Proof.
  intros h. unfold updateHistogram, js_modify, lost. simpl. rewrite !sum_by_set.
  destruct (jm_get _ h) as [[i t e]|]; simpl; split; lia.
Qed.

Lemma sum_by_map (f g : hentry -> Z) r h : (forall e, f (r e) = g e) -> sum_by f (map (fun p : string * hentry => (p.1, r p.2)) h) = sum_by g h.
Proof. intros Hr. unfold sum_by. induction h as [|[k v] h IH]; simpl; [done|]. by rewrite IH, Hr. Qed.

Lemma sum_by_zero h : sum_by (fun _ => 0) h = 0.
Proof. unfold sum_by. induction h; simpl; lia. Qed.

Lemma accounts_timer transportId : accounts (onHistogramTimer transportId).
Proof.
  intros h. unfold onHistogramTimer, mbind, JS_mbind, js_bind, js_get, js_when. simpl.
  destruct (negb _); simpl; [|split; [done|lia]].
  destruct (0 <? _); simpl; [|split; [done|lia]]. unfold lost. simpl.
  rewrite (sum_by_map h_total h_total (fun e => mkHentry 0 (h_total e) (h_error e)) h) by done.
  rewrite (sum_by_map h_interval (fun _ => 0) (fun e => mkHentry 0 (h_total e) (h_error e)) h) by done.
  rewrite sum_by_zero. split; lia.
Qed.

Lemma accounts_when b (m : HM unit) : accounts m -> accounts (js_when b m).
Proof. intros Hm. destruct b; [exact Hm|apply (accounts_pure (Ok tt))]. Qed.

Lemma accounts_mret {A} (a : A) : accounts (mret a : HM A).
Proof. apply (accounts_pure (Ok a)). Qed.

Lemma accounts_throw {A} e : accounts (js_throw e : HM A).
Proof. apply (accounts_pure (Throw e)). Qed.

Ltac account :=
  repeat first [apply accounts_bind; [|intros ?] | apply accounts_try; [|intros ?] | apply accounts_update | apply accounts_mret
               | apply accounts_throw | apply accounts_pure | apply accounts_when | case_match].

Section Runs.
Context `{Externals}.
Context {M A N : Type} (id_of : M -> option bytes) (recv_of : N -> option bytes).

Lemma accounts_call {Req} methodName sfx (next : Req -> result (response A N)) req : accounts (call_next methodName sfx next req).
Proof. unfold call_next. account. Qed.

Lemma accounts_request name act (g : generator M) : accounts (logEachRequest name act g).
Proof. unfold logEachRequest, resume, request_pull, request_thrown. account. Qed.

Lemma accounts_response name act (g : generator N) : accounts (logEachResponse recv_of name act g).
Proof. unfold logEachResponse, resume, response_thrown, response_pull. account. Qed.

(** What can happen at one interceptor: calls, messages of the streams it has wrapped, and
    its timer. [rpc_run h w] is reached with the histogram [h], having printed [w]. *)
Inductive rpc_run : histogram -> list log_event -> Prop :=
| run_start : rpc_run [] []
| run_unary h w id next req :
    rpc_run h w -> let o := log_unary (A := A) (N := N) id_of id next req h in rpc_run (post o) (w ++ emits o)
| run_stream h w id next messages ending req :
    rpc_run h w -> let o := log_stream (M := M) (A := A) (N := N) id next messages ending req h in rpc_run (post o) (w ++ emits o)
| run_request h w name act (g : generator M) :
    rpc_run h w -> let o := logEachRequest name act g h in rpc_run (post o) (w ++ emits o)
| run_response h w name act (g : generator N) :
    rpc_run h w -> let o := logEachResponse recv_of name act g h in rpc_run (post o) (w ++ emits o)
| run_timer h w transportId :
    rpc_run h w -> let o := onHistogramTimer transportId h in rpc_run (post o) (w ++ emits o).

Lemma lost_step {B} (m : HM B) h w : accounts m -> lost h w = 0 -> lost (post (m h)) (w ++ emits (m h)) = 0.
Proof. intros Hm Hw. destruct (Hm h) as [H1 _]. unfold lost in *. rewrite printed_app. simpl in H1. lia. Qed.

(** The statistics count every event once: at any time the intervals that were
    printed and what is counted for the next one add up to the totals, whatever calls,
    streams and timers run. *)
Theorem statistics_add_up h w : rpc_run h w -> printed_intervals w + sum_by h_interval h = sum_by h_total h.
Proof.
  intros Hr. enough (lost h w = 0) as Hl by (unfold lost in Hl; lia).
  induction Hr; [done|apply lost_step; [|assumption]..].
  - apply accounts_call.
  - apply accounts_call.
  - apply accounts_request.
  - apply accounts_response.
  - apply accounts_timer.
Qed.
End Runs.

(** ** Transparency *)

(** What a consumer gets that only asks for messages, [n] times. *)
Fixpoint drain {M} (f : generator M -> HM (pulled M * generator M)) (n : nat) (g : generator M) : HM (list (pulled M)) :=
  match n with
  | O => mret []
  | S n => r ← f g; rest ← drain f n r.2; mret (r.1 :: rest)
  end.

(** The stream as it was before it was wrapped. *)
Definition source {M} (messages : list M) (ending : option thrown) (n : nat) : list (pulled M) :=
  take n (map Yield messages ++ match ending with None => Done | Some e => Failed e end :: replicate n Done).

Lemma drain_S {M} (f : generator M -> HM (pulled M * generator M)) n g h x g' h' w l :
  f g h = Outcome (Ok (x, g')) h' w -> res (drain f n g' h') = Ok l -> res (drain f (S n) g h) = Ok (x :: l).
Proof.
  intros Hf Hl. simpl. unfold mbind, JS_mbind, js_bind. rewrite Hf. simpl.
  destruct (drain f n g' h') as [[l'|e] h'' w'] eqn:Hd; simpl in *; by simplify_eq.
Qed.

Lemma drain_ended {M} (pull : generator M -> HM (pulled M * generator M)) throw n (g : generator M) h :
  g_live g = false -> res (drain (resume pull throw RNext) n g h) = Ok (replicate n Done).
Proof.
  intros Hg. revert h. induction n as [|n IH]; intros h; [done|].
  eapply drain_S; [|apply IH]. unfold resume. by rewrite Hg.
Qed.

(** A generator that yields the messages of its source and ends as the source does. *)
Definition forwards {M} (pull : generator M -> HM (pulled M * generator M)) : Prop :=
  forall ms ending b h, exists h' w,
    pull (mkGenerator ms ending b true) h =
      Outcome (Ok (match ms with
                   | m :: ms => (Yield m, mkGenerator ms ending true true)
                   | [] => (match ending with None => Done | Some e => Failed e end, finished (mkGenerator ms ending b true))
                   end)) h' w.

Lemma drain_forwards {M} (pull : generator M -> HM (pulled M * generator M)) throw n ms ending b h :
  forwards pull -> res (drain (resume pull throw RNext) n (mkGenerator ms ending b true) h) = Ok (source ms ending n).
Proof.
  intros Hp. revert ms b h. induction n as [|n IH]; intros ms b h; [done|].
  destruct (Hp ms ending b h) as (h' & w & He). unfold source.
  destruct ms as [|m ms]; simpl.
  - eapply drain_S; [exact He|]. rewrite drain_ended by done. f_equal.
    change (Done :: replicate n Done) with (replicate (S n) (@Done M)). rewrite take_replicate. f_equal. lia.
  - eapply drain_S; [exact He|]. rewrite IH. unfold source. f_equal.
    rewrite !take_app. f_equal. destruct (n - length (map Yield ms))%nat as [|k] eqn:Hk; [done|]. simpl. f_equal.
    change (Done :: replicate n Done) with (replicate (S n) (@Done M)). rewrite !take_replicate. f_equal. lia.
Qed.

Lemma request_forwards {M} name : forwards (M := M) (request_pull name).
Proof. intros [|m ms] [e|] b h; eexists _, _; reflexivity. Qed.

Lemma response_forwards {N} (recv_of : N -> option bytes) name : forwards (response_pull recv_of name).
Proof.
  intros [|m ms] [e|] b h; [|eexists _, _; reflexivity..].
  unfold response_pull. simpl. repeat case_match; eexists _, _; reflexivity.
Qed.

(** The interceptor changes nothing a caller can see. A call returns or throws
    what the transport returns or throws for the request with its id in the header;
    the messages of streaming requests and responses pass in their order, and the
    streams end as they end without it. The call is counted under its method and
    stream, a failure a second time and as an error, unless it is the failure to find
    a stream. *)
Theorem logging_transparent `{Externals} {M A N} (id_of : M -> option bytes) (recv_of : N -> option bytes)
    id (next : request M -> result (response A N)) (req : request M) h :
  let key := key_of (r_method req) (unary_suffix id_of req) in
  let entry := default no_calls (jm_get key h) in
  let o := log_unary id_of id next req h in
  res o = (res ← next (with_id id req); Ok (log_response res))
  /\ jm_get key (post o) = Some (match next (with_id id req) with
                                | Throw e => if ignored (r_method req) e then counted false entry else counted true (counted false entry)
                                | Ok _ => counted false entry
                                end)
  /\ (forall k, k <> key -> jm_get k (post o) = jm_get k h)
  /\ (forall (g : generator N) messages ending n,
        next (with_id id req) = Ok (StreamRes messages ending) -> res o = Ok (LoggedStream g) ->
        forall h', res (drain (logEachResponse recv_of (r_method req) RNext) n g h') = Ok (source messages ending n))
  /\ (forall (messages : list M) ending n h',
        res (drain (logEachRequest (r_method req) RNext) n (wrap messages ending) h') = Ok (source messages ending n)).
Proof.
  intros key entry o. subst o. unfold log_unary, call_next, updateHistogram, js_try, mbind, JS_mbind, js_bind, js_modify, js_lift.
  fold key. simpl.
  assert (forall messages ending n h', res (drain (logEachRequest (M := M) (r_method req) RNext) n (wrap messages ending) h')
    = Ok (source messages ending n)) as Hreq by (intros; apply drain_forwards, request_forwards).
  destruct (next (with_id id req)) as [r|e]; simpl.
  - split_and!; [done|by rewrite jm_get_set_eq|intros; by rewrite jm_get_set_ne| |done].
    intros g messages ending n [= ->] [= <-] h'. apply drain_forwards, response_forwards.
  - destruct (ignored (r_method req) e); simpl; (split_and!; [done| | |done|done]).
    + by rewrite jm_get_set_eq.
    + intros; by rewrite jm_get_set_ne.
    + by rewrite !jm_get_set_eq.
    + intros; by rewrite !jm_get_set_ne.
Qed.

(** ** A run *)

(** A call that fails is counted twice in the total. *)
Definition demo_failed_call : outcome log_event histogram (logged_response unit unit) :=
  log_unary (fun _ : unit => None) "id" (fun _ => Throw (JsError "unavailable")) (mkRequest "AddEvent" [] tt) [].

Example failed_call_counted_twice : jm_get "AddEvent" (post demo_failed_call) = Some (mkHentry 2 2 (Some 1)).
Proof. reflexivity. Qed.

(** The id of a stream in a response is an array of bytes: the key of its entry is not the
    text of the id. *)
Example received_key_not_id :
  jm_keys (post (logEachResponse (fun b : bytes => Some b) "SyncStreams" RNext (wrap [[x20; xff]] None) []))
  = ["SyncStreams RECV 32,255"].
Proof. reflexivity. Qed.

Lemma statistics_add_up_witness :
  let o := (onHistogramTimer 0 (post demo_failed_call)) in
  printed_intervals (emits demo_failed_call ++ emits o) + sum_by h_interval (post o) = sum_by h_total (post o)
  /\ printed_intervals (emits o) = 2.
Proof.
  split; [|reflexivity].
  apply (@statistics_add_up toy unit unit unit (fun _ => None) (fun _ => None)).
  apply (run_timer (fun _ : unit => None) (fun _ : unit => None) _ _ 0).
  apply (run_unary (fun _ : unit => None) (fun _ : unit => None) [] [] "id" (fun _ => Throw (JsError "unavailable")) (mkRequest "AddEvent" [] tt)).
  apply run_start.
Defined.

(** ** [makeStreamRpcClient] *)

(** The interceptors of a transport; the parameters of the retries are those given. *)
Inductive interceptor := Interceptor_retry (params : RetryParams) (refreshes : bool) | Interceptor_logging (transportId : Z).

(** A destination is a transport, or urls separated by commas. *)
Inductive rpc_dest := DestTransport (transport : nat) | DestUrls (urls : string).

(** [useBinaryFormat], or JSON with its options. *)
Inductive rpc_transport :=
| GivenTransport (transport : nat)
| ConnectTransport (baseUrl : option string) (interceptors : list interceptor) (useBinaryFormat : bool).

Record StreamRpcClient := mkStreamRpcClient { rpc_transport_of : rpc_transport; rpc_url : option string }.

(** The state is [nextRpcClientNum]; [random] picks the url, [debug] is the variable
    [RIVER_DEBUG_TRANSPORT]. *)
Definition makeStreamRpcClient (dest : rpc_dest) (retryParams : RetryParams) (refreshes : bool) (random : nat)
    (debug : string) (nextRpcClientNum : Z) : StreamRpcClient * Z :=
  let transportId := nextRpcClientNum in
  (match dest with
   | DestUrls urls =>
       let url := randomUrlSelector urls random in
       mkStreamRpcClient
         (ConnectTransport url [Interceptor_retry retryParams refreshes; Interceptor_logging transportId]
            (negb (String.eqb debug "true"))) url
   | DestTransport transport => mkStreamRpcClient (GivenTransport transport) None
   end, nextRpcClientNum + 1).

(** Clients made one after the other have transports of their own. *)
Fixpoint makeClients (dests : list (rpc_dest * nat)) (retryParams : RetryParams) (debug : string) (n : Z) : list StreamRpcClient :=
  match dests with
  | [] => []
  | (dest, random) :: dests =>
      let '(client, n) := makeStreamRpcClient dest retryParams false random debug n in
      client :: makeClients dests retryParams debug n
  end.

Definition transport_ids (clients : list StreamRpcClient) : list Z :=
  omap (fun c => match rpc_transport_of c with ConnectTransport _ [_; Interceptor_logging id] _ => Some id | _ => None end) clients.

(** The histograms of two clients are never mixed up: no transport id is given twice. *)
Theorem transport_ids_distinct dests retryParams debug n : NoDup (transport_ids (makeClients dests retryParams debug n)).
Proof.
  assert (Hge : forall n, Forall (fun i => n <= i) (transport_ids (makeClients dests retryParams debug n))
                       /\ NoDup (transport_ids (makeClients dests retryParams debug n))); [|apply Hge].
  clear n. induction dests as [|[dest random] dests IH]; intros n; [by split; constructor|].
  cbn [makeClients makeStreamRpcClient]. destruct (IH (n + 1)) as [Hall Hnd].
  assert (Hall' : Forall (fun i => n <= i) (transport_ids (makeClients dests retryParams debug (n + 1)))).
  { eapply Forall_impl; [exact Hall|]. intros i Hi. cbn in Hi. lia. }
  destruct dest as [tr|urls]; cbn; [done|]. split; [by constructor|]. apply NoDup_cons. split; [|done].
  intros Hin. rewrite Forall_forall in Hall. apply Hall in Hin. lia.
Qed.
