(* ===== verification/StreamWait.v ===== *)
(** * Waiting for events of a stream (core/sdk/src/stream.ts)

    [waitFor] turns the next emitted event that meets a condition into a promise with a
    timeout; [waitForMembership] waits until a user has a membership, which the view
    changes when a miniblock confirms an event. The handler runs when the event is
    emitted and reads the memberships as they are then. *)

From S2P Require Import Prelude Proto Types MembershipState.

(** ** [waitFor] *)

(** Is the handler registered, is the timer running, and how was the promise settled. *)
Record wait := mkWait { w_listening : bool; w_timer : bool; w_outcome : option (result unit) }.

Definition waitFor : wait := mkWait true true None.

(** A promise is settled once. *)
Definition settle (r : result unit) (w : wait) : wait :=
  mkWait (w_listening w) (w_timer w) (match w_outcome w with None => Some r | r' => r' end).

(** The handler on an event for which the condition has this value. *)
Definition handler (condition : bool) (w : wait) : wait :=
  if w_listening w then if condition then settle (Ok tt) (mkWait false false (w_outcome w)) else w else w.

Definition onTimeout (event : string) (w : wait) : wait :=
  if w_timer w then settle (Throw (JsError ("Timed out waiting for event: " +:+ event))) (mkWait false false (w_outcome w))
  else w.

(** ** [waitForMembership] *)

Section Membership.
(** The user of the stream, the membership that is waited for, and of whom. *)
Context (me : string) (membership : MembershipOp) (userId : option string).

Definition reached (s : t) : bool := isMember s membership (default me userId).

(** The condition on an emitted event, with the memberships at that moment. *)
Definition on_emitted (s : t) (w : wait) (e : StreamEvents) : wait :=
  match e with
  | streamMembershipUpdated _ iUserId => handler (bool_decide (userId = None \/ userId = Some iUserId) && reached s) w
  | _ => w
  end.

Definition waitForMembership (s : t) : wait :=
  if reached s then mkWait false false (Some (Ok tt)) else waitFor.

(** What happens meanwhile: the view confirms a membership event; the stream is initialized
    again from a snapshot with these members, as on a sync reset; it is stopped; or the
    timer fires. *)
Inductive happening := Confirms (user : string) (op : MembershipOp) | Restarts (joined : list string) | Stops | TimerFires.

(** Was the stream stopped, its memberships, and the wait. *)
Record waiting := mkWaiting { ws_stopped : bool; ws_members : t; ws_wait : wait }.

(** [emit]: a stream that was stopped tells nobody. *)
Definition delivered (stopped : bool) (es : list StreamEvents) : list StreamEvents := if stopped then [] else es.

(** [removeAllListeners], with the timer still running. *)
Definition unheard (w : wait) : wait := mkWait false (w_timer w) (w_outcome w).

(** The memberships of a new view after the snapshot, which is applied without emitter. *)
Definition from_snapshot (joined : list string) (streamId : string) : outcome StreamEvents t unit :=
  js_for joined (fun user => applyMembershipEvent user SO_JOIN Apply_confirmed false) (new streamId).

Definition happens (st : waiting) (x : happening) : waiting :=
  let tell (o : outcome StreamEvents t unit) :=
    mkWaiting (ws_stopped st) (post o) (foldl (on_emitted (post o)) (ws_wait st) (delivered (ws_stopped st) (emits o))) in
  match x with
  | Confirms user op => tell (applyMembershipEvent user op Apply_confirmed true (ws_members st))
  | Restarts joined => tell (from_snapshot joined (streamId (ws_members st)))
  | Stops => mkWaiting true (ws_members st) (unheard (ws_wait st))
  | TimerFires => mkWaiting (ws_stopped st) (ws_members st) (onTimeout "streamMembershipUpdated" (ws_wait st))
  end.

Definition run_wait (s : t) (xs : list happening) : waiting := foldl happens (mkWaiting false s (waitForMembership s)) xs.

(** ** Specification: the first moment the membership is reached, unless the timer fires *)

Definition timed_out : result unit := Throw (JsError "Timed out waiting for event: streamMembershipUpdated").

(** The stream goes on as it is. *)
Definition undisturbed (x : happening) : bool :=
  match x with
  | Confirms _ _ | TimerFires => true
  | Restarts _ | Stops => false
  end.

Fixpoint verdict (s : t) (xs : list happening) : option (result unit) :=
  if reached s then Some (Ok tt)
  else
    match xs with
    | [] => None
    | Confirms user op :: xs => verdict (post (applyMembershipEvent user op Apply_confirmed true s)) xs
    | TimerFires :: _ => Some timed_out
    | _ :: xs => verdict s xs
    end.

Definition settled_wait (r : option (result unit)) : wait :=
  match r with None => waitFor | Some r => mkWait false false (Some r) end.

(** A wait nobody tells of changes any more ends with its timer only. *)
Definition unheard_wait (r : option (result unit)) (xs : list happening) : wait :=
  match r with
  | None => if existsb (fun x => match x with TimerFires => true | _ => false end) xs then settled_wait (Some timed_out) else mkWait false true None
  | Some _ => settled_wait r
  end.

Lemma emitted_when_settled s r es : foldl (on_emitted s) (settled_wait (Some r)) es = settled_wait (Some r).
Proof. induction es as [|e es IH]; simpl; [done|]. rewrite <- IH at 2. f_equal. by destruct e. Qed.

Lemma settled_stays r xs stopped s : ws_wait (foldl happens (mkWaiting stopped s (settled_wait (Some r))) xs) = settled_wait (Some r).
Proof.
  revert stopped s. induction xs as [|[user op|joined| |] xs IH]; intros stopped s; cbn [foldl]; [done| | |apply IH|apply IH];
    unfold happens at 2; cbn [ws_stopped ws_members ws_wait]; rewrite emitted_when_settled; apply IH.
Qed.

Lemma unheard_stays xs s : ws_wait (foldl happens (mkWaiting true s (mkWait false true None)) xs) = unheard_wait None xs.
Proof.
  revert s. induction xs as [|[user op|joined| |] xs IH]; intros s; cbn [foldl]; [done|apply IH|apply IH|apply IH|].
  apply (settled_stays timed_out).
Qed.

Lemma isMember_status s m u :
  isMember s m u = match m with
                   | SO_INVITE => st_invited (status_of s u)
                   | SO_JOIN => st_joined (status_of s u)
                   | SO_LEAVE => negb (st_invited (status_of s u)) && negb (st_joined (status_of s u))
                   | _ => false
                   end.
Proof. by destruct m. Qed.

Lemma reached_other emitting s user op :
  user <> default me userId -> reached (post (applyMembershipEvent user op Apply_confirmed emitting s)) = reached s.
Proof. intros Hne. unfold reached. rewrite !isMember_status, status_of_confirmed. by rewrite decide_False. Qed.

(** A confirmed event announces a change, or it does not change the user's status as far
    as a wait can see. *)
Lemma confirmed_emits s user op :
  (exists before sid, emits (applyMembershipEvent user op Apply_confirmed true s) = before ++ [streamMembershipUpdated sid user]
     /\ forall w s', foldl (on_emitted s') w before = w)
  \/ emits (applyMembershipEvent user op Apply_confirmed true s) = []
     /\ reached (post (applyMembershipEvent user op Apply_confirmed true s)) = reached s.
Proof.
  destruct op; [right; done|left; by eexists [_], _|left; by eexists [_], _| |right; done].
  pose proof (status_of_confirmed s user (default me userId) SO_LEAVE true) as Hst.
  destruct (bool_decide (user ∈ joinedUsers s) || bool_decide (user ∈ invitedUsers s)) eqn:Hwas.
  - left. unfold applyMembershipEvent, emitMembershipChange. js_simpl. rewrite Hwas. by eexists [_], _.
  - right. split; [unfold applyMembershipEvent, emitMembershipChange; js_simpl; by rewrite Hwas|].
    unfold reached. rewrite !isMember_status, Hst. case_decide as Hu; [|done]. subst user.
    apply orb_false_iff in Hwas as [Hj Hi]. unfold status_of, status_step. simpl. by rewrite Hj, Hi.
Qed.

Lemma confirm_waiting s user op :
  reached s = false ->
  happens (mkWaiting false s waitFor) (Confirms user op)
    = mkWaiting false (post (applyMembershipEvent user op Apply_confirmed true s))
       (settled_wait (if reached (post (applyMembershipEvent user op Apply_confirmed true s)) then Some (Ok tt) else None)).
Proof.
  intros Hs. unfold happens, delivered. cbn [ws_stopped ws_members ws_wait]. f_equal.
  destruct (confirmed_emits s user op) as [(before & sid & -> & Hb)|[-> ->]]; [|by rewrite Hs].
  rewrite foldl_app, Hb. simpl. unfold handler. simpl.
  destruct (reached (post _)) eqn:Hr; [|by rewrite andb_false_r].
  destruct (decide (user = default me userId)) as [->|Hne]; [|by rewrite reached_other, Hs in Hr].
  rewrite bool_decide_true; [done|]. destruct userId; auto.
Qed.

(** A stream that goes on: the wait is as the verdict says, and the stream is not stopped. *)
Lemma run_undisturbed s xs :
  forallb undisturbed xs = true ->
  ws_wait (run_wait s xs) = settled_wait (verdict s xs) /\ ws_stopped (run_wait s xs) = false.
Proof.
  unfold run_wait, waitForMembership. revert s. induction xs as [|x xs IH]; intros s Hxs.
  - simpl. by destruct (reached s).
  - apply andb_true_iff in Hxs as [Hx Hxs]. simpl verdict. assert (Hrest : forall y w, ws_stopped (foldl happens (mkWaiting false y w) xs) = false).
    { clear IH. revert Hxs. induction xs as [|[| | |] xs IH]; intros Hxs y w; try discriminate Hxs; [done|by apply IH|by apply IH]. }
    destruct (reached s) eqn:Hs.
    { split; [apply (settled_stays (Ok tt))|]. by destruct x; try discriminate Hx; cbn [foldl happens]; apply Hrest. }
    destruct x as [user op| | |]; cbn [foldl]; try discriminate Hx.
    2:{ split; [apply (settled_stays timed_out)|apply Hrest]. }
    rewrite (confirm_waiting s user op Hs). specialize (IH (post (applyMembershipEvent user op Apply_confirmed true s)) Hxs).
    by destruct (reached (post _)).
Qed.

Lemma snapshot_silent joined s : emits (from_snapshot joined s) = [].
Proof.
  unfold from_snapshot. generalize (new s). induction joined as [|user joined IH]; intros m; [done|].
  cbn [js_for]. unfold mbind, JS_mbind, js_bind.
  assert (Hu : exists m', applyMembershipEvent user SO_JOIN Apply_confirmed false m = Outcome (Ok tt) m' []) by (by eexists).
  destruct Hu as [m' ->]. specialize (IH m'). by destruct (js_for joined _ m').
Qed.

(** C27: as long as the stream is neither stopped nor initialized again, waiting for a
    membership ends with the first moment it is reached: at once when the user has it,
    otherwise with the confirmed event that gives it, whichever it is; it fails only when
    the timer fires before. Once it has ended no listener and no timer is left, and until
    then both are there. When the stream is stopped while the wait goes on, only the timer
    ends it, with the error, even if the membership is reached; and a new initialization
    from a snapshot does not end it, even if the snapshot gives the membership. *)
Theorem wait_ends_when_reached s xs :
  forallb undisturbed xs = true ->
  ws_wait (run_wait s xs) = settled_wait (verdict s xs)
  /\ (forall ys, ws_wait (run_wait s (xs ++ Stops :: ys)) = unheard_wait (verdict s xs) ys)
  /\ (forall joined, ws_wait (run_wait s (xs ++ [Restarts joined])) = settled_wait (verdict s xs)).
Proof.
  intros Hxs. destruct (run_undisturbed s xs Hxs) as [Hw Hst]. unfold run_wait in *.
  destruct (foldl happens _ xs) as [stopped s' w] eqn:Hrun. cbn in Hw, Hst. subst w stopped. split_and!; [done|..].
  - intros ys. rewrite foldl_app, Hrun. cbn [foldl happens ws_stopped ws_members ws_wait].
    destruct (verdict s xs) as [r|]; [apply (settled_stays r)|apply unheard_stays].
  - intros joined. rewrite foldl_app, Hrun. cbn [foldl happens ws_stopped ws_members ws_wait].
    by rewrite snapshot_silent.
Qed.
End Membership.

Lemma wait_ends_when_reached_witness :
  let xs := [Confirms "other" SO_JOIN; Confirms "me" SO_INVITE] in
  ws_wait (run_wait "me" SO_JOIN None (new "20") (xs ++ [Stops; Confirms "me" SO_JOIN; TimerFires])) = mkWait false false (Some timed_out).
Proof. exact (proj1 (proj2 (wait_ends_when_reached "me" SO_JOIN None (new "20") [Confirms "other" SO_JOIN; Confirms "me" SO_INVITE] eq_refl)) _). Defined.

Example wait_for_join :
  ws_wait (run_wait "me" SO_JOIN None (new "20") [Confirms "other" SO_JOIN; Confirms "me" SO_INVITE; Confirms "me" SO_JOIN; TimerFires])
  = mkWait false false (Some (Ok tt)).
Proof. vm_compute. reflexivity. Qed.

(** A sync reset whose snapshot has the user as a member: the wait goes on, and times out
    although the user has joined. *)
Example wait_through_reset :
  ws_wait (run_wait "me" SO_JOIN (Some "me") (new "20") [Restarts ["me"]; Confirms "other" SO_JOIN; TimerFires])
  = mkWait false false (Some timed_out).
Proof. vm_compute. reflexivity. Qed.
