(* ===== verification/ClientLifecycle.v ===== *)
(** * Starting and stopping the sync of a client (core/sdk/src/client.ts)

    The client has a loader of streams ([SyncedStreamsExtension]) that starts the sync
    loop when it has nothing more to load, an extension that decrypts, and the sync
    loop itself. [startSync], [stopSync] and [stop] are calls to these three; [stop]
    awaits them in turn while everything else goes on. *)

From S2P Require Import Prelude Proto Externals ToyExternals Binary StreamId SyncedStreamsExtension.

(** What a call of [stop] waits for. *)
Inductive stop_phase := AwaitsDecryption | AwaitsLoading (tick : nat) | AwaitsSync | Stopped.

#[global] Instance stop_phase_eq_dec : EqDecision stop_phase.
Proof. solve_decision. Defined.

(** [syncedStreamsExtensions] is there from the initialization of the user on; the calls of
    [stop] so far, each where it is. *)
Record client := mkClient { extension : option t; stop_calls : list stop_phase }.

(** What the client and its loader call. *)
Inductive call := ByExtension (o : out) | DecryptionStop | StreamsStopSync.

Abbreviation LM := (JS call client).

Section Lifecycle.
Context `{Externals}.

(** A call of the loader. *)
Definition on_extension (m : JS out t unit) : LM unit := fun c =>
  match extension c with
  | None => Outcome (Ok tt) c []
  | Some s => let o := m s in Outcome (res o) (mkClient (Some (post o)) (stop_calls c)) (map ByExtension (emits o))
  end.

(** The [i]-th call of [stop] goes on to this [await]. *)
Definition enter (i : nat) (p : stop_phase) : LM unit := js_modify (fun c => mkClient (extension c) (<[i := p]> (stop_calls c))).

Definition clientInitStatus : LM ClientInitStatus :=
  self ← js_get;
  match extension self with
  | Some s => mret (initStatus s)
  | None => js_lift (throwWithCode (Some "syncedStreamsExtensions must be set") None)
  end.

Definition startSync : LM unit :=
  self ← js_get;
  js_check (is_defined (extension self)) "syncedStreamsExtensions must be set";;
  on_extension (setStartSyncRequested true).

(** [stopSync] up to the [await] of [streams.stopSync]. *)
Definition stopSync : LM unit :=
  on_extension (setStartSyncRequested false);;
  js_emit true StreamsStopSync.

(** [stop] up to its first [await]. *)
Definition stop_client : LM unit :=
  js_emit true DecryptionStop;;
  js_modify (fun c => mkClient (extension c) (stop_calls c ++ [AwaitsDecryption])).

(** The loader has stopped for this call. *)
Definition onLoadingStopped (i : nat) : LM unit := stopSync;; enter i AwaitsSync.

(** The decryption has stopped: the loader is stopped; its promise is pending when it has
    a tick to wait for. *)
Definition onDecryptionStopped (i : nat) : LM unit :=
  self ← js_get;
  on_extension stop;;
  match extension self ≫= inProgressTick with
  | Some id => enter i (AwaitsLoading id)
  | None => onLoadingStopped i
  end.

(** The calls of [stop] that wait for a tick. *)
Fixpoint waiting_for (id i : nat) (ps : list stop_phase) : list nat :=
  match ps with
  | [] => []
  | p :: ps => (if decide (p = AwaitsLoading id) then [i] else []) ++ waiting_for id (S i) ps
  end.

(** What can happen: calls of the application, the ends of what a call of [stop] awaits,
    and the events of the loader (in any order; the theorem needs no more). *)
Inductive happening :=
| CallStartSync | CallStopSync | CallStopClient
| DecryptionStopped (i : nat) | SyncStopped (i : nat)
| OfExtension (e : event).

Definition handle_client (x : happening) : LM unit :=
  self ← js_get;
  match x with
  | CallStartSync => startSync
  | CallStopSync => stopSync
  | CallStopClient => stop_client
  | DecryptionStopped i => if decide (stop_calls self !! i = Some AwaitsDecryption) then onDecryptionStopped i else js_return
  | SyncStopped i => if decide (stop_calls self !! i = Some AwaitsSync) then enter i Stopped else js_return
  | OfExtension e =>
      if is_call e then js_return
      else
        on_extension (handle e);;
        match e with
        | StopEnds id => js_for (waiting_for id 0 (stop_calls self)) onLoadingStopped
        | _ => js_return
        end
  end.

(** A sequence of happenings, with the calls it leads to. *)
Definition run_client (xs : list happening) : LM unit := js_for xs (fun x => js_try (handle_client x) (fun _ => js_return)).

(** ** Starts of the sync *)

Definition is_start (c : call) : bool := match c with ByExtension StartSyncStreams => true | _ => false end.
Definition starts (w : list call) : nat := length (List.filter is_start w).
Definition is_request (x : happening) : bool := match x with CallStartSync => true | _ => false end.
Definition requests (xs : list happening) : nat := length (List.filter is_request xs).
Definition wants_sync (s : t) : nat := if startSyncRequested s then 1 else 0.
Definition requested (c : client) : nat := from_option wants_sync 0%nat (extension c).

Definition is_start_out (o : out) : bool := match o with StartSyncStreams => true | _ => false end.

(** The starts and the request after a method do not exceed the request before it. *)
Definition spends (m : JS out t unit) : Prop :=
  forall s, (length (List.filter is_start_out (emits (m s))) + wants_sync (post (m s)) <= wants_sync s)%nat.
(** The method neither starts the sync nor touches the request. *)
Definition quiet {A} (m : JS out t A) : Prop :=
  forall s, List.filter is_start_out (emits (m s)) = [] /\ startSyncRequested (post (m s)) = startSyncRequested s.
Lemma quiet_bind {A B} (m : JS out t A) (k : A -> JS out t B) : quiet m -> (forall a, quiet (k a)) -> quiet (m ≫= k).
Proof.
  intros Hm Hk s. destruct (Hm s) as [H1 H2]. unfold mbind, JS_mbind, js_bind.
  destruct (m s) as [[a|e] s' w]; simpl in *; [|done].
  destruct (Hk a s') as [H3 H4]. destruct (k a s') as [r s'' w']; simpl in *. rewrite List.filter_app, H1, H3. by rewrite H4.
Qed.

Lemma quiet_lift {A} (r : result A) : quiet (js_lift r).
Proof. done. Qed.

Lemma unrequested_modify f : (forall s, startSyncRequested (f s) = startSyncRequested s) -> quiet (js_modify f).
Proof. intros Hf s. split; [done|apply Hf]. Qed.

Lemma quiet_emit b o : is_start_out o = false -> quiet (js_emit b o).
Proof. intros Ho s. destruct b; simpl; [by rewrite Ho|done]. Qed.

Lemma quiet_get_bind {B} (k : t -> JS out t B) : (forall s, quiet (k s)) -> quiet (js_get ≫= k).
Proof. intros Hk. apply quiet_bind; [done|exact Hk]. Qed.

Ltac quieten :=
  repeat first [apply quiet_get_bind; intros ? | apply quiet_bind; [|intros ?] | apply unrequested_modify; intros ?; reflexivity
               | apply quiet_emit; reflexivity | apply (quiet_lift (Ok _)) | apply quiet_lift | case_match].

Lemma unrequested_checkStartTicking : quiet checkStartTicking.
Proof. unfold checkStartTicking, emitClientStatus, armTimer. quieten. Qed.

Lemma quiet_events e : is_call e = false -> (forall id, e <> TimerFires id) -> quiet (handle e).
Proof.
  intros Hc Ht. destruct e as [r| |id|l|l ok|tick work|id]; [done..|by destruct (Ht id)| | | |]; simpl.
  - unfold onLoadStart. quieten.
  - unfold onLoadEnd, emitClientStatus. quieten.
  - unfold onTickEnd, finish_task, emitClientStatus. apply quiet_bind; [destruct work; quieten|intros _]. quieten.
  - unfold onStopEnd. quieten.
Qed.

Lemma quiet_stop : quiet stop.
Proof. unfold stop. quieten. Qed.

Lemma quiet_spends m : quiet m -> spends m.
Proof. intros Hm s. destruct (Hm s) as [-> Hr]. unfold wants_sync. by rewrite Hr. Qed.

Lemma spends_events e : is_call e = false -> spends (handle e).
Proof.
  intros Hc. destruct e as [r| |id|l|l ok|tick work|id]; [done..| | | | |]; [|by apply quiet_spends, quiet_events..].
  intros s. simpl. unfold onTimer, run_tick, begin_work, wants_sync. js_simpl.
  destruct (tasks s) as [|task rest] eqn:Ht; simpl; [|destruct (startSyncRequested s) eqn:Hr; simpl; rewrite ?Hr; lia].
  destruct (startSyncRequested s) eqn:Hr; simpl; rewrite ?Hr; simpl; lia.
Qed.
(** What a handler may do: the starts it leads to and the request it leaves are covered by
    the request before it and those it makes. *)
Definition covered (made : nat) (m : LM unit) : Prop :=
  forall c, (starts (emits (m c)) + requested (post (m c)) <= requested c + made)%nat.

Lemma starts_app w w' : starts (w ++ w') = (starts w + starts w')%nat.
Proof. unfold starts. by rewrite List.filter_app, length_app. Qed.

Lemma starts_extension w : starts (map ByExtension w) = length (List.filter is_start_out w).
Proof. unfold starts. induction w as [|o w IH]; simpl; [done|]. destruct o; simpl; by rewrite ?IH. Qed.

Lemma covered_bind a b (m : LM unit) (k : unit -> LM unit) : covered a m -> (forall u, covered b (k u)) -> covered (a + b) (m ≫= k).
Proof.
  intros Hm Hk c. specialize (Hm c). unfold mbind, JS_mbind, js_bind.
  destruct (m c) as [[u|e] c' w]; simpl in *; [|lia].
  specialize (Hk u c'). destruct (k u c') as [r c'' w']; simpl in *. rewrite starts_app. lia.
Qed.

Lemma covered_then (m : LM unit) (k : unit -> LM unit) : covered 0 m -> (forall u, covered 0 (k u)) -> covered 0 (m ≫= k).
Proof. apply (covered_bind 0 0). Qed.

Lemma covered_get n (k : client -> LM unit) : (forall c, covered n (k c)) -> covered n (js_get ≫= k).
Proof. intros Hk c. specialize (Hk c c). unfold mbind, JS_mbind, js_bind, js_get. by destruct (k c c). Qed.

Lemma covered_return : covered 0 js_return.
Proof. intros c. simpl. lia. Qed.

Lemma covered_emit o : is_start o = false -> covered 0 (js_emit true o).
Proof. intros Ho c. unfold starts. simpl. rewrite Ho. simpl. lia. Qed.

Lemma covered_calls f : covered 0 (js_modify (fun c => mkClient (extension c) (f (stop_calls c)))).
Proof. intros c. unfold requested. simpl. lia. Qed.

Lemma covered_extension m : spends m -> covered 0 (on_extension m).
Proof.
  intros Hm c. unfold on_extension, requested. destruct (extension c) as [s|] eqn:He; simpl; [|rewrite He; simpl; lia].
  rewrite starts_extension. specialize (Hm s). lia.
Qed.

Lemma spends_stopSync : spends (setStartSyncRequested false).
Proof. intros s. unfold wants_sync. simpl. lia. Qed.

Lemma request_quiet s :
  List.filter is_start_out (emits (setStartSyncRequested true s)) = []
  /\ startSyncRequested (post (setStartSyncRequested true s)) = true.
Proof.
  pose proof (unrequested_checkStartTicking (set_startSyncRequested true s)) as [H1 H2].
  unfold setStartSyncRequested, js_when, mbind, JS_mbind, js_bind, js_modify. cbn.
  by destruct (checkStartTicking (set_startSyncRequested true s)).
Qed.

Lemma covered_request : covered 1 (on_extension (setStartSyncRequested true)).
Proof.
  intros c. unfold on_extension, requested. destruct (extension c) as [s|] eqn:He; [|cbn [post]; rewrite He; simpl; lia].
  cbn [post emits extension from_option]. rewrite starts_extension. destruct (request_quiet s) as [-> Hr]. unfold wants_sync. rewrite Hr. simpl. lia.
Qed.

Lemma covered_startSync : covered 1 startSync.
Proof.
  apply covered_get. intros self. apply (covered_bind 0 1); [|intros _; apply covered_request].
  intros c. unfold js_check, js_lift, starts. simpl. lia.
Qed.

Lemma covered_stopSync : covered 0 stopSync.
Proof. apply covered_then; [apply covered_extension, spends_stopSync|intros _; by apply covered_emit]. Qed.

Lemma covered_loading i : covered 0 (onLoadingStopped i).
Proof. apply covered_then; [apply covered_stopSync|intros _; apply (covered_calls (fun l => <[i := AwaitsSync]> l))]. Qed.

Lemma covered_for {A} (l : list A) f : (forall x, covered 0 (f x)) -> covered 0 (js_for l f).
Proof. intros Hf. induction l as [|x l IH]; simpl; [apply covered_return|]. apply covered_then; [apply Hf|intros _; apply IH]. Qed.

Lemma covered_handle x : covered (if is_request x then 1 else 0) (handle_client x).
Proof.
  unfold handle_client. apply covered_get. intros self.
  destruct x as [| | |i|i|e]; simpl.
  - apply covered_startSync.
  - apply covered_stopSync.
  - apply covered_then; [by apply covered_emit|intros _; apply (covered_calls (fun l => l ++ [AwaitsDecryption]))].
  - case_decide; [|apply covered_return]. apply covered_get. intros c.
    apply covered_then; [apply covered_extension, quiet_spends, quiet_stop|intros _].
    destruct (extension c ≫= inProgressTick); [apply (covered_calls (fun l => <[i := AwaitsLoading _]> l))|apply covered_loading].
  - case_decide; [apply (covered_calls (fun l => <[i := Stopped]> l))|apply covered_return].
  - destruct (is_call e) eqn:He; [apply covered_return|].
    apply covered_then; [by apply covered_extension, spends_events|intros _].
    destruct e; try apply covered_return. apply covered_for, covered_loading.
Qed.
Lemma try_covered n m : covered n m -> covered n (js_try m (fun _ => js_return)).
Proof.
  intros Hm c. specialize (Hm c). unfold js_try. destruct (m c) as [[u|e] c' w]; simpl in *; [lia|]. rewrite app_nil_r. lia.
Qed.

Lemma run_covered xs : covered (requests xs) (run_client xs).
Proof.
  unfold run_client, requests. induction xs as [|x xs IH]; simpl; [apply covered_return|].
  pose proof (covered_bind _ _ _ _ (try_covered _ _ (covered_handle x)) (fun _ => IH)) as Hb.
  destruct (is_request x); exact Hb.
Qed.

(** After these handlers nothing is requested. *)
Lemma stopSync_unrequested c : requested (post (stopSync c)) = 0%nat.
Proof. unfold stopSync, on_extension, requested. js_simpl. destruct (extension c) eqn:He; simpl; by rewrite ?He. Qed.

Lemma loading_unrequested i c : requested (post (onLoadingStopped i c)) = 0%nat.
Proof. unfold onLoadingStopped, stopSync, enter, on_extension, requested. js_simpl. destruct (extension c) eqn:He; simpl; by rewrite ?He. Qed.

Lemma loadings_unrequested l c :
  l <> [] -> requested (post (js_for l onLoadingStopped c)) = 0%nat.
Proof.
  intros Hl.
  assert (forall l c, requested c = 0%nat -> requested (post (js_for l onLoadingStopped c)) = 0%nat) as Hkeep.
  { intros l' c' Hc. pose proof (covered_for l' onLoadingStopped covered_loading c'). lia. }
  destruct l as [|i l]; [done|]. simpl. unfold mbind, JS_mbind, js_bind.
  pose proof (loading_unrequested i c) as Hi. destruct (onLoadingStopped i c) as [[u|e] c' w]; simpl in *; [|done].
  specialize (Hkeep l c' Hi). by destruct (js_for l onLoadingStopped c').
Qed.
Lemma on_extension_calls m c : stop_calls (post (on_extension m c)) = stop_calls c.
Proof. unfold on_extension. by destruct (extension c). Qed.

(** The sync is being stopped: by [stopSync], or by a call of [stop] that comes to it. *)
Definition stops_sync (c : client) (x : happening) : Prop :=
  x = CallStopSync
  \/ exists i, stop_calls (post (handle_client x c)) !! i = Some AwaitsSync /\ stop_calls c !! i <> Some AwaitsSync.

Lemma post_get (k : client -> LM unit) c : post ((js_get ≫= k) c) = post (k c c).
Proof. unfold mbind, JS_mbind, js_bind, js_get. by destruct (k c c). Qed.

Lemma post_then (m : LM unit) (k : unit -> LM unit) c :
  post ((m ≫= k) c) = match res (m c) with Ok u => post (k u (post (m c))) | Throw _ => post (m c) end.
Proof. unfold mbind, JS_mbind, js_bind. destruct (m c) as [[u|e] c' w]; simpl; [by destruct (k u c')|done]. Qed.

Lemma stops_unrequested c x : stops_sync c x -> requested (post (handle_client x c)) = 0%nat.
Proof.
  intros [->|(i & Hi & Hold)]; [unfold handle_client; rewrite post_get; apply stopSync_unrequested|]. revert Hi.
  unfold handle_client. rewrite !post_get. destruct x as [| | |j|j|e].
  - unfold startSync. rewrite post_get, post_then. case_match; [rewrite on_extension_calls|]; done.
  - intros _. apply stopSync_unrequested.
  - simpl. intros Hi. apply lookup_app_Some in Hi as [Hi|[_ Hi]]; [done|]. by apply list_lookup_singleton_Some in Hi as [_ Hi].
  - case_decide; [|done]. unfold onDecryptionStopped. rewrite post_get, post_then. case_match; [|by rewrite on_extension_calls].
    destruct (extension c ≫= inProgressTick); [|intros _; apply loading_unrequested].
    simpl. rewrite on_extension_calls. intros Hi. by apply list_lookup_insert_Some in Hi as [(_ & ? & _)|[_ Hi]].
  - case_decide; [|done]. simpl. intros Hi. by apply list_lookup_insert_Some in Hi as [(_ & ? & _)|[_ Hi]].
  - destruct (is_call e); [done|]. rewrite post_then. case_match; [|by rewrite on_extension_calls].
    destruct e as [r| |k|l|l ok|tick work|k]; simpl; rewrite ?on_extension_calls; try done.
    destruct (waiting_for k 0 (stop_calls c)) as [|j l] eqn:Hw; [simpl; by rewrite on_extension_calls|].
    intros _. by apply loadings_unrequested.
Qed.

(** C17: the sync loop is started only when that was asked for: every start of the sync
    answers one call of [startSync]. Once the sync is being stopped, by [stopSync] or in
    the course of [stop], ticks of the loader that are still running do not start it
    again; only a new call of [startSync] does. *)
Theorem sync_started_on_request c xs :
  (starts (emits (run_client xs c)) <= requested c + requests xs)%nat
  /\ forall x, stops_sync c x -> requests xs = 0%nat -> starts (emits (run_client xs (post (handle_client x c)))) = 0%nat.
Proof.
  split; [pose proof (run_covered xs c); lia|].
  intros x Hx Hxs. pose proof (run_covered xs (post (handle_client x c))) as Hr. rewrite (stops_unrequested c x Hx), Hxs in Hr. lia.
Qed.
End Lifecycle.

(** ** A run *)

Definition demo_client : client := mkClient (Some (started_with [] [])) [].

Definition demo_tick (k : nat) (task : Task) : list happening :=
  [OfExtension (TimerFires k); OfExtension (TickEnds k (RunsTask task))].

Definition demo_loading : list happening :=
  demo_tick 0 loadHighPriorityStreams ++ demo_tick 1 loadStreamsFromPersistence ++ demo_tick 2 loadStreamsFromNetwork.

Example sync_starts_after_loading :
  starts (emits (run_client (CallStartSync :: demo_loading ++ [OfExtension (TimerFires 3)]) demo_client)) = 1%nat.
Proof. vm_compute. reflexivity. Qed.

(** A client that is stopped during the first tick: the loader goes on, the sync is not
    started. *)
Example stopped_while_loading :
  let o := run_client ([CallStartSync; OfExtension (TimerFires 0); CallStopClient; DecryptionStopped 0;
                        OfExtension (TickEnds 0 (RunsTask loadHighPriorityStreams)); OfExtension (StopEnds 0)]
                       ++ demo_tick 1 loadStreamsFromPersistence ++ demo_tick 2 loadStreamsFromNetwork) demo_client in
  starts (emits o) = 0%nat /\ stop_calls (post o) = [AwaitsSync] /\ StreamsStopSync ∈ emits o
  /\ length (List.filter (fun c => match c with ByExtension (EmitClientInitStatus _) => true | _ => false end) (emits o)) = 4%nat.
Proof. vm_compute. split_and!; [done..| |done]. repeat (apply list_elem_of_here || apply list_elem_of_further). Qed.
