(* ===== verification/RiverConfig.v ===== *)
(** * The configuration of the chains (core/sdk/src/riverConfig.ts, core/web3/src/IStaticContractsInfo.ts)

    Which contracts and RPC urls a client uses is decided by the environment variable
    RIVER_ENV: a deployment that is built in, or one put together from environment
    variables. The variables are a function, the generated table of deployments is a
    parameter. *)

From stdpp Require Import pretty.
From S2P Require Import Prelude Proto Externals Binary RpcClient.

(** ** IStaticContractsInfo.ts *)

Record BaseChainConfig := mkBaseChainConfig {
  base_chainId : option Z; (* [None] is NaN *)
  base_contractVersion : string;
  spaceFactory : string;
  spaceOwner : string;
  mockNFT : option string;
  member : option string;
}.

Record RiverChainConfig := mkRiverChainConfig {
  river_chainId : option Z;
  river_contractVersion : string;
  riverRegistry : string;
}.

Record Web3Deployment := mkWeb3Deployment { wd_base : BaseChainConfig; wd_river : RiverChainConfig }.

(** ** [parseInt] without a radix, on numbers that a double holds exactly *)

Definition digit_value (c : Ascii.ascii) : Z :=
  let n := Z.of_nat (Ascii.nat_of_ascii c) in
  if (48 <=? n) && (n <=? 57) then n - 48
  else if (97 <=? n) && (n <=? 122) then n - 87
  else if (65 <=? n) && (n <=? 90) then n - 55
  else 99.

Fixpoint parse_digits (radix : Z) (s : string) (acc : option Z) : option Z :=
  match s with
  | EmptyString => acc
  | String c s =>
      let d := digit_value c in
      if d <? radix then parse_digits radix s (Some (default 0 acc * radix + d)) else acc
  end.

Definition parse_unsigned (s : string) : option Z :=
  if startsWith s "0x" || startsWith s "0X" then parse_digits 16 (slice_from 2 s) None else parse_digits 10 s None.

Definition parseInt (s : string) : option Z :=
  let s := trimStart s in
  if startsWith s "-" then Z.opp <$> parse_unsigned (slice_from 1 s)
  else if startsWith s "+" then parse_unsigned (slice_from 1 s)
  else parse_unsigned s.

Definition show_chainId (chainId : option Z) : string := from_option pretty "NaN" chainId.

(** ** riverConfig.ts *)

Section Config.
(** [process.env] and the generated table. *)
Context (env : string -> option string) (deployments : jsmap Web3Deployment).

Definition getWeb3Deployments : list string := jm_keys deployments.

Definition getWeb3Deployment (riverEnv : string) : result Web3Deployment :=
  match jm_get riverEnv deployments with
  | Some d => Ok d
  | None => Throw (JsError ("Deployment " +:+ riverEnv +:+ " not found, available environments: " +:+ String.concat ", " getWeb3Deployments))
  end.

Definition getEnvironmentId : string := default "local_single" (truthy_str (env "RIVER_ENV")).

Definition getBaseRpcUrlForChain (chainId : option Z) : result string :=
  match truthy_str (env "BASE_CHAIN_RPC_URL") with
  | Some url => Ok url
  | None =>
      match chainId with
      | Some 31337 => Ok "http://localhost:8545"
      | Some 84532 => Ok "https://sepolia.base.org"
      | _ => Throw (JsError ("No preset RPC url for base chainId " +:+ show_chainId chainId))
      end
  end.

Definition getRiverRpcUrlForChain (chainId : option Z) : result string :=
  match truthy_str (env "RIVER_CHAIN_RPC_URL") with
  | Some url => Ok url
  | None =>
      match chainId with
      | Some 31338 => Ok "http://localhost:8546"
      | Some 6524490 => Ok "https://devnet.rpc.river.build"
      | _ => Throw (JsError ("No preset RPC url for river chainId " +:+ show_chainId chainId))
      end
  end.

(** [check(isDefined(process.env.X), 'X is not defined')], and the value. *)
Definition defined_var (name : string) : result string :=
  _ ← check (isDefined (env name)) (Some (name +:+ " is not defined")) None;
  Ok (default "" (env name)).

Definition makeWeb3Deployment (environmentId : string) : result Web3Deployment :=
  if decide (environmentId ∈ getWeb3Deployments) then getWeb3Deployment environmentId
  else
    baseChainId ← defined_var "BASE_CHAIN_ID";
    _ ← defined_var "BASE_CHAIN_RPC_URL";
    spaceFactory ← defined_var "SPACE_FACTORY_ADDRESS";
    spaceOwner ← defined_var "SPACE_OWNER_ADDRESS";
    riverChainId ← defined_var "RIVER_CHAIN_ID";
    _ ← defined_var "RIVER_CHAIN_RPC_URL";
    riverRegistry ← defined_var "RIVER_REGISTRY_ADDRESS";
    let contractVersion := default "dev" (env "CONTRACT_VERSION") in
    Ok (mkWeb3Deployment
          (mkBaseChainConfig (parseInt baseChainId) contractVersion spaceFactory spaceOwner (env "MOCK_NFT_ADDRESS") (env "MEMBER_ADDRESS"))
          (mkRiverChainConfig (parseInt riverChainId) contractVersion riverRegistry)).

Definition makeRiverChainConfig (environmentId : option string) : result (string * RiverChainConfig) :=
  deployment ← makeWeb3Deployment (default getEnvironmentId environmentId);
  rpcUrl ← getRiverRpcUrlForChain (river_chainId (wd_river deployment));
  Ok (rpcUrl, wd_river deployment).

Definition makeBaseChainConfig (environmentId : option string) : result (string * BaseChainConfig) :=
  deployment ← makeWeb3Deployment (default getEnvironmentId environmentId);
  rpcUrl ← getBaseRpcUrlForChain (base_chainId (wd_base deployment));
  Ok (rpcUrl, wd_base deployment).

Definition makeRiverConfig : result (string * (string * BaseChainConfig) * (string * RiverChainConfig)) :=
  let environmentId := getEnvironmentId in
  base ← makeBaseChainConfig (Some environmentId);
  river ← makeRiverChainConfig (Some environmentId);
  Ok (environmentId, base, river).

(** ** Properties *)

Definition required_vars : list string :=
  ["BASE_CHAIN_ID"; "BASE_CHAIN_RPC_URL"; "SPACE_FACTORY_ADDRESS"; "SPACE_OWNER_ADDRESS"; "RIVER_CHAIN_ID"; "RIVER_CHAIN_RPC_URL";
   "RIVER_REGISTRY_ADDRESS"].

Definition missing (name : string) : bool := negb (is_defined (env name)).

(** Where the parts of a configuration come from: the built-in deployment of this name, or
    the variables. *)
Definition deployed (environmentId : string) (d : Web3Deployment) : Prop :=
  match jm_get environmentId deployments with
  | Some d' => d = d'
  | None =>
      Forall (fun name => missing name = false) required_vars
      /\ Some (spaceFactory (wd_base d)) = env "SPACE_FACTORY_ADDRESS" /\ Some (spaceOwner (wd_base d)) = env "SPACE_OWNER_ADDRESS"
      /\ Some (riverRegistry (wd_river d)) = env "RIVER_REGISTRY_ADDRESS"
      /\ mockNFT (wd_base d) = env "MOCK_NFT_ADDRESS" /\ member (wd_base d) = env "MEMBER_ADDRESS"
      /\ base_contractVersion (wd_base d) = default "dev" (env "CONTRACT_VERSION")
      /\ river_contractVersion (wd_river d) = default "dev" (env "CONTRACT_VERSION")
      /\ base_chainId (wd_base d) = env "BASE_CHAIN_ID" ≫= parseInt /\ river_chainId (wd_river d) = env "RIVER_CHAIN_ID" ≫= parseInt
  end.

(** The url of a chain: the variable wins over the preset of the chain. *)
Definition rpc_url (var : string) (presets : list (Z * string)) (chainId : option Z) (url : string) : Prop :=
  match truthy_str (env var) with
  | Some u => url = u
  | None => exists id, chainId = Some id /\ (id, url) ∈ presets
  end.

Definition base_presets : list (Z * string) := [(31337, "http://localhost:8545"); (84532, "https://sepolia.base.org")].
Definition river_presets : list (Z * string) := [(31338, "http://localhost:8546"); (6524490, "https://devnet.rpc.river.build")].

Lemma jm_keys_get {V} k (m : jsmap V) : k ∈ jm_keys m <-> is_Some (jm_get k m).
Proof. rewrite <- not_eq_None_Some, jm_get_None. split; [auto|]. intros Hk. by destruct (decide (k ∈ jm_keys m)). Qed.

Lemma deployment_spec environmentId d : makeWeb3Deployment environmentId = Ok d <-> deployed environmentId d.
Proof.
  unfold makeWeb3Deployment, deployed, getWeb3Deployments, getWeb3Deployment.
  case_decide as Hin; rewrite jm_keys_get in Hin.
  - destruct Hin as [d' ->]. split; congruence.
  - apply eq_None_not_Some in Hin as ->. unfold defined_var, required_vars, missing, check, isDefined.
    destruct d as [[? ? ? ? ? ?] [? ? ?]]. rewrite !Forall_cons, Forall_nil. simpl.
    let step v := (destruct (env v); simpl; [|split; [done|intros (Hf & _); intuition congruence]]) in
    step "BASE_CHAIN_ID"; step "BASE_CHAIN_RPC_URL"; step "SPACE_FACTORY_ADDRESS"; step "SPACE_OWNER_ADDRESS";
    step "RIVER_CHAIN_ID"; step "RIVER_CHAIN_RPC_URL"; step "RIVER_REGISTRY_ADDRESS".
    split; [intros; simplify_eq; by split_and!|]. intros (_ & ? & ? & ? & ? & ? & ? & ? & ? & ?). by simplify_eq.
Qed.

Lemma base_url_spec chainId url : getBaseRpcUrlForChain chainId = Ok url <-> rpc_url "BASE_CHAIN_RPC_URL" base_presets chainId url.
Proof.
  unfold getBaseRpcUrlForChain, rpc_url, base_presets. destruct (truthy_str _); [naive_solver|]. split.
  - intros Hu. destruct chainId as [id|]; [|done]. exists id. split; [done|]. repeat (case_match; try discriminate); simplify_eq; set_solver.
  - intros (id & -> & Hin). rewrite !elem_of_cons, elem_of_nil in Hin. by destruct Hin as [[= -> ->]|[[= -> ->]|[]]].
Qed.

Lemma river_url_spec chainId url : getRiverRpcUrlForChain chainId = Ok url <-> rpc_url "RIVER_CHAIN_RPC_URL" river_presets chainId url.
Proof.
  unfold getRiverRpcUrlForChain, rpc_url, river_presets. destruct (truthy_str _); [naive_solver|]. split.
  - intros Hu. destruct chainId as [id|]; [|done]. exists id. split; [done|]. repeat (case_match; try discriminate); simplify_eq; set_solver.
  - intros (id & -> & Hin). rewrite !elem_of_cons, elem_of_nil in Hin. by destruct Hin as [[= -> ->]|[[= -> ->]|[]]].
Qed.

Lemma missing_reported environmentId name :
  jm_get environmentId deployments = None -> head (List.filter missing required_vars) = Some name ->
  makeWeb3Deployment environmentId = Throw (CodeException (name +:+ " is not defined") Err_ERR_UNSPECIFIED).
Proof.
  intros Hd. unfold makeWeb3Deployment, getWeb3Deployments. rewrite decide_False by (rewrite jm_keys_get, Hd; by intros [? ?]).
  unfold required_vars, missing, defined_var, check, isDefined. simpl.
  let step v := (destruct (env v); simpl; [|by intros [= <-]]) in
  step "BASE_CHAIN_ID"; step "BASE_CHAIN_RPC_URL"; step "SPACE_FACTORY_ADDRESS"; step "SPACE_OWNER_ADDRESS";
  step "RIVER_CHAIN_ID"; step "RIVER_CHAIN_RPC_URL"; step "RIVER_REGISTRY_ADDRESS".
  done.
Qed.

(** Which chains a client talks to. The configuration exists exactly when the
    deployment named by RIVER_ENV is built in, or all variables of a deployment are set,
    and both urls are known; it then has the contracts of that deployment and for both
    chains the url of the variable, or that of the preset of the chain's id. Without a
    built-in deployment the first variable that is missing is named. *)
Theorem river_config_resolved :
  (forall id baseUrl base riverUrl river,
     makeRiverConfig = Ok (id, (baseUrl, base), (riverUrl, river)) <->
       id = getEnvironmentId /\ deployed id (mkWeb3Deployment base river)
       /\ rpc_url "BASE_CHAIN_RPC_URL" base_presets (base_chainId base) baseUrl
       /\ rpc_url "RIVER_CHAIN_RPC_URL" river_presets (river_chainId river) riverUrl)
  /\ (forall name, jm_get getEnvironmentId deployments = None -> head (List.filter missing required_vars) = Some name ->
        makeRiverConfig = Throw (CodeException (name +:+ " is not defined") Err_ERR_UNSPECIFIED)).
Proof.
  split.
  - intros id baseUrl base riverUrl river. rewrite <- deployment_spec, <- base_url_spec, <- river_url_spec.
    unfold makeRiverConfig, makeBaseChainConfig, makeRiverChainConfig. simpl.
    destruct (makeWeb3Deployment getEnvironmentId) as [[b r]|e] eqn:Hd; simpl; [|split; [done|]; intros (-> & Hd' & _); congruence].
    destruct (getBaseRpcUrlForChain (base_chainId b)) as [bu|e] eqn:Hb; simpl;
      [|split; [done|]; intros (-> & Hd' & Hb' & _); rewrite Hd in Hd'; injection Hd' as -> ->; congruence].
    destruct (getRiverRpcUrlForChain (river_chainId r)) as [ru|e] eqn:Hr; simpl.
    + split; [intros; by simplify_eq|]. intros (-> & Hd' & Hb' & Hr'). rewrite Hd in Hd'.
      injection Hd' as -> ->. congruence.
    + split; [done|]. intros (-> & Hd' & Hb' & Hr'). rewrite Hd in Hd'. injection Hd' as -> ->. congruence.
  - intros name Hd Hn. unfold makeRiverConfig, makeBaseChainConfig. simpl. by rewrite (missing_reported _ _ Hd Hn).
Qed.
End Config.

(** An environment that is not built in, with one variable missing and with all of them. *)
Definition demo_env (registry : option string) (name : string) : option string :=
  if String.eqb name "RIVER_ENV" then Some "mine"
  else if String.eqb name "BASE_CHAIN_ID" then Some "31337"
  else if String.eqb name "RIVER_CHAIN_ID" then Some " 31338 "
  else if String.eqb name "RIVER_REGISTRY_ADDRESS" then registry
  else if existsb (String.eqb name) ["BASE_CHAIN_RPC_URL"; "RIVER_CHAIN_RPC_URL"] then Some ""
  else if existsb (String.eqb name) required_vars then Some "0x00" else None.

Example demo_config :
  makeRiverConfig (demo_env None) [] = Throw (CodeException "RIVER_REGISTRY_ADDRESS is not defined" Err_ERR_UNSPECIFIED)
  /\ makeRiverConfig (demo_env (Some "0x01")) []
     = Ok ("mine", ("http://localhost:8545", mkBaseChainConfig (Some 31337) "dev" "0x00" "0x00" None None),
           ("http://localhost:8546", mkRiverChainConfig (Some 31338) "dev" "0x01")).
Proof. vm_compute. done. Qed.
