(* ===== verification/MessageTravel.v ===== *)
(** * A message from sender to receiver

    The way of a channel message through the components: the sender encrypts it
    ([GroupEncryption]), puts it into a payload ([Payloads]), signs the event ([Sign]);
    the receiver unpacks the envelope ([Sign]), appends the event to its view
    ([StreamStateView]), which announces that there is something to decrypt, decrypts it
    with the session key it was given ([GroupEncryption]) and shows it. *)

From S2P Require Import Prelude Proto Externals ToyExternals Binary StreamId Types Content Channel StreamStateView Timeline StreamView Sign Envelopes Payloads ClientSend CryptoStore Olm EncryptionDevice GroupEncryption GroupMessages DecryptionQueues.

Section View.
Context `{Externals}.

(** A message that is not decrypted yet is announced by the content of the channel. *)
Lemma channel_announces c ev data :
  event_payload ev = Some (make_ChannelPayload_Message data) ->
  Channel.appendEvent None true true (c, ev)
    = Outcome (Ok tt) (Channel.set_reached c, ev)
        [newEncryptedContent (Channel.streamId c) (te_hashStr ev) (mkEncryptedContent Kind_channelMessage data)].
Proof. intros Hp. unfold Channel.appendEvent, decryptEvent. js_unfold. simpl. rewrite Hp. reflexivity. Qed.

(** A channel message that is new to the view. *)
Lemma append_message p cookie v c data :
  se_payload (pe_event p) = Some (make_ChannelPayload_Message data) -> content v = C_channel c -> events v !! pe_hashStr p = None ->
  let o := appendEvents [p] cookie None true v in
  let r := next_ref v in
  res o = Ok tt
  /\ timeline (post o) = timeline v ++ [r] /\ events (post o) !! pe_hashStr p = Some r
  /\ heap (post o) !! r = Some (makeRemoteTimelineEvent p (lastEventNum v) None None)
  /\ (newEncryptedContent (Channel.streamId c) (pe_hashStr p) (mkEncryptedContent Kind_channelMessage data) ∈ emits o)
  /\ exists c', content (post o) = C_channel c'.
Proof.
  intros Hp Hc He. cbv zeta. destruct v as [sid uid cnt hp nr tl evs ini snap pmh lnum psm mbi ck mem]. simpl in Hc, He. subst cnt.
  match goal with |- context [appendEvents [p] cookie None true ?v] =>
    eassert (appendEvents [p] cookie None true v = Outcome (Ok tt) _ _) as Hrun end.
  { unfold appendEvents, appendStreamAndCookie, appendLoop, appendOne, processAppendedEvent, appendPayload, content_with_event,
      deref, alloc, nextEventNum.
    js_unfold. cbn -[alter insert lookup Channel.appendEvent]. rewrite He.
    cbn -[alter insert lookup Channel.appendEvent].
    rewrite lookup_insert_eq. cbn -[alter insert lookup Channel.appendEvent]. rewrite He.
    cbn -[alter insert lookup Channel.appendEvent]. unfold js_try. cbn -[alter insert lookup Channel.appendEvent].
    rewrite ?lookup_insert_eq. cbn -[alter insert lookup Channel.appendEvent].
    unfold event_payload. cbn -[alter insert lookup Channel.appendEvent].
    rewrite Hp. cbn -[alter insert lookup Channel.appendEvent]. rewrite ?lookup_insert_eq.
    cbn -[alter insert lookup Channel.appendEvent]. rewrite (channel_announces c (makeRemoteTimelineEvent p lnum None None) data Hp). reflexivity. }
  rewrite Hrun. cbn -[alter insert lookup]. split_and!; [done|done|apply lookup_insert_eq|apply lookup_insert_eq| |by eexists].
  set_solver.
Qed.

(** The decrypted message is shown at its event. *)
Lemma show_message v c r ev eventId msg :
  content v = C_channel c -> events v !! eventId = Some r -> heap v !! r = Some ev -> is_defined (te_remoteEvent ev) = true ->
  let o := updateDecryptedContent eventId (DecryptedContent_ChannelMessage msg) true v in
  res o = Ok tt /\ timeline (post o) = timeline v
  /\ heap (post o) !! r = Some (te_set_decryptedContent (Some (DecryptedContent_ChannelMessage msg)) ev).
Proof.
  intros Hc He Hr Hrem. cbv zeta. destruct v as [sid uid cnt hp nr tl evs ini snap pmh lnum psm mbi ck mem].
  simpl in Hc, He, Hr. subst cnt.
  match goal with |- context [updateDecryptedContent eventId ?m true ?v] =>
    eassert (updateDecryptedContent eventId m true v = Outcome (Ok tt) _ _) as Hrun end.
  { unfold updateDecryptedContent, assign, deref, Members.onDecryptedContent. js_unfold. cbn -[alter insert lookup].
    rewrite He. cbn -[alter insert lookup]. rewrite lookup_alter_eq, Hr. cbn -[alter insert lookup].
    unfold isDecryptedEvent. cbn -[alter insert lookup]. destruct ev; simpl in *. rewrite Hrem. reflexivity. }
  rewrite Hrun. cbn -[alter insert lookup]. split_and!; [done|done|]. by rewrite lookup_alter_eq, Hr.
Qed.
End View.

Section Travel.
Context `{Externals, Crypto, !CryptoLaws, !EqualsBytesLaws, !KeccakLaws, !AddressLaws, !EventBinaryLaws} `{OlmLaws}.
Context validKey getPublicKey `{!KeyPairLaws validKey getPublicKey}.

Lemma reference_ignored s ref data b : decryptGroupEvent s (set_refEventId ref data) b = decryptGroupEvent s data b.
Proof. reflexivity. Qed.

(** Receiver [b], which has no key of the session, reads the text once it has imported the
    key that a sender in state [a] exports, and whenever later. *)
Definition readable_with_key (s json : string) (data : EncryptedData) (a : DeviceState) : Prop :=
  exists key, (exportInboundGroupSession s (ed_sessionId data) a : outcome CryptoEvent _ _) = Outcome (Ok (Some key)) a []
    /\ forall b, delegate_initialized b = true -> own_sessions_ok b -> inbound b !! (s, ed_sessionId data) = None ->
       forall b2, rtc crypto_step (post (importSessionKeys s [key] b)) b2 -> res (decryptGroupEvent s data b2) = Ok json.

(** The view [v] takes the event, announces it as encrypted, and shows the message at the
    end of its timeline when it is told what it says. *)
Definition shown_as (p : ParsedEvent) (data : EncryptedData) (json : string) (msg : ChannelMessage) (c : Channel.t)
    (cookie : SyncCookie) (v : StreamStateView.t) : Prop :=
  let o := appendEvents [p] cookie None true v in
  res o = Ok tt
  /\ (newEncryptedContent (Channel.streamId c) (pe_hashStr p) (mkEncryptedContent Kind_channelMessage data) ∈ emits o)
  /\ exists decrypted, toDecryptedContent Kind_channelMessage json = Ok decrypted
  /\ let o2 := updateDecryptedContent (pe_hashStr p) decrypted true (post o) in
     res o2 = Ok tt
     /\ exists r ev, timeline (post o2) = timeline v ++ [r] /\ heap (post o2) !! r = Some ev
          /\ te_hashStr ev = pe_hashStr p /\ te_creatorUserId ev = pe_creatorUserId p
          /\ te_decryptedContent ev = Some (DecryptedContent_ChannelMessage msg).

Lemma message_shown p data json msg c cookie v :
  se_payload (pe_event p) = Some (make_ChannelPayload_Message data) -> content v = C_channel c -> events v !! pe_hashStr p = None ->
  ChannelMessage_fromJsonString json = Ok msg -> shown_as p data json msg c cookie v.
Proof.
  intros Hp Hc He Hj. destruct (append_message p cookie v c data Hp Hc He) as (Hr & Ht & He2 & Hh & Hem & c' & Hc').
  unfold shown_as. cbv zeta. split; [done|]. split; [done|]. eexists. split; [simpl; by rewrite Hj|].
  destruct (show_message _ _ _ _ _ msg Hc' He2 Hh eq_refl) as (Hr2 & Ht2 & Hh2).
  split; [done|]. eexists _, _. split; [by rewrite Ht2, Ht|]. by split; [done|].
Qed.

(** C11: a channel message arrives. A device that was started encrypts the text of the
    message, the event with it is signed with a delegated key and accepted by whoever
    unpacks it, with the user it is from; every view of the channel that does not have
    the event yet takes it, announces it as encrypted and, told the text, shows the
    message last in its timeline; and every device without the session's key that
    imports the key the sender exports, then or later, decrypts the event to that text. *)
Theorem message_travels client s json msg ref a primary pub wallet key ms salt now prev :
  ready a -> unused_id a -> own_sessions_ok a -> Z.of_nat (String.length json) <= MAX_PLAINTEXT_LENGTH ->
  ChannelMessage_fromJsonString json = Ok msg ->
  signer_of pub primary -> validKey key -> wallet_of key (getPublicKey key) wallet -> 0 <= ms ->
  (forall h, prev = Some h -> length h = 32%nat) ->
  (forall sig data a1 w, encryptGroupEvent client s json a = Outcome (Ok data) a1 w ->
     exists bin, StreamEvent_toBinary (mkStreamEvent (u8_slice_last 20 (keccak256 pub)) sig salt prev now ms
                   (Some (make_ChannelPayload_Message (set_refEventId ref data)))) = Ok bin) ->
  exists data a1 w context env p,
    let data' := set_refEventId ref data in
    encryptGroupEvent client s json a = Outcome (Ok data) a1 w
    /\ makeSignerContext now primary wallet (Some (ExpiryAt ms)) = Ok context
    /\ makeEvent salt now context (Some (make_ChannelPayload_Message data')) prev = Ok env
    /\ unpackEnvelope env false = Ok p
    /\ userIdFromAddress (u8_slice_last 20 (keccak256 pub)) = Ok (pe_creatorUserId p)
    /\ (forall v c cookie, content v = C_channel c -> events v !! pe_hashStr p = None -> shown_as p data' json msg c cookie v)
    /\ (forall a2, rtc crypto_step a1 a2 -> readable_with_key s json data' a2).
Proof.
  intros Hr Hu Ho Hlen Hj Hsign Hk Hw Hms Hprev Hbin.
  destruct (message_readable client s json a Hr Hu Ho Hlen) as (data & a1 & w & Henc & Hread).
  destruct (makeSignerContext_delegates validKey getPublicKey now primary pub wallet key ms Hsign Hk Hw Hms) as (sig & Hne & Hctx & Hsp).
  destruct (Hbin sig data a1 w Henc) as [bin Hb].
  destruct (makeEvent_unpacked validKey getPublicKey salt now (mkSignerContext key (u8_slice_last 20 (keccak256 pub)) (Some sig) (Some ms))
    (make_ChannelPayload_Message (set_refEventId ref data)) prev bin) as (env & p & Hmake & Hun & Hev & Hhash & Huser); try done.
  { apply slice_last_length. rewrite keccak256_length. lia. }
  eexists data, a1, w, _, env, p. split_and!; try done.
  - intros v c cookie Hc He. apply message_shown; try done. by rewrite Hev.
  - intros a2 Hsteps. destruct (Hread a2 Hsteps) as (_ & k & Hexp & Himp). exists k. split; [exact Hexp|].
    intros b Hb1 Hb2 Hb3 b2 Hb4. rewrite reference_ignored. by apply (Himp b Hb1 Hb2 Hb3).
Qed.
End Travel.

(** ** A run *)

#[local] Instance EncryptedData_eq_dec : EqDecision EncryptedData.
Proof. solve_decision. Defined.

Definition demo_message : ChannelMessage := match ChannelMessage_fromJsonString "hello" with Ok m => m | Throw _ => mkChannelMessage None end.

Definition demo_data : EncryptedData :=
  match res (encryptGroupEvent demo_client "20" "hello" demo_device) with
  | Ok data => data
  | Throw _ => mkEncryptedData "" "" "" "" None None
  end.

(** The cryptography of the other examples, with an encoding of the event of this run. *)
#[local] Instance travel_Crypto : Crypto := {|
  assertBytes := @assertBytes toy_Crypto;
  keccak256_updates := @keccak256_updates toy_Crypto;
  signSync := @signSync toy_Crypto;
  verify := @verify toy_Crypto;
  recoverPublicKey := @recoverPublicKey toy_Crypto;
  hashPersonalMessage := @hashPersonalMessage toy_Crypto;
  fromRpcSig := @fromRpcSig toy_Crypto;
  ecrecover := @ecrecover toy_Crypto;
  StreamEvent_toBinary := fun e =>
    match e with
    | mkStreamEvent creator sig [] None 0 0 (Some (Payload_channelPayload (Some (ChannelPayload_message data)))) =>
        if decide (data = demo_data /\ length creator = 20%nat) then Ok (creator ++ sig) else Throw (JsError "not supported")
    | _ => Throw (JsError "not supported")
    end;
  StreamEvent_fromBinary := fun b =>
    Ok (mkStreamEvent (take 20 b) (drop 20 b) [] None 0 0 (Some (make_ChannelPayload_Message demo_data)));
|}.

#[local] Instance travel_CryptoLaws : @CryptoLaws toy travel_Crypto.
Proof. destruct toy_CryptoLaws. by split. Qed.

#[local] Instance travel_KeyPairLaws : @KeyPairLaws travel_Crypto (fun _ => True) toy_publicKey.
Proof. destruct toy_KeyPairLaws. by split. Qed.

#[local] Instance travel_EventBinaryLaws : @EventBinaryLaws travel_Crypto.
Proof.
  split; intros e bin; destruct e as [creator sig [|s0 salt] [prev|] [|z|z] [|z'|z'] [[| | |[[| |]|]| | | | | | |]|]]; try done.
  all: cbn [StreamEvent_toBinary StreamEvent_fromBinary travel_Crypto se_creatorAddress].
  all: case_decide as Hd; [destruct Hd as [-> Hl]|done]; intros [= <-].
  - by rewrite take_app_length', drop_app_length' by done.
  - by destruct creator.
Qed.

Lemma travel_signer : @signer_of toy travel_Crypto demo_creatorPub demo_primary.
Proof. exact demo_signer. Qed.

Lemma message_travels_witness :
  exists data a1 w context env p,
    encryptGroupEvent demo_client "20" "hello" demo_device = Outcome (Ok data) a1 w
    /\ makeSignerContext 0 demo_primary demo_wallet (Some (ExpiryAt 0)) = Ok context
    /\ makeEvent [] 0 context (Some (make_ChannelPayload_Message (set_refEventId None data))) None = Ok env
    /\ unpackEnvelope env false = Ok p
    /\ userIdFromAddress (u8_slice_last 20 (keccak256 demo_creatorPub)) = Ok (pe_creatorUserId p)
    /\ (forall v c cookie, content v = C_channel c -> events v !! pe_hashStr p = None ->
          shown_as p (set_refEventId None data) "hello" demo_message c cookie v)
    /\ (forall a2, rtc crypto_step a1 a2 -> readable_with_key "20" "hello" (set_refEventId None data) a2).
Proof.
  apply (message_travels (fun _ => True) toy_publicKey demo_client "20" "hello" demo_message None demo_device
           demo_primary demo_creatorPub demo_wallet "device" 0 [] 0 None).
  - apply demo_ready.
  - apply demo_ready.
  - apply demo_ready.
  - vm_compute. congruence.
  - reflexivity.
  - exact travel_signer.
  - exact I.
  - split_and!; vm_compute; reflexivity.
  - lia.
  - discriminate.
  - intros sig data a1 w Henc. exists (u8_slice_last 20 (keccak256 demo_creatorPub) ++ sig).
    assert (data = demo_data) as -> by (unfold demo_data; by rewrite Henc). clear Henc.
    assert (set_refEventId None demo_data = demo_data) as -> by (vm_compute; reflexivity).
    cbn [StreamEvent_toBinary travel_Crypto make_ChannelPayload_Message]. by rewrite decide_True.
Defined.
