(* ===== verification/TestGatingNFT.v ===== *)
(** * The gating NFT of tests (core/web3/src/TestGatingNFT.ts)

    Contracts that gate a space in tests are deployed on demand, once per name: callers
    that run at once take turns behind a lock. The lock and the map of the contracts are
    shared objects of the module. A call of [getContractAddress] is a program of [Async];
    a system is the shared state and all the calls that were made, and it steps when a
    new call is made or when a promise that a call waits for is settled. *)

From stdpp Require Import pretty.
From S2P Require Import Prelude Binary DecryptionQueues RpcClient Async.

(** ** Addresses *)

Definition hex_digit (c : Ascii.ascii) : option nat :=
  let n := Ascii.nat_of_ascii c in
  if ((48 <=? n) && (n <=? 57))%nat then Some (n - 48)%nat
  else if ((97 <=? n) && (n <=? 102))%nat then Some (n - 87)%nat
  else if ((65 <=? n) && (n <=? 70))%nat then Some (n - 55)%nat
  else None.

(** The letters of an address are those of hexadecimal numbers. *)
Definition upper_char (c : Ascii.ascii) : Ascii.ascii :=
  let n := Ascii.nat_of_ascii c in
  if ((97 <=? n) && (n <=? 122))%nat then Ascii.ascii_of_nat (n - 32) else c.

Definition checksum_char (h : option Ascii.ascii) (c : Ascii.ascii) : Ascii.ascii :=
  match h ≫= hex_digit with
  | Some d => if (8 <=? d)%nat then upper_char c else lower_char c
  | None => lower_char c
  end.

(** The two texts from the third character on; a hash that is too short gives [NaN]. *)
Fixpoint checksum (hash address : string) : string :=
  match address with
  | EmptyString => ""
  | String c address =>
      match hash with
      | String h hash => String (checksum_char (Some h) c) (checksum hash address)
      | EmptyString => String (checksum_char None c) (checksum "" address)
      end
  end.

(** [/^0x[0-9a-fA-F]+$/.test(value)] *)
Definition isHexString (value : option string) : bool :=
  match value with
  | Some s => startsWith s "0x" && (2 <? String.length s)%nat && str_forallb is_hex_char (slice_from 2 s)
  | None => false
  end.

(** ** The lock and the contracts *)

(** A promise of [lock] is named by the call that made it; [granted] are those that were
    resolved. *)
Record nft := mkNft {
  nftContracts : jsmap string;
  queue : list nat;
  locked : bool;
  granted : list nat;
}.
Definition no_contracts : nft := mkNft [] [] false [].

Definition lock (me : nat) (s : nft) : nft :=
  if locked s then mkNft (nftContracts s) (queue s ++ [me]) true (granted s)
  else mkNft (nftContracts s) (queue s) true (me :: granted s).

Definition unlock (s : nft) : nft :=
  match queue s with
  | next :: rest => mkNft (nftContracts s) rest (locked s) (next :: granted s)
  | [] => mkNft (nftContracts s) [] false (granted s)
  end.

Definition set_contract (name address : string) (s : nft) : nft :=
  mkNft (jm_set name address (nftContracts s)) (queue s) (locked s) (granted s).

(** What the calls await: the lock, and the test client of viem. *)
Inductive ncall :=
| LockPromise (me : nat)
| GetAddresses
| DeployContract (account : option string)
| WaitReceipt (hash : string)
| Mint (contract toAddress : string) (account : option string).
Definition nans (c : ncall) : Type :=
  match c with
  | LockPromise _ => unit
  | GetAddresses => list string
  | DeployContract _ => string
  | WaitReceipt _ => option string
  | Mint _ _ _ => string
  end.

Section TestGatingNFT.
(** [keccak256] of viem on a text, as hexadecimal digits after [0x], and how an error is
    written into a template. *)
Context (keccak256 : string -> string) (show_error : option js_error -> string).

Definition toEIP55Address (address : string) : string :=
  let addressHash := keccak256 (toLowerCase (slice_from 2 address)) in
  "0x" +:+ checksum (slice_from 2 addressHash) (slice_from 2 address).

Definition isEIP55Address (address : string) : bool := String.eqb address (toEIP55Address address).

Abbreviation NftM := (async nft nans).
Definition n_await (c : ncall) : NftM (nans c) := a_await c.

(** ** [getContractAddress] *)

Definition nonce_too_low (e : js_error) : bool :=
  includes (message_of e) "nonce too low" || includes (message_of e) "NonceTooLowError"
  || includes (message_of e) "Nonce provided for the transaction is lower than the current nonce".

(** The block of the inner [try], from its last [await] on, from the one before, and all. *)
Definition await_receipt (nftName hash : string) : NftM unit :=
  contractAddress ← n_await (WaitReceipt hash);
  match truthy_str contractAddress with
  | Some address => a_modify (set_contract nftName (toEIP55Address address))
  | None => a_throw (JsError "Failed to deploy contract")
  end.
Definition deploy_with (nftName : string) (account : option string) : NftM unit :=
  hash ← n_await (DeployContract account);
  await_receipt nftName hash.
Definition deploy (nftName : string) : NftM unit :=
  addresses ← n_await GetAddresses;
  deploy_with nftName (head (A := string) addresses).

(** [while (retryCount++ < 5)], with the attempts that are left. *)
Fixpoint deploy_loop (nftName : string) (attempts retryCount : nat) (lastError : option js_error)
    : NftM (nat * option js_error) :=
  match attempts with
  | O => mret (S retryCount, lastError)
  | S attempts =>
      a_after (deploy nftName) (fun r =>
        match r with
        | Ok _ => mret (S retryCount, lastError)
        | Throw e => if nonce_too_low e then deploy_loop nftName attempts (S retryCount) (Some e) else a_throw e
        end)
  end.

(** What follows the [await] of the lock in the outer [try], and what follows the [try]
    and its [finally]. *)
Definition locked_part (nftName : string) : NftM (nat * option js_error) :=
  s ← a_get;
  if jm_has nftName (nftContracts s) then mret (0%nat, None) else deploy_loop nftName 5 0 None.

Definition finish (nftName : string) (r : result (nat * option js_error)) : NftM string :=
  a_modify unlock;;
  counts ← a_lift r;
  s ← a_get;
  match truthy_str (jm_get nftName (nftContracts s)) with
  | Some contractAddress => mret contractAddress
  | None =>
      a_throw (JsError ("Failed to get contract address: " +:+ nftName +:+ " retryCount: " +:+ pretty counts.1
        +:+ " lastError: " +:+ show_error counts.2 +:+ " "))
  end.

Definition getContractAddress (me : nat) (nftName : string) : NftM string :=
  a_after (a_modify (lock me);; n_await (LockPromise me);; locked_part nftName) (finish nftName).

Definition getTestGatingNFTContractAddress (me : nat) : NftM string := getContractAddress me "TestGatingNFT".

Definition publicMint (me : nat) (nftName toAddress : string) : NftM unit :=
  contractAddress ← getContractAddress me nftName;
  addresses ← n_await GetAddresses;
  nftReceipt ← n_await (Mint contractAddress toAddress (head (A := string) addresses));
  _ ← n_await (WaitReceipt nftReceipt);
  mret tt.

(** [publicMint] of the class *)
Definition TestGatingNFT_publicMint (me : nat) (toAddress : string) : NftM unit :=
  if isHexString (Some toAddress) then publicMint me "TestGatingNFT" toAddress
  else a_throw (JsError "Invalid address").

(** ** Calls that run at once *)

Record caller := mkCaller { c_name : string; c_prog : NftM string; c_log : list (event nans) }.
Record system := mkSystem { sy_nft : nft; sy_callers : list caller }.

(** A promise of the lock is resolved when it was granted; the chain may answer anything. *)
Definition may_answer (s : nft) (c : ncall) : result (nans c) -> Prop :=
  match c return result (nans c) -> Prop with
  | LockPromise me => fun a => a = Ok tt /\ me ∈ granted s
  | _ => fun _ => True
  end.

Definition run_caller (name : string) (p : NftM string) (log : list (event nans)) (s : nft) : caller * nft :=
  (mkCaller name (settle p s).1 log, (settle p s).2).

Inductive nft_step : system -> system -> Prop :=
| step_call name s cs :
    let r := run_caller name (getContractAddress (length cs) name) [] s in
    nft_step (mkSystem s cs) (mkSystem r.2 (cs ++ [r.1]))
| step_answer s cs i c call k a :
    cs !! i = Some c -> c_prog c = Await call k -> may_answer s call a ->
    let r := run_caller (c_name c) (k a) (c_log c ++ [mkEvent call a]) s in
    nft_step (mkSystem s cs) (mkSystem r.2 (<[i := r.1]> cs)).

(** ** Where a call stands *)

(** An awaited call that brought a new contract. *)
Definition deployed (e : event nans) : bool :=
  match e with
  | mkEvent (WaitReceipt _) (Ok a) => is_defined (truthy_str a)
  | _ => false
  end.
Definition deploys (name : string) (c : caller) : nat :=
  if decide (c_name c = name) then length (List.filter deployed (c_log c)) else 0%nat.
Definition deployments (name : string) (cs : list caller) : nat := sum_list_with (deploys name) cs.

Definition waiting (me : nat) (c : caller) : Prop :=
  c_prog c = Await (LockPromise me) (fun r => a_after (a_lift r;; locked_part (c_name c)) (finish (c_name c))).

(** Inside of the attempt to deploy. *)
Inductive attempting (name : string) : NftM unit -> Prop :=
| at_addresses : attempting name (deploy name)
| at_deploy account : attempting name (deploy_with name account)
| at_receipt hash : attempting name (await_receipt name hash).

Definition after_attempt (name : string) (attempts retryCount : nat) (lastError : option js_error) (r : result unit)
    : NftM (nat * option js_error) :=
  match r with
  | Ok _ => mret (S retryCount, lastError)
  | Throw e => if nonce_too_low e then deploy_loop name attempts (S retryCount) (Some e) else a_throw e
  end.
Definition inside (name : string) (p : NftM string) : Prop :=
  exists attempts retryCount lastError q, attempting name q
    /\ p = a_after (a_after q (after_attempt name attempts retryCount lastError)) (finish name).

Definition completed (name : string) (contracts : jsmap string) (p : NftM string) : Prop :=
  exists r, p = Done r /\ forall a, r = Ok a -> jm_get name contracts = Some a.

(** How a call leaves its critical section. *)
Inductive leaves (name : string) (s : nft) : bool -> NftM string -> nft -> Prop :=
| leaves_failed e : leaves name s false (Done (Throw e)) (unlock s)
| leaves_deployed a : a <> "" ->
    leaves name s true (Done (Ok a)) (unlock (set_contract name a s)).

Lemma unlock_contracts s : nftContracts (unlock s) = nftContracts s.
Proof. unfold unlock. by destruct (queue s). Qed.

Lemma finish_absent name s r : jm_get name (nftContracts s) = None ->
  exists e, settle (finish name r) s = (Done (Throw e), unlock s).
Proof.
  intros Hn. destruct r as [[n le]|e]; cbn; [|by eexists]. rewrite unlock_contracts, Hn. by eexists.
Qed.

(** A failed attempt is repeated, or given up. *)
Lemma attempt_failed name s attempts retryCount lastError e : jm_get name (nftContracts s) = None ->
  let o := settle (a_after (after_attempt name attempts retryCount lastError (Throw e)) (finish name)) s in
  (inside name o.1 /\ o.2 = s) \/ leaves name s false o.1 o.2.
Proof.
  intros Hn o. subst o. cbn [after_attempt]. destruct (nonce_too_low e).
  - destruct attempts as [|n].
    + right. cbn [deploy_loop a_after mret async_mret].
      destruct (finish_absent name s (Ok (S (S retryCount), Some e)) Hn) as [e' He].
      unfold mret, async_mret. cbn [a_after]. rewrite He. constructor.
    + left. split; [|done]. exists n, (S retryCount), (Some e), (deploy name). by split; [constructor|].
  - right. cbn [a_after a_throw]. unfold a_throw. cbn [a_after]. destruct (finish_absent name s (Throw e) Hn) as [e' He]. rewrite He. constructor.
Qed.

(** A call inside waits for the chain, and is inside still when it has the answer, or
    leaves. *)
Lemma inside_step name p s : inside name p -> jm_get name (nftContracts s) = None ->
  exists c k, p = Await c k /\ (forall me, c <> LockPromise me)
    /\ forall a, let o := settle (k a) s in
         (inside name o.1 /\ o.2 = s /\ deployed (mkEvent c a) = false) \/ leaves name s (deployed (mkEvent c a)) o.1 o.2.
Proof.
  intros (n & rc & le & q & Hq & ->) Hn. destruct Hq as [|account|hash].
  - do 2 eexists. split_and!; [reflexivity|done|]. intros [addresses|e].
    + left. split_and!; [|done..]. exists n, rc, le, (deploy_with name (head (A := string) addresses)). by split; [constructor|].
    + destruct (attempt_failed name s n rc le e Hn) as [[H1 H2]|H1]; [by left|by right].
  - do 2 eexists. split_and!; [reflexivity|done|]. intros [hash|e].
    + left. split_and!; [|done..]. exists n, rc, le, (await_receipt name hash). by split; [constructor|].
    + destruct (attempt_failed name s n rc le e Hn) as [[H1 H2]|H1]; [by left|by right].
  - do 2 eexists. split_and!; [reflexivity|done|]. intros [address|e]; [|
      destruct (attempt_failed name s n rc le e Hn) as [[H1 H2]|H1]; [by left|by right]].
    cbn [deployed]. destruct (truthy_str address) as [a|] eqn:Ha.
    + right. cbn. rewrite unlock_contracts. cbn [set_contract nftContracts]. rewrite jm_get_set_eq. by constructor.
    + destruct (attempt_failed name s n rc le (JsError "Failed to deploy contract") Hn) as [[H1 H2]|H1].
      * by left.
      * by right.
Qed.

(** A call that gets the lock goes inside, or finds the contract and leaves at once. *)
Lemma granted_step name s :
  (forall a, jm_get name (nftContracts s) = Some a -> a <> "") ->
  let o := settle (a_after (a_lift (Ok tt);; locked_part name) (finish name)) s in
  match jm_get name (nftContracts s) with
  | None => inside name o.1 /\ o.2 = s
  | Some a => o = (Done (Ok a), unlock s)
  end.
Proof.
  intros Hne o. subst o. cbn. destruct (jm_has name (nftContracts s)) eqn:Hh.
  - apply jm_has_get in Hh as [a Ha]. specialize (Hne a Ha). rewrite Ha. cbn. rewrite unlock_contracts, Ha. cbn.
    by destruct a.
  - destruct (jm_get name (nftContracts s)) as [a|] eqn:Ha.
    { assert (jm_has name (nftContracts s) = true) by (apply jm_has_get; eauto). congruence. }
    split; [|done]. exists 4%nat, 0%nat, None, (deploy name). by split; [constructor|].
Qed.

(** ** All calls together *)

(** How the call [i] stands when the call [h] has the lock. *)
Definition stands (s : nft) (h : option nat) (i : nat) (c : caller) : Prop :=
  (waiting i c /\ (i ∈ granted s <-> (h = Some i)) /\ (i ∈ queue s <-> (h <> Some i)))
  \/ (inside (c_name c) (c_prog c) /\ (h = Some i) /\ (i ∉ queue s) /\ jm_get (c_name c) (nftContracts s) = None)
  \/ (completed (c_name c) (nftContracts s) (c_prog c) /\ (h <> Some i) /\ (i ∉ queue s)).

Definition known (s : nft) (h : option nat) (n : nat) : Prop :=
  forall i, i ∈ queue s \/ i ∈ granted s \/ h = Some i -> (i < n)%nat.
Definition counts (s : nft) (cs : list caller) : Prop :=
  (forall name a, jm_get name (nftContracts s) = Some a -> a <> "")
  /\ forall name, deployments name cs = if jm_has name (nftContracts s) then 1%nat else 0%nat.

Record coherent (s : nft) (cs : list caller) (h : option nat) : Prop := mkCoherent {
  co_locked : locked s = is_defined h;
  co_free : h = None -> queue s = [];
  co_queue : NoDup (queue s);
  co_known : known s h (length cs);
  co_callers : forall i c, cs !! i = Some c -> stands s h i c;
  co_counts : counts s cs;
}.

Lemma sum_list_with_insert {X} (f : X -> nat) (l : list X) i x y : l !! i = Some x ->
  (sum_list_with f (<[i := y]> l) + f x = sum_list_with f l + f y)%nat.
Proof.
  revert i. induction l as [|z l IH]; intros i; [done|]. destruct i as [|i]; cbn.
  - intros [= ->]. lia.
  - intros Hi. specialize (IH i Hi). rewrite <- !Nat.add_assoc. by f_equal.
Qed.

Lemma deployments_insert name cs i c c' : cs !! i = Some c ->
  (deployments name (<[i := c']> cs) + deploys name c = deployments name cs + deploys name c')%nat.
Proof. apply sum_list_with_insert. Qed.

Lemma deploys_more name n p log e :
  deploys name (mkCaller n p (log ++ [e]))
    = (deploys name (mkCaller n p log) + (if decide (n = name) then Nat.b2n (deployed e) else 0))%nat.
Proof.
  unfold deploys. cbn. case_decide; [|done]. rewrite List.filter_app, length_app. cbn. by destruct (deployed e).
Qed.

Lemma await_inv {A} c (k : result (nans c) -> NftM A) c0 k0 (P : forall c, (result (nans c) -> NftM A) -> Prop) :
  Await c k = Await c0 k0 -> P c0 k0 -> P c k.
Proof.
  intros Heq HP. change (match Await c k with Await c k => P c k | _ => True end). by rewrite Heq.
Qed.

(** The lock is handed on. *)
Lemma unlock_stands s i j c : NoDup (queue s) -> j <> i -> stands s (Some i) j c -> stands (unlock s) (head (queue s)) j c.
Proof.
  intros Hnd Hj [(Hw & Hg & Hq)|[(_ & [= ->] & _)|(Hc & _ & Hq)]]; [|done|].
  - left. split; [done|]. destruct Hg as [Hg _]. destruct Hq as [_ Hq]. unfold unlock.
    destruct (queue s) as [|n rest]; [by apply not_elem_of_nil in Hq; [|congruence]|]. cbn.
    apply NoDup_cons in Hnd as [Hn _]. specialize (Hq ltac:(congruence)).
    assert (j ∉ granted s) by (intros Hin; by specialize (Hg Hin); simplify_eq).
    destruct (decide (j = n)) as [->|Hne]; [split; set_solver|].
    apply elem_of_cons in Hq as [?|Hq]; [done|]. split; split; set_solver.
  - right; right. rewrite unlock_contracts. split; [done|]. unfold unlock. destruct (queue s); set_solver.
Qed.

Lemma coherent_leave s cs i c' : NoDup (queue s) -> i ∉ queue s -> known s (Some i) (length cs) -> locked s = true ->
  (forall j c, j <> i -> cs !! j = Some c -> stands s (Some i) j c) -> counts s (<[i := c']> cs) ->
  completed (c_name c') (nftContracts s) (c_prog c') -> coherent (unlock s) (<[i := c']> cs) (head (queue s)).
Proof.
  intros Hnd Hi Hk Hl Hst Hc Hdone. split.
  - unfold unlock. by destruct (queue s).
  - unfold unlock. by destruct (queue s).
  - unfold unlock. destruct (queue s); [done|]. by apply NoDup_cons in Hnd as [_ ?].
  - rewrite length_insert. intros j Hj. apply Hk. revert Hj. unfold unlock. destruct (queue s); cbn; set_solver.
  - intros j c. destruct (decide (j = i)) as [->|Hne].
    + rewrite list_lookup_insert_Some. intros [(_ & <- & _)|[? _]]; [|done]. right; right.
      rewrite unlock_contracts. split; [done|]. unfold unlock. destruct (queue s); set_solver.
    + rewrite list_lookup_insert_ne by done. intros Hj. by apply (unlock_stands _ i), Hst.
  - unfold counts. by rewrite unlock_contracts.
Qed.

(** An answer that changes neither the shared state nor the number of contracts. *)
Lemma coherent_stay s cs h i c c' : coherent s cs h -> cs !! i = Some c -> stands s h i c' ->
  (forall name, deploys name c' = deploys name c) -> coherent s (<[i := c']> cs) h.
Proof.
  intros [Hl Hf Hq Hk Hs [Hne Hc]] Hi Hst Hd. split; [done..|by rewrite length_insert| |].
  - intros j cj. rewrite list_lookup_insert_Some. intros [(<- & <- & _)|[_ Hj]]; [done|by apply Hs].
  - split; [done|]. intros name. rewrite <- Hc. pose proof (deployments_insert name cs i c c' Hi). rewrite Hd in *. lia.
Qed.

Lemma set_contract_stands name a s i j c : jm_get name (nftContracts s) = None -> j <> i ->
  stands s (Some i) j c -> stands (set_contract name a s) (Some i) j c.
Proof.
  intros Hn Hj [Hw|[(_ & [= ->] & _)|((r & Hp & Hr) & Hh & Hq)]]; [by left|done|].
  right; right. split; [|done]. exists r. split; [done|]. intros b Hb. specialize (Hr b Hb). cbn.
  rewrite jm_get_set_ne; [done|]. intros ->. by rewrite Hn in Hr.
Qed.

(** A call that leaves hands the lock on, whether it brings a contract or not. *)
Lemma coherent_leaves s cs i c call a p' s' : coherent s cs (Some i) -> cs !! i = Some c -> i ∉ queue s ->
  jm_get (c_name c) (nftContracts s) = None -> leaves (c_name c) s (deployed (mkEvent call a)) p' s' ->
  coherent s' (<[i := mkCaller (c_name c) p' (c_log c ++ [mkEvent call a])]> cs) (head (queue s)).
Proof.
  intros [Hl Hf Hq Hk Hs [Hne Hc]] Hi Hiq Hn. set (c' := mkCaller _ p' _). intros Hleave.
  assert (Hd : forall name, (deployments name (<[i := c']> cs) = deployments name cs
    + (if decide (c_name c = name) then Nat.b2n (deployed (mkEvent call a)) else 0))%nat).
  { intros name. pose proof (deployments_insert name cs i c c' Hi) as Hd. unfold c' in Hd. rewrite deploys_more in Hd.
    change (deploys name (mkCaller (c_name c) p' (c_log c))) with (deploys name c) in Hd. unfold c'. lia. }
  subst c'. destruct Hleave as [e|b Hb].
  - apply coherent_leave; [done..| |split; [done|]|].
    + intros j cj _ Hj. by apply Hs.
    + intros name. rewrite Hd, Hc. case_decide; cbn; lia.
    + by exists (Throw e).
  - change (queue s) with (queue (set_contract (c_name c) b s)). apply coherent_leave; [done..| |split|].
    + intros j cj Hj Hcj. apply set_contract_stands; [done..|]. by apply Hs.
    + intros name x. cbn. rewrite jm_get_set. case_decide; [by intros [= <-]|apply Hne].
    + intros name. rewrite Hd, Hc. cbn. case_decide as Heq.
      * subst name. destruct (jm_has (c_name c) (nftContracts s)) eqn:Hh.
        { apply jm_has_get in Hh as [x Hx]. congruence. }
        destruct (jm_has (c_name c) (jm_set _ _ _)) eqn:Hh'; [done|].
        exfalso. assert (jm_has (c_name c) (jm_set (c_name c) b (nftContracts s)) = true); [|congruence].
        apply jm_has_get. rewrite jm_get_set_eq. eauto.
      * rewrite Nat.add_0_r. assert (Hh : jm_has name (jm_set (c_name c) b (nftContracts s)) = jm_has name (nftContracts s)); [|by rewrite Hh].
        apply eq_true_iff_eq. by rewrite !jm_has_get, jm_get_set_ne.
    + exists (Ok b). split; [done|]. intros x [= <-]. cbn. by rewrite jm_get_set_eq.
Qed.

(** A new call: it gets the lock when nobody has it, and otherwise is the last in the
    queue. *)
Lemma call_settles name n s : settle (getContractAddress n name) s
  = (Await (LockPromise n) (fun r => a_after (a_lift r;; locked_part name) (finish name)), lock n s).
Proof. reflexivity. Qed.

Lemma counts_call s cs name p : counts s cs -> counts s (cs ++ [mkCaller name p []]).
Proof.
  intros [Hne Hc]. split; [done|]. intros n. rewrite <- Hc. unfold deployments. rewrite sum_list_with_app. cbn.
  unfold deploys at 2. cbn. case_decide; cbn; lia.
Qed.

Lemma known_fresh s h n : known s h n -> (n ∉ queue s) /\ (n ∉ granted s) /\ h <> Some n.
Proof. intros Hk. split_and!; intros Hin; assert (n < n)%nat by (apply Hk; auto); lia. Qed.

Lemma coherent_call_locked s cs name i : coherent s cs (Some i) -> locked s = true ->
  let r := run_caller name (getContractAddress (length cs) name) [] s in coherent r.2 (cs ++ [r.1]) (Some i).
Proof.
  intros [Hl Hf Hq Hk Hs Hc] Hlk. destruct (known_fresh _ _ _ Hk) as (Hnq & Hng & Hnh).
  cbv zeta. unfold run_caller. rewrite call_settles. unfold lock. rewrite Hlk. cbn. split; cbn; [done|done| | | |].
  - apply NoDup_app. split_and!; [done|set_solver|apply NoDup_singleton].
  - rewrite length_app. cbn. intros j Hj.
    assert (j = length cs \/ (j < length cs)%nat) as [->|]; [|lia..].
    destruct Hj as [Hj|Hj]; [|right; apply Hk; tauto].
    apply elem_of_app in Hj as [Hj|Hj%list_elem_of_singleton]; [right; apply Hk; auto|by left].
  - intros j c. rewrite lookup_app_Some. intros [Hj|[Hlen Hj]].
    + assert (j <> length cs) by (apply lookup_lt_Some in Hj; lia). specialize (Hs j c Hj). unfold stands in *. set_solver.
    + apply list_lookup_singleton_Some in Hj as [Hj <-]. replace j with (length cs) by lia. left. split; [done|].
      cbn. split; [set_solver|]. split; [congruence|set_solver].
  - by apply counts_call.
Qed.

Lemma coherent_call_free s cs name : coherent s cs None -> locked s = false ->
  let r := run_caller name (getContractAddress (length cs) name) [] s in coherent r.2 (cs ++ [r.1]) (Some (length cs)).
Proof.
  intros [Hl Hf Hq Hk Hs Hc] Hlk. destruct (known_fresh _ _ _ Hk) as (Hnq & Hng & Hnh). specialize (Hf eq_refl).
  cbv zeta. unfold run_caller. rewrite call_settles. unfold lock. rewrite Hlk. cbn. split; cbn; [done|done|done| | |].
  - rewrite length_app. cbn. intros j Hj.
    assert (j = length cs \/ (j < length cs)%nat) as [->|]; [|lia..].
    destruct Hj as [Hj|[Hj|[= ->]]]; [right; apply Hk; auto| |by left].
    apply elem_of_cons in Hj as [->|Hj]; [by left|right; apply Hk; auto].
  - intros j c. rewrite lookup_app_Some. intros [Hj|[Hlen Hj]].
    + assert (j <> length cs) by (apply lookup_lt_Some in Hj; lia). rewrite Hf.
      destruct (Hs j c Hj) as [(_ & _ & Hw)|[(_ & ? & _)|(Hd & _ & _)]]; [|done|].
      * rewrite Hf in Hw. exfalso. by apply (not_elem_of_nil j), Hw.
      * right; right. split; [done|]. set_solver.
    + apply list_lookup_singleton_Some in Hj as [Hj <-]. replace j with (length cs) by lia. left. split; [done|].
      cbn. rewrite Hf. split; set_solver.
  - by apply counts_call.
Qed.

(** The lock is granted: the call goes inside, or finds the contract and leaves. *)
Lemma coherent_granted s cs i c : coherent s cs (Some i) -> cs !! i = Some c -> i ∉ queue s ->
  let o := settle (a_after (a_lift (Ok tt);; locked_part (c_name c)) (finish (c_name c))) s in
  exists h, coherent o.2 (<[i := mkCaller (c_name c) o.1 (c_log c ++ [mkEvent (LockPromise i) (Ok tt)])]> cs) h.
Proof.
  intros Hco Hi Hiq o. pose proof (granted_step (c_name c) s (proj1 (co_counts _ _ _ Hco) (c_name c))) as Ho. fold o in Ho.
  assert (Hd : forall p name, deploys name (mkCaller (c_name c) p (c_log c ++ [mkEvent (LockPromise i) (Ok tt)])) = deploys name c).
  { intros p name. rewrite deploys_more. unfold deploys. cbn. case_decide; lia. }
  destruct (jm_get _ _) as [a|] eqn:Ha.
  - rewrite Ho. cbn. exists (head (queue s)). destruct Hco as [Hl Hf Hq Hk Hs [Hne Hc]]. apply coherent_leave; [done..| |split; [done|]|].
    + intros j cj _ Hj. by apply Hs.
    + intros name. rewrite <- Hc. pose proof (deployments_insert name cs i c
        (mkCaller (c_name c) (Done (Ok a)) (c_log c ++ [mkEvent (LockPromise i) (Ok tt)])) Hi) as He. rewrite Hd in He. lia.
    + exists (Ok a). split; [done|]. by intros x [= <-].
  - destruct Ho as [Hin ->]. exists (Some i). eapply coherent_stay; [done..| |apply Hd].
    right; left. by split_and!.
Qed.

Lemma coherent_step sy sy' h : coherent (sy_nft sy) (sy_callers sy) h -> nft_step sy sy' ->
  exists h', coherent (sy_nft sy') (sy_callers sy') h'.
Proof.
  intros Hco Hstep. revert Hco. destruct Hstep as [name s cs r|s cs i c call k a Hi Hp Ha r]; subst r; intros Hco; cbn [run_caller fst snd sy_nft sy_callers] in *.
  - destruct h as [i|].
    + exists (Some i). exact (coherent_call_locked s cs name i Hco (co_locked _ _ _ Hco)).
    + exists (Some (length cs)). exact (coherent_call_free s cs name Hco (co_locked _ _ _ Hco)).
  - pose proof (co_callers _ _ _ Hco i c Hi) as [(Hw & Hg & Hq)|[(Hin & -> & Hiq & Hn)|((r & Hd & _) & _)]];
      [| |by rewrite Hd in Hp].
    + unfold waiting in Hw. rewrite Hp in Hw. revert a Ha. pattern call, k. eapply await_inv; [exact Hw|].
      cbn [may_answer]. intros a [-> Hgr]. pose proof (proj1 Hg Hgr) as ->.
      assert (Hiq : i ∉ queue s) by (intros Hin; by apply Hq in Hin). by eapply coherent_granted.
    + destruct (inside_step _ _ s Hin Hn) as (c0 & k0 & Hp0 & Hc0 & Hk0). rewrite Hp in Hp0. revert a Ha.
      pattern call, k. eapply await_inv; [exact Hp0|]. intros a _. destruct (Hk0 a) as [(Hin' & Hs' & Hd)|Hleave].
      * exists (Some i). rewrite Hs'. eapply coherent_stay; [done..| |].
        -- right; left. by split_and!.
        -- intros name. rewrite deploys_more, Hd. case_decide; cbn; unfold deploys; cbn; case_decide; lia.
      * exists (head (queue s)). by apply coherent_leaves.
Qed.

Definition start_system : system := mkSystem no_contracts [].

Lemma reachable_coherent sy : rtc nft_step start_system sy -> exists h, coherent (sy_nft sy) (sy_callers sy) h.
Proof.
  intros Hr. assert (H0 : exists h, coherent (sy_nft start_system) (sy_callers start_system) h).
  { exists None. split; cbn; [done|done|constructor| |done|done]. intros i. set_solver. }
  revert H0. induction Hr as [|x y z Hxy _ IH]; [done|]. intros [h Hh]. by eapply IH, coherent_step.
Qed.

(** However the calls interleave and whatever the chain answers, at most one contract is
    deployed for a name, and all calls for it that succeed give its address. *)
Theorem one_contract_per_name sy name : rtc nft_step start_system sy ->
  (deployments name (sy_callers sy) <= 1)%nat
  /\ forall i j ci cj a b, sy_callers sy !! i = Some ci -> sy_callers sy !! j = Some cj ->
       c_name ci = name -> c_name cj = name -> c_prog ci = Done (Ok a) -> c_prog cj = Done (Ok b) ->
       a = b /\ deployments name (sy_callers sy) = 1%nat.
Proof.
  intros [h [_ _ _ _ Hs [_ Hc]]]%reachable_coherent. split; [rewrite Hc; case_match; lia|].
  assert (Hres : forall i c a, sy_callers sy !! i = Some c -> c_prog c = Done (Ok a) -> jm_get (c_name c) (nftContracts (sy_nft sy)) = Some a).
  { intros i c a Hi Hp. destruct (Hs i c Hi) as [(Hw & _)|[((? & ? & ? & q & Hq & Hin) & _)|((r & Hd & Hr) & _)]].
    - unfold waiting in Hw. congruence.
    - rewrite Hin in Hp. by destruct Hq.
    - apply Hr. congruence. }
  intros i j ci cj a b Hi Hj Hni Hnj Ha Hb. pose proof (Hres i ci a Hi Ha) as Ha'. pose proof (Hres j cj b Hj Hb) as Hb'. rewrite Hni in Ha'. rewrite Hnj in Hb'.
  split; [congruence|]. rewrite Hc. replace (jm_has name _) with true; [done|]. symmetry. apply jm_has_get. eauto.
Qed.

(** At most one call is inside of the critical section. *)
Theorem one_call_inside sy i j ci cj : rtc nft_step start_system sy ->
  sy_callers sy !! i = Some ci -> sy_callers sy !! j = Some cj ->
  inside (c_name ci) (c_prog ci) -> inside (c_name cj) (c_prog cj) -> i = j.
Proof.
  intros [h [_ _ _ _ Hs _]]%reachable_coherent.
  assert (Hres : forall i c, sy_callers sy !! i = Some c -> inside (c_name c) (c_prog c) -> h = Some i).
  { intros k c Hk (? & ? & ? & q & Hq & Hin). destruct (Hs k c Hk) as [(Hw & _)|[(_ & ? & _)|((r & Hd & _) & _)]]; [|done|].
    - unfold waiting in Hw. rewrite Hin in Hw. by destruct Hq.
    - rewrite Hin in Hd. by destruct Hq. }
  intros Hi Hj Hii Hij. pose proof (Hres i ci Hi Hii). pose proof (Hres j cj Hj Hij). congruence.
Qed.

(** The lock is never lost: while a call is not completed, some call waits for a promise
    that is settled or for the chain. *)
Theorem no_deadlock sy i c : rtc nft_step start_system sy -> sy_callers sy !! i = Some c ->
  (forall r, c_prog c <> Done r) ->
  exists j cj call k a, sy_callers sy !! j = Some cj /\ c_prog cj = Await call k /\ may_answer (sy_nft sy) call a.
Proof.
  intros [h Hco]%reachable_coherent Hi Hnd.
  assert (exists j, h = Some j) as [j ->].
  { destruct h as [j|]; [eauto|]. destruct (co_callers _ _ _ Hco i c Hi) as [(_ & _ & Hq)|[(_ & ? & _)|((r & Hd & _) & _)]]; [|done|by destruct (Hnd r)].
    rewrite (co_free _ _ _ Hco eq_refl) in Hq. exfalso. by apply (not_elem_of_nil i), Hq. }
  assert (j < length (sy_callers sy))%nat as [cj Hj]%lookup_lt_is_Some by (apply (co_known _ _ _ Hco); auto).
  destruct (co_callers _ _ _ Hco j cj Hj) as [(Hw & Hg & _)|[(Hin & _ & _ & Hn)|(_ & ? & _)]]; [| |done].
  - exists j, cj, (LockPromise j). eexists _, (Ok tt). split_and!; [done|exact Hw|]. split; [done|by apply Hg].
  - destruct (inside_step _ _ _ Hin Hn) as (call & k & Hp & Hc & _). exists j, cj, call, k, (Throw (JsError "")).
    split_and!; [done..|]. by destruct call as [me| | | |]; [destruct (Hc me)|..].
Qed.

(** *** Checksums *)

Lemma char_by_bits (P : Ascii.ascii -> bool) : forallb (fun n => P (Ascii.ascii_of_nat n)) (seq 0 256) = true -> forall c, P c = true.
Proof.
  intros Hall c. rewrite <- (Ascii.ascii_nat_embedding c). rewrite forallb_forall in Hall. apply Hall, in_seq.
  pose proof (Ascii.nat_ascii_bounded c). lia.
Qed.

Lemma lower_checksum_char h c : lower_char (checksum_char h c) = lower_char c.
Proof.
  assert (Hl : forall c, Ascii.eqb (lower_char (lower_char c)) (lower_char c) = true) by (apply char_by_bits; vm_compute; reflexivity).
  assert (Hu : forall c, Ascii.eqb (lower_char (upper_char c)) (lower_char c) = true) by (apply char_by_bits; vm_compute; reflexivity).
  apply Ascii.eqb_eq. unfold checksum_char. repeat case_match; auto.
Qed.

Lemma checksum_char_again h c : checksum_char h (checksum_char h c) = checksum_char h c.
Proof.
  assert (Hl : forall c, Ascii.eqb (lower_char (lower_char c)) (lower_char c) = true) by (apply char_by_bits; vm_compute; reflexivity).
  assert (Hu : forall c, Ascii.eqb (upper_char (upper_char c)) (upper_char c) = true) by (apply char_by_bits; vm_compute; reflexivity).
  apply Ascii.eqb_eq. unfold checksum_char. repeat case_match; auto.
Qed.

Lemma lower_checksum hash address : toLowerCase (checksum hash address) = toLowerCase address.
Proof.
  unfold toLowerCase. revert hash. induction address as [|c address IH]; intros [|h hash]; cbn [checksum str_map]; [done..| |];
    by rewrite lower_checksum_char, IH.
Qed.

Lemma checksum_again hash address : checksum hash (checksum hash address) = checksum hash address.
Proof.
  revert hash. induction address as [|c address IH]; intros [|h hash]; cbn [checksum]; [done..| |];
    by rewrite checksum_char_again, IH.
Qed.

(** What is registered has its checksum, and spells the address of the receipt. *)
Theorem checksum_made address :
  isEIP55Address (toEIP55Address address) = true
  /\ toLowerCase (toEIP55Address address) = "0x" +:+ toLowerCase (slice_from 2 address).
Proof.
  assert (Hs : slice_from 2 (toEIP55Address address)
    = checksum (slice_from 2 (keccak256 (toLowerCase (slice_from 2 address)))) (slice_from 2 address)) by exact (slice_from_app "0x" _).
  split.
  - unfold isEIP55Address. apply String.eqb_eq. unfold toEIP55Address at 2. rewrite Hs, lower_checksum, checksum_again. reflexivity.
  - by rewrite <- (lower_checksum (slice_from 2 (keccak256 (toLowerCase (slice_from 2 address)))) (slice_from 2 address)).
Qed.
End TestGatingNFT.

(** ** An example *)

Definition demo_hash (_ : string) : string := "0xf0f0".
Definition demo_show (_ : option js_error) : string := "Error".
Abbreviation nft_steps := (rtc (nft_step demo_hash demo_show)).

(** Answer what the call [i] waits for. *)
Definition reply_to (i : nat) (reply : forall c, result (nans c)) (sy : system) : system :=
  match sy_callers sy !! i with
  | Some c =>
      match c_prog c with
      | Await call k =>
          let r := run_caller (c_name c) (k (reply call)) (c_log c ++ [mkEvent call (reply call)]) (sy_nft sy) in
          mkSystem r.2 (<[i := r.1]> (sy_callers sy))
      | _ => sy
      end
  | None => sy
  end.
Definition may_reply (i : nat) (reply : forall c, result (nans c)) (sy : system) : Prop :=
  match sy_callers sy !! i with
  | Some c => match c_prog c with Await call _ => may_answer (sy_nft sy) call (reply call) | _ => True end
  | None => True
  end.

Lemma reply_steps i reply sy : may_reply i reply sy -> nft_steps sy (reply_to i reply sy).
Proof.
  unfold may_reply, reply_to. destruct (sy_callers sy !! i) as [c|] eqn:Hi; [|intros _; apply rtc_refl].
  destruct (c_prog c) as [|call k| |] eqn:Hp; [intros _; apply rtc_refl| |intros _; apply rtc_refl..].
  intros Ha. apply rtc_once. destruct sy as [s cs]. by apply (step_answer demo_hash demo_show s cs i c call k).
Qed.

Definition call_for (name : string) (sy : system) : system :=
  let r := run_caller name (getContractAddress demo_hash demo_show (length (sy_callers sy)) name) [] (sy_nft sy) in
  mkSystem r.2 (sy_callers sy ++ [r.1]).
Lemma call_steps name sy : nft_steps sy (call_for name sy).
Proof. apply rtc_once. destruct sy. constructor. Qed.

(** A chain that accepts the first transaction. *)
Definition demo_chain (c : ncall) : result (nans c) :=
  match c with
  | LockPromise _ => Ok tt
  | GetAddresses => Ok ["0x01"]
  | DeployContract _ | Mint _ _ _ => Ok "0x02"
  | WaitReceipt _ => Ok (Some "0xabcd")
  end.

(** Two calls for one contract, the second while the first deploys it. *)
Definition demo_calls : system :=
  reply_to 1 demo_chain (reply_to 0 demo_chain (reply_to 0 demo_chain (reply_to 0 demo_chain
    (call_for "nft" (reply_to 0 demo_chain (call_for "nft" start_system)))))).

Lemma demo_calls_reached : nft_steps start_system demo_calls.
Proof.
  unfold demo_calls.
  repeat (etrans; [|first [apply call_steps | apply reply_steps; shelve]]).
  apply rtc_refl.
  Unshelve. all: first [exact I | split; [reflexivity|apply list_elem_of_In; vm_compute; tauto]].
Qed.

Lemma one_contract_per_name_witness :
  (deployments "nft" (sy_callers demo_calls) <= 1)%nat
  /\ map c_prog (sy_callers demo_calls) = [Done (Ok "0xAbCd"); Done (Ok "0xAbCd")].
Proof.
  split; [exact (proj1 (one_contract_per_name demo_hash demo_show demo_calls "nft" demo_calls_reached))|].
  vm_compute. reflexivity.
Defined.
