(* ===== verification/StressUtils.v ===== *)
(** * The load test: configuration and helpers (core/stress/src)

    The load test starts many processes, each with several clients of the SDK, that chat
    in the channels of one space. Here are the functions it is made of that do not talk
    to the outside world: the configuration of a process from its environment
    (mode/chat/root_chat.ts, mode/chat/types.ts), the wallets, names, messages and
    filters (utils/). [StressChat] has the clients.

    A number read from the environment may be [NaN], which is [None]. [Math.random()] is
    [r / 2^53] for an [r] below [2^53]; a function that draws numbers takes the sequence
    of them and returns what is left of it. *)

From stdpp Require Import pretty.
From S2P Require Import Prelude Proto Externals ToyExternals Binary StreamId Types DecryptionQueues RpcClient EncryptionDevice RiverConfig.

(** ** Numbers, texts and objects of JavaScript *)

Definition num : Type := option Z.
Definition num_mul (a b : num) : num := a ← a; b ← b; Some (a * b).
Definition num_add (a b : num) : num := a ← a; b ← b; Some (a + b).
Definition num_max (a b : num) : num := a ← a; b ← b; Some (a `max` b).
(** A comparison with [NaN] is false. *)
Definition num_cmp (f : Z -> Z -> bool) (a b : num) : bool :=
  match a, b with
  | Some a, Some b => f a b
  | _, _ => false
  end.
Definition num_show (n : num) : string := from_option pretty "NaN" n.

(** [l.slice(a, b)]: [NaN] is zero, a negative index counts from the end. *)
Definition slice_index (n : Z) (i : num) : Z :=
  let i := default 0 i in if i <? 0 then (n + i) `max` 0 else i `min` n.
Definition js_slice {A} (a b : num) (l : list A) : list A :=
  let n := Z.of_nat (length l) in
  let i := slice_index n a in
  take (Z.to_nat (slice_index n b - i)) (drop (Z.to_nat i) l).

(** ** utils/expect.ts *)

Definition isSet (value : option string) : bool :=
  match value with
  | Some s => (0 <? String.length s)%nat
  | None => false
  end.

(** ** Drawing *)

Definition RANDOM_RANGE : Z := 2 ^ 53.

(** [Math.floor(Math.random() * n)]: the product is rounded to a double of 53 bits, to the
    nearest and to the even one of two. *)
Definition round_product (p : Z) : Z :=
  if p <? RANDOM_RANGE then p
  else
    let u := 2 ^ (Z.log2 p - 52) in
    let q := p / u in
    let rest := 2 * (p - q * u) in
    (if (u <? rest) || (u =? rest) && Z.odd q then q + 1 else q) * u.
Definition random_index (r n : Z) : Z := round_product (r * n) / RANDOM_RANGE.

Definition pick_from (l : list string) (r : Z) : string :=
  default "undefined" (l !! Z.to_nat (random_index r (Z.of_nat (length l)))).

(** Draws of a function: the numbers that [Math.random] will give, and what is left. *)
Definition draws (A : Type) : Type := list Z -> A * list Z.
Definition draw : draws Z := fun rs => (hd 0 rs, tl rs).
Definition d_bind {A B} (m : draws A) (k : A -> draws B) : draws B := fun rs => let '(a, rs) := m rs in k a rs.
Definition d_ret {A} (a : A) : draws A := fun rs => (a, rs).
(** [Array.from({ length: n }, f)] *)
Fixpoint d_times {A} (n : nat) (f : draws A) : draws (list A) :=
  match n with
  | O => d_ret []
  | S n => d_bind f (fun a => d_bind (d_times n f) (fun l => d_ret (a :: l)))
  end.

(** ** utils/botName.ts *)

Definition adjectives : list string :=
  ["Speedy"; "Mighty"; "Blazing"; "Radical"; "Epic"; "Awesome"; "Crazy"; "Insane"; "Electric";
   "Fantastic"; "Incredible"; "Marvelous"; "Spectacular"; "Thrilling"; "Dynamic"; "Energetic";
   "Fierce"; "Brave"; "Bold"; "Daring"; "Courageous"; "Valiant"; "Gallant"; "Heroic"; "Intrepid";
   "Fearless"; "Dauntless"; "Audacious"; "Tenacious"].

Definition nouns : list string :=
  ["Bolt"; "Blaze"; "Comet"; "Dash"; "Flash"; "Laser"; "Lightning"; "Rocket"; "Spark"; "Storm";
   "Thunder"; "Titan"; "Vortex"; "Whirlwind"; "Avalanche"; "Cyclone"; "Earthquake"; "Hurricane";
   "Meteor"; "Supernova"; "Tornado"; "Tsunami"; "Volcano"; "Wildfire"; "Zenith"; "Beast";
   "Maverick"; "Rogue"; "Rebel"; "Worker"; "Reader"; "Bee"].

(** [i % n] has the sign of [i]; [undefined] is written out in a template. *)
Definition name_part (l : list string) (i : Z) : string :=
  let k := Z.rem i (Z.of_nat (length l)) in
  if k <? 0 then "undefined" else default "undefined" (l !! Z.to_nat k).
Definition makeBotName (i : Z) : string := name_part adjectives i +:+ name_part nouns i +:+ pretty i.

(** ** utils/emoji.ts *)

Definition emojis : list string :=
  ["😀"; "😃"; "😄"; "😁"; "😆"; "😅"; "😂"; "🤣"; "😊"; "😇"; "🙂"; "🙃"; "😉"; "😌"; "😍"; "🥰"; "😘"; "😗"; "😙";
   "😚"; "😋"; "😛"; "😝"; "😜"; "🤪"; "🤨"; "🧐"; "🤓"; "😎"; "🤩"; "🥳"; "😏"; "😒"; "😞"; "😔"; "😟"; "😕"; "🙁";
   "☹️"; "😣"; "😖"; "😫"; "😩"; "🥺"; "😢"; "😭"; "😤"; "😠"; "😡"; "🤬"; "🤯"; "😳"; "🥵"; "🥶"; "😱"; "😨"; "😰";
   "😥"; "😓"; "🤗"; "🤔"; "🤭"; "🤫"; "🤥"; "😶"; "😐"; "😑"; "😬"; "🙄"; "😯"; "😦"; "😧"; "😮"; "😲"; "🥱"; "😴";
   "🤤"; "😪"; "😵"; "🤐"].

Definition getRandomEmoji : draws string := d_bind draw (fun r => d_ret (pick_from emojis r)).

(** ** utils/messages.ts *)

Definition w0 : list string :=
  ["b"; "d"; "f"; "g"; "h"; "j"; "k"; "l"; "m"; "n"; "p"; "r"; "s"; "t"; "v"; "w"; "y"; "z"; "ch";
   "sh"; "th"; "zh"; "ng"].

Definition w1 : list string :=
  ["a"; "e"; "i"; "o"; "u"; "ə"; "ɑ"; "æ"; "ɛ"; "ɪ"; "i"; "ɔ"; "ʊ"; "u"; "ʌ"].

Definition w2 : list string :=
  ["ai"; "au"; "aw"; "ay"; "ea"; "ee"; "ei"; "eu"; "ew"; "ey"; "ie"; "oa"; "oi"; "oo"; "ou"; "ow";
   "oy"; "ar"; "er"; "ir"; "or"; "ur"].

Definition wo : draws string := d_bind draw (fun r => d_bind draw (fun r' => d_ret (pick_from w0 r +:+ pick_from w1 r'))).
(** [Math.random() > 0.8], for the double that [0.8] is. *)
Definition word : draws string :=
  d_bind draw (fun r =>
  d_bind (d_times (Z.to_nat (random_index r 3 + 1)) wo) (fun prefix =>
  d_bind draw (fun r' =>
  d_bind (if 7205759403792794 <? r' then d_bind draw (fun r => d_ret (pick_from w2 r)) else d_ret "") (fun suffix =>
  d_ret (String.concat "" prefix +:+ suffix))))).
Definition makeSillyMessage (maxWords : option Z) : draws string :=
  let maxWords := default 7 maxWords in
  d_bind draw (fun r =>
  d_bind (d_times (Z.to_nat (random_index r (maxWords - 1) + 1)) word) (fun words =>
  d_ret (String.concat " " words))).

(** The values that are written as JSON; [NaN] is written [null]. *)
Inductive json :=
| JString (s : string)
| JNumber (n : num)
| JObject (props : list (string * json)).

Definition newline : string := String (Ascii.ascii_of_nat 10) "".

(** [JSON.stringify(value, null, 2)], [indent] spaces in. *)
Fixpoint stringify (indent : nat) (v : json) : string :=
  match v with
  | JString s => JSON_stringify s
  | JNumber n => from_option pretty "null" n
  | JObject [] => "{}"
  | JObject props =>
      let inner := str_repeat " " (indent + 2) in
      "{" +:+ newline +:+
      String.concat ("," +:+ newline)
        (map (fun kv => inner +:+ JSON_stringify kv.1 +:+ ": " +:+ stringify (indent + 2) kv.2) props)
      +:+ newline +:+ str_repeat " " indent +:+ "}"
  end.
Definition makeCodeBlock (value : json) : string :=
  let ticks := "```" in
  "<br>" +:+ newline +:+ " " +:+ ticks +:+ newline +:+ stringify 0 value +:+ newline +:+ ticks +:+ newline.

(** ** utils/timeline.ts *)

(** The text of a post. *)
Definition post_text (m : ChannelMessage) : option string :=
  match cmsg_payload m with
  | Some (ChannelMessage_post (mkPost _ _ _ _ (Some (PostContent_text body _ _)))) => Some body
  | _ => None
  end.

Definition channelMessagePostWhere (filterFn : string -> bool) (event : StreamTimelineEvent) : bool :=
  match te_decryptedContent event with
  | Some (DecryptedContent_ChannelMessage m) => from_option filterFn false (post_text m)
  | _ => false
  end ||
  match te_localEvent event with
  | Some l => from_option filterFn false (post_text (le_channelMessage l))
  | None => false
  end.

(** ** utils/wallets.ts *)

Section Wallets.
Context `{Externals}.
(** Wallets of ethers, and the key at a path below the root of a mnemonic. *)
Context {Wallet : Type} (fromMnemonic : string -> string -> result Wallet).

Definition wallet_path (i : Z) : string := "m/44'/60'/0'/0/" +:+ pretty i.

(** The loop runs while [i < end]. *)
Fixpoint generate (seedPhrase : string) (indices : list Z) : result (list Wallet) :=
  match indices with
  | [] => Ok []
  | i :: indices =>
      wallet ← fromMnemonic seedPhrase (wallet_path i);
      wallets ← generate seedPhrase indices;
      Ok (wallet :: wallets)
  end.
(** The indices from [a] up to [b]; there are none when one of them is [NaN]. *)
Definition index_range (a b : num) : list Z :=
  match a, b with
  | Some a, Some b => seqZ a (b - a)
  | _, _ => []
  end.
Definition generateWalletsFromSeed (seedPhrase : string) (start_ end_ : num) : result (list Wallet) :=
  if num_cmp Z.gtb start_ end_ then Throw (JsError "Start index must be less than or equal to end index.")
  else generate seedPhrase (index_range start_ end_).

(** ** mode/chat/types.ts *)

Record ChatConfig := mkChatConfig {
  containerIndex : num;
  containerCount : num;
  processIndex : num;
  processesPerContainer : num;
  clientsCount : num;
  clientsPerProcess : num;
  duration : num;
  sessionId : string;
  spaceId : string;
  announceChannelId : string;
  channelIds : list string;
  allWallets : list Wallet;
  startIndex : num;
  endIndex : num;
  wallets : list Wallet;
  startedAtMs : Z;
  waitForSpaceMembershipTimeoutMs : num;
  waitForChannelDecryptionTimeoutMs : num;
}.

(** ** mode/chat/root_chat.ts *)

Context (env : string -> option string).

Definition env_set (name : string) : result string :=
  check (isSet (env name)) (Some ("process.env." +:+ name)) None;;
  Ok (default "" (env name)).

Definition getStressDuration : result num := s ← env_set "STRESS_DURATION"; Ok (parseInt s).

Definition getSessionId : result string :=
  s ← env_set "SESSION_ID";
  check (0 <? String.length s)%nat (Some "process.env.SESSION_ID.length > 0") None;;
  Ok s.

(** The variables are all checked before one of them is read. *)
Definition getChatConfig (now : Z) (process : num) (phrase : string) : result ChatConfig :=
  clientsPerProcessStr ← env_set "CLIENTS_PER_PROCESS";
  clientsCountStr ← env_set "CLIENTS_COUNT";
  spaceId ← env_set "SPACE_ID";
  channelIdsStr ← env_set "CHANNEL_IDS";
  containerIndexStr ← env_set "CONTAINER_INDEX";
  containerCountStr ← env_set "CONTAINER_COUNT";
  processesPerContainerStr ← env_set "PROCESSES_PER_CONTAINER";
  duration ← getStressDuration;
  let clientsCount := parseInt clientsCountStr in
  let clientsPerProcess := parseInt clientsPerProcessStr in
  let clientStartIndex := num_mul process clientsPerProcess in
  let clientEndIndex := num_add clientStartIndex clientsPerProcess in
  announceChannelId ← match truthy_str (env "ANNOUNCE_CHANNEL_ID") with
                      | Some id => Ok id
                      | None => makeDefaultChannelStreamId spaceId
                      end;
  allWallets ← generateWalletsFromSeed phrase (Some 0) clientsCount;
  let wallets := js_slice clientStartIndex clientEndIndex allWallets in
  if num_cmp Z.geb clientStartIndex clientEndIndex then Throw (JsError "clientStartIndex >= clientEndIndex")
  else
    sessionId ← getSessionId;
    let timeout := num_max (num_mul duration (Some 1000)) (Some 20000) in
    Ok (mkChatConfig (parseInt containerIndexStr) (parseInt containerCountStr) process
          (parseInt processesPerContainerStr) clientsCount clientsPerProcess duration sessionId spaceId
          announceChannelId (split channelIdsStr ",") allWallets clientStartIndex clientEndIndex wallets
          now timeout timeout).

(** [check(clients.length === chatConfig.clientsPerProcess)] of [startStressChat]. *)
Definition check_clients {C} (clients : list C) (cfg : ChatConfig) : result unit :=
  let n := Z.of_nat (length clients) in
  check (num_cmp Z.eqb (Some n) (clientsPerProcess cfg))
    (Some ("clients.length !== chatConfig.clientsPerProcess " +:+ pretty n +:+ " !== " +:+ num_show (clientsPerProcess cfg)))
    None.

(** ** start.ts *)

Inductive stress_mode := Mode_chat | Mode_setup_chat.

(** [Wallet.fromMnemonic] takes the first path when none is given. *)
Definition getRootWallet : result (Wallet * string) :=
  mnemonic ← env_set "MNEMONIC";
  wallet ← fromMnemonic mnemonic (wallet_path 0);
  Ok (wallet, mnemonic).

Definition getStressMode : result string := env_set "STRESS_MODE".

(** The index of the process, what it runs, and its root wallet. *)
Definition start : result (num * stress_mode * Wallet) :=
  index ← env_set "PROCESS_INDEX";
  mode ← getStressMode;
  if String.eqb mode "chat" then
    root ← getRootWallet;
    Ok (parseInt index, Mode_chat, root.1)
  else if String.eqb mode "setup_chat" then
    root ← getRootWallet;
    Ok (parseInt index, Mode_setup_chat, root.1)
  else Throw (JsError "unknown stress mode").
End Wallets.
Arguments ChatConfig : clear implicits.

(** ** Lemmas *)

(** What a process takes is a piece of the wallets. *)
Lemma js_slice_piece {A} (l : list A) (a k : Z) : 0 <= a -> 0 <= k -> a + k <= Z.of_nat (length l) ->
  js_slice (Some a) (Some (a + k)) l = take (Z.to_nat k) (drop (Z.to_nat a) l).
Proof.
  intros Ha Hk Hl. unfold js_slice, slice_index. cbn [default from_option id].
  destruct (Z.ltb_spec a 0), (Z.ltb_spec (a + k) 0); [lia..|]. rewrite !Z.min_l by lia. f_equal. lia.
Qed.

Lemma concat_pieces {A} (l : list A) (k m : nat) :
  concat (map (fun i => take k (drop (i * k) l)) (seq 0 m)) = take (m * k) l.
Proof.
  induction m as [|m IH]; [done|]. rewrite seq_S, map_app, concat_app, IH. cbn [map concat Nat.add].
  rewrite app_nil_r. replace (S m * k)%nat with (m * k + k)%nat by lia. by rewrite <- take_take_drop.
Qed.

Lemma random_product r n : 0 <= r < RANDOM_RANGE -> 0 < n -> round_product (r * n) < n * RANDOM_RANGE /\ 0 <= round_product (r * n).
Proof.
  unfold round_product. intros [Hr Hr'] Hn. assert (HR : 0 < RANDOM_RANGE) by done.
  destruct (Z.ltb_spec (r * n) RANDOM_RANGE) as [Hp|Hp].
  { split; [|nia]. apply (Z.lt_le_trans _ RANDOM_RANGE); [done|]. rewrite <- (Z.mul_1_l RANDOM_RANGE) at 1.
    apply Z.mul_le_mono_nonneg_r; lia. }
  set (p := r * n) in *. assert (Hpos : 0 < p) by lia.
  destruct (Z.log2_spec p Hpos) as [Hlo _].
  assert (Hlog : 53 <= Z.log2 p) by (apply Z.log2_le_pow2; [done|exact Hp]).
  set (u := 2 ^ (Z.log2 p - 52)).
  assert (Hu : 2 ^ Z.log2 p = u * 2 ^ 52) by (unfold u; rewrite <- Z.pow_add_r by lia; f_equal; lia).
  assert (Hu0 : 0 < u) by (apply Z.pow_pos_nonneg; lia).
  assert (Hmod := Z.mod_pos_bound p u Hu0). assert (Hdiv := Z.div_mod p u (ltac:(lia))).
  assert (Hpn : p <= n * RANDOM_RANGE - n) by (unfold p; nia).
  assert (Hun : u < 2 * n) by (change RANDOM_RANGE with (2 * 2 ^ 52) in Hpn; nia).
  assert (0 <= p / u) by (apply Z.div_pos; lia).
  cbv zeta. destruct ((u <? 2 * (p - p / u * u)) || (u =? 2 * (p - p / u * u)) && Z.odd (p / u)) eqn:Hup; [|nia].
  assert (u <= 2 * (p - p / u * u)).
  { apply orb_prop in Hup as [Hup|Hup]; [lia|]. apply andb_prop in Hup as [Hup _]. lia. }
  nia.
Qed.

Lemma random_index_range r n : 0 <= r < RANDOM_RANGE -> 0 < n -> 0 <= random_index r n < n.
Proof.
  intros Hr Hn. destruct (random_product r n Hr Hn) as [H1 H2]. unfold random_index. split.
  - by apply Z.div_pos.
  - apply Z.div_lt_upper_bound; [done|]. lia.
Qed.

Lemma pick_from_elem l r : l <> [] -> 0 <= r < RANDOM_RANGE -> pick_from l r ∈ l.
Proof.
  intros Hl Hr. unfold pick_from. assert (0 < Z.of_nat (length l)) by (destruct l; [done|cbn; lia]).
  pose proof (random_index_range r (Z.of_nat (length l)) Hr ltac:(done)) as Hi.
  destruct (lookup_lt_is_Some_2 l (Z.to_nat (random_index r (Z.of_nat (length l))))) as [x Hx]; [lia|].
  rewrite Hx. by eapply list_elem_of_lookup_2.
Qed.

(** [split] never gives an empty array, so there is always a channel to chat in. *)
Lemma split_nonempty s sep : split s sep <> [].
Proof.
  unfold split. assert (Hg : forall skip acc, split_loop sep s skip acc <> []); [|apply Hg].
  induction s as [|c s IH]; intros skip acc; cbn [split_loop]; [done|].
  destruct skip; [|apply IH]. destruct (startsWith _ _); [done|apply IH].
Qed.

Lemma includes_app s t p : includes t p = true -> includes (s +:+ t) p = true.
Proof.
  intros Hp. induction s as [|c s IH]; [done|]. change (String c s +:+ t) with (String c (s +:+ t)).
  cbn [includes]. rewrite IH. by rewrite orb_true_r.
Qed.

Lemma includes_prefix p s : includes (p +:+ s) p = true.
Proof.
  assert (startsWith (p +:+ s) p = true) as Hp.
  { unfold startsWith. induction p as [|c p IH]; [by destruct s|].
    change (String c p +:+ s) with (String c (p +:+ s)). cbn [String.prefix].
    by destruct (Ascii.ascii_dec c c). }
  destruct (p +:+ s); cbn [includes]; by rewrite Hp.
Qed.

(** *** Names *)

Definition is_digit (c : Ascii.ascii) : bool := ((48 <=? Ascii.nat_of_ascii c) && (Ascii.nat_of_ascii c <=? 57))%nat.
Definition no_digits (s : string) : bool := str_forallb (fun c => negb (is_digit c)) s.

Lemma pretty_N_go_digits x s : str_forallb is_digit s = true -> str_forallb is_digit (pretty_N_go x s) = true.
Proof.
  revert s. induction (N.lt_wf_0 x) as [x _ IH]; intros s Hs.
  destruct (decide (0 < x)%N) as [Hx|Hx]; [|by replace x with 0%N by lia].
  rewrite pretty_N_go_step by done. apply IH; [by apply N.div_lt|]. cbn [str_forallb].
  rewrite Hs, andb_true_r. pose proof (N.mod_lt x 10 ltac:(done)) as Hm.
  unfold pretty_N_char. destruct (x `mod` 10)%N as [|[[[|[]|]|[|[]|]|]|[[|[]|]|[|[]|]|]|]]; done || (exfalso; lia).
Qed.

Lemma pretty_digits i : 0 <= i -> str_forallb is_digit (pretty i) = true.
Proof.
  intros Hi. destruct i as [|p|p]; [done| |lia].
  change (str_forallb is_digit (pretty (N.pos p)) = true). unfold pretty, pretty_N. case_decide; [done|].
  by apply pretty_N_go_digits.
Qed.

Lemma split_at_digits p1 p2 d1 d2 : no_digits p1 = true -> no_digits p2 = true ->
  str_forallb is_digit d1 = true -> str_forallb is_digit d2 = true -> p1 +:+ d1 = p2 +:+ d2 -> d1 = d2.
Proof.
  revert p2. induction p1 as [|c p1 IH]; intros [|c2 p2] H1 H2 Hd1 Hd2; cbn in *; [done| | |].
  - intros Heq. change (d1 = String c2 (p2 +:+ d2)) in Heq. rewrite Heq in Hd1. cbn in Hd1. apply andb_prop in Hd1 as [Hd _], H2 as [H2 _]. by rewrite Hd in H2.
  - intros Heq. change (String c (p1 +:+ d1) = d2) in Heq. rewrite <- Heq in Hd2. cbn in Hd2. apply andb_prop in Hd2 as [Hd _], H1 as [H1 _]. by rewrite Hd in H1.
  - apply andb_prop in H1 as [_ H1], H2 as [_ H2]. intros Heq.
    change (String c (p1 +:+ d1) = String c2 (p2 +:+ d2)) in Heq. injection Heq as _ Heq. by apply (IH p2).
Qed.

Lemma name_part_letters l i : forallb no_digits l = true -> no_digits (name_part l i) = true.
Proof.
  intros Hl. unfold name_part. case_match; [done|]. destruct (l !! _) as [x|] eqn:Hx; [|done]. cbn.
  rewrite forallb_forall in Hl. apply Hl, list_elem_of_In. by eapply list_elem_of_lookup_2.
Qed.

(** No two clients of the test ask for one username. *)
Theorem bot_names_differ i j : 0 <= i -> 0 <= j -> i <> j -> makeBotName i <> makeBotName j.
Proof.
  intros Hi Hj Hij. unfold makeBotName. rewrite <- !str_app_assoc. intros Heq. apply Hij.
  apply (inj pretty). eapply split_at_digits; [| | | |exact Heq]; [| |by apply pretty_digits..];
    unfold no_digits; rewrite str_forallb_app; apply andb_true_intro;
    by split; apply name_part_letters.
Qed.

(** *** Configuration *)

Section Config.
Context `{Externals} {Wallet : Type} (fromMnemonic : string -> string -> result Wallet) (env : string -> option string).

Lemma generate_length phrase indices ws : generate fromMnemonic phrase indices = Ok ws -> length ws = length indices.
Proof.
  revert ws. induction indices as [|i indices IH]; intros ws Hg; cbn [generate] in Hg; [by injection Hg as <-|].
  split_Ok Hg. injection Hg as <-. cbn. f_equal. by apply IH.
Qed.

Lemma getChatConfig_other now phrase cfg i k : getChatConfig fromMnemonic env now (Some 0) phrase = Ok cfg ->
  clientsPerProcess cfg = Some k ->
  0 < k
  /\ (forall n, clientsCount cfg = Some n -> Z.of_nat (length (allWallets cfg)) = n)
  /\ exists cfg', getChatConfig fromMnemonic env now (Some i) phrase = Ok cfg'
       /\ clientsPerProcess cfg' = Some k /\ allWallets cfg' = allWallets cfg
       /\ wallets cfg' = js_slice (Some (i * k)) (Some (i * k + k)) (allWallets cfg).
Proof.
  unfold getChatConfig. intros Hc Hk. split_Ok Hc. destruct (num_cmp _ _ _) eqn:Hcmp; [done|]. split_Ok Hc.
  injection Hc as <-. cbn in Hk. rewrite Hk in Hcmp. cbn in Hcmp.
  assert (0 < k) by (rewrite Z.geb_leb in Hcmp; lia).
  split_and!; [done| |].
  - intros n Hn. cbn [allWallets clientsCount] in *. rewrite Hn in Ha8. unfold generateWalletsFromSeed in Ha8.
    destruct (num_cmp Z.gtb _ _) eqn:Hgt; [done|]. apply generate_length in Ha8. rewrite Ha8.
    cbn in Hgt |- *. rewrite Z.gtb_ltb in Hgt. rewrite length_seqZ. lia.
  - rewrite Ha, Ha0, Ha1, Ha2, Ha3, Ha4, Ha5, Ha6. res_simpl. rewrite Ha7. res_simpl. rewrite Ha8. res_simpl.
    rewrite Hk. cbn [num_mul num_add mbind option_bind num_cmp]. rewrite Z.geb_leb, (proj2 (Z.leb_gt _ _)) by lia.
    rewrite Ha9. res_simpl. by eexists.
Qed.

(** The first wallet is the root wallet: the client that kicks off the test pays with
    the wallet the environment names. *)
Theorem root_wallet_kicks_off now process cfg root phrase n :
  getRootWallet fromMnemonic env = Ok (root, phrase) -> getChatConfig fromMnemonic env now process phrase = Ok cfg ->
  clientsCount cfg = Some n -> 0 < n -> allWallets cfg !! 0%nat = Some root.
Proof.
  unfold getRootWallet, getChatConfig. intros Hr Hc Hn Hpos. split_Ok Hr. injection Hr as <- ->. split_Ok Hc.
  destruct (num_cmp Z.geb _ _); [done|]. split_Ok Hc. injection Hc as <-. cbn [clientsCount allWallets] in *.
  match goal with Hg : generateWalletsFromSeed _ _ _ _ = Ok _ |- _ => rename Hg into Hgen end.
  rewrite Hn in Hgen. unfold generateWalletsFromSeed in Hgen. destruct (num_cmp Z.gtb _ _); [done|].
  cbn [index_range] in Hgen. rewrite Z.sub_0_r, seqZ_cons in Hgen by lia. cbn [generate] in Hgen. split_Ok Hgen.
  injection Hgen as <-. cbn. congruence.
Qed.

(** The processes share out the wallets: when process 0 is configured and [m] processes
    of its [k] clients are as many as there are clients, then every process is
    configured, has a client for each place it counts on, and the wallets of the
    processes laid end to end are all the wallets, none left out or used twice. *)
Theorem processes_share_wallets now phrase cfg (m : nat) k :
  getChatConfig fromMnemonic env now (Some 0) phrase = Ok cfg ->
  clientsPerProcess cfg = Some k -> clientsCount cfg = Some (Z.of_nat m * k) ->
  exists cfgs : list (ChatConfig Wallet),
    length cfgs = m
    /\ (forall i c, cfgs !! i = Some c ->
          getChatConfig fromMnemonic env now (Some (Z.of_nat i)) phrase = Ok c
          /\ check_clients (wallets c) c = Ok tt)
    /\ concat (map wallets cfgs) = allWallets cfg.
Proof.
  intros Hc Hk Hn.
  set (config i := getChatConfig fromMnemonic env now (Some (Z.of_nat i)) phrase).
  exists (map (fun i => match config i with Ok c => c | Throw _ => cfg end) (seq 0 m)).
  destruct (getChatConfig_other now phrase cfg 0 k Hc Hk) as (Hk0 & Hlen & _). specialize (Hlen _ Hn).
  assert (Hcfg : forall i, (i < m)%nat -> exists c, config i = Ok c /\ clientsPerProcess c = Some k
    /\ wallets c = take (Z.to_nat k) (drop (i * Z.to_nat k) (allWallets cfg))).
  { intros i Hi. destruct (getChatConfig_other now phrase cfg (Z.of_nat i) k Hc Hk) as (_ & _ & c & Hok & Hkc & _ & Hw).
    exists c. split_and!; [done|done|]. rewrite Hw, js_slice_piece by nia. f_equal. f_equal. lia. }
  split_and!.
  - by rewrite length_map, length_seq.
  - intros i c Hi. rewrite list_lookup_fmap, fmap_Some in Hi. destruct Hi as (j & Hj & ->).
    apply lookup_seq in Hj as [-> Hj]. destruct (Hcfg i Hj) as (c & Hok & Hkc & Hw). cbn [Nat.add]. rewrite Hok.
    split; [done|]. unfold check_clients. rewrite Hkc, Hw, length_take_le.
    + cbn. by rewrite Z2Nat.id, Z.eqb_refl by lia.
    + rewrite length_drop. nia.
  - rewrite map_map. rewrite <- (take_ge (allWallets cfg) (m * Z.to_nat k)) by nia. rewrite <- concat_pieces.
    f_equal. apply map_ext_in. intros i Hi%in_seq. destruct (Hcfg i ltac:(lia)) as (c & Hok & _ & Hw). by rewrite Hok.
Qed.
End Config.

(** Twelve clients in four processes. *)
Definition example_env (name : string) : option string :=
  jm_get name [("CLIENTS_PER_PROCESS", "3"); ("CLIENTS_COUNT", "12"); ("SPACE_ID", "10aa"); ("CHANNEL_IDS", "20aa,20bb");
    ("CONTAINER_INDEX", "0"); ("CONTAINER_COUNT", "2"); ("PROCESSES_PER_CONTAINER", "2"); ("STRESS_DURATION", "180");
    ("SESSION_ID", "5e551"); ("ANNOUNCE_CHANNEL_ID", "20cc")].
Definition example_wallet (phrase path : string) : result string := Ok (phrase +:+ path).
Definition example_config : result (ChatConfig string) := getChatConfig example_wallet example_env 0 (Some 0) "root".

Lemma processes_share_wallets_witness :
  exists cfgs, length cfgs = 4%nat /\ concat (map (wallets (Wallet := string)) cfgs) = map (fun i => "root" +:+ wallet_path i) (seqZ 0 12).
Proof.
  destruct example_config as [cfg|] eqn:Hc; [|by vm_compute in Hc].
  destruct (processes_share_wallets example_wallet example_env 0 "root" cfg 4 3 Hc) as (cfgs & Hl & _ & Hw).
  - vm_compute in Hc. by injection Hc as <-.
  - vm_compute in Hc. by injection Hc as <-.
  - exists cfgs. split; [done|]. rewrite Hw. vm_compute in Hc. by injection Hc as <-.
Defined.

Lemma bot_names_differ_witness : makeBotName 3 <> makeBotName 4.
Proof. by apply (bot_names_differ 3 4). Defined.
