(* ===== verification/StressChat.v ===== *)
(** * The load test: its clients and what they do (core/stress/src)

    [StressClient] (utils/stressClient.ts) wraps a client of the SDK and the contracts of
    a space; mode/chat/*.ts are the programs of the clients of a process. The programs
    are written against the interface [scall], the methods they await: [perform] says
    how the client of [ClientOps] and its companions carries them out, and
    [implementation] runs a program on it.

    The state is that of the SDK's client, together with the clock, the numbers that
    [Math.random] will give and what the host reports about itself. A promise of
    [setTimeout] is the call [Timer], which answers with the time at which it fires. The
    loops that poll take the number of their rounds; a loop that is out of rounds stops
    at [NeverSettles], and [waitFor_ends] says how many are enough. *)

From stdpp Require Import pretty.
From S2P Require Import Prelude Proto Externals ToyExternals Binary StreamId Types Members UserMetadata Usernames User Sign Persistence.
From S2P Require Import StreamStateView SyncedStream DecryptionQueues DecryptionExtensions EncryptionDevice Async ClientState ClientSend ClientStreams ClientOps.
From S2P Require Import RiverConfig StressUtils.

(** [getSystemInfo] (utils/systemInfo.ts): what the host reports. *)
Record SystemInfo := mkSystemInfo {
  OperatingSystem : string;
  SystemUptime : string;
  TotalMemory : string;
  FreeMemory : string;
  CPUCount : string;
  CPUModel : string;
  CPUSpeed : string;
}.

(** [MembershipStruct] of the contracts, without the empty rule data. *)
Record MembershipInfo := mkMembershipInfo {
  mi_name : string;
  mi_symbol : string;
  mi_price : Z;
  mi_maxSupply : Z;
  mi_duration : Z;
  mi_currency : string;
  mi_feeRecipient : string;
  mi_freeAllocation : Z;
  mi_pricingModule : string;
  mi_permissions : list string;
  mi_everyone : bool;
  mi_users : list string;
}.

Definition ETH_ADDRESS : string := "0xEeeeeEeeeEeEeeEeEeEeeEEEeeeeEeeeeeeeEEeE".

(** ** What the programs await *)

(** The contracts of the space, through [SpaceDapp] and the wallet; the client of the
    SDK; time. A transaction is a number, [TxWait] gives the address of the space its
    receipt names. *)
Inductive scall :=
| NeverSettles
| Timer (due : Z)
| GetBalance
| HasSpaceMembership (spaceId address : string)
| JoinSpaceTx (spaceId address : string)
| GetDynamicPricingModule
| CreateSpaceTx (spaceName spaceMetadata channelName : string) (membership : MembershipInfo)
| GetRoles (spaceId : string)
| CreateChannelTx (spaceId channelName channelId : string) (roleIds : list Z)
| TxWait (tx : nat)
| RpcStreamExists (streamId : bytes)
| GetStreamView (streamId : string)
| InitializeUser (spaceId : string)
| JoinStream (streamId : string)
| WaitForStream (streamId : string)
| EnsureOutboundSession (streamId : string)
| SendText (channelId : string) (threadId threadPreview replyId replyPreview : option string) (body : string)
    (mentions : list Mention)
| SendReaction (channelId refEventId reaction : string)
| SetUsername (streamId username : string)
| CreateSpaceStream (spaceId : string)
| CreateChannelStream (spaceId channelId : string)
| StopClient.

Definition sans `{Externals} (c : scall) : Type :=
  match c with
  | NeverSettles => Empty_set
  | Timer _ | GetBalance => Z
  | HasSpaceMembership _ _ | JoinSpaceTx _ _ | RpcStreamExists _ => bool
  | GetDynamicPricingModule => string
  | CreateSpaceTx _ _ _ _ | CreateChannelTx _ _ _ _ | WaitForStream _ => nat
  | GetRoles _ => list (Z * string)
  | TxWait _ => option string
  | GetStreamView _ => StreamStateView.t
  | SendText _ _ _ _ _ _ _ | SendReaction _ _ _ => string
  | InitializeUser _ | JoinStream _ | EnsureOutboundSession _ | SetUsername _ _ | CreateSpaceStream _
  | CreateChannelStream _ _ | StopClient => unit
  end.

Section Stress.
Context `{Externals, Database}.

Record stress := mkStress {
  sdk : ClientState.t;
  syncStarted : bool;
  clock : Z;
  randoms : list Z;
  sysinfo : SystemInfo;
}.
Definition set_sdk (v : ClientState.t) (s : stress) : stress := mkStress v (syncStarted s) (clock s) (randoms s) (sysinfo s).
Definition set_syncStarted (v : bool) (s : stress) : stress := mkStress (sdk s) v (clock s) (randoms s) (sysinfo s).
Definition set_clock (v : Z) (s : stress) : stress := mkStress (sdk s) (syncStarted s) v (randoms s) (sysinfo s).
Definition set_randoms (v : list Z) (s : stress) : stress := mkStress (sdk s) (syncStarted s) (clock s) v (sysinfo s).

Abbreviation StressM := (async stress sans).
Definition s_await (c : scall) : StressM (sans c) := a_await c.

(** [Date.now()] *)
Definition date_now : StressM Z := s ← a_get; mret (clock s).

Definition sample {A} (m : draws A) : StressM A :=
  s ← a_get;
  let '(a, rs) := m (randoms s) in
  a_modify (set_randoms rs);;
  mret a.

(** [await new Promise((resolve) => setTimeout(resolve, ms))] *)
Definition sleep (ms : Z) : StressM unit :=
  now ← date_now;
  fired ← s_await (Timer (now + ms));
  a_modify (fun s => set_clock (clock s `max` fired) s).

Definition never_settles {A} : StressM A :=
  Await NeverSettles (fun r => match r with Ok e => match e : Empty_set with end | Throw e => Done (Throw e) end).

(** ** utils/waitFor.ts *)

(** [condition] gives a truthy value or [None]; [interval] is in whole milliseconds. *)
Fixpoint poll {T} (rounds : nat) (condition : StressM (option T)) (interval : Z) (timeoutMs : num) (start : Z)
    (logId : string) : StressM T :=
  match rounds with
  | O => never_settles
  | S rounds =>
      result ← condition;
      match result with
      | Some t => mret t
      | None =>
          now ← date_now;
          if num_cmp Z.gtb (Some (now - start)) timeoutMs
          then a_throw (JsError (logId +:+ " timeout after " +:+ num_show timeoutMs +:+ "ms"))
          else sleep interval;; poll rounds condition interval timeoutMs start logId
      end
  end.
Definition waitFor {T} (rounds : nat) (condition : StressM (option T)) (interval : option Z) (timeoutMs : option num)
    (logId : string) : StressM T :=
  start ← date_now;
  poll rounds condition (default 100 interval) (default (Some 10000) timeoutMs) start logId.

(** ** utils/stressClient.ts *)

(** [delegate.isEntitled] of [makeStressClient], over the answers of [SpaceDapp]. *)
Definition isEntitled (environmentId : string) (isEntitledToChannel : string -> string -> string -> string -> result bool)
    (isEntitledToSpace : string -> string -> string -> result bool) (spaceId channelId : option string)
    (user permission : string) : result bool :=
  if String.eqb environmentId "local_single_ne" then Ok true
  else match truthy_str spaceId, truthy_str channelId with
       | Some spaceId, Some channelId => isEntitledToChannel spaceId channelId user permission
       | Some spaceId, None => isEntitledToSpace spaceId user permission
       | None, _ => Ok true
       end.

(** The fields that the programs use: the address is that of the wallet. *)
Record StressClient := mkStressClient { clientIndex : Z; conn_userId : string; conn_address : string }.

Definition logId (client : StressClient) : string :=
  "client" +:+ pretty (clientIndex client) +:+ ":" +:+ shortenHexString (conn_userId client).

Definition waitForClient {T} (client : StressClient) (rounds : nat) (condition : StressM (option T)) (interval : option Z)
    (timeoutMs : option num) : StressM T :=
  waitFor rounds condition interval timeoutMs (logId client).

Definition userExists (client : StressClient) (inUserId : option string) : StressM bool :=
  let userId := default (conn_userId client) inUserId in
  userStreamId ← a_lift (makeUserStreamId (IdString userId) userId);
  id ← a_lift (streamIdAsBytes (IdString userStreamId));
  s_await (RpcStreamExists id).

Definition isMemberOf (client : StressClient) (streamId : string) (inUserId : option string) : StressM bool :=
  let userId := default (conn_userId client) inUserId in
  s ← a_get;
  view ← match ClientState.stream (IdString streamId) (sdk s) with
         | Some r => a_lift (view_of r (sdk s))
         | None => s_await (GetStreamView streamId)
         end;
  mret (userIsEntitledToKeyExchange view userId).

Definition startStreamsClient (spaceId : string) : StressM unit :=
  s ← a_get;
  if is_defined (ClientState.userStreamId (sdk s)) then mret tt
  else
    s_await (InitializeUser spaceId);;
    a_modify (set_syncStarted true).

Definition membershipInfo (client : StressClient) (pricingModule : string) : MembershipInfo :=
  mkMembershipInfo "Everyone" "MEMBER" 0 1000 0 ETH_ADDRESS (conn_userId client) 0 pricingModule ["Read"; "Write"] true [].

Definition createSpace (client : StressClient) (spaceName : string) : StressM (string * string) :=
  pricingModule ← s_await GetDynamicPricingModule;
  transaction ← s_await (CreateSpaceTx spaceName spaceName "general" (membershipInfo client pricingModule));
  address ← s_await (TxWait transaction);
  match truthy_str address with
  | None => a_throw (JsError "Space address not found")
  | Some spaceAddress =>
      spaceId ← a_lift (makeSpaceStreamId spaceAddress);
      defaultChannelId ← a_lift (makeDefaultChannelStreamId spaceAddress);
      startStreamsClient spaceId;;
      s_await (CreateSpaceStream spaceId);;
      s_await (CreateChannelStream spaceId defaultChannelId);;
      mret (spaceId, defaultChannelId)
  end.

(** [random] is the random part of the id of the channel. *)
Definition createChannel (random spaceId channelName : string) : StressM string :=
  channelId ← a_lift (makeUniqueChannelStreamId spaceId random);
  roles ← s_await (GetRoles spaceId);
  tx ← s_await (CreateChannelTx spaceId channelName channelId
                  (map fst (List.filter (fun role => negb (String.eqb role.2 "Owner")) roles)));
  _ ← s_await (TxWait tx);
  s_await (CreateChannelStream spaceId channelId);;
  mret channelId.

Definition sendMessage (channelId message : string) (threadId replyId : option string) (mentions : option (list Mention))
    : StressM string :=
  s_await (SendText channelId threadId (if is_defined (truthy_str threadId) then Some "🙉" else None)
             replyId (if is_defined (truthy_str replyId) then Some "🙈" else None) message (default [] mentions)).

Definition sendReaction (channelId refEventId reaction : string) : StressM string :=
  s_await (SendReaction channelId refEventId reaction).

Definition joinSpace (client : StressClient) (spaceId : string) (skipMintMembership : bool) : StressM unit :=
  (if skipMintMembership then mret tt
   else _ ← s_await (JoinSpaceTx spaceId (conn_address client)); mret tt);;
  startStreamsClient spaceId;;
  s_await (JoinStream spaceId);;
  channel ← a_lift (makeDefaultChannelStreamId spaceId);
  s_await (JoinStream channel).

Definition stop : StressM unit := s_await StopClient.

(** ** Timelines *)

(** [view.timeline] as the events that its references stand for. *)
Definition timeline_of (view : StreamStateView.t) : list (ref * StreamTimelineEvent) :=
  omap (fun r => e ← heap view !! r; Some (r, e)) (timeline view).

Definition mentions_session (sessionId : string) : StreamTimelineEvent -> bool :=
  channelMessagePostWhere (fun body => includes body sessionId).

(** [view.timeline.find(...)]: the event object, a reference. *)
Definition find_session (sessionId : string) (view : StreamStateView.t) : option ref :=
  fst <$> List.find (fun re => mentions_session sessionId re.2) (timeline_of view).

(** A property of an event object, read when it is used. *)
Definition hash_of (stream message : nat) : StressM string :=
  s ← a_get;
  view ← a_lift (view_of stream (sdk s));
  match heap view !! message with
  | Some e => mret (te_hashStr e)
  | None => a_throw (JsError "Cannot read properties of undefined")
  end.

(** [await client.cryptoBackend?.ensureOutboundSession(...)] *)
Definition ensureKeysShared (channelId : string) : StressM unit :=
  s ← a_get;
  if is_defined (cryptoBackend (sdk s)) then s_await (EnsureOutboundSession channelId) else mret tt.

(** ** mode/chat *)

Section Chat.
Context {Wallet : Type} (address : Wallet -> string) (cfg : ChatConfig Wallet).

(** [startRootClient] and [startFollowerClient]: the first mints the membership, and
    needs a balance to do so for a new user. *)
Definition startClient (client : StressClient) (root : bool) (balance : Z) : StressM unit :=
  exists_ ← userExists client None;
  (if negb exists_ then
     (if root && (balance <=? 0) then a_throw (JsError "Insufficient balance") else mret tt);;
     joinSpace client (spaceId cfg) (negb root)
   else
     isMember ← isMemberOf client (spaceId cfg) None;
     if negb isMember then joinSpace client (spaceId cfg) (negb root) else startStreamsClient (spaceId cfg));;
  isChannelMember ← isMemberOf client (announceChannelId cfg) None;
  if negb isChannelMember then s_await (JoinStream (announceChannelId cfg)) else mret tt.
Definition startRootClient (client : StressClient) (balance : Z) : StressM unit := startClient client true balance.
Definition startFollowerClient (client : StressClient) : StressM unit := startClient client false 0.

(** *** kickoffChat.ts *)

Definition announcement : string :=
  "hello, we're starting the stress test now!, containers: " +:+ num_show (containerCount cfg) +:+ " ppc: "
    +:+ num_show (processesPerContainer cfg) +:+ " clients: " +:+ num_show (clientsCount cfg) +:+ " sessionId: " +:+ sessionId cfg.

Definition systemInfoJson (i : SystemInfo) : json :=
  JObject [("OperatingSystem", JString (OperatingSystem i)); ("SystemUptime", JString (SystemUptime i));
    ("TotalMemory", JString (TotalMemory i)); ("FreeMemory", JString (FreeMemory i)); ("CPUCount", JString (CPUCount i));
    ("CPUModel", JString (CPUModel i)); ("CPUSpeed", JString (CPUSpeed i))].

Definition initialStats (shareKeysDuration balance : Z) : json :=
  JObject [("timeToShareKeys", JString (pretty shareKeysDuration +:+ "ms")); ("walletBalance", JString (pretty balance));
    ("testDuration", JNumber (duration cfg)); ("clientsCount", JNumber (clientsCount cfg))].

Definition mintMembership (wallet : Wallet) : StressM unit :=
  hasSpaceMembership ← s_await (HasSpaceMembership (spaceId cfg) (address wallet));
  if (hasSpaceMembership : bool) then mret tt
  else
    _ ← s_await (JoinSpaceTx (spaceId cfg) (address wallet));
    sleep 1100.

Definition kickoffChat (rootClient : StressClient) : StressM unit :=
  a_lift (check (clientIndex rootClient =? 0) (Some "rootClient.clientIndex === 0") None);;
  balance ← s_await GetBalance;
  startRootClient rootClient balance;;
  _ ← s_await (WaitForStream (announceChannelId cfg));
  shareKeysStart ← date_now;
  ensureKeysShared (announceChannelId cfg);;
  now ← date_now;
  eventId ← sendMessage (announceChannelId cfg) announcement None None None;
  s ← a_get;
  _ ← sendMessage (announceChannelId cfg)
        ("System Info: " +:+ makeCodeBlock (systemInfoJson (sysinfo s)) +:+ " Initial Stats: "
           +:+ makeCodeBlock (initialStats (now - shareKeysStart) balance))
        (Some eventId) None None;
  a_for (allWallets cfg) mintMembership.

(** *** joinChat.ts *)

Definition startupMessage (info : SystemInfo) : string :=
  "c" +:+ num_show (containerIndex cfg) +:+ "p" +:+ num_show (processIndex cfg) +:+ " Starting up! freeMemory: "
    +:+ FreeMemory info +:+ " clientStart:" +:+ num_show (startIndex cfg) +:+ " " +:+ num_show (endIndex cfg).

(** Whether the user stream says that the user is in the channel. *)
Definition joinedAlready (channelId : string) : StressM bool :=
  s ← a_get;
  match ClientState.userStreamId (sdk s) ≫= (fun id => jm_get id (streams (sdk s))) with
  | Some r =>
      view ← a_lift (view_of r (sdk s));
      user ← a_lift (userContent view);
      mret (User.isJoined user channelId)
  | None => mret false
  end.

Definition checkIn (channelId : string) : StressM unit :=
  joined ← joinedAlready channelId;
  (if (joined : bool) then mret tt
   else
     s_await (JoinStream channelId);;
     _ ← s_await (WaitForStream channelId);
     mret tt);;
  silly ← sample (makeSillyMessage (Some 2));
  _ ← sendMessage channelId (silly +:+ "! " +:+ sessionId cfg) None None None;
  mret tt.

(** [1000 + Math.random() * 1000], in whole milliseconds *)
Definition membershipInterval : StressM Z := r ← sample draw; mret (1000 + random_index r 1000).

Definition checkMembership (client : StressClient) : StressM (option unit) :=
  b ← s_await (HasSpaceMembership (spaceId cfg) (conn_address client));
  mret (if (b : bool) then Some tt else None).

Definition findRootMessage (defaultChannel : nat) : StressM (option ref) :=
  s ← a_get;
  view ← a_lift (view_of defaultChannel (sdk s));
  mret (find_session (sessionId cfg) view).

Definition joinChat (rounds : nat) (client : StressClient) : StressM unit :=
  interval ← membershipInterval;
  _ ← waitForClient client rounds (checkMembership client) (Some interval) (Some (waitForSpaceMembershipTimeoutMs cfg));
  startFollowerClient client;;
  defaultChannel ← s_await (WaitForStream (announceChannelId cfg));
  message ← waitForClient client rounds (findRootMessage defaultChannel) (Some 1000) (Some (waitForChannelDecryptionTimeoutMs cfg));
  (if num_cmp Z.eqb (Some (clientIndex client)) (startIndex cfg) then
     ensureKeysShared (announceChannelId cfg);;
     s ← a_get;
     hash ← hash_of defaultChannel message;
     _ ← sendMessage (announceChannelId cfg) (startupMessage (sysinfo s)) (Some hash) None None;
     mret tt
   else mret tt);;
  hash ← hash_of defaultChannel message;
  emoji ← sample getRandomEmoji;
  _ ← sendReaction (announceChannelId cfg) hash emoji;
  a_for (channelIds cfg) checkIn.

(** *** updateProfile.ts *)

Definition updateProfile (client : StressClient) : StressM unit :=
  r ← s_await (WaitForStream (spaceId cfg));
  s ← a_get;
  view ← a_lift (view_of r (sdk s));
  let usernames := UserMetadata.usernames (Members.userMetadata (membershipContent view)) in
  if is_defined (usernameEvents usernames !! conn_userId client) then mret tt
  else s_await (SetUsername (spaceId cfg) (makeBotName (clientIndex client))).

(** *** chitChat.ts *)

(** [Math.random() * averateWaitTime], in whole milliseconds. *)
Definition waitTime (r : Z) : Z :=
  from_option (fun n => (r * (1000 * n * 2)) / (Z.of_nat (length (channelIds cfg)) * RANDOM_RANGE)) 0 (clientsCount cfg).

Fixpoint chat_loop (rounds : nat) (end_ : num) : StressM unit :=
  now ← date_now;
  if negb (num_cmp Z.ltb (Some now) end_) then mret tt
  else
    match rounds with
    | O => never_settles
    | S rounds =>
        channel ← sample (d_bind draw (fun r => d_ret (pick_from (channelIds cfg) r)));
        silly ← sample (makeSillyMessage None);
        _ ← sendMessage channel silly None None None;
        r ← sample draw;
        sleep (waitTime r);;
        chat_loop rounds end_
    end.
Definition chitChat (rounds : nat) : StressM unit :=
  now ← date_now;
  chat_loop rounds (num_add (Some now) (num_mul (duration cfg) (Some 1000))).

(** *** sumarizeChat.ts *)

(** The messages of a channel that a client sees checking in. *)
Definition checkInCount (client : ClientState.t) (channelId : string) : nat :=
  match r ← ClientState.stream (IdString channelId) client; objs client !! r with
  | Some o => length (List.filter (fun re => mentions_session (sessionId cfg) re.2) (timeline_of (o_view o)))
  | None => 0
  end.

(** How many clients of the process saw how many of them, by channel. *)
Definition checkinCounts_t : Type := jsmap (jsmap Z).
Definition count_in (counts : checkinCounts_t) (key n : string) : Z :=
  default 0 (inner ← jm_get key counts; jm_get n inner).
Definition add_count (counts : checkinCounts_t) (key n : string) : checkinCounts_t :=
  jm_set key (jm_set n (count_in counts key n + 1) (default [] (jm_get key counts))) counts.
Definition checkinCounts (localClients : list ClientState.t) : checkinCounts_t :=
  foldl (fun counts client =>
    foldl (fun counts channelId => add_count counts (shortenHexString channelId) (pretty (checkInCount client channelId)))
      counts (channelIds cfg))
    [] localClients.

(** The keys of the inner objects are whole numbers, which an object lists in order. *)
Definition countsJson (counts : checkinCounts_t) : json :=
  JObject (map (fun '(key, inner) => (key, JObject (map (fun '(n, c) => (n, JNumber (Some c)))
    (js_sort (fun a b => num_cmp Z.leb (parseInt a.1) (parseInt b.1)) inner)))) counts).

Record summary := mkSummary { sm_containerIndex : num; sm_processIndex : num; sm_freeMemory : string; sm_checkinCounts : checkinCounts_t }.
Definition summaryJson (s : summary) : json :=
  JObject [("containerIndex", JNumber (sm_containerIndex s)); ("processIndex", JNumber (sm_processIndex s));
    ("freeMemory", JString (sm_freeMemory s)); ("checkinCounts", countsJson (sm_checkinCounts s))].

(** Run by the first client of the process; [others] are the clients after it. *)
Definition sumarizeChat (others : list ClientState.t) : StressM summary :=
  s ← a_get;
  match ClientState.stream (IdString (announceChannelId cfg)) (sdk s) with
  | None => a_lift (throwWithCode (Some "defaultChannel not found") None)
  | Some r =>
      view ← a_lift (view_of r (sdk s));
      match find_session (sessionId cfg) view with
      | None => a_lift (throwWithCode (Some "message not found") None)
      | Some message =>
          let sm := mkSummary (containerIndex cfg) (processIndex cfg) (FreeMemory (sysinfo s)) (checkinCounts (sdk s :: others)) in
          hash ← hash_of r message;
          _ ← sendMessage (announceChannelId cfg) ("Done " +:+ makeCodeBlock (summaryJson sm)) (Some hash) None None;
          mret sm
      end
  end.

(** *** root_chat.ts *)

(** [setupChat]; [randoms] are the random parts of the ids of the channels. *)
Fixpoint createChannels (spaceId : string) (i : nat) (randoms : list string) : StressM (list string) :=
  match randoms with
  | [] => mret []
  | random :: randoms =>
      channelId ← createChannel random spaceId ("stress" +:+ pretty i);
      rest ← createChannels spaceId (S i) randoms;
      mret (channelId :: rest)
  end.
Definition setupChat (client : StressClient) (makeAnnounceChannel : option string) (randoms : list string)
    : StressM (string * string * list string) :=
  created ← createSpace client "stress test space";
  let spaceId := created.1 in
  announceChannelId ← match makeAnnounceChannel with
                      | Some random => createChannel random spaceId "stress anouncements"
                      | None => a_lift (makeDefaultChannelStreamId spaceId)
                      end;
  channelIds ← createChannels spaceId 0 randoms;
  mret (spaceId, announceChannelId, channelIds).

(** [startStressChat] runs the clients of a process through the phases of the test. The
    clients of a phase run at once ([Promise.all]); the next phase starts when all are
    done, and a client that throws ends the test. *)
Inductive phase := Kickoff | Joining | Profiles | Chatting | Summing.
#[global] Instance phase_eq_dec : EqDecision phase.
Proof. solve_decision. Defined.

Definition next_phase (ph : phase) : option phase :=
  match ph with
  | Kickoff => Some Joining
  | Joining => Some Profiles
  | Profiles => Some Chatting
  | Chatting => Some Summing
  | Summing => None
  end.

(** A client, what it has left to do, its state, and the calls it has made with the states
    in which they were answered. *)
Record thread := mkThread {
  th_client : StressClient;
  th_prog : StressM unit;
  th_state : stress;
  th_log : list (event sans * stress);
}.
Record process := mkProcess { pr_phase : phase; pr_threads : list thread }.

Definition set_running (th : thread) (p : StressM unit) (s : stress) (log : list (event sans * stress)) : thread :=
  mkThread (th_client th) (settle p s).1 (settle p s).2 log.

(** What the client at index [i] of the process does in a phase; [states] are those of
    all of them at its start. *)
Definition phase_program (rounds : nat) (ph : phase) (i : nat) (client : StressClient) (states : list stress) : StressM unit :=
  match ph, i with
  | Kickoff, O => kickoffChat client
  | Kickoff, S _ => mret tt
  | Joining, _ => joinChat rounds client
  | Profiles, _ => updateProfile client
  | Chatting, _ => chitChat rounds
  | Summing, O => _ ← sumarizeChat (map sdk (tail states)); mret tt
  | Summing, S _ => mret tt
  end.
Definition start_phase (rounds : nat) (ph : phase) (threads : list thread) : process :=
  mkProcess ph (imap (fun i th =>
    set_running th (phase_program rounds ph i (th_client th) (map th_state threads)) (th_state th) (th_log th)) threads).

Definition finished (th : thread) : Prop := th_prog th = Done (Ok tt).

Inductive process_step (rounds : nat) : process -> process -> Prop :=
| step_answer ph ths i th c k a world :
    ths !! i = Some th -> th_prog th = Await c k ->
    process_step rounds (mkProcess ph ths)
      (mkProcess ph (<[i := set_running th (k a) (world (th_state th)) (th_log th ++ [(mkEvent c a, world (th_state th))])]> ths))
| step_phase ph ph' ths :
    Forall finished ths -> next_phase ph = Some ph' ->
    process_step rounds (mkProcess ph ths) (start_phase rounds ph' ths).

(** The clients are numbered from the first index of the process; process 0 kicks off. *)
Definition startStressChat (rounds : nat) (clients : list StressClient) (states : list stress) : result process :=
  check_clients clients cfg;;
  Ok (start_phase rounds (if num_cmp Z.eqb (processIndex cfg) (Some 0) then Kickoff else Joining)
        (zip_with (fun client s => mkThread client (Done (Ok tt)) s []) clients states)).
End Chat.

(** ** The client of the SDK behind the interface *)

(** What is awaited below the interface: the calls of the SDK's client, and the calls of
    the interface that go elsewhere: to the chain, the clock and the encryption device. *)
Inductive lcall :=
| Sdk (c : ClientState.call)
| Outer (c : scall).
Definition lans (c : lcall) : Type :=
  match c with
  | Sdk c => ClientState.ans c
  | Outer c => sans c
  end.

Abbreviation LowM := (async stress lans).

(** Run a method of the SDK's client. *)
Fixpoint on_sdk {A} (p : ClientM A) : LowM A :=
  match p with
  | Done r => Done r
  | Await c k => Await (Sdk c) (fun r => on_sdk (k r))
  | Get k => Get (fun s => on_sdk (k (sdk s)))
  | Put v p => Get (fun s => Put (set_sdk v s) (on_sdk p))
  end.

Section Implementation.
(** The random id of a local event. *)
Context `{Crypto, JsonStrings} (genLocalId : draws string).

(** [makeConnection] (utils/connection.ts), the parts that the clients use. *)
Definition makeConnection (now : Z) (wallet : Signer) (delegateWallet : Sign.Wallet) : result (SignerContext * string) :=
  signerContext ← makeSignerContext now wallet delegateWallet None;
  userId ← userIdFromAddress (creatorAddress signerContext);
  Ok (signerContext, userId).

(** [makeStressClient]: the client and the state of the SDK's client that it wraps. *)
Definition makeStressClient (now : Z) (index : Z) (wallet : Signer) (delegateWallet : Sign.Wallet) (db : store)
    : result (StressClient * ClientState.t) :=
  connection ← makeConnection now wallet delegateWallet;
  address ← signer_getAddress wallet;
  streamsClient ← ClientState.new connection.1 db;
  Ok (mkStressClient index connection.2 address, streamsClient).

(** The id and the clock that [appendLocalEvent] reads. *)
Definition with_local {A} (f : string -> Z -> ClientM A) : LowM A :=
  Get (fun s => let '(localId, rs) := genLocalId (randoms s) in Put (set_randoms rs s) (on_sdk (f localId (clock s)))).

Definition perform (c : scall) : LowM (sans c) :=
  match c return LowM (sans c) with
  | RpcStreamExists id => r ← (a_await (Sdk (RpcGetStream id true)) : LowM (option StreamAndCookie)); mret (is_defined r)
  | GetStreamView id => on_sdk (getStream id)
  | InitializeUser spaceId => on_sdk (_ ← initializeUser (Some (IdString spaceId)); mret tt)
  | JoinStream id => on_sdk (_ ← joinStream (IdString id) false false; mret tt)
  | WaitForStream id => on_sdk (waitForStream (IdString id))
  | SendText channelId threadId threadPreview replyId replyPreview body mentions =>
      with_local (fun localId now =>
        sendChannelMessage_Text localId now channelId threadId threadPreview replyId replyPreview body mentions [] false)
  | SendReaction channelId refEventId reaction =>
      with_local (fun localId now => sendChannelMessage_Reaction localId now channelId refEventId reaction false)
  | SetUsername streamId username => on_sdk (setUsername streamId username)
  | CreateSpaceStream spaceId => on_sdk (_ ← ClientStreams.createSpace spaceId; mret tt)
  | CreateChannelStream spaceId channelId =>
      on_sdk (_ ← ClientStreams.createChannel (IdString spaceId) (IdString channelId) None; mret tt)
  | c => a_await (Outer c)
  end.

(** A program of the test on the client. *)
Fixpoint implementation {A} (p : StressM A) : LowM A :=
  match p with
  | Done r => Done r
  | Await c k => a_after (perform c) (fun r => implementation (k r))
  | Get k => Get (fun s => implementation (k s))
  | Put s p => Put s (implementation p)
  end.

(** [perform] may answer the call so. *)
Definition performed (s : stress) (c : scall) (a : result (sans c)) (s' : stress) : Prop :=
  exists o, got (run (perform c) o s) = Ended a /\ state (run (perform c) o s) = s'.

(** What a program does on the client, it does on the interface, with the answers that
    the client's methods give. *)
Theorem implementation_refines {A} (p : StressM A) o s r :
  got (run (implementation p) o s) = Ended r ->
  exists tr, behaves performed p s tr r (state (run (implementation p) o s)).
Proof.
  revert o s. induction p as [r'|c k IH|k IH|s' p IH]; intros o s; cbn [implementation].
  - intros [= <-]. eexists. constructor.
  - rewrite run_after. unfold continue. destruct (got (run (perform c) o s)) as [a|] eqn:Ha; [|done].
    cbn [after got state]. intros Hr. destruct (IH _ _ _ Hr) as [tr Htr]. eexists.
    econstructor; [by exists o|exact Htr].
  - intros Hr. destruct (IH _ _ _ Hr) as [tr Htr]. exists tr. by constructor.
  - intros Hr. destruct (IH _ _ Hr) as [tr Htr]. exists tr. by constructor.
Qed.
End Implementation.
End Stress.
