(* ===== verification/StressProperties.v ===== *)
(** * Properties of the load test

    What the programs of [StressChat] do whatever the nodes, the chain and the other
    clients answer, how long they wait, and how the clients of a process keep step. *)

From stdpp Require Import pretty.
From S2P Require Import Prelude Proto Externals ToyExternals Binary StreamId Types Members UserMetadata Usernames User Sign Persistence.
From S2P Require Import StreamStateView SyncedStream DecryptionQueues DecryptionExtensions EncryptionDevice Async ClientState ClientSend ClientStreams ClientOps.
From S2P Require Import Payloads Restore Sending RiverConfig StressUtils StressChat.

Create HintDb stress.

Section Traces.
Context `{Externals, Database}.
Abbreviation StressM := (async stress sans).

(** ** What a client sends *)

(** A message or a reaction that was sent. *)
Definition sent (e : event sans) : option scall :=
  match e with
  | mkEvent (SendText _ _ _ _ _ _ _ as c) (Ok _) | mkEvent (SendReaction _ _ _ as c) (Ok _) => Some c
  | _ => None
  end.
Definition sends (tr : list (event sans)) : list scall := omap sent tr.

Definition is_send (c : scall) : bool :=
  match c with SendText _ _ _ _ _ _ _ | SendReaction _ _ _ => true | _ => false end.

(** [p] sends nothing. *)
Definition quiet {A} (p : StressM A) : Prop := ensures p (fun _ tr => sends tr = []).

Lemma sends_app tr tr' : sends (tr ++ tr') = sends tr ++ sends tr'.
Proof. apply omap_app. Qed.

Lemma quiet_done {A} (r : result A) : quiet (Done r).
Proof. done. Qed.

Lemma quiet_await {A} c (k : result (sans c) -> StressM A) : is_send c = false -> (forall r, quiet (k r)) -> quiet (Await c k).
Proof.
  intros Hc Hk r. eapply ensures_mono, Hk. intros a tr Htr. change (omap sent (mkEvent c r :: tr) = []).
  cbn [omap list_omap]. replace (sent (mkEvent c r)) with (@None scall); [done|]. by destruct c, r.
Qed.

Lemma quiet_get {A} (k : stress -> StressM A) : (forall s, quiet (k s)) -> quiet (Get k).
Proof. done. Qed.

Lemma quiet_put {A} s (p : StressM A) : quiet p -> quiet (Put s p).
Proof. done. Qed.

Lemma quiet_seq {A B} (p : StressM A) (k : A -> StressM B) : quiet p -> (forall a, quiet (k a)) -> quiet (p ≫= k).
Proof.
  intros Hp Hk. apply ensures_bind. eapply ensures_mono, Hp. intros [a|e] tr Htr; [|done].
  eapply ensures_mono, Hk. intros b tr' Htr'. by rewrite sends_app, Htr, Htr'.
Qed.

Lemma quiet_result {A} (r : result A) : quiet (a_lift r).
Proof. done. Qed.
Lemma quiet_s_await c : is_send c = false -> quiet (s_await c).
Proof. intros Hc. by apply quiet_await. Qed.
Lemma quiet_sample {A} (m : draws A) : quiet (sample m).
Proof. unfold sample, a_get, a_modify. apply quiet_seq; [done|]. intros s. destruct (m (randoms s)). apply quiet_seq; done. Qed.
Lemma quiet_never {A} : quiet (never_settles (A := A)).
Proof. apply quiet_await; [done|]. by intros []. Qed.

End Traces.

Ltac quiet_step :=
  lazymatch goal with
  | |- quiet (_ ≫= _) => apply quiet_seq; [|intros ?]
  | |- quiet (Get _) => apply quiet_get; intros ?
  | |- quiet (Put _ _) => apply quiet_put
  | |- quiet (Done _) => apply quiet_done
  | |- quiet (mret _) => apply quiet_done
  | |- quiet (a_throw _) => apply quiet_done
  | |- quiet (a_lift _) => apply quiet_result
  | |- quiet a_get => apply quiet_get; intros ?
  | |- quiet (a_modify _) => apply quiet_get; intros ?
  | |- quiet date_now => apply quiet_get; intros ?
  | |- quiet (s_await _) => apply quiet_s_await; reflexivity
  | |- quiet (sample _) => apply quiet_sample
  | |- quiet never_settles => apply quiet_never
  | |- quiet (match ?x with _ => _ end) => destruct x
  | |- _ => solve [auto with stress]
  end.
Ltac solve_quiet := repeat quiet_step.

Section Programs.
Context `{Externals, Database}.
Abbreviation StressM := (async stress sans).

Lemma quiet_sleep ms : quiet (sleep ms).
Proof. unfold sleep, date_now, a_modify, a_get. solve_quiet. Qed.
#[local] Hint Resolve quiet_sleep : stress.

Lemma quiet_poll {T} rounds (condition : StressM (option T)) interval timeoutMs start logId :
  quiet condition -> quiet (poll rounds condition interval timeoutMs start logId).
Proof.
  intros Hc. induction rounds as [|n IH]; cbn [poll]; [apply quiet_never|]. unfold date_now, a_get, a_throw. solve_quiet.
Qed.
#[local] Hint Resolve quiet_poll : stress.

(** [p] ensures [Q] of its completion and of what it sent. *)
Definition sending {A} (p : StressM A) (Q : result A -> list scall -> Prop) : Prop := ensures p (fun r tr => Q r (sends tr)).

Lemma sending_mono {A} (p : StressM A) (Q Q' : result A -> list scall -> Prop) :
  (forall r l, Q r l -> Q' r l) -> sending p Q -> sending p Q'.
Proof. intros HQ. apply ensures_mono. intros r tr. apply HQ. Qed.

Lemma sending_bind {A B} (p : StressM A) (k : A -> StressM B) (Q : result B -> list scall -> Prop) :
  sending p (fun r l => match r with
                        | Ok a => sending (k a) (fun b l' => Q b (l ++ l'))
                        | Throw e => Q (Throw e) l
                        end) ->
  sending (p ≫= k) Q.
Proof.
  intros Hp. apply ensures_bind. eapply ensures_mono, Hp. intros [a|e] tr; [|done]. apply ensures_mono.
  intros b tr'. by rewrite sends_app.
Qed.

(** Before a step that sends nothing. *)
Lemma sending_quiet_bind {A B} (p : StressM A) (k : A -> StressM B) (Q : result B -> list scall -> Prop) :
  quiet p -> (forall e, Q (Throw e) []) -> (forall a, sending (k a) Q) -> sending (p ≫= k) Q.
Proof.
  intros Hp He Hk. apply sending_bind. eapply ensures_mono, Hp. intros [a|e] tr ->; [apply Hk|apply He].
Qed.

Section Client.
Context {Wallet : Type} (cfg : ChatConfig Wallet) (client : StressClient).

Lemma quiet_userExists u : quiet (userExists client u).
Proof. unfold userExists. solve_quiet. Qed.
Lemma quiet_isMemberOf id u : quiet (isMemberOf client id u).
Proof. unfold isMemberOf, a_get. solve_quiet. Qed.
Lemma quiet_startStreamsClient id : quiet (startStreamsClient id).
Proof. unfold startStreamsClient, a_get, a_modify. solve_quiet. Qed.
Lemma quiet_ensureKeysShared id : quiet (ensureKeysShared id).
Proof. unfold ensureKeysShared, a_get. solve_quiet. Qed.
#[local] Hint Resolve quiet_userExists quiet_isMemberOf quiet_startStreamsClient quiet_ensureKeysShared : stress.
Lemma quiet_joinSpace id skip : quiet (joinSpace client id skip).
Proof. unfold joinSpace. solve_quiet. Qed.
#[local] Hint Resolve quiet_joinSpace : stress.
Lemma quiet_startClient root balance : quiet (startClient cfg client root balance).
Proof. unfold startClient, a_throw. solve_quiet. Qed.
Lemma quiet_joinedAlready id : quiet (joinedAlready id).
Proof. unfold joinedAlready, a_get. solve_quiet. Qed.
Lemma quiet_hash_of r m : quiet (hash_of r m).
Proof. unfold hash_of, a_get, a_throw. solve_quiet. Qed.
#[local] Hint Resolve quiet_startClient quiet_joinedAlready quiet_hash_of : stress.

(** ** Joining *)

Definition checkInCall (channelId silly : string) : scall :=
  SendText channelId None None None None (silly +:+ "! " +:+ sessionId cfg) [].
Definition startupCall (hash : string) (info : SystemInfo) : scall :=
  SendText (announceChannelId cfg) (Some hash) (if is_defined (truthy_str (Some hash)) then Some "🙉" else None) None None
    (startupMessage cfg info) [].

(** The client of the SDK in the states in which calls were answered, and after the last. *)
Definition sdks (h : list (event sans * stress)) : list ClientState.t := map (fun es => sdk es.2) h.
Definition sdk_after (c : ClientState.t) (h : list (event sans * stress)) : ClientState.t := default c (last (sdks h)).

(** The first event of the stream [r] that mentions the session, and the hash of an event. *)
Definition root_message (r message : nat) (c : ClientState.t) : Prop :=
  exists view, view_of r c = Ok view /\ find_session (sessionId cfg) view = Some message.
Definition message_hash (r message : nat) (hash : string) (c : ClientState.t) : Prop :=
  exists view ev, view_of r c = Ok view /\ heap view !! message = Some ev /\ te_hashStr ev = hash.

(** What a client does once it has the stream [r] of the announcements, in [c] at first: it
    finds the announcement; the first client of a process reports in its thread; then the
    client reacts to it, under the hash it has at that moment, and checks in with the
    session in every channel, in order. *)
Definition chats_along (r : nat) (c : ClientState.t) (h : list (event sans * stress)) : Prop :=
  exists message hash emoji id s h1 h2,
    h = h1 ++ (mkEvent (SendReaction (announceChannelId cfg) hash emoji) (Ok id), s) :: h2
    /\ (exists c', c' ∈ c :: sdks h1 /\ root_message r message c')
    /\ message_hash r message hash (sdk_after c h1)
    /\ (if num_cmp Z.eqb (Some (clientIndex client)) (startIndex cfg)
        then exists c' hash' info, c' ∈ c :: sdks h1 /\ message_hash r message hash' c' /\ sends h1.*1 = [startupCall hash' info]
        else sends h1.*1 = [])
    /\ (exists sillies, length sillies = length (channelIds cfg) /\ sends h2.*1 = zip_with checkInCall (channelIds cfg) sillies).

(** A completed [joinChat]: nothing is sent before the client has the stream. *)
Definition joined_history (h : list (event sans * stress)) : Prop :=
  exists r s h0 h', h = h0 ++ (mkEvent (WaitForStream (announceChannelId cfg)) (Ok r), s) :: h'
    /\ sends h0.*1 = [] /\ chats_along r (sdk s) h'.

Lemma sending_s_await c (Q : result (sans c) -> list scall -> Prop) :
  (forall e, Q (Throw e) []) -> (forall a, Q (Ok a) (if is_send c then [c] else [])) -> sending (s_await c) Q.
Proof. intros He Ha [a|e]; [specialize (Ha a)|specialize (He e)]; by destruct c. Qed.

Lemma checkIn_sends channelId :
  sending (checkIn cfg channelId) (fun r l => r = Ok tt -> exists silly, l = [checkInCall channelId silly]).
Proof.
  unfold checkIn. apply sending_quiet_bind; [apply quiet_joinedAlready|done|]. intros joined.
  apply sending_quiet_bind; [solve_quiet|done|]. intros _. apply sending_quiet_bind; [solve_quiet|done|]. intros silly.
  unfold sendMessage. apply sending_bind, sending_s_await; [done|]. intros id _. by exists silly.
Qed.

Lemma checkIns_send channels :
  sending (a_for channels (checkIn cfg))
    (fun r l => r = Ok tt -> exists sillies, length sillies = length channels /\ l = zip_with checkInCall channels sillies).
Proof.
  induction channels as [|ch channels IH]; cbn [a_for]; [by exists []|].
  apply sending_bind. eapply sending_mono, checkIn_sends. intros [[]|e] l Hs; [|done].
  destruct (Hs eq_refl) as [silly ->]. eapply sending_mono, IH. intros r l' Hl Hr. destruct (Hl Hr) as (sillies & Hn & ->).
  exists (silly :: sillies). cbn. by rewrite Hn.
Qed.

(** *** Programs that leave the client of the SDK to others *)

Lemma sdk_after_app c h h' : sdk_after c (h ++ h') = sdk_after (sdk_after c h) h'.
Proof. unfold sdk_after, sdks. rewrite map_app, last_app. by destruct (last (map _ h')). Qed.

Definition steady {A} (p : StressM A) (s : stress) (C : result A -> list (event sans * stress) -> Prop) : Prop :=
  hensures p s (fun r s' h => sdk s' = sdk_after (sdk s) h /\ C r h).

Lemma steady_mono {A} (p : StressM A) s (C C' : result A -> list (event sans * stress) -> Prop) :
  (forall r h, C r h -> C' r h) -> steady p s C -> steady p s C'.
Proof. intros HC. apply hensures_mono. intros r s' h [??]. auto. Qed.

Lemma steady_get {A} (k : stress -> StressM A) s C : steady (k s) s C -> steady (Get k) s C.
Proof. done. Qed.

Lemma steady_bind {A B} (p : StressM A) (k : A -> StressM B) s (C : result B -> list (event sans * stress) -> Prop) :
  steady p s (fun r h => match r with
                         | Ok a => forall s', sdk s' = sdk_after (sdk s) h -> steady (k a) s' (fun b h' => C b (h ++ h'))
                         | Throw e => C (Throw e) h
                         end) ->
  steady (p ≫= k) s C.
Proof.
  intros Hp. apply hensures_bind. eapply hensures_mono, Hp. intros [a|e] s' h [Hs Hk]; [|done].
  eapply hensures_mono, (Hk s' Hs). intros b s2 h' [Hs2 HC]. split; [|done]. by rewrite sdk_after_app, <- Hs.
Qed.

Lemma steady_sleep ms s : steady (sleep ms) s (fun r h => sends h.*1 = []).
Proof. unfold steady. cbn. intros [fired|e] s'; cbn; done. Qed.

Lemma steady_ensureKeysShared id s : steady (ensureKeysShared id) s (fun r h => sends h.*1 = []).
Proof. unfold steady. cbn. destruct (is_defined _); cbn; [|done]. by intros [[]|e] s'. Qed.

Lemma steady_hash_of r m s :
  steady (hash_of r m) s (fun res h => h = [] /\ match res with Ok hash => message_hash r m hash (sdk s) | _ => True end).
Proof.
  unfold steady. cbn. destruct (view_of r (sdk s)) as [view|e] eqn:Hv; cbn; [|done].
  destruct (heap view !! m) as [ev|] eqn:Hm; [|done]. cbn. split_and!; [done|done|]. by exists view, ev.
Qed.

Lemma elem_of_sdks c' c h h' : c' ∈ sdk_after c h :: sdks h' -> c' ∈ c :: sdks (h ++ h').
Proof.
  unfold sdk_after, sdks. rewrite map_app, !elem_of_cons, elem_of_app. intros [->|]; [|by auto].
  destruct (last (map _ h)) as [x|] eqn:Hl; cbn; [|by auto]. apply last_Some_elem_of in Hl. by auto.
Qed.

(** A loop of polls returns the announcement that a poll has found. *)
Lemma steady_poll r rounds interval timeoutMs start logId s :
  steady (poll rounds (findRootMessage cfg r) interval timeoutMs start logId) s
    (fun res h => sends h.*1 = [] /\ match res with Ok m => exists c', c' ∈ sdk s :: sdks h /\ root_message r m c' | _ => True end).
Proof.
  revert s. induction rounds as [|n IH]; intros s; cbn [poll]; [unfold steady; cbn; by intros [[]|e] s'|].
  apply steady_bind. unfold steady, findRootMessage, a_get. cbn [hensures mbind async_mbind].
  destruct (view_of r (sdk s)) as [view|e] eqn:Hv; cbn [a_lift mbind async_mbind hensures mret async_mret]; [|done].
  split; [done|]. intros s' Hs'. cbn in Hs'. destruct (find_session _ view) as [m|] eqn:Hf.
  { split_and!; [done|done|]. exists (sdk s). split; [by left|]. by exists view. }
  unfold date_now, a_get. cbn [mbind async_mbind mret async_mret]. apply steady_get.
  destruct (num_cmp _ _ _); [done|]. apply steady_bind. eapply steady_mono, steady_sleep. intros [[]|e] h Hh; [|done].
  intros s2 Hs2. eapply steady_mono, IH. intros res h' [Hh' Hm]. cbn [app]. split; [by rewrite fmap_app, sends_app, Hh, Hh'|].
  destruct res as [m|]; [|done]. destruct Hm as (c' & Hc' & Hm). exists c'. split; [|done]. rewrite <- Hs'. apply elem_of_sdks. by rewrite <- Hs2.
Qed.

Lemma steady_startup r m s :
  steady (if num_cmp Z.eqb (Some (clientIndex client)) (startIndex cfg) then
     ensureKeysShared (announceChannelId cfg);;
     s ← a_get;
     hash ← hash_of r m;
     _ ← sendMessage (announceChannelId cfg) (startupMessage cfg (sysinfo s)) (Some hash) None None;
     mret tt
   else mret tt) s
    (fun res h => res = Ok tt -> if num_cmp Z.eqb (Some (clientIndex client)) (startIndex cfg)
       then exists c' hash info, c' ∈ sdk s :: sdks h /\ message_hash r m hash c' /\ sends h.*1 = [startupCall hash info]
       else sends h.*1 = []).
Proof.
  destruct (num_cmp _ _ _); [|done]. apply steady_bind. eapply steady_mono, steady_ensureKeysShared.
  intros [[]|e] h Hh; [|done]. intros s1 Hs1. unfold a_get. cbn [mbind async_mbind]. apply steady_get, steady_bind.
  eapply steady_mono, steady_hash_of. intros [hash|e] h' [-> Hhash]; [|done]. intros s2 Hs2.
  unfold sendMessage, s_await, a_await, steady. cbn [hensures mbind async_mbind mret async_mret].
  intros [id|e] s3; cbn [hensures mbind async_mbind mret async_mret]; (split; [done|]); [|done]. intros _.
  exists (sdk s1), hash, (sysinfo s1). split_and!; [|done|by rewrite !fmap_app, !sends_app, Hh].
  apply elem_of_sdks. rewrite Hs1. by left.
Qed.

(** After the stream of the announcements was waited for. *)
Lemma chats_along_ensured rounds r s :
  hensures (message ← waitForClient client rounds (findRootMessage cfg r) (Some 1000) (Some (waitForChannelDecryptionTimeoutMs cfg));
    (if num_cmp Z.eqb (Some (clientIndex client)) (startIndex cfg) then
       ensureKeysShared (announceChannelId cfg);;
       s ← a_get;
       hash ← hash_of r message;
       _ ← sendMessage (announceChannelId cfg) (startupMessage cfg (sysinfo s)) (Some hash) None None;
       mret tt
     else mret tt);;
    hash ← hash_of r message;
    emoji ← sample getRandomEmoji;
    _ ← sendReaction (announceChannelId cfg) hash emoji;
    a_for (channelIds cfg) (checkIn cfg)) s
    (fun res _ h => res = Ok tt -> chats_along r (sdk s) h).
Proof.
  apply hensures_bind. eapply hensures_mono, (steady_poll r rounds _ _ (clock s) _ s).
  intros [m|e] s1 h [Hs1 [Hh Hm]]; [|done]. destruct Hm as (c & Hc & Hm).
  apply hensures_bind. eapply hensures_mono, (steady_startup r m s1). intros [[]|e] s2 h1 [Hs2 Hst]; [|done]. specialize (Hst eq_refl).
  apply hensures_bind. eapply hensures_mono, (steady_hash_of r m s2). intros [hash|e] s3 h2 [Hs3 [-> Hhash]]; [|done].
  unfold sample, a_get, a_modify. cbn [hensures mbind async_mbind]. destruct (getRandomEmoji _) as [emoji rs].
  unfold sendReaction, s_await, a_await. cbn [hensures mbind async_mbind mret async_mret]. intros [id|e] s4; [|done]. cbn [mbind async_mbind].
  eapply hensures_mono, hensures_of_ensures, (checkIns_send (channelIds cfg)). intros res s5 h5 Hl Hr. destruct (Hl Hr) as (sillies & Hn & Hsends).
  exists m, hash, emoji, id, s4, (h ++ h1), h5. cbn [app]. split_and!.
  - by rewrite <- app_assoc.
  - exists c. split; [|done]. apply elem_of_cons in Hc as [->|Hc]; [by left|right]. unfold sdks. rewrite map_app. apply elem_of_app. by left.
  - by rewrite sdk_after_app, <- Hs1, <- Hs2.
  - rewrite fmap_app, sends_app, Hh. destruct (num_cmp _ _ _); [|done].
    destruct Hst as (c' & hash' & info & Hc' & Hm' & Hse). exists c', hash', info. split_and!; [|done|done].
    apply elem_of_sdks. by rewrite <- Hs1.
  - by exists sillies.
Qed.

(** Before that nothing is sent. *)
Lemma joined_after_quiet {A} (p : StressM A) (k : A -> StressM unit) s :
  quiet p -> (forall a s', hensures (k a) s' (fun res _ h => res = Ok tt -> joined_history h)) ->
  hensures (p ≫= k) s (fun res _ h => res = Ok tt -> joined_history h).
Proof.
  intros Hp Hk. apply hensures_bind. eapply hensures_mono, hensures_of_ensures, Hp. intros [a|e] s' h Hh; [|done].
  eapply hensures_mono, Hk. intros res s2 h' Hj Hr. destruct (Hj Hr) as (r & s0 & h0 & h2 & -> & H0' & Hc).
  exists r, s0, (h ++ h0), h2. split_and!; [by rewrite <- app_assoc|by rewrite fmap_app, sends_app, Hh, H0'|done].
Qed.

Lemma joinChat_joins rounds s : hensures (joinChat cfg rounds client) s (fun res _ h => res = Ok tt -> joined_history h).
Proof.
  unfold joinChat. apply joined_after_quiet; [unfold membershipInterval; solve_quiet|]. intros interval s1.
  apply joined_after_quiet.
  { unfold waitForClient, waitFor, checkMembership. apply quiet_seq; [done|]. intros start. apply quiet_poll. solve_quiet. }
  intros _ s2. apply joined_after_quiet; [apply quiet_startClient|]. intros _ s3.
  apply hensures_bind. unfold s_await, a_await. cbn [hensures]. intros [r|e] s4; [|done].
  eapply hensures_mono, (chats_along_ensured rounds r s4). intros res s5 h Hc Hr. exists r, s4, [], h. split_and!; [done|done|by apply Hc].
Qed.
End Client.
End Programs.

(** ** The phases of a process *)

Section Phases.
Context `{Externals, Database} {Wallet : Type} (address : Wallet -> string) (cfg : ChatConfig Wallet) (rounds : nat).
Abbreviation StressM := (async stress sans).

(** [p'], in [s'], is what is left of [p], started in [s], after the history [h]. *)
Definition residual {A} (p : StressM A) (s : stress) (h : list (event sans * stress)) (p' : StressM A) (s' : stress) : Prop :=
  forall Q, hensures p s Q -> hensures p' s' (fun a s2 h' => Q a s2 (h ++ h')).

Lemma residual_start {A} (p : StressM A) s : residual p s [] (settle p s).1 (settle p s).2.
Proof. intros Q Hp. by apply settle_hensures. Qed.

Lemma residual_answer {A} (p : StressM A) s0 h c k a s s1 :
  residual p s0 h (Await c k) s -> residual p s0 (h ++ [(mkEvent c a, s1)]) (settle (k a) s1).1 (settle (k a) s1).2.
Proof.
  intros Hr Q Hp. apply settle_hensures. specialize (Hr Q Hp a s1). eapply hensures_mono, Hr.
  intros r s2 h'. by rewrite <- app_assoc.
Qed.

(** The history of a client contains a completed [joinChat]. *)
Definition has_joined (th : thread) : Prop :=
  exists before h after, th_log th = before ++ h ++ after /\ joined_history cfg (th_client th) h.

Definition keeps_step (ph : phase) (th : thread) : Prop :=
  match ph with
  | Kickoff => True
  | Joining => exists before s h, th_log th = before ++ h
                 /\ residual (joinChat cfg rounds (th_client th)) s h (th_prog th) (th_state th)
  | _ => has_joined th
  end.
Definition in_step (pr : process) : Prop := Forall (keeps_step (pr_phase pr)) (pr_threads pr).

Lemma has_joined_later th log p s : has_joined th -> has_joined (set_running th p s (th_log th ++ log)).
Proof. intros (b & h & a & Hl & Hj). exists b, h, (a ++ log). by rewrite Hl, <- !app_assoc. Qed.

Lemma keeps_step_answer ph th c k a s : th_prog th = Await c k -> keeps_step ph th ->
  keeps_step ph (set_running th (k a) s (th_log th ++ [(mkEvent c a, s)])).
Proof.
  intros Hp. destruct ph; cbn [keeps_step]; [done| |apply has_joined_later..].
  intros (before & s0 & h & Hl & Hr). exists before, s0, (h ++ [(mkEvent c a, s)]). cbn. split; [by rewrite Hl, app_assoc|].
  rewrite Hp in Hr. by eapply residual_answer.
Qed.

Lemma keeps_step_next ph ph' th p s : next_phase ph = Some ph' -> (ph' = Joining -> p = joinChat cfg rounds (th_client th)) ->
  finished th -> keeps_step ph th -> keeps_step ph' (set_running th p s (th_log th)).
Proof.
  intros Hn Hp Hf Hk.
  assert (Hlater : has_joined th -> has_joined (set_running th p s (th_log th))).
  { intros Hj. rewrite <- (app_nil_r (th_log th)). by apply has_joined_later. }
  destruct ph; cbn in Hn; simplify_eq; cbn [keeps_step] in *; [| |by auto..].
  - exists (th_log th), s, []. rewrite app_nil_r, Hp by done. split; [done|]. apply residual_start.
  - destruct Hk as (before & s0 & h & Hl & Hr). apply Hlater. exists before, h, []. rewrite app_nil_r. split; [done|].
    rewrite Hf in Hr. specialize (Hr _ (joinChat_joins cfg (th_client th) rounds s0) eq_refl). by rewrite app_nil_r in Hr.
Qed.

Lemma in_step_start ph ths : (forall th, th ∈ ths -> match ph with Kickoff | Joining => True | _ => False end) ->
  in_step (start_phase address cfg rounds ph ths).
Proof.
  intros Hths. apply Forall_lookup. cbn. intros i th'. rewrite list_lookup_imap, fmap_Some. intros (th & Hth & ->).
  specialize (Hths th (list_elem_of_lookup_2 _ _ _ Hth)). destruct ph; try done.
  exists (th_log th), (th_state th), []. rewrite app_nil_r. split; [done|]. apply residual_start.
Qed.

Lemma in_step_step pr pr' : process_step address cfg rounds pr pr' -> in_step pr -> in_step pr'.
Proof.
  intros [ph ths i th c k a world Hi Hp|ph ph' ths Hf Hn] Hin; unfold in_step in *; cbn in *.
  - apply Forall_insert; [done|]. apply keeps_step_answer; [done|]. by eapply Forall_lookup_1.
  - apply Forall_lookup. intros i th'. rewrite list_lookup_imap, fmap_Some. intros (th & Hth & ->).
    apply (keeps_step_next ph); [done| |by eapply Forall_lookup_1..]. by intros ->.
Qed.

Lemma step_length pr pr' : process_step address cfg rounds pr pr' -> length (pr_threads pr') = length (pr_threads pr).
Proof. intros [|]; cbn; [by rewrite length_insert|by rewrite length_imap]. Qed.

(** C33: no client of a process goes on to its profile, to chatting or to the summary before
    every client of the process has joined. Then each of them has waited for the stream of
    the announcements before it sent anything, has found in the view of that stream the
    first event that mentions the session, has reacted to that event, under the hash it had
    in the client's view at that moment, and has checked in with the session in every
    channel, in order; the first client of the process has first reported in the thread of
    that event; and none has sent anything else while joining. *)
Theorem chat_after_joining clients states pr pr' :
  startStressChat address cfg rounds clients states = Ok pr -> length states = length clients ->
  rtc (process_step address cfg rounds) pr pr' -> pr_phase pr' <> Kickoff -> pr_phase pr' <> Joining ->
  Z.of_nat (length (pr_threads pr')) = default 0 (clientsPerProcess cfg) /\ Forall has_joined (pr_threads pr').
Proof.
  unfold startStressChat. intros Hs Hlen Hrtc Hk Hj. split_Ok Hs. injection Hs as <-.
  assert (length (pr_threads pr') = length clients /\ in_step pr') as [Hl Hin].
  { set (pr := start_phase _ _ _ _ _) in Hrtc.
    assert (length (pr_threads pr) = length clients /\ in_step pr) as Hpr.
    { split; [cbn; rewrite length_imap, length_zip_with; lia|]. apply in_step_start. intros. by destruct (num_cmp _ _ _). }
    revert Hpr. clear -Hrtc. induction Hrtc as [|x y z Hxy _ IH]; [done|]. intros [Hl Hi].
    apply IH. split; [by rewrite (step_length _ _ Hxy)|by eapply in_step_step]. }
  split.
  - rewrite Hl. unfold check_clients, check in Ha. destruct (num_cmp _ _ _) eqn:Hc; [|done].
    destruct (clientsPerProcess cfg); [|done]. cbn in *. lia.
  - eapply Forall_impl; [exact Hin|]. intros th Hth. by destruct (pr_phase pr').
Qed.
End Phases.

(** ** The summary *)

Lemma filter_none {A} (P : A -> Prop) `{!forall x, Decision (P x)} (l : list A) : (forall x, x ∈ l -> ~ P x) -> filter P l = [].
Proof.
  induction l as [|x l IH]; intros Hl; [done|]. rewrite filter_cons, decide_False by (apply Hl; by left).
  apply IH. intros y Hy. apply Hl. by right.
Qed.

Section Summary.
Context `{Externals, Database} {Wallet : Type} (cfg : ChatConfig Wallet).

Lemma count_in_add counts key n key' n' :
  count_in (add_count counts key n) key' n' = count_in counts key' n' + (if decide ((key, n) = (key', n')) then 1 else 0).
Proof.
  unfold add_count, count_in at 1. rewrite jm_get_set. case_decide as Hk; cbn.
  - subst key'. rewrite jm_get_set. case_decide as Hn; cbn.
    + subst n'. by rewrite decide_True.
    + rewrite decide_False by congruence. unfold count_in. destruct (jm_get key counts); cbn; lia.
  - rewrite decide_False by congruence. unfold count_in. destruct (jm_get key' counts); cbn; lia.
Qed.

Lemma count_in_fold (l : list (string * string)) counts key n :
  count_in (foldl (fun counts kn => add_count counts kn.1 kn.2) counts l) key n
  = count_in counts key n + Z.of_nat (length (filter (fun kn => kn = (key, n)) l)).
Proof.
  revert counts. induction l as [|[k m] l IH]; intros counts; cbn [foldl fst snd]; [cbn; lia|].
  rewrite IH, count_in_add. rewrite filter_cons. repeat case_decide; cbn [length]; try done; lia.
Qed.

(** What each client reports for each channel. *)
Definition reports (localClients : list ClientState.t) : list (string * string) :=
  client ← localClients;
  map (fun channelId => (shortenHexString channelId, pretty (checkInCount cfg client channelId))) (channelIds cfg).

Lemma checkinCounts_fold localClients :
  checkinCounts cfg localClients = foldl (fun counts kn => add_count counts kn.1 kn.2) [] (reports localClients).
Proof.
  unfold checkinCounts, reports. generalize (@nil (string * jsmap Z)) as counts.
  induction localClients as [|client l IH]; intros counts; cbn [foldl]; [done|].
  rewrite bind_cons, foldl_app, IH. f_equal.
  clear IH. generalize counts. induction (channelIds cfg) as [|ch chs IHc]; intros cs; cbn; [done|]. apply IHc.
Qed.

(** A number in the summary is exactly how many reports there are of that many
    check-ins for the channels with that short id. *)
Theorem summary_counts localClients key n :
  count_in (checkinCounts cfg localClients) key n
  = Z.of_nat (length (filter (fun kn => kn = (key, n)) (reports localClients))).
Proof. by rewrite checkinCounts_fold, count_in_fold. Qed.

(** When the short ids of the channels differ and every client sees [n] check-ins in
    every channel, the summary says so of all the clients, and nothing else. *)
Theorem summary_of_complete_test localClients channelId (n m : nat) :
  NoDup (map shortenHexString (channelIds cfg)) -> channelId ∈ channelIds cfg ->
  (forall client ch, client ∈ localClients -> ch ∈ channelIds cfg -> checkInCount cfg client ch = n) ->
  count_in (checkinCounts cfg localClients) (shortenHexString channelId) (pretty m)
  = if decide (m = n) then Z.of_nat (length localClients) else 0.
Proof.
  intros Hnd Hin Hn. rewrite summary_counts. unfold reports.
  assert (Hone : forall client, client ∈ localClients ->
    length (filter (fun kn => kn = (shortenHexString channelId, pretty m))
      (map (fun ch => (shortenHexString ch, pretty (checkInCount cfg client ch))) (channelIds cfg)))
    = if decide (m = n) then 1%nat else 0%nat).
  { intros client Hc. specialize (fun ch => Hn client ch Hc). clear Hc.
    induction (channelIds cfg) as [|ch chs IH]; [by apply elem_of_nil in Hin|].
    cbn [map] in *. apply NoDup_cons in Hnd as [Hnot Hnd]. rewrite filter_cons.
    rewrite (Hn ch) by set_solver. destruct (decide (ch = channelId)) as [->|Hne].
    - assert (Hrest : filter (fun kn => kn = (shortenHexString channelId, pretty m))
        (map (fun ch => (shortenHexString ch, pretty (checkInCount cfg client ch))) chs) = []).
      { apply filter_none. intros kn (ch & -> & Hch)%list_elem_of_fmap [= Heq _]. apply Hnot.
        apply list_elem_of_fmap. by exists ch. }
      rewrite Hrest. destruct (decide (m = n)) as [->|Hmn]; [by rewrite decide_True|].
      rewrite decide_False; [done|]. intros [= Heq%(inj pretty)]. by apply Hmn.
    - assert (channelId ∈ chs) as Hin' by set_solver.
      rewrite decide_False; [apply IH; [done|done|]; intros; apply Hn; set_solver|].
      intros [= Heq _]. apply Hnot. rewrite Heq. apply list_elem_of_fmap. by exists channelId. }
  clear Hn Hin. induction localClients as [|client l IH]; [by case_decide|].
  rewrite bind_cons, filter_app, length_app, Nat2Z.inj_add, IH by (intros; apply Hone; set_solver).
  rewrite Hone by set_solver. case_decide; cbn [length]; lia.
Qed.
End Summary.

(** ** Waiting *)

Section Waiting.
Context `{Externals, Database}.
Abbreviation StressM := (async stress sans).

(** Nobody turns back the clock, and a timer does not fire early. *)
Definition time_passes (s s' : stress) : Prop := clock s <= clock s'.
Definition timers_hold (e : event sans) : Prop :=
  match e with
  | mkEvent (Timer due) r => match r with Ok t => due <= t | Throw _ => False end
  | _ => True
  end.
Definition settles (e : event sans) : Prop := ev_call e <> NeverSettles.

(** [condition] completes, within [n] awaits, and does not throw. *)
Definition decides {T} (n : nat) (condition : StressM (option T)) : Prop :=
  forall s, spec time_passes timers_hold n condition s (fun r s' tr =>
    (exists o, r = Ok o) /\ clock s <= clock s' /\ Forall settles tr).

Lemma spec_sleep ms s :
  spec time_passes timers_hold 1 (sleep ms) s (fun r s' tr => r = Ok tt /\ clock s + ms <= clock s' /\ Forall settles tr).
Proof.
  unfold sleep, date_now, a_get, s_await, a_await. apply spec_get. cbn. apply spec_await. intros [t|e] s' Hs Ht; cbn in Ht; [|done].
  apply spec_get, spec_put, spec_done. split_and!; [done|cbn; lia|]. by repeat constructor.
Qed.

Lemma poll_ends {T} (condition : StressM (option T)) n interval timeout start logId rounds s :
  decides n condition -> 0 < interval -> start <= clock s -> timeout - (clock s - start) < (Z.of_nat rounds - 1) * interval ->
  (1 <= rounds)%nat ->
  spec time_passes timers_hold (rounds * (n + 1)) (poll rounds condition interval (Some timeout) start logId) s
    (fun r s' tr => Forall settles tr /\ match r with
                    | Ok _ => True
                    | Throw e => e = JsError (logId +:+ " timeout after " +:+ pretty timeout +:+ "ms") /\ timeout < clock s' - start
                    end).
Proof.
  intros Hc Hi. revert s. induction rounds as [|m IH]; intros s Hstart Hlt Hpos; [lia|].
  cbn [poll Nat.mul]. rewrite <- Nat.add_assoc. apply spec_bind. eapply spec_mono; [apply Hc|done|].
  intros r s1 tr ([o ->] & Hclock & Htr). destruct o as [t|]; [by apply spec_done; split; [rewrite app_nil_r|]|].
  apply spec_get. cbn [mbind async_mbind date_now mret async_mret num_cmp].
  destruct (Z.gtb_spec (clock s1 - start) timeout) as [Hgt|Hle].
  - unfold a_throw. apply spec_done. split; [by rewrite app_nil_r|]. by split.
  - replace (1 + m * (n + 1))%nat with (1 + (m * (n + 1)))%nat by lia.
    apply spec_bind. eapply spec_mono; [apply spec_sleep|done|]. intros r s2 tr2 (-> & Hs2 & Htr2).
    eapply spec_mono; [apply IH; nia|done|]. intros r s3 tr3 [Htr3 Hr]. split; [|done].
    by rewrite !Forall_app.
Qed.

(** A wait ends: after at most so many polls that the intervals between them are longer
    than the timeout it has the value of the condition or throws, and it throws only
    after the timeout. *)
Theorem waitFor_ends {T} (condition : StressM (option T)) n interval timeout rounds client s :
  decides n condition -> 0 < interval -> timeout < (Z.of_nat rounds - 1) * interval -> (1 <= rounds)%nat ->
  spec time_passes timers_hold (rounds * (n + 1)) (waitForClient client rounds condition (Some interval) (Some (Some timeout))) s
    (fun r s' tr => Forall settles tr /\ match r with
                    | Ok _ => True
                    | Throw e => e = JsError (logId client +:+ " timeout after " +:+ pretty timeout +:+ "ms") /\ timeout < clock s' - clock s
                    end).
Proof.
  intros Hc Hi Ht Hr. unfold waitForClient, waitFor. apply spec_get. cbn [mbind async_mbind date_now mret async_mret default from_option id].
  apply poll_ends; [done|done|lia|lia|done].
Qed.

(** A wait without a timeout, which a duration that is no number makes, goes on for ever
    while the condition does not hold. *)
Theorem no_timeout_polls_on rounds client interval s :
  spec time_passes timers_hold (rounds + 1) (waitForClient client rounds (mret None : StressM (option unit)) (Some interval) (Some None)) s
    (fun r s' tr => exists e, last tr = Some (mkEvent NeverSettles e)).
Proof.
  unfold waitForClient, waitFor. apply spec_get. cbn [mbind async_mbind date_now mret async_mret default from_option id].
  set (start := clock s). clearbody start. revert s. induction rounds as [|m IH]; intros s.
  - apply spec_await. intros [[]|e] s' _ _. apply spec_done. by eexists.
  - cbn [poll]. apply spec_get. cbn [mbind async_mbind date_now mret async_mret num_cmp].
    change (S m + 1)%nat with (1 + (m + 1))%nat. apply spec_bind. eapply spec_mono; [apply spec_sleep|done|].
    intros r s1 tr (-> & _ & _). eapply spec_mono; [apply IH|done|]. intros r s2 tr2 [e He]. exists e.
    by rewrite last_app, He.
Qed.
End Waiting.

(** ** Kicking off *)

Section Kickoff.
Context `{Externals, Database} {Wallet : Type} (address : Wallet -> string) (cfg : ChatConfig Wallet).
Abbreviation StressM := (async stress sans).

(** The calls that mint the memberships of [ws]: one question for each wallet, and a
    transaction and a pause for those that have none. *)
Inductive minting : list Wallet -> list (event sans) -> Prop :=
| minting_nil : minting [] []
| minting_has w ws tr :
    minting ws tr -> minting (w :: ws) (mkEvent (HasSpaceMembership (spaceId cfg) (address w)) (Ok true) :: tr)
| minting_new w ws b due t tr :
    minting ws tr ->
    minting (w :: ws) (mkEvent (HasSpaceMembership (spaceId cfg) (address w)) (Ok false)
                       :: mkEvent (JoinSpaceTx (spaceId cfg) (address w)) (Ok b) :: mkEvent (Timer due) (Ok t) :: tr).

Lemma mint_all ws : ensures (a_for ws (mintMembership address cfg)) (fun r tr => r = Ok tt -> minting ws tr).
Proof.
  induction ws as [|w ws IH]; cbn [a_for]; [intros _; constructor|].
  apply ensures_bind. unfold mintMembership, s_await, a_await. cbn [ensures mbind async_mbind].
  intros [[|]|e]; cbn; [| |done].
  - eapply ensures_mono, IH. intros r tr Htr Hr. by constructor; apply Htr.
  - intros [b|e]; cbn; [|done]. intros s [t|e]; cbn; [|done]. intros _. eapply ensures_mono, IH.
    intros r tr Htr Hr. by constructor; apply Htr.
Qed.

(** The announcement is the first message, and the memberships are minted after it. *)
Definition kicked_off (r : result unit) (tr : list (event sans)) : Prop :=
  r = Ok tt -> exists before after, tr = before ++ after
    /\ hd_error (sends before) = Some (SendText (announceChannelId cfg) None None None None (announcement cfg) [])
    /\ minting (allWallets cfg) after.

Lemma kicked_off_quiet {A} (p : StressM A) (k : A -> StressM unit) :
  quiet p -> (forall a, ensures (k a) kicked_off) -> ensures (p ≫= k) kicked_off.
Proof.
  intros Hp Hk. apply ensures_bind. eapply ensures_mono, Hp. intros [a|e] tr Htr; [|done].
  eapply ensures_mono, Hk. intros r tr' Hr Hok. destruct (Hr Hok) as (b & c & -> & Hh & Hm).
  exists (tr ++ b), c. rewrite app_assoc, sends_app, Htr. by split_and!.
Qed.

Lemma kickoff_ensures client : ensures (kickoffChat address cfg client) kicked_off.
Proof.
  unfold kickoffChat. apply kicked_off_quiet; [done|]. intros _. apply kicked_off_quiet; [solve_quiet|]. intros balance.
  apply kicked_off_quiet; [apply quiet_startClient|]. intros _. apply kicked_off_quiet; [solve_quiet|]. intros _.
  apply kicked_off_quiet; [solve_quiet|]. intros start. apply kicked_off_quiet; [apply quiet_ensureKeysShared|]. intros _.
  apply kicked_off_quiet; [solve_quiet|]. intros now. unfold sendMessage, s_await, a_await. cbn [ensures mbind async_mbind].
  intros [id|e]; cbn; [|done]. intros s [id'|e]; cbn; [|done].
  eapply ensures_mono, mint_all. intros r tr Htr Hr. eexists [_; _], tr. split_and!; [reflexivity|reflexivity|by apply Htr].
Qed.

(** When the kickoff succeeds, the announcement, which carries the session, was sent
    before a membership was minted, and every wallet was then asked for once and had
    one minted exactly if it had none. *)
Theorem kickoff_mints client W s tr s' :
  behaves W (kickoffChat address cfg client) s tr (Ok tt) s' ->
  exists before after,
    tr = before ++ after
    /\ hd_error (sends before) = Some (SendText (announceChannelId cfg) None None None None (announcement cfg) [])
    /\ includes (announcement cfg) (sessionId cfg) = true
    /\ minting (allWallets cfg) after.
Proof.
  intros Hb. destruct (ensures_behaves _ _ _ _ _ _ _ (kickoff_ensures client) Hb eq_refl) as (b & a & Htr & Hh & Hm).
  exists b, a. split_and!; [done|done| |done]. unfold announcement. rewrite <- !str_app_assoc.
  apply includes_app. rewrite <- (str_app_nil_r (sessionId cfg)) at 1. apply includes_prefix.
Qed.
End Kickoff.

(** ** Joining takes a membership *)

Section Guard.
Context `{Externals, Database} {Wallet : Type} (cfg : ChatConfig Wallet).
Abbreviation StressM := (async stress sans).

Definition granted (e : event sans) : bool :=
  match e with mkEvent (HasSpaceMembership _ _) (Ok true) => true | _ => false end.
Definition only_waits (e : event sans) : Prop :=
  match ev_call e with HasSpaceMembership _ _ | Timer _ | NeverSettles => True | _ => False end.

(** Until the contract grants a membership, the calls only ask for it and wait. *)
Fixpoint guarded (tr : list (event sans)) : Prop :=
  match tr with
  | [] => True
  | e :: tr => if granted e then True else only_waits e /\ guarded tr
  end.

Lemma always_mono {A} (p : StressM A) (I I' : list (event sans) -> Prop) : (forall tr, I tr -> I' tr) -> always p I -> always p I'.
Proof.
  revert I I'. induction p as [r|c f IH|f IH|s p IH]; intros I I' HI; cbn; intros [H1 H2]; (split; [by apply HI|]).
  - done.
  - intros r. eapply IH, H2. intros tr. apply HI.
  - intros s. by eapply IH, H2.
  - by eapply IH, H2.
Qed.

Lemma guarded_cons e tr : only_waits e -> guarded tr -> guarded (e :: tr).
Proof. intros He Ht. cbn. by destruct (granted e). Qed.

Lemma sleep_guarded ms : always (sleep ms) guarded /\ ensures (sleep ms) (fun _ tr => Forall only_waits tr).
Proof.
  split; cbn.
  - split; [done|]. intros s. split; [done|]. intros [t|e]; cbn; [|done]. split; [done|]. intros s'. done.
  - intros s [t|e]; cbn; [intros s'|]; by repeat constructor.
Qed.

Lemma guarded_app tr tr' : Forall only_waits tr -> guarded tr' -> guarded (tr ++ tr').
Proof. induction 1; [done|]. intros Hg. apply guarded_cons; auto. Qed.

(** [p] keeps the guard, and when it succeeds anything may follow. *)
Definition opens {A} (p : StressM A) : Prop :=
  always p guarded /\ ensures p (fun r tr => match r with Ok _ => forall tr', guarded (tr ++ tr') | _ => True end).

Lemma check_guarded client : always (checkMembership cfg client) guarded
  /\ ensures (checkMembership cfg client) (fun r tr => match r with
       | Ok (Some _) => forall tr', guarded (tr ++ tr')
       | _ => Forall only_waits tr
       end).
Proof.
  split; cbn.
  - split; [done|]. by intros [[|]|e].
  - intros [[|]|e]; cbn; by repeat constructor.
Qed.

Lemma now_ensures : ensures date_now (fun _ tr => tr = []).
Proof. done. Qed.

Lemma always_waits {A} (p : StressM A) tr : Forall only_waits tr -> always p guarded -> always p (fun tr' => guarded (tr ++ tr')).
Proof. intros Htr. apply always_mono. intros tr'. by apply guarded_app. Qed.

Lemma poll_opens client rounds interval timeoutMs start logId :
  opens (poll rounds (checkMembership cfg client) interval timeoutMs start logId).
Proof.
  induction rounds as [|n [IH1 IH2]]; cbn [poll].
  - split; cbn; [split; [done|]; by intros [[]|e]|by intros [[]|e]].
  - split.
    + apply always_bind; [apply check_guarded|]. eapply ensures_mono, (proj2 (check_guarded client)).
      intros [[a|]|e] tr Htr; [by apply always_true| |done]. apply always_waits; [done|].
      apply always_bind; [done|]. eapply ensures_mono, now_ensures. intros [now|e] tr' ->; [|done].
      destruct (num_cmp _ _ _); [done|].
      apply always_bind; [apply sleep_guarded|]. eapply ensures_mono, (proj2 (sleep_guarded interval)).
      intros [[]|e] tr' Htr'; [|done]. by apply (always_waits _ tr').
    + apply ensures_bind. eapply ensures_mono, (proj2 (check_guarded client)).
      intros [[a|]|e] tr Htr; [intros tr2; rewrite app_nil_r; apply Htr| |done].
      apply ensures_bind. eapply ensures_mono, now_ensures. intros [now|e] tr' ->; [|done].
      destruct (num_cmp _ _ _); [done|].
      apply ensures_bind. eapply ensures_mono, (proj2 (sleep_guarded interval)). intros [[]|e] tr' Htr'; [|done].
      eapply ensures_mono, IH2. intros [a|e] tr2 Hg; [|done]. intros tr3.
      rewrite app_nil_l, <- !app_assoc. apply guarded_app; [done|]. apply guarded_app; [done|apply Hg].
Qed.

(** A client that joins the chat does nothing before the contract says that it has a
    membership: it asks again, and waits, and when it gives up it has done nothing else. *)
Theorem joining_needs_membership rounds client o s : guarded (trace (run (joinChat cfg rounds client) o s)).
Proof.
  apply always_run. unfold joinChat, membershipInterval.
  assert (Hs : forall {A} (m : draws A), always (sample m) guarded /\ ensures (sample m) (fun _ tr => tr = [])).
  { intros A m. unfold sample. split; cbn; [split; [done|]|]; intros s'; by destruct (m (randoms s')). }
  apply always_bind.
  { apply always_bind; [apply Hs|]. eapply ensures_mono, (proj2 (Hs _ draw)). by intros [r|e] tr ->. }
  apply ensures_bind. eapply ensures_mono, (proj2 (Hs _ draw)). intros [r|e] tr ->; [|done]. cbn [mret async_mret ensures app].
  unfold waitForClient, waitFor, date_now.
  apply always_bind; [split; [done|]; intros s'; apply poll_opens|]. intros s'. cbn [mbind async_mbind a_get mret async_mret].
  eapply ensures_mono; [|apply (proj2 (poll_opens client rounds _ _ _ _))]. intros [a|e] tr Hg; [|done]. by apply always_true.
Qed.
End Guard.

(** ** Joining succeeds *)

Section Completion.
Context `{Externals, Database} {Wallet : Type} (cfg : ChatConfig Wallet) (client : StressClient).
Abbreviation StressM := (async stress sans).

(** The announcement is the event [m] of the stream [r], the announce channel, and the
    streams that the client reads are there. *)
Context (r m : nat).
Definition announced (s : stress) : Prop :=
  (exists view ev, view_of r (sdk s) = Ok view /\ find_session (sessionId cfg) view = Some m /\ heap view !! m = Some ev)
  /\ (forall id r', ClientState.stream (IdString id) (sdk s) = Some r' -> is_Some (objs (sdk s) !! r'))
  /\ (forall id r', ClientState.userStreamId (sdk s) = Some id -> jm_get id (streams (sdk s)) = Some r' ->
        exists view user, view_of r' (sdk s) = Ok view /\ userContent view = Ok user).

(** The contract grants the membership, every call succeeds, and the client holds the
    announce channel in [r]. *)
Definition answered (e : event sans) : Prop :=
  match e with
  | mkEvent (HasSpaceMembership _ _) a => a = Ok true
  | mkEvent (WaitForStream id) a => exists r', a = Ok r' /\ (id = announceChannelId cfg -> r' = r)
  | mkEvent NeverSettles _ => True
  | mkEvent _ (Ok _) => True
  | mkEvent _ (Throw _) => False
  end.

(** [p] completes within [n] awaits with a value that satisfies [C]. *)
Definition works {A} (n : nat) (p : StressM A) (C : A -> Prop) : Prop :=
  forall s, announced s -> spec (fun _ => announced) answered n p s (fun res s' _ => (exists a, res = Ok a /\ C a) /\ announced s').

Lemma works_bind {A B} n n' (p : StressM A) (k : A -> StressM B) C D :
  works n p C -> (forall a, C a -> works n' (k a) D) -> works (n + n') (p ≫= k) D.
Proof.
  intros Hp Hk s Hs. apply spec_bind. eapply spec_mono; [by apply Hp|done|]. intros res s1 tr [(a & -> & Ha) Hs1].
  eapply spec_mono; [by apply (Hk a Ha)|done|]. done.
Qed.

Lemma works_mono {A} n n' (p : StressM A) (C : A -> Prop) : works n p C -> (n <= n')%nat -> works n' p C.
Proof. intros Hp Hn s Hs. eapply spec_mono; [by apply Hp|done|done]. Qed.

Lemma works_ret {A} n (a : A) (C : A -> Prop) : C a -> works n (mret a) C.
Proof. intros Ha s Hs. apply spec_done. split; [|done]. by exists a. Qed.

Lemma works_await c (C : sans c -> Prop) : c <> NeverSettles ->
  (forall a, answered (mkEvent c (Ok a)) -> C a) -> works 1 (s_await c) C.
Proof.
  intros Hc Ha s Hs. apply spec_await. intros res s' Hs' Hres. apply spec_done. split; [|done].
  destruct res as [a|e]; [exists a; eauto|]. exfalso. destruct c; cbn in Hres; naive_solver.
Qed.

Lemma works_get {A} n (k : stress -> StressM A) C :
  (forall s, announced s -> works n (k s) C) -> works n (s ← a_get; k s) C.
Proof. intros Hk s Hs. apply spec_get. by apply Hk. Qed.

Lemma works_modify {A} n f (p : StressM A) C : (forall s, announced s -> announced (f s)) ->
  works n p C -> works n (a_modify f;; p) C.
Proof. intros Hf Hp s Hs. apply spec_get, spec_put. by apply Hp, Hf. Qed.

Lemma works_lift {A} n (x : A) (res : result A) (C : A -> Prop) : res = Ok x -> C x -> works n (a_lift res) C.
Proof. intros -> Hx. by apply works_ret. Qed.

Lemma works_sample {A} n (d : draws A) : works n (sample d) (fun _ => True).
Proof.
  apply works_get. intros s Hs. destruct (d (randoms s)) as [a rs]. apply works_modify; [done|by apply works_ret].
Qed.

Lemma works_poll {T} n rounds (condition : StressM (option T)) interval timeoutMs C :
  works n condition (fun o => exists t, o = Some t /\ C t) -> (1 <= rounds)%nat ->
  works n (waitForClient client rounds condition interval timeoutMs) C.
Proof.
  intros Hc Hr. unfold waitForClient, waitFor, date_now. destruct rounds as [|rounds]; [lia|].
  apply (works_get n (fun s => poll _ _ _ _ (clock s) _)). intros s Hs. cbn [poll].
  rewrite <- (Nat.add_0_r n). eapply works_bind; [exact Hc|]. intros o (t & -> & Ht). by apply works_ret.
Qed.

Context (Hids : exists uid id, makeUserStreamId (IdString (conn_userId client)) (conn_userId client) = Ok uid
                            /\ streamIdAsBytes (IdString uid) = Ok id)
        (Hdefault : exists channel, makeDefaultChannelStreamId (spaceId cfg) = Ok channel).

Ltac await :=
  unfold sendMessage, sendReaction;
  lazymatch goal with |- works _ (s_await ?c) ?C => apply (works_mono 1); [apply (works_await c C); [done|]|lia] end.

Lemma works_userExists : works 1 (userExists client None) (fun _ => True).
Proof.
  destruct Hids as (uid & id & Huid & Hid). unfold userExists. cbn [default from_option].
  apply (works_bind 0 1 _ _ (fun x => x = uid)); [by eapply works_lift|]. intros _ ->.
  apply (works_bind 0 1 _ _ (fun x => x = id)); [by eapply works_lift|]. intros _ ->. by await.
Qed.

Lemma works_isMemberOf streamId : works 1 (isMemberOf client streamId None) (fun _ => True).
Proof.
  unfold isMemberOf. apply works_get. intros s (_ & Hobjs & _). apply (works_bind 1 0 _ _ (fun _ => True)).
  - destruct (ClientState.stream _ _) as [r'|] eqn:Hr; [|by await].
    destruct (Hobjs _ _ Hr) as [o Ho]. eapply works_lift; [|done]. unfold view_of. by rewrite Ho.
  - intros view _. by apply works_ret.
Qed.

Lemma works_startStreamsClient : works 1 (startStreamsClient (spaceId cfg)) (fun _ => True).
Proof.
  unfold startStreamsClient. apply works_get. intros s Hs. destruct (is_defined _); [by apply works_ret|].
  apply (works_bind 1 0 _ _ (fun _ => True)); [by await|]. intros _ _ s' Hs'. apply spec_get, spec_put, spec_done.
  split; [by exists tt|done].
Qed.

Lemma works_joinSpace : works 3 (joinSpace client (spaceId cfg) true) (fun _ => True).
Proof.
  destruct Hdefault as [channel Hch]. unfold joinSpace. apply (works_bind 0 3 _ _ (fun _ => True)); [by apply works_ret|].
  intros _ _. apply (works_bind 1 2 _ _ (fun _ => True)); [apply works_startStreamsClient|]. intros _ _.
  apply (works_bind 1 1 _ _ (fun _ => True)); [by await|]. intros _ _.
  apply (works_bind 0 1 _ _ (fun x => x = channel)); [by eapply works_lift|]. intros _ ->. by await.
Qed.

Lemma works_startFollowerClient : works 7 (startFollowerClient cfg client) (fun _ => True).
Proof.
  unfold startFollowerClient, startClient. cbn [andb negb].
  apply (works_bind 1 6 _ _ (fun _ => True)); [apply works_userExists|]. intros found _.
  apply (works_bind 4 2 _ _ (fun _ => True)).
  - destruct found; cbn [negb].
    + apply (works_bind 1 3 _ _ (fun _ => True)); [apply works_isMemberOf|]. intros [|] _; cbn [negb].
      * eapply works_mono; [apply works_startStreamsClient|lia].
      * apply works_joinSpace.
    + apply (works_bind 0 4 _ _ (fun _ => True)); [by apply works_ret|]. intros _ _.
      eapply works_mono; [apply works_joinSpace|lia].
  - intros _ _. apply (works_bind 1 1 _ _ (fun _ => True)); [apply works_isMemberOf|]. intros [|] _; cbn [negb].
    + by apply works_ret.
    + by await.
Qed.

Lemma works_ensureKeysShared : works 1 (ensureKeysShared (announceChannelId cfg)) (fun _ => True).
Proof. unfold ensureKeysShared. apply works_get. intros s Hs. destruct (is_defined _); [by await|by apply works_ret]. Qed.

Lemma works_hash_of : works 0 (hash_of r m) (fun _ => True).
Proof.
  unfold hash_of. apply works_get. intros s ((view & ev & Hv & _ & Hm) & _).
  apply (works_bind 0 0 _ _ (fun v => v = view)); [by eapply works_lift|]. intros _ ->. rewrite Hm. by apply works_ret.
Qed.

Lemma works_findRootMessage : works 0 (findRootMessage cfg r) (fun o => exists t, o = Some t /\ t = m).
Proof.
  unfold findRootMessage. apply works_get. intros s ((view & ev & Hv & Hf & _) & _).
  apply (works_bind 0 0 _ _ (fun v => v = view)); [by eapply works_lift|]. intros _ ->. rewrite Hf. apply works_ret. by exists m.
Qed.

Lemma works_joinedAlready channelId : works 0 (joinedAlready channelId) (fun _ => True).
Proof.
  unfold joinedAlready. apply works_get. intros s (_ & _ & Huser).
  destruct (ClientState.userStreamId (sdk s)) as [id|]; cbn [mbind option_bind]; [|by apply works_ret].
  destruct (jm_get id _) as [r'|] eqn:Hr; [|by apply works_ret]. destruct (Huser id r' eq_refl Hr) as (view & user & Hv & Hu).
  apply (works_bind 0 0 _ _ (fun v => v = view)); [by eapply works_lift|]. intros _ ->.
  apply (works_bind 0 0 _ _ (fun _ => True)); [by eapply works_lift|]. intros u _. by apply works_ret.
Qed.

Lemma works_checkIn channelId : works 3 (checkIn cfg channelId) (fun _ => True).
Proof.
  unfold checkIn. apply (works_bind 0 3 _ _ (fun _ => True)); [apply works_joinedAlready|]. intros joined _.
  apply (works_bind 2 1 _ _ (fun _ => True)).
  - destruct joined; [by apply works_ret|]. apply (works_bind 1 1 _ _ (fun _ => True)); [by await|]. intros _ _.
    apply (works_bind 1 0 _ _ (fun _ => True)); [by await|]. intros _ _. by apply works_ret.
  - intros _ _. apply (works_bind 0 1 _ _ (fun _ => True)); [apply works_sample|]. intros silly _.
    apply (works_bind 1 0 _ _ (fun _ => True)); [by await|]. intros _ _. by apply works_ret.
Qed.

Lemma works_checkIns channels : works (length channels * 3) (a_for channels (checkIn cfg)) (fun _ => True).
Proof.
  induction channels as [|ch channels IH]; cbn [a_for length Nat.mul]; [by apply works_ret|].
  apply (works_bind 3 (length channels * 3) _ _ (fun _ => True)); [apply works_checkIn|]. by intros _ _.
Qed.

(** When the membership is granted, the client sees the announcement and its calls are
    answered, then [joinChat] completes. *)
Theorem joinChat_completes rounds s : (1 <= rounds)%nat -> announced s ->
  spec (fun _ => announced) answered (12 + length (channelIds cfg) * 3) (joinChat cfg rounds client) s (fun res _ _ => res = Ok tt).
Proof.
  intros Hr Hs. enough (Hw : works (12 + length (channelIds cfg) * 3) (joinChat cfg rounds client) (fun _ => True)).
  { eapply spec_mono; [by apply Hw|done|]. by intros res s' tr [([] & -> & _) _]. }
  unfold joinChat, membershipInterval. set (n := (length (channelIds cfg) * 3)%nat).
  apply (works_bind 0 (12 + n) _ _ (fun _ => True)).
  { apply (works_bind 0 0 _ _ (fun _ => True)); [apply works_sample|]. intros d _. by apply works_ret. }
  intros interval _. apply (works_bind 1 (11 + n) _ _ (fun _ => True)).
  { apply works_poll; [|done]. unfold checkMembership. apply (works_bind 1 0 _ _ (fun b => b = true)).
    - await. by intros a [= ->].
    - intros _ ->. apply works_ret. by exists tt. }
  intros _ _. apply (works_bind 7 (4 + n) _ _ (fun _ => True)); [apply works_startFollowerClient|]. intros _ _.
  apply (works_bind 1 (3 + n) _ _ (fun r' => r' = r)).
  { await. intros a (r' & [= ->] & Heq). by apply Heq. }
  intros _ ->. apply (works_bind 0 (3 + n) _ _ (fun t => t = m)); [apply works_poll; [apply works_findRootMessage|done]|].
  intros _ ->. apply (works_bind 2 (1 + n) _ _ (fun _ => True)).
  { destruct (num_cmp _ _ _); [|by apply works_ret].
    apply (works_bind 1 1 _ _ (fun _ => True)); [apply works_ensureKeysShared|]. intros _ _. apply works_get. intros s' _.
    apply (works_bind 0 1 _ _ (fun _ => True)); [apply works_hash_of|]. intros hash _.
    apply (works_bind 1 0 _ _ (fun _ => True)); [by await|]. intros _ _. by apply works_ret. }
  intros _ _. apply (works_bind 0 (1 + n) _ _ (fun _ => True)); [apply works_hash_of|]. intros hash _.
  apply (works_bind 0 (1 + n) _ _ (fun _ => True)); [apply works_sample|]. intros emoji _.
  apply (works_bind 1 n _ _ (fun _ => True)); [by await|]. intros _ _. apply works_checkIns.
Qed.
End Completion.

(** ** Concrete runs *)

Definition demo_user : string := "0x" +:+ str_repeat "01" 20.
Definition demo_cfg : ChatConfig string :=
  mkChatConfig (Some 0) (Some 1) (Some 1) (Some 2) (Some 2) (Some 1) (Some 10) "5e551" ("10" +:+ str_repeat "0" 62) "20" ["20"]
    ["w0"; "w1"] (Some 1) (Some 2) ["w1"] 0 (Some 20000) (Some 20000).
Definition demo_stress_client : StressClient := mkStressClient 1 demo_user "w1".
(** The client sees the announcement in the channel "20". *)
Definition demo_sdk : ClientState.t :=
  (on_view 0 (StreamStateView.appendLocalEvent "~1" 5 (make_ChannelMessage_Post_Content_Text (announcement demo_cfg) None) Status_sent true)
     demo_client).2.
Definition demo_info : SystemInfo := mkSystemInfo "Linux" "1 seconds" "8 MB" "4 MB" "1" "x" "1 MHz".
Definition demo_state : stress := mkStress demo_sdk false 0 [] demo_info.

Definition demo_reply (c : scall) : result (sans c) :=
  match c with
  | Timer due => Ok due
  | GetBalance => Ok 1
  | HasSpaceMembership _ address => Ok (negb (String.eqb address "w0"))
  | JoinSpaceTx _ _ | RpcStreamExists _ => Ok true
  | GetDynamicPricingModule | SendText _ _ _ _ _ _ _ | SendReaction _ _ _ => Ok "id"
  | CreateSpaceTx _ _ _ _ | CreateChannelTx _ _ _ _ | WaitForStream _ => Ok 0%nat
  | GetRoles _ => Ok []
  | TxWait _ => Ok None
  | InitializeUser _ | JoinStream _ | EnsureOutboundSession _ | SetUsername _ _ | CreateSpaceStream _
  | CreateChannelStream _ _ | StopClient => Ok tt
  | GetStreamView _ => view_of 0 demo_sdk
  | NeverSettles => Throw (JsError "")
  end.

(** Answer the client of a process that has one. *)
Definition demo_step (pr : process) : process :=
  match pr_threads pr with
  | [th] => match th_prog th with
            | Await c k => mkProcess (pr_phase pr) [set_running th (k (demo_reply c)) (th_state th) (th_log th ++ [(mkEvent c (demo_reply c), th_state th)])]
            | _ => pr
            end
  | _ => pr
  end.

Lemma demo_steps n pr : rtc (process_step (fun w => w) demo_cfg 3) pr (Nat.iter n demo_step pr).
Proof.
  induction n as [|n IH]; [done|]. rewrite Nat.iter_succ. etrans; [exact IH|]. destruct (Nat.iter n demo_step pr) as [ph ths].
  unfold demo_step. cbn. destruct ths as [|th [|th' ths]]; [apply rtc_refl| |apply rtc_refl].
  destruct (th_prog th) as [|c k| |] eqn:Hp; [apply rtc_refl| |apply rtc_refl..]. apply rtc_once.
  by apply (step_answer _ _ _ ph [th] 0 th c k (demo_reply c) (fun s => s)).
Qed.

Definition demo_process : process :=
  match startStressChat (fun w => w) demo_cfg 3 [demo_stress_client] [demo_state] with
  | Ok pr => pr
  | Throw _ => mkProcess Kickoff []
  end.

Lemma demo_phase n pr : pr_phase (Nat.iter n demo_step pr) = pr_phase pr.
Proof.
  induction n as [|n IH]; [done|]. rewrite Nat.iter_succ, <- IH. unfold demo_step.
  destruct (pr_threads _) as [|th [|]]; [done| |done]. by destruct (th_prog th).
Qed.

Definition demo_joined : process := Nat.iter 20 demo_step demo_process.

Lemma one_finished `{Database} ths : map th_prog ths = [Done (Ok tt)] -> Forall finished ths.
Proof. destruct ths as [|th [|]]; [done| |done]. intros [= Hp]. by constructor. Qed.

Lemma demo_finishes : Forall finished (pr_threads demo_joined).
Proof. apply one_finished. vm_compute. reflexivity. Qed.

Lemma next_step pr ph' : Forall finished (pr_threads pr) -> next_phase (pr_phase pr) = Some ph' ->
  process_step (fun w => w) demo_cfg 3 pr (start_phase (fun w => w) demo_cfg 3 ph' (pr_threads pr)).
Proof. destruct pr. apply step_phase. Qed.

Lemma demo_profiles : rtc (process_step (fun w => w) demo_cfg 3) demo_process
  (start_phase (fun w => w) demo_cfg 3 Profiles (pr_threads demo_joined)).
Proof.
  assert (Hr : rtc (process_step (fun w => w) demo_cfg 3) demo_process demo_joined) by (unfold demo_joined; apply demo_steps).
  assert (Hp : pr_phase demo_joined = Joining) by (unfold demo_joined; rewrite demo_phase; reflexivity).
  pose proof demo_finishes as Hf. revert Hr Hp Hf. generalize demo_joined as pr. intros pr Hr Hp Hf.
  eapply rtc_r; [exact Hr|]. apply next_step; [exact Hf|]. by rewrite Hp.
Qed.

Lemma chat_after_joining_witness :
  Forall (has_joined demo_cfg) (pr_threads (start_phase (fun w => w) demo_cfg 3 Profiles (pr_threads demo_joined))).
Proof.
  refine (proj2 (chat_after_joining (fun w => w) demo_cfg 3 [demo_stress_client] [demo_state] demo_process _ _ _ demo_profiles _ _));
    [reflexivity|reflexivity|discriminate|discriminate].
Defined.

Lemma waitFor_ends_witness :
  spec time_passes timers_hold 3 (waitForClient demo_stress_client 3 (mret (@None unit)) (Some 100) (Some (Some 150))) demo_state
    (fun r s' tr => Forall settles tr /\ match r with
                    | Ok _ => True
                    | Throw e => e = JsError (logId demo_stress_client +:+ " timeout after " +:+ pretty 150 +:+ "ms") /\ 150 < clock s' - 0
                    end).
Proof.
  apply (waitFor_ends (mret (@None unit)) 0 100 150 3 demo_stress_client demo_state); [|done|done|lia].
  intros s. apply spec_done. split_and!; [by exists None|done|constructor].
Defined.

Lemma demo_announced : announced demo_cfg 0 0 demo_state.
Proof.
  split_and!.
  - eexists _, _. split_and!; by vm_compute.
  - intros id r'. change (jm_get id [("20", 0%nat)] = Some r' -> is_Some (objs demo_sdk !! r')). cbn.
    destruct (String.eqb id "20") eqn:Hid; [|done]. intros [= <-]. vm_compute. by eexists.
  - intros id r' Hid. vm_compute in Hid. injection Hid as <-. by vm_compute.
Qed.

Lemma joinChat_completes_witness :
  spec (fun _ => announced demo_cfg 0 0) (answered demo_cfg 0) 15 (joinChat demo_cfg 1 demo_stress_client) demo_state
    (fun res _ _ => res = Ok tt).
Proof.
  apply (joinChat_completes demo_cfg demo_stress_client 0 0); [| |lia|apply demo_announced].
  - set (uid := "a8" +:+ str_repeat "01" 20 +:+ str_repeat "0" 22).
    exists uid, (match streamIdAsBytes (IdString uid) with Ok b => b | Throw _ => [] end). split; vm_compute; reflexivity.
  - exists ("20" +:+ str_repeat "0" 62). vm_compute. reflexivity.
Defined.

#[local] Existing Instance demo_Crypto.

(** A message that is sent through the client of the SDK. *)
Definition demo_low : moment stress lans :=
  mkMoment (fun c => match c return result (lans c) with Sdk c => demo_answer (Ok tt) (Ok demo_data) c | Outer c => demo_reply c end) (fun s => s).

Lemma implementation_refines_witness :
  exists id tr, behaves (performed (d_ret "~7")) (StressChat.sendMessage "20" "hi" None None None) demo_state tr (Ok id)
    (state (run (implementation (d_ret "~7") (StressChat.sendMessage "20" "hi" None None None)) (replicate 9 demo_low) demo_state)).
Proof.
  destruct (got (run (implementation (d_ret "~7") (StressChat.sendMessage "20" "hi" None None None)) (replicate 9 demo_low) demo_state))
    as [[id|e]|c] eqn:Hgot; [|by vm_compute in Hgot..].
  destruct (implementation_refines (d_ret "~7") _ _ _ _ Hgot) as [tr Htr]. by exists id, tr.
Defined.
